(* ===== verification/_CoqProject ===== *)
-Q . S2P
Prelude.v
KState.v
Spinlock.v
ProcList.v
ProcAbs.v
Proc.v
ProcInv.v
ProcThm.v
ProcLife.v
ProcFork.v
ProcSys.v
Toy.v
ProcProps.v
ProcOps.v
LockProps.v
ProcFaults.v
ProcWitness.v
Bytes.v
SleepLock.v
Bio.v
BioRep.v
Log.v
LogRep.v
LogProps.v
Txn.v
TxnProps.v
Fs.v
FsPath.v
FsBlock.v
FsFile.v
FsData.v
FsWrite.v
FsProps.v
FsName.v
Fcntl.v
KFile.v
SysFile.v
KView.v
SysView.v
FileInv.v
FileSys.v
MemC.v
Grep.v
Ring.v
Pipe.v
Console.v
Kalloc.v
Vm.v
VmRep.v
VmMap.v
VmUser.v
VmCopy.v
VmFree.v
VmProps.v
ProcVm.v
Sh.v
ShLex.v
ShParse.v
ShProps.v
ShPrint.v
Printf.v
Virtio.v
VirtioSys.v
VirtioInv.v
VirtioStep.v
VirtioProps.v
Umalloc.v
UmallocInv.v
UmallocProps.v
ShRun.v
Exec.v
ExecLoad.v
ExecStack.v
ExecProps.v
ExecSys.v
ExecFs.v
ExecWitness.v
