(* ===== verification/Prelude.v ===== *)
(** * A verification of the kernel and the programs of this repository

    The repository is a teaching operating system for RISC-V in the tradition of
    xv6, in which the scheduler works on linked lists of processes.  This library is a
    model of it in Rocq, translated function by function from the C source under
    [src/], with the theorems that make the parts correct.

    ** How the code is modelled

    A C function is a Rocq function in the monad [M S] of this file.  [S] is the
    state of its component; a run returns a value and a new state ([Ok]), or ends in
    [Panic], [OutOfBounds] (an index outside an array), [Spin] (a lock that the running
    thread would wait for), [NoFuel] (the bound of a modelled loop) or [Callee]
    (a routine of another component did not return).  A theorem that says a function
    returns excludes all of these.  Integers are [Z] with the conversions [u32],
    [u64], [i32] written where the code converts or may wrap around; pointers to
    elements of an array are indices, [-1] for 0; memory is a function from addresses
    to bytes where the code depends on addresses (page tables, free lists, ELF images).
    Records and their fields have the names of the C structures, and
    [r <| f := v |>] updates a field.

    A component that calls another one without depending on how it works reaches it
    through a class: [KEnv] (what proc.c calls), [Copy] (either_copyin and
    either_copyout, for fs.c), [Peers] (pipes, devices and user memory, for file.c),
    [Device] (the disk, for its driver), [Files] (the file system, for exec.c).
    Instances are given with the theorems or in the files that connect two models:
    [ProcVm] puts proc.c on the models of vm.c and kalloc.c, [ExecFs] puts exec.c on the
    model of fs.c, [Toy] and the Witness files have small concrete ones.

    Code that sleeps is cut where it gives up the processor: what happens between
    two such points is one step, and the systems of steps ([ProcSys], [Pipe],
    [VirtioSys], [FileSys]) interleave the steps of all harts or processes.

    ** The parts, and what is shown of them

    *** Processes (kernel/proc.c, spinlock.c, cas.S)

    - [KState] the structures; [Spinlock] the locks of spinlock.c and the program logic
      for code that holds locks; [ProcList] add_proc_to_list and remove_proc_from_list
      with their hand-over-hand locking; [ProcAbs] lists as sequences; [Proc]
      everything else of proc.c, and safestrcpy; [ProcSys] the harts as a transition
      system.
    - [ProcInv], [ProcThm], [ProcLife], [ProcFork]: the invariant (each
      process is on exactly the list, or the CPU, its state names; identifiers are
      distinct) and the rule of each operation.
    - [ProcProps] (the invariant holds in every reachable state, and an operation that
      runs there without another hart inside one does not fault), [ProcOps] (the effect
      of each operation; round robin; a sleeper is found by a later wakeup),
      [LockProps] (locks, lists as sequences), [ProcFaults] (where the code
      goes wrong: no memory in fork, two harts in allocproc), [ProcWitness], [Toy].

    *** The disk: cache, log and file system (bio.c, sleeplock.c, log.c, fs.c)

    - [Bytes] integers in blocks; [SleepLock]; [Bio] with [BioRep]: the
      buffer cache is a map of blocks; [Log] with [LogRep], [LogProps]:
      a crash after any prefix of the block writes leaves, after recovery, the state
      before or after the transaction, also when the recovery is interrupted.
    - [Txn], [TxnProps]: the rules for code between begin_op and end_op, and the
      theorem that any such code is atomic.
    - [Fs], [FsBlock], [FsFile], [FsData], [FsWrite], [FsProps]: readi and writei on the
      bytes of a file, block allocation and inodes, and writei inside a transaction
      across a crash; [FsPath], [FsName]: path names, directories as tables of names,
      and the theorem that namei finds the inode a path names.

    *** Open files and system calls (file.c, sysfile.c, syscall.c)

    - [Fcntl], [KFile] (file.c, pipealloc), [SysFile] (the calls and their arguments).
    - [KView], [SysView]: what every function does to locks and reference counts on
      every path on which it returns; [FileInv], [FileSys]: the counts are exact
      in all states that processes can reach, and no call leaves a lock behind.

    *** Memory (kalloc.c, vm.c, string.c)

    - [MemC] string.c and the string functions of ulib.c; [Kalloc] memory and the page
      allocator with its list inside the free pages; [Vm], [VmRep], [VmMap], [VmUser],
      [VmCopy], [VmFree], [VmProps]: page tables in memory, address spaces that
      grow, shrink, are copied and freed without losing a page, and copies across the
      user boundary; [ProcVm] the page table functions of proc.c on them.

    *** Programs (exec.c, sys_exec)

    - [Exec] the code; [ExecLoad] the loading of segments; [ExecStack] arguments on
      the stack; [ExecProps] exec becomes the program or leaves no trace; [ExecSys] the
      system call, from the strings in user memory; [ExecFs] the operations of fs.c
      behind [Files] keep the promises of [FilesSpec]; [ExecWitness] a machine that
      runs a program from its disk.

    *** Devices (pipe.c, console.c, uart.c, virtio_disk.c, printf.c)

    - [Ring] circular buffers; [Pipe] a pipe is a bounded queue, and who is
      woken when; [Console] the line editor and the serial line.
    - [Virtio], [VirtioSys], [VirtioInv], [VirtioStep], [VirtioProps]: the driver and a
      device that keeps to the virtio specification implement a disk of atomic blocks,
      without faults; the device looks at its queue when it is notified and interrupts
      only when the last interrupt was acknowledged, and no process sleeps without
      somebody who has been told to act.
    - [Printf]: both printfs; a number is printed in its decimal notation.

    *** User programs (grep.c, sh.c, umalloc.c, ulib.c)

    - [Grep]: the matcher decides its language, the program prints the matching lines
      of files whose lines fit into its buffer.
    - [Sh], [ShLex], [ShParse], [ShProps], [ShPrint]: the parser of the shell ends on
      every line and reads back every command that is printed; [ShRun]: the system calls
      of a session, from the bytes typed into the buffer of 100 bytes on, start the
      processes the commands denote, with their descriptors.
    - [Umalloc], [UmallocInv], [UmallocProps]: malloc and free keep every byte of the heap
      in exactly one block, for processes below 2 GB; sbrk has the arithmetic of sys_sbrk
      and growproc.

    ** Bounds

    A loop whose recursion is not structural has fuel.  A walk over an array or list of
    the kernel gets the size of the table plus one (NPROC for process lists, NBUF for
    the buffer cache, the log size for absorption), a loop over a range the length of
    the range.  vm.c and exec.c share one number: the theorems ask for more than
    a page and than the pages of memory involved.  The shell's parser gets the length
    of the line times a constant, grep and the string functions more than the length
    of the input.  That the fuel is enough is part of each theorem that says a function
    returns; where it is a hypothesis, the witness meets it.

    ** What the theorems assume

    - The transition system of processes has the load balancer off (BLNCFLG is off
      in the Makefile); [leastUsedCpu] is modelled, and is a finding.  A process
      identifier does not run past 2^31, init does not exit, and setcpu is given a
      number of a CPU.  [reachable_no_fault] and [fork_spec] assume that the pages fork
      asks for are to be had ([fork_memory]; by [fork_memory_vm] six free pages and
      three for each page of the parent are enough); [ProcFaults] shows what happens
      when they are not.
    - The theorems of [ProcOps] are about one operation, or a sequence of them, while no
      other hart is inside an operation; two harts inside operations at once
      are the subject of [allocproc_deadlock].
    - The buffer cache, the log and the file system are models of one thread; another
      thread that holds a lock makes the run end in [Spin].  Crashes happen between
      block writes: the disk writes a block completely or not at all.
    - Path lookup and exec assume that the files names lead to are in order
      ([world_ok]) and that two entries of the inode table are free; exec has the
      process's page table and a page for its stack variables as [exec_ready] says.

    ** Not modelled

    - trap.c, trampoline.S, kernelvec.S, plic.c, start.c, entry.S, swtch.S, main.c: code
      that reads and writes registers of the processor and of devices, and moves
      between contexts.  The handlers it calls (consoleintr, virtio_disk_intr, wakeup,
      yield, the system calls) are modelled as operations that may happen at any time,
      and the initialisers that main.c calls are modelled with their components.
    - kvminithart, consoleinit and uartinit, which program registers; procdump, which
      prints for debugging; ramdisk.c, which is not linked.
    - The calls of sysproc.c that only fetch an argument and call proc.c.
    - The test programs, and the programs that are a loop around one system call. *)

From Stdlib Require Export ZArith Lia String FunctionalExtensionality.
From stdpp Require Export base numbers option strings sets tactics.
From stdpp Require Export list.

Open Scope Z_scope.

#[global] Arguments Z.eqb : simpl never.
#[global] Arguments Z.ltb : simpl never.
#[global] Arguments Z.leb : simpl never.
#[global] Arguments Z.add : simpl never.
#[global] Arguments Z.sub : simpl never.
#[global] Arguments Z.mul : simpl never.
#[global] Arguments Z.of_nat : simpl never.

(** ** Outcomes and the kernel monad

    A kernel routine either returns, panics, touches memory outside an array,
    spins on a lock that nobody in the run will release, exhausts the fuel of a
    modelled loop, or is cut short because a callee that belongs to another
    component does not return (it panicked there, or it blocked). *)
Inductive outcome (S A : Type) : Type :=
| Ok (a : A) (s : S)
| Panic (msg : string)
| OutOfBounds
| Spin
| NoFuel
| Callee.
Arguments Ok {S A} a s.
Arguments Panic {S A} msg.
Arguments OutOfBounds {S A}.
Arguments Spin {S A}.
Arguments NoFuel {S A}.
Arguments Callee {S A}.

(** The ways a routine may fail to return. *)
Inductive failure :=
| FPanic (msg : string) | FOutOfBounds | FSpin | FNoFuel | FCallee.

(** The outcome satisfies [Q] if the routine returned, its failure [ext] otherwise. *)
Definition ends_in {S A} (ext : failure -> Prop) (Q : A -> S -> Prop) (o : outcome S A) : Prop :=
  match o with
  | Ok a s => Q a s
  | Panic msg => ext (FPanic msg)
  | OutOfBounds => ext FOutOfBounds
  | Spin => ext FSpin
  | NoFuel => ext FNoFuel
  | Callee => ext FCallee
  end.

Definition M (S A : Type) : Type := S -> outcome S A.

#[export] Instance M_ret S : MRet (M S) := fun A a s => Ok a s.
#[export] Instance M_bind S : MBind (M S) := fun A B k m s =>
  match m s with
  | Ok a s' => k a s'
  | Panic msg => Panic msg
  | OutOfBounds => OutOfBounds
  | Spin => Spin
  | NoFuel => NoFuel
  | Callee => Callee
  end.

Definition panic {S A} (msg : string) : M S A := fun _ => Panic msg.
Definition out_of_bounds {S A} : M S A := fun _ => OutOfBounds.
Definition spin {S A} : M S A := fun _ => Spin.
Definition no_fuel {S A} : M S A := fun _ => NoFuel.
Definition gets {S A} (f : S -> A) : M S A := fun s => Ok (f s) s.
Definition modify {S} (f : S -> S) : M S unit := fun s => Ok tt (f s).

(** [if(c) m] with no else branch *)
Definition when {S} (c : bool) (m : M S unit) : M S unit :=
  if c then m else mret tt.

(** [for(x in xs) body], and the same loop with a body that may return early. *)
Fixpoint for_each {S A} (xs : list A) (body : A -> M S unit) : M S unit :=
  match xs with
  | [] => mret tt
  | x :: xs' => body x ;; for_each xs' body
  end.

Fixpoint for_return {S A R} (xs : list A) (body : A -> M S (option R)) : M S (option R) :=
  match xs with
  | [] => mret None
  | x :: xs' =>
      r ← body x;
      match r with
      | Some v => mret (Some v)
      | None => for_return xs' body
      end
  end.

(** ** Machine integers: the value an unsigned or a signed n-bit object holds *)
Definition u8 (z : Z) : Z := z mod 2^8.
Definition u16 (z : Z) : Z := z mod 2^16.
Definition u32 (z : Z) : Z := z mod 2^32.
Definition u64 (z : Z) : Z := z mod 2^64.
Definition i32 (z : Z) : Z := (z + 2^31) mod 2^32 - 2^31.

Lemma u32_id z : 0 <= z < 2^32 -> u32 z = z.
Proof. intros; unfold u32; apply Z.mod_small; lia. Qed.
Lemma u64_id z : 0 <= z < 2^64 -> u64 z = z.
Proof. intros; unfold u64; apply Z.mod_small; lia. Qed.
Lemma i32_id z : -2^31 <= z < 2^31 -> i32 z = z.
Proof. intros; unfold i32; rewrite Z.mod_small; lia. Qed.
Lemma u32_range z : 0 <= u32 z < 2^32.
Proof. apply Z.mod_pos_bound; lia. Qed.
Lemma u64_range z : 0 <= u64 z < 2^64.
Proof. apply Z.mod_pos_bound; lia. Qed.

(** ** Arrays as total functions with pointwise update *)
Definition upd {K V} `{EqDecision K} (f : K -> V) (k : K) (v : V) : K -> V :=
  fun k' => if decide (k' = k) then v else f k'.

Section upd.
Context {K V : Type} `{EqDecision K}.
Implicit Types (f : K -> V) (k : K) (v : V).

Lemma upd_eq f k v : upd f k v k = v.
Proof. unfold upd; by rewrite decide_True. Qed.

Lemma upd_ne f k v k' : k' ≠ k -> upd f k v k' = f k'.
Proof. intros; unfold upd; by rewrite decide_False. Qed.

Lemma upd_upd f k v v' : upd (upd f k v) k v' = upd f k v'.
Proof. apply functional_extensionality; intros x; unfold upd; by case_decide. Qed.

Lemma upd_comm f k v k' v' :
  k ≠ k' -> upd (upd f k v) k' v' = upd (upd f k' v') k v.
Proof.
  intros; apply functional_extensionality; intros x; unfold upd.
  repeat case_decide; congruence.
Qed.

Lemma upd_same f k v : f k = v -> upd f k v = f.
Proof. intros <-; apply functional_extensionality; intros x; unfold upd; by case_decide; subst. Qed.
End upd.

Create Rewrite HintDb upd.
#[export] Hint Rewrite @upd_eq @upd_upd : upd.
#[export] Hint Rewrite @upd_ne using (first [congruence | lia | done]) : upd.

(** Case analysis on every [upd] lookup in the goal and the context. *)
Ltac upd_cases :=
  repeat match goal with
  | H : context [upd _ ?k _ ?k'] |- _ =>
      unfold upd in H; destruct (decide (k' = k)); subst
  | |- context [upd _ ?k _ ?k'] =>
      unfold upd; destruct (decide (k' = k)); subst
  end; simpl in *.

(** ** Record update: [r <| field := v |>]

    [Eta R] holds the eta expansion of the record type [R]; the setter of a
    projection is found by replacing that projection in it. *)
Class Eta (R : Type) := eta : R -> R.
Class Setter {R T : Type} (proj : R -> T) := setter : (T -> T) -> R -> R.

Ltac solve_setter :=
  match goal with
  | |- @Setter ?R ?T ?proj =>
      let e := constr:(@eta R _) in
      let e := eval cbv beta delta [eta] in e in
      let h := head e in
      let e := eval cbv beta delta [h] in e in
      match eval pattern proj in e with
      | ?g _ => exact (fun f => g (fun r => f (proj r)))
      end
  end
with head t := match t with ?f _ => head f | _ => t end.
#[export] Hint Extern 1 (Setter _) => solve_setter : typeclass_instances.

Notation "r <| proj := v |>" := (setter (proj := proj) (fun _ => v) r)
  (at level 1, left associativity, format "r  <| proj  :=  v |>").
Notation "r <| proj ::= f |>" := (setter (proj := proj) f r)
  (at level 1, left associativity, format "r  <| proj  ::=  f |>").

(** ** Lists *)
Lemma filter_ext_in {A} (P Q : A -> Prop) `{forall x, Decision (P x)} `{forall x, Decision (Q x)} (xs : list A) :
  (forall x, x ∈ xs -> P x <-> Q x) -> filter P xs = filter Q xs.
Proof.
  induction xs as [|x xs IH]; intros Heq; [done|]. rewrite !filter_cons.
  rewrite IH by (intros y Hy; apply Heq, elem_of_cons; auto).
  pose proof (Heq x ltac:(apply elem_of_cons; auto)).
  destruct (decide (P x)), (decide (Q x)); tauto.
Qed.

Lemma filter_keeps {A} (P : A -> Prop) `{forall x, Decision (P x)} (xs : list A) :
  (forall x, x ∈ xs -> P x) -> filter P xs = xs.
Proof.
  induction xs as [|x xs IH]; intros Hall; [done|]. rewrite filter_cons.
  rewrite decide_True by (apply Hall, elem_of_cons; auto).
  rewrite IH; [done|]. intros y Hy. apply Hall, elem_of_cons; auto.
Qed.

(** Running the first statement of a program. *)
Lemma bind_Ok {S A B} (m : M S A) (k : A -> M S B) s v s' :
  m s = Ok v s' -> (m ≫= k) s = k v s'.
Proof. intros Hm. unfold mbind, M_bind. by rewrite Hm. Qed.
