(* ===== verification/KState.v ===== *)
(** * KState: the data the process subsystem of the kernel works on

    The structures of [kernel/param.h], [kernel/proc.h] and
    [kernel/spinlock.h] as records, and the kernel state they live in.  The
    state has two parts: [core] is the data (process table, process lists,
    per-CPU scheduler fields), [sync] is the locking state (every spinlock, and
    the [noff]/[intena]/SIE fields of each hart).  [struct cpu] and
    [struct list] are therefore split: their lock and interrupt fields are in
    [sync], everything else in [core].  The type parameter [E] is the state of
    the components that the process code calls into (allocator, page tables,
    file system). *)

From S2P Require Import Prelude.

(** ** param.h, memlayout.h, riscv.h *)
Definition NPROC : Z := 64.
Definition NCPU : Z := 8.
Definition NOFILE : Z := 16.
Definition PGSIZE : Z := 4096.
Definition MAXVA : Z := Z.shiftl 1 (9 + 9 + 9 + 12 - 1).
Definition TRAMPOLINE : Z := MAXVA - PGSIZE.
Definition TRAPFRAME : Z := TRAMPOLINE - PGSIZE.
Definition KSTACK (p : Z) : Z := TRAMPOLINE - (p + 1) * 2 * PGSIZE.
Definition PTE_R : Z := Z.shiftl 1 1.
Definition PTE_W : Z := Z.shiftl 1 2.
Definition PTE_X : Z := Z.shiftl 1 3.

(** ** spinlock.h *)
Record spinlock := Spinlock {
  locked : Z;
  lk_name : string;
  lk_cpu : option Z                (* index into cpus[], None for 0 *)
}.
#[export] Instance spinlock_eta : Eta spinlock :=
  fun r => Spinlock (locked r) (lk_name r) (lk_cpu r).

(** ** proc.h *)
Inductive procstate := UNUSED | USED | SLEEPING | RUNNABLE | RUNNING | ZOMBIE.
#[export] Instance procstate_eq_dec : EqDecision procstate.
Proof. solve_decision. Defined.

(** The lists of processes; each holds the index of its first process, -1 when
    empty.  [LRunnable k] is [cpus[k].runnable]. *)
Inductive listid := LUnused | LZombie | LSleeping | LRunnable (k : Z).
#[export] Instance listid_eq_dec : EqDecision listid.
Proof. solve_decision. Defined.

(** The spinlocks, by the object that holds them.  [LkOther] are the locks of
    other components that reach this code through [sleep(chan, lk)]. *)
Inductive lockid :=
| LkProc (i : Z)                   (* proc[i].lock *)
| LkState (i : Z)                  (* proc[i].stateLock *)
| LkList (l : listid)              (* the lock of a list *)
| LkPid                            (* pid_lock *)
| LkWait                           (* wait_lock *)
| LkOther (n : Z).
#[export] Instance lockid_eq_dec : EqDecision lockid.
Proof. solve_decision. Defined.

(** Sleep channels are compared by address only: a process structure, or an
    object of another component. *)
Inductive chan := CNull | CProc (i : Z) | CAddr (a : Z).
#[export] Instance chan_eq_dec : EqDecision chan.
Proof. solve_decision. Defined.

Record context := Context { ctx_ra : Z; ctx_sp : Z; ctx_s : list Z (* s0..s11 *) }.

Record proc := Proc {
  state : procstate;
  p_chan : chan;
  killed : Z;
  xstate : Z;
  pid : Z;
  cpu_num : Z;
  index_in_proc : Z;
  next_index_in_list : Z;
  parent : option Z;               (* index into proc[], None for 0 *)
  kstack : Z;
  sz : Z;
  pagetable : Z;
  trapframe : Z;
  p_context : context;
  ofile : Z -> Z;                  (* struct file pointers, 0 for none *)
  cwd : Z;
  name : list Z                    (* char name[16] *)
}.
#[export] Instance proc_eta : Eta proc := fun r =>
  Proc (state r) (p_chan r) (killed r) (xstate r) (pid r) (cpu_num r)
    (index_in_proc r) (next_index_in_list r) (parent r) (kstack r) (sz r)
    (pagetable r) (trapframe r) (p_context r) (ofile r) (cwd r) (name r).

Record cpu := Cpu {
  c_proc : option Z;               (* the process running on this cpu *)
  runnable : Z;                    (* runnable.first *)
  procCount : Z                    (* uint64 *)
}.
#[export] Instance cpu_eta : Eta cpu := fun r => Cpu (c_proc r) (runnable r) (procCount r).

(** ** The globals of proc.c *)
Record core (E : Type) := Core {
  procs : Z -> proc;
  cpus : Z -> cpu;
  unusedList : Z;
  zombieList : Z;
  sleepingList : Z;
  initproc : option Z;
  nextpid : Z;
  env : E
}.
Arguments Core {E}.
Arguments procs {E}.
Arguments cpus {E}.
Arguments unusedList {E}.
Arguments zombieList {E}.
Arguments sleepingList {E}.
Arguments initproc {E}.
Arguments nextpid {E}.
Arguments env {E}.
#[export] Instance core_eta E : Eta (core E) := fun r =>
  Core (procs r) (cpus r) (unusedList r) (zombieList r) (sleepingList r)
    (initproc r) (nextpid r) (env r).

Record sync := Sync {
  locks : lockid -> spinlock;
  noff : Z -> Z;                   (* cpus[h].noff *)
  intena : Z -> bool;              (* cpus[h].intena *)
  sie : Z -> bool;                 (* supervisor interrupts enabled on hart h *)
  sched_intena : Z -> bool         (* the local variable intena of sched() on the kernel stack of process i *)
}.
#[export] Instance sync_eta : Eta sync := fun r => Sync (locks r) (noff r) (intena r) (sie r) (sched_intena r).

Record kstate (E : Type) := KState { kcore : core E; ksync : sync }.
Arguments KState {E}.
Arguments kcore {E}.
Arguments ksync {E}.
#[export] Instance kstate_eta E : Eta (kstate E) := fun r => KState (kcore r) (ksync r).

(** ** Array bounds *)
Definition proc_index_ok (i : Z) : bool := (0 <=? i) && (i <? NPROC).
Definition cpu_index_ok (k : Z) : bool := (0 <=? k) && (k <? NCPU).
Definition list_ok (l : listid) : bool :=
  match l with LRunnable k => cpu_index_ok k | _ => true end.
Definition lock_ok (lk : lockid) : bool :=
  match lk with
  | LkProc i | LkState i => proc_index_ok i
  | LkList l => list_ok l
  | _ => true
  end.

(** ** Access to the data, with the array bounds checked *)
Section access.
Context {E : Type}.
Abbreviation K := (M (kstate E)).

Definition get_core : K (core E) := gets kcore.
Definition mod_core (f : core E -> core E) : K unit := modify (fun s => s <| kcore ::= f |>).

(** [proc[i]] as an rvalue, and an assignment to fields of [proc[i]]. *)
Definition get_proc (i : Z) : K proc :=
  if proc_index_ok i then gets (fun s => procs (kcore s) i) else out_of_bounds.
Definition set_proc (i : Z) (f : proc -> proc) : K unit :=
  if proc_index_ok i
  then mod_core (fun c => c <| procs ::= fun ps => upd ps i (f (ps i)) |>)
  else out_of_bounds.

Definition get_cpu (k : Z) : K cpu :=
  if cpu_index_ok k then gets (fun s => cpus (kcore s) k) else out_of_bounds.
Definition set_cpu (k : Z) (f : cpu -> cpu) : K unit :=
  if cpu_index_ok k
  then mod_core (fun c => c <| cpus ::= fun cs => upd cs k (f (cs k)) |>)
  else out_of_bounds.

(** [l->first] *)
Definition first_of (c : core E) (l : listid) : Z :=
  match l with
  | LUnused => unusedList c
  | LZombie => zombieList c
  | LSleeping => sleepingList c
  | LRunnable k => runnable (cpus c k)
  end.
Definition with_first (l : listid) (v : Z) (c : core E) : core E :=
  match l with
  | LUnused => c <| unusedList := v |>
  | LZombie => c <| zombieList := v |>
  | LSleeping => c <| sleepingList := v |>
  | LRunnable k => c <| cpus ::= fun cs => upd cs k ((cs k) <| runnable := v |>) |>
  end.
Definition get_first (l : listid) : K Z :=
  if list_ok l then gets (fun s => first_of (kcore s) l) else out_of_bounds.
Definition set_first (l : listid) (v : Z) : K unit :=
  if list_ok l then mod_core (with_first l v) else out_of_bounds.
End access.
