(* ===== verification/Spinlock.v ===== *)
(** * Spinlock: kernel/spinlock.c

    [push_off]/[pop_off] and the spinlock operations, with their panics, on the
    locking state [sync].  [h] is the hart the code runs on ([r_tp()]).
    [acquire] on a lock that another hart holds spins for ever in a run of one
    hart, which is the outcome [Spin].

    The second half is the program logic the process subsystem is verified
    with: [runs ext h m L c Q] says that [m], started on hart [h] holding exactly
    the locks [L] with data [c], returns in a state satisfying [Q], or does not
    return for a reason that [ext] allows. *)

From S2P Require Import Prelude KState.

Section ops.
Context {E : Type}.
Abbreviation K := (M (kstate E)).

Definition mod_sync (f : sync -> sync) : K unit := modify (fun s => s <| ksync ::= f |>).
Definition get_sync {A} (f : sync -> A) : K A := gets (fun s => f (ksync s)).

(** riscv.h: [intr_get], [intr_on], [intr_off] on hart [h] *)
Definition intr_get (h : Z) : K bool := get_sync (fun y => sie y h).
Definition intr_on (h : Z) : K unit := mod_sync (fun y => y <| sie ::= fun f => upd f h true |>).
Definition intr_off (h : Z) : K unit := mod_sync (fun y => y <| sie ::= fun f => upd f h false |>).

Definition push_off (h : Z) : K unit :=
  old ← intr_get h;
  intr_off h;;
  n ← get_sync (fun y => noff y h);
  when (n =? 0) (mod_sync (fun y => y <| intena ::= fun f => upd f h old |>));;
  mod_sync (fun y => y <| noff ::= fun f => upd f h (f h + 1) |>).

Definition pop_off (h : Z) : K unit :=
  on ← intr_get h;
  if on : bool then panic "pop_off - interruptible" else
  n ← get_sync (fun y => noff y h);
  if n <? 1 then panic "pop_off" else
  mod_sync (fun y => y <| noff ::= fun f => upd f h (f h - 1) |>);;
  n' ← get_sync (fun y => noff y h);
  ena ← get_sync (fun y => intena y h);
  when ((n' =? 0) && ena) (intr_on h).

Definition get_lock (lk : lockid) : K spinlock :=
  if lock_ok lk then get_sync (fun y => locks y lk) else out_of_bounds.
Definition set_lock (lk : lockid) (f : spinlock -> spinlock) : K unit :=
  if lock_ok lk
  then mod_sync (fun y => y <| locks ::= fun m => upd m lk (f (m lk)) |>)
  else out_of_bounds.

Definition initlock (lk : lockid) (nm : string) : K unit :=
  set_lock lk (fun l => l <| lk_name := nm |> <| locked := 0 |> <| lk_cpu := None |>).

(** [lk->locked && lk->cpu == mycpu()] *)
Definition holding (h : Z) (lk : lockid) : K bool :=
  l ← get_lock lk;
  mret (negb (locked l =? 0) && bool_decide (lk_cpu l = Some h)).

Definition acquire (h : Z) (lk : lockid) : K unit :=
  push_off h;;
  r ← holding h lk;
  if r : bool then panic "acquire" else
  l ← get_lock lk;
  (* while(__sync_lock_test_and_set(&lk->locked, 1) != 0) ; *)
  if negb (locked l =? 0) then spin else
  set_lock lk (fun l => l <| locked := 1 |>);;
  set_lock lk (fun l => l <| lk_cpu := Some h |>).

Definition release (h : Z) (lk : lockid) : K unit :=
  r ← holding h lk;
  if negb r then panic "release" else
  set_lock lk (fun l => l <| lk_cpu := None |>);;
  set_lock lk (fun l => l <| locked := 0 |>);;
  pop_off h.
End ops.

#[global] Arguments acquire : simpl never.
#[global] Arguments release : simpl never.
#[global] Arguments holding : simpl never.
#[global] Arguments initlock : simpl never.
#[global] Arguments push_off : simpl never.
#[global] Arguments pop_off : simpl never.

(** ** The locking state of a hart that holds exactly the locks [L]

    Every lock of [L] is held by [h], every other lock is free; [noff] counts
    the held locks, and interrupts are off while there is one.  No other hart
    is inside a critical section. *)
Definition held_by (h : Z) (L : list lockid) (y : sync) (lk : lockid) : Prop :=
  if decide (lk ∈ L)
  then locked (locks y lk) = 1 ∧ lk_cpu (locks y lk) = Some h
  else locked (locks y lk) = 0 ∧ lk_cpu (locks y lk) = None.

Record lk_inv (h : Z) (L : list lockid) (y : sync) : Prop := {
  li_locks : forall lk, held_by h L y lk;
  li_nodup : NoDup L;
  li_noff : noff y h = Z.of_nat (length L);
  li_sie : L ≠ [] -> sie y h = false;
  li_others : forall h', h' ≠ h -> noff y h' = 0
}.

Section logic.
Context {E : Type} (ext : failure -> Prop) (h : Z).
Abbreviation K := (M (kstate E)).
Implicit Types (L : list lockid) (c : core E) (y : sync).

Definition runs {A} (m : K A) L c (Q : A -> list lockid -> core E -> Prop) : Prop :=
  forall y, lk_inv h L y ->
  ends_in ext (fun a s' => ∃ L', lk_inv h L' (ksync s') ∧ Q a L' (kcore s')) (m (KState c y)).

Lemma runs_mono {A} (m : K A) L c (Q Q' : A -> list lockid -> core E -> Prop) :
  runs m L c Q -> (forall a L' c', Q a L' c' -> Q' a L' c') -> runs m L c Q'.
Proof.
  intros H HQ y Hy; specialize (H y Hy).
  destruct (m (KState c y)); simpl in *; try done. destruct H as (L' & ? & ?); eauto.
Qed.

Lemma runs_ret {A} (a : A) L c Q : Q a L c -> runs (mret a) L c Q.
Proof. intros HQ y Hy; exists L; split; [exact Hy | exact HQ]. Qed.

Lemma runs_bind {A B} (m : K A) (k : A -> K B) L c Q :
  runs m L c (fun a L' c' => runs (k a) L' c' Q) -> runs (m ≫= k) L c Q.
Proof.
  intros H y Hy; specialize (H y Hy).
  unfold mbind, M_bind. destruct (m (KState c y)) as [a [c' y']| | | | |]; try done.
  destruct H as (L' & Hy' & H). apply H, Hy'.
Qed.

Lemma runs_get {A} (f : kstate E -> A) (g : core E -> A) L c Q :
  (forall y, f (KState c y) = g c) -> Q (g c) L c -> runs (gets f) L c Q.
Proof. intros Hf HQ y Hy; exists L; simpl. rewrite Hf; auto. Qed.

Lemma runs_mod_core f L c Q : Q tt L (f c) -> runs (mod_core f) L c Q.
Proof. intros HQ y Hy; exists L; split; [exact Hy | exact HQ]. Qed.

Lemma runs_when (b : bool) (m : K unit) L c Q :
  (b = true -> runs m L c Q) -> (b = false -> Q tt L c) -> runs (when b m) L c Q.
Proof. destruct b; simpl; intros H1 H2; [by apply H1 | by apply runs_ret, H2]. Qed.

Lemma runs_get_proc i L c Q :
  0 <= i < NPROC -> Q (procs c i) L c -> runs (get_proc i) L c Q.
Proof.
  intros Hi HQ. unfold get_proc.
  assert (proc_index_ok i = true) as -> by (unfold proc_index_ok; lia).
  by apply (runs_get _ (fun c => procs c i)).
Qed.

Lemma runs_set_proc i f L c Q :
  0 <= i < NPROC ->
  Q tt L (c <| procs ::= fun ps => upd ps i (f (ps i)) |>) -> runs (set_proc i f) L c Q.
Proof.
  intros Hi HQ. unfold set_proc.
  assert (proc_index_ok i = true) as -> by (unfold proc_index_ok; lia).
  by apply runs_mod_core.
Qed.

Lemma runs_get_cpu k L c Q :
  0 <= k < NCPU -> Q (cpus c k) L c -> runs (get_cpu k) L c Q.
Proof.
  intros Hi HQ. unfold get_cpu.
  assert (cpu_index_ok k = true) as -> by (unfold cpu_index_ok; lia).
  by apply (runs_get _ (fun c => cpus c k)).
Qed.

Lemma runs_set_cpu k f L c Q :
  0 <= k < NCPU ->
  Q tt L (c <| cpus ::= fun cs => upd cs k (f (cs k)) |>) -> runs (set_cpu k f) L c Q.
Proof.
  intros Hi HQ. unfold set_cpu.
  assert (cpu_index_ok k = true) as -> by (unfold cpu_index_ok; lia).
  by apply runs_mod_core.
Qed.

Lemma runs_get_first l L c Q :
  list_ok l = true -> Q (first_of c l) L c -> runs (get_first l) L c Q.
Proof.
  intros Hl HQ. unfold get_first. rewrite Hl.
  by apply (runs_get _ (fun c => first_of c l)).
Qed.

Lemma runs_set_first l v L c Q :
  list_ok l = true -> Q tt L (with_first l v c) -> runs (set_first l v) L c Q.
Proof. intros Hl HQ. unfold set_first. rewrite Hl. by apply runs_mod_core. Qed.

Lemma lk_inv_perm L L' y : L ≡ₚ L' -> lk_inv h L y -> lk_inv h L' y.
Proof.
  intros HL []; split.
  - intros lk; specialize (li_locks0 lk); unfold held_by in *.
    destruct (decide (lk ∈ L)) as [Hin|Hin]; rewrite HL in Hin;
      [rewrite decide_True by done | rewrite decide_False by done]; done.
  - by rewrite <- HL.
  - by rewrite <- HL.
  - intros ?; apply li_sie0. intros ->. by apply Permutation_nil_l in HL.
  - done.
Qed.

Lemma push_off_eq (s : kstate E) :
  push_off h s =
  Ok tt (KState (kcore s)
    ((ksync s) <| sie ::= fun f => upd f h false |>
      <| intena ::= fun f => if noff (ksync s) h =? 0 then upd f h (sie (ksync s) h) else f |>
      <| noff ::= fun f => upd f h (f h + 1) |>)).
Proof.
  destruct s as [c y]. unfold push_off, mbind, M_bind; cbn.
  destruct (noff y h =? 0); reflexivity.
Qed.

Lemma pop_off_eq (s : kstate E) :
  sie (ksync s) h = false -> 1 <= noff (ksync s) h ->
  pop_off h s =
  Ok tt (KState (kcore s)
    ((ksync s) <| noff ::= fun f => upd f h (f h - 1) |>
      <| sie ::= fun f => if (noff (ksync s) h =? 1) && intena (ksync s) h
                          then upd f h true else f |>)).
Proof.
  destruct s as [c y]; simpl. intros Hs Hn. unfold pop_off, mbind, M_bind; cbn.
  rewrite Hs. cbn. assert ((noff y h <? 1) = false) as -> by lia. cbn. rewrite upd_eq.
  replace (noff y h - 1 =? 0) with (noff y h =? 1) by lia.
  destruct ((noff y h =? 1) && intena y h); reflexivity.
Qed.

Lemma runs_release lk L L' c Q :
  lock_ok lk = true -> L ≡ₚ lk :: L' -> Q tt L' c -> runs (release h lk) L c Q.
Proof.
  intros Hok HL HQ y Hy. apply (lk_inv_perm _ _ _ HL) in Hy.
  destruct Hy as [Hl Hnd Hn Hs Ho]. pose proof (Hl lk) as Hlk. unfold held_by in Hlk.
  rewrite decide_True in Hlk by (apply elem_of_cons; auto). destruct Hlk as [Hk1 Hk2].
  apply NoDup_cons in Hnd as [Hnin Hnd].
  unfold release, holding, get_lock, set_lock. rewrite Hok.
  unfold mbind, M_bind, get_sync, gets, mret, M_ret. cbn. rewrite Hk1, Hk2.
  rewrite bool_decide_true by done. cbn.
  change (1 =? 0) with false; cbn.
  rewrite pop_off_eq; cbn; [|by apply Hs | rewrite Hn; simpl; lia].
  exists L'. split; [|done]. split; cbn.
  - intros lk'. unfold held_by; cbn. specialize (Hl lk'). unfold held_by in Hl.
    destruct (decide (lk' = lk)) as [->|Hne].
    + rewrite decide_False by done. rewrite upd_upd, upd_eq. cbn. by rewrite upd_eq.
    + rewrite !upd_ne by done. destruct (decide (lk' ∈ L')).
      * rewrite decide_True in Hl by (apply elem_of_cons; auto). done.
      * rewrite decide_False in Hl by (by apply not_elem_of_cons). done.
  - done.
  - rewrite upd_eq, Hn. simpl length. lia.
  - intros HL'. assert ((noff y h =? 1) = false) as ->
      by (apply Z.eqb_neq; rewrite Hn; destruct L'; [done|simpl length; lia]).
    by apply Hs.
  - intros h' Hh'. rewrite upd_ne by done. by apply Ho.
Qed.

Lemma runs_acquire lk L c Q :
  lock_ok lk = true -> lk ∉ L -> Q tt (lk :: L) c -> runs (acquire h lk) L c Q.
Proof.
  intros Hok Hnin HQ y [Hl Hnd Hn Hs Ho].
  pose proof (Hl lk) as Hlk. unfold held_by in Hlk.
  rewrite decide_False in Hlk by done. destruct Hlk as [Hk1 Hk2].
  unfold acquire, mbind, M_bind. rewrite push_off_eq. cbn.
  unfold holding, get_lock, set_lock. rewrite Hok.
  unfold mbind, M_bind, get_sync, gets, mret, M_ret. cbn. rewrite Hk1.
  change (0 =? 0) with true; cbn. rewrite Hk1. change (0 =? 0) with true; cbn.
  exists (lk :: L). split; [|done]. split; cbn.
  - intros lk'. unfold held_by; cbn. specialize (Hl lk'). unfold held_by in Hl.
    destruct (decide (lk' = lk)) as [->|Hne].
    + rewrite decide_True by (apply elem_of_cons; auto). rewrite upd_upd, upd_eq. cbn. rewrite upd_eq. done.
    + rewrite !upd_ne by done. destruct (decide (lk' ∈ L)).
      * rewrite decide_True by (apply elem_of_cons; auto). done.
      * rewrite decide_False by (by apply not_elem_of_cons). done.
  - by apply NoDup_cons_2.
  - rewrite upd_eq, Hn. lia.
  - intros _. by rewrite upd_eq.
  - intros h' Hh'. rewrite upd_ne by done. by apply Ho.
Qed.

(** Locking through a pointer outside the arrays. *)
Lemma runs_acquire_oob lk L c Q :
  lock_ok lk = false -> ext FOutOfBounds -> runs (acquire h lk) L c Q.
Proof.
  intros Hok Hext y _. unfold acquire, mbind, M_bind. rewrite push_off_eq.
  unfold holding, get_lock. by rewrite Hok.
Qed.

Lemma runs_panic {A} msg L c (Q : A -> list lockid -> core E -> Prop) :
  ext (FPanic msg) -> runs (panic msg) L c Q.
Proof. intros Hext y _. done. Qed.

(** A [push_off]/[pop_off] pair around a read, as in [myproc]. *)
Lemma runs_push_pop {A B} (m : K A) (v : A) (g : A -> B) L c Q :
  (forall y, m (KState c y) = Ok v (KState c y)) ->
  Q (g v) L c ->
  runs (push_off h;; r ← m; pop_off h;; mret (g r)) L c Q.
Proof.
  intros Hm HQ y [Hl Hnd Hn Hs Ho].
  unfold mbind, M_bind. rewrite push_off_eq, Hm, pop_off_eq; cbn;
    [|by rewrite upd_eq | rewrite upd_eq, Hn; lia].
  exists L. split; [|done]. split; cbn.
  - intros lk'. apply Hl.
  - done.
  - rewrite !upd_eq, Hn. lia.
  - intros HL. rewrite !upd_eq. assert ((noff y h + 1 =? 1) = false) as ->; [|cbn; by rewrite upd_eq].
    apply Z.eqb_neq; rewrite Hn. destruct L; simpl length; [done|lia].
  - intros h' Hh'. rewrite !upd_ne by done. by apply Ho.
Qed.

Lemma runs_holding lk L c Q :
  lock_ok lk = true -> Q (bool_decide (lk ∈ L)) L c -> runs (holding h lk) L c Q.
Proof.
  intros Hok HQ y Hy. unfold holding, get_lock. rewrite Hok.
  unfold mbind, M_bind, get_sync, gets, mret, M_ret; cbn. exists L. split; [done|].
  pose proof (li_locks _ _ _ Hy lk) as Hlk. unfold held_by in Hlk.
  destruct (decide (lk ∈ L)); destruct Hlk as [-> ->].
  - rewrite bool_decide_true in HQ by done. by rewrite (bool_decide_true (Some h = Some h)).
  - by rewrite bool_decide_false in HQ.
Qed.

(** Only [intena] and its saved copies change. *)
Lemma runs_mod_intena f L c Q :
  (forall y, locks (f y) = locks y ∧ noff (f y) = noff y ∧ sie (f y) = sie y) ->
  Q tt L c -> runs (mod_sync f) L c Q.
Proof.
  intros Hf HQ y [Hl Hnd Hn Hs Ho]. exists L. cbn. split; [|done]. destruct (Hf y) as (E1 & E2 & E3).
  split; rewrite ?E2, ?E3; [|done|done|done|].
  - intros lk. specialize (Hl lk). unfold held_by in *. by rewrite E1.
  - done.
Qed.

Lemma runs_noff L c Q :
  Q (Z.of_nat (length L)) L c -> runs (get_sync (fun y => noff y h)) L c Q.
Proof. intros HQ y Hy. exists L. cbn. by rewrite (li_noff _ _ _ Hy). Qed.

Lemma runs_intr_get L c Q : L ≠ [] -> Q false L c -> runs (intr_get h) L c Q.
Proof. intros HL HQ y Hy. exists L. cbn. by rewrite (li_sie _ _ _ Hy HL). Qed.

Lemma runs_intr_on c Q : Q tt [] c -> runs (intr_on h) [] c Q.
Proof. intros HQ y [Hl Hnd Hn Hs Ho]. exists []. cbn. split; [|done]. by split. Qed.

Lemma runs_initlock lk nm L c Q :
  lock_ok lk = true -> lk ∉ L -> Q tt L c -> runs (initlock lk nm) L c Q.
Proof.
  intros Hok Hin HQ y [Hl Hnd Hn Hs Ho]. unfold initlock, set_lock. rewrite Hok.
  exists L. cbn. split; [|done]. split; [|done..].
  intros lk'. specialize (Hl lk'). unfold held_by in *; cbn.
  destruct (decide (lk' = lk)) as [->|Hne].
  - rewrite decide_False by done. by rewrite upd_eq.
  - by rewrite upd_ne.
Qed.
End logic.

(** ** Symbolic execution

    [rstep] applies the rule of the first statement of the program; the side
    conditions on locks are solved by [solve_lock]. *)
Ltac perm_front :=
  lazymatch goal with
  | |- ?a :: _ ≡ₚ ?lk :: _ =>
      first [ reflexivity
            | etransitivity; [eapply (@perm_skip _ a _ (lk :: _)); perm_front | apply perm_swap] ]
  end.

Ltac solve_notin :=
  repeat (apply not_elem_of_cons; split; [solve [discriminate | congruence | auto]|]);
  first [ apply not_elem_of_nil | solve [auto] ].

Ltac solve_index :=
  unfold lock_ok, list_ok, proc_index_ok, cpu_index_ok in *; unfold NPROC, NCPU in *; lia.

Ltac solve_lock := first [ done | assumption | solve_index ].

Ltac rstep :=
  cbv beta;
  lazymatch goal with
  | |- runs _ _ (_ ≫= _) _ _ _ => apply runs_bind
  | |- runs _ _ (mret _) _ _ _ => apply runs_ret
  | |- runs _ _ (acquire _ _) _ _ _ =>
      apply runs_acquire; [solve_lock | try solve [solve_notin] | ]
  | |- runs _ _ (release _ _) _ _ _ =>
      eapply runs_release; [solve_lock | perm_front | ]
  | |- runs _ _ (get_proc _) _ _ _ => apply runs_get_proc; [try solve_lock | ]
  | |- runs _ _ (set_proc _ _) _ _ _ => apply runs_set_proc; [try solve_lock | ]
  | |- runs _ _ (get_cpu _) _ _ _ => apply runs_get_cpu; [try solve_lock | ]
  | |- runs _ _ (set_cpu _ _) _ _ _ => apply runs_set_cpu; [try solve_lock | ]
  | |- runs _ _ (get_first _) _ _ _ => apply runs_get_first; [try solve_lock | ]
  | |- runs _ _ (set_first _ _) _ _ _ => apply runs_set_first; [try solve_lock | ]
  | |- runs _ _ (mod_core _) _ _ _ => apply runs_mod_core
  | |- runs _ _ (initlock _ _) _ _ _ =>
      apply runs_initlock; [try solve_lock | try solve [solve_notin] | ]
  end.
