(* ===== verification/ProcList.v ===== *)
(** * ProcList: the process lists of kernel/proc.c

    [add_proc_to_list] and [remove_proc_from_list] walk a singly linked list
    threaded through [next_index_in_list] with hand-over-hand locking of the
    [stateLock]s; the list's own lock is released once the walk has moved past
    the first process.  A list is represented by the sequence of process
    indices it holds ([plist]); the two operations implement appending at the
    end and deleting an element, and touch no other list. *)

From S2P Require Import Prelude KState Spinlock.

Section ops.
Context {E : Type}.
Abbreviation K := (M (kstate E)).

(** A list has at most [NPROC] members, so a walk makes at most [NPROC] steps. *)
Definition walk_fuel : nat := S (Z.to_nat NPROC).

Definition set_next (i v : Z) : K unit :=
  set_proc i (fun p => p <| next_index_in_list := v |>).

Fixpoint add_walk (fuel : nat) (h : Z) (l : listid) (curr next : Z) (canRelease : bool)
  : K (Z * bool) :=
  match fuel with
  | O => no_fuel
  | S fuel' =>
      if next =? -1 then mret (curr, canRelease) else
      acquire h (LkState next);;
      release h (LkState curr);;
      p ← get_proc next;
      when canRelease (release h (LkList l));;
      add_walk fuel' h l next (next_index_in_list p) false
  end.

Definition add_proc_to_list (h : Z) (l : listid) (indexInProc : Z) : K unit :=
  acquire h (LkList l);;
  first ← get_first l;
  if first =? -1 then
    set_first l indexInProc;;
    acquire h (LkState indexInProc);;
    first' ← get_first l;
    set_next first' (-1);;
    release h (LkState indexInProc);;
    release h (LkList l)
  else
    acquire h (LkState first);;
    p ← get_proc first;
    r ← add_walk walk_fuel h l first (next_index_in_list p) true;
    let '(curr, canRelease) := (r : Z * bool) in
    acquire h (LkState indexInProc);;
    set_next curr indexInProc;;
    set_next indexInProc (-1);;
    release h (LkState indexInProc);;
    release h (LkState curr);;
    when canRelease (release h (LkList l)).

Fixpoint remove_walk (fuel : nat) (h : Z) (l : listid) (indexInProc prev curr next : Z)
    (canRelease : bool) : K (Z * Z * bool) :=
  match fuel with
  | O => no_fuel
  | S fuel' =>
      if next =? indexInProc then mret (prev, curr, canRelease) else
      acquire h (LkState next);;
      when (negb (prev =? -1)) (release h (LkState prev));;
      p ← get_proc next;
      when canRelease (release h (LkList l));;
      remove_walk fuel' h l indexInProc curr next (next_index_in_list p) false
  end.

Definition remove_proc_from_list (h : Z) (l : listid) (indexInProc : Z) : K unit :=
  acquire h (LkList l);;
  first ← get_first l;
  if first =? -1 then panic "Trying to remove from an empty list" else
  if first =? indexInProc then
    acquire h (LkState indexInProc);;
    p ← get_proc first;
    set_first l (next_index_in_list p);;
    set_next indexInProc (-1);;
    release h (LkState indexInProc);;
    release h (LkList l)
  else
    acquire h (LkState first);;
    p ← get_proc first;
    r ← remove_walk walk_fuel h l indexInProc (-1) first (next_index_in_list p) true;
    let '(prev, curr, canRelease) := (r : Z * Z * bool) in
    acquire h (LkState indexInProc);;
    q ← get_proc indexInProc;
    set_next curr (next_index_in_list q);;
    set_next indexInProc (-1);;
    release h (LkState indexInProc);;
    release h (LkState curr);;
    when (negb (prev =? -1)) (release h (LkState prev));;
    when canRelease (release h (LkList l)).
End ops.

#[global] Arguments add_proc_to_list : simpl never.
#[global] Arguments remove_proc_from_list : simpl never.

(** ** Representation *)

(** [chain nxt f xs]: following [nxt] from [f] visits exactly [xs] and ends in -1. *)
Fixpoint chain (nxt : Z -> Z) (f : Z) (xs : list Z) : Prop :=
  match xs with
  | [] => f = -1
  | x :: xs' => f = x ∧ 0 <= x < NPROC ∧ chain nxt (nxt x) xs'
  end.

Section rep.
Context {E : Type}.
Implicit Types (c : core E) (l : listid) (xs ys zs : list Z).

Definition next_in c (i : Z) : Z := next_index_in_list (procs c i).
Definition plist c l xs : Prop := chain (next_in c) (first_of c l) xs ∧ NoDup xs.

Definition put_next (i v : Z) c : core E :=
  c <| procs ::= fun ps => upd ps i ((ps i) <| next_index_in_list := v |>) |>.

(** The state after appending [i] to a list holding [xs], and after deleting
    [i] from a list in which [ys] precede it. *)
Definition link_last l xs i c : core E :=
  put_next i (-1)
    (match last xs with None => with_first l i c | Some z => put_next z i c end).
Definition unlink l ys i c : core E :=
  put_next i (-1)
    (match last ys with
     | None => with_first l (next_in c i) c
     | Some z => put_next z (next_in c i) c
     end).
End rep.

Lemma chain_ext nxt nxt' f xs :
  (forall x, x ∈ xs -> nxt' x = nxt x) -> chain nxt f xs -> chain nxt' f xs.
Proof.
  revert f. induction xs as [|x xs IH]; simpl; intros f Heq; [done|].
  intros (-> & Hx & Hc). do 2 (split; [done|]). rewrite Heq by (apply elem_of_cons; auto).
  apply IH; [|done]. intros y Hy. apply Heq, elem_of_cons; auto.
Qed.

Lemma chain_app nxt f xs ys :
  chain nxt f (xs ++ ys) -> ys ≠ [] ->
  chain nxt (match last xs with Some z => nxt z | None => f end) ys.
Proof.
  revert f. induction xs as [|x xs IH]; simpl; intros f Hc Hys; [done|].
  destruct Hc as (-> & Hx & Hc). specialize (IH _ Hc Hys).
  destruct xs as [|x' xs]; [done|]. change (last (x :: x' :: xs)) with (last (x' :: xs)).
  destruct (last (x' :: xs)) eqn:E; [done|]. by apply last_None in E.
Qed.

Lemma chain_range nxt f xs x : chain nxt f xs -> x ∈ xs -> 0 <= x < NPROC.
Proof.
  revert f. induction xs as [|y xs IH]; simpl; intros f Hc Hin; [by apply not_elem_of_nil in Hin|].
  destruct Hc as (-> & Hy & Hc). apply elem_of_cons in Hin as [->|Hin]; [done|by eapply IH].
Qed.

Lemma default_last_cons (d x : Z) xs : default d (last (x :: xs)) = default x (last xs).
Proof.
  revert d x. induction xs as [|y xs IH]; intros d x; [done|].
  change (last (x :: y :: xs)) with (last (y :: xs)). by rewrite !IH.
Qed.

Lemma last_elem_of (x : Z) xs : last xs = Some x -> x ∈ xs.
Proof. intros (l' & ->)%last_Some. apply elem_of_app; right. by apply list_elem_of_singleton. Qed.

Lemma indices_length xs : NoDup xs -> (forall x, x ∈ xs -> 0 <= x < NPROC) ->
  (length xs <= Z.to_nat NPROC)%nat.
Proof.
  intros Hnd Hr. rewrite <- (length_seqZ 0 NPROC).
  apply submseteq_length, NoDup_submseteq; [done|].
  intros x Hx. apply elem_of_seqZ. specialize (Hr x Hx). lia.
Qed.

(** ** The two operations, executed on a represented list *)
Section exec.
Context {E : Type} (ext : failure -> Prop) (h : Z) (l : listid) (Hl : list_ok l = true).
Context (L : list lockid) (HlL : LkList l ∉ L) (HsL : forall j, LkState j ∉ L).
Implicit Types (c : core E) (xs ys zs : list Z).

(** The locks held during a walk, apart from the [stateLock]s. *)
Definition walk_locks (canRelease : bool) : list lockid :=
  if canRelease then LkList l :: L else L.

Lemma walk_locks_state j b : LkState j ∉ walk_locks b.
Proof. destruct b; simpl; [apply not_elem_of_cons; split; [discriminate|]|]; apply HsL. Qed.

Lemma runs_add_walk fuel curr rest b c Q :
  chain (next_in c) (next_in c curr) rest -> NoDup (curr :: rest) ->
  0 <= curr < NPROC -> (length rest < fuel)%nat ->
  (let z := default curr (last rest) in
   let b' := match rest with [] => b | _ => false end in
   Q (z, b') (LkState z :: walk_locks b') c) ->
  runs ext h (add_walk fuel h l curr (next_in c curr) b) (LkState curr :: walk_locks b) c Q.
Proof.
  revert curr rest b. induction fuel as [|fuel IH]; intros curr rest b Hc Hnd Hr Hf HQ;
    [simpl in Hf; lia|].
  destruct rest as [|x rest]; simpl in Hc.
  - rewrite Hc. simpl. by apply runs_ret.
  - destruct Hc as (Hx & Hxr & Hc). cbn [add_walk]. rewrite Hx.
    assert ((x =? -1) = false) as -> by (unfold NPROC in *; lia).
    assert (x ≠ curr) by (intros ->; apply NoDup_cons in Hnd as [Hn _]; apply Hn, elem_of_cons; auto).
    rstep. rstep. { apply not_elem_of_cons; split; [congruence|apply walk_locks_state]. }
    rstep. rstep. rstep. rstep.
    assert (runs ext h (add_walk fuel h l x (next_in c x) false)
              (LkState x :: walk_locks false) c Q).
    { apply (IH x rest false); [done| by apply NoDup_cons in Hnd as [_ Hnd] | done | simpl in Hf; lia |].
      cbv zeta in HQ. rewrite default_last_cons in HQ. by destruct rest. }
    rstep. apply runs_when; intros ->; simpl; [by rstep|done].
Qed.

Lemma runs_add_proc_to_list xs i c Q :
  plist c l xs -> i ∉ xs -> 0 <= i < NPROC ->
  Q tt L (link_last l xs i c) -> runs ext h (add_proc_to_list h l i) L c Q.
Proof.
  intros [Hc Hnd] Hi Hir HQ. unfold add_proc_to_list. rstep. rstep. rstep. rstep.
  destruct xs as [|x xs]; simpl in Hc.
  - rewrite Hc. change (-1 =? -1) with true; cbv iota.
    do 6 rstep. unfold set_next. rstep. rstep.
    { destruct l; simpl; rewrite ?upd_eq; solve_lock. }
    rstep. rstep. rstep. unfold link_last in HQ. simpl in HQ.
    assert (first_of (with_first l i c) l = i) as ->; [|done].
    destruct l; simpl; rewrite ?upd_eq; done.
  - destruct Hc as (Hx & Hxr & Hc). rewrite Hx.
    assert ((x =? -1) = false) as -> by (unfold NPROC in *; lia).
    do 5 rstep.
    apply (runs_add_walk walk_fuel x xs true); [done..| |].
    { unfold walk_fuel. assert (length (x :: xs) <= Z.to_nat NPROC)%nat; [|simpl in *; lia].
      apply indices_length; [done|]. intros y [->|Hy]%elem_of_cons; [done|by eapply chain_range]. }
    cbv zeta. set (z := default x (last xs)). set (b := match xs with [] => true | _ => false end).
    assert (Hz : last (x :: xs) = Some z).
    { subst z. destruct (last (x :: xs)) eqn:Hlast; [|by apply last_None in Hlast].
      rewrite <- (default_last_cons x x xs), Hlast. done. }
    assert (z ≠ i) by (intros <-; by apply Hi, last_elem_of).
    assert (0 <= z < NPROC).
    { apply last_elem_of in Hz. apply elem_of_cons in Hz as [->|Hz]; [done|by eapply chain_range]. }
    rstep. rstep. { apply not_elem_of_cons; split; [congruence|apply walk_locks_state]. }
    unfold set_next. do 8 rstep.
    unfold link_last in HQ. rewrite Hz in HQ.
    apply runs_when; unfold walk_locks; intros ->; [rstep|]; done.
Qed.

(** [prev] is -1 on the first step of a removal walk, a locked process later. *)
Definition prev_locks (prev : Z) : list lockid :=
  if prev =? -1 then [] else [LkState prev].
Definition prev_ok (prev : Z) (ahead : list Z) : Prop :=
  prev = -1 ∨ (0 <= prev < NPROC ∧ prev ∉ ahead).

Lemma prev_locks_notin j prev b ahead :
  prev_ok prev ahead -> j ∈ ahead -> LkState j ∉ prev_locks prev ++ walk_locks b.
Proof.
  intros Hp Hj [Hin|Hin]%elem_of_app; [|by eapply walk_locks_state].
  unfold prev_locks in Hin. destruct (prev =? -1) eqn:Hprev.
  - by apply not_elem_of_nil in Hin.
  - apply list_elem_of_singleton in Hin as [= ->].
    destruct Hp as [->|[_ Hp]]; [lia|done].
Qed.

Lemma runs_release_prev prev L0 ahead b c (Q : unit -> list lockid -> core E -> Prop) :
  prev_ok prev ahead ->
  Q tt (L0 ++ walk_locks b) c ->
  runs ext h (when (negb (prev =? -1)) (release h (LkState prev)))
    (L0 ++ prev_locks prev ++ walk_locks b) c Q.
Proof.
  intros Hp HQ. unfold prev_locks. apply runs_when; intros Hprev.
  - assert ((prev =? -1) = false) as -> by (by destruct (prev =? -1)).
    eapply runs_release; [|symmetry; apply Permutation_middle|done].
    destruct Hp as [->|[? _]]; [done|solve_lock].
  - assert ((prev =? -1) = true) as -> by (by destruct (prev =? -1)). done.
Qed.

Lemma runs_remove_walk fuel i zs prev curr ys b c Q :
  chain (next_in c) (next_in c curr) (ys ++ i :: zs) -> NoDup (curr :: ys ++ i :: zs) ->
  prev_ok prev (curr :: ys ++ i :: zs) ->
  0 <= curr < NPROC -> (length ys < fuel)%nat ->
  (forall prev' b', let z := default curr (last ys) in
   prev_ok prev' (z :: i :: zs) ->
   Q (prev', z, b') (LkState z :: prev_locks prev' ++ walk_locks b') c) ->
  runs ext h (remove_walk fuel h l i prev curr (next_in c curr) b)
    (LkState curr :: prev_locks prev ++ walk_locks b) c Q.
Proof.
  revert prev curr ys b. induction fuel as [|fuel IH]; intros prev curr ys b Hc Hnd Hp Hr Hf HQ;
    [simpl in Hf; lia|].
  destruct ys as [|x ys]; simpl in Hc; destruct Hc as (Hx & Hxr & Hc); cbn [remove_walk]; rewrite Hx.
  - rewrite Z.eqb_refl. apply runs_ret, HQ. done.
  - apply NoDup_cons in Hnd as [Hcurr Hnd].
    assert (x ≠ i) by (intros ->; apply NoDup_cons in Hnd as [Hn _]; apply Hn, elem_of_app; right; apply elem_of_cons; auto).
    assert (x ≠ curr) by (intros ->; apply Hcurr, elem_of_cons; auto).
    assert ((x =? i) = false) as -> by lia.
    rstep. rstep.
    { apply not_elem_of_cons; split; [congruence|]. eapply prev_locks_notin; [done|].
      apply elem_of_cons; right. apply elem_of_cons; auto. }
    rstep. apply (runs_release_prev prev [LkState x; LkState curr] _ b _ _ Hp). simpl.
    rstep. rstep.
    assert (runs ext h (remove_walk fuel h l i curr x (next_in c x) false)
              (LkState x :: prev_locks curr ++ walk_locks false) c Q) as Hrec.
    { apply (IH curr x ys false); [done|done|right; done|done|simpl in Hf; lia|].
      intros prev' b'. specialize (HQ prev' b'). cbv zeta in *.
      by rewrite default_last_cons in HQ. }
    unfold prev_locks in Hrec. assert ((curr =? -1) = false) as Hcm by lia. rewrite Hcm in Hrec.
    rstep. apply runs_when; intros ->; simpl; [by rstep|done].
Qed.

Lemma runs_remove_proc_from_list ys i zs c Q :
  plist c l (ys ++ i :: zs) ->
  Q tt L (unlink l ys i c) -> runs ext h (remove_proc_from_list h l i) L c Q.
Proof.
  intros [Hc Hnd] HQ. unfold remove_proc_from_list. do 4 rstep.
  assert (Hir : 0 <= i < NPROC).
  { eapply chain_range; [exact Hc|]. apply elem_of_app; right; apply elem_of_cons; auto. }
  destruct ys as [|x ys]; simpl in Hc; destruct Hc as (Hx & Hxr & Hc); rewrite Hx.
  - assert ((i =? -1) = false) as -> by (unfold NPROC in *; lia). rewrite Z.eqb_refl.
    unfold set_next. repeat rstep. done.
  - assert ((x =? -1) = false) as -> by (unfold NPROC in *; lia).
    assert ((x =? i) = false) as ->.
    { apply Z.eqb_neq; intros ->. apply NoDup_cons in Hnd as [Hn _].
      apply Hn, elem_of_app; right; apply elem_of_cons; auto. }
    do 5 rstep.
    apply (runs_remove_walk walk_fuel i zs (-1) x ys true);
      [done|done|by left|done| |].
    { assert (length ((x :: ys) ++ i :: zs) <= Z.to_nat NPROC)%nat as Hlen.
      - apply indices_length; [done|]. intros y Hy.
        eapply (chain_range (next_in c) x); [|exact Hy]. simpl; done.
      - unfold walk_fuel. rewrite length_app in Hlen. simpl in *; lia. }
    intros prev b. cbv zeta. rewrite <- (default_last_cons x x ys).
    destruct (last (x :: ys)) as [z|] eqn:Hz; [|by apply last_None in Hz].
    simpl. intros Hp.
    assert (z ≠ i).
    { intros ->. apply last_elem_of in Hz. apply NoDup_app in Hnd as (_ & Hd & _).
      eapply Hd; [exact Hz|]. apply elem_of_cons; auto. }
    assert (0 <= z < NPROC).
    { eapply (chain_range (next_in c) x ((x :: ys) ++ i :: zs)); [simpl; done|].
      apply elem_of_app; left. by apply last_elem_of. }
    rstep. rstep.
    { apply not_elem_of_cons; split; [congruence|]. eapply prev_locks_notin; [done|].
      apply elem_of_cons; right; apply elem_of_cons; auto. }
    unfold set_next. do 10 rstep. rstep.
    apply (runs_release_prev prev [] _ b _ _ Hp). simpl.
    unfold unlink in HQ. rewrite Hz in HQ.
    apply runs_when; unfold walk_locks; intros ->; [rstep|]; done.
Qed.

(** Removing a process that is not in the list: the walk runs off the end and
    locks [proc[-1]]. *)
Lemma runs_remove_walk_absent fuel i prev curr rest b c Q :
  chain (next_in c) (next_in c curr) rest -> NoDup (curr :: rest) -> i ∉ rest -> i ≠ -1 ->
  prev_ok prev (curr :: rest) -> 0 <= curr < NPROC -> (length rest < fuel)%nat ->
  ext FOutOfBounds ->
  runs ext h (remove_walk fuel h l i prev curr (next_in c curr) b)
    (LkState curr :: prev_locks prev ++ walk_locks b) c Q.
Proof.
  revert prev curr rest b.
  induction fuel as [|fuel IH]; intros prev curr rest b Hc Hnd Hi Hi1 Hp Hr Hf Hext;
    [simpl in Hf; lia|].
  destruct rest as [|x rest]; simpl in Hc; cbn [remove_walk].
  - rewrite Hc. assert ((-1 =? i) = false) as -> by lia.
    rstep. by apply runs_acquire_oob.
  - destruct Hc as (Hx & Hxr & Hc). rewrite Hx.
    apply not_elem_of_cons in Hi as [Hix Hi]. assert ((x =? i) = false) as -> by lia.
    apply NoDup_cons in Hnd as [Hcurr Hnd].
    assert (x ≠ curr) by (intros ->; apply Hcurr, elem_of_cons; auto).
    rstep. rstep.
    { apply not_elem_of_cons; split; [congruence|]. eapply prev_locks_notin; [done|].
      apply elem_of_cons; right; apply elem_of_cons; auto. }
    rstep. apply (runs_release_prev prev [LkState x; LkState curr] _ b _ _ Hp). simpl.
    rstep. rstep.
    assert (runs ext h (remove_walk fuel h l i curr x (next_in c x) false)
              (LkState x :: prev_locks curr ++ walk_locks false) c Q) as Hrec.
    { apply (IH curr x rest false); auto; [by right|simpl in Hf; lia]. }
    unfold prev_locks in Hrec. assert ((curr =? -1) = false) as Hcm by lia. rewrite Hcm in Hrec.
    rstep. apply runs_when; intros ->; simpl; [by rstep|done].
Qed.

Lemma runs_remove_absent xs i c Q :
  plist c l xs -> i ∉ xs -> i ≠ -1 ->
  ext (if xs is [] then FPanic "Trying to remove from an empty list" else FOutOfBounds) ->
  runs ext h (remove_proc_from_list h l i) L c Q.
Proof.
  intros [Hc Hnd] Hi Hi1 Hext. unfold remove_proc_from_list. do 4 rstep.
  destruct xs as [|x xs]; simpl in Hc.
  - rewrite Hc. by apply runs_panic.
  - destruct Hc as (Hx & Hxr & Hc). rewrite Hx. apply not_elem_of_cons in Hi as [Hix Hi].
    assert ((x =? -1) = false) as -> by (unfold NPROC in *; lia).
    assert ((x =? i) = false) as -> by lia.
    do 5 rstep.
    apply (runs_remove_walk_absent walk_fuel i (-1) x xs true); auto; [by left|].
    unfold walk_fuel. assert (length (x :: xs) <= Z.to_nat NPROC)%nat; [|simpl in *; lia].
    apply indices_length; [done|]. intros y [->|Hy]%elem_of_cons; [done|by eapply chain_range].
Qed.
End exec.

(** ** What the pointer updates do to the represented sequences *)
Lemma chain_snoc nxt f xs i :
  chain nxt f xs -> NoDup xs -> i ∉ xs -> 0 <= i < NPROC ->
  chain (upd (match last xs with Some z => upd nxt z i | None => nxt end) i (-1))
    (match xs with [] => i | _ => f end) (xs ++ [i]).
Proof.
  revert f. induction xs as [|x xs IH]; intros f Hc Hnd Hi Hr; simpl in Hc; cbn [app chain].
  - by rewrite upd_eq.
  - destruct Hc as (-> & Hx & Hc). apply NoDup_cons in Hnd as [Hnx Hnd].
    apply not_elem_of_cons in Hi as [Hix Hi]. do 2 (split; [done|]).
    rewrite (upd_ne _ i) by done. specialize (IH _ Hc Hnd Hi Hr).
    destruct xs as [|y xs]; [cbn [last] in *|].
    + rewrite upd_eq. cbn [app chain] in *. by rewrite upd_eq in *.
    + change (last (x :: y :: xs)) with (last (y :: xs)) in *.
      destruct (last (y :: xs)) as [z|] eqn:Hz; [|by apply last_None in Hz].
      rewrite upd_ne; [done|]. intros ->. by apply Hnx, last_elem_of.
Qed.

Lemma chain_delete nxt f ys i zs :
  chain nxt f (ys ++ i :: zs) -> NoDup (ys ++ i :: zs) ->
  chain (upd (match last ys with Some z => upd nxt z (nxt i) | None => nxt end) i (-1))
    (match ys with [] => nxt i | _ => f end) (ys ++ zs).
Proof.
  revert f. induction ys as [|y ys IH]; intros f Hc Hnd.
  - cbn [app chain] in *. destruct Hc as (-> & Hx & Hc). apply NoDup_cons in Hnd as [Hn _].
    eapply chain_ext; [|exact Hc]. intros x Hx'. simpl.
    apply upd_ne. by intros ->.
  - cbn [app chain] in *. destruct Hc as (-> & Hy & Hc). apply NoDup_cons in Hnd as [Hn Hnd].
    apply not_elem_of_app in Hn as [Hn Hn']. apply not_elem_of_cons in Hn' as [Hni Hnz].
    do 2 (split; [done|]). rewrite (upd_ne _ i) by done. specialize (IH _ Hc Hnd).
    destruct ys as [|y' ys]; [cbn [last app] in *|].
    + rewrite upd_eq. eapply chain_ext; [|exact IH]. intros x Hx.
      unfold upd at 1 3. destruct (decide (x = i)); [done|]. apply upd_ne. by intros ->.
    + change (last (y :: y' :: ys)) with (last (y' :: ys)) in *.
      destruct (last (y' :: ys)) as [z|] eqn:Hz; [|by apply last_None in Hz].
      rewrite upd_ne; [done|]. intros ->. by apply Hn, last_elem_of.
Qed.

Section effect.
Context {E : Type}.
Implicit Types (c : core E) (l : listid) (xs ys zs : list Z).

Lemma next_in_put i v c : next_in (put_next i v c) = upd (next_in c) i v.
Proof.
  apply functional_extensionality; intros j. unfold next_in, upd; simpl. unfold upd.
  by case_decide; subst.
Qed.
Lemma next_in_with_first l v c : next_in (with_first l v c) = next_in c.
Proof. by destruct l. Qed.
Lemma first_of_put i v c l : first_of (put_next i v c) l = first_of c l.
Proof. by destruct l. Qed.
Lemma first_of_with_first l v c l' :
  first_of (with_first l v c) l' = if decide (l' = l) then v else first_of c l'.
Proof.
  destruct l, l'; simpl; repeat case_decide; try done; simplify_eq; unfold upd;
    case_decide; simplify_eq; done.
Qed.

Lemma plist_link_last c l xs i :
  plist c l xs -> i ∉ xs -> 0 <= i < NPROC -> plist (link_last l xs i c) l (xs ++ [i]).
Proof.
  intros [Hc Hnd] Hi Hr. split.
  - pose proof (chain_snoc _ _ _ _ Hc Hnd Hi Hr) as H. unfold link_last.
    rewrite next_in_put, first_of_put. destruct xs as [|x xs].
    + cbn [last] in *. rewrite next_in_with_first, first_of_with_first, decide_True by done. done.
    + destruct (last (x :: xs)) eqn:Hz; [|by apply last_None in Hz].
      by rewrite next_in_put, first_of_put.
  - apply NoDup_app; split_and!; [done| |apply NoDup_singleton].
    intros x Hx ->%list_elem_of_singleton. done.
Qed.

Lemma plist_unlink c l ys i zs :
  plist c l (ys ++ i :: zs) -> plist (unlink l ys i c) l (ys ++ zs).
Proof.
  intros [Hc Hnd]. split.
  - pose proof (chain_delete _ _ _ _ _ Hc Hnd) as H. unfold unlink.
    rewrite next_in_put, first_of_put. destruct ys as [|x ys].
    + cbn [last] in *. rewrite next_in_with_first, first_of_with_first, decide_True by done. done.
    + destruct (last (x :: ys)) eqn:Hz; [|by apply last_None in Hz].
      by rewrite next_in_put, first_of_put.
  - rewrite <- Permutation_middle in Hnd. by apply NoDup_cons in Hnd as [_ Hnd].
Qed.

(** The other lists only need to be disjoint from the one that is changed. *)
Lemma plist_frame c l l' xs i v xs' :
  plist c l' xs' -> l' ≠ l -> i ∉ xs' -> (forall z, last xs = Some z -> z ∉ xs') ->
  plist (put_next i (-1)
    (match last xs with None => with_first l v c | Some z => put_next z v c end)) l' xs'.
Proof.
  intros [Hc Hnd] Hne Hi Hz. split; [|done]. rewrite next_in_put, first_of_put.
  destruct (last xs) as [z|].
  - rewrite next_in_put, first_of_put. eapply chain_ext; [|exact Hc].
    intros x Hx. rewrite !upd_ne; [done|..]; intros ->; [by eapply Hz|done].
  - rewrite next_in_with_first, first_of_with_first, decide_False by done.
    eapply chain_ext; [|exact Hc]. intros x Hx. rewrite upd_ne; [done|]. by intros ->.
Qed.
End effect.
