(* ===== verification/ProcAbs.v ===== *)
(** * ProcAbs: process lists as sequences

    The abstract view of the process data: the linked lists are replaced by a
    function [X] from list names to sequences of process indices, and the
    pointer fields that implement them are erased from the data.  [rep c X a]
    relates the concrete data to the view; [aruns] lifts the program logic to
    it.  On the view [add_proc_to_list] is [xs ++ [i]] and
    [remove_proc_from_list] deletes [i]. *)

From S2P Require Import Prelude KState Spinlock ProcList.

Definition erase_next (p : proc) : proc := p <| next_index_in_list := 0 |>.
Definition erase_runnable (k : cpu) : cpu := k <| runnable := 0 |>.

Definition without (i : Z) (xs : list Z) : list Z := filter (fun x => x ≠ i) xs.

Section rep.
Context {E : Type}.
Implicit Types (c a : core E) (X : listid -> list Z).

Definition erase c : core E :=
  Core (fun i => erase_next (procs c i)) (fun k => erase_runnable (cpus c k))
    0 0 0 (initproc c) (nextpid c) (env c).

Record rep c X a : Prop := {
  rep_list : forall l, list_ok l = true -> plist c l (X l);
  rep_disj : forall l l' i, list_ok l = true -> list_ok l' = true ->
    i ∈ X l -> i ∈ X l' -> l = l';
  rep_erase : erase c = a
}.

Lemma rep_range c X a l i : rep c X a -> list_ok l = true -> i ∈ X l -> 0 <= i < NPROC.
Proof. intros Hr Hl. destruct (rep_list _ _ _ Hr l Hl) as [Hc _]. by eapply chain_range. Qed.

Lemma erase_put_next i v c : erase (put_next i v c) = erase c.
Proof.
  unfold erase; simpl. f_equal. apply functional_extensionality; intros j.
  unfold upd. by case_decide; subst.
Qed.

Lemma erase_with_first l v c : erase (with_first l v c) = erase c.
Proof.
  destruct l; try done. unfold erase; simpl. f_equal.
  apply functional_extensionality; intros j. unfold upd. by case_decide; subst.
Qed.

Lemma without_split ys i zs : NoDup (ys ++ i :: zs) -> without i (ys ++ i :: zs) = ys ++ zs.
Proof.
  intros Hnd. unfold without. rewrite filter_app, filter_cons_False by auto.
  assert (forall xs : list Z, i ∉ xs -> filter (fun x => x ≠ i) xs = xs) as Hf.
  { intros xs Hi. induction xs as [|x xs IH]; [done|].
    apply not_elem_of_cons in Hi as [? ?]. rewrite filter_cons_True by auto. by rewrite IH. }
  rewrite <- Permutation_middle in Hnd. apply NoDup_cons in Hnd as [Hn _].
  apply not_elem_of_app in Hn as [? ?]. by rewrite !Hf.
Qed.

Lemma elem_of_without i j xs : j ∈ without i xs <-> j ≠ i ∧ j ∈ xs.
Proof. unfold without. by rewrite list_elem_of_filter. Qed.

Lemma rep_link_last c X a l i :
  rep c X a -> list_ok l = true -> (forall l', list_ok l' = true -> i ∉ X l') ->
  0 <= i < NPROC -> rep (link_last l (X l) i c) (upd X l (X l ++ [i])) a.
Proof.
  intros Hrep Hl Hi Hr. split.
  - intros l' Hl'. unfold upd. case_decide as Hll; [subst l'|].
    + apply plist_link_last; auto. by apply (rep_list _ _ _ Hrep).
    + apply plist_frame; auto; [by apply (rep_list _ _ _ Hrep)|].
      intros z Hz Hz'. apply last_elem_of in Hz. apply Hll.
      by eapply (rep_disj _ _ _ Hrep).
  - intros l1 l2 j H1 H2. unfold upd. repeat case_decide; subst; auto.
    + intros [Hj|Hj]%elem_of_app Hj2; [by eapply (rep_disj _ _ _ Hrep)|].
      apply list_elem_of_singleton in Hj as ->. by apply Hi in Hj2.
    + intros Hj2 [Hj|Hj]%elem_of_app; [by eapply (rep_disj _ _ _ Hrep)|].
      apply list_elem_of_singleton in Hj as ->. by apply Hi in Hj2.
    + by apply (rep_disj _ _ _ Hrep).
  - unfold link_last. rewrite erase_put_next, <- (rep_erase _ _ _ Hrep).
    destruct (last (X l)); [apply erase_put_next|apply erase_with_first].
Qed.

Lemma rep_unlink c X a l ys i zs :
  rep c X a -> list_ok l = true -> X l = ys ++ i :: zs ->
  rep (unlink l ys i c) (upd X l (without i (X l))) a.
Proof.
  intros Hrep Hl HX. pose proof (rep_list _ _ _ Hrep l Hl) as Hp. split.
  - intros l' Hl'. unfold upd. case_decide as Hll; [subst l'|].
    + rewrite HX in *. rewrite without_split by apply Hp. by apply plist_unlink in Hp.
    + apply plist_frame; auto; [by apply (rep_list _ _ _ Hrep)| |].
      * intros Hi. apply Hll. eapply (rep_disj _ _ _ Hrep); eauto.
        rewrite HX. apply elem_of_app; right; apply elem_of_cons; auto.
      * intros z Hz Hz'. apply last_elem_of in Hz. apply Hll.
        eapply (rep_disj _ _ _ Hrep); eauto. rewrite HX. apply elem_of_app; auto.
  - intros l1 l2 j H1 H2. unfold upd. repeat case_decide; subst; auto;
      rewrite ?elem_of_without; intros; destruct_and?; by eapply (rep_disj _ _ _ Hrep).
  - unfold unlink. rewrite erase_put_next, <- (rep_erase _ _ _ Hrep).
    destruct (last ys); [apply erase_put_next|apply erase_with_first].
Qed.
End rep.

Section alogic.
Context {E : Type} (ext : failure -> Prop) (h : Z).
Abbreviation K := (M (kstate E)).
Implicit Types (L : list lockid) (X : listid -> list Z) (a : core E).

Definition aruns {A} (m : K A) L X a
    (Q : A -> list lockid -> (listid -> list Z) -> core E -> Prop) : Prop :=
  forall c, rep c X a -> runs ext h m L c (fun r L' c' => ∃ X' a', rep c' X' a' ∧ Q r L' X' a').

Lemma aruns_mono {A} (m : K A) L X a
    (Q Q' : A -> list lockid -> (listid -> list Z) -> core E -> Prop) :
  aruns m L X a Q -> (forall r L' X' a', Q r L' X' a' -> Q' r L' X' a') -> aruns m L X a Q'.
Proof. intros H HQ c Hc. eapply runs_mono; [by apply H|].
  intros r L' c' (X' & a' & Hc' & HQ'). exists X', a'; auto. Qed.

Lemma aruns_ret {A} (v : A) L X a Q : Q v L X a -> aruns (mret v) L X a Q.
Proof. intros HQ c Hc. apply runs_ret. eauto. Qed.

Lemma aruns_bind {A B} (m : K A) (k : A -> K B) L X a Q :
  aruns m L X a (fun r L' X' a' => aruns (k r) L' X' a' Q) -> aruns (m ≫= k) L X a Q.
Proof.
  intros H c Hc. apply runs_bind. eapply runs_mono; [by apply H|].
  intros r L' c' (X' & a' & Hc' & HQ). by apply HQ.
Qed.

Lemma aruns_when (b : bool) (m : K unit) L X a Q :
  (b = true -> aruns m L X a Q) -> (b = false -> Q tt L X a) -> aruns (when b m) L X a Q.
Proof. destruct b; simpl; intros H1 H2; [by apply H1 | by apply aruns_ret, H2]. Qed.

Lemma aruns_acquire lk L X a Q :
  lock_ok lk = true -> lk ∉ L -> Q tt (lk :: L) X a -> aruns (acquire h lk) L X a Q.
Proof. intros ? ? HQ c Hc. apply runs_acquire; eauto. Qed.

Lemma aruns_release lk L L' X a Q :
  lock_ok lk = true -> L ≡ₚ lk :: L' -> Q tt L' X a -> aruns (release h lk) L X a Q.
Proof. intros ? ? HQ c Hc. eapply runs_release; eauto. Qed.

Lemma aruns_get_core L X a Q :
  (forall c, rep c X a -> Q c L X a) -> aruns get_core L X a Q.
Proof. intros HQ c Hc. apply (runs_get _ _ _ id); [done|]. eauto. Qed.

Lemma aruns_get_proc i L X a Q :
  0 <= i < NPROC -> (forall v, Q ((procs a i) <| next_index_in_list := v |>) L X a) ->
  aruns (get_proc i) L X a Q.
Proof.
  intros Hi HQ c Hc. apply runs_get_proc; [done|]. exists X, a; split; [done|].
  destruct Hc as [_ _ <-]. specialize (HQ (next_index_in_list (procs c i))). simpl in HQ.
  by destruct (procs c i).
Qed.

Lemma aruns_set_proc i f L X a Q :
  0 <= i < NPROC ->
  (forall p v, f (p <| next_index_in_list := v |>) = (f p) <| next_index_in_list := v |>) ->
  Q tt L X (a <| procs ::= fun ps => upd ps i (f (ps i)) |>) ->
  aruns (set_proc i f) L X a Q.
Proof.
  intros Hi Hf HQ c Hc. apply runs_set_proc; [done|]. eexists X, _; split; [|exact HQ].
  destruct Hc as [Hl Hd Ha]. split; [|done|].
  - intros l Hok. destruct (Hl l Hok) as [Hc Hnd]. split; [|done].
    assert (first_of (c <| procs ::= fun ps => upd ps i (f (ps i)) |>) l = first_of c l) as ->
      by (by destruct l).
    eapply chain_ext; [|exact Hc]. intros x _. unfold next_in; simpl. unfold upd.
    case_decide; [subst x|done]. specialize (Hf (procs c i) (next_index_in_list (procs c i))).
    assert (forall p, p <| next_index_in_list := next_index_in_list p |> = p)
      as Heq by (by intros []).
    rewrite Heq in Hf. by rewrite Hf.
  - rewrite <- Ha. unfold erase, setter; cbn. f_equal. apply functional_extensionality; intros j.
    unfold upd. case_decide; [|done]. unfold erase_next. by rewrite Hf.
Qed.

Lemma aruns_get_cpu k L X a Q :
  0 <= k < NCPU -> (forall v, Q ((cpus a k) <| runnable := v |>) L X a) ->
  aruns (get_cpu k) L X a Q.
Proof.
  intros Hi HQ c Hc. apply runs_get_cpu; [done|]. exists X, a; split; [done|].
  destruct Hc as [_ _ <-]. specialize (HQ (runnable (cpus c k))). simpl in HQ.
  by destruct (cpus c k).
Qed.

Lemma aruns_set_cpu k f L X a Q :
  0 <= k < NCPU ->
  (forall p v, f (p <| runnable := v |>) = (f p) <| runnable := v |>) ->
  Q tt L X (a <| cpus ::= fun cs => upd cs k (f (cs k)) |>) ->
  aruns (set_cpu k f) L X a Q.
Proof.
  intros Hi Hf HQ c Hc. apply runs_set_cpu; [done|]. eexists X, _; split; [|exact HQ].
  destruct Hc as [Hl Hd Ha]. split; [|done|].
  - intros l Hok. destruct (Hl l Hok) as [Hc Hnd]. split; [|done].
    assert (first_of (c <| cpus ::= fun cs => upd cs k (f (cs k)) |>) l = first_of c l) as ->; [|done].
    destruct l as [| | |k']; try done. simpl. unfold upd. case_decide; [subst k'|done].
    specialize (Hf (cpus c k) (runnable (cpus c k))).
    assert (forall p, p <| runnable := runnable p |> = p) as Heq by (by intros []).
    rewrite Heq in Hf. by rewrite Hf.
  - rewrite <- Ha. unfold erase, setter; cbn. f_equal. apply functional_extensionality; intros j.
    unfold upd. case_decide; [|done]. unfold erase_runnable. by rewrite Hf.
Qed.

(** Globals other than the lists. *)
Lemma aruns_mod_core f L X a Q :
  (forall c, procs (f c) = procs c) -> (forall c l, first_of (f c) l = first_of c l) ->
  (forall c, erase (f c) = f (erase c)) ->
  Q tt L X (f a) -> aruns (mod_core f) L X a Q.
Proof.
  intros Hp Hf He HQ c Hc. apply runs_mod_core. exists X, (f a); split; [|done].
  destruct Hc as [Hl Hd Ha]. split; [|done|by rewrite He, Ha].
  intros l Hok. destruct (Hl l Hok) as [Hc Hnd]. split; [|done].
  rewrite Hf. eapply chain_ext; [|exact Hc]. intros x _. unfold next_in. by rewrite Hp.
Qed.

Lemma aruns_get_first l L X a Q :
  list_ok l = true -> Q (default (-1) (head (X l))) L X a -> aruns (get_first l) L X a Q.
Proof.
  intros Hok HQ c Hc. apply runs_get_first; [done|]. exists X, a; split; [done|].
  destruct (rep_list _ _ _ Hc l Hok) as [Hch _].
  destruct (X l); simpl in *; [by rewrite Hch|]. destruct Hch as [-> _]. done.
Qed.

Lemma aruns_add l i L X a Q :
  list_ok l = true -> LkList l ∉ L -> (forall j, LkState j ∉ L) ->
  (forall l', list_ok l' = true -> i ∉ X l') -> 0 <= i < NPROC ->
  Q tt L (upd X l (X l ++ [i])) a -> aruns (add_proc_to_list h l i) L X a Q.
Proof.
  intros Hok HlL HsL Hi Hr HQ c Hc.
  eapply runs_add_proc_to_list; [done|done|done|by apply (rep_list _ _ _ Hc)|by apply Hi|done|].
  eexists _, _; split; [|exact HQ]. by apply rep_link_last.
Qed.

Lemma aruns_remove l i L X a Q :
  list_ok l = true -> LkList l ∉ L -> (forall j, LkState j ∉ L) -> i ∈ X l ->
  Q tt L (upd X l (without i (X l))) a -> aruns (remove_proc_from_list h l i) L X a Q.
Proof.
  intros Hok HlL HsL Hi HQ c Hc. apply list_elem_of_split in Hi as (ys & zs & HX).
  eapply runs_remove_proc_from_list; [done..| |].
  - rewrite <- HX. by apply (rep_list _ _ _ Hc).
  - eexists _, _; split; [|exact HQ]. by eapply rep_unlink.
Qed.

Lemma aruns_remove_absent l i L X a Q :
  list_ok l = true -> LkList l ∉ L -> (forall j, LkState j ∉ L) -> i ∉ X l -> i ≠ -1 ->
  ext (if X l is [] then FPanic "Trying to remove from an empty list" else FOutOfBounds) ->
  aruns (remove_proc_from_list h l i) L X a Q.
Proof.
  intros Hok HlL HsL Hi Hi1 Hext c Hc. eapply runs_remove_absent; eauto.
  by apply (rep_list _ _ _ Hc).
Qed.
End alogic.
