(* ===== verification/Proc.v ===== *)
(** * Proc: the process subsystem, kernel/proc.c

    Process allocation, the process life cycle (fork, exit, wait, kill), the
    scheduler, and sleep/wakeup, statement by statement.  A routine that gives
    up the CPU in the middle ([sched]) is modelled as two operations, before and
    after the switch; [sched] itself continues in the scheduler loop of the hart
    ([scheduler_return]).

    Routines of other components are reached through the class [KEnv]: a callee
    transforms the state [E] of those components and may not return ([None]),
    and the file system and log routines also report the channels they passed to
    [wakeup], which this component then executes. *)

From S2P Require Import Prelude KState Spinlock ProcList.

(** * kernel/string.c *)

(** [*s = 0] on the array whose remaining cells are [s]. *)
Definition put_nul (s : list Z) : list Z :=
  match s with [] => [] | _ :: s' => 0 :: s' end.

(** [safestrcpy(s, t, n)]: [s] are the cells from the destination on, [t] the
    bytes from the source on; the result is the new contents of those cells.
    The loop copies at most [n - 1] bytes, including a terminating 0, and one
    more 0 is stored after it. *)
Fixpoint safestrcpy_loop (n : nat) (s t : list Z) : list Z :=
  match n with
  | O => put_nul s
  | S n' =>
      match s, t with
      | _ :: s', x :: t' => x :: (if x =? 0 then put_nul s' else safestrcpy_loop n' s' t')
      | _, _ => s
      end
  end.
Definition safestrcpy (s t : list Z) (n : Z) : list Z :=
  if n <=? 0 then s else safestrcpy_loop (Z.to_nat (n - 1)) s t.

Definition callee (E A : Type) : Type := E -> option (A * E).
Definition waker (E A : Type) : Type := E -> option (A * list chan * E).

(** The registers of a trapframe that this component writes. *)
Inductive tf_reg := tf_epc | tf_sp | tf_a0.

Class KEnv (E : Type) := {
  (** build flag and link-time addresses *)
  BLNCFLG : bool;
  trampoline : Z;
  forkret_addr : Z;
  (** kalloc.c, vm.c *)
  kalloc : callee E Z;
  kfree : Z -> callee E unit;
  kvmmap : Z -> Z -> Z -> Z -> Z -> callee E unit;
  uvmcreate : callee E Z;
  mappages : Z -> Z -> Z -> Z -> Z -> callee E Z;
  uvmunmap : Z -> Z -> Z -> bool -> callee E unit;
  uvmfree : Z -> Z -> callee E unit;
  uvminit : Z -> list Z -> callee E unit;
  uvmcopy : Z -> Z -> Z -> callee E Z;
  uvmalloc : Z -> Z -> Z -> callee E Z;
  uvmdealloc : Z -> Z -> Z -> callee E Z;
  copyout : Z -> Z -> list Z -> callee E Z;
  (** stores to the trapframe page: one register, or the whole structure *)
  tf_store : Z -> tf_reg -> Z -> callee E unit;
  tf_copy : Z -> Z -> callee E unit;
  (** file.c, fs.c, log.c *)
  filedup : Z -> callee E Z;
  idup : Z -> callee E Z;
  namei : list Z -> callee E Z;
  fileclose : Z -> waker E unit;
  iput : Z -> waker E unit;
  begin_op : waker E unit;
  end_op : waker E unit
}.

Section ops.
Context {E : Type} `{KEnv E}.
Abbreviation K := (M (kstate E)).

Definition call {A} (f : callee E A) : K A := fun s =>
  match f (env (kcore s)) with
  | Some (v, e) => Ok v (s <| kcore ::= fun c => c <| env := e |> |>)
  | None => Callee
  end.

Definition all_procs : list Z := seqZ 0 NPROC.

(** ** The current process *)
Definition myproc (h : Z) : K (option Z) :=
  push_off h;;
  c ← get_cpu h;
  pop_off h;;
  mret (c_proc c).

(** [myproc()], then dereferenced *)
Definition this_proc (h : Z) : K Z :=
  p ← myproc h;
  match p with Some i => mret i | None => out_of_bounds end.

Definition setcpu (h cpuNum : Z) : K Z :=
  p ← this_proc h;
  set_proc p (fun q => q <| cpu_num := cpuNum |>);;
  mret cpuNum.

Definition getcpu (h : Z) : K Z :=
  p ← this_proc h;
  q ← get_proc p;
  mret (cpu_num q).

Definition cpu_process_count (cpunum : Z) : K Z :=
  c ← get_cpu cpunum;
  mret (i32 (procCount c)).

(** [int min] compared with a [uint64] count *)
Fixpoint leastUsedCpu_loop (ks : list Z) (min : Z) : K Z :=
  match ks with
  | [] => mret min
  | k :: ks' =>
      c ← get_cpu k;
      leastUsedCpu_loop ks' (if procCount c <? u64 min then i32 (procCount c) else min)
  end.
Definition leastUsedCpu : K Z := leastUsedCpu_loop (seqZ 0 NCPU) NPROC.

(** cas.S on the low word of [cpus[k].procCount]: 0 when the store happened *)
Definition cas_procCount (k expected newval : Z) : K Z :=
  c ← get_cpu k;
  if i32 (procCount c) =? expected then
    set_cpu k (fun c => c <| procCount := procCount c - u32 (procCount c) + u32 newval |>);;
    mret 0
  else mret 1.

(** [do{}while(cas(&n, n, n+1));] *)
Fixpoint bump_procCount (fuel : nat) (k : Z) : K unit :=
  match fuel with
  | O => no_fuel
  | S fuel' =>
      c ← get_cpu k;
      r ← cas_procCount k (i32 (procCount c)) (i32 (procCount c + 1));
      if r =? 0 then mret tt else bump_procCount fuel' k
  end.

(** ** Boot *)
Definition proc_mapstacks (kpgtbl : Z) : K unit :=
  for_each all_procs (fun i =>
    pa ← call kalloc;
    if pa =? 0 then panic "kalloc" else
    call (kvmmap kpgtbl (KSTACK i) pa PGSIZE (Z.lor PTE_R PTE_W))).

Definition initlists : K unit :=
  set_first LUnused (-1);;
  initlock (LkList LUnused) "unused list lock";;
  set_first LZombie (-1);;
  initlock (LkList LZombie) "zombie list lock";;
  set_first LSleeping (-1);;
  initlock (LkList LSleeping) "sleeping list lock";;
  for_each (seqZ 0 NCPU) (fun i =>
    set_first (LRunnable i) (-1);;
    set_cpu i (fun c => c <| procCount := 0 |>);;
    initlock (LkList (LRunnable i)) "cpu runnable lock").

Definition procinit (h : Z) : K unit :=
  initlists;;
  initlock LkPid "nextpid";;
  initlock LkWait "wait_lock";;
  for_each all_procs (fun i =>
    initlock (LkProc i) "proc";;
    set_proc i (fun p => p <| kstack := KSTACK i |>);;
    set_proc i (fun p => p <| cpu_num := 0 |>);;
    set_proc i (fun p => p <| index_in_proc := i |>);;
    p ← get_proc i;
    add_proc_to_list h LUnused (index_in_proc p)).

(** ** Page tables of a process *)
Definition proc_pagetable (i : Z) : K Z :=
  pagetable ← call uvmcreate;
  if pagetable =? 0 then mret 0 else
  r ← call (mappages pagetable TRAMPOLINE PGSIZE trampoline (Z.lor PTE_R PTE_X));
  if r <? 0 then
    call (uvmfree pagetable 0);;
    mret 0
  else
  p ← get_proc i;
  r ← call (mappages pagetable TRAPFRAME PGSIZE (trapframe p) (Z.lor PTE_R PTE_W));
  if r <? 0 then
    call (uvmunmap pagetable TRAMPOLINE 1 false);;
    call (uvmfree pagetable 0);;
    mret 0
  else mret pagetable.

Definition proc_freepagetable (pagetable sz : Z) : K unit :=
  call (uvmunmap pagetable TRAMPOLINE 1 false);;
  call (uvmunmap pagetable TRAPFRAME 1 false);;
  call (uvmfree pagetable sz).

(** ** Allocating and freeing process slots *)
Definition allocpid (h : Z) : K Z :=
  acquire h LkPid;;
  c ← get_core;
  let pid := nextpid c in
  mod_core (fun c => c <| nextpid := i32 (nextpid c + 1) |>);;
  release h LkPid;;
  mret pid.

(** The fields [freeproc] resets once the process is off the zombie list. *)
Definition clear_slot (p : proc) : proc :=
  p <| pagetable := 0 |> <| sz := 0 |> <| pid := 0 |>
    <| parent := None |> <| name ::= put_nul |> <| p_chan := CNull |>
    <| killed := 0 |> <| xstate := 0 |> <| state := UNUSED |>.
#[global] Arguments clear_slot : simpl never.

Definition freeproc (h i : Z) : K unit :=
  p ← get_proc i;
  when (negb (trapframe p =? 0)) (call (kfree (trapframe p)));;
  set_proc i (fun p => p <| trapframe := 0 |>);;
  p ← get_proc i;
  when (negb (pagetable p =? 0)) (proc_freepagetable (pagetable p) (sz p));;
  remove_proc_from_list h LZombie (index_in_proc p);;
  set_proc i clear_slot;;
  p ← get_proc i;
  add_proc_to_list h LUnused (index_in_proc p).

(** Lines 262-277: choose the first unused process and lock it. *)
Definition allocproc_pick (h : Z) : K (option Z) :=
  acquire h (LkList LUnused);;
  firstUnused ← get_first LUnused;
  if 0 <=? firstUnused then
    acquire h (LkProc firstUnused);;
    release h (LkList LUnused);;
    mret (Some firstUnused)
  else
    release h (LkList LUnused);;
    mret None.

(** Lines 279-309: the label [found]. *)
Definition allocproc_found (h i : Z) : K (option Z) :=
  pid' ← allocpid h;
  set_proc i (fun p => p <| pid := pid' |>);;
  remove_proc_from_list h LUnused i;;
  set_proc i (fun p => p <| state := USED |>);;
  tf ← call kalloc;
  set_proc i (fun p => p <| trapframe := tf |>);;
  if tf =? 0 then
    freeproc h i;;
    release h (LkProc i);;
    mret None
  else
  pt ← proc_pagetable i;
  set_proc i (fun p => p <| pagetable := pt |>);;
  if pt =? 0 then
    freeproc h i;;
    release h (LkProc i);;
    mret None
  else
  set_proc i (fun p => p <| p_context := Context 0 0 (replicate 12 0) |>);;
  set_proc i (fun p => p <| p_context := Context forkret_addr (ctx_sp (p_context p)) (ctx_s (p_context p)) |>);;
  set_proc i (fun p => p <| p_context := Context (ctx_ra (p_context p)) (kstack p + PGSIZE) (ctx_s (p_context p)) |>);;
  mret (Some i).

Definition allocproc (h : Z) : K (option Z) :=
  r ← allocproc_pick h;
  match r with
  | Some i => allocproc_found h i
  | None => mret None
  end.

(** ** Sleep channels *)
Definition wakeup_one (h : Z) (ch : chan) (i : Z) : K unit :=
  me ← myproc h;
  if bool_decide (Some i = me) then mret tt else
  acquire h (LkProc i);;
  p ← get_proc i;
  when (bool_decide (state p = SLEEPING) && bool_decide (p_chan p = ch)) (
    set_proc i (fun p => p <| state := RUNNABLE |>);;
    remove_proc_from_list h LSleeping (index_in_proc p);;
    if BLNCFLG then
      newCpu ← leastUsedCpu;
      bump_procCount 2 newCpu;;
      set_proc i (fun p => p <| cpu_num := newCpu |>);;
      add_proc_to_list h (LRunnable newCpu) (index_in_proc p)
    else
      add_proc_to_list h (LRunnable 0) (index_in_proc p));;
  release h (LkProc i).

Definition wakeup (h : Z) (ch : chan) : K unit :=
  for_each all_procs (wakeup_one h ch).

(** A file system routine: run it, then perform the wakeups it made. *)
Definition call_wake {A} (h : Z) (f : waker E A) : K A :=
  r ← call (fun e => match f e with Some (v, chs, e') => Some ((v, chs), e') | None => None end);
  for_each r.2 (wakeup h);;
  mret r.1.

(** ** Switching *)

(** The scheduler loop after [swtch] comes back: lines 654-658. *)
Definition scheduler_return (h p : Z) : K unit :=
  set_cpu h (fun c => c <| c_proc := None |>);;
  release h (LkProc p).

(** [sched]: its checks, then [swtch] into the scheduler of this hart; [intena]
    belongs to the kernel thread, which keeps it on its stack. *)
Definition sched (h : Z) : K unit :=
  p ← this_proc h;
  hold ← holding h (LkProc p);
  if negb hold then panic "sched p->lock" else
  n ← get_sync (fun y => noff y h);
  if negb (n =? 1) then panic "sched locks" else
  q ← get_proc p;
  if bool_decide (state q = RUNNING) then panic "sched running" else
  on ← intr_get h;
  if on : bool then panic "sched interruptible" else
  mod_sync (fun y => y <| sched_intena ::= fun f => upd f p (intena y h) |>);;
  scheduler_return h p.

(** [sched] after [swtch] comes back to process [p], on hart [h]. *)
Definition sched_back (h p : Z) : K unit :=
  mod_sync (fun y => y <| intena ::= fun f => upd f h (sched_intena y p) |>).

(** One iteration of the scheduler loop, lines 632-666, up to [swtch]; the
    process that was switched to, if any. *)
Definition scheduler_pick (h : Z) : K (option Z) :=
  intr_on h;;
  acquire h (LkList (LRunnable h));;
  firstRunnable ← get_first (LRunnable h);
  if 0 <=? firstRunnable then
    acquire h (LkProc firstRunnable);;
    release h (LkList (LRunnable h));;
    set_proc firstRunnable (fun p => p <| state := RUNNING |>);;
    set_cpu h (fun c => c <| c_proc := Some firstRunnable |>);;
    p ← get_proc firstRunnable;
    remove_proc_from_list h (LRunnable h) (index_in_proc p);;
    mret (Some firstRunnable)
  else
    release h (LkList (LRunnable h));;
    mret None.

Definition yield_pre (h : Z) : K unit :=
  p ← this_proc h;
  acquire h (LkProc p);;
  set_proc p (fun q => q <| state := RUNNABLE |>);;
  q ← get_proc p;
  add_proc_to_list h (LRunnable (cpu_num q)) (index_in_proc q);;
  sched h.

Definition sleep_pre (h : Z) (ch : chan) (lk : lockid) : K unit :=
  p ← this_proc h;
  acquire h (LkProc p);;
  q ← get_proc p;
  add_proc_to_list h LSleeping (index_in_proc q);;
  release h lk;;
  set_proc p (fun q => q <| p_chan := ch |>);;
  set_proc p (fun q => q <| state := SLEEPING |>);;
  sched h.

(** Where a process continues when the scheduler switches to it: after
    [sched()] in [yield], in [sleep], or in [forkret] (whose file system
    initialisation and return to user space are outside this component). *)
Definition yield_post (h : Z) : K unit :=
  p ← this_proc h;
  sched_back h p;;
  release h (LkProc p).

Definition sleep_post (h : Z) : K unit :=
  p ← this_proc h;
  sched_back h p;;
  set_proc p (fun q => q <| p_chan := CNull |>);;
  release h (LkProc p).

Definition sleep_reacquire (h : Z) (lk : lockid) : K unit := acquire h lk.

Definition forkret_pre (h : Z) : K unit :=
  p ← this_proc h;
  release h (LkProc p).
End ops.

#[global] Arguments myproc : simpl never.
#[global] Arguments this_proc : simpl never.
#[global] Arguments leastUsedCpu : simpl never.
#[global] Arguments bump_procCount : simpl never.
#[global] Arguments proc_pagetable : simpl never.
#[global] Arguments proc_freepagetable : simpl never.
#[global] Arguments allocpid : simpl never.
#[global] Arguments freeproc : simpl never.
#[global] Arguments allocproc_pick : simpl never.
#[global] Arguments allocproc_found : simpl never.
#[global] Arguments allocproc : simpl never.
#[global] Arguments wakeup_one : simpl never.
#[global] Arguments wakeup : simpl never.
#[global] Arguments call_wake : simpl never.
#[global] Arguments call : simpl never.
#[global] Arguments sched : simpl never.
#[global] Arguments sched_back : simpl never.
#[global] Arguments scheduler_pick : simpl never.
#[global] Arguments scheduler_return : simpl never.
#[global] Arguments yield_pre : simpl never.
#[global] Arguments sleep_pre : simpl never.

(** ** The process life cycle *)

(** [uchar initcode[]]: the first user program. *)
Definition initcode : list Z :=
  [0x17; 0x05; 0x00; 0x00; 0x13; 0x05; 0x45; 0x02;
   0x97; 0x05; 0x00; 0x00; 0x93; 0x85; 0x35; 0x02;
   0x93; 0x08; 0x70; 0x00; 0x73; 0x00; 0x00; 0x00;
   0x93; 0x08; 0x20; 0x00; 0x73; 0x00; 0x00; 0x00;
   0xef; 0xf0; 0x9f; 0xff; 0x2f; 0x69; 0x6e; 0x69;
   0x74; 0x00; 0x00; 0x24; 0x00; 0x00; 0x00; 0x00;
   0x00; 0x00; 0x00; 0x00].

Definition initcode_name : list Z := [105; 110; 105; 116; 99; 111; 100; 101; 0].
Definition slash_path : list Z := [47; 0].

(** [sizeof(int)] bytes of an [int] in memory, least significant first. *)
Definition int_bytes (v : Z) : list Z :=
  [u8 v; u8 (Z.shiftr v 8); u8 (Z.shiftr v 16); u8 (Z.shiftr v 24)].

Definition proc_chan (p : option Z) : chan :=
  match p with Some i => CProc i | None => CNull end.

Section life.
Context {E : Type} `{KEnv E}.
Abbreviation K := (M (kstate E)).

Definition userinit (h : Z) : K unit :=
  r ← allocproc h;
  mod_core (fun c => c <| initproc := r |>);;
  match r with
  | None => out_of_bounds                     (* p->pagetable with p == 0 *)
  | Some p =>
      q ← get_proc p;
      call (uvminit (pagetable q) initcode);;
      set_proc p (fun q => q <| sz := PGSIZE |>);;
      q ← get_proc p;
      call (tf_store (trapframe q) tf_epc 0);;
      call (tf_store (trapframe q) tf_sp PGSIZE);;
      set_proc p (fun q => q <| name ::= fun nm => safestrcpy nm initcode_name 16 |>);;
      ip ← call (namei slash_path);
      set_proc p (fun q => q <| cwd := ip |>);;
      set_proc p (fun q => q <| state := RUNNABLE |>);;
      q ← get_proc p;
      add_proc_to_list h (LRunnable 0) (index_in_proc q);;
      release h (LkProc p)
  end.

(** [n] is an [int]; [sz] is a [uint], so the sums are taken modulo 2^32. *)
Definition growproc (h n : Z) : K Z :=
  p ← this_proc h;
  q ← get_proc p;
  let sz0 := u32 (sz q) in
  if 0 <? n then
    r ← call (uvmalloc (pagetable q) sz0 (u32 (sz0 + n)));
    let sz1 := u32 r in
    if sz1 =? 0 then mret (-1) else
    set_proc p (fun q => q <| sz := sz1 |>);;
    mret 0
  else if n <? 0 then
    r ← call (uvmdealloc (pagetable q) sz0 (u32 (sz0 + n)));
    set_proc p (fun q => q <| sz := u32 r |>);;
    mret 0
  else
    set_proc p (fun q => q <| sz := sz0 |>);;
    mret 0.

Definition fork (h : Z) : K Z :=
  p ← this_proc h;
  r ← allocproc h;
  match r with
  | None => mret (-1)
  | Some np =>
      pp ← get_proc p;
      pn ← get_proc np;
      e ← call (uvmcopy (pagetable pp) (pagetable pn) (sz pp));
      if e <? 0 then
        freeproc h np;;
        release h (LkProc np);;
        mret (-1)
      else
      set_proc np (fun q => q <| sz := sz pp |>);;
      call (tf_copy (trapframe pn) (trapframe pp));;
      call (tf_store (trapframe pn) tf_a0 0);;
      for_each (seqZ 0 NOFILE) (fun i =>
        pp ← get_proc p;
        when (negb (ofile pp i =? 0)) (
          f ← call (filedup (ofile pp i));
          set_proc np (fun q => q <| ofile ::= fun o => upd o i f |>)));;
      pp ← get_proc p;
      ip ← call (idup (cwd pp));
      set_proc np (fun q => q <| cwd := ip |>);;
      set_proc np (fun q => q <| name ::= fun nm => safestrcpy nm (name pp) 16 |>);;
      pn ← get_proc np;
      let pid' := pid pn in
      release h (LkProc np);;
      acquire h LkWait;;
      set_proc np (fun q => q <| parent := Some p |>);;
      release h LkWait;;
      acquire h (LkProc np);;
      set_proc np (fun q => q <| state := RUNNABLE |>);;
      pn ← get_proc np;
      (if BLNCFLG then
         newCpu ← leastUsedCpu;
         set_proc np (fun q => q <| cpu_num := newCpu |>);;
         bump_procCount 2 newCpu;;
         add_proc_to_list h (LRunnable newCpu) (index_in_proc pn)
       else
         pp ← get_proc p;
         add_proc_to_list h (LRunnable (cpu_num pp)) (index_in_proc pn));;
      release h (LkProc np);;
      mret pid'
  end.

Definition reparent (h p : Z) : K unit :=
  for_each all_procs (fun i =>
    pp ← get_proc i;
    when (bool_decide (parent pp = Some p)) (
      c ← get_core;
      set_proc i (fun q => q <| parent := initproc c |>);;
      wakeup h (proc_chan (initproc c)))).

(** Up to [sched()], from which an exiting process never comes back. *)
Definition exit (h status : Z) : K unit :=
  p ← this_proc h;
  c ← get_core;
  if bool_decide (Some p = initproc c) then panic "init exiting" else
  for_each (seqZ 0 NOFILE) (fun fd =>
    q ← get_proc p;
    when (negb (ofile q fd =? 0)) (
      call_wake h (fileclose (ofile q fd));;
      set_proc p (fun q => q <| ofile ::= fun o => upd o fd 0 |>)));;
  call_wake h begin_op;;
  q ← get_proc p;
  call_wake h (iput (cwd q));;
  call_wake h end_op;;
  set_proc p (fun q => q <| cwd := 0 |>);;
  acquire h LkWait;;
  reparent h p;;
  q ← get_proc p;
  wakeup h (proc_chan (parent q));;
  acquire h (LkProc p);;
  set_proc p (fun q => q <| xstate := status |>);;
  set_proc p (fun q => q <| state := ZOMBIE |>);;
  q ← get_proc p;
  add_proc_to_list h LZombie (index_in_proc q);;
  release h LkWait;;
  sched h.

(** The result of one pass of the loop of [wait]: it returned, or the caller
    now sleeps and will make another pass. *)
Inductive wait_result := WaitReturn (v : Z) | WaitSleep.

(** One child of the scan; [inl v] is a return from [wait], [inr b] says
    whether the process is a child. *)
Definition wait_child (h p addr i : Z) : K (Z + bool) :=
  np ← get_proc i;
  if negb (bool_decide (parent np = Some p)) then mret (inr false) else
  acquire h (LkProc i);;
  np ← get_proc i;
  if bool_decide (state np = ZOMBIE) then
    let pid' := pid np in
    r ← (if negb (addr =? 0) then
           pp ← get_proc p;
           call (copyout (pagetable pp) addr (int_bytes (xstate np)))
         else mret 0);
    if r <? 0 then
      release h (LkProc i);;
      release h LkWait;;
      mret (inl (-1))
    else
      freeproc h i;;
      release h (LkProc i);;
      release h LkWait;;
      mret (inl pid')
  else
    release h (LkProc i);;
    mret (inr true).

Fixpoint wait_scan (h p addr : Z) (slots : list Z) (havekids : bool) : K (Z + bool) :=
  match slots with
  | [] => mret (inr havekids)
  | i :: slots' =>
      r ← wait_child h p addr i;
      match r with
      | inl v => mret (inl v)
      | inr kid => wait_scan h p addr slots' (havekids || kid)
      end
  end.

(** One pass of [for(;;)], with [wait_lock] held. *)
Definition wait_pass (h p addr : Z) : K wait_result :=
  r ← wait_scan h p addr all_procs false;
  match r with
  | inl v => mret (WaitReturn v)
  | inr havekids =>
      q ← get_proc p;
      if negb havekids || negb (killed q =? 0) then
        release h LkWait;;
        mret (WaitReturn (-1))
      else
        sleep_pre h (CProc p) LkWait;;
        mret WaitSleep
  end.

Definition wait (h addr : Z) : K wait_result :=
  p ← this_proc h;
  acquire h LkWait;;
  wait_pass h p addr.

(** After being woken: [sleep] reacquires [wait_lock] and the loop goes on. *)
Definition wait_again (h addr : Z) : K wait_result :=
  p ← this_proc h;
  sleep_reacquire h LkWait;;
  wait_pass h p addr.

Definition kill_one (h pid' i : Z) : K (option Z) :=
  acquire h (LkProc i);;
  p ← get_proc i;
  if pid p =? pid' then
    set_proc i (fun p => p <| killed := 1 |>);;
    when (bool_decide (state p = SLEEPING)) (
      remove_proc_from_list h LSleeping (index_in_proc p);;
      set_proc i (fun p => p <| state := RUNNABLE |>);;
      q ← get_proc i;
      add_proc_to_list h (LRunnable (cpu_num q)) (index_in_proc q));;
    release h (LkProc i);;
    mret (Some 0)
  else
    release h (LkProc i);;
    mret None.

Definition kill (h pid' : Z) : K Z :=
  r ← for_return all_procs (kill_one h pid');
  mret (default (-1) r).
End life.
