(* ===== verification/ProcInv.v ===== *)
(** * ProcInv: the invariant of the process table

    In every state between two kernel operations each process is where its
    state says: an UNUSED, SLEEPING or ZOMBIE process is in the list of that
    name, a RUNNABLE one in the queue of one CPU, a RUNNING one is the current
    process of one CPU; and process identifiers are distinct.  This file states
    the invariant [inv] on the abstract view, and gives the rules of the program
    logic for the operations of Proc.v that the life cycle is built from. *)

From S2P Require Import Prelude KState Spinlock ProcList ProcAbs Proc.

Definition list_state (l : listid) : procstate :=
  match l with
  | LUnused => UNUSED | LZombie => ZOMBIE | LSleeping => SLEEPING | LRunnable _ => RUNNABLE
  end.

Section inv.
Context {E : Type}.
Implicit Types (a : core E) (X : listid -> list Z).

Definition pstate a (i : Z) : procstate := state (procs a i).

Definition home X a (i : Z) : Prop :=
  match pstate a i with
  | UNUSED => i ∈ X LUnused
  | ZOMBIE => i ∈ X LZombie
  | SLEEPING => i ∈ X LSleeping
  | RUNNABLE => ∃ k, 0 <= k < NCPU ∧ i ∈ X (LRunnable k)
  | RUNNING => ∃ k, 0 <= k < NCPU ∧ c_proc (cpus a k) = Some i
  | USED => True
  end.

Record pid_ok a : Prop := {
  pid_next : 1 <= nextpid a <= 2^31 - 1;
  pid_range : forall i, 0 <= i < NPROC -> 0 <= pid (procs a i) < nextpid a;
  pid_unused : forall i, 0 <= i < NPROC -> pstate a i = UNUSED <-> pid (procs a i) = 0;
  pid_inj : forall i j, 0 <= i < NPROC -> 0 <= j < NPROC ->
    pid (procs a i) = pid (procs a j) -> pid (procs a i) ≠ 0 -> i = j
}.

Record inv X a : Prop := {
  inv_index : forall i, 0 <= i < NPROC -> index_in_proc (procs a i) = i;
  inv_cpu_num : forall i, 0 <= i < NPROC -> 0 <= cpu_num (procs a i) < NCPU;
  inv_home : forall i, 0 <= i < NPROC -> home X a i;
  inv_list : forall l i, list_ok l = true -> i ∈ X l ->
    0 <= i < NPROC ∧ pstate a i = list_state l;
  inv_running : forall k i, 0 <= k < NCPU -> c_proc (cpus a k) = Some i ->
    0 <= i < NPROC ∧ pstate a i = RUNNING;
  inv_one_cpu : forall k k' i, 0 <= k < NCPU -> 0 <= k' < NCPU ->
    c_proc (cpus a k) = Some i -> c_proc (cpus a k') = Some i -> k = k';
  inv_pid : pid_ok a
}.

(** The fields of a process the invariant speaks of. *)
Definition same_slot (p q : proc) : Prop :=
  state p = state q ∧ index_in_proc p = index_in_proc q ∧
  cpu_num p = cpu_num q ∧ pid p = pid q.

(** Everything about the processes other than [i] stays. *)
Record frame_except (i : Z) X a X' a' : Prop := {
  fe_slot : forall j, j ≠ i -> 0 <= j < NPROC -> same_slot (procs a' j) (procs a j);
  fe_list : forall l j, list_ok l = true -> j ≠ i -> j ∈ X' l <-> j ∈ X l;
  fe_cpu : forall k j, 0 <= k < NCPU -> j ≠ i ->
    c_proc (cpus a' k) = Some j <-> c_proc (cpus a k) = Some j
}.

Lemma inv_update X a X' a' i :
  inv X a -> 0 <= i < NPROC -> frame_except i X a X' a' ->
  index_in_proc (procs a' i) = i -> 0 <= cpu_num (procs a' i) < NCPU ->
  home X' a' i ->
  (forall l, list_ok l = true -> i ∈ X' l -> pstate a' i = list_state l) ->
  (forall k, 0 <= k < NCPU -> c_proc (cpus a' k) = Some i -> pstate a' i = RUNNING) ->
  (forall k k', 0 <= k < NCPU -> 0 <= k' < NCPU ->
     c_proc (cpus a' k) = Some i -> c_proc (cpus a' k') = Some i -> k = k') ->
  pid_ok a' -> inv X' a'.
Proof.
  intros [Hidx Hcn Hho Hli Hru Hoc Hpid] Hi [Hslot Hlist Hcpu] Hi1 Hi2 Hi3 Hi4 Hi5 Hi6 Hi7.
  assert (Hst : forall j, j ≠ i -> 0 <= j < NPROC -> pstate a' j = pstate a j).
  { intros j Hj Hr. unfold pstate. by destruct (Hslot j Hj Hr) as [? _]. }
  split; auto.
  - intros j Hr. destruct (decide (j = i)) as [->|Hj]; [done|].
    destruct (Hslot j Hj Hr) as (_ & -> & _). auto.
  - intros j Hr. destruct (decide (j = i)) as [->|Hj]; [done|].
    destruct (Hslot j Hj Hr) as (_ & _ & -> & _). auto.
  - intros j Hr. destruct (decide (j = i)) as [->|Hj]; [done|].
    specialize (Hho j Hr). unfold home in *. rewrite Hst by done.
    destruct (pstate a j); rewrite ?Hlist by done; auto.
    + destruct Hho as (k & Hk & Hin). exists k. split; [done|].
      apply Hlist; [|done|done]. simpl. unfold cpu_index_ok. lia.
    + destruct Hho as (k & Hk & Hin). exists k. split; [done|]. by apply Hcpu.
  - intros l j Hl Hin. destruct (decide (j = i)) as [->|Hj]; [auto|].
    rewrite Hlist in Hin by done. destruct (Hli l j Hl Hin) as [Hr Hs].
    split; [done|]. by rewrite Hst.
  - intros k j Hk Hc. destruct (decide (j = i)) as [->|Hj]; [eauto|].
    rewrite Hcpu in Hc by done. destruct (Hru k j Hk Hc) as [Hr Hs].
    split; [done|]. by rewrite Hst.
  - intros k k' j Hk Hk' Hc Hc'. destruct (decide (j = i)) as [->|Hj]; [eauto|].
    rewrite Hcpu in Hc, Hc' by done. eauto.
Qed.

(** Process identifiers are untouched. *)
Lemma pid_ok_same a a' :
  pid_ok a -> nextpid a' = nextpid a ->
  (forall j, 0 <= j < NPROC -> pid (procs a' j) = pid (procs a j)) ->
  (forall j, 0 <= j < NPROC -> pstate a' j = UNUSED <-> pstate a j = UNUSED) ->
  pid_ok a'.
Proof.
  intros [H1 H2 H3 H4] Hn Hp Hu. split; rewrite ?Hn; [done|..].
  - intros i Hi. rewrite Hp by done. auto.
  - intros i Hi. rewrite Hp, Hu by done. auto.
  - intros i j Hi Hj. rewrite !Hp by done. auto.
Qed.
End inv.

(** ** Rules *)
Section rules.
Context {E : Type} `{KEnv E} (ext : failure -> Prop) (h : Z) (Hh : 0 <= h < NCPU).
Abbreviation K := (M (kstate E)).
Implicit Types (L : list lockid) (X : listid -> list Z) (a : core E).

Lemma cpu_in_range : cpu_index_ok h = true.
Proof. unfold cpu_index_ok; lia. Qed.

Lemma aruns_call {A} (f : callee E A) L X a Q :
  (f (env a) = None -> ext FCallee) ->
  (forall v e, f (env a) = Some (v, e) -> Q v L X (a <| env := e |>)) ->
  aruns ext h (call f) L X a Q.
Proof.
  intros Hext HQ c Hc y Hy. unfold call; cbn. pose proof (rep_erase _ _ _ Hc) as He.
  assert (env c = env a) as Hen by (by rewrite <- He). rewrite Hen.
  destruct (f (env a)) as [[v e]|] eqn:Hf; [|by apply Hext].
  exists L. split; [done|]. eexists X, _. split; [|by apply HQ].
  destruct Hc as [H1 H2 H3]. split; [|done|by rewrite <- H3].
  intros l Hl. destruct (H1 l Hl) as [Hch Hnd]. split; [|done].
  by destruct l.
Qed.

Lemma aruns_myproc L X a Q :
  Q (c_proc (cpus a h)) L X a -> aruns ext h (myproc h) L X a Q.
Proof.
  intros HQ c Hc. unfold myproc.
  apply (runs_push_pop _ _ _ (cpus c h) c_proc).
  - intros y. unfold get_cpu. by rewrite cpu_in_range.
  - exists X, a. split; [done|]. destruct Hc as [_ _ <-]. done.
Qed.

Lemma aruns_this_proc p L X a Q :
  c_proc (cpus a h) = Some p -> Q p L X a -> aruns ext h (this_proc h) L X a Q.
Proof.
  intros Hp HQ. unfold this_proc. apply aruns_bind, aruns_myproc. rewrite Hp.
  by apply aruns_ret.
Qed.

Lemma aruns_mod_intena f L X a Q :
  (forall y, locks (f y) = locks y ∧ noff (f y) = noff y ∧ sie (f y) = sie y) ->
  Q tt L X a -> aruns ext h (mod_sync f) L X a Q.
Proof. intros Hf HQ c Hc. apply runs_mod_intena; [done|]. by exists X, a. Qed.

Lemma aruns_sched_back p L X a Q : Q tt L X a -> aruns ext h (sched_back h p) L X a Q.
Proof. intros HQ. by apply aruns_mod_intena. Qed.

Lemma aruns_sched p X a Q :
  c_proc (cpus a h) = Some p -> 0 <= p < NPROC -> pstate a p ≠ RUNNING ->
  Q tt [] X (a <| cpus ::= fun cs => upd cs h ((cs h) <| c_proc := None |>) |>) ->
  aruns ext h (sched h) [LkProc p] X a Q.
Proof.
  intros Hp Hr Hs HQ. unfold sched. apply aruns_bind, (aruns_this_proc p); [done|].
  apply aruns_bind. intros c Hc. apply runs_holding; [solve_lock|].
  exists X, a. split; [done|]. rewrite bool_decide_true by (apply list_elem_of_singleton; done).
  cbn. apply aruns_bind. clear c Hc. intros c Hc. apply runs_noff. exists X, a. split; [done|]. cbn.
  apply aruns_bind, aruns_get_proc; [done|]. intros v. cbn.
  rewrite bool_decide_false by done.
  apply aruns_bind. clear c Hc. intros c Hc. apply runs_intr_get; [done|].
  exists X, a. split; [done|]. cbn. apply aruns_bind, aruns_mod_intena; [done|]. unfold scheduler_return.
  apply aruns_bind, aruns_set_cpu; [done|done|].
  eapply aruns_release; [solve_lock|reflexivity|done].
Qed.
End rules.

(** Symbolic execution on the abstract view. *)
Ltac astep :=
  cbv beta;
  lazymatch goal with
  | |- aruns _ _ (_ ≫= _) _ _ _ _ => apply aruns_bind
  | |- aruns _ _ (mret _) _ _ _ _ => apply aruns_ret
  | |- aruns _ _ (acquire _ _) _ _ _ _ =>
      apply aruns_acquire; [solve_lock | try solve [solve_notin] | ]
  | |- aruns _ _ (release _ _) _ _ _ _ =>
      eapply aruns_release; [solve_lock | perm_front | ]
  | |- aruns _ _ (get_proc _) _ _ _ _ => apply aruns_get_proc; [try solve_lock | intros ?v]
  | |- aruns _ _ (set_proc _ _) _ _ _ _ =>
      apply aruns_set_proc; [try solve_lock | reflexivity | ]
  | |- aruns _ _ (get_cpu _) _ _ _ _ => apply aruns_get_cpu; [try solve_lock | intros ?v]
  | |- aruns _ _ (set_cpu _ _) _ _ _ _ =>
      apply aruns_set_cpu; [try solve_lock | reflexivity | ]
  | |- aruns _ _ (get_first _) _ _ _ _ => apply aruns_get_first; [try solve_lock | ]
  | |- aruns _ _ (myproc _) _ _ _ _ => apply aruns_myproc; [assumption | ]
  | |- aruns _ _ (when _ _) _ _ _ _ => apply aruns_when; intros ?Hb
  end.

(** ** The transitions of a process preserve the invariant *)
Section transitions.
Context {E : Type}.
Implicit Types (a : core E) (X : listid -> list Z).

Definition on_proc (i : Z) (f : proc -> proc) a : core E :=
  a <| procs ::= fun ps => upd ps i (f (ps i)) |>.
Definition on_cpu (k : Z) (f : cpu -> cpu) a : core E :=
  a <| cpus ::= fun cs => upd cs k (f (cs k)) |>.

Definition enqueue (l : listid) (i : Z) X : listid -> list Z := upd X l (X l ++ [i]).
Definition dequeue (l : listid) (i : Z) X : listid -> list Z := upd X l (without i (X l)).

(** A change of [i]'s state that keeps what the invariant says of its other
    fields. *)
Record sets_state (f : proc -> proc) (s : procstate) (p : proc) : Prop := {
  ss_state : state (f p) = s;
  ss_index : index_in_proc (f p) = index_in_proc p;
  ss_cpu : cpu_num (f p) = cpu_num p;
  ss_pid : pid (f p) = pid p
}.

Lemma pstate_on_proc i f a j :
  pstate (on_proc i f a) j = if decide (j = i) then state (f (procs a i)) else pstate a j.
Proof. unfold pstate, on_proc; simpl. unfold upd. by case_decide. Qed.

Lemma elem_of_enqueue l i X l' j :
  j ∈ enqueue l i X l' <-> j ∈ X l' ∨ (l' = l ∧ j = i).
Proof.
  unfold enqueue, upd. case_decide; [subst; rewrite elem_of_app, list_elem_of_singleton|]; intuition.
Qed.

Lemma elem_of_dequeue l i X l' j :
  j ∈ dequeue l i X l' <-> j ∈ X l' ∧ (l' = l -> j ≠ i).
Proof.
  unfold dequeue, upd. case_decide; [subst; rewrite elem_of_without|]; intuition.
Qed.

(** In which list a process is, is determined by its state. *)
Lemma inv_in_list X a l i :
  inv X a -> list_ok l = true -> i ∈ X l -> pstate a i = list_state l.
Proof. intros Hinv Hl Hi. by destruct (inv_list _ _ Hinv l i Hl Hi). Qed.

Lemma inv_not_running X a k i :
  inv X a -> 0 <= k < NCPU -> pstate a i ≠ RUNNING -> c_proc (cpus a k) ≠ Some i.
Proof. intros Hinv Hk Hs Hc. by destruct (inv_running _ _ Hinv k i Hk Hc). Qed.

Lemma pid_ok_on_proc a i f s :
  pid_ok a -> sets_state f s (procs a i) -> (s = UNUSED <-> pstate a i = UNUSED) ->
  pid_ok (on_proc i f a).
Proof.
  intros Hp [H1 H2 H3 H4] Hs. eapply pid_ok_same; [exact Hp|done|..].
  - intros j _. unfold on_proc; simpl. unfold upd. case_decide; [by subst|done].
  - intros j _. rewrite pstate_on_proc. case_decide; [subst j; by rewrite H1|done].
Qed.

Lemma pid_ok_on_cpu a k f : pid_ok a -> pid_ok (on_cpu k f a).
Proof. intros [H1 H2 H3 H4]. by split. Qed.

Lemma frame_on_proc i f X a X' :
  (forall l j, list_ok l = true -> j ≠ i -> j ∈ X' l <-> j ∈ X l) ->
  frame_except i X a X' (on_proc i f a).
Proof.
  intros Hl. split; [|done|done].
  intros j Hj _. unfold on_proc; simpl. by rewrite upd_ne.
Qed.

Lemma inv_fields X a i f :
  inv X a -> 0 <= i < NPROC -> sets_state f (pstate a i) (procs a i) -> inv X (on_proc i f a).
Proof.
  intros Hinv Hi Hf. pose proof Hf as [H1 H2 H3 H4].
  assert (Hps : forall j, pstate (on_proc i f a) j = pstate a j).
  { intros j. rewrite pstate_on_proc. case_decide; [subst; by rewrite H1|done]. }
  eapply (inv_update X a); [done|exact Hi|by apply frame_on_proc|..].
  - unfold on_proc; simpl. rewrite upd_eq, H2. by apply (inv_index _ _ Hinv).
  - unfold on_proc; simpl. rewrite upd_eq, H3. by apply (inv_cpu_num _ _ Hinv).
  - unfold home. rewrite Hps. by apply (inv_home _ _ Hinv).
  - intros l Hl Hin. rewrite Hps. by apply (inv_list _ _ Hinv).
  - intros k Hk Hc. rewrite Hps. by apply (inv_running _ _ Hinv k i).
  - intros k k' Hk Hk'. by apply (inv_one_cpu _ _ Hinv).
  - by eapply pid_ok_on_proc; [apply (inv_pid _ _ Hinv)|exact Hf|].
Qed.

(** From one list to another: wakeup, kill. *)
Lemma inv_move X a i l1 l2 f :
  inv X a -> list_ok l1 = true -> list_ok l2 = true -> i ∈ X l1 ->
  (forall l, list_ok l = true -> i ∈ X l -> l = l1) ->
  l1 ≠ l2 -> l1 ≠ LUnused -> l2 ≠ LUnused ->
  sets_state f (list_state l2) (procs a i) ->
  inv (enqueue l2 i (dequeue l1 i X)) (on_proc i f a).
Proof.
  intros Hinv Hl1 Hl2 Hi Huniq Hne Hu1 Hu2 Hf. pose proof Hf as [H1 H2 H3 H4].
  destruct (inv_list _ _ Hinv _ _ Hl1 Hi) as [Hr Hs].
  assert (Hps : pstate (on_proc i f a) i = list_state l2)
    by (rewrite pstate_on_proc, decide_True by done; done).
  assert (Hin : i ∈ enqueue l2 i (dequeue l1 i X) l2) by (apply elem_of_enqueue; auto).
  eapply (inv_update X a); [done|exact Hr|..].
  - apply frame_on_proc. intros l j Hl Hj. rewrite elem_of_enqueue, elem_of_dequeue. intuition congruence.
  - unfold on_proc; simpl. rewrite upd_eq, H2. by apply (inv_index _ _ Hinv).
  - unfold on_proc; simpl. rewrite upd_eq, H3. by apply (inv_cpu_num _ _ Hinv).
  - unfold home. rewrite Hps. destruct l2; simpl; try done.
    exists k. split; [|done]. simpl in Hl2. unfold cpu_index_ok in Hl2. lia.
  - intros l Hl. rewrite elem_of_enqueue, elem_of_dequeue, Hps.
    intros [[Hil Hll]|[-> _]]; [|done]. by destruct (Hll (Huniq l Hl Hil)).
  - intros k Hk Hc. exfalso. eapply (inv_not_running X a k i); eauto. rewrite Hs. by destruct l1.
  - intros k k' Hk Hk'. by apply (inv_one_cpu _ _ Hinv).
  - eapply pid_ok_on_proc; [apply (inv_pid _ _ Hinv)|exact Hf|]. rewrite Hs. by destruct l1, l2.
Qed.

(** From a CPU to a list: yield, sleep, exit. *)
Lemma inv_stop X a i h l f :
  inv X a -> 0 <= h < NCPU -> c_proc (cpus a h) = Some i -> list_ok l = true -> l ≠ LUnused ->
  sets_state f (list_state l) (procs a i) ->
  inv (enqueue l i X) (on_cpu h (fun c => c <| c_proc := None |>) (on_proc i f a)).
Proof.
  intros Hinv Hh Hc Hl Hlu Hf. pose proof Hf as [H1 H2 H3 H4].
  destruct (inv_running _ _ Hinv h i Hh Hc) as [Hr Hs].
  set (a' := on_cpu _ _ _).
  assert (Hps : pstate a' i = list_state l).
  { unfold a'. change (pstate (on_proc i f a) i = list_state l).
    rewrite pstate_on_proc, decide_True by done. done. }
  assert (Hcp : forall k j, c_proc (cpus a' k) = Some j -> k ≠ h ∧ c_proc (cpus a k) = Some j).
  { intros k j. unfold a', on_cpu; simpl. unfold upd. case_decide; [done|auto]. }
  assert (Hin : i ∈ enqueue l i X l) by (apply elem_of_enqueue; auto).
  eapply (inv_update X a); [done|exact Hr|..].
  - split.
    + intros j Hj _. unfold a', on_cpu, on_proc; simpl. by rewrite upd_ne.
    + intros l' j _ Hj. rewrite elem_of_enqueue. intuition congruence.
    + intros k j Hk Hj. unfold a', on_cpu; simpl. unfold upd.
      case_decide; simpl; [subst k; rewrite Hc; split; congruence|done].
  - unfold a', on_cpu, on_proc; simpl. rewrite upd_eq, H2. by apply (inv_index _ _ Hinv).
  - unfold a', on_cpu, on_proc; simpl. rewrite upd_eq, H3. by apply (inv_cpu_num _ _ Hinv).
  - unfold home. rewrite Hps. destruct l; simpl; try done.
    exists k. split; [|done]. simpl in Hl. unfold cpu_index_ok in Hl. lia.
  - intros l' Hl'. rewrite elem_of_enqueue, Hps. intros [Hil|[-> _]]; [|done].
    pose proof (inv_in_list _ _ _ _ Hinv Hl' Hil). rewrite Hs in *. by destruct l'.
  - intros k Hk [Hkh Hk']%Hcp. by destruct (Hkh (inv_one_cpu _ _ Hinv k h i Hk Hh Hk' Hc)).
  - intros k k' Hk Hk' [Hkh Hck]%Hcp _. by destruct (Hkh (inv_one_cpu _ _ Hinv k h i Hk Hh Hck Hc)).
  - apply pid_ok_on_cpu. eapply pid_ok_on_proc; [apply (inv_pid _ _ Hinv)|exact Hf|]. rewrite Hs. by destruct l.
Qed.

(** From the queue of a CPU to that CPU: the scheduler. *)
Lemma inv_start X a i h f :
  inv X a -> 0 <= h < NCPU -> c_proc (cpus a h) = None -> i ∈ X (LRunnable h) ->
  (forall l, list_ok l = true -> i ∈ X l -> l = LRunnable h) ->
  sets_state f RUNNING (procs a i) ->
  inv (dequeue (LRunnable h) i X)
    (on_cpu h (fun c => c <| c_proc := Some i |>) (on_proc i f a)).
Proof.
  intros Hinv Hh Hc Hi Huniq Hf. pose proof Hf as [H1 H2 H3 H4].
  assert (Hl : list_ok (LRunnable h) = true) by (simpl; unfold cpu_index_ok; lia).
  destruct (inv_list _ _ Hinv _ i Hl Hi) as [Hr Hs].
  set (a' := on_cpu _ _ _).
  assert (Hps : pstate a' i = RUNNING).
  { unfold a'. change (pstate (on_proc i f a) i = RUNNING).
    rewrite pstate_on_proc, decide_True by done. done. }
  assert (Hcp : forall k, 0 <= k < NCPU -> c_proc (cpus a' k) = Some i -> k = h).
  { intros k Hk. unfold a', on_cpu; simpl. unfold upd. case_decide; [done|].
    intros Hck. exfalso. eapply (inv_not_running X a k i); eauto. by rewrite Hs. }
  eapply (inv_update X a); [done|exact Hr|..].
  - split.
    + intros j Hj _. unfold a', on_cpu, on_proc; simpl. by rewrite upd_ne.
    + intros l' j _ Hj. rewrite elem_of_dequeue. intuition congruence.
    + intros k j Hk Hj. unfold a', on_cpu; simpl. unfold upd.
      case_decide; simpl; [subst k; rewrite Hc; split; congruence|done].
  - unfold a', on_cpu, on_proc; simpl. rewrite upd_eq, H2. by apply (inv_index _ _ Hinv).
  - unfold a', on_cpu, on_proc; simpl. rewrite upd_eq, H3. by apply (inv_cpu_num _ _ Hinv).
  - unfold home. rewrite Hps. exists h. split; [done|]. unfold a', on_cpu; simpl. by rewrite upd_eq.
  - intros l' Hl'. rewrite elem_of_dequeue. intros [Hil Hn]. by destruct (Hn (Huniq l' Hl' Hil)).
  - done.
  - intros k k' Hk Hk' Hck Hck'. by rewrite (Hcp k), (Hcp k').
  - apply pid_ok_on_cpu. eapply pid_ok_on_proc; [apply (inv_pid _ _ Hinv)|exact Hf|]. rewrite Hs. done.
Qed.
End transitions.
