(* ===== verification/ProcThm.v ===== *)
(** * ProcThm: the operations of kernel/proc.c preserve the invariant

    For each operation: started in a state of the invariant with the locks its
    callers hold, it returns without a panic, without leaving an array and with
    its locks released, its effect on the abstract view is the stated one, and
    the invariant holds again.  [ext] is what is allowed when a routine of
    another component does not return. *)

From S2P Require Import Prelude KState Spinlock ProcList ProcAbs Proc ProcInv.

(** Locks that may be held around calls of [wakeup]: none of a process or list. *)
Definition outer (lk : lockid) : Prop :=
  match lk with LkWait | LkPid | LkOther _ => True | _ => False end.

Lemma outer_notin L lk : Forall outer L -> (outer lk -> False) -> lk ∉ L.
Proof. intros Hf Ho Hin. rewrite Forall_forall in Hf. by apply Ho, Hf. Qed.

(** A lock of a process or list is not among outer locks. *)
Ltac solve_inner :=
  intros; repeat (apply not_elem_of_cons; split; [discriminate|]);
  first [ apply not_elem_of_nil | eapply outer_notin; [eassumption|exact (fun x => x)] ].

Section wakeup.
Context {E : Type} `{KEnv E} (ext : failure -> Prop) (h : Z) (Hh : 0 <= h < NCPU).
Context (Hblnc : BLNCFLG = false).
Implicit Types (L : list lockid) (X : listid -> list Z) (a : core E).

Lemma aruns_disj {A} (m : M (kstate E) A) L X a Q :
  ((forall l l' i, list_ok l = true -> list_ok l' = true -> i ∈ X l -> i ∈ X l' -> l = l') ->
   aruns ext h m L X a Q) -> aruns ext h m L X a Q.
Proof. intros Hm c Hc. apply Hm; [|done]. apply (rep_disj _ _ _ Hc). Qed.

(** Does [wakeup(ch)], called by process [me], wake process [i]? *)
Definition wakes (me : option Z) (ch : chan) (ps : Z -> proc) (i : Z) : bool :=
  negb (bool_decide (Some i = me)) &&
  (bool_decide (state (ps i) = SLEEPING) && bool_decide (p_chan (ps i) = ch)).

Definition set_runnable (p : proc) : proc := p <| state := RUNNABLE |>.

Definition wake_lists (i : Z) X : listid -> list Z :=
  enqueue (LRunnable 0) i (dequeue LSleeping i X).

Lemma inv_wake X a i :
  inv X a -> i ∈ X LSleeping -> (forall l, list_ok l = true -> i ∈ X l -> l = LSleeping) ->
  inv (wake_lists i X) (on_proc i set_runnable a).
Proof. intros Hinv Hi Hu. by apply (inv_move X a i LSleeping (LRunnable 0)). Qed.

Lemma sleeping_in_list X a i :
  inv X a -> 0 <= i < NPROC -> pstate a i = SLEEPING -> i ∈ X LSleeping.
Proof. intros Hinv Hi Hs. pose proof (inv_home _ _ Hinv i Hi) as Hho. unfold home in Hho. by rewrite Hs in Hho. Qed.

Lemma aruns_wakeup_one ch i L X a Q :
  inv X a -> 0 <= i < NPROC -> Forall outer L ->
  (wakes (c_proc (cpus a h)) ch (procs a) i = true ->
   inv (wake_lists i X) (on_proc i set_runnable a) ->
   Q tt L (wake_lists i X) (on_proc i set_runnable a)) ->
  (wakes (c_proc (cpus a h)) ch (procs a) i = false -> Q tt L X a) ->
  aruns ext h (wakeup_one h ch i) L X a Q.
Proof.
  intros Hinv Hi HL Ht Hf. unfold wakes in *.
  apply aruns_disj. intros Hdisj. unfold wakeup_one. astep. astep.
  destruct (bool_decide (Some i = c_proc (cpus a h))) eqn:Hme; simpl in *;
    [by apply aruns_ret, Hf|].
  assert (LkProc i ∉ L) by solve_inner.
  astep. astep. astep. astep. astep. astep; simpl in *.
  - (* woken *)
    apply andb_true_iff in Hb as [Hs Hc]. pose proof Hs as Hs'.
    apply bool_decide_eq_true in Hs'. change (pstate a i = SLEEPING) in Hs'.
    pose proof (sleeping_in_list _ _ _ Hinv Hi Hs') as Hin.
    assert (Hinv' : inv (wake_lists i X) (on_proc i set_runnable a)).
    { apply inv_wake; [done..|]. intros l Hl Hil. by apply (Hdisj l LSleeping i). }
    rewrite (inv_index _ _ Hinv) by done. astep. astep. astep.
    apply aruns_remove; [done|..].
    1, 2: solve_inner.
    { done. }
    rewrite Hblnc. apply aruns_add; [done|..].
    1, 2: solve_inner.
    { intros l' Hl' Hin'%elem_of_dequeue. destruct Hin' as [Hin' Hn].
      by destruct (Hn (Hdisj l' LSleeping i Hl' eq_refl Hin' Hin)). }
    { done. }
    astep. apply Ht; [|done]. by rewrite Hs, Hc.
  - astep. apply Hf. by rewrite Hb.
Qed.

(** The whole loop, as a fold over the process table. *)
Fixpoint wake_all (me : option Z) (ch : chan) (js : list Z) (st : (listid -> list Z) * core E)
  : (listid -> list Z) * core E :=
  match js with
  | [] => st
  | i :: js' =>
      wake_all me ch js'
        (if wakes me ch (procs st.2) i then (wake_lists i st.1, on_proc i set_runnable st.2) else st)
  end.

Lemma aruns_wakeup_loop ch js L X a Q :
  inv X a -> Forall (fun i => 0 <= i < NPROC) js -> Forall outer L ->
  (let st := wake_all (c_proc (cpus a h)) ch js (X, a) in
   inv st.1 st.2 -> Q tt L st.1 st.2) ->
  aruns ext h (for_each js (wakeup_one h ch)) L X a Q.
Proof.
  revert X a. induction js as [|i js IH]; intros X a Hinv Hjs HL HQ; simpl.
  - by apply aruns_ret, HQ.
  - apply Forall_cons in Hjs as [Hi Hjs]. astep.
    apply aruns_wakeup_one; [done..| |]; intros Hw; [intros Hinv'|];
      apply IH; auto; simpl in HQ; rewrite Hw in HQ; auto.
Qed.

Lemma all_procs_range : Forall (fun i => 0 <= i < NPROC) all_procs.
Proof. apply Forall_forall. intros i Hi. apply elem_of_seqZ in Hi. lia. Qed.

Lemma aruns_wakeup ch L X a Q :
  inv X a -> Forall outer L ->
  (let st := wake_all (c_proc (cpus a h)) ch all_procs (X, a) in
   inv st.1 st.2 -> Q tt L st.1 st.2) ->
  aruns ext h (wakeup h ch) L X a Q.
Proof. intros. apply aruns_wakeup_loop; auto. apply all_procs_range. Qed.
End wakeup.

Section calls.
Context {E : Type} `{KEnv E} (ext : failure -> Prop) (h : Z) (Hh : 0 <= h < NCPU).
Context (Hblnc : BLNCFLG = false).
Implicit Types (L : list lockid) (X : listid -> list Z) (a : core E).

(** [a'] is [a] after some sleeping processes were made runnable. *)
Record woken a a' : Prop := {
  wk_cpus : cpus a' = cpus a;
  wk_init : initproc a' = initproc a;
  wk_next : nextpid a' = nextpid a;
  wk_procs : forall j, procs a' j = procs a j ∨
    (pstate a j = SLEEPING ∧ procs a' j = set_runnable (procs a j))
}.

Lemma woken_refl a : woken a a.
Proof. split; auto. Qed.

Lemma woken_trans a1 a2 a3 : woken a1 a2 -> woken a2 a3 -> woken a1 a3.
Proof.
  intros [A1 A2 A3 A4] [B1 B2 B3 B4]. split; try congruence.
  intros j. destruct (B4 j) as [Hj|[Hs Hj]]; unfold pstate in *.
  - rewrite Hj. apply A4.
  - destruct (A4 j) as [Hj'|[_ Hj']]; rewrite Hj' in *; [auto|done].
Qed.

Lemma woken_running a a' j : woken a a' -> pstate a j = RUNNING -> procs a' j = procs a j.
Proof. intros [_ _ _ Hw] Hs. destruct (Hw j) as [|[Hs' _]]; [done|congruence]. Qed.

Lemma wake_all_woken me ch js X a : woken a (wake_all me ch js (X, a)).2.
Proof.
  revert X a. induction js as [|i js IH]; intros X a; [apply woken_refl|]. simpl.
  destruct (wakes me ch (procs a) i) eqn:Hw; [|apply IH].
  eapply woken_trans; [|apply IH]. split; [done..|].
  intros j. unfold on_proc; simpl. unfold upd. case_decide; [subst j|auto].
  right. split; [|done]. unfold wakes in Hw.
  apply andb_true_iff in Hw as [_ Hw]. apply andb_true_iff in Hw as [Hw _].
  by apply bool_decide_eq_true in Hw.
Qed.

Lemma aruns_wakeup_woken ch L X a Q :
  inv X a -> Forall outer L ->
  (forall X' a', inv X' a' -> woken a a' -> Q tt L X' a') ->
  aruns ext h (wakeup h ch) L X a Q.
Proof.
  intros Hinv HL HQ. apply aruns_wakeup; auto. intros st Hst. apply HQ; [done|].
  apply wake_all_woken.
Qed.

(** Loops, with an invariant over the part already done. *)
Lemma aruns_for_each_split {A} (I : list A -> (listid -> list Z) -> core E -> Prop)
    (xs : list A) body L X a Q :
  (forall dn x rest X a, xs = dn ++ x :: rest -> I dn X a ->
     aruns ext h (body x) L X a (fun _ L' X' a' => L' = L ∧ I (dn ++ [x]) X' a')) ->
  I [] X a -> (forall X' a', I xs X' a' -> Q tt L X' a') ->
  aruns ext h (for_each xs body) L X a Q.
Proof.
  intros Hbody HI HQ.
  cut (forall ys dn X a, xs = dn ++ ys -> I dn X a -> aruns ext h (for_each ys body) L X a Q).
  { intros Hcut. by apply (Hcut xs [] X a). }
  clear HI X a. induction ys as [|y ys IH]; intros dn X a -> HI; simpl.
  - apply aruns_ret, HQ. by rewrite app_nil_r.
  - astep. eapply aruns_mono; [eapply Hbody; [reflexivity|exact HI]|].
    intros _ L' X' a' [-> HI']. apply (IH (dn ++ [y])); [|done]. by rewrite <- app_assoc.
Qed.

Lemma aruns_for_each {A} (I : list A -> (listid -> list Z) -> core E -> Prop)
    (xs : list A) body L X a Q :
  (forall dn x X a, x ∈ xs -> I dn X a ->
     aruns ext h (body x) L X a (fun _ L' X' a' => L' = L ∧ I (dn ++ [x]) X' a')) ->
  I [] X a -> (forall X' a', I xs X' a' -> Q tt L X' a') ->
  aruns ext h (for_each xs body) L X a Q.
Proof.
  intros Hbody. apply aruns_for_each_split. intros dn x rest X' a' Hxs.
  apply Hbody. rewrite Hxs. apply elem_of_app; right; apply elem_of_cons; auto.
Qed.

Lemma inv_env X a e : inv X a -> inv X (a <| env := e |>).
Proof.
  intros [H1 H2 H3 H4 H5 H6 [P1 P2 P3 P4]]. split; [exact H1|exact H2|exact H3|exact H4|exact H5|exact H6|].
  split; [exact P1|exact P2|exact P3|exact P4].
Qed.

Lemma aruns_call_wake {A} (f : waker E A) L X a Q :
  ext FCallee -> inv X a -> Forall outer L ->
  (forall v X' a', inv X' a' -> woken a a' -> Q v L X' a') ->
  aruns ext h (call_wake h f) L X a Q.
Proof.
  intros Hext Hinv HL HQ. unfold call_wake. astep. apply aruns_call; [done|].
  intros [v chs] e He. astep.
  apply (aruns_for_each (fun _ X' a' => inv X' a' ∧ woken a a')).
  - intros dn ch X' a' _ [Hinv' Hw]. apply aruns_wakeup_woken; [done..|].
    intros X'' a'' Hinv'' Hw'. split_and!; [done..|]. by eapply woken_trans.
  - split; [by apply inv_env|]. split; auto.
  - intros X' a' [Hinv' Hw]. apply aruns_ret. by apply HQ.
Qed.
End calls.

Section switching.
Context {E : Type} `{KEnv E} (ext : failure -> Prop) (h : Z) (Hh : 0 <= h < NCPU).
Implicit Types (L : list lockid) (X : listid -> list Z) (a : core E).

Lemma on_proc_on_proc i (f g : proc -> proc) a :
  on_proc i g (on_proc i f a) = on_proc i (fun p => g (f p)) a.
Proof. unfold on_proc, setter; cbn. f_equal. by rewrite upd_upd, upd_eq. Qed.

Lemma runnable_ok : list_ok (LRunnable h) = true.
Proof. simpl; unfold cpu_index_ok; lia. Qed.

Definition set_running (p : proc) : proc := p <| state := RUNNING |>.
Definition set_current (p : option Z) (c : cpu) : cpu := c <| c_proc := p |>.

Lemma aruns_scheduler_pick X a Q :
  inv X a -> c_proc (cpus a h) = None ->
  (X (LRunnable h) = [] -> Q None [] X a) ->
  (forall i rest, X (LRunnable h) = i :: rest ->
     let X' := dequeue (LRunnable h) i X in
     let a' := on_cpu h (set_current (Some i)) (on_proc i set_running a) in
     inv X' a' -> Q (Some i) [LkProc i] X' a') ->
  aruns ext h (scheduler_pick h) [] X a Q.
Proof.
  intros Hinv Hc Hnone Hsome. apply aruns_disj. intros Hdisj. unfold scheduler_pick.
  pose proof runnable_ok as Hok.
  astep. intros c Hrep. apply runs_intr_on. exists X, a. split; [done|]. clear c Hrep.
  astep. astep. astep. astep.
  destruct (X (LRunnable h)) as [|i rest] eqn:HX; simpl.
  - change (0 <=? -1) with false; cbv iota. astep. astep. astep. auto.
  - assert (Hin : i ∈ X (LRunnable h)) by (rewrite HX; apply elem_of_cons; auto).
    destruct (inv_list _ _ Hinv _ _ Hok Hin) as [Hr Hs].
    assert ((0 <=? i) = true) as -> by lia.
    do 10 astep. cbn. rewrite upd_eq. cbn. rewrite (inv_index _ _ Hinv) by done.
    astep. apply aruns_remove; [done|solve_inner|solve_inner|done|].
    astep. eapply Hsome; [done|]. apply inv_start; [done..| |by split].
    intros l Hl Hil. by eapply Hdisj.
Qed.

(** [yield] up to the switch. *)
Lemma aruns_yield_pre p X a Q :
  inv X a -> c_proc (cpus a h) = Some p ->
  (let X' := enqueue (LRunnable (cpu_num (procs a p))) p X in
   let a' := on_cpu h (set_current None) (on_proc p set_runnable a) in
   inv X' a' -> Q tt [] X' a') ->
  aruns ext h (yield_pre h) [] X a Q.
Proof.
  intros Hinv Hc HQ. destruct (inv_running _ _ Hinv h p Hh Hc) as [Hr Hs].
  pose proof (inv_cpu_num _ _ Hinv p Hr) as Hcn.
  assert (Hok : list_ok (LRunnable (cpu_num (procs a p))) = true)
    by (simpl; unfold cpu_index_ok; lia).
  unfold yield_pre. astep. apply (aruns_this_proc _ _ Hh p); [done|].
  do 6 astep. cbn. rewrite upd_eq. cbn. rewrite (inv_index _ _ Hinv) by done.
  astep. apply aruns_add; [done|solve_inner|solve_inner| |done|].
  { intros l Hl Hin. pose proof (inv_in_list _ _ _ _ Hinv Hl Hin). rewrite Hs in *. by destruct l. }
  apply (aruns_sched _ _ Hh p); [done|done| |].
  { unfold pstate; cbn. by rewrite upd_eq. }
  apply HQ. by apply (inv_stop X a p h (LRunnable (cpu_num (procs a p))) set_runnable).
Qed.

(** [sleep(ch, lk)] up to the switch; it releases [lk]. *)
Lemma aruns_sleep_pre p ch lk X a Q :
  inv X a -> c_proc (cpus a h) = Some p -> outer lk ->
  (let X' := enqueue LSleeping p X in
   let a' := on_cpu h (set_current None)
               (on_proc p (fun q => q <| p_chan := ch |> <| state := SLEEPING |>) a) in
   inv X' a' -> Q tt [] X' a') ->
  aruns ext h (sleep_pre h ch lk) [lk] X a Q.
Proof.
  intros Hinv Hc Ho HQ. destruct (inv_running _ _ Hinv h p Hh Hc) as [Hr Hs].
  assert (HL : Forall outer [lk]) by (by constructor).
  assert (Hlk : lock_ok lk = true) by (by destruct lk).
  unfold sleep_pre. astep. apply (aruns_this_proc _ _ Hh p); [done|].
  astep. astep. { solve_inner. }
  astep. astep. cbn. rewrite (inv_index _ _ Hinv) by done.
  astep. apply aruns_add; [done|solve_inner|solve_inner| |done|].
  { intros l Hl Hin. pose proof (inv_in_list _ _ _ _ Hinv Hl Hin). rewrite Hs in *. by destruct l. }
  do 6 astep. apply (aruns_sched _ _ Hh p); [done|done| |].
  { unfold pstate; cbn. by rewrite upd_eq. }
  change (Q tt [] (enqueue LSleeping p X)
    (on_cpu h (set_current None)
      (on_proc p (fun q => q <| state := SLEEPING |>) (on_proc p (fun q => q <| p_chan := ch |>) a)))).
  rewrite on_proc_on_proc. apply HQ.
  by apply (inv_stop X a p h LSleeping (fun q => q <| p_chan := ch |> <| state := SLEEPING |>)).
Qed.

(** The process that is switched to releases its lock. *)
Lemma aruns_yield_post p X a Q :
  c_proc (cpus a h) = Some p -> 0 <= p < NPROC -> Q tt [] X a ->
  aruns ext h (yield_post h) [LkProc p] X a Q.
Proof.
  intros Hc Hr HQ. unfold yield_post. astep. apply (aruns_this_proc _ _ Hh p); [done|].
  astep. apply aruns_sched_back.
  by astep.
Qed.

Lemma aruns_sleep_post p X a Q :
  inv X a -> c_proc (cpus a h) = Some p ->
  (let a' := on_proc p (fun q => q <| p_chan := CNull |>) a in inv X a' -> Q tt [] X a') ->
  aruns ext h (sleep_post h) [LkProc p] X a Q.
Proof.
  intros Hinv Hc HQ. destruct (inv_running _ _ Hinv h p Hh Hc) as [Hr Hs].
  unfold sleep_post. astep. apply (aruns_this_proc _ _ Hh p); [done|].
  astep. apply aruns_sched_back.
  do 3 astep. apply HQ. by apply inv_fields.
Qed.
End switching.
