(* ===== verification/ProcLife.v ===== *)
(** * ProcLife: kill, exit, wait and fork

    Rules for the operations of the process life cycle, on the abstract view. *)

From S2P Require Import Prelude KState Spinlock ProcList ProcAbs Proc ProcInv ProcThm.

Section kill.
Context {E : Type} `{KEnv E} (ext : failure -> Prop) (h : Z) (Hh : 0 <= h < NCPU).
Implicit Types (L : list lockid) (X : listid -> list Z) (a : core E).

Definition set_killed (p : proc) : proc := p <| killed := 1 |>.

(** The state after process [i] was killed: a sleeping one also goes to the
    queue of its CPU. *)
Definition kill_effect (i : Z) X a : (listid -> list Z) * core E :=
  if bool_decide (pstate a i = SLEEPING)
  then (enqueue (LRunnable (cpu_num (procs a i))) i (dequeue LSleeping i X),
        on_proc i (fun p => set_runnable (set_killed p)) a)
  else (X, on_proc i set_killed a).

Lemma aruns_kill_one pid' i X a Q :
  inv X a -> 0 <= i < NPROC ->
  (pid (procs a i) ≠ pid' -> Q None [] X a) ->
  (pid (procs a i) = pid' -> let st := kill_effect i X a in inv st.1 st.2 -> Q (Some 0) [] st.1 st.2) ->
  aruns ext h (kill_one h pid' i) [] X a Q.
Proof.
  intros Hinv Hi Hne Heq. apply aruns_disj. intros Hdisj. unfold kill_one.
  astep. astep. astep. astep. cbn.
  destruct (pid (procs a i) =? pid') eqn:Hpid;
    [apply Z.eqb_eq in Hpid|apply Z.eqb_neq in Hpid; do 3 astep; auto].
  specialize (Heq Hpid). unfold kill_effect in Heq. cbv zeta in Heq. unfold pstate in Heq.
  do 3 astep. astep; rewrite Hb in Heq.
  - apply bool_decide_eq_true in Hb.
    pose proof (sleeping_in_list _ _ _ Hinv Hi Hb) as Hin.
    pose proof (inv_cpu_num _ _ Hinv i Hi) as Hcn.
    assert (Hok : list_ok (LRunnable (cpu_num (procs a i))) = true)
      by (simpl; unfold cpu_index_ok; lia).
    cbn. rewrite (inv_index _ _ Hinv) by done.
    astep. apply aruns_remove; [done|solve_inner|solve_inner|done|].
    do 4 astep. cbn. rewrite !upd_eq. cbn.
    rewrite (inv_index _ _ Hinv) by done.
    apply aruns_add; [done|solve_inner|solve_inner| |done|].
    { intros l' Hl' [Hin' Hn]%elem_of_dequeue.
      by destruct (Hn (Hdisj l' LSleeping i Hl' eq_refl Hin' Hin)). }
    do 3 astep.
    change (Q (Some 0) [] (enqueue (LRunnable (cpu_num (procs a i))) i (dequeue LSleeping i X))
      (on_proc i set_runnable (on_proc i set_killed a))).
    rewrite on_proc_on_proc. apply Heq.
    apply (inv_move X a i LSleeping (LRunnable (cpu_num (procs a i)))); try done.
    intros l Hl Hil. by apply (Hdisj l LSleeping i).
  - do 3 astep. apply Heq. by apply inv_fields.
Qed.

(** [kill] acts on the first slot of the table with that identifier. *)
Lemma aruns_kill pid' X a Q :
  inv X a ->
  ((forall i, 0 <= i < NPROC -> pid (procs a i) ≠ pid') -> Q (-1) [] X a) ->
  (forall i, 0 <= i < NPROC -> pid (procs a i) = pid' ->
     (forall j, 0 <= j < i -> pid (procs a j) ≠ pid') ->
     let st := kill_effect i X a in inv st.1 st.2 -> Q 0 [] st.1 st.2) ->
  aruns ext h (kill h pid') [] X a Q.
Proof.
  intros Hinv Hnone Hsome. unfold kill. astep.
  cut (forall n k, (Z.of_nat n = NPROC - k) -> 0 <= k ->
    (forall j, 0 <= j < k -> pid (procs a j) ≠ pid') ->
    aruns ext h (for_return (seqZ k (Z.of_nat n)) (kill_one h pid')) [] X a
      (fun r L' X' a' => aruns ext h (mret (default (-1) r)) L' X' a' Q)).
  { intros Hcut. apply (Hcut (Z.to_nat NPROC) 0); [done|done|lia]. }
  induction n as [|n IH]; intros k Hn Hk Hlt.
  - apply aruns_ret, aruns_ret, Hnone. intros i Hi. apply Hlt. lia.
  - rewrite seqZ_cons by lia. replace (Z.pred (Z.of_nat (S n))) with (Z.of_nat n) by lia.
    cbn [for_return]. astep. apply aruns_kill_one; [done|lia|..].
    + intros Hpid. apply IH; [lia|lia|]. intros j Hj.
      destruct (decide (j = k)) as [->|]; [done|]. apply Hlt. lia.
    + intros Hpid st Hst. apply aruns_ret, aruns_ret. apply Hsome; [lia|done|done|done].
Qed.
End kill.

Section exit.
Context {E : Type} `{KEnv E} (ext : failure -> Prop) (h : Z) (Hh : 0 <= h < NCPU).
Context (Hblnc : BLNCFLG = false) (Hext : ext FCallee).
Implicit Types (L : list lockid) (X : listid -> list Z) (a : core E).

(** Process [p] runs on hart [h]; [ip] is the init process. *)
Record running_as (p : Z) (ip : option Z) X a : Prop := {
  ra_inv : inv X a;
  ra_cpu : c_proc (cpus a h) = Some p;
  ra_ip : initproc a = ip
}.

Lemma running_as_range p ip X a :
  running_as p ip X a -> 0 <= p < NPROC ∧ pstate a p = RUNNING.
Proof. intros [Hinv Hc _]. by apply (inv_running _ _ Hinv h p). Qed.

Lemma running_as_woken p ip X a X' a' :
  running_as p ip X a -> inv X' a' -> woken a a' ->
  running_as p ip X' a' ∧ procs a' p = procs a p.
Proof.
  intros Hra Hinv' Hw. pose proof (running_as_range _ _ _ _ Hra) as [Hr Hs].
  split; [|by apply woken_running]. destruct Hra as [Hinv Hc Hi], Hw as [Hw1 Hw2 Hw3 Hw4].
  split; [done|by rewrite Hw1|by rewrite Hw2].
Qed.

(** Changing fields of a process that the invariant does not mention. *)
Lemma running_as_fields p ip X a i f :
  running_as p ip X a -> 0 <= i < NPROC -> sets_state f (pstate a i) (procs a i) ->
  running_as p ip X (on_proc i f a).
Proof. intros [Hinv Hc Hi] Hr Hf. split; [by apply inv_fields|done|done]. Qed.

Lemma elem_of_NOFILE fd : fd ∈ seqZ 0 NOFILE <-> 0 <= fd < NOFILE.
Proof. rewrite elem_of_seqZ. lia. Qed.

Lemma elem_of_all_procs i : i ∈ all_procs <-> 0 <= i < NPROC.
Proof. unfold all_procs. rewrite elem_of_seqZ. lia. Qed.

(** Closing the open files: lines 534-541. *)
Lemma aruns_close_files p ip X a Q :
  running_as p ip X a ->
  (forall X' a', running_as p ip X' a' ->
     (forall fd, 0 <= fd < NOFILE -> ofile (procs a' p) fd = 0) -> Q tt [] X' a') ->
  aruns ext h (for_each (seqZ 0 NOFILE) (fun fd =>
    q ← get_proc p;
    when (negb (ofile q fd =? 0)) (
      call_wake h (fileclose (ofile q fd));;
      set_proc p (fun q => q <| ofile ::= fun o => upd o fd 0 |>)))) [] X a Q.
Proof.
  intros Hra HQ.
  apply (aruns_for_each ext h (fun dn X a => running_as p ip X a ∧
           forall fd, fd ∈ dn -> ofile (procs a p) fd = 0)).
  - clear X a Hra HQ. intros dn fd X a _ [Hra Hdn].
    pose proof (running_as_range _ _ _ _ Hra) as [Hr Hs].
    astep. astep. cbn. astep.
    + astep. apply aruns_call_wake; [done..|by apply Hra|constructor|].
      intros _ X' a' Hinv' Hw. pose proof (running_as_woken _ _ _ _ _ _ Hra Hinv' Hw) as [Hra' Hp].
      astep. split; [done|]. split.
      * apply running_as_fields; [done..|by split].
      * intros fd'. cbn. rewrite upd_eq. cbn. rewrite Hp. unfold upd.
        intros [Hin|Hin]%elem_of_app; case_decide; try done; [by apply Hdn|].
        by apply list_elem_of_singleton in Hin.
    + split; [done|]. split; [done|]. intros fd' [Hin|Hin]%elem_of_app; [by apply Hdn|].
      apply list_elem_of_singleton in Hin as ->. apply negb_false_iff in Hb. lia.
  - split; [done|]. intros fd Hfd. by apply not_elem_of_nil in Hfd.
  - intros X' a' [Hra' Hall]. apply HQ; [done|]. intros fd Hfd. by apply Hall, elem_of_NOFILE.
Qed.

Definition closed (p : Z) a : Prop :=
  (forall fd, 0 <= fd < NOFILE -> ofile (procs a p) fd = 0) ∧ cwd (procs a p) = 0.

(** [reparent]: no process is left with parent [p]. *)
Lemma aruns_reparent p ip L X a Q :
  running_as p ip X a -> closed p a -> ip ≠ Some p -> Forall outer L ->
  (forall X' a', running_as p ip X' a' -> closed p a' ->
     (forall i, 0 <= i < NPROC -> parent (procs a' i) ≠ Some p) -> Q tt L X' a') ->
  aruns ext h (reparent h p) L X a Q.
Proof.
  intros Hra Hcl Hip HL HQ. unfold reparent.
  apply (aruns_for_each ext h (fun dn X a => running_as p ip X a ∧ closed p a ∧
           forall i, i ∈ dn -> parent (procs a i) ≠ Some p)).
  - clear X a Hra Hcl HQ. intros dn i X a Hi%elem_of_all_procs (Hra & Hcl & Hdn).
    astep. astep. cbn. astep.
    + apply bool_decide_eq_true in Hb. astep. apply aruns_get_core. intros c Hc.
      assert (initproc c = ip) as ->.
      { rewrite <- (ra_ip _ _ _ _ Hra), <- (rep_erase _ _ _ Hc). done. }
      clear c Hc. astep. astep.
      set (a1 := on_proc i (fun q => q <| parent := ip |>) a).
      assert (Hra1 : running_as p ip X a1) by (apply running_as_fields; [done..|by split]).
      apply aruns_wakeup_woken; [done..|by apply Hra1|done|].
      intros X' a' Hinv' Hw. pose proof (running_as_woken _ _ _ _ _ _ Hra1 Hinv' Hw) as [Hra' Hp].
      split; [done|]. split; [done|].
      assert (Hpar : forall j, parent (procs a' j) = parent (procs a1 j)).
      { intros j. by destruct (wk_procs _ _ Hw j) as [->|[_ ->]]. }
      assert (Hpa : forall j, parent (procs a1 j) = if decide (j = i) then ip else parent (procs a j)).
      { intros j. unfold a1, on_proc; simpl. unfold upd. by case_decide. }
      split.
      * unfold closed. rewrite Hp. unfold a1, on_proc; simpl. unfold upd. case_decide; [subst i|]; apply Hcl.
      * intros j Hj. rewrite Hpar, Hpa. case_decide; [done|].
        apply elem_of_app in Hj as [Hj|Hj]; [by apply Hdn|]. by apply list_elem_of_singleton in Hj.
    + apply bool_decide_eq_false in Hb. split; [done|]. split; [done|]. split; [done|].
      intros j [Hj|Hj]%elem_of_app; [by apply Hdn|]. by apply list_elem_of_singleton in Hj as ->.
  - split; [done|]. split; [done|]. intros i Hi. by apply not_elem_of_nil in Hi.
  - intros X' a' (Hra' & Hcl' & Hall). apply HQ; [done..|]. intros i Hi. by apply Hall, elem_of_all_procs.
Qed.

Lemma aruns_exit p status X a Q :
  inv X a -> c_proc (cpus a h) = Some p -> initproc a ≠ Some p ->
  (forall X' a', inv X' a' -> c_proc (cpus a' h) = None ->
     p ∈ X' LZombie -> xstate (procs a' p) = status -> closed p a' ->
     (forall i, 0 <= i < NPROC -> parent (procs a' i) ≠ Some p) -> Q tt [] X' a') ->
  aruns ext h (exit h status) [] X a Q.
Proof.
  intros Hinv Hc Hip HQ. assert (Hra : running_as p (initproc a) X a) by done.
  remember (initproc a) as ip eqn:Hipa.
  unfold exit. astep. apply (aruns_this_proc _ _ Hh p); [done|].
  astep. apply aruns_get_core. intros c Hrep.
  assert (initproc c = ip) as -> by (rewrite Hipa, <- (rep_erase _ _ _ Hrep); done).
  clear c Hrep. rewrite bool_decide_false by congruence.
  astep. eapply aruns_close_files; [done|]. clear X a Hinv Hc Hra Hipa.
  intros X a Hra Hof. astep. apply aruns_call_wake; [done..|by apply Hra|constructor|].
  intros _ X1 a1 Hinv1 Hw1. pose proof (running_as_woken _ _ _ _ _ _ Hra Hinv1 Hw1) as [Hra1 Hp1].
  pose proof (running_as_range _ _ _ _ Hra1) as [Hr _].
  astep. astep. cbn. astep. apply aruns_call_wake; [done..|constructor|].
  intros _ X2 a2 Hinv2 Hw2. pose proof (running_as_woken _ _ _ _ _ _ Hra1 Hinv2 Hw2) as [Hra2 Hp2].
  astep. apply aruns_call_wake; [done..|constructor|].
  intros _ X3 a3 Hinv3 Hw3. pose proof (running_as_woken _ _ _ _ _ _ Hra2 Hinv3 Hw3) as [Hra3 Hp3].
  astep. astep. set (a4 := a3 <| procs ::= _ |>).
  assert (Hra4 : running_as p ip X3 a4) by (apply (running_as_fields _ _ _ _ p); [done..|by split]).
  assert (Hcl4 : closed p a4).
  { unfold closed, a4; cbn. rewrite upd_eq; cbn. rewrite Hp3, Hp2, Hp1. done. }
  clearbody a4. astep. astep. astep.
  eapply aruns_reparent; [done..|by repeat constructor|].
  intros X5 a5 Hra5 Hcl5 Hpar5. astep. astep. cbn. astep.
  apply aruns_wakeup_woken; [done..|by apply Hra5|by repeat constructor|].
  intros X6 a6 Hinv6 Hw6. pose proof (running_as_woken _ _ _ _ _ _ Hra5 Hinv6 Hw6) as [Hra6 Hp6].
  pose proof (running_as_range _ _ _ _ Hra6) as [_ Hs6].
  do 8 astep. cbn. rewrite upd_eq; cbn. rewrite upd_eq; cbn.
  rewrite (inv_index _ _ Hinv6) by done.
  astep. apply aruns_add; [done|solve_inner|solve_inner| |done|].
  { intros l Hl Hin. pose proof (inv_in_list _ _ _ _ Hinv6 Hl Hin). rewrite Hs6 in *. by destruct l. }
  astep. astep.
  apply (aruns_sched _ _ Hh p); [by apply Hra6|done| |].
  { unfold pstate; cbn. by rewrite upd_eq. }
  change (Q tt [] (enqueue LZombie p X6)
    (on_cpu h (fun c => c <| c_proc := None |>)
      (on_proc p (fun q => q <| state := ZOMBIE |>) (on_proc p (fun q => q <| xstate := status |>) a6)))).
  rewrite on_proc_on_proc.
  apply HQ.
  - by apply (inv_stop X6 a6 p h LZombie (fun q => q <| xstate := status |> <| state := ZOMBIE |>)
              Hinv6 Hh (ra_cpu _ _ _ _ Hra6)).
  - cbn. by rewrite upd_eq.
  - apply elem_of_enqueue; auto.
  - cbn. by rewrite upd_eq.
  - unfold closed; cbn. rewrite upd_eq; cbn. rewrite Hp6. done.
  - intros i Hi. cbn. unfold upd.
    assert (Hpi : parent (procs a6 i) ≠ Some p).
    { destruct (wk_procs _ _ Hw6 i) as [->|[_ ->]]; by apply Hpar5. }
    case_decide; [subst i|]; done.
Qed.
End exit.

(** ** Allocation and release of slots *)
Section slots.
Context {E : Type}.
Implicit Types (X : listid -> list Z) (a : core E).

(** What [freeproc] leaves in the slot. *)
Definition freed (p : proc) : proc := clear_slot (p <| trapframe := 0 |>).
#[global] Arguments freed : simpl never.

Lemma clear_slot_next p v :
  clear_slot (p <| next_index_in_list := v |>) = (clear_slot p) <| next_index_in_list := v |>.
Proof. by destruct p. Qed.

Lemma clear_slot_index p : index_in_proc (clear_slot p) = index_in_proc p.
Proof. done. Qed.

Lemma pid_ok_free a i :
  pid_ok a -> pid_ok (on_proc i freed a).
Proof.
  intros [H1 H2 H3 H4].
  assert (Hpid : forall j, pid (procs (on_proc i freed a) j) = if decide (j = i) then 0 else pid (procs a j)).
  { intros j. unfold on_proc; simpl. unfold upd. by case_decide. }
  split; [done|..].
  - intros j Hj. rewrite Hpid. simpl nextpid. specialize (H2 j Hj). case_decide; lia.
  - intros j Hj. rewrite Hpid, pstate_on_proc. case_decide; [done|auto].
  - intros j k Hj Hk. rewrite !Hpid. repeat case_decide; try done; auto; lia.
Qed.

Lemma inv_free X a i :
  inv X a -> i ∈ X LZombie -> (forall l, list_ok l = true -> i ∈ X l -> l = LZombie) ->
  inv (enqueue LUnused i (dequeue LZombie i X)) (on_proc i freed a).
Proof.
  intros Hinv Hi Huniq. destruct (inv_list _ _ Hinv LZombie i eq_refl Hi) as [Hr Hs].
  assert (Hps : pstate (on_proc i freed a) i = UNUSED)
    by (rewrite pstate_on_proc, decide_True by done; done).
  eapply (inv_update X a); [done|exact Hr|..].
  - apply frame_on_proc. intros l j Hl Hj. rewrite elem_of_enqueue, elem_of_dequeue. intuition congruence.
  - unfold on_proc; simpl. rewrite upd_eq. by apply (inv_index _ _ Hinv).
  - unfold on_proc; simpl. rewrite upd_eq. by apply (inv_cpu_num _ _ Hinv).
  - unfold home. rewrite Hps. apply elem_of_enqueue. auto.
  - intros l Hl. rewrite elem_of_enqueue, elem_of_dequeue, Hps.
    intros [[Hil Hll]|[-> _]]; [|done]. by destruct (Hll (Huniq l Hl Hil)).
  - intros k Hk Hc. exfalso. eapply (inv_not_running X a k i); eauto. by rewrite Hs.
  - intros k k' Hk Hk'. by apply (inv_one_cpu _ _ Hinv).
  - by apply pid_ok_free, (inv_pid _ _ Hinv).
Qed.

(** A slot taken from the unused list with a fresh process identifier. *)
Record allocates (f : proc -> proc) a (p : proc) : Prop := {
  al_state : state (f p) = USED;
  al_index : index_in_proc (f p) = index_in_proc p;
  al_cpu : cpu_num (f p) = cpu_num p;
  al_pid : pid (f p) = nextpid a
}.

Definition with_nextpid (n : Z) a : core E := a <| nextpid := n |>.

Lemma inv_alloc X a i f :
  inv X a -> i ∈ X LUnused -> (forall l, list_ok l = true -> i ∈ X l -> l = LUnused) ->
  nextpid a < 2^31 - 1 -> allocates f a (procs a i) ->
  inv (dequeue LUnused i X) (on_proc i f (with_nextpid (nextpid a + 1) a)).
Proof.
  intros Hinv Hi Huniq Hn [H1 H2 H3 H4].
  destruct (inv_list _ _ Hinv LUnused i eq_refl Hi) as [Hr Hs].
  set (a' := on_proc _ _ _).
  assert (Hps : pstate a' i = USED) by (unfold a'; rewrite pstate_on_proc, decide_True by done; done).
  eapply (inv_update X a); [done|exact Hr|..].
  - split; [|intros l j Hl Hj; rewrite elem_of_dequeue; intuition congruence|done].
    intros j Hj _. unfold a', on_proc; simpl. by rewrite upd_ne.
  - unfold a', on_proc; simpl. rewrite upd_eq, H2. by apply (inv_index _ _ Hinv).
  - unfold a', on_proc; simpl. rewrite upd_eq, H3. by apply (inv_cpu_num _ _ Hinv).
  - unfold home. by rewrite Hps.
  - intros l Hl. rewrite elem_of_dequeue, Hps. intros [Hil Hll]. by destruct (Hll (Huniq l Hl Hil)).
  - intros k Hk Hc. exfalso. eapply (inv_not_running X a k i); eauto. by rewrite Hs.
  - intros k k' Hk Hk'. by apply (inv_one_cpu _ _ Hinv).
  - destruct (inv_pid _ _ Hinv) as [P1 P2 P3 P4].
    assert (Hpid : forall j, pid (procs a' j) = if decide (j = i) then nextpid a else pid (procs a j)).
    { intros j. unfold a', on_proc; simpl. unfold upd. by case_decide. }
    assert (Hne : nextpid a' = nextpid a + 1) by done.
    split; rewrite ?Hne; [lia|..].
    + intros j Hj. rewrite Hpid. specialize (P2 j Hj). case_decide; lia.
    + intros j Hj. rewrite Hpid. unfold a'. rewrite pstate_on_proc. case_decide.
      * simpl. rewrite H1. split; [done|lia].
      * by apply P3.
    + intros j k Hj Hk. rewrite !Hpid. pose proof (P2 j Hj). pose proof (P2 k Hk).
      repeat case_decide; subst; try done; auto; lia.
Qed.

(** A newly created process is made runnable. *)
Lemma inv_enlist X a i l f :
  inv X a -> 0 <= i < NPROC -> pstate a i = USED -> list_ok l = true -> l ≠ LUnused ->
  sets_state f (list_state l) (procs a i) ->
  inv (enqueue l i X) (on_proc i f a).
Proof.
  intros Hinv Hr Hs Hl Hlu Hf. pose proof Hf as [H1 H2 H3 H4].
  assert (Hps : pstate (on_proc i f a) i = list_state l)
    by (rewrite pstate_on_proc, decide_True by done; done).
  assert (Hin : i ∈ enqueue l i X l) by (apply elem_of_enqueue; auto).
  eapply (inv_update X a); [done|exact Hr|..].
  - apply frame_on_proc. intros l' j Hl' Hj. rewrite elem_of_enqueue. intuition congruence.
  - unfold on_proc; simpl. rewrite upd_eq, H2. by apply (inv_index _ _ Hinv).
  - unfold on_proc; simpl. rewrite upd_eq, H3. by apply (inv_cpu_num _ _ Hinv).
  - unfold home. rewrite Hps. destruct l; simpl; try done.
    exists k. split; [|done]. simpl in Hl. unfold cpu_index_ok in Hl. lia.
  - intros l' Hl'. rewrite elem_of_enqueue, Hps. intros [Hil|[-> _]]; [|done].
    pose proof (inv_in_list _ _ _ _ Hinv Hl' Hil). rewrite Hs in *. by destruct l'.
  - intros k Hk Hc. exfalso. eapply (inv_not_running X a k i); eauto. by rewrite Hs.
  - intros k k' Hk Hk'. by apply (inv_one_cpu _ _ Hinv).
  - eapply pid_ok_on_proc; [apply (inv_pid _ _ Hinv)|exact Hf|]. rewrite Hs. by destruct l.
Qed.
End slots.

Section wait.
Context {E : Type} `{KEnv E} (ext : failure -> Prop) (h : Z) (Hh : 0 <= h < NCPU).
Context (Hext : ext FCallee).
Implicit Types (L : list lockid) (X : listid -> list Z) (a : core E).

Definition with_env (e : E) a : core E := a <| env := e |>.

Lemma with_env_id a : with_env (env a) a = a.
Proof. by destruct a. Qed.

Lemma aruns_when_call (b : bool) (f : callee E unit) L X a Q :
  (forall e, Q tt L X (with_env e a)) -> aruns ext h (when b (call f)) L X a Q.
Proof.
  intros HQ. astep; [apply aruns_call; [done|]; intros [] e _; apply HQ|].
  rewrite <- (with_env_id a). apply HQ.
Qed.

Lemma aruns_proc_freepagetable pt n L X a Q :
  (forall e, Q tt L X (with_env e a)) -> aruns ext h (proc_freepagetable pt n) L X a Q.
Proof.
  intros HQ. unfold proc_freepagetable.
  do 2 (astep; apply aruns_call; [done|]; intros [] ? _).
  apply aruns_call; [done|]. intros [] e3 _. apply HQ.
Qed.

Lemma aruns_when_freepagetable (b : bool) pt n L X a Q :
  (forall e, Q tt L X (with_env e a)) ->
  aruns ext h (when b (proc_freepagetable pt n)) L X a Q.
Proof.
  intros HQ. astep; [by apply aruns_proc_freepagetable|].
  rewrite <- (with_env_id a). apply HQ.
Qed.

Lemma aruns_freeproc i L X a Q :
  inv X a -> i ∈ X LZombie ->
  LkList LZombie ∉ L -> LkList LUnused ∉ L -> (forall j, LkState j ∉ L) ->
  (forall e, let X' := enqueue LUnused i (dequeue LZombie i X) in
     let a' := on_proc i freed (with_env e a) in inv X' a' -> Q tt L X' a') ->
  aruns ext h (freeproc h i) L X a Q.
Proof.
  intros Hinv Hi HL1 HL2 HL3 HQ. apply aruns_disj. intros Hdisj.
  destruct (inv_list _ _ Hinv LZombie i eq_refl Hi) as [Hr Hs].
  unfold freeproc. astep. astep. astep. apply aruns_when_call. intros e1.
  do 4 astep. astep. apply aruns_when_freepagetable. intros e2.
  astep. cbn. rewrite !upd_eq. cbn. rewrite (inv_index _ _ Hinv) by done.
  apply aruns_remove; [done..|].
  astep. apply aruns_set_proc; [done|apply clear_slot_next|]. do 2 astep.
  cbn. rewrite !upd_eq, clear_slot_index. cbn. rewrite (inv_index _ _ Hinv) by done.
  apply aruns_add; [done..| |done|].
  { intros l' Hl' [Hin' Hn]%elem_of_dequeue.
    by destruct (Hn (Hdisj l' LZombie i Hl' eq_refl Hin' Hi)). }
  assert (forall l, list_ok l = true -> i ∈ X l -> l = LZombie) as Hu
    by (intros l Hl Hil; by apply (Hdisj l LZombie i)).
  specialize (HQ e2 (inv_free X (with_env e2 a) i (inv_env _ _ _ Hinv) Hi Hu)).
  match goal with |- Q tt L ?X1 ?a1 =>
    replace a1 with (on_proc i freed (with_env e2 a)); [exact HQ|] end.
  unfold on_proc, with_env, setter; cbn. f_equal. by rewrite upd_upd, upd_eq.
Qed.

(** A child of [p] that has exited and was not waited for. *)
Definition is_child (p : Z) a (i : Z) : Prop := parent (procs a i) = Some p.
Definition zombie_child (p : Z) a (i : Z) : Prop := is_child p a i ∧ pstate a i = ZOMBIE.

(** [wait] hands the exit status of child [i] to the caller's address [addr]. *)
Definition status_copied (p addr i : Z) a (ok : bool) : Prop :=
  addr ≠ 0 -> ∃ r e, copyout (pagetable (procs a p)) addr (int_bytes (xstate (procs a i))) (env a) = Some (r, e) ∧
    (r <? 0) = negb ok.

(** The child [i] was collected. *)
Definition reap_lists (i : Z) X : listid -> list Z := enqueue LUnused i (dequeue LZombie i X).
Definition reap (e : E) (i : Z) a : core E := on_proc i freed (with_env e a).

Lemma zombie_in_list X a i : inv X a -> 0 <= i < NPROC -> pstate a i = ZOMBIE -> i ∈ X LZombie.
Proof. intros Hinv Hi Hs. pose proof (inv_home _ _ Hinv i Hi) as Hho. unfold home in Hho. by rewrite Hs in Hho. Qed.

Lemma aruns_wait_child p addr i X a Q :
  inv X a -> 0 <= p < NPROC -> 0 <= i < NPROC ->
  (~ is_child p a i -> Q (inr false) [LkWait] X a) ->
  (is_child p a i -> pstate a i ≠ ZOMBIE -> Q (inr true) [LkWait] X a) ->
  (zombie_child p a i -> addr ≠ 0 -> status_copied p addr i a false ->
     forall e, inv X (with_env e a) -> Q (inl (-1)) [] X (with_env e a)) ->
  (zombie_child p a i -> status_copied p addr i a true -> forall e, inv (reap_lists i X) (reap e i a) ->
     Q (inl (pid (procs a i))) [] (reap_lists i X) (reap e i a)) ->
  aruns ext h (wait_child h p addr i) [LkWait] X a Q.
Proof.
  intros Hinv Hp Hi Hno Hlive Hfail Hreap. unfold wait_child. astep. astep. cbn.
  destruct (bool_decide (parent (procs a i) = Some p)) eqn:Hpar; cbn;
    [apply bool_decide_eq_true in Hpar|by apply bool_decide_eq_false in Hpar; astep; apply Hno].
  astep. astep. astep. astep. cbn.
  destruct (bool_decide (state (procs a i) = ZOMBIE)) eqn:Hz;
    [apply bool_decide_eq_true in Hz|by apply bool_decide_eq_false in Hz; astep; astep; astep; apply Hlive].
  assert (Hzc : zombie_child p a i) by done. specialize (Hfail Hzc). specialize (Hreap Hzc).
  astep. assert (Hrest : forall r e, (r < 0 -> addr ≠ 0) -> status_copied p addr i a (negb (r <? 0)) ->
    aruns ext h (if r <? 0 then release h (LkProc i);; release h LkWait;; mret (inl (-1))
                 else freeproc h i;; release h (LkProc i);; release h LkWait;;
                      mret (inl (pid (procs a i)))) [LkProc i; LkWait] X (with_env e a) Q).
  { intros r e Hr Hsc. destruct (r <? 0) eqn:Hr0.
    - do 5 astep. apply Hfail; [apply Hr; lia|done|by apply inv_env].
    - astep. apply aruns_freeproc; [by apply inv_env|by eapply zombie_in_list|solve_inner..|].
      intros e' X' a' Hinv'. do 5 astep. by apply Hreap. }
  destruct (addr =? 0) eqn:Haddr; cbn.
  - astep. specialize (Hrest 0 (env a)). rewrite with_env_id in Hrest. apply Hrest; [lia|].
    intros Hne. lia.
  - astep. astep. apply aruns_call; [done|]. intros r e Hr. apply Hrest; [lia|].
    intros _. exists r, e. split; [done|]. by rewrite negb_involutive.
Qed.

Definition no_zombie_below (p : Z) a (k : Z) : Prop :=
  forall j, 0 <= j < k -> ~ zombie_child p a j.
Definition has_child_below (p : Z) a (k : Z) : Prop :=
  ∃ j, 0 <= j < k ∧ is_child p a j.

(** How one pass of the loop of [wait] ends, before it may go to sleep. *)
Inductive wait_scanned (p addr : Z) X a : Z + bool -> list lockid -> (listid -> list Z) -> core E -> Prop :=
| scanned_reaped i e : 0 <= i < NPROC -> zombie_child p a i -> no_zombie_below p a i ->
    status_copied p addr i a true ->
    inv (reap_lists i X) (reap e i a) ->
    wait_scanned p addr X a (inl (pid (procs a i))) [] (reap_lists i X) (reap e i a)
| scanned_failed i e : 0 <= i < NPROC -> zombie_child p a i -> no_zombie_below p a i -> addr ≠ 0 ->
    status_copied p addr i a false -> inv X (with_env e a) ->
    wait_scanned p addr X a (inl (-1)) [] X (with_env e a)
| scanned_none kids : no_zombie_below p a NPROC -> (kids = true <-> has_child_below p a NPROC) ->
    wait_scanned p addr X a (inr kids) [LkWait] X a.

Lemma aruns_wait_scan p addr X a :
  inv X a -> 0 <= p < NPROC ->
  aruns ext h (wait_scan h p addr all_procs false) [LkWait] X a (wait_scanned p addr X a).
Proof.
  intros Hinv Hp.
  cut (forall n k kids, (Z.of_nat n = NPROC - k) -> 0 <= k -> no_zombie_below p a k ->
    (kids = true <-> has_child_below p a k) ->
    aruns ext h (wait_scan h p addr (seqZ k (Z.of_nat n)) kids) [LkWait] X a (wait_scanned p addr X a)).
  { intros Hcut. apply (Hcut (Z.to_nat NPROC) 0 false); [done|done|intros j Hj; lia|].
    split; [done|]. intros (j & Hj & _). lia. }
  induction n as [|n IH]; intros k kids Hn Hk Hz Hkids.
  - simpl. apply aruns_ret. assert (k = NPROC) as -> by lia. by apply scanned_none.
  - rewrite seqZ_cons by lia. replace (Z.pred (Z.of_nat (S n))) with (Z.of_nat n) by lia.
    cbn [wait_scan]. astep.
    assert (Hnext : forall b, (b = true <-> is_child p a k) -> ~ zombie_child p a k ->
      aruns ext h (wait_scan h p addr (seqZ (Z.succ k) (Z.of_nat n)) (kids || b)) [LkWait] X a
        (wait_scanned p addr X a)).
    { intros b Hb Hnz. apply IH; [lia|lia|..].
      - intros j Hj. destruct (decide (j = k)) as [->|]; [done|]. apply Hz. lia.
      - rewrite orb_true_iff, Hkids, Hb. split.
        + intros [(j & Hj & Hc)|Hc]; [exists j|exists k]; split; auto; lia.
        + intros (j & Hj & Hc). destruct (decide (j = k)) as [->|]; [auto|]. left. exists j. split; [lia|done]. }
    apply aruns_wait_child; [done|done|lia|..].
    + intros Hc. apply Hnext; [by split|]. by intros [? _].
    + intros Hc Hs. apply Hnext; [by split|]. by intros [_ ?].
    + intros Hzc Ha Hsc e Hinv'. astep. eapply scanned_failed; [|done..]. lia.
    + intros Hzc Hsc e Hinv'. astep. apply scanned_reaped; [lia|done..].
Qed.

(** How [wait(addr)], called by process [p], ends. *)
Inductive wait_ends (p addr : Z) X a : wait_result -> list lockid -> (listid -> list Z) -> core E -> Prop :=
| wait_reaped i e : 0 <= i < NPROC -> zombie_child p a i -> no_zombie_below p a i ->
    status_copied p addr i a true ->
    inv (reap_lists i X) (reap e i a) ->
    wait_ends p addr X a (WaitReturn (pid (procs a i))) [] (reap_lists i X) (reap e i a)
| wait_copy_failed i e : 0 <= i < NPROC -> zombie_child p a i -> no_zombie_below p a i -> addr ≠ 0 ->
    status_copied p addr i a false -> inv X (with_env e a) ->
    wait_ends p addr X a (WaitReturn (-1)) [] X (with_env e a)
| wait_nothing : no_zombie_below p a NPROC -> ~ has_child_below p a NPROC ∨ killed (procs a p) ≠ 0 ->
    inv X a ->
    wait_ends p addr X a (WaitReturn (-1)) [] X a
| wait_sleeps a' : no_zombie_below p a NPROC -> has_child_below p a NPROC -> killed (procs a p) = 0 ->
    a' = on_cpu h (set_current None)
           (on_proc p (fun q => q <| p_chan := CProc p |> <| state := SLEEPING |>) a) ->
    inv (enqueue LSleeping p X) a' ->
    wait_ends p addr X a WaitSleep [] (enqueue LSleeping p X) a'.

Lemma aruns_wait_pass p addr X a :
  inv X a -> c_proc (cpus a h) = Some p ->
  aruns ext h (wait_pass h p addr) [LkWait] X a (wait_ends p addr X a).
Proof.
  intros Hinv Hc. destruct (inv_running _ _ Hinv h p Hh Hc) as [Hp _].
  unfold wait_pass. astep. eapply aruns_mono; [by apply aruns_wait_scan|].
  intros r L' X' a' [i e|i e|kids Hz Hkids].
  - astep. by apply wait_reaped.
  - astep. by eapply wait_copy_failed.
  - astep. astep. cbn. destruct (negb kids || negb (killed (procs a p) =? 0)) eqn:Hb.
    + astep. astep. astep. apply wait_nothing; [done| |done].
      apply orb_true_iff in Hb as [Hb|Hb]; apply negb_true_iff in Hb; [left|right; lia].
      rewrite <- Hkids. by rewrite Hb.
    + apply orb_false_iff in Hb as [Hb1%negb_false_iff Hb2%negb_false_iff].
      astep. apply (aruns_sleep_pre _ _ Hh p); [done..|]. intros X1 a1 Hinv1.
      astep. apply wait_sleeps; [done|by apply Hkids|lia|done..].
Qed.

Lemma aruns_wait p addr X a :
  inv X a -> c_proc (cpus a h) = Some p ->
  aruns ext h (wait h addr) [] X a (wait_ends p addr X a).
Proof.
  intros Hinv Hc. unfold wait. astep. apply (aruns_this_proc _ _ Hh p); [done|].
  astep. astep. by apply aruns_wait_pass.
Qed.

Lemma aruns_wait_again p addr X a :
  inv X a -> c_proc (cpus a h) = Some p ->
  aruns ext h (wait_again h addr) [] X a (wait_ends p addr X a).
Proof.
  intros Hinv Hc. unfold wait_again. astep. apply (aruns_this_proc _ _ Hh p); [done|].
  unfold sleep_reacquire. astep. astep. by apply aruns_wait_pass.
Qed.
End wait.
