(* ===== verification/ProcFork.v ===== *)
(** * ProcFork: allocproc, fork and userinit

    A new process: a slot from the unused list, a fresh identifier, and a place
    in a run queue.  When memory runs out on the way, [freeproc] is called on a
    process that is on no list. *)

From S2P Require Import Prelude KState Spinlock ProcList ProcAbs Proc ProcInv ProcThm ProcLife.

(** What makes [allocproc] and [fork] give up: a page that cannot be had.  A call
    [f] made in [e] does not fail for lack of memory, and [k] holds after it. *)
Definition succeeds {E A} (f : callee E A) (ok : A -> Prop) (e : E) (k : A -> E -> Prop) : Prop :=
  forall v e', f e = Some (v, e') -> ok v ∧ k v e'.

Section memory.
Context {E : Type} `{KEnv E}.

(** The calls of [proc_pagetable] for a process with trapframe [tf]. *)
Definition pagetable_memory (tf : Z) (e : E) (k : Z -> E -> Prop) : Prop :=
  succeeds uvmcreate (fun pt => pt ≠ 0) e (fun pt e1 =>
  succeeds (mappages pt TRAMPOLINE PGSIZE trampoline (Z.lor PTE_R PTE_X)) (fun r => 0 <= r) e1 (fun _ e2 =>
  succeeds (mappages pt TRAPFRAME PGSIZE tf (Z.lor PTE_R PTE_W)) (fun r => 0 <= r) e2 (fun _ e3 => k pt e3))).
(** The calls of [allocproc], and those of [fork] by the process [parent]. *)
Definition alloc_memory (e : E) (k : Z -> E -> Prop) : Prop :=
  succeeds kalloc (fun tf => tf ≠ 0) e (fun tf e1 => pagetable_memory tf e1 k).
Definition copy_memory (parent : proc) (pt : Z) (e : E) : Prop :=
  succeeds (uvmcopy (pagetable parent) pt (sz parent)) (fun r => 0 <= r) e (fun _ _ => True).
Definition fork_memory (parent : proc) (e : E) : Prop := alloc_memory e (copy_memory parent).
End memory.

Section fork.
Context {E : Type} `{KEnv E} (ext : failure -> Prop) (h : Z) (Hh : 0 <= h < NCPU).
Context (Hext : ext FCallee).
Implicit Types (L : list lockid) (X : listid -> list Z) (a : core E).

(** The slot [np] of [a] is being made into a process in [a1]. *)
Record built (np : Z) X a a1 : Prop := {
  b_inv : inv (dequeue LUnused np X) a1;
  b_range : 0 <= np < NPROC;
  b_others : forall j, j ≠ np -> procs a1 j = procs a j;
  b_cpus : cpus a1 = cpus a;
  b_init : initproc a1 = initproc a;
  b_next : nextpid a1 = nextpid a + 1;
  b_state : pstate a1 np = USED;
  b_pid : pid (procs a1 np) = nextpid a;
  b_killed : killed (procs a1 np) = killed (procs a np);
  b_cpu : cpu_num (procs a1 np) = cpu_num (procs a np)
}.

Lemma built_env np X a a1 e : built np X a a1 -> built np X a (with_env e a1).
Proof. intros [B1 B2 B3 B4 B5 B6 B7 B8 B9 B10]. split; [by apply inv_env|done..]. Qed.

(** Writing fields of the new process other than the tracked ones. *)
Lemma built_fields np X a a1 f :
  built np X a a1 -> sets_state f USED (procs a1 np) ->
  killed (f (procs a1 np)) = killed (procs a1 np) -> built np X a (on_proc np f a1).
Proof.
  intros [B1 B2 B3 B4 B5 B6 B7 B8 B9 B10] Hf Hk. pose proof Hf as [F1 F2 F3 F4].
  assert (Hnp : procs (on_proc np f a1) np = f (procs a1 np)) by (unfold on_proc; simpl; apply upd_eq).
  split; try done; unfold pstate; rewrite ?Hnp; try congruence.
  - apply inv_fields; [done..|]. by rewrite B7.
  - intros j Hj. unfold on_proc; simpl. rewrite upd_ne by done. auto.
Qed.

Lemma procs_on_proc i f a : procs (on_proc i f a) i = f (procs a i).
Proof. unfold on_proc; simpl. apply upd_eq. Qed.

Lemma aruns_set_built_env np f L X a a1 Q :
  built np X a a1 ->
  (forall p v, f (p <| next_index_in_list := v |>) = (f p) <| next_index_in_list := v |>) ->
  sets_state f (state (procs a1 np)) (procs a1 np) ->
  killed (f (procs a1 np)) = killed (procs a1 np) ->
  (forall a2, built np X a a2 -> procs a2 np = f (procs a1 np) -> env a2 = env a1 -> Q tt L (dequeue LUnused np X) a2) ->
  aruns ext h (set_proc np f) L (dequeue LUnused np X) a1 Q.
Proof.
  intros Hb Hf Hs Hk HQ. apply aruns_set_proc; [apply Hb|done|].
  apply (HQ (on_proc np f a1)); [|apply procs_on_proc|done].
  apply built_fields; [done| |done]. rewrite <- (b_state _ _ _ _ Hb). exact Hs.
Qed.

Lemma aruns_set_built np f L X a a1 Q :
  built np X a a1 ->
  (forall p v, f (p <| next_index_in_list := v |>) = (f p) <| next_index_in_list := v |>) ->
  sets_state f (state (procs a1 np)) (procs a1 np) ->
  killed (f (procs a1 np)) = killed (procs a1 np) ->
  (forall a2, built np X a a2 -> procs a2 np = f (procs a1 np) -> Q tt L (dequeue LUnused np X) a2) ->
  aruns ext h (set_proc np f) L (dequeue LUnused np X) a1 Q.
Proof. intros Hb Hf Hs Hk HQ. eapply aruns_set_built_env; [done..|]. auto. Qed.

Lemma aruns_allocpid L X a Q :
  inv X a -> LkPid ∉ L -> nextpid a < 2^31 - 1 ->
  Q (nextpid a) L X (with_nextpid (nextpid a + 1) a) ->
  aruns ext h (allocpid h) L X a Q.
Proof.
  intros Hinv HL Hn HQ. unfold allocpid. astep. astep. astep. apply aruns_get_core. intros c Hc.
  assert (Hnc : nextpid c = nextpid a) by (rewrite <- (rep_erase _ _ _ Hc); done).
  pose proof (pid_next _ (inv_pid _ _ Hinv)) as Hp.
  cbv zeta. rewrite Hnc. astep. apply aruns_mod_core; [done|done|done|]. do 3 astep.
  assert (i32 (nextpid a + 1) = nextpid a + 1) as Hi by (apply i32_id; lia).
  unfold with_nextpid in HQ. rewrite <- Hi in HQ. exact HQ.
Qed.

Lemma unused_head X a i rest :
  inv X a -> X LUnused = i :: rest -> i ∈ X LUnused ∧ 0 <= i < NPROC ∧ pstate a i = UNUSED.
Proof.
  intros Hinv HX. assert (Hi : i ∈ X LUnused) by (rewrite HX; apply elem_of_cons; auto).
  by destruct (inv_list _ _ Hinv LUnused i eq_refl Hi).
Qed.

Lemma aruns_allocproc_pick X a Q :
  inv X a ->
  (X LUnused = [] -> Q None [] X a) ->
  (forall i rest, X LUnused = i :: rest -> Q (Some i) [LkProc i] X a) ->
  aruns ext h (allocproc_pick h) [] X a Q.
Proof.
  intros Hinv Hnone Hsome. unfold allocproc_pick. do 4 astep.
  destruct (X LUnused) as [|i rest] eqn:HX; simpl.
  - change (0 <=? -1) with false; cbv iota. do 3 astep. auto.
  - destruct (unused_head _ _ _ _ Hinv HX) as (Hin & Hr & Hs).
    assert ((0 <=? i) = true) as -> by lia.
    do 5 astep. by eapply Hsome.
Qed.

(** [freeproc] on a process that is on no list. *)
Lemma aruns_freeproc_used i L X a Q :
  inv X a -> 0 <= i < NPROC -> pstate a i = USED ->
  LkList LZombie ∉ L -> (forall j, LkState j ∉ L) ->
  ext (if X LZombie is [] then FPanic "Trying to remove from an empty list" else FOutOfBounds) ->
  aruns ext h (freeproc h i) L X a Q.
Proof.
  intros Hinv Hi Hs HL1 HL2 Hfail.
  unfold freeproc. astep. astep. astep. apply aruns_when_call; [done|]. intros e1.
  do 4 astep. astep. apply aruns_when_freepagetable; [done|]. intros e2.
  astep. cbn. rewrite !upd_eq. cbn. rewrite (inv_index _ _ Hinv) by done.
  apply aruns_remove_absent; [done..| |lia|done].
  intros Hin. pose proof (inv_in_list _ _ LZombie i Hinv eq_refl Hin) as Hz. by rewrite Hs in Hz.
Qed.

Lemma aruns_proc_pagetable i L X a Q :
  0 <= i < NPROC ->
  (forall v e, (forall k, pagetable_memory (trapframe (procs a i)) (env a) k -> v ≠ 0 ∧ k v e) -> Q v L X (with_env e a)) ->
  aruns ext h (proc_pagetable i) L X a Q.
Proof.
  intros Hi HQ. unfold proc_pagetable. astep. apply aruns_call; [done|]. intros pt e1 H1.
  destruct (pt =? 0) eqn:Hpt.
  { astep. apply HQ. intros k Hm. destruct (Hm _ _ H1). lia. }
  astep. apply aruns_call; [done|]. intros r2 e2 H2. destruct (r2 <? 0) eqn:Hr2.
  { astep. apply aruns_call; [done|]. intros [] e3 _. astep. apply (HQ 0 e3).
    intros k Hm. destruct (Hm _ _ H1) as [_ Hm1]. destruct (Hm1 _ _ H2). lia. }
  do 3 astep. apply aruns_call; [done|]. intros r4 e4 H4. destruct (r4 <? 0) eqn:Hr4.
  { do 2 (astep; apply aruns_call; [done|]; intros [] ? _). astep. apply (HQ 0).
    intros k Hm. destruct (Hm _ _ H1) as [_ Hm1]. destruct (Hm1 _ _ H2) as [_ Hm2]. destruct (Hm2 _ _ H4). lia. }
  astep. apply (HQ pt e4). intros k Hm. destruct (Hm _ _ H1) as [Hn Hm1]. destruct (Hm1 _ _ H2) as [_ Hm2]. by destruct (Hm2 _ _ H4).
Qed.

Lemma aruns_freeproc_built {A} np X a a1 (m : M (kstate E) A) Q :
  built np X a a1 -> (forall f, ext f) -> aruns ext h (freeproc h np;; m) [LkProc np] (dequeue LUnused np X) a1 Q.
Proof.
  intros Hb Hany. astep. apply aruns_freeproc_used; [apply Hb|apply Hb|apply Hb|solve_inner|solve_inner|apply Hany].
Qed.

(** A process as [allocproc] returns it. *)
Record fresh (p : proc) : Prop := {
  fr_trapframe : trapframe p ≠ 0;
  fr_pagetable : pagetable p ≠ 0;
  fr_context : p_context p = Context forkret_addr (kstack p + PGSIZE) (replicate 12 0)
}.

Lemma aruns_allocproc_found i rest X a k Q :
  (forall f, ext f) ∨ alloc_memory (env a) k ->
  inv X a -> X LUnused = i :: rest -> nextpid a < 2^31 - 1 ->
  (forall a1, (forall f, ext f) ∨ k (pagetable (procs a1 i)) (env a1) -> built i X a a1 -> fresh (procs a1 i) ->
     name (procs a1 i) = name (procs a i) -> ofile (procs a1 i) = ofile (procs a i) ->
     Q (Some i) [LkProc i] (dequeue LUnused i X) a1) ->
  aruns ext h (allocproc_found h i) [LkProc i] X a Q.
Proof.
  intros Hoom Hinv HX Hn HQ. destruct (unused_head _ _ _ _ Hinv HX) as (Hin & Hr & Hs).
  apply aruns_disj. intros Hdisj. unfold allocproc_found.
  astep. apply aruns_allocpid; [done|solve_inner|done|].
  astep. astep. astep. apply aruns_remove; [done|solve_inner|solve_inner|done|].
  astep. astep.
  set (f := fun p => p <| pid := nextpid a |> <| state := USED |>).
  assert (Hb : built i X a (on_proc i f (with_nextpid (nextpid a + 1) a))).
  { assert (Hnp := procs_on_proc i f (with_nextpid (nextpid a + 1) a)).
    split; unfold pstate; rewrite ?Hnp; try done.
    - apply inv_alloc; [done..| |done|by split]. intros l Hl Hil. by apply (Hdisj l LUnused i).
    - intros j Hj. unfold on_proc; simpl. by rewrite upd_ne. }
  change (aruns ext h (tf ← call kalloc;
    set_proc i (fun p => p <| trapframe := tf |>);;
    if tf =? 0 then freeproc h i;; release h (LkProc i);; mret None else
    pt ← proc_pagetable i;
    set_proc i (fun p => p <| pagetable := pt |>);;
    if pt =? 0 then freeproc h i;; release h (LkProc i);; mret None else
    set_proc i (fun p => p <| p_context := Context 0 0 (replicate 12 0) |>);;
    set_proc i (fun p => p <| p_context := Context forkret_addr (ctx_sp (p_context p)) (ctx_s (p_context p)) |>);;
    set_proc i (fun p => p <| p_context := Context (ctx_ra (p_context p)) (kstack p + PGSIZE) (ctx_s (p_context p)) |>);;
    mret (Some i)) [LkProc i] (dequeue LUnused i X)
    (on_proc i (fun p => p <| state := USED |>)
      (on_proc i (fun p => p <| pid := nextpid a |>) (with_nextpid (nextpid a + 1) a))) Q).
  rewrite on_proc_on_proc. fold f.
  assert (Hp := procs_on_proc i f (with_nextpid (nextpid a + 1) a)).
  set (a1 := on_proc i f _) in *. change (env a) with (env a1) in Hoom. clearbody a1.
  change (procs (with_nextpid _ a) i) with (procs a i) in Hp.
  astep. apply aruns_call; [done|]. intros tf e1 Htf. apply (built_env _ _ _ _ e1) in Hb.
  astep. eapply aruns_set_built_env; [exact Hb|done|by split|done|]. intros a2 Hb2 Hp2 He2.
  destruct (tf =? 0) eqn:Htf0.
  { apply (aruns_freeproc_built i X a a2); [done|]. destruct Hoom as [|Hm]; [done|]. destruct (Hm _ _ Htf). lia. }
  astep. apply aruns_proc_pagetable; [done|]. intros pt e3 Hpt. apply (built_env _ _ _ _ e3) in Hb2.
  astep. eapply aruns_set_built_env; [exact Hb2|done|by split|done|]. intros a4 Hb4 Hp4 He4.
  assert (Hk : (forall f, ext f) ∨ pt ≠ 0 ∧ k pt e3).
  { destruct Hoom as [|Hm]; [by left|]. destruct (Hm _ _ Htf) as [_ Hm1]. right. apply Hpt. by rewrite Hp2, He2. }
  destruct (pt =? 0) eqn:Hpt0.
  { apply (aruns_freeproc_built i X a a4); [done|]. destruct Hk as [|[? _]]; [done|lia]. }
  astep. eapply aruns_set_built_env; [exact Hb4|done|by split|done|]. intros a5 Hb5 Hp5 He5.
  astep. eapply aruns_set_built_env; [exact Hb5|done|by split|done|]. intros a6 Hb6 Hp6 He6.
  astep. eapply aruns_set_built_env; [exact Hb6|done|by split|done|]. intros a7 Hb7 Hp7 He7.
  change (procs (with_env e3 a2) i) with (procs a2 i) in Hp4.
  change (procs (a1 <| env := e1 |>) i) with (procs a1 i) in Hp2.
  astep. apply HQ; [rewrite He7, He6, He5, He4|done|..]; rewrite Hp7, Hp6, Hp5, Hp4, ?Hp2, ?Hp; [|..|done|done].
  - destruct Hk as [|[_ Hk]]; [by left|by right].
  - split; [cbn; lia|cbn; lia|done].
Qed.

Lemma aruns_allocproc X a k Q :
  (forall f, ext f) ∨ alloc_memory (env a) k -> inv X a -> nextpid a < 2^31 - 1 ->
  (X LUnused = [] -> Q None [] X a) ->
  (forall i rest a1, X LUnused = i :: rest -> (forall f, ext f) ∨ k (pagetable (procs a1 i)) (env a1) -> built i X a a1 -> fresh (procs a1 i) ->
     name (procs a1 i) = name (procs a i) -> ofile (procs a1 i) = ofile (procs a i) ->
     Q (Some i) [LkProc i] (dequeue LUnused i X) a1) ->
  aruns ext h (allocproc h) [] X a Q.
Proof.
  intros Hoom Hinv Hn Hnone Hsome. unfold allocproc. astep. apply aruns_allocproc_pick; [done|..].
  - intros HX. astep. auto.
  - intros i rest HX. eapply aruns_allocproc_found; eauto.
Qed.

(** [a'] is [a] with a child [np] of [p] added and put in the run queue of the
    CPU that [p] belongs to. *)
Record forked (p np : Z) X a X' a' : Prop := {
  fk_lists : X' = enqueue (LRunnable (cpu_num (procs a p))) np (dequeue LUnused np X);
  fk_others : forall j, j ≠ np -> procs a' j = procs a j;
  fk_cpus : cpus a' = cpus a;
  fk_init : initproc a' = initproc a;
  fk_next : nextpid a' = nextpid a + 1;
  fk_state : state (procs a' np) = RUNNABLE;
  fk_pid : pid (procs a' np) = nextpid a;
  fk_parent : parent (procs a' np) = Some p;
  fk_sz : sz (procs a' np) = sz (procs a p);
  fk_name : name (procs a' np) = safestrcpy (name (procs a np)) (name (procs a p)) 16;
  fk_ofile : forall fd, ofile (procs a p) fd = 0 -> ofile (procs a' np) fd = ofile (procs a np) fd;
  fk_fresh : fresh (procs a' np);
  fk_killed : killed (procs a' np) = killed (procs a np);
  fk_cpu : cpu_num (procs a' np) = cpu_num (procs a np)
}.

(** The loop over the open files. *)
Lemma aruns_dup_files p np X a a1 Q :
  built np X a a1 -> 0 <= p < NPROC -> p ≠ np ->
  (forall a2 o, built np X a a2 -> procs a2 np = (procs a1 np) <| ofile := o |> ->
     (forall fd, ofile (procs a p) fd = 0 -> o fd = ofile (procs a1 np) fd) ->
     Q tt [LkProc np] (dequeue LUnused np X) a2) ->
  aruns ext h (for_each (seqZ 0 NOFILE) (fun i =>
        pp ← get_proc p;
        when (negb (ofile pp i =? 0)) (
          f ← call (filedup (ofile pp i));
          set_proc np (fun q => q <| ofile ::= fun o => upd o i f |>))))
    [LkProc np] (dequeue LUnused np X) a1 Q.
Proof.
  intros Hb Hp Hne HQ.
  apply (aruns_for_each ext h (fun _ X' a' => X' = dequeue LUnused np X ∧ built np X a a' ∧
    ∃ o, procs a' np = (procs a1 np) <| ofile := o |> ∧
      forall fd, ofile (procs a p) fd = 0 -> o fd = ofile (procs a1 np) fd)).
  - intros dn i X' a' _ (-> & Hb' & o & Ho & Hfd).
    astep. astep. cbn. rewrite (b_others _ _ _ _ Hb' p Hne). astep.
    + astep. apply aruns_call; [done|]. intros f e _. apply (built_env _ _ _ _ e) in Hb'.
      eapply aruns_set_built; [exact Hb'|done|by split|done|]. intros a2 Hb2 Hp2.
      split; [done|]. split; [done|]. split; [done|]. exists (upd o i f). split.
      * rewrite Hp2. change (procs (a' <| env := e |>) np) with (procs a' np). by rewrite Ho.
      * intros fd Hz. unfold upd. case_decide as Hi; [|auto]. subst fd.
        rewrite Hz in Hb0. by rewrite Z.eqb_refl in Hb0.
    + split; [done|]. split; [done|]. split; [done|]. by exists o.
  - split; [done|]. split; [done|]. exists (ofile (procs a1 np)). by destruct (procs a1 np).
  - intros X' a' (-> & Hb' & o & Ho & Hfd). by apply (HQ a' o).
Qed.

(** The child, complete, becomes runnable. *)
Lemma aruns_fork_enlist p np (pid' : Z) X a Q :
  BLNCFLG = false -> inv X a -> 0 <= p < NPROC -> 0 <= np < NPROC -> p ≠ np -> pstate a np = USED ->
  (let X' := enqueue (LRunnable (cpu_num (procs a p))) np X in
   let a' := on_proc np set_runnable a in inv X' a' -> Q pid' [] X' a') ->
  aruns ext h (
      set_proc np (fun q => q <| state := RUNNABLE |>);;
      pn ← get_proc np;
      (if BLNCFLG then
         newCpu ← leastUsedCpu;
         set_proc np (fun q => q <| cpu_num := newCpu |>);;
         bump_procCount 2 newCpu;;
         add_proc_to_list h (LRunnable newCpu) (index_in_proc pn)
       else
         pp ← get_proc p;
         add_proc_to_list h (LRunnable (cpu_num pp)) (index_in_proc pn));;
      release h (LkProc np);;
      mret pid') [LkProc np] X a Q.
Proof.
  intros Hbl Hinv Hr Hnp Hne Hs HQ. rewrite Hbl.
  do 7 astep. cbn. rewrite upd_ne by done. rewrite upd_eq. cbn.
  rewrite (inv_index _ _ Hinv) by done.
  pose proof (inv_cpu_num _ _ Hinv p Hr) as Hcn.
  assert (Hok : list_ok (LRunnable (cpu_num (procs a p))) = true)
    by (simpl; unfold cpu_index_ok; lia).
  apply aruns_add; [done|solve_inner|solve_inner| |done|].
  { intros l Hl Hin. pose proof (inv_in_list _ _ _ _ Hinv Hl Hin) as Hst.
    rewrite Hs in Hst. by destruct l. }
  do 3 astep. apply HQ. by apply (inv_enlist _ _ np (LRunnable (cpu_num (procs a p)))).
Qed.

Lemma aruns_fork p X a Q :
  (forall f, ext f) ∨ fork_memory (procs a p) (env a) ->
  BLNCFLG = false -> inv X a -> c_proc (cpus a h) = Some p -> nextpid a < 2^31 - 1 ->
  (X LUnused = [] -> Q (-1) [] X a) ->
  (forall np rest X' a', X LUnused = np :: rest -> inv X' a' -> forked p np X a X' a' ->
     Q (nextpid a) [] X' a') ->
  aruns ext h (fork h) [] X a Q.
Proof.
  intros Hoom Hbl Hinv Hc Hn Hnone Hsome. destruct (inv_running _ _ Hinv h p Hh Hc) as [Hr Hs].
  unfold fork. astep. apply (aruns_this_proc _ _ Hh p); [done|].
  astep. eapply (aruns_allocproc _ _ (copy_memory (procs a p))); [done|done|done|intros HX; astep; auto|].
  intros np rest a1 HX Hm1 Hb1 Hfr Hnm1 Hof1.
  assert (Hne : p ≠ np) by (intros ->; destruct (unused_head _ _ _ _ Hinv HX) as (_ & _ & ?); congruence).
  pose proof (b_range _ _ _ _ Hb1) as Hnp. pose proof (b_others _ _ _ _ Hb1 p Hne) as Hpp.
  do 4 astep. cbn. astep. apply aruns_call; [done|]. intros r e2 Hr2. apply (built_env _ _ _ _ e2) in Hb1.
  destruct (r <? 0) eqn:Hr0.
  { apply (aruns_freeproc_built np X a (with_env e2 a1)); [done|]. destruct Hm1 as [|Hm]; [done|].
    cbn in Hr2. rewrite Hpp in Hr2. destruct (Hm _ _ Hr2). lia. }
  astep. eapply aruns_set_built; [exact Hb1|done|by split|done|]. intros a3 Hb3 Hp3.
  change (procs (a1 <| env := e2 |>) np) with (procs a1 np) in Hp3.
  astep; apply aruns_call; [done|]; intros [] e4 _. apply (built_env _ _ _ _ e4) in Hb3.
  astep; apply aruns_call; [done|]; intros [] e5 _. apply (built_env _ _ _ _ e5) in Hb3.
  change (procs a3 np) with (procs (a3 <| env := e4 |> <| env := e5 |>) np) in Hp3.
  set (a5 := a3 <| env := e4 |> <| env := e5 |>) in *.
  change (with_env e5 (with_env e4 a3)) with a5 in Hb3. clearbody a5. clear a3.
  astep. eapply aruns_dup_files; [exact Hb3|done|done|]. intros a6 o Hb6 Hp6 Ho.
  astep. astep. astep. cbn. rewrite (b_others _ _ _ _ Hb6 p Hne). apply aruns_call; [done|]. intros ip e7 _.
  apply (built_env _ _ _ _ e7) in Hb6.
  astep. eapply aruns_set_built; [exact Hb6|done|by split|done|]. intros a7 Hb7 Hp7.
  change (procs (a6 <| env := e7 |>) np) with (procs a6 np) in Hp7.
  astep. eapply aruns_set_built; [exact Hb7|done|by split|done|]. intros a8 Hb8 Hp8.
  do 7 astep. eapply aruns_set_built; [exact Hb8|done|by split|done|]. intros a9 Hb9 Hp9.
  do 4 astep. pose proof (b_others _ _ _ _ Hb9 p Hne) as Hpp9.
  apply (aruns_fork_enlist p np); [done|apply Hb9|done|done|done|apply Hb9|].
  intros X' a' Hinv'.
  assert (Hpid : forall v, pid ((procs a8 np) <| next_index_in_list := v |>) = nextpid a)
    by (intros; exact (b_pid _ _ _ _ Hb8)). rewrite Hpid.
  apply (Hsome np rest); [done..|]. clear Hinv'.
  assert (Hchild := procs_on_proc np set_runnable a9 : procs a' np = _).
  destruct Hb9 as [B1 B2 B3 B4 B5 B6 B7 B8 B9 B10]. split; rewrite ?Hchild; try done.
  - unfold X'. by rewrite Hpp9.
  - intros j Hj. unfold a', on_proc; simpl. rewrite upd_ne by done. auto.
  - by rewrite Hp9.
  - rewrite Hp9, Hp8, Hp7, Hp6, Hp3. cbn. by rewrite Hpp.
  - rewrite Hp9, Hp8, Hp7, Hp6, Hp3. cbn. by rewrite Hnm1.
  - intros fd Hfd. rewrite Hp9, Hp8, Hp7, Hp6. cbn. rewrite (Ho fd Hfd), Hp3. cbn. by rewrite Hof1.
  - rewrite Hp9, Hp8, Hp7, Hp6, Hp3. destruct Hfr as [F1 F2 F3]. by split.
Qed.
End fork.

(** * the state procinit and userinit set up

    From zero-initialised memory [procinit] establishes the invariant, with
    every process on the unused list, and [userinit] adds the first process. *)

(** ** The .bss and .data of proc.c at boot *)
Definition zero_proc : proc :=
  Proc UNUSED CNull 0 0 0 0 0 0 None 0 0 0 0 (Context 0 0 (replicate 12 0)) (fun _ => 0) 0 (replicate 16 0).
Definition zero_cpu : cpu := Cpu None 0 0.
Definition boot_core {E} (e : E) : core E := Core (fun _ => zero_proc) (fun _ => zero_cpu) 0 0 0 None 1 e.
Definition boot_sync : sync :=
  Sync (fun _ => Spinlock 0 EmptyString None) (fun _ => 0) (fun _ => false) (fun _ => false) (fun _ => false).

Lemma boot_sync_inv h : lk_inv h [] boot_sync.
Proof. split; [|constructor|done..]. intros lk. unfold held_by. by rewrite decide_False by apply not_elem_of_nil. Qed.

Section boot.
Context {E : Type} `{KEnv E} (ext : failure -> Prop) (h : Z) (Hh : 0 <= h < NCPU).
Implicit Types (L : list lockid) (X : listid -> list Z) (c a : core E).

Lemma runs_for_each {A} (I : list A -> core E -> Prop) (xs : list A) body L c
    (Q : unit -> list lockid -> core E -> Prop) :
  (forall dn x c, x ∈ xs -> I dn c ->
     runs ext h (body x) L c (fun _ L' c' => L' = L ∧ I (dn ++ [x]) c')) ->
  I [] c -> (forall c', I xs c' -> Q tt L c') -> runs ext h (for_each xs body) L c Q.
Proof.
  intros Hbody HI HQ.
  cut (forall ys dn c, xs = dn ++ ys -> I dn c -> runs ext h (for_each ys body) L c Q).
  { intros Hcut. by apply (Hcut xs [] c). }
  clear HI c. induction ys as [|y ys IH]; intros dn c -> HI; simpl.
  - apply runs_ret, HQ. by rewrite app_nil_r.
  - apply runs_bind. eapply runs_mono; [apply Hbody; [|exact HI]|].
    { apply elem_of_app; right; apply elem_of_cons; auto. }
    intros _ L' c' [-> HI']. apply (IH (dn ++ [y])); [|done]. by rewrite <- app_assoc.
Qed.

(** The part of the boot state that [initlists] leaves alone. *)
Record booting c : Prop := {
  bt_procs : procs c = fun _ => zero_proc;
  bt_cpus : forall k, c_proc (cpus c k) = None;
  bt_init : initproc c = None;
  bt_next : nextpid c = 1
}.

(** All lists are empty after [initlists]. *)
Lemma runs_initlists c Q :
  booting c ->
  (forall c', booting c' -> (forall l, list_ok l = true -> first_of c' l = -1) -> Q tt [] c') ->
  runs ext h initlists [] c Q.
Proof.
  intros Hb HQ. unfold initlists. do 12 rstep.
  apply (runs_for_each (fun dn c => booting c ∧ first_of c LUnused = -1 ∧ first_of c LZombie = -1 ∧
    first_of c LSleeping = -1 ∧ forall k, k ∈ dn -> first_of c (LRunnable k) = -1)).
  - intros dn k c' Hk (Hb' & H1 & H2 & H3 & Hdn).
    apply elem_of_seqZ in Hk. do 5 rstep. split; [done|].
    destruct Hb' as [B1 B2 B3 B4]. split; [|split; [done|split; [done|split; [done|]]]].
    + split; [done| |done|done]. intros k'. cbn. unfold upd. repeat (case_decide; cbn); auto.
    + intros k' Hk'. cbn. unfold upd. repeat (case_decide; cbn); try done.
      apply elem_of_app in Hk' as [Hk'|Hk']; [by apply Hdn|]. by apply list_elem_of_singleton in Hk'.
  - destruct Hb as [B1 B2 B3 B4]. split; [by split|]. split; [done|]. split; [done|]. split; [done|].
    intros k Hk. by apply not_elem_of_nil in Hk.
  - intros c' (Hb' & H1 & H2 & H3 & Hall). apply HQ; [done|].
    intros [| | |k] Hl; try done. apply Hall, elem_of_seqZ.
    simpl in Hl. unfold cpu_index_ok in Hl. lia.
Qed.

Lemma aruns_initlock lk nm L X a Q :
  lock_ok lk = true -> lk ∉ L -> Q tt L X a -> aruns ext h (initlock lk nm) L X a Q.
Proof. intros Hok HL HQ c Hc. apply runs_initlock; [done..|]. eauto. Qed.

(** The slots [0..k-1] are set up and on the unused list. *)
Record slots_ready (dn : list Z) X a : Prop := {
  sr_unused : X LUnused = dn;
  sr_others : forall l, l ≠ LUnused -> X l = [];
  sr_proc : forall i, state (procs a i) = UNUSED ∧ pid (procs a i) = 0 ∧ cpu_num (procs a i) = 0;
  sr_index : forall i, i ∈ dn -> index_in_proc (procs a i) = i;
  sr_cpus : forall k, c_proc (cpus a k) = None;
  sr_init : initproc a = None;
  sr_next : nextpid a = 1
}.

Lemma slots_ready_inv X a : slots_ready all_procs X a -> inv X a.
Proof.
  intros [S1 S2 S3 S4 S5 S6 S7].
  assert (Hr : forall i, i ∈ all_procs <-> 0 <= i < NPROC) by (apply elem_of_all_procs).
  split.
  - intros i Hi. by apply S4, Hr.
  - intros i Hi. destruct (S3 i) as (_ & _ & ->). done.
  - intros i Hi. unfold home, pstate. destruct (S3 i) as (-> & _). rewrite S1. by apply Hr.
  - intros l i Hl Hin. destruct (decide (l = LUnused)) as [->|Hne].
    + rewrite S1 in Hin. split; [by apply Hr|]. apply S3.
    + rewrite S2 in Hin by done. by apply not_elem_of_nil in Hin.
  - intros k i _ Hc. by rewrite S5 in Hc.
  - intros k k' i _ _ Hc. by rewrite S5 in Hc.
  - split; [lia|..].
    + intros i _. destruct (S3 i) as (_ & -> & _). lia.
    + intros i _. unfold pstate. by destruct (S3 i) as (-> & -> & _).
    + intros i j _ _ _ Hp. by destruct (S3 i) as (_ & ? & _).
Qed.

Lemma aruns_init_slots X a Q :
  slots_ready [] X a -> (forall X' a', slots_ready all_procs X' a' -> Q tt [] X' a') ->
  aruns ext h (for_each all_procs (fun i =>
    initlock (LkProc i) "proc";;
    set_proc i (fun p => p <| kstack := KSTACK i |>);;
    set_proc i (fun p => p <| cpu_num := 0 |>);;
    set_proc i (fun p => p <| index_in_proc := i |>);;
    p ← get_proc i;
    add_proc_to_list h LUnused (index_in_proc p))) [] X a Q.
Proof.
  intros HS HQ. eapply (aruns_for_each_split ext h slots_ready); [|exact HS|exact HQ].
  clear X a HS HQ. intros dn i rest X a Hxs HS.
  assert (Hi : 0 <= i < NPROC).
  { apply elem_of_all_procs. rewrite Hxs. apply elem_of_app; right; apply elem_of_cons; auto. }
  assert (Hnew : i ∉ dn).
  { assert (NoDup all_procs) as Hnd by apply NoDup_seqZ. rewrite Hxs in Hnd.
    apply NoDup_app in Hnd as (_ & Hnd & _). intros Hin. apply (Hnd i Hin), elem_of_cons; auto. }
  destruct HS as [S1 S2 S3 S4 S5 S6 S7]. destruct (S3 i) as (P1 & P2 & P3).
  astep. apply aruns_initlock; [solve_lock|solve_notin|]. do 8 astep.
  cbn. rewrite !upd_eq. cbn.
  apply aruns_add; [done|solve_inner|solve_inner| |done|].
  { intros l Hl Hin. destruct (decide (l = LUnused)) as [->|Hne];
      [by rewrite S1 in Hin|rewrite S2 in Hin by done; by apply not_elem_of_nil in Hin]. }
  split; [done|]. split; cbn; try done.
  - by rewrite upd_eq, S1.
  - intros l Hl. rewrite upd_ne by done. by apply S2.
  - intros j. unfold upd. repeat (case_decide; cbn); [done..|apply S3].
  - intros j Hj. unfold upd. repeat (case_decide; cbn); try done. apply S4.
    apply elem_of_app in Hj as [Hj|Hj]; [done|]. by apply list_elem_of_singleton in Hj.
Qed.

Lemma runs_procinit c Q :
  booting c -> (forall c' X a, rep c' X a -> slots_ready all_procs X a -> Q tt [] c') ->
  runs ext h (procinit h) [] c Q.
Proof.
  intros Hb HQ. unfold procinit. rstep. apply runs_initlists; [done|].
  clear c Hb. intros c Hb Hfirst. do 4 rstep.
  eapply runs_mono; [eapply (aruns_init_slots (fun _ => []) (erase c))
                      with (Q := fun _ L' X' a' => L' = [] ∧ slots_ready all_procs X' a')|].
  - destruct Hb as [B1 B2 B3 B4]. split; cbn; try done.
    + by rewrite B1.
    + intros i Hi. by apply not_elem_of_nil in Hi.
  - by intros X' a' HS.
  - split; [|intros l l' i _ _ Hi; by apply not_elem_of_nil in Hi|done].
    intros l Hl. split; [by apply Hfirst|constructor].
  - intros [] L' c' (X' & a' & Hrep & -> & HS). eauto.
Qed.

Definition with_init (r : option Z) a : core E := a <| initproc := r |>.

Lemma inv_init r X a : inv X a -> inv X (with_init r a).
Proof.
  intros [H1 H2 H3 H4 H5 H6 [P1 P2 P3 P4]].
  split; [exact H1|exact H2|exact H3|exact H4|exact H5|exact H6|].
  split; [exact P1|exact P2|exact P3|exact P4].
Qed.

Lemma built_init r np X a a1 :
  built np X a a1 -> built np X (with_init r a) (with_init r a1).
Proof. intros [B1 B2 B3 B4 B5 B6 B7 B8 B9 B10]. split; [by apply inv_init|done..]. Qed.
End boot.

Section userinit.
Context {E : Type} `{KEnv E} (ext : failure -> Prop) (h : Z) (Hh : 0 <= h < NCPU).
Context (Hext : ext FCallee) (Hany : forall f, ext f).
Implicit Types (L : list lockid) (X : listid -> list Z) (a : core E).

(** The first process: runnable on CPU 0, and remembered as [initproc]. *)
Lemma aruns_userinit i rest X a Q :
  inv X a -> X LUnused = i :: rest -> nextpid a < 2^31 - 1 ->
  (forall a', let X' := enqueue (LRunnable 0) i (dequeue LUnused i X) in
     inv X' a' -> initproc a' = Some i -> cpus a' = cpus a -> nextpid a' = nextpid a + 1 ->
     (forall j, j ≠ i -> procs a' j = procs a j) ->
     pstate a' i = RUNNABLE -> pid (procs a' i) = nextpid a -> sz (procs a' i) = PGSIZE ->
     Q tt [] X' a') ->
  aruns ext h (userinit h) [] X a Q.
Proof.
  intros Hinv HX Hn HQ. unfold userinit. astep.
  apply (aruns_allocproc ext h Hext _ _ (fun _ _ => True)); [by left|done..|intros HX'; congruence|].
  intros i' rest' a1 HX' _ Hb Hfr _ _. assert (i' = i) as -> by congruence.
  pose proof (b_range _ _ _ _ Hb) as Hr.
  astep. apply aruns_mod_core; [done|by intros ? []|done|].
  apply (built_init (Some i)) in Hb. set (a2 := a1 <| initproc := Some i |>).
  change (with_init (Some i) a1) with a2 in Hb. clearbody a2. clear Hfr a1.
  do 3 astep. apply aruns_call; [done|]. intros [] e1 _. apply (built_env _ _ _ _ e1) in Hb.
  astep. eapply aruns_set_built; [exact Hb|done|by split|done|]. intros a3 Hb3 Hp3.
  do 3 astep. apply aruns_call; [done|]. intros [] e2 _. apply (built_env _ _ _ _ e2) in Hb3.
  astep. apply aruns_call; [done|]. intros [] e3 _. apply (built_env _ _ _ _ e3) in Hb3.
  astep. eapply aruns_set_built; [exact Hb3|done|by split|done|]. intros a4 Hb4 Hp4.
  astep. apply aruns_call; [done|]. intros ip e5 _. apply (built_env _ _ _ _ e5) in Hb4.
  astep. eapply aruns_set_built; [exact Hb4|done|by split|done|]. intros a5 Hb5 Hp5.
  do 5 astep. cbn. rewrite upd_eq. cbn. rewrite (inv_index _ _ (b_inv _ _ _ _ Hb5)) by done.
  apply aruns_add; [done|solve_inner|solve_inner| |done|].
  { intros l Hl Hin. pose proof (inv_in_list _ _ _ _ (b_inv _ _ _ _ Hb5) Hl Hin) as Hst.
    rewrite (b_state _ _ _ _ Hb5) in Hst. by destruct l. }
  astep. assert (Hp6 := procs_on_proc i set_runnable a5).
  destruct Hb5 as [B1 B2 B3 B4 B5 B6 B7 B8 B9 B10].
  apply (HQ (on_proc i set_runnable a5)); unfold pstate; rewrite ?Hp6; try done.
  - by apply (inv_enlist _ _ i (LRunnable 0)).
  - intros j Hj. unfold on_proc; cbn. rewrite upd_ne by done. by apply B3.
  - rewrite Hp5. change (procs (a4 <| env := e5 |>) i) with (procs a4 i). rewrite Hp4.
    change (procs (a3 <| env := e2 |> <| env := e3 |>) i) with (procs a3 i). by rewrite Hp3.
Qed.
End userinit.
