(* ===== verification/ProcSys.v ===== *)
(** * ProcSys: the process subsystem as a transition system

    A step is one kernel operation of one hart, from one scheduling point to the
    next: the scheduler picks a process and that process continues after its
    [sched()], or the running process executes a call of the subsystem.  Between
    steps no spin lock is held.  The invariant of ProcInv.v holds in every state
    reachable from boot, and no step panics, deadlocks or leaves an array. *)

From S2P Require Import Prelude KState Spinlock ProcList ProcAbs Proc ProcInv ProcThm ProcLife ProcFork.

(** Where a process continues when it is switched to. *)
Inductive resume :=
| RForkret                       (* a new process *)
| RYield
| RSleep (lk : lockid)           (* its caller releases [lk] afterwards *)
| RWait (addr : Z).              (* in the loop of [wait] *)

Inductive kop :=
| OpSched (r : resume)
| OpYield
| OpSleep (ch : chan) (lk : lockid)
| OpWakeup (ch : chan)
| OpKill (pid : Z)
| OpFork
| OpExit (status : Z)
| OpWait (addr : Z)
| OpGrow (n : Z)
| OpSetcpu (n : Z).

Section system.
Context {E : Type} `{KEnv E}.
Abbreviation K := (M (kstate E)).
Implicit Types (s : kstate E) (X : listid -> list Z) (a : core E).

Definition resume_op (h : Z) (r : resume) : K unit :=
  match r with
  | RForkret => forkret_pre h
  | RYield => yield_post h
  | RSleep lk => sleep_post h;; sleep_reacquire h lk;; release h lk
  | RWait addr => sleep_post h;; wait_again h addr;; mret tt
  end.

Definition run_op (h : Z) (op : kop) : K unit :=
  match op with
  | OpSched r =>
      o ← scheduler_pick h;
      match o with Some _ => resume_op h r | None => mret tt end
  | OpYield => yield_pre h
  | OpSleep ch lk => acquire h lk;; sleep_pre h ch lk
  | OpWakeup ch => wakeup h ch
  | OpKill pid => kill h pid;; mret tt
  | OpFork => fork h;; mret tt
  | OpExit status => exit h status
  | OpWait addr => wait h addr;; mret tt
  | OpGrow n => growproc h n;; mret tt
  | OpSetcpu n => setcpu h n;; mret tt
  end.

Definition resume_ok (r : resume) : Prop :=
  match r with RSleep lk => outer lk | _ => True end.

(** The scheduler runs on a hart without a process; everything but [wakeup],
    which interrupt handlers call, is done by a process.  The init process does not exit
    (it panics then), process identifiers have not run out, and [setcpu] gets
    the number of a CPU. *)
Definition enabled (h : Z) (op : kop) s : Prop :=
  let cur := c_proc (cpus (kcore s) h) in
  match op with
  | OpSched r => cur = None ∧ resume_ok r
  | OpWakeup _ => True
  | OpSleep _ lk => (∃ p, cur = Some p) ∧ outer lk
  | OpFork => (∃ p, cur = Some p) ∧ nextpid (kcore s) < 2^31 - 1
  | OpExit _ => ∃ p, cur = Some p ∧ initproc (kcore s) ≠ Some p
  | OpSetcpu n => (∃ p, cur = Some p) ∧ 0 <= n < NCPU
  | OpYield | OpKill _ | OpWait _ | OpGrow _ => ∃ p, cur = Some p
  end.

Inductive kstep : kstate E -> kstate E -> Prop :=
| kstep_op h op s s' :
    0 <= h < NCPU -> enabled h op s -> run_op h op s = Ok tt s' -> kstep s s'.

Definition boot (e : E) : kstate E := KState (boot_core e) boot_sync.
Definition start (h : Z) : K unit := procinit h;; userinit h.

(** The states of the system after hart 0 has initialised it. *)
Inductive reachable : kstate E -> Prop :=
| reach_start e s : start 0 (boot e) = Ok tt s -> reachable s
| reach_step s s' : reachable s -> kstep s s' -> reachable s'.

Definition sys_inv s : Prop :=
  lk_inv 0 [] (ksync s) ∧ ∃ X a, rep (kcore s) X a ∧ inv X a.

(** Without locks held, no hart is special. *)
Lemma lk_inv_any h h' y : lk_inv h [] y -> lk_inv h' [] y.
Proof.
  intros [H1 H2 H3 H4 H5]. split; [|constructor| |done|].
  - intros lk. specialize (H1 lk). unfold held_by in *. rewrite decide_False in H1 by apply not_elem_of_nil.
    by rewrite decide_False by apply not_elem_of_nil.
  - destruct (decide (h' = h)) as [->|Hne]; [done|by apply H5].
  - intros h'' Hne. destruct (decide (h'' = h)) as [->|Hne']; [done|by apply H5].
Qed.

Lemma rep_erased c X a : rep c X a ->
  nextpid a = nextpid c ∧ initproc a = initproc c ∧ forall k, c_proc (cpus a k) = c_proc (cpus c k).
Proof. intros [_ _ <-]. done. Qed.

(** From a rule on the abstract view to a statement about the program. *)
Lemma aruns_sys ext h (m : K unit) s X a :
  rep (kcore s) X a -> lk_inv 0 [] (ksync s) ->
  aruns ext h m [] X a (fun _ L' X' a' => L' = [] ∧ inv X' a') ->
  ends_in ext (fun _ s' => sys_inv s') (m s).
Proof.
  intros Hrep Hlk Hm. destruct s as [c y]. simpl in *.
  specialize (Hm c Hrep y (lk_inv_any 0 h y Hlk)).
  destruct (m (KState c y)) as [[] s'| | | | |]; try done. simpl in *.
  destruct Hm as (L' & Hlk' & X' & a' & Hrep' & -> & Hinv').
  split; [by eapply lk_inv_any|eauto].
Qed.
End system.

Section steps.
Context {E : Type} `{KEnv E} (ext : failure -> Prop) (h : Z) (Hh : 0 <= h < NCPU).
Context (Hblnc : BLNCFLG = false) (Hext : ext FCallee).
Implicit Types (s : kstate E) (X : listid -> list Z) (a : core E).

(** What an operation ends with. *)
Definition back {A} (_ : A) (L : list lockid) X a : Prop := L = [] ∧ inv X a.

Lemma aruns_back {A} (m : M (kstate E) A) L X a :
  aruns ext h m L X a back -> aruns ext h (m;; mret tt) L X a back.
Proof. intros Hm. apply aruns_bind. eapply aruns_mono; [exact Hm|]. intros r L' X' a' Hb. by astep. Qed.

Lemma aruns_growproc p n X a :
  inv X a -> c_proc (cpus a h) = Some p -> aruns ext h (growproc h n) [] X a back.
Proof.
  intros Hinv Hc. destruct (inv_running _ _ Hinv h p Hh Hc) as [Hr Hs].
  assert (Hset : forall e z, inv X (on_proc p (fun q => q <| sz := z |>) (a <| env := e |>))).
  { intros e z. apply inv_fields; [by apply inv_env|done|by split]. }
  unfold growproc. astep. apply (aruns_this_proc _ _ Hh p); [done|].
  astep. astep. cbv zeta. destruct (0 <? n); [|destruct (n <? 0)].
  - astep. apply aruns_call; [done|]. intros r e _. destruct (u32 r =? 0).
    + astep. split; [done|]. by apply inv_env.
    + do 3 astep. split; [done|]. apply Hset.
  - astep. apply aruns_call; [done|]. intros r e _. do 3 astep. split; [done|]. apply Hset.
  - do 3 astep. split; [done|]. by apply inv_fields.
Qed.

Lemma inv_set_cpu_num n X a p :
  inv X a -> 0 <= p < NPROC -> 0 <= n < NCPU -> inv X (on_proc p (fun q => q <| cpu_num := n |>) a).
Proof.
  intros Hinv Hp Hn.
  assert (Hps : forall j, pstate (on_proc p (fun q => q <| cpu_num := n |>) a) j = pstate a j)
    by (intros j; rewrite pstate_on_proc; by case_decide; subst).
  eapply (inv_update X a); [done|exact Hp|by apply frame_on_proc|..].
  - rewrite procs_on_proc. by apply (inv_index _ _ Hinv).
  - by rewrite procs_on_proc.
  - unfold home. rewrite Hps. by apply (inv_home _ _ Hinv).
  - intros l Hl Hin. rewrite Hps. by apply (inv_list _ _ Hinv).
  - intros k Hk Hc. rewrite Hps. by apply (inv_running _ _ Hinv k p).
  - intros k k' Hk Hk'. by apply (inv_one_cpu _ _ Hinv).
  - eapply pid_ok_same; [apply (inv_pid _ _ Hinv)|done|..].
    + intros j _. unfold on_proc; simpl. unfold upd. by case_decide; subst.
    + intros j _. by rewrite Hps.
Qed.

Lemma aruns_setcpu p n X a :
  inv X a -> c_proc (cpus a h) = Some p -> 0 <= n < NCPU -> aruns ext h (setcpu h n) [] X a back.
Proof.
  intros Hinv Hc Hn. destruct (inv_running _ _ Hinv h p Hh Hc) as [Hr Hs].
  unfold setcpu. astep. apply (aruns_this_proc _ _ Hh p); [done|].
  do 3 astep. split; [done|]. by apply inv_set_cpu_num.
Qed.

Lemma wait_ends_back p addr X a r L' X' a' : wait_ends h p addr X a r L' X' a' -> back r L' X' a'.
Proof. by intros []. Qed.

Lemma aruns_resume r p X a :
  inv X a -> c_proc (cpus a h) = Some p -> resume_ok r ->
  aruns ext h (resume_op h r) [LkProc p] X a back.
Proof.
  intros Hinv Hc Hok. destruct (inv_running _ _ Hinv h p Hh Hc) as [Hr Hs].
  destruct r as [| |lk|addr]; cbn [resume_op].
  - unfold forkret_pre. astep. apply (aruns_this_proc _ _ Hh p); [done|]. by astep.
  - by apply (aruns_yield_post _ _ Hh p).
  - astep. apply (aruns_sleep_post _ _ Hh p); [done..|]. intros a' Hinv'.
    unfold sleep_reacquire. simpl in Hok. assert (lock_ok lk = true) by (by destruct lk).
    astep. astep. by astep.
  - astep. apply (aruns_sleep_post _ _ Hh p); [done..|]. intros a' Hinv'.
    apply aruns_back. eapply aruns_mono; [by apply (aruns_wait_again _ _ Hh Hext p)|].
    intros r L' X' a''. apply wait_ends_back.
Qed.

(** [fork] has the memory it needs; the other operations cope without. *)
Definition memory_for op s : Prop :=
  op = OpFork -> forall p, c_proc (cpus (kcore s) h) = Some p -> fork_memory (procs (kcore s) p) (env (kcore s)).

Lemma run_op_inv op s :
  (forall f, ext f) ∨ memory_for op s -> sys_inv s -> enabled h op s -> ends_in ext (fun _ s' => sys_inv s') (run_op h op s).
Proof.
  intros Hoom [Hlk (X & a & Hrep & Hinv)] Hen. unfold memory_for in Hoom.
  assert (Hfm : forall p, fork_memory (procs (kcore s) p) (env (kcore s)) -> fork_memory (procs a p) (env a))
    by (intros p; by rewrite <- (rep_erase _ _ _ Hrep)).
  destruct (rep_erased _ _ _ Hrep) as (Hn & Hi & Hc). rewrite <- Hc in Hoom.
  apply (aruns_sys ext h _ s X a Hrep Hlk). change (aruns ext h (run_op h op) [] X a back).
  unfold enabled in Hen. rewrite <- ?Hc, <- ?Hn, <- ?Hi in Hen. clear Hn Hi Hc.
  destruct op as [r| |ch lk|ch|pid'| |status|addr|n|n]; cbn [run_op].
  - destruct Hen as [Hen Hr]. astep. apply aruns_scheduler_pick; [done..|intros _; by astep|].
    intros i rest _ X' a' Hinv'. apply aruns_resume; [done| |done].
    unfold a', on_cpu; cbn. by rewrite upd_eq.
  - destruct Hen as [p Hp]. by apply (aruns_yield_pre _ _ Hh p).
  - destruct Hen as [[p Hp] Ho]. assert (lock_ok lk = true) by (by destruct lk).
    astep. astep. by apply (aruns_sleep_pre _ _ Hh p).
  - by apply aruns_wakeup_woken.
  - apply aruns_back, aruns_kill; [done..|by split|]. by intros i _ _ _ st Hst.
  - destruct Hen as [[p Hp] Hn]. apply aruns_back.
    apply (aruns_fork _ _ Hh Hext p); [|done..]. destruct Hoom as [|Hm]; [by left|]. right. by apply Hfm, Hm.
  - destruct Hen as (p & Hp & Hip). by apply (aruns_exit _ _ Hh Hblnc Hext p).
  - destruct Hen as [p Hp]. apply aruns_back.
    eapply aruns_mono; [by apply (aruns_wait _ _ Hh Hext p)|].
    intros r L' X' a'. apply wait_ends_back.
  - destruct Hen as [p Hp]. by eapply aruns_back, aruns_growproc.
  - destruct Hen as [[p Hp] Hn]. by eapply aruns_back, aruns_setcpu.
Qed.

Lemma start_inv e : (forall f, ext f) -> ends_in ext (fun _ s' => sys_inv s') (start h (boot e)).
Proof.
  intros Hany. assert (Hrun : runs ext h (start h) [] (boot_core e)
    (fun _ L' c' => L' = [] ∧ ∃ X a, rep c' X a ∧ inv X a)).
  { unfold start. apply runs_bind, runs_procinit; [done|].
    intros c X a Hrep HS. pose proof (slots_ready_inv _ _ HS) as Hinv.
    eapply runs_mono; [eapply (aruns_userinit ext h Hext Hany 0 (seqZ 1 63)) with
      (Q := fun _ L' X' a' => L' = [] ∧ inv X' a'); [done| | | |done]|].
    - by rewrite (sr_unused _ _ _ HS).
    - by rewrite (sr_next _ _ _ HS).
    - done.
    - intros [] L' c' (X' & a' & Hrep' & -> & Hinv'). eauto. }
  specialize (Hrun _ (boot_sync_inv h)). unfold boot.
  destruct (start h _) as [[] s'| | | | |]; try done. simpl in *.
  destruct Hrun as (L' & Hlk & -> & HX). split; [by eapply lk_inv_any|done].
Qed.
End steps.

Section reach.
Context {E : Type} `{KEnv E} (Hblnc : BLNCFLG = false).

Lemma reachable_sys_inv s : reachable s -> sys_inv s.
Proof.
  induction 1 as [e s Hs|s s' _ IH Hstep]; [|destruct Hstep as [h op s1 s2 Hh Hen Hop]].
  - pose proof (start_inv (fun _ => True) 0 I e (fun _ => I)) as Hst. by rewrite Hs in Hst.
  - pose proof (run_op_inv (fun _ => True) h Hh Hblnc I op s1 (or_introl (fun _ => I)) IH Hen) as Hst.
    by rewrite Hop in Hst.
Qed.
End reach.
