(* ===== verification/Toy.v ===== *)
(** * Toy: a concrete environment for the process subsystem

    An instance of [KEnv] whose state counts the pages handed out, up to a
    limit; system calls of other components succeed.  It shows that the
    hypotheses of the theorems can be met, and lets the model run. *)

From S2P Require Import Prelude KState Spinlock ProcList ProcAbs Proc ProcInv ProcThm ProcLife ProcFork ProcSys.

Definition toy_page (mem : option Z) : callee Z Z := fun n =>
  match mem with
  | Some lim => if n <? lim then Some ((Z.abs n + 1) * PGSIZE, n + 1) else Some (0, n)
  | None => Some ((Z.abs n + 1) * PGSIZE, n + 1)
  end.

Definition toy_env (blnc : bool) (mem : option Z) : KEnv Z := {|
  BLNCFLG := blnc;
  trampoline := 0x80007000;
  forkret_addr := 0x80001234;
  kalloc := toy_page mem;
  kfree := fun _ n => Some (tt, n);
  kvmmap := fun _ _ _ _ _ n => Some (tt, n);
  uvmcreate := toy_page mem;
  mappages := fun _ _ _ _ _ n => Some (0, n);
  uvmunmap := fun _ _ _ _ n => Some (tt, n);
  uvmfree := fun _ _ n => Some (tt, n);
  uvminit := fun _ _ n => Some (tt, n);
  uvmcopy := fun _ _ _ n => Some (0, n);
  uvmalloc := fun _ _ x n => Some (x, n);
  uvmdealloc := fun _ _ x n => Some (x, n);
  copyout := fun _ _ _ n => Some (0, n);
  tf_store := fun _ _ _ n => Some (tt, n);
  tf_copy := fun _ _ n => Some (tt, n);
  filedup := fun f n => Some (f, n);
  idup := fun f n => Some (f, n);
  namei := fun _ n => Some (7, n);
  fileclose := fun _ n => Some (tt, [], n);
  iput := fun _ n => Some (tt, [], n);
  begin_op := fun n => Some (tt, [], n);
  end_op := fun n => Some (tt, [], n)
|}.

(** Enough memory, no load balancing: the configuration the theorems assume. *)
Definition toy : KEnv Z := toy_env false None.

Lemma toy_memory q e : @fork_memory Z toy q e.
Proof.
  intros tf e1 [= <- <-]. split; [unfold PGSIZE; lia|]. intros pt e2 [= <- <-]. split; [unfold PGSIZE; lia|].
  intros r3 e3 [= <- <-]. split; [done|]. intros r4 e4 [= <- <-]. split; [done|]. by intros r5 e5 [= <- <-].
Qed.

Lemma toy_blnc : @BLNCFLG Z toy = false.
Proof. done. Qed.

(** The final state of a computation, and a test of it. *)
Definition final {S A} (o : outcome S A) (d : S) : S := match o with Ok _ s => s | _ => d end.
Definition ends_okb {S A} (o : outcome S A) (k : S -> bool) : bool :=
  match o with Ok _ s => k s | _ => false end.

Lemma ends_okb_true {S} (o : outcome S unit) k :
  ends_okb o k = true -> ∃ s, o = Ok tt s ∧ k s = true.
Proof. destruct o as [[] s| | | | |]; try done. by exists s. Qed.

(** Runs of the model: operations of harts, after boot. *)
Section runs.
Context {E : Type} `{KEnv E}.

Definition run_ops (ops : list (Z * kop)) : M (kstate E) unit :=
  for_each ops (fun o => run_op o.1 o.2).

Definition state_after (e : E) (ops : list (Z * kop)) : kstate E :=
  final ((start 0;; run_ops ops) (boot e)) (boot e).

(** [enabled], decided on the operations the runs below use. *)
Definition enabledb (h : Z) (op : kop) (s : kstate E) : bool :=
  let cur := c_proc (cpus (kcore s) h) in
  let running := match cur with Some _ => true | None => false end in
  match op with
  | OpSched (RSleep lk) => negb running && match lk with LkWait => true | _ => false end
  | OpSched _ => negb running
  | OpWakeup _ => true
  | OpSleep _ lk => running && match lk with LkWait => true | _ => false end
  | OpFork => running && (nextpid (kcore s) <? 2^31 - 1)
  | OpExit _ => running && negb (bool_decide (initproc (kcore s) = cur))
  | OpSetcpu n => running && cpu_index_ok n
  | _ => running
  end.

Fixpoint goes (ops : list (Z * kop)) (s : kstate E) : bool :=
  match ops with
  | [] => true
  | (h, op) :: ops' =>
      cpu_index_ok h && enabledb h op s &&
      ends_okb (run_op h op s) (goes ops')
  end.

Lemma enabledb_ok h op s : enabledb h op s = true -> enabled h op s.
Proof.
  unfold enabledb, enabled. destruct (c_proc (cpus (kcore s) h)) as [p|] eqn:Hc; simpl.
  - destruct op as [[| |[]|]| |? []| | | | | | |]; simpl; try done; try (by eauto); intros Hb.
    + split; [by eauto|lia].
    + exists p. split; [done|]. apply negb_true_iff, bool_decide_eq_false in Hb. done.
    + split; [by eauto|]. unfold cpu_index_ok in Hb. lia.
  - by destruct op as [[| |[]|]| | | | | | | | |].
Qed.

Lemma goes_reachable ops s :
  reachable s -> goes ops s = true ->
  ∃ s', run_ops ops s = Ok tt s' ∧ reachable s'.
Proof.
  revert s. induction ops as [|[h op] ops IH]; intros s Hs; simpl.
  - intros _. by exists s.
  - intros [[Hh Hen]%andb_true_iff Hgo]%andb_true_iff.
    apply ends_okb_true in Hgo as (s' & Hop & Hgo).
    destruct (IH s') as (s'' & Hs'' & Hr); [|done|].
    + eapply reach_step; [done|]. eapply kstep_op; [|by apply enabledb_ok|done].
      unfold cpu_index_ok in Hh. lia.
    + exists s''. split; [|done]. unfold run_ops; simpl. unfold mbind, M_bind; simpl. by rewrite Hop.
Qed.

Definition starts (e : E) (ops : list (Z * kop)) : bool :=
  ends_okb (start 0 (boot e)) (goes ops).

Lemma final_bind {A B} (m : M (kstate E) A) (k : A -> M (kstate E) B) s v s' w s'' d :
  m s = Ok v s' -> k v s' = Ok w s'' -> final ((m ≫= k) s) d = s''.
Proof. intros Hm Hk. unfold mbind, M_bind. by rewrite Hm, Hk. Qed.

Lemma state_after_reachable e ops : starts e ops = true -> reachable (state_after e ops).
Proof.
  unfold starts. intros (s & Hst & Hgo)%ends_okb_true.
  destruct (goes_reachable ops s) as (s' & Hrun & Hr); [by eapply reach_start|done|].
  rewrite (final_bind (start 0) (fun _ => run_ops ops) (boot e) tt s tt s' (boot e) Hst Hrun : state_after e ops = s').
  done.
Qed.
End runs.
