(* ===== verification/ProcProps.v ===== *)
(** * ProcProps: the theorems of the process subsystem

    Statements about the concrete state of kernel/proc.c and its operations,
    derived from the rules of the previous files. *)

From S2P Require Import Prelude KState Spinlock ProcList ProcAbs Proc ProcInv ProcThm ProcLife ProcFork ProcSys Toy.

(** ** The table of processes and the lists through it, read from memory *)
Fixpoint follow (fuel : nat) (nxt : Z -> Z) (f : Z) : list Z :=
  match fuel with
  | O => []
  | S fuel' => if f =? -1 then [] else f :: follow fuel' nxt (nxt f)
  end.

(** The processes met by walking list [l] from its head; no list has more than
    [NPROC] of them. *)
Definition members {E} (c : core E) (l : listid) : list Z :=
  follow (Z.to_nat NPROC + 1) (next_in c) (first_of c l).

Lemma follow_chain fuel nxt f xs :
  chain nxt f xs -> (length xs < fuel)%nat -> follow fuel nxt f = xs.
Proof.
  revert fuel f. induction xs as [|x xs IH]; intros [|fuel] f Hc Hlen; simpl in *; try lia.
  - by subst f.
  - destruct Hc as (-> & Hx & Hc). assert ((x =? -1) = false) as -> by lia.
    rewrite IH by (done || lia). done.
Qed.

Lemma plist_members {E} (c : core E) l xs : plist c l xs -> members c l = xs.
Proof.
  intros [Hc Hnd]. apply follow_chain; [done|].
  pose proof (indices_length xs Hnd (fun x => chain_range _ _ _ x Hc)). lia.
Qed.

(** A slot of the table is in exactly one place, the one its state names. *)
Record table_ok {E} (c : core E) : Prop := {
  tk_list : forall l, list_ok l = true -> plist c l (members c l);
  tk_unused : forall i, 0 <= i < NPROC -> state (procs c i) = UNUSED <-> i ∈ members c LUnused;
  tk_sleeping : forall i, 0 <= i < NPROC -> state (procs c i) = SLEEPING <-> i ∈ members c LSleeping;
  tk_zombie : forall i, 0 <= i < NPROC -> state (procs c i) = ZOMBIE <-> i ∈ members c LZombie;
  tk_runnable : forall i, 0 <= i < NPROC ->
    state (procs c i) = RUNNABLE <-> ∃ k, 0 <= k < NCPU ∧ i ∈ members c (LRunnable k);
  tk_one_queue : forall i k k', 0 <= k < NCPU -> 0 <= k' < NCPU ->
    i ∈ members c (LRunnable k) -> i ∈ members c (LRunnable k') -> k = k';
  tk_running : forall i, 0 <= i < NPROC ->
    state (procs c i) = RUNNING <-> ∃ k, 0 <= k < NCPU ∧ c_proc (cpus c k) = Some i;
  tk_one_cpu : forall i k k', 0 <= k < NCPU -> 0 <= k' < NCPU ->
    c_proc (cpus c k) = Some i -> c_proc (cpus c k') = Some i -> k = k';
  tk_index : forall i, 0 <= i < NPROC -> index_in_proc (procs c i) = i;
  tk_cpu_num : forall i, 0 <= i < NPROC -> 0 <= cpu_num (procs c i) < NCPU;
  tk_pid_unused : forall i, 0 <= i < NPROC -> state (procs c i) = UNUSED <-> pid (procs c i) = 0;
  tk_pid_fresh : forall i, 0 <= i < NPROC -> 0 <= pid (procs c i) < nextpid c;
  tk_pid_inj : forall i j, 0 <= i < NPROC -> 0 <= j < NPROC ->
    pid (procs c i) = pid (procs c j) -> pid (procs c i) ≠ 0 -> i = j
}.

Section table.
Context {E : Type}.
Implicit Types (c a : core E) (X : listid -> list Z).

Lemma cpu_list_ok k : 0 <= k < NCPU <-> list_ok (LRunnable k) = true.
Proof. simpl. unfold cpu_index_ok. lia. Qed.

Lemma rep_members c X a l : rep c X a -> list_ok l = true -> members c l = X l.
Proof. intros Hrep Hl. by apply plist_members, (rep_list _ _ _ Hrep). Qed.

(** A slot is in a list exactly if its state is the list's, except that there
    are several lists of runnable processes. *)
Lemma home_iff X a i l :
  inv X a -> 0 <= i < NPROC -> list_ok l = true -> (forall k, l ≠ LRunnable k) ->
  pstate a i = list_state l <-> i ∈ X l.
Proof.
  intros Hinv Hi Hl Hk. split; [|by apply inv_in_list].
  intros Hs. pose proof (inv_home _ _ Hinv i Hi) as Hho. unfold home in Hho. rewrite Hs in Hho.
  destruct l; try done. by destruct (Hk k).
Qed.

Lemma inv_table_ok c X a : rep c X a -> inv X a -> table_ok c.
Proof.
  intros Hrep Hinv. pose proof (rep_erase _ _ _ Hrep) as Ha.
  assert (Hps : forall i, state (procs c i) = pstate a i) by (by subst a).
  destruct (inv_pid _ _ Hinv) as [P1 P2 P3 P4].
  split.
  - intros l Hl. rewrite (rep_members _ _ _ _ Hrep Hl). by apply (rep_list _ _ _ Hrep).
  - intros i Hi. rewrite Hps, (rep_members _ _ _ _ Hrep) by done. by apply (home_iff X a i LUnused).
  - intros i Hi. rewrite Hps, (rep_members _ _ _ _ Hrep) by done. by apply (home_iff X a i LSleeping).
  - intros i Hi. rewrite Hps, (rep_members _ _ _ _ Hrep) by done. by apply (home_iff X a i LZombie).
  - intros i Hi. rewrite Hps. split.
    + intros Hs. pose proof (inv_home _ _ Hinv i Hi) as Hho. unfold home in Hho. rewrite Hs in Hho.
      destruct Hho as (k & Hk & Hin). exists k. split; [done|].
      by rewrite (rep_members _ _ _ _ Hrep) by (by apply cpu_list_ok).
    + intros (k & Hk & Hin). rewrite (rep_members _ _ _ _ Hrep) in Hin by (by apply cpu_list_ok).
      by apply (inv_in_list _ _ (LRunnable k) _ Hinv); [apply cpu_list_ok|].
  - intros i k k' Hk%cpu_list_ok Hk'%cpu_list_ok. rewrite !(rep_members _ _ _ _ Hrep) by done.
    intros Hi Hi'. pose proof (rep_disj _ _ _ Hrep _ _ i Hk Hk' Hi Hi'). congruence.
  - intros i Hi. rewrite Hps. subst a. split.
    + intros Hs. pose proof (inv_home _ _ Hinv i Hi) as Hho. unfold home in Hho. by rewrite Hs in Hho.
    + intros (k & Hk & Hc). by apply (inv_running _ _ Hinv k i).
  - subst a. intros i k k' Hk Hk'. by apply (inv_one_cpu _ _ Hinv).
  - subst a. apply (inv_index _ _ Hinv).
  - subst a. apply (inv_cpu_num _ _ Hinv).
  - subst a. intros i Hi. by apply P3.
  - subst a. apply P2.
  - subst a. apply P4.
Qed.

Lemma sys_inv_table s : sys_inv s -> table_ok (kcore (E:=E) s).
Proof. intros [_ (X & a & Hrep & Hinv)]. by eapply inv_table_ok. Qed.
End table.

(** ** The system *)
Section system_props.
Context {E : Type} `{KEnv E}.

(** C1: in every state the process subsystem can reach from boot, with the
    load balancer compiled out, by any sequence of scheduler rounds, yields,
    sleeps, wakeups, kills, forks, exits, waits, growproc and setcpu calls on
    any harts, no spin lock is left held and the process table is consistent:
    each of the lists through it is a finite chain without repetition, every
    process is on exactly the list or CPU its state names, and process
    identifiers are unique. *)
Theorem reachable_table_ok (s : kstate E) :
  BLNCFLG = false -> reachable s -> table_ok (kcore s) ∧ forall h, lk_inv h [] (ksync s).
Proof.
  intros Hbl Hs. pose proof (reachable_sys_inv Hbl s Hs) as Hinv.
  split; [by apply sys_inv_table|]. intros h. eapply lk_inv_any, Hinv.
Qed.

(** C2: operations of the subsystem that run one after the other never fail.  With
    the load balancer compiled out, an operation (a scheduler round, a yield, a sleep,
    a wakeup, a kill, a fork, an exit, a wait, a growproc or a setcpu) that a hart may
    start in a reachable state, and during which no other hart is inside an operation,
    runs to its end or up to the point where it gives up the CPU: it makes no
    [panic] and no access outside an array, it meets no lock that is left held
    and no list without an end.  Only a routine of another component may fail to
    return.  A fork is started with process identifiers left and with memory: the
    pages it asks for, and no more, are to be had. *)
Theorem reachable_no_fault (s : kstate E) h op :
  BLNCFLG = false -> reachable s -> 0 <= h < NCPU -> enabled h op s -> memory_for h op s ->
  (∃ s', run_op h op s = Ok tt s') ∨ run_op h op s = Callee.
Proof.
  intros Hbl Hs Hh Hen Hm.
  pose proof (run_op_inv (fun f => f = FCallee) h Hh Hbl eq_refl op s (or_intror Hm)
    (reachable_sys_inv Hbl s Hs) Hen) as Hop.
  destruct (run_op h op s) as [[] s'| | | | |]; simpl in Hop; try done; eauto.
Qed.
End system_props.

(** A run in which the first process forks, waits, and collects its child. *)
Definition demo_ops : list (Z * kop) :=
  [(0, OpSched RForkret); (0, OpFork); (0, OpWait 0); (0, OpSched RForkret); (0, OpExit 3);
   (0, OpSched (RWait 0))].

Lemma demo_starts : @starts Z toy 0 demo_ops = true.
Proof. vm_compute. reflexivity. Qed.

Lemma reachable_table_ok_witness :
  let s := @state_after Z toy 0 demo_ops in
  table_ok (kcore s) ∧ forall h, lk_inv h [] (ksync s).
Proof.
  apply (@reachable_table_ok Z toy); [exact toy_blnc|].
  apply state_after_reachable, demo_starts.
Defined.

Lemma reachable_no_fault_witness :
  let s := @state_after Z toy 0 demo_ops in
  (∃ s', @run_op Z toy 0 OpFork s = Ok tt s') ∨ @run_op Z toy 0 OpFork s = Callee.
Proof.
  apply (@reachable_no_fault Z toy); [exact toy_blnc| |done| |].
  - apply state_after_reachable, demo_starts.
  - apply enabledb_ok. vm_compute. reflexivity.
  - intros _ p _. apply toy_memory.
Defined.
