(* ===== verification/ProcOps.v ===== *)
(** * ProcOps: what each operation of kernel/proc.c does

    [view s X a] relates a state between kernel operations to its abstract view
    (ProcAbs.v): the process lists as sequences [X], the other data [a].  Each
    theorem gives the effect of one operation on the view. *)

From S2P Require Import Prelude KState Spinlock ProcList ProcAbs Proc ProcInv ProcThm ProcLife ProcFork ProcSys Toy ProcProps.

Section views.
Context {E : Type} `{KEnv E}.
Abbreviation K := (M (kstate E)).
Implicit Types (s : kstate E) (X : listid -> list Z) (a : core E).

Definition view s X a : Prop := lk_inv 0 [] (ksync s) ∧ rep (kcore s) X a ∧ inv X a.

(** The process that runs on hart [h]. *)
Definition current (h : Z) a : option Z := c_proc (cpus a h).

Lemma sys_inv_view s : sys_inv s -> ∃ X a, view s X a.
Proof. intros [Hlk (X & a & Hrep & Hinv)]. by exists X, a. Qed.

Lemma aruns_view {A} ext h (m : K A) s X a Q :
  view s X a -> aruns ext h m [] X a Q ->
  ends_in ext (fun r s' => ∃ L' X' a', lk_inv h L' (ksync s') ∧ rep (kcore s') X' a' ∧ Q r L' X' a') (m s).
Proof.
  intros (Hlk & Hrep & _) Hm. destruct s as [c y]. specialize (Hm c Hrep y (lk_inv_any 0 h y Hlk)).
  destruct (m (KState c y)); try done. simpl in *.
  destruct Hm as (L' & Hlk' & X' & a' & Hrep' & HQ). by exists L', X', a'.
Qed.

(** An operation that cannot fail. *)
Lemma aruns_total {A} h (m : K A) s X a (R : A -> (listid -> list Z) -> core E -> Prop) :
  view s X a ->
  aruns (fun _ => False) h m [] X a (fun r L' X' a' => L' = [] ∧ inv X' a' ∧ R r X' a') ->
  ∃ r s' X' a', m s = Ok r s' ∧ view s' X' a' ∧ R r X' a'.
Proof.
  intros Hv Hm. pose proof (aruns_view _ _ _ _ _ _ _ Hv Hm) as Ho.
  destruct (m s) as [r s'| | | | |]; simpl in Ho; try done.
  destruct Ho as (L' & X' & a' & Hlk & Hrep & -> & Hinv & HR).
  exists r, s', X', a'. split; [done|]. split; [|done]. split; [by eapply lk_inv_any|done].
Qed.

Lemma total_unit h (m : K unit) s X a X1 a1 :
  view s X a ->
  aruns (fun _ => False) h m [] X a (fun _ L' X' a' => L' = [] ∧ inv X' a' ∧ X' = X1 ∧ a' = a1) ->
  ∃ s', m s = Ok tt s' ∧ view s' X1 a1.
Proof.
  intros Hv Hm.
  destruct (aruns_total h m s X a (fun _ X' a' => X' = X1 ∧ a' = a1) Hv Hm)
    as ([] & s' & X' & a' & Hs & Hv' & -> & ->). eauto.
Qed.

(** One that may only fail to return because a routine it calls does not. *)
Lemma aruns_callee {A} h (m : K A) s X a (R : A -> (listid -> list Z) -> core E -> Prop) :
  view s X a ->
  aruns (fun f => f = FCallee) h m [] X a (fun r L' X' a' => L' = [] ∧ inv X' a' ∧ R r X' a') ->
  m s = Callee ∨ ∃ r s' X' a', m s = Ok r s' ∧ view s' X' a' ∧ R r X' a'.
Proof.
  intros Hv Hm. pose proof (aruns_view _ _ _ _ _ _ _ Hv Hm) as Ho.
  destruct (m s) as [r s'| | | | |]; simpl in Ho; try done; auto.
  destruct Ho as (L' & X' & a' & Hlk & Hrep & -> & Hinv & HR). right.
  exists r, s', X', a'. split; [done|]. split; [|done]. split; [by eapply lk_inv_any|done].
Qed.

Lemma dequeue_head l i rest X : X l = i :: rest -> NoDup (X l) -> dequeue l i X = upd X l rest.
Proof.
  intros HX Hnd. unfold dequeue. f_equal. rewrite HX in *. apply (without_split [] i rest). done.
Qed.

Lemma view_nodup s X a l : view s X a -> list_ok l = true -> NoDup (X l).
Proof. intros (_ & Hrep & _) Hl. by apply (rep_list _ _ _ Hrep l Hl). Qed.
End views.

(** ** Switching between processes *)
Section switch_ops.
Context {E : Type} `{KEnv E} (h : Z) (Hh : 0 <= h < NCPU).
Implicit Types (s : kstate E) (X : listid -> list Z) (a : core E).

(** One round of hart [h]: the scheduler switches to a process, which returns
    from [yield] and later yields again. *)
Definition round : M (kstate E) unit :=
  o ← scheduler_pick h;
  match o with Some _ => yield_post h;; yield_pre h | None => mret tt end.

Fixpoint rounds (n : nat) : M (kstate E) unit :=
  match n with O => mret tt | S n' => round;; rounds n' end.

Lemma set_running_runnable p : state p = RUNNABLE -> set_runnable (set_running p) = p.
Proof. destruct p; simpl. by intros ->. Qed.

Lemma round_rotates s X a i rest :
  view s X a -> current h a = None -> X (LRunnable h) = i :: rest ->
  ∃ s', round s = Ok tt s' ∧ view s' (enqueue (LRunnable (cpu_num (procs a i))) i (upd X (LRunnable h) rest)) a.
Proof.
  intros Hv Hc HX. pose proof (runnable_ok h Hh) as Hok.
  pose proof (view_nodup _ _ _ _ Hv Hok) as Hnd.
  assert (Hin : i ∈ X (LRunnable h)) by (rewrite HX; apply elem_of_cons; auto).
  destruct (inv_list _ _ (proj2 (proj2 Hv)) _ _ Hok Hin) as [Hr Hs].
  apply (total_unit h round s X a _ _ Hv).
  unfold round. astep. apply aruns_scheduler_pick; [done|apply Hv|done|congruence|].
  intros j rest' HX' X1 a1 Hinv1. assert (j = i) as -> by congruence.
  assert (Hcur : c_proc (cpus a1 h) = Some i) by (unfold a1, on_cpu; simpl; by rewrite upd_eq).
  astep. apply (aruns_yield_post _ _ Hh i); [done|done|].
  apply (aruns_yield_pre _ _ Hh i); [done|done|]. intros X2 a2 Hinv2.
  assert (X2 = enqueue (LRunnable (cpu_num (procs a i))) i (upd X (LRunnable h) rest)) as HX2.
  { unfold X2, X1. rewrite (dequeue_head _ _ _ _ HX Hnd).
    assert (cpu_num (procs a1 i) = cpu_num (procs a i)) as -> by (unfold a1, on_cpu, on_proc; simpl; by rewrite upd_eq). done. }
  assert (a2 = a) as Ha2.
  { unfold a2, a1, on_cpu, on_proc, set_current, setter; cbn. rewrite !upd_upd, !upd_eq. cbn.
    change (Proc RUNNABLE _ _ _ _ _ _ _ _ _ _ _ _ _ _ _ _) with (set_runnable (set_running (procs a i))).
    rewrite set_running_runnable by done. rewrite (upd_same (procs a)) by done.
    assert (Cpu None (runnable (cpus a h)) (procCount (cpus a h)) = cpus a h) as ->
      by (unfold current in Hc; rewrite <- Hc; by destruct (cpus a h)).
    rewrite upd_same by done. by destruct a. }
  rewrite HX2, Ha2 in *. done.
Qed.

(** The queues after [ys], the first processes in the queue of [h], have run and
    yielded: each is at the end of the queue of its own CPU. *)
Definition moved (ys zs : list Z) X a : listid -> list Z := fun l =>
  match l with
  | LRunnable k => (if k =? h then zs else X (LRunnable k)) ++ filter (fun i => cpu_num (procs a i) = k) ys
  | _ => X l
  end.

Lemma moved_nil zs X a : X (LRunnable h) = zs -> moved [] zs X a = X.
Proof.
  intros HX. apply functional_extensionality. intros [| | |k]; try done. simpl.
  rewrite app_nil_r. by destruct (Z.eqb_spec k h) as [->|].
Qed.

Lemma moved_cons i ys zs X a :
  moved ys (if cpu_num (procs a i) =? h then zs ++ [i] else zs)
    (enqueue (LRunnable (cpu_num (procs a i))) i (upd X (LRunnable h) (ys ++ zs))) a = moved (i :: ys) zs X a.
Proof.
  apply functional_extensionality. intros l. set (k' := cpu_num (procs a i)).
  destruct l as [| | |k]; try (unfold moved, enqueue; by rewrite !upd_ne).
  unfold moved, enqueue. rewrite filter_cons. fold k'. destruct (decide (k' = k)) as [->|Hne].
  - rewrite upd_eq. destruct (Z.eqb_spec k h) as [->|Hk]; [by rewrite <- app_assoc|].
    rewrite upd_ne by congruence. by rewrite <- app_assoc.
  - rewrite (upd_ne _ (LRunnable k')) by congruence. destruct (Z.eqb_spec k h) as [->|Hk].
    + by destruct (Z.eqb_spec k' h).
    + by rewrite upd_ne by congruence.
Qed.

(** C14: round robin.  On a hart [h] with no process running, whose queue holds [ys]
    and then [zs], as many rounds of the scheduler as there are processes in [ys],
    each running the process found and having it yield while no other hart acts, all
    return.  Afterwards each process of [ys] is at the end of the queue of the CPU it
    belongs to, those of one CPU in the order of [ys] ([wakeup] puts the processes of
    every CPU in the queue of CPU 0, so that need not be [h]), and [zs] is at the head
    of the queue of [h]: a process waits exactly for those queued before it.  Nothing
    else of the process data changes. *)
Theorem scheduler_round_robin s X a ys zs :
  view s X a -> current h a = None -> X (LRunnable h) = ys ++ zs ->
  ∃ s', rounds (length ys) s = Ok tt s' ∧ view s' (moved ys zs X a) a.
Proof.
  revert s X zs. induction ys as [|i ys IH]; intros s X zs Hv Hc HX; simpl in *.
  - exists s. split; [done|]. by rewrite moved_nil.
  - destruct (round_rotates s X a i (ys ++ zs)) as (s1 & Hs1 & Hv1); [done..|].
    destruct (IH s1 _ (if cpu_num (procs a i) =? h then zs ++ [i] else zs) Hv1) as (s2 & Hs2 & Hv2); [done| |].
    { unfold enqueue. destruct (Z.eqb_spec (cpu_num (procs a i)) h) as [->|Hne]; [by rewrite !upd_eq, app_assoc|].
      rewrite upd_ne by congruence. by rewrite upd_eq. }
    exists s2. unfold mbind, M_bind. rewrite Hs1. split; [done|]. by rewrite moved_cons in Hv2.
Qed.

(** [yield] puts the running process at the end of the queue of its CPU and
    gives up the hart, whatever else is going on. *)
Theorem yield_spec s X a p :
  view s X a -> current h a = Some p ->
  ∃ s', yield_pre h s = Ok tt s' ∧
    view s' (upd X (LRunnable (cpu_num (procs a p))) (X (LRunnable (cpu_num (procs a p))) ++ [p]))
      (on_cpu h (set_current None) (on_proc p set_runnable a)).
Proof.
  intros Hv Hc. apply (total_unit h _ s X a _ _ Hv).
  by apply (aruns_yield_pre _ _ Hh p); [apply Hv|..].
Qed.

Lemma view_running s X a p : view s X a -> current h a = Some p -> 0 <= p < NPROC ∧ pstate a p = RUNNING.
Proof. intros (_ & _ & Hinv) Hc. by apply (inv_running _ _ Hinv h p). Qed.

(** A process that sleeps on [ch]. *)
Definition set_sleeping (ch : chan) (p : proc) : proc := p <| p_chan := ch |> <| state := SLEEPING |>.

Lemma sleep_effect s X a p ch lk :
  view s X a -> current h a = Some p -> outer lk ->
  ∃ s', (acquire h lk;; sleep_pre h ch lk) s = Ok tt s' ∧
    view s' (upd X LSleeping (X LSleeping ++ [p]))
      (on_cpu h (set_current None) (on_proc p (set_sleeping ch) a)).
Proof.
  intros Hv Hc Ho. assert (lock_ok lk = true) by (by destruct lk).
  apply (total_unit h _ s X a _ _ Hv). astep. astep.
  by apply (aruns_sleep_pre _ _ Hh p); [apply Hv|..].
Qed.

(** [sleep(ch, lk)], entered with the caller's lock held: the process is put
    on the list of sleeping processes with its channel recorded, the lock is
    released and the hart is free. *)
Theorem sleep_spec s X a p ch lk :
  view s X a -> current h a = Some p -> outer lk ->
  ∃ s', (acquire h lk;; sleep_pre h ch lk) s = Ok tt s' ∧
    view s' (upd X LSleeping (X LSleeping ++ [p]))
      (on_cpu h (set_current None) (on_proc p (set_sleeping ch) a)).
Proof. apply sleep_effect. Qed.
End switch_ops.

(** ** Wakeup *)
Section wakeup_ops.
Context {E : Type} `{KEnv E} (h : Z) (Hh : 0 <= h < NCPU) (Hblnc : BLNCFLG = false).
Implicit Types (s : kstate E) (X : listid -> list Z) (a : core E).

(** The processes that [wakeup(ch)] on hart [h] wakes, in table order. *)
Definition sleepers (me : option Z) (ch : chan) (js : list Z) a : list Z :=
  filter (fun i => wakes me ch (procs a) i = true) js.

Definition wake_procs (ws : list Z) a : core E :=
  a <| procs ::= fun ps i => if decide (i ∈ ws) then set_runnable (ps i) else ps i |>.

Definition wake_seqs (ws : list Z) X : listid -> list Z := fun l =>
  match l with
  | LSleeping => filter (fun i => i ∉ ws) (X LSleeping)
  | LRunnable 0 => X (LRunnable 0) ++ ws
  | _ => X l
  end.

Lemma sleepers_on_proc me ch js i f a :
  i ∉ js -> sleepers me ch js (on_proc i f a) = sleepers me ch js a.
Proof.
  intros Hi. unfold sleepers. apply filter_ext_in. intros j Hj.
  unfold wakes, on_proc; simpl. rewrite upd_ne by congruence. done.
Qed.

Lemma wake_seqs_cons i ws X :
  wake_seqs ws (wake_lists i X) = wake_seqs (i :: ws) X.
Proof.
  apply functional_extensionality; intros l. unfold wake_seqs, wake_lists, enqueue, dequeue.
  destruct l as [| | |k]; try done.
  - rewrite upd_ne, upd_eq by done. unfold without. rewrite list_filter_filter.
    apply list_filter_iff. intros j. rewrite not_elem_of_cons. tauto.
  - destruct k; try (by rewrite !upd_ne by done).
    rewrite upd_eq, upd_ne by done. by rewrite <- app_assoc.
Qed.

Lemma wake_procs_cons i ws a :
  i ∉ ws -> wake_procs ws (on_proc i set_runnable a) = wake_procs (i :: ws) a.
Proof.
  intros Hi. unfold wake_procs, on_proc, setter; cbn. f_equal.
  apply functional_extensionality; intros j. unfold upd.
  destruct (decide (j = i)) as [->|Hj].
  - rewrite decide_False by done. rewrite decide_True by (apply elem_of_cons; auto). done.
  - destruct (decide (j ∈ ws)) as [Hin|Hin].
    + by rewrite decide_True by (apply elem_of_cons; auto).
    + rewrite decide_False; [done|]. apply not_elem_of_cons; auto.
Qed.

Lemma wake_all_sleepers me ch js X a :
  NoDup js ->
  wake_all me ch js (X, a) =
    (wake_seqs (sleepers me ch js a) X, wake_procs (sleepers me ch js a) a).
Proof.
  revert X a. induction js as [|i js IH]; intros X a Hnd; simpl.
  - f_equal.
    + apply functional_extensionality; intros l. unfold wake_seqs, sleepers; simpl.
      destruct l as [| | |[]]; simpl; rewrite ?app_nil_r; try done.
      symmetry. apply filter_keeps. intros j _. apply not_elem_of_nil.
    + by destruct a.
  - apply NoDup_cons in Hnd as [Hi Hnd]. unfold sleepers. rewrite filter_cons.
    destruct (wakes me ch (procs a) i) eqn:Hw.
    + rewrite decide_True by done. rewrite IH, sleepers_on_proc by done.
      rewrite wake_seqs_cons, wake_procs_cons; [done|].
      intros [_ Hin]%list_elem_of_filter. done.
    + rewrite decide_False by done. by apply IH.
Qed.

Lemma wakeup_effect s X a ch :
  view s X a ->
  let ws := sleepers (current h a) ch all_procs a in
  ∃ s', wakeup h ch s = Ok tt s' ∧ view s' (wake_seqs ws X) (wake_procs ws a).
Proof.
  intros Hv ws. apply (total_unit h _ s X a _ _ Hv).
  apply aruns_wakeup; [done..|apply Hv|constructor|]. intros st Hst.
  split; [done|]. split; [done|]. unfold st. rewrite wake_all_sleepers; [done|].
  apply NoDup_seqZ.
Qed.

(** C15: [wakeup(ch)] returns and wakes exactly the processes that sleep on [ch]
    (other than the caller): they leave the list of sleeping processes, whose
    order is otherwise kept, and are appended in table order to the run queue
    of CPU 0; nothing else changes. *)
Theorem wakeup_spec s X a ch :
  view s X a ->
  let ws := sleepers (current h a) ch all_procs a in
  ∃ s', wakeup h ch s = Ok tt s' ∧ view s' (wake_seqs ws X) (wake_procs ws a).
Proof. apply wakeup_effect. Qed.

Lemma elem_of_sleepers me ch js a i :
  i ∈ sleepers me ch js a <->
  i ∈ js ∧ Some i ≠ me ∧ state (procs a i) = SLEEPING ∧ p_chan (procs a i) = ch.
Proof.
  unfold sleepers, wakes. rewrite list_elem_of_filter, !andb_true_iff, negb_true_iff.
  rewrite bool_decide_eq_false, !bool_decide_eq_true. tauto.
Qed.

(** C16: a sleeper is found by a later wakeup.  Once a process has gone to sleep on [ch] on hart
    [hs] and the lock passed to [sleep] is free again, a [wakeup(ch)] on any
    hart finds it: it is then runnable, queued for CPU 0 and no longer on the
    list of sleeping processes. *)
Theorem sleep_then_wakeup s X a hs p ch lk :
  view s X a -> 0 <= hs < NCPU -> current hs a = Some p -> outer lk ->
  ∃ s' X' a', ((acquire hs lk;; sleep_pre hs ch lk);; wakeup h ch) s = Ok tt s' ∧ view s' X' a' ∧
    state (procs a' p) = RUNNABLE ∧ p ∈ X' (LRunnable 0) ∧ p ∉ X' LSleeping.
Proof.
  intros Hv Hhs Hc Ho. destruct (view_running hs Hhs _ _ _ _ Hv Hc) as [Hr Hs].
  destruct (sleep_effect hs Hhs s X a p ch lk Hv Hc Ho) as (s1 & Hs1 & Hv1).
  destruct (wakeup_effect s1 _ _ ch Hv1) as (s2 & Hs2 & Hv2).
  eexists s2, _, _. split; [unfold mbind at 1, M_bind at 1; rewrite Hs1; exact Hs2|].
  split; [exact Hv2|]. set (a1 := on_cpu hs _ _). set (ws := sleepers _ _ _ a1).
  assert (Hp : procs a1 p = set_sleeping ch (procs a p)).
  { unfold a1, on_cpu, on_proc; simpl. apply upd_eq. }
  assert (Hin : p ∈ ws).
  { apply elem_of_sleepers. rewrite Hp. split; [by apply elem_of_all_procs|].
    split; [|done]. intros Hme. destruct Hv1 as (_ & _ & Hinv1).
    destruct (inv_running _ _ Hinv1 h p Hh (eq_sym Hme)) as [_ Hrun].
    change (state (procs a1 p) = RUNNING) in Hrun. by rewrite Hp in Hrun. }
  split; [|split].
  - simpl. by rewrite decide_True.
  - simpl. apply elem_of_app; auto.
  - simpl. intros [Hnin _]%list_elem_of_filter. done.
Qed.
End wakeup_ops.

(** ** The life cycle *)
Section life_ops.
Context {E : Type} `{KEnv E} (h : Z) (Hh : 0 <= h < NCPU).
Implicit Types (s : kstate E) (X : listid -> list Z) (a : core E).

Definition has_pid (pid' : Z) a (i : Z) : Prop := 0 <= i < NPROC ∧ pid (procs a i) = pid'.

(** [kill(pid)] returns -1 and does nothing when no process has that
    identifier; otherwise it returns 0, marks the first such process as killed
    and, if it was asleep, also makes it runnable on its own CPU. *)
Theorem kill_spec s X a pid' :
  view s X a ->
  ∃ r s' X' a', kill h pid' s = Ok r s' ∧ view s' X' a' ∧
    ((r = -1 ∧ (forall i, ~ has_pid pid' a i) ∧ X' = X ∧ a' = a) ∨
     (r = 0 ∧ ∃ i, has_pid pid' a i ∧ (forall j, j < i -> ~ has_pid pid' a j) ∧ (X', a') = kill_effect i X a)).
Proof.
  intros Hv. apply (aruns_total h (kill h pid') s X a); [done|].
  apply aruns_kill; [apply Hv|..].
  - intros Hno. split; [done|]. split; [apply Hv|]. left. split; [done|]. split; [|done].
    intros i [Hi Hp]. by apply (Hno i).
  - intros i Hi Hpid Hlt st Hst. split; [done|]. split; [done|]. right. split; [done|].
    exists i. split; [done|]. split; [|by destruct (kill_effect i X a)].
    intros j Hj [Hjr Hjp]. apply (Hlt j); [lia|done].
Qed.

(** C17: [exit(status)] of a process other than init: it ends up on the zombie
    list with its exit status recorded, all its files and its current directory
    closed, without children (they were given to init), and the hart is free.
    It never returns to the process. *)
Theorem exit_spec s X a p status :
  BLNCFLG = false -> view s X a -> current h a = Some p -> initproc a ≠ Some p ->
  exit h status s = Callee ∨
  ∃ s' X' a', exit h status s = Ok tt s' ∧ view s' X' a' ∧ current h a' = None ∧
    p ∈ X' LZombie ∧ state (procs a' p) = ZOMBIE ∧ xstate (procs a' p) = status ∧ closed p a' ∧
    forall i, 0 <= i < NPROC -> parent (procs a' i) ≠ Some p.
Proof.
  intros Hbl Hv Hc Hip.
  destruct (aruns_callee h (exit h status) s X a (fun _ X' a' => current h a' = None ∧
    p ∈ X' LZombie ∧ state (procs a' p) = ZOMBIE ∧ xstate (procs a' p) = status ∧ closed p a' ∧
    forall i, 0 <= i < NPROC -> parent (procs a' i) ≠ Some p) Hv) as [|([] & s' & X' & a' & ?)]; eauto 10.
  apply (aruns_exit (fun f => f = FCallee) h Hh Hbl eq_refl p); [apply Hv|done|done|].
  intros X' a' Hinv Hcur Hz Hx Hcl Hpar. repeat (split; [done|]).
  split; [|done]. by apply (inv_in_list _ _ LZombie p Hinv).
Qed.

(** C18: [wait(addr)] looks at the children of the caller in table order.  With
    an exited child it copies that child's status to [addr], frees its slot,
    which goes back to the unused list, and returns its identifier (or -1, with
    the child kept, if the copy fails); without children, or when killed, it
    returns -1; otherwise the caller goes to sleep on its own process structure,
    where [exit] of a child wakes it. *)
Theorem wait_spec s X a p addr :
  view s X a -> current h a = Some p ->
  wait h addr s = Callee ∨
  ∃ r s' X' a', wait h addr s = Ok r s' ∧ view s' X' a' ∧ wait_ends h p addr X a r [] X' a'.
Proof.
  intros Hv Hc. apply (aruns_callee h (wait h addr) s X a); [done|].
  eapply aruns_mono; [apply (aruns_wait (fun f => f = FCallee) h Hh eq_refl p); [apply Hv|done]|].
  intros r L' X' a' Hw. destruct (wait_ends_back _ _ _ _ _ _ _ _ _ Hw) as [-> Hinv]. done.
Qed.

(** C19: [fork], with the load balancer compiled out, process identifiers left
    ([nextpid] below 2^31 - 1) and the pages it asks for to be had, returns -1 and
    changes nothing when every slot is taken; otherwise it returns a fresh process
    identifier, and the first unused slot holds a runnable child of the caller with
    the caller's size and name, queued for the caller's CPU; no other process
    changes.  ([fork_memory_vm]: six free pages and three for each page of the caller
    are enough; [fork_out_of_memory]: without them fork panics.) *)
Theorem fork_spec s X a p :
  BLNCFLG = false -> view s X a -> current h a = Some p -> nextpid a < 2^31 - 1 -> fork_memory (procs a p) (env a) ->
  fork h s = Callee ∨
  ∃ r s' X' a', fork h s = Ok r s' ∧ view s' X' a' ∧
    ((r = -1 ∧ X LUnused = [] ∧ X' = X ∧ a' = a) ∨
     (r = nextpid a ∧ ∃ np, head (X LUnused) = Some np ∧ forked p np X a X' a')).
Proof.
  intros Hbl Hv Hc Hn Hm. apply (aruns_callee h (fork h) s X a); [done|].
  apply (aruns_fork (fun f => f = FCallee) h Hh eq_refl p); [by right|done|apply Hv|done|done|..].
  - intros HX. split; [done|]. split; [apply Hv|]. auto.
  - intros np rest X' a' HX Hinv' Hf. split; [done|]. split; [done|]. right. split; [done|].
    exists np. by rewrite HX.
Qed.
End life_ops.
