(* ===== verification/LockProps.v ===== *)
(** * LockProps: theorems of the spin locks and of the process lists

    Mutual exclusion and the nesting of interrupt disabling for
    kernel/spinlock.c, and the two list operations of kernel/proc.c as
    operations on sequences. *)

From S2P Require Import Prelude KState Spinlock ProcList ProcAbs ProcFork.

Section locks.
Context {E : Type} (h : Z).
Implicit Types (s : kstate E).

(** A hart that has disabled interrupts as often as it says. *)
Definition hart_ok (y : sync) : Prop := 0 <= noff y h ∧ (0 < noff y h -> sie y h = false).

(** [pop_off] undoes [push_off]; only the saved flag may differ. *)
Definition saved (y : sync) : sync :=
  if noff y h =? 0 then y <| intena ::= fun f => upd f h (sie y h) |> else y.

(** The interrupt state after [push_off], and after the matching [pop_off]. *)
Definition pushed (y : sync) : sync :=
  y <| sie ::= fun f => upd f h false |>
    <| intena ::= fun f => if noff y h =? 0 then upd f h (sie y h) else f |>
    <| noff ::= fun f => upd f h (f h + 1) |>.

Lemma pop_pushed (c : core E) (y y' : sync) :
  hart_ok y -> noff y' = noff (pushed y) -> sie y' = sie (pushed y) -> intena y' = intena (pushed y) ->
  pop_off h (KState c y') =
  Ok tt (KState c (Sync (locks y') (noff (saved y)) (intena (saved y)) (sie (saved y)) (sched_intena y'))).
Proof.
  destruct y as [lks n ie si sv], y' as [lks' n' ie' si' sv']. intros [Hn Hs] ; cbn in *. intros -> -> ->.
  rewrite pop_off_eq; cbn; rewrite ?upd_eq; [|done|lia]. unfold saved, setter; cbn. rewrite ?upd_eq.
  rewrite upd_upd, (upd_same n) by lia. f_equal. f_equal.
  destruct (n h =? 0) eqn:Hz; cbn.
  - assert (n h = 0) as Hn0 by lia. rewrite Hn0. change (0 + 1 =? 1) with true. rewrite upd_eq; cbn.
    destruct (si h) eqn:Hsi; rewrite ?upd_upd, (upd_same si) by done; done.
  - assert ((n h + 1 =? 1) = false) as -> by lia. cbn.
    rewrite (upd_same si) by (apply Hs; lia). done.
Qed.

(** [acquire] and [release], as functions of the state. *)
Definition locked_by (lk : lockid) (y : sync) : sync :=
  (pushed y) <| locks ::= fun m => upd m lk ((m lk) <| locked := 1 |> <| lk_cpu := Some h |>) |>.

Lemma acquire_free_eq (s : kstate E) lk :
  lock_ok lk = true -> locked (locks (ksync s) lk) = 0 ->
  acquire h lk s = Ok tt (KState (kcore s) (locked_by lk (ksync s))).
Proof.
  destruct s as [c y]; cbn. intros Hok Hl. unfold acquire, mbind, M_bind.
  rewrite push_off_eq. cbn [kcore ksync]. fold (pushed y).
  unfold holding, get_lock, set_lock, get_sync, gets, mod_sync, modify. rewrite Hok.
  unfold mbind, M_bind, mret, M_ret. cbn. rewrite Hl. change (0 =? 0) with true. cbn.
  rewrite Hl. change (0 =? 0) with true. cbn. unfold locked_by, setter; cbn.
  by rewrite upd_upd, upd_eq.
Qed.

Lemma acquire_held_eq (s : kstate E) lk h' :
  lock_ok lk = true -> locked (locks (ksync s) lk) = 1 -> lk_cpu (locks (ksync s) lk) = Some h' ->
  acquire h lk s = if decide (h' = h) then Panic "acquire" else Spin.
Proof.
  destruct s as [c y]; cbn. intros Hok Hl Hc. unfold acquire, mbind, M_bind.
  rewrite push_off_eq. cbn [kcore ksync]. fold (pushed y).
  unfold holding, get_lock, get_sync, gets. rewrite Hok. unfold mbind, M_bind, mret, M_ret. cbn.
  rewrite Hl, Hc. change (1 =? 0) with false. cbn.
  destruct (decide (h' = h)) as [->|Hne].
  - by rewrite bool_decide_true.
  - rewrite bool_decide_false by congruence. cbn. by rewrite Hl.
Qed.

Lemma release_eq (s : kstate E) lk :
  lock_ok lk = true -> locked (locks (ksync s) lk) = 1 -> lk_cpu (locks (ksync s) lk) = Some h ->
  release h lk s =
  pop_off h (KState (kcore s)
    ((ksync s) <| locks ::= fun m => upd m lk ((m lk) <| lk_cpu := None |> <| locked := 0 |>) |>)).
Proof.
  destruct s as [c y]; cbn. intros Hok Hl Hc. unfold release, mbind, M_bind.
  unfold holding, get_lock, set_lock, get_sync, gets, mod_sync, modify. rewrite Hok.
  unfold mbind, M_bind, mret, M_ret. cbn. rewrite Hl, Hc. change (1 =? 0) with false.
  rewrite bool_decide_true by done. cbn. unfold setter; cbn. by rewrite upd_upd, upd_eq.
Qed.

(** Interrupts are disabled by nesting: on a hart whose [noff] counts its
    critical sections, [acquire] of a free lock followed by [release] returns
    and puts the lock, [noff] and the interrupt enable flag back as they were,
    whatever the nesting depth and the initial flag. *)
Theorem acquire_release_restores s lk :
  hart_ok (ksync s) -> lock_ok lk = true ->
  locked (locks (ksync s) lk) = 0 -> lk_cpu (locks (ksync s) lk) = None ->
  (acquire h lk;; release h lk) s = Ok tt (KState (kcore s) (saved (ksync s))).
Proof.
  intros Hy Hok Hl Hc. unfold mbind, M_bind. rewrite acquire_free_eq by done.
  rewrite release_eq; [|done|cbn; by rewrite upd_eq..]. cbn [kcore ksync].
  rewrite (pop_pushed _ (ksync s)) by done. destruct s as [c [lks n ie si]]; cbn in *.
  rewrite upd_upd, upd_eq, upd_same.
  - unfold saved; cbn. by destruct (n h =? 0).
  - destruct (lks lk); unfold setter; cbn in *; congruence.
Qed.

(** mutual exclusion: [acquire] of a lock that another hart holds does not
    return, and of one that this hart already holds panics. *)
Theorem acquire_held s lk h' :
  lock_ok lk = true -> locked (locks (ksync s) lk) = 1 -> lk_cpu (locks (ksync s) lk) = Some h' ->
  acquire h lk s = if decide (h' = h) then Panic "acquire" else Spin.
Proof. apply acquire_held_eq. Qed.
End locks.

Section lists.
Context {E : Type} (h : Z).
Implicit Types (s : kstate E) (X : listid -> list Z) (a : core E).

Lemma aruns_ok {A} (m : M (kstate E) A) s L X a L1 X1 a1 v :
  lk_inv h L (ksync s) -> rep (kcore s) X a ->
  aruns (fun _ => False) h m L X a (fun r L' X' a' => r = v ∧ L' = L1 ∧ X' = X1 ∧ a' = a1) ->
  ∃ s', m s = Ok v s' ∧ lk_inv h L1 (ksync s') ∧ rep (kcore s') X1 a1.
Proof.
  intros Hlk Hrep Hm. destruct s as [c y]. specialize (Hm c Hrep y Hlk).
  destruct (m (KState c y)) as [r s'| | | | |]; try done. simpl in Hm.
  destruct Hm as (L' & Hlk' & X' & a' & Hrep' & -> & -> & -> & ->). eauto.
Qed.

(** C22: [add_proc_to_list] of a process that is on no list, called with neither
    the list's lock nor any [stateLock] held: the hand-over-hand walk returns
    with exactly the locks held before, the list has the process appended at
    its end, and every other list and all other data are as before. *)
Theorem add_proc_to_list_spec s L X a l i :
  lk_inv h L (ksync s) -> rep (kcore s) X a -> list_ok l = true ->
  LkList l ∉ L -> (forall j, LkState j ∉ L) ->
  (forall l', list_ok l' = true -> i ∉ X l') -> 0 <= i < NPROC ->
  ∃ s', add_proc_to_list h l i s = Ok tt s' ∧ lk_inv h L (ksync s') ∧
        rep (kcore s') (upd X l (X l ++ [i])) a.
Proof. intros Hlk Hrep Hl HL1 HL2 Hi Hr. eapply aruns_ok; [done..|]. by apply aruns_add. Qed.

(** C23: [remove_proc_from_list] of a process on the list deletes it, keeping
    the order of the others, again with the locks as before and nothing else
    changed. *)
Theorem remove_proc_from_list_spec s L X a l i :
  lk_inv h L (ksync s) -> rep (kcore s) X a -> list_ok l = true ->
  LkList l ∉ L -> (forall j, LkState j ∉ L) -> i ∈ X l ->
  ∃ s', remove_proc_from_list h l i s = Ok tt s' ∧ lk_inv h L (ksync s') ∧
        rep (kcore s') (upd X l (without i (X l))) a.
Proof. intros Hlk Hrep Hl HL1 HL2 Hi. eapply aruns_ok; [done..|]. by apply aruns_remove. Qed.

(** removing a process that is not on the list never returns: an empty list
    is reported by a panic, but in a non-empty one the walk runs past the end
    and locks [proc[-1]]. *)
Theorem remove_absent_faults s L X a l i :
  lk_inv h L (ksync s) -> rep (kcore s) X a -> list_ok l = true ->
  LkList l ∉ L -> (forall j, LkState j ∉ L) -> i ∉ X l -> i ≠ -1 ->
  remove_proc_from_list h l i s =
    if X l is [] then Panic "Trying to remove from an empty list" else OutOfBounds.
Proof.
  intros Hlk Hrep Hl HL1 HL2 Hi Hi1. destruct s as [c y].
  pose proof (aruns_remove_absent (fun f => f = if X l is [] then FPanic "Trying to remove from an empty list"
    else FOutOfBounds) h l i L X a (fun _ _ _ _ => False) Hl HL1 HL2 Hi Hi1 eq_refl c Hrep y Hlk) as Hm.
  destruct (remove_proc_from_list h l i (KState c y)) as [r s'|msg| | | |]; simpl in Hm;
    [by destruct Hm as (? & _ & ? & ? & _ & [])|..]; destruct (X l); try done; by simplify_eq.
Qed.
End lists.
