(* ===== verification/ProcFaults.v ===== *)
(** * ProcFaults: where kernel/proc.c does not do what it says

    Behaviour outside the hypotheses of the theorems of ProcProps.v and
    ProcOps.v: running out of memory in [fork], two harts in [allocproc],
    [kill(0)], [setcpu] without a bounds check, and the load balancer. *)

From S2P Require Import Prelude KState Spinlock ProcList ProcAbs Proc LockProps ProcInv ProcThm ProcLife ProcFork ProcSys Toy ProcProps ProcOps.

Section oom.
Context {E : Type} `{KEnv E} (h : Z) (Hh : 0 <= h < NCPU).
Implicit Types (s : kstate E) (X : listid -> list Z) (a : core E).

(** What happens instead of the documented [return 0] / [return -1]. *)
Definition oom_fault X : failure :=
  if X LZombie is [] then FPanic "Trying to remove from an empty list" else FOutOfBounds.

Lemma aruns_found_oom i rest X a (Q : option Z -> list lockid -> (listid -> list Z) -> core E -> Prop) e :
  inv X a -> X LUnused = i :: rest -> nextpid a < 2^31 - 1 ->
  kalloc (env a) = Some (0, e) -> pagetable (procs a i) = 0 ->
  aruns (fun f => f = oom_fault X) h (allocproc_found h i) [LkProc i] X a Q.
Proof.
  intros Hinv HX Hn Hk Hpt. destruct (unused_head _ _ _ _ Hinv HX) as (Hin & Hr & Hs).
  unfold allocproc_found.
  astep. apply aruns_allocpid; [done|solve_inner|done|].
  astep. astep. astep. apply aruns_remove; [done|solve_inner|solve_inner|done|].
  astep. astep. astep. apply aruns_call; cbn; rewrite Hk; [done|].
  intros tf e' [= <- <-]. astep. astep. change (0 =? 0) with true; cbv iota. astep. unfold freeproc.
  do 3 astep. cbn. rewrite !upd_eq. cbn. change (0 =? 0) with true. cbn.
  do 6 astep. cbn. rewrite !upd_eq. cbn. rewrite Hpt. change (0 =? 0) with true. cbn.
  do 2 astep. rewrite (inv_index _ _ Hinv) by done.
  apply aruns_remove_absent; [done|solve_inner|solve_inner| |lia|].
  - rewrite upd_ne by done. intros Hz.
    pose proof (inv_in_list _ _ LZombie i Hinv eq_refl Hz) as Hst. by rewrite Hs in Hst.
  - unfold oom_fault. by rewrite upd_ne.
Qed.

Definition fault_outcome {S A} (f : failure) : outcome S A :=
  match f with
  | FPanic m => Panic m | FOutOfBounds => OutOfBounds | FSpin => Spin | FNoFuel => NoFuel | FCallee => Callee
  end.

(** C21: when [kalloc] has no page for the trapframe of the child, [fork] does
    not return -1 as documented: [allocproc] calls [freeproc] on a process that
    is on no list, and [freeproc] removes it from the zombie list all the same.
    With no zombies the kernel panics, otherwise the walk leaves the list and
    accesses [proc[-1]]. *)
Theorem fork_out_of_memory s X a p i rest e :
  view s X a -> current h a = Some p -> X LUnused = i :: rest -> nextpid a < 2^31 - 1 ->
  kalloc (env a) = Some (0, e) -> pagetable (procs a i) = 0 ->
  fork h s = fault_outcome (oom_fault X).
Proof.
  intros Hv Hc HX Hn Hk Hpt.
  assert (Hm : aruns (fun f => f = oom_fault X) h (fork h) [] X a (fun _ _ _ _ => False)).
  { unfold fork. astep. apply (aruns_this_proc _ _ Hh p); [done|]. astep. unfold allocproc. astep.
    apply aruns_allocproc_pick; [apply Hv|congruence|]. intros i' rest' HX'.
    assert (i' = i) as -> by congruence. eapply aruns_found_oom; [apply Hv|done..]. }
  pose proof (aruns_view _ _ _ _ _ _ _ Hv Hm) as Ho.
  destruct (fork h s) as [r s'|msg| | | |]; simpl in Ho; try (by rewrite <- Ho).
  by destruct Ho as (? & ? & ? & _ & _ & []).
Qed.

(** [kill(0)] succeeds while there is an unused slot: unused slots have
    identifier 0, so one of them is marked killed, and the next process created
    there is born killed ([allocproc] does not reset the flag). *)
Theorem kill_zero s X a :
  view s X a -> X LUnused ≠ [] ->
  ∃ s' a' i, kill h 0 s = Ok 0 s' ∧ view s' X a' ∧ i ∈ X LUnused ∧ killed (procs a' i) = 1.
Proof.
  intros Hv Hne. assert (Hinv : inv X a) by apply Hv.
  destruct (aruns_total h (kill h 0) s X a (fun r X' a' => r = 0 ∧ X' = X ∧ ∃ i, i ∈ X LUnused ∧ killed (procs a' i) = 1) Hv)
    as (r & s' & X' & a' & Hm & Hv' & -> & -> & i & Hi & Hk).
  - apply aruns_kill; [done|..].
    + intros Hno. exfalso. destruct (X LUnused) as [|i rest] eqn:HX; [done|].
      destruct (unused_head _ _ _ _ Hinv HX) as (_ & Hr & Hs). apply (Hno i Hr).
      by apply (pid_unused _ (inv_pid _ _ Hinv)).
    + intros i Hi Hpid _ st Hst. apply (pid_unused _ (inv_pid _ _ Hinv)) in Hpid; [|done].
      assert (kill_effect i X a = (X, on_proc i set_killed a)) as Hke.
      { unfold kill_effect. by rewrite bool_decide_false by (rewrite Hpid; done). }
      unfold st in *. rewrite Hke in *. split; [done|]. split; [done|]. split; [done|]. split; [done|].
      exists i. split; [|simpl; by rewrite upd_eq].
      pose proof (inv_home _ _ Hinv i Hi) as Hho. unfold home in Hho. by rewrite Hpid in Hho.
  - eauto 10.
Qed.

(** [setcpu] takes any number: with one that names no CPU it succeeds, and
    the next [yield] of the process leaves the array [cpus]. *)
Theorem setcpu_unchecked s X a p n :
  view s X a -> current h a = Some p -> ~ (0 <= n < NCPU) ->
  (∃ s', setcpu h n s = Ok n s') ∧ (setcpu h n;; yield_pre h) s = OutOfBounds.
Proof.
  intros Hv Hc Hn. destruct (view_running h Hh _ _ _ _ Hv Hc) as [Hr Hs]. split.
  - assert (Hm : aruns (fun _ => False) h (setcpu h n) [] X a (fun r _ _ _ => r = n)).
    { unfold setcpu. astep. apply (aruns_this_proc _ _ Hh p); [done|]. by do 3 astep. }
    pose proof (aruns_view _ _ _ _ _ _ _ Hv Hm) as Ho.
    destruct (setcpu h n s) as [r s'| | | | |]; simpl in Ho; try done.
    destruct Ho as (? & ? & ? & _ & _ & ->). eauto.
  - assert (Hm : aruns (fun f => f = FOutOfBounds) h (setcpu h n;; yield_pre h) [] X a (fun _ _ _ _ => False)).
    { astep. unfold setcpu. astep. apply (aruns_this_proc _ _ Hh p); [done|]. do 3 astep.
      unfold yield_pre. astep. apply (aruns_this_proc _ _ Hh p); [done|]. do 6 astep.
      cbn. rewrite !upd_eq. cbn. astep. unfold add_proc_to_list. astep. intros c Hc'.
      apply runs_acquire_oob; [|done]. simpl. unfold cpu_index_ok. lia. }
    pose proof (aruns_view _ _ _ _ _ _ _ Hv Hm) as Ho.
    destruct ((setcpu h n;; yield_pre h) s) as [r s'| | | | |]; simpl in Ho; try done.
    by destruct Ho as (? & ? & ? & _ & _ & []).
Qed.
End oom.

(** ** Two harts in allocproc *)
Section deadlock.
Context {E : Type} `{KEnv E} (h h' : Z) (Hne : h ≠ h').
Implicit Types (s : kstate E) (X : listid -> list Z) (a : core E).

(** [allocpid] touches no lock but its own. *)
Lemma allocpid_keeps s :
  locked (locks (ksync s) LkPid) = 0 -> 1 <= noff (ksync s) h -> sie (ksync s) h = false ->
  ∃ v s', allocpid h s = Ok v s' ∧ forall lk, lk ≠ LkPid -> locks (ksync s') lk = locks (ksync s) lk.
Proof.
  intros Hl Hn Hs. unfold allocpid, mbind, M_bind. rewrite acquire_free_eq by done.
  unfold get_core, gets, mod_core, modify. cbn [kcore ksync].
  rewrite release_eq; [|done|cbn; by rewrite upd_eq..]. unfold setter; cbn.
  rewrite pop_off_eq; cbn; rewrite ?upd_eq; [|done|lia].
  eexists _, _. split; [reflexivity|]. intros lk Hlk. cbn. unfold setter; cbn.
  by rewrite !upd_ne by done.
Qed.

(** C20: [allocproc] can deadlock.  From any state between kernel operations
    with an unused slot, let hart [h] run [allocproc] up to the point where it
    has chosen and locked the first unused process and released the list, and
    then let hart [h'] enter [allocproc] and lock the list.  From there [h']
    spins on the process lock and [h] spins on the list lock, for ever. *)
Theorem allocproc_deadlock s X a i rest :
  view s X a -> X LUnused = i :: rest ->
  ∃ s1 s2,
    allocproc_pick h s = Ok (Some i) s1 ∧
    (acquire h' (LkList LUnused);; get_first LUnused) s1 = Ok i s2 ∧
    acquire h' (LkProc i) s2 = Spin ∧
    allocproc_found h i s2 = Spin.
Proof.
  intros Hv HX. destruct (unused_head _ _ _ _ (proj2 (proj2 Hv)) HX) as (Hin & Hr & _).
  assert (Hok : lock_ok (LkProc i) = true) by solve_lock.
  assert (Hm : aruns (fun _ => False) h (allocproc_pick h) [] X a
    (fun r L' X' a' => r = Some i ∧ L' = [LkProc i] ∧ X' = X)).
  { apply aruns_allocproc_pick; [apply Hv|congruence|]. intros j rest' HX'.
    by assert (j = i) as -> by congruence. }
  pose proof (aruns_view _ _ _ _ _ _ _ Hv Hm) as Ho.
  destruct (allocproc_pick h s) as [r s1| | | | |]; simpl in Ho; try done.
  destruct Ho as (L' & X' & a' & Hlk & Hrep & -> & -> & ->).
  assert (Hfirst : first_of (kcore s1) LUnused = i).
  { destruct (rep_list _ _ _ Hrep LUnused eq_refl) as [Hch _]. rewrite HX in Hch. by destruct Hch. }
  destruct Hlk as [Hl _ Hn Hs _]. specialize (Hs ltac:(done)). simpl in Hn.
  pose proof (Hl (LkProc i)) as Hi. unfold held_by in Hi. rewrite decide_True in Hi by (by apply list_elem_of_singleton).
  assert (Hfree : forall lk, lk ≠ LkProc i -> locked (locks (ksync s1) lk) = 0).
  { intros lk Hlk. specialize (Hl lk). unfold held_by in Hl.
    rewrite decide_False in Hl by (by rewrite list_elem_of_singleton). apply Hl. }
  set (s2 := KState (kcore s1) (locked_by h' (LkList LUnused) (ksync s1))).
  assert (Hl2 : forall lk, lk ≠ LkList LUnused -> locks (ksync s2) lk = locks (ksync s1) lk).
  { intros lk Hlk. cbn. by rewrite upd_ne. }
  assert (Hu2 : locked (locks (ksync s2) (LkList LUnused)) = 1 ∧ lk_cpu (locks (ksync s2) (LkList LUnused)) = Some h').
  { cbn. by rewrite upd_eq. }
  exists s1, s2. split; [done|]. split; [|split].
  - unfold mbind, M_bind. rewrite acquire_free_eq by (done || by apply Hfree). by rewrite <- Hfirst.
  - rewrite (acquire_held_eq _ _ _ h); [by rewrite decide_False|done|by rewrite Hl2; [apply Hi|]..].
  - destruct (allocpid_keeps s2) as (v & s3 & Hp & Hl3).
    { rewrite Hl2 by done. by apply Hfree. }
    { cbn. rewrite upd_ne by done. lia. }
    { cbn. by rewrite upd_ne. }
    unfold allocproc_found, mbind, M_bind. rewrite Hp.
    unfold set_proc, mod_core, modify. assert (proc_index_ok i = true) as -> by done.
    unfold remove_proc_from_list, mbind, M_bind.
    rewrite (acquire_held_eq _ _ _ h'); [by rewrite decide_False|done|cbn; by rewrite Hl3; [apply Hu2|]..].
Qed.
End deadlock.

(** ** The load balancer *)
Section balancer.
Context {E : Type}.
Implicit Types (s : kstate E).

Definition counts (ks : list Z) s : list Z := map (fun k => procCount (cpus (kcore s) k)) ks.

Lemma leastUsedCpu_loop_eq ks m s :
  (forall k, k ∈ ks -> 0 <= k < NCPU ∧ 0 <= procCount (cpus (kcore s) k) < 2^64) -> 0 <= m < 2^31 ->
  leastUsedCpu_loop ks m s = Ok (foldl Z.min m (counts ks s)) s.
Proof.
  revert m. induction ks as [|k ks IH]; intros m Hks Hm; [done|].
  destruct (Hks k) as [Hk Hc]; [apply elem_of_cons; auto|].
  simpl. unfold mbind, M_bind, get_cpu. assert (cpu_index_ok k = true) as -> by solve_lock.
  unfold gets. assert (u64 m = m) as -> by (apply u64_id; lia).
  assert ((if procCount (cpus (kcore s) k) <? m then i32 (procCount (cpus (kcore s) k)) else m)
    = m `min` procCount (cpus (kcore s) k)) as ->.
  { destruct (procCount (cpus (kcore s) k) <? m) eqn:Hlt; [|lia]. rewrite i32_id by lia. lia. }
  apply IH; [|lia]. intros k' Hk'. apply Hks, elem_of_cons; auto.
Qed.

Lemma foldl_min_le (xs : list Z) m : foldl Z.min m xs <= m.
Proof. revert m. induction xs as [|x xs IH]; intros m; simpl; [lia|]. specialize (IH (m `min` x)). lia. Qed.

Lemma foldl_min_zero xs m : 0 <= m -> (forall x, x ∈ xs -> 0 <= x) -> 0 ∈ xs -> foldl Z.min m xs = 0.
Proof.
  revert m. induction xs as [|x xs IH]; intros m Hm Hx H0; [by apply not_elem_of_nil in H0|]. simpl.
  assert (Hx0 : 0 <= x) by (apply Hx, elem_of_cons; auto).
  assert (Htl : forall y, y ∈ xs -> 0 <= y) by (intros y Hy; apply Hx, elem_of_cons; auto).
  apply elem_of_cons in H0 as [<-|H0]; [|apply IH; [lia|done|done]].
  assert (forall ys, (forall y, y ∈ ys -> 0 <= y) -> foldl Z.min 0 ys = 0) as Hz.
  { clear. induction ys as [|y ys IH]; intros Hy; [done|]. simpl.
    assert (0 <= y) by (apply Hy, elem_of_cons; auto). replace (0 `min` y) with 0 by lia.
    apply IH. intros z Hz. apply Hy, elem_of_cons; auto. }
  replace (m `min` 0) with 0 by lia. by apply Hz.
Qed.

(** [leastUsedCpu] returns the smallest of the process counts, capped at
    NPROC, and not the CPU that has it.  As long as some CPU has count 0 it
    therefore returns 0 -- CPU 0, even when that is the most loaded one; and
    once every CPU has at least NCPU processes it returns no CPU at all. *)
Theorem leastUsedCpu_is_count s :
  (forall k, 0 <= k < NCPU -> 0 <= procCount (cpus (kcore s) k) < 2^64) ->
  ∃ v, leastUsedCpu s = Ok v s ∧ v = foldl Z.min NPROC (counts (seqZ 0 NCPU) s) ∧
    ((∃ k, 0 <= k < NCPU ∧ procCount (cpus (kcore s) k) = 0) -> v = 0) ∧
    ((forall k, 0 <= k < NCPU -> NCPU <= procCount (cpus (kcore s) k)) -> NCPU <= v).
Proof.
  intros Hc. eexists. split; [apply leastUsedCpu_loop_eq; [|done]|split; [done|split]].
  - intros k Hk%elem_of_seqZ. split; [lia|]. apply Hc. lia.
  - intros (k & Hk & H0). apply foldl_min_zero; [done|..].
    + intros x (k' & -> & Hk')%list_elem_of_fmap. apply elem_of_seqZ in Hk'. apply Hc. lia.
    + apply list_elem_of_fmap. exists k. split; [done|]. apply elem_of_seqZ. lia.
  - intros Hge. assert (forall xs m, NCPU <= m -> (forall x, x ∈ xs -> NCPU <= x) -> NCPU <= foldl Z.min m xs) as Hf.
    { clear. induction xs as [|x xs IH]; intros m Hm Hx; [done|]. simpl. apply IH.
      - assert (NCPU <= x) by (apply Hx, elem_of_cons; auto). lia.
      - intros y Hy. apply Hx, elem_of_cons; auto. }
    apply Hf; [done|]. intros x (k' & -> & Hk')%list_elem_of_fmap. apply elem_of_seqZ in Hk'. apply Hge. lia.
Qed.
End balancer.
