(* ===== verification/ProcWitness.v ===== *)
(** * ProcWitness: the theorems at concrete states

    Runs of the model in the environment of Toy.v reach states that satisfy the
    hypotheses of the theorems of LockProps.v, ProcOps.v and ProcFaults.v. *)

From S2P Require Import Prelude KState Spinlock ProcList ProcAbs Proc LockProps ProcInv ProcThm ProcLife ProcFork ProcSys Toy ProcProps ProcOps ProcFaults.

(** The view of a state that the model reaches. *)
Section reach_view.
Context `{K : KEnv Z}.

Definition at_view (ops : list (Z * kop)) (X : listid -> list Z) (a : core Z) : Prop :=
  view (state_after 0 ops) X a ∧
  (forall l, list_ok l = true -> X l = members (kcore (state_after 0 ops)) l) ∧
  a = erase (kcore (state_after 0 ops)).

Lemma reach_view ops : BLNCFLG = false -> starts 0 ops = true -> ∃ X a, at_view ops X a.
Proof.
  intros Hb Hs. pose proof (reachable_sys_inv Hb _ (state_after_reachable 0 ops Hs)) as Hinv.
  destruct (sys_inv_view _ Hinv) as (X & a & Hv). exists X, a. split; [done|].
  destruct Hv as (_ & Hrep & _). split; [|by rewrite (rep_erase _ _ _ Hrep)].
  intros l Hl. by rewrite (rep_members _ _ _ _ Hrep Hl).
Qed.
End reach_view.

#[local] Existing Instance toy.

(** Init runs on hart 0. *)
Definition ops_init : list (Z * kop) := [(0, OpSched RForkret)].
(** Init and a child are queued for CPU 0. *)
Definition ops_two : list (Z * kop) := [(0, OpSched RForkret); (0, OpFork); (0, OpYield)].
(** The child runs on hart 0; init waits for it. *)
Definition ops_child : list (Z * kop) :=
  [(0, OpSched RForkret); (0, OpFork); (0, OpWait 0); (0, OpSched RForkret)].

Lemma init_view : ∃ X a, at_view ops_init X a.
Proof. apply (reach_view _ toy_blnc). vm_compute. reflexivity. Qed.
Lemma two_view : ∃ X a, at_view ops_two X a.
Proof. apply (reach_view _ toy_blnc). vm_compute. reflexivity. Qed.
Lemma child_view : ∃ X a, at_view ops_child X a.
Proof. apply (reach_view _ toy_blnc). vm_compute. reflexivity. Qed.

Lemma cpu0 : 0 <= 0 < NCPU.
Proof. done. Qed.
Lemma cpu1 : 0 <= 1 < NCPU.
Proof. done. Qed.

Ltac at_state := vm_compute; reflexivity.

Lemma scheduler_round_robin_witness : ∃ X a s',
  rounds 0 1 (state_after 0 ops_two) = Ok tt s' ∧ view s' (moved 0 [1] [0] X a) a.
Proof.
  destruct two_view as (X & a & Hv & HX & ->).
  destruct (scheduler_round_robin 0 cpu0 (state_after 0 ops_two) X _ [1] [0] Hv)
    as (s' & Hs & Hv').
  - at_state.
  - rewrite HX by done. at_state.
  - exists X, (erase (kcore (state_after 0 ops_two))), s'. split; [exact Hs|exact Hv'].
Defined.

Lemma yield_spec_witness : ∃ X a s',
  yield_pre 0 (state_after 0 ops_init) = Ok tt s' ∧
  view s' (upd X (LRunnable (cpu_num (procs a 0))) (X (LRunnable (cpu_num (procs a 0))) ++ [0]))
    (on_cpu 0 (set_current None) (on_proc 0 set_runnable a)).
Proof.
  destruct init_view as (X & a & Hv & HX & ->).
  destruct (yield_spec 0 cpu0 (state_after 0 ops_init) X _ 0 Hv) as (s' & Hs & Hv'); [at_state|].
  exists X, (erase (kcore (state_after 0 ops_init))), s'. split; [exact Hs|exact Hv'].
Defined.

Lemma sleep_spec_witness : ∃ X a s',
  (acquire 0 LkWait;; sleep_pre 0 (CAddr 5) LkWait) (state_after 0 ops_init) = Ok tt s' ∧
  view s' (upd X LSleeping (X LSleeping ++ [0]))
    (on_cpu 0 (set_current None) (on_proc 0 (set_sleeping (CAddr 5)) a)).
Proof.
  destruct init_view as (X & a & Hv & HX & ->).
  destruct (sleep_spec 0 cpu0 (state_after 0 ops_init) X _ 0 (CAddr 5) LkWait Hv)
    as (s' & Hs & Hv'); [at_state|done|].
  exists X, (erase (kcore (state_after 0 ops_init))), s'. split; [exact Hs|exact Hv'].
Defined.

Lemma wakeup_spec_witness : ∃ X a s', let ws := sleepers (current 0 a) (CProc 0) all_procs a in
  wakeup 0 (CProc 0) (state_after 0 ops_child) = Ok tt s' ∧ view s' (wake_seqs ws X) (wake_procs ws a) ∧
  ws = [0].
Proof.
  destruct child_view as (X & a & Hv & HX & ->).
  destruct (wakeup_spec 0 cpu0 toy_blnc (state_after 0 ops_child) X _ (CProc 0) Hv) as (s' & Hs & Hv').
  exists X, (erase (kcore (state_after 0 ops_child))), s'.
  split; [exact Hs|]. split; [exact Hv'|]. at_state.
Defined.

Lemma sleep_then_wakeup_witness : ∃ s' X' a',
  ((acquire 0 LkWait;; sleep_pre 0 (CAddr 5) LkWait);; wakeup 1 (CAddr 5)) (state_after 0 ops_init) = Ok tt s' ∧
  view s' X' a' ∧ state (procs a' 0) = RUNNABLE ∧ 0 ∈ X' (LRunnable 0) ∧ 0 ∉ X' LSleeping.
Proof.
  destruct init_view as (X & a & Hv & HX & ->).
  apply (sleep_then_wakeup 1 cpu1 toy_blnc (state_after 0 ops_init) X _ 0 0 (CAddr 5) LkWait Hv);
    [done|at_state|done].
Defined.

Lemma kill_spec_witness : ∃ X a r s' X' a', kill 0 1 (state_after 0 ops_child) = Ok r s' ∧ view s' X' a' ∧
    ((r = -1 ∧ (forall i, ~ has_pid 1 a i) ∧ X' = X ∧ a' = a) ∨
     (r = 0 ∧ ∃ i, has_pid 1 a i ∧ (forall j, j < i -> ~ has_pid 1 a j) ∧ (X', a') = kill_effect i X a)).
Proof.
  destruct child_view as (X & a & Hv & HX & ->). exists X, (erase (kcore (state_after 0 ops_child))).
  exact (kill_spec 0 (state_after 0 ops_child) X _ 1 Hv).
Defined.

Lemma exit_spec_witness : exit 0 3 (state_after 0 ops_child) = Callee ∨
  ∃ s' X' a', exit 0 3 (state_after 0 ops_child) = Ok tt s' ∧ view s' X' a' ∧ current 0 a' = None ∧
    1 ∈ X' LZombie ∧ state (procs a' 1) = ZOMBIE ∧ xstate (procs a' 1) = 3 ∧ closed 1 a' ∧
    forall i, 0 <= i < NPROC -> parent (procs a' i) ≠ Some 1.
Proof.
  destruct child_view as (X & a & Hv & HX & ->).
  apply (exit_spec 0 cpu0 (state_after 0 ops_child) X _ 1 3 toy_blnc Hv); [at_state|].
  assert (initproc (erase (kcore (state_after 0 ops_child))) = Some 0) as Hi by at_state.
  intros Heq. rewrite Hi in Heq. discriminate.
Defined.

(** The child has exited and init is running again, about to collect it. *)
Definition ops_zombie : list (Z * kop) :=
  [(0, OpSched RForkret); (0, OpFork); (0, OpYield); (0, OpSched RForkret); (0, OpExit 3); (0, OpSched RYield)].
Lemma zombie_view : ∃ X a, at_view ops_zombie X a.
Proof. apply (reach_view _ toy_blnc). vm_compute. reflexivity. Qed.

Lemma wait_spec_witness : ∃ X a, current 0 a = Some 0 ∧
  (wait 0 4096 (state_after 0 ops_zombie) = Callee ∨
   ∃ r s' X' a', wait 0 4096 (state_after 0 ops_zombie) = Ok r s' ∧ view s' X' a' ∧
     wait_ends 0 0 4096 X a r [] X' a').
Proof.
  destruct zombie_view as (X & a & Hv & HX & ->). exists X, (erase (kcore (state_after 0 ops_zombie))).
  assert (current 0 (erase (kcore (state_after 0 ops_zombie))) = Some 0) as Hc by at_state.
  split; [exact Hc|].
  exact (wait_spec 0 cpu0 (state_after 0 ops_zombie) X _ 0 4096 Hv Hc).
Defined.

Lemma fork_spec_witness : ∃ X a, nextpid a = 2 ∧
  (fork 0 (state_after 0 ops_init) = Callee ∨
   ∃ r s' X' a', fork 0 (state_after 0 ops_init) = Ok r s' ∧ view s' X' a' ∧
    ((r = -1 ∧ X LUnused = [] ∧ X' = X ∧ a' = a) ∨
     (r = nextpid a ∧ ∃ np, head (X LUnused) = Some np ∧ forked 0 np X a X' a'))).
Proof.
  destruct init_view as (X & a & Hv & HX & ->). exists X, (erase (kcore (state_after 0 ops_init))).
  assert (nextpid (erase (kcore (state_after 0 ops_init))) = 2) as Hn by at_state.
  split; [exact Hn|].
  apply (fork_spec 0 cpu0 (state_after 0 ops_init) X _ 0 toy_blnc Hv); [at_state| |apply toy_memory].
  rewrite Hn. done.
Defined.

(** ** Locks and lists *)
Lemma acquire_release_restores_witness :
  (acquire 2 LkPid;; release 2 LkPid) (KState (boot_core 0) boot_sync) =
    Ok tt (KState (boot_core 0) (saved 2 boot_sync)).
Proof. apply (acquire_release_restores 2 (KState (boot_core 0) boot_sync) LkPid); done. Defined.

(** The locking state with one lock held by hart 0. *)
Definition one_held : sync :=
  boot_sync <| locks ::= fun m => upd m LkPid (Spinlock 1 EmptyString (Some 0)) |>
            <| noff ::= fun f => upd f 0 1 |>.

Lemma acquire_held_witness :
  acquire 3 LkPid (KState (boot_core 0) one_held) = Spin ∧
  acquire 0 LkPid (KState (boot_core 0) one_held) = Panic "acquire".
Proof.
  split.
  - exact (acquire_held 3 (KState (boot_core 0) one_held) LkPid 0 eq_refl eq_refl eq_refl).
  - exact (acquire_held 0 (KState (boot_core 0) one_held) LkPid 0 eq_refl eq_refl eq_refl).
Defined.

(** All lists empty. *)
Definition empty_core : core Z := Core (fun _ => zero_proc) (fun _ => Cpu None (-1) 0) (-1) (-1) (-1) None 1 0.
Definition empty_state : kstate Z := KState empty_core boot_sync.

Lemma empty_rep : rep empty_core (fun _ => []) (erase empty_core).
Proof.
  split; [|intros l l' i _ _ Hi; by apply not_elem_of_nil in Hi|done].
  intros l _. split; [by destruct l|constructor].
Qed.

Lemma add_proc_to_list_spec_witness : ∃ s',
  add_proc_to_list 0 LZombie 5 empty_state = Ok tt s' ∧ lk_inv 0 [] (ksync s') ∧
  rep (kcore s') (upd (fun _ => []) LZombie ([] ++ [5])) (erase empty_core).
Proof.
  apply (add_proc_to_list_spec 0 empty_state [] (fun _ => []) (erase empty_core) LZombie 5);
    [apply boot_sync_inv|apply empty_rep|done|apply not_elem_of_nil|intros; apply not_elem_of_nil
    |intros; apply not_elem_of_nil|done].
Defined.

(** The zombie list holds process 5 only. *)
Definition single_core : core Z :=
  Core (fun _ => zero_proc <| next_index_in_list := -1 |>) (fun _ => Cpu None (-1) 0) (-1) 5 (-1) None 1 0.
Definition single_lists : listid -> list Z := upd (fun _ => []) LZombie [5].

Lemma single_rep : rep single_core single_lists (erase single_core).
Proof.
  assert (Hin : forall l i, i ∈ single_lists l -> l = LZombie).
  { intros l i. unfold single_lists, upd. case_decide; [done|]. by intros ?%not_elem_of_nil. }
  split; [|intros l l' i _ _ Hi Hi'; by rewrite (Hin _ _ Hi), (Hin _ _ Hi')|done].
  intros l _. split; [destruct l; simpl; try done|].
  unfold single_lists, upd. case_decide; [apply NoDup_singleton|constructor].
Qed.

Lemma remove_proc_from_list_spec_witness : ∃ s',
  remove_proc_from_list 0 LZombie 5 (KState single_core boot_sync) = Ok tt s' ∧ lk_inv 0 [] (ksync s') ∧
  rep (kcore s') (upd single_lists LZombie (without 5 (single_lists LZombie))) (erase single_core).
Proof.
  apply (remove_proc_from_list_spec 0 (KState single_core boot_sync) [] single_lists (erase single_core) LZombie 5);
    [apply boot_sync_inv|apply single_rep|done|apply not_elem_of_nil|intros; apply not_elem_of_nil
    |by apply list_elem_of_singleton].
Defined.

Lemma remove_absent_faults_witness :
  remove_proc_from_list 0 LZombie 6 (KState single_core boot_sync) = OutOfBounds.
Proof.
  apply (remove_absent_faults 0 (KState single_core boot_sync) [] single_lists (erase single_core) LZombie 6);
    [apply boot_sync_inv|apply single_rep|done|apply not_elem_of_nil|intros; apply not_elem_of_nil| |done].
  by intros ?%list_elem_of_singleton.
Defined.

(** ** Faults *)

(** Memory for the first process and no more. *)
Definition toy_small : KEnv Z := toy_env false (Some 2).

Lemma small_view : ∃ X a, @at_view toy_small ops_init X a.
Proof. apply (@reach_view toy_small _ eq_refl). vm_compute. reflexivity. Qed.

Lemma fork_out_of_memory_witness :
  @fork Z toy_small 0 (@state_after Z toy_small 0 ops_init) = Panic "Trying to remove from an empty list".
Proof.
  destruct small_view as (X & a & Hv & HX & ->).
  assert (X LUnused = 1 :: seqZ 2 62) as Hu by (rewrite HX by reflexivity; at_state).
  assert (X LZombie = []) as Hz by (rewrite HX by reflexivity; at_state).
  assert (Hf := @fork_out_of_memory Z toy_small 0 cpu0 (@state_after Z toy_small 0 ops_init) X _ 0 1 (seqZ 2 62) 2 Hv).
  unfold oom_fault in Hf. rewrite Hz in Hf. apply Hf; [at_state|exact Hu|at_state|at_state|at_state].
Defined.

Lemma kill_zero_witness : ∃ X s' a' i, kill 0 0 (state_after 0 ops_init) = Ok 0 s' ∧ view s' X a' ∧
  i ∈ X LUnused ∧ killed (procs a' i) = 1.
Proof.
  destruct init_view as (X & a & Hv & HX & ->). exists X.
  assert (X LUnused = 1 :: seqZ 2 62) as Hu by (rewrite HX by reflexivity; at_state).
  apply (kill_zero 0 (state_after 0 ops_init) X _ Hv). rewrite Hu. discriminate.
Defined.

Lemma setcpu_unchecked_witness :
  (∃ s', setcpu 0 100 (state_after 0 ops_init) = Ok 100 s') ∧
  (setcpu 0 100;; yield_pre 0) (state_after 0 ops_init) = OutOfBounds.
Proof.
  destruct init_view as (X & a & Hv & HX & ->).
  apply (setcpu_unchecked 0 cpu0 (state_after 0 ops_init) X _ 0 100 Hv); [at_state|].
  intros [_ Hlt]. discriminate Hlt.
Defined.

Lemma allocproc_deadlock_witness : ∃ s1 s2,
  allocproc_pick 0 (state_after 0 ops_init) = Ok (Some 1) s1 ∧
  (acquire 1 (LkList LUnused);; get_first LUnused) s1 = Ok 1 s2 ∧
  acquire 1 (LkProc 1) s2 = Spin ∧ allocproc_found 0 1 s2 = Spin.
Proof.
  destruct init_view as (X & a & Hv & HX & ->).
  assert (X LUnused = 1 :: seqZ 2 62) as Hu by (rewrite HX by reflexivity; at_state).
  refine (allocproc_deadlock 0 1 _ (state_after 0 ops_init) X _ 1 (seqZ 2 62) Hv Hu). discriminate.
Defined.

Lemma leastUsedCpu_is_count_witness : ∃ v,
  let s := KState (E := Z) ((boot_core 0) <| cpus := fun k => Cpu None 0 (if k =? 5 then 0 else k + 20) |>) boot_sync in
  leastUsedCpu s = Ok v s ∧ v = foldl Z.min NPROC (counts (seqZ 0 NCPU) s) ∧
    ((∃ k, 0 <= k < NCPU ∧ procCount (cpus (kcore s) k) = 0) -> v = 0) ∧
    ((forall k, 0 <= k < NCPU -> NCPU <= procCount (cpus (kcore s) k)) -> NCPU <= v).
Proof.
  apply (leastUsedCpu_is_count (KState (E := Z)
    ((boot_core 0) <| cpus := fun k => Cpu None 0 (if k =? 5 then 0 else k + 20) |>) boot_sync)).
  intros k [Hk1 Hk2]. unfold NCPU in Hk2. cbn. destruct (k =? 5); lia.
Defined.
