(* ===== verification/Bytes.v ===== *)
(** * Bytes: integers in memory

    Little-endian integers of 2 and 4 bytes inside a sequence of bytes, as the
    kernel reads and writes them through structure pointers into disk blocks. *)

From S2P Require Import Prelude.

(** A byte sequence as an array: out of range reads give 0 and writes are
    dropped; the models check the range first where the code could leave it. *)
Definition byte_at (bs : list Z) (i : Z) : Z :=
  if 0 <=? i then default 0 (bs !! Z.to_nat i) else 0.
Definition put_byte (bs : list Z) (i v : Z) : list Z :=
  if 0 <=? i then <[Z.to_nat i := u8 v]> bs else bs.

Fixpoint get_le (n : nat) (bs : list Z) (off : Z) : Z :=
  match n with
  | O => 0
  | S n' => byte_at bs off + 256 * get_le n' bs (off + 1)
  end.

Fixpoint put_le (n : nat) (bs : list Z) (off v : Z) : list Z :=
  match n with
  | O => bs
  | S n' => put_le n' (put_byte bs off v) (off + 1) (v / 256)
  end.

Definition get32 (bs : list Z) (off : Z) : Z := get_le 4 bs off.
Definition put32 (bs : list Z) (off v : Z) : list Z := put_le 4 bs off v.
Definition get16 (bs : list Z) (off : Z) : Z := get_le 2 bs off.
Definition put16 (bs : list Z) (off v : Z) : list Z := put_le 2 bs off v.

(** Signed readings. *)
Definition get_int (bs : list Z) (off : Z) : Z := i32 (get32 bs off).
Definition i16 (z : Z) : Z := (z + 2^15) mod 2^16 - 2^15.
Definition get_short (bs : list Z) (off : Z) : Z := i16 (get16 bs off).

Lemma length_put_byte bs i v : length (put_byte bs i v) = length bs.
Proof. unfold put_byte. destruct (0 <=? i); [apply length_insert|done]. Qed.

Lemma byte_put_eq bs i v :
  0 <= i < Z.of_nat (length bs) -> byte_at (put_byte bs i v) i = u8 v.
Proof.
  intros Hi. unfold byte_at, put_byte. assert ((0 <=? i) = true) as -> by lia.
  rewrite list_lookup_insert_eq by lia. done.
Qed.

Lemma byte_put_ne bs i j v : i ≠ j -> byte_at (put_byte bs i v) j = byte_at bs j.
Proof.
  intros Hne. unfold byte_at, put_byte. destruct (0 <=? j) eqn:Hj; [|done].
  destruct (0 <=? i) eqn:Hi; [|done]. rewrite list_lookup_insert_ne by lia. done.
Qed.

Lemma length_put_le n bs off v : length (put_le n bs off v) = length bs.
Proof.
  revert bs off v. induction n as [|n IH]; intros bs off v; simpl; [done|].
  by rewrite IH, length_put_byte.
Qed.

Lemma byte_put_le_ne n bs off v j :
  j < off ∨ off + Z.of_nat n <= j -> byte_at (put_le n bs off v) j = byte_at bs j.
Proof.
  revert bs off v. induction n as [|n IH]; intros bs off v Hj; simpl; [done|].
  rewrite IH by lia. apply byte_put_ne. lia.
Qed.

(** Reading bytes that were not written. *)
Lemma get_le_ext n bs bs' off :
  (forall j, off <= j < off + Z.of_nat n -> byte_at bs j = byte_at bs' j) -> get_le n bs off = get_le n bs' off.
Proof.
  revert off. induction n as [|n IH]; intros off Hj; simpl; [done|].
  rewrite (Hj off), (IH (off + 1)) by (intros; try apply Hj; lia). done.
Qed.

Lemma get_put_le_ne n m bs off off' v :
  off' + Z.of_nat m <= off ∨ off + Z.of_nat n <= off' ->
  get_le m (put_le n bs off v) off' = get_le m bs off'.
Proof. intros Ho. apply get_le_ext. intros j Hj. apply byte_put_le_ne. lia. Qed.

Lemma get_put_le n bs off v :
  0 <= off -> off + Z.of_nat n <= Z.of_nat (length bs) ->
  get_le n (put_le n bs off v) off = v mod 256 ^ Z.of_nat n.
Proof.
  revert bs off v. induction n as [|n IH]; intros bs off v H0 Hlen; simpl.
  - by rewrite Z.mod_1_r.
  - rewrite byte_put_le_ne, byte_put_eq by lia. rewrite IH by (rewrite ?length_put_byte; lia).
    unfold u8. replace (Z.of_nat (S n)) with (1 + Z.of_nat n) by lia.
    rewrite Z.pow_add_r, Z.pow_1_r by lia.
    change (2^8) with 256. rewrite Z.rem_mul_r by lia. done.
Qed.

Lemma get_le_bounds n bs off :
  (forall j, 0 <= byte_at bs j < 256) -> 0 <= get_le n bs off < 256 ^ Z.of_nat n.
Proof.
  intros Hb. revert off. induction n as [|n IH]; intros off; simpl; [lia|].
  specialize (IH (off + 1)). specialize (Hb off).
  replace (Z.of_nat (S n)) with (1 + Z.of_nat n) by lia.
  rewrite Z.pow_add_r, Z.pow_1_r by lia. lia.
Qed.

Lemma get_put32 bs off v :
  0 <= off -> off + 4 <= Z.of_nat (length bs) -> get32 (put32 bs off v) off = u32 v.
Proof. intros H0 Hlen. unfold get32, put32. rewrite get_put_le by lia. done. Qed.

Lemma get_put32_ne bs off off' v :
  off' + 4 <= off ∨ off + 4 <= off' -> get32 (put32 bs off v) off' = get32 bs off'.
Proof. intros Ho. unfold get32, put32. apply get_put_le_ne. lia. Qed.

Lemma i32_u32 v : i32 (u32 v) = i32 v.
Proof. unfold i32, u32. rewrite Z.add_mod_idemp_l by lia. done. Qed.

Lemma length_put32 bs off v : length (put32 bs off v) = length bs.
Proof. apply length_put_le. Qed.
