(* ===== verification/SleepLock.v ===== *)
(** * SleepLock: locks as the components above the scheduler see them

    kernel/sleeplock.c, and spin locks reduced to "held" or "free": outside the
    process subsystem a model describes one kernel thread, for which a spin lock
    that is held by someone else, and a sleep lock that is held, are the same
    thing: the thread does not get further ([Spin]).  A lock is reached through a
    [lens] into the state of the component it belongs to. *)

From S2P Require Import Prelude.

Record lens (S A : Type) := Lens { lget : S -> A; lset : (A -> A) -> S -> S }.
Arguments Lens {S A}.
Arguments lget {S A}.
Arguments lset {S A}.

(** [struct sleeplock]; [sl_lk] is the spin lock inside it. *)
Record sleeplock := Sleeplock { sl_locked : Z; sl_lk : bool; sl_name : string; sl_pid : Z }.
#[export] Instance sleeplock_eta : Eta sleeplock :=
  fun r => Sleeplock (sl_locked r) (sl_lk r) (sl_name r) (sl_pid r).

Section locks.
Context {S : Type}.
Abbreviation K := (M S).

Definition acquire_spin (l : lens S bool) : K unit := fun s =>
  if lget l s then Spin else Ok tt (lset l (fun _ => true) s).
Definition release_spin (l : lens S bool) : K unit := fun s =>
  if lget l s then Ok tt (lset l (fun _ => false) s) else Panic "release".

Definition lk_of (l : lens S sleeplock) : lens S bool :=
  Lens (fun s => sl_lk (lget l s)) (fun f => lset l (fun k => k <| sl_lk ::= f |>)).

Definition initsleeplock (l : lens S sleeplock) (nm : string) : K unit :=
  modify (lset l (fun k => k <| sl_lk := false |>));;
  modify (lset l (fun k => k <| sl_name := nm |>));;
  modify (lset l (fun k => k <| sl_locked := 0 |>));;
  modify (lset l (fun k => k <| sl_pid := 0 |>)).

(** [wakeup(chan)] changes the states of other processes (Proc.v), none of which
    is part of the state of the components above the scheduler. *)
Definition wakeup_others : K unit := mret tt.

(** [pid] is [myproc()->pid]. *)
Definition acquiresleep (l : lens S sleeplock) (pid : Z) : K unit :=
  acquire_spin (lk_of l);;
  k ← gets (lget l);
  (* while (lk->locked) sleep(lk, &lk->lk); *)
  if negb (sl_locked k =? 0) then spin else
  modify (lset l (fun k => k <| sl_locked := 1 |>));;
  modify (lset l (fun k => k <| sl_pid := pid |>));;
  release_spin (lk_of l).

Definition releasesleep (l : lens S sleeplock) : K unit :=
  acquire_spin (lk_of l);;
  modify (lset l (fun k => k <| sl_locked := 0 |>));;
  modify (lset l (fun k => k <| sl_pid := 0 |>));;
  wakeup_others;;
  release_spin (lk_of l).

Definition holdingsleep (l : lens S sleeplock) (pid : Z) : K bool :=
  acquire_spin (lk_of l);;
  k ← gets (lget l);
  let r := negb (sl_locked k =? 0) && (sl_pid k =? pid) in
  release_spin (lk_of l);;
  mret r.

(** A lens that behaves like a field. *)
Class LawfulLens {A} (l : lens S A) : Prop := {
  lens_get_set : forall f s, lget l (lset l f s) = f (lget l s);
  lens_set_set : forall f g s, lset l g (lset l f s) = lset l (fun x => g (f x)) s;
  lens_set_id : forall f s, f (lget l s) = lget l s -> lset l f s = s;
  lens_set_ext : forall f g s, f (lget l s) = g (lget l s) -> lset l f s = lset l g s
}.

Definition free_lock (k : sleeplock) : Prop := sl_locked k = 0 ∧ sl_lk k = false.

Lemma acquiresleep_free (l : lens S sleeplock) `{!LawfulLens l} pid s :
  free_lock (lget l s) ->
  acquiresleep l pid s = Ok tt (lset l (fun k => k <| sl_locked := 1 |> <| sl_pid := pid |>) s).
Proof.
  intros [H1 H2]. unfold acquiresleep, mbind, M_bind, acquire_spin, release_spin, gets, modify, lk_of; simpl.
  rewrite H2. simpl. rewrite !lens_get_set. simpl. rewrite H1. change (0 =? 0) with true. simpl.
  rewrite !lens_get_set. simpl. rewrite !lens_set_set. f_equal. apply lens_set_ext.
  destruct (lget l s); simpl in *; subst. done.
Qed.

Lemma acquiresleep_held (l : lens S sleeplock) `{!LawfulLens l} pid s :
  sl_locked (lget l s) ≠ 0 -> acquiresleep l pid s = Spin.
Proof.
  intros H1. unfold acquiresleep, mbind, M_bind, acquire_spin, gets, lk_of; simpl.
  destruct (sl_lk (lget l s)); [done|]. simpl. rewrite lens_get_set. simpl.
  by assert ((sl_locked (lget l s) =? 0) = false) as -> by lia.
Qed.

Lemma holdingsleep_eq (l : lens S sleeplock) `{!LawfulLens l} pid s :
  sl_lk (lget l s) = false ->
  holdingsleep l pid s =
    Ok (negb (sl_locked (lget l s) =? 0) && (sl_pid (lget l s) =? pid)) s.
Proof.
  intros H2. unfold holdingsleep, mbind, M_bind, acquire_spin, release_spin, gets, lk_of, mret, M_ret; simpl.
  rewrite H2. simpl. rewrite !lens_get_set. simpl. rewrite lens_set_set. f_equal.
  apply lens_set_id. destruct (lget l s); simpl in *; subst. done.
Qed.

Lemma releasesleep_eq (l : lens S sleeplock) `{!LawfulLens l} s :
  sl_lk (lget l s) = false ->
  releasesleep l s = Ok tt (lset l (fun k => k <| sl_locked := 0 |> <| sl_pid := 0 |>) s).
Proof.
  intros H2. unfold releasesleep, wakeup_others, mbind, M_bind, mret, M_ret, acquire_spin, release_spin, modify, lk_of; simpl.
  rewrite H2. simpl. rewrite !lens_get_set. simpl. rewrite !lens_set_set. f_equal. apply lens_set_ext.
  destruct (lget l s); simpl in *; subst. done.
Qed.
End locks.

#[global] Arguments acquiresleep : simpl never.
#[global] Arguments releasesleep : simpl never.
#[global] Arguments holdingsleep : simpl never.
