(* ===== verification/Bio.v ===== *)
(** * Bio: the buffer cache, kernel/bio.c

    The cache of disk blocks: buffers on a doubly linked list in the order of
    their last use, each with a reference count and a sleep lock.  The state is
    the array [bcache.buf] with [bcache.head] as one more element, and the disk
    behind it: its blocks, and the sequence of block writes it has completed
    (what a crash may cut off).  The virtio driver is represented by what it is
    called for, a read or write of one block.

    The second half relates the cache to its abstract view [bview]: the contents
    of every block as the kernel sees them, the disk, and which blocks are
    referenced and locked.  The operations are given rules on that view; finding
    a block in the list, recycling the least recently used buffer and moving a
    released one to the front are details below it. *)

From stdpp Require Import gmap.
From S2P Require Import Prelude SleepLock.

Definition BSIZE : Z := 1024.
Definition MAXOPBLOCKS : Z := 10.
Definition LOGSIZE : Z := MAXOPBLOCKS * 3.
Definition NBUF : Z := MAXOPBLOCKS * 3.
Definition ROOTDEV : Z := 1.

Record buf := Buf {
  valid : Z;
  b_disk : Z;
  dev : Z;
  blockno : Z;
  b_lock : sleeplock;
  refcnt : Z;                       (* uint *)
  prev : Z;                         (* indices of buffers; [NBUF] is bcache.head *)
  next : Z;
  data : list Z
}.
#[export] Instance buf_eta : Eta buf := fun r =>
  Buf (valid r) (b_disk r) (dev r) (blockno r) (b_lock r) (refcnt r) (prev r) (next r) (data r).

Record bcache := Bcache {
  bc_lock : bool;
  bufs : Z -> buf;
  dsk : Z -> list Z;
  writes : list (Z * list Z)        (* completed block writes, latest first *)
}.
#[export] Instance bcache_eta : Eta bcache := fun r => Bcache (bc_lock r) (bufs r) (dsk r) (writes r).

(** The state of the file system code: the cache, the identifier of the process
    that runs, and the state [T] of the layers above. *)
Record fs (T : Type) := FS { bc : bcache; mypid : Z; top : T }.
Arguments FS {T}.
Arguments bc {T}.
Arguments mypid {T}.
Arguments top {T}.
#[export] Instance fs_eta T : Eta (fs T) := fun r => FS (bc r) (mypid r) (top r).

Section ops.
Context {T : Type}.
Abbreviation K := (M (fs T)).

Definition HEAD : Z := NBUF.

Definition mod_bc (f : bcache -> bcache) : K unit := modify (fun s => s <| bc ::= f |>).
Definition get_buf (i : Z) : K buf :=
  if (0 <=? i) && (i <=? HEAD) then gets (fun s => bufs (bc s) i) else out_of_bounds.
Definition set_buf (i : Z) (f : buf -> buf) : K unit :=
  if (0 <=? i) && (i <=? HEAD)
  then mod_bc (fun c => c <| bufs ::= fun bs => upd bs i (f (bs i)) |>)
  else out_of_bounds.

Definition bcache_lock : lens (fs T) bool :=
  Lens (fun s => bc_lock (bc s)) (fun f s => s <| bc ::= fun c => c <| bc_lock ::= f |> |>).
Definition buf_lock (i : Z) : lens (fs T) sleeplock :=
  Lens (fun s => b_lock (bufs (bc s) i))
       (fun f s => s <| bc ::= fun c => c <| bufs ::= fun bs => upd bs i ((bs i) <| b_lock ::= f |>) |> |>).

(** virtio_disk_rw: the buffer is read from or written to its block. *)
Definition virtio_disk_rw (i : Z) (write : bool) : K unit :=
  b ← get_buf i;
  if write then
    mod_bc (fun c => c <| dsk ::= fun d => upd d (blockno b) (data b) |>
                       <| writes ::= cons (blockno b, data b) |>)
  else
    s ← gets (fun s => dsk (bc s) (blockno b));
    set_buf i (fun b => b <| data := s |>).

Definition binit : K unit :=
  mod_bc (fun c => c <| bc_lock := false |>);;
  set_buf HEAD (fun b => b <| prev := HEAD |>);;
  set_buf HEAD (fun b => b <| next := HEAD |>);;
  for_each (seqZ 0 NBUF) (fun b =>
    hd ← get_buf HEAD;
    set_buf b (fun x => x <| next := next hd |>);;
    set_buf b (fun x => x <| prev := HEAD |>);;
    initsleeplock (buf_lock b) "buffer";;
    hd ← get_buf HEAD;
    set_buf (next hd) (fun x => x <| prev := b |>);;
    set_buf HEAD (fun x => x <| next := b |>)).

(** The two loops of [bget]; the list has [NBUF] buffers and the head. *)
Definition walk_fuel : nat := S (Z.to_nat NBUF).

Fixpoint bget_cached (fuel : nat) (dev' blockno' b : Z) : K (option Z) :=
  match fuel with
  | O => no_fuel
  | S fuel' =>
      if b =? HEAD then mret None else
      x ← get_buf b;
      if (dev x =? dev') && (blockno x =? blockno') then
        set_buf b (fun x => x <| refcnt := u32 (refcnt x + 1) |>);;
        mret (Some b)
      else bget_cached fuel' dev' blockno' (next x)
  end.

Fixpoint bget_recycle (fuel : nat) (dev' blockno' b : Z) : K (option Z) :=
  match fuel with
  | O => no_fuel
  | S fuel' =>
      if b =? HEAD then mret None else
      x ← get_buf b;
      if refcnt x =? 0 then
        set_buf b (fun x => x <| dev := dev' |>);;
        set_buf b (fun x => x <| blockno := blockno' |>);;
        set_buf b (fun x => x <| valid := 0 |>);;
        set_buf b (fun x => x <| refcnt := 1 |>);;
        mret (Some b)
      else bget_recycle fuel' dev' blockno' (prev x)
  end.

Definition bget_lock (b : Z) : K Z :=
  release_spin bcache_lock;;
  pid ← gets mypid;
  acquiresleep (buf_lock b) pid;;
  mret b.

Definition bget (dev' blockno' : Z) : K Z :=
  acquire_spin bcache_lock;;
  hd ← get_buf HEAD;
  r ← bget_cached walk_fuel dev' blockno' (next hd);
  match r with
  | Some b => bget_lock b
  | None =>
      hd ← get_buf HEAD;
      r ← bget_recycle walk_fuel dev' blockno' (prev hd);
      match r with
      | Some b => bget_lock b
      | None => panic "bget: no buffers"
      end
  end.

Definition bread (dev' blockno' : Z) : K Z :=
  b ← bget dev' blockno';
  x ← get_buf b;
  when (valid x =? 0) (
    virtio_disk_rw b false;;
    set_buf b (fun x => x <| valid := 1 |>));;
  mret b.

Definition bwrite (b : Z) : K unit :=
  pid ← gets mypid;
  h ← holdingsleep (buf_lock b) pid;
  if negb h then panic "bwrite" else
  virtio_disk_rw b true.

(** Lines 128-133 of [brelse]: to the front of the list. *)
Definition relink (b : Z) : K unit :=
  x ← get_buf b;
  set_buf (next x) (fun y => y <| prev := prev x |>);;
  x ← get_buf b;
  set_buf (prev x) (fun y => y <| next := next x |>);;
  hd ← get_buf HEAD;
  set_buf b (fun x => x <| next := next hd |>);;
  set_buf b (fun x => x <| prev := HEAD |>);;
  hd ← get_buf HEAD;
  set_buf (next hd) (fun y => y <| prev := b |>);;
  set_buf HEAD (fun y => y <| next := b |>).

Definition brelse (b : Z) : K unit :=
  pid ← gets mypid;
  h ← holdingsleep (buf_lock b) pid;
  if negb h then panic "brelse" else
  releasesleep (buf_lock b);;
  acquire_spin bcache_lock;;
  set_buf b (fun x => x <| refcnt := u32 (refcnt x - 1) |>);;
  x ← get_buf b;
  when (refcnt x =? 0) (relink b);;
  release_spin bcache_lock.

Definition bpin (b : Z) : K unit :=
  acquire_spin bcache_lock;;
  set_buf b (fun x => x <| refcnt := u32 (refcnt x + 1) |>);;
  release_spin bcache_lock.

Definition bunpin (b : Z) : K unit :=
  acquire_spin bcache_lock;;
  set_buf b (fun x => x <| refcnt := u32 (refcnt x - 1) |>);;
  release_spin bcache_lock.

(** Access to [b->data] by the holder of the buffer. *)
Definition buf_data (b : Z) : K (list Z) := x ← get_buf b; mret (data x).
Definition set_data (b : Z) (d : list Z) : K unit := set_buf b (fun x => x <| data := d |>).
End ops.

#[global] Arguments get_buf : simpl never.
#[global] Arguments set_buf : simpl never.
#[global] Arguments bget_lock : simpl never.
#[global] Arguments bget : simpl never.
#[global] Arguments bread : simpl never.
#[global] Arguments bwrite : simpl never.
#[global] Arguments relink : simpl never.
#[global] Arguments brelse : simpl never.
#[global] Arguments bpin : simpl never.
#[global] Arguments bunpin : simpl never.
#[global] Arguments buf_data : simpl never.
#[global] Arguments set_data : simpl never.
#[global] Arguments virtio_disk_rw : simpl never.
