(* ===== verification/BioRep.v ===== *)
(** * BioRep: the buffer cache as a map of blocks

    The abstract view of the cache and the rules of its operations on it. *)

From stdpp Require Import gmap.
From S2P Require Import Prelude SleepLock Bio.

(** ** The doubly linked list *)

(** From [a] through [ys] to [b], with back pointers. *)
Fixpoint dseg (nxt prv : Z -> Z) (a : Z) (ys : list Z) (b : Z) : Prop :=
  match ys with
  | [] => nxt a = b ∧ prv b = a
  | y :: ys' => nxt a = y ∧ prv y = a ∧ dseg nxt prv y ys' b
  end.

Lemma dseg_app nxt prv a ys z zs b :
  dseg nxt prv a (ys ++ z :: zs) b <-> dseg nxt prv a ys z ∧ dseg nxt prv z zs b.
Proof. revert a. induction ys as [|y ys IH]; intros a; simpl; [tauto|]. rewrite IH. tauto. Qed.

(** Only the [next] of [a] and [ys] and the [prev] of [ys] and [b] matter. *)
Lemma dseg_ext nxt prv nxt' prv' a ys b :
  (forall x, x ∈ a :: ys -> nxt' x = nxt x) -> (forall x, x ∈ b :: ys -> prv' x = prv x) ->
  dseg nxt prv a ys b -> dseg nxt' prv' a ys b.
Proof.
  revert a. induction ys as [|y ys IH]; intros a Hn Hp; simpl.
  - rewrite (Hn a), (Hp b) by (apply elem_of_cons; auto). done.
  - rewrite (Hn a), (Hp y) by (rewrite ?elem_of_cons; auto).
    intros (H1 & H2 & H3). split; [done|]. split; [done|]. apply IH; [..|done].
    + intros x Hx. apply Hn, elem_of_cons; auto.
    + intros x [->|Hx]%elem_of_cons; apply Hp; rewrite ?elem_of_cons; auto.
Qed.

Lemma dseg_first nxt prv a ys b : dseg nxt prv a ys b -> nxt a = default b (head ys).
Proof. destruct ys; simpl; tauto. Qed.

Lemma dseg_last nxt prv a ys b : dseg nxt prv a ys b -> prv b = default a (last ys).
Proof.
  revert a. induction ys as [|y ys IH]; intros a; [simpl; tauto|].
  intros (H1 & H2 & H3). rewrite (IH y H3). destruct ys; [done|]. simpl.
  by destruct (last (z :: ys)) eqn:He; [|apply last_None in He].
Qed.

Lemma default_last_in (a : Z) ys : default a (last ys) ∈ a :: ys.
Proof.
  destruct (last ys) as [x|] eqn:He; simpl; apply elem_of_cons; [right|auto].
  apply last_Some in He as (l & ->). apply elem_of_app; right. by apply list_elem_of_singleton.
Qed.

Lemma default_head_in (b : Z) zs : default b (head zs) ∈ b :: zs.
Proof. destruct zs; simpl; rewrite ?elem_of_cons; auto. Qed.

(** Taking [i] out of the list: [i->next->prev = i->prev; i->prev->next = i->next]. *)
Lemma dseg_unlink nxt prv a ys i zs b :
  dseg nxt prv a (ys ++ i :: zs) b -> NoDup (ys ++ i :: zs) ->
  a ∉ ys ++ i :: zs -> b ∉ ys ++ i :: zs ->
  dseg (upd nxt (prv i) (nxt i)) (upd prv (nxt i) (prv i)) a (ys ++ zs) b.
Proof.
  revert a. induction ys as [|y ys IH]; intros a Hd Hnd Ha Hb; simpl in *.
  - destruct Hd as (H1 & H2 & H3). rewrite H2. destruct zs as [|z zs]; simpl in *.
    + destruct H3 as [H3 H4]. rewrite H3, !upd_eq. done.
    + destruct H3 as (H3 & H4 & H5). rewrite H3, !upd_eq. split; [done|]. split; [done|].
      rewrite !NoDup_cons, !not_elem_of_cons in *. destruct Ha as (? & ? & ?), Hb as (? & ? & ?), Hnd as (_ & ? & _).
      eapply dseg_ext; [..|exact H5]; intros x [->|Hx]%elem_of_cons; apply upd_ne; try done; by intros ->.
  - destruct Hd as (H1 & H2 & H3). apply NoDup_cons in Hnd as [Hy Hnd].
    rewrite not_elem_of_cons in Ha, Hb. destruct Ha as [Hay Ha], Hb as [Hby Hb].
    specialize (IH y H3 Hnd Hy Hb). apply dseg_app in H3 as [Hd1 Hd2].
    pose proof (dseg_last _ _ _ _ _ Hd1) as Hl. pose proof (dseg_first _ _ _ _ _ Hd2) as Hf.
    split; [|split; [|done]].
    + rewrite upd_ne; [done|]. intros ->. pose proof (default_last_in y ys) as Hin. rewrite <- Hl in Hin.
      apply elem_of_cons in Hin as [Hin|Hin]; [by destruct Hay|]. apply Ha, elem_of_app. auto.
    + rewrite upd_ne; [done|]. intros ->. pose proof (default_head_in b zs) as Hin. rewrite <- Hf in Hin.
      apply elem_of_cons in Hin as [Hin|Hin]; [by destruct Hby|]. apply Hy, elem_of_app. right.
      apply elem_of_cons; auto.
Qed.

(** Putting [i] in front: [i->next = a->next; i->prev = a; a->next->prev = i; a->next = i]. *)
Lemma dseg_push nxt prv a ys i b :
  dseg nxt prv a ys b -> i ∉ ys -> i ≠ a -> i ≠ b -> a ∉ ys -> b ∉ ys -> NoDup ys ->
  dseg (upd (upd nxt i (nxt a)) a i) (upd (upd prv i a) (nxt a) i) a (i :: ys) b.
Proof.
  intros Hd Hi Hia Hib Ha Hb Hnd. pose proof (dseg_first _ _ _ _ _ Hd) as Hf. simpl.
  assert (Hin : nxt a ∈ b :: ys) by (rewrite Hf; apply default_head_in).
  assert (Hni : i ≠ nxt a) by (intros ->; apply elem_of_cons in Hin as [?|?]; congruence).
  split; [apply upd_eq|]. split; [by rewrite upd_ne, upd_eq|].
  destruct ys as [|y ys]; simpl in *.
  - destruct Hd as [H1 H2]. rewrite H1, upd_ne, !upd_eq by done. done.
  - destruct Hd as (H1 & H2 & H3). rewrite H1 in *. rewrite upd_ne, !upd_eq by done.
    split; [done|]. split; [done|]. apply NoDup_cons in Hnd as [Hy Hnd].
    rewrite not_elem_of_cons in Hi, Ha, Hb.
    eapply dseg_ext; [..|exact H3]; intros x [->|Hx]%elem_of_cons; rewrite !upd_ne; try done;
      try (by intros ->); intuition congruence.
Qed.

(** Walking the list forwards and backwards. *)
Fixpoint path (f : Z -> Z) (b : Z) (zs : list Z) : Prop :=
  match zs with
  | [] => b = HEAD
  | z :: zs' => b = z ∧ 0 <= z < NBUF ∧ path f (f z) zs'
  end.

Lemma dseg_path nxt prv a ys :
  dseg nxt prv a ys HEAD -> (forall y, y ∈ ys -> 0 <= y < NBUF) -> path nxt (nxt a) ys.
Proof.
  revert a. induction ys as [|y ys IH]; intros a Hd Hr; simpl in *; [tauto|].
  destruct Hd as (H1 & H2 & H3). split; [done|]. split; [apply Hr, elem_of_cons; auto|].
  rewrite <- H1 at 1. rewrite H1. apply IH; [done|]. intros x Hx. apply Hr, elem_of_cons; auto.
Qed.

Lemma dseg_path_back nxt prv ys b :
  dseg nxt prv HEAD ys b -> (forall y, y ∈ ys -> 0 <= y < NBUF) -> path prv (prv b) (reverse ys).
Proof.
  revert b. induction ys as [|y ys IH] using rev_ind; intros b Hd Hr; simpl in *; [tauto|].
  apply dseg_app in Hd as [H1 H2]. simpl in H2. rewrite reverse_snoc. simpl.
  split; [tauto|]. split; [apply Hr, elem_of_app; right; by apply list_elem_of_singleton|].
  apply IH; [done|]. intros x Hx. apply Hr, elem_of_app; auto.
Qed.

(** ** The loops of bget *)
Section loops.
Context {T : Type}.
Implicit Types (s : fs T) (c : bcache).

Definition on_buf (i : Z) (f : buf -> buf) c : bcache := c <| bufs ::= fun bs => upd bs i (f (bs i)) |>.
Definition with_bc c s : fs T := s <| bc := c |>.

Definition holds (d b : Z) c (i : Z) : Prop := dev (bufs c i) = d ∧ blockno (bufs c i) = b.
#[global] Instance holds_dec d b c i : Decision (holds d b c i).
Proof. unfold holds. apply _. Defined.

Definition incref (x : buf) : buf := x <| refcnt := u32 (refcnt x + 1) |>.
Definition recycle (d b : Z) (x : buf) : buf :=
  x <| dev := d |> <| blockno := b |> <| valid := 0 |> <| refcnt := 1 |>.

Lemma get_buf_eq i s : 0 <= i <= HEAD -> get_buf i s = Ok (bufs (bc s) i) s.
Proof. intros Hi. unfold get_buf. by assert ((0 <=? i) && (i <=? HEAD) = true) as -> by lia. Qed.

Lemma set_buf_eq i f s : 0 <= i <= HEAD -> set_buf i f s = Ok tt (with_bc (on_buf i f (bc s)) s).
Proof. intros Hi. unfold set_buf. by assert ((0 <=? i) && (i <=? HEAD) = true) as -> by lia. Qed.

Lemma bget_cached_eq fuel d b zs x s :
  path (fun i => next (bufs (bc s) i)) x zs -> (length zs < fuel)%nat ->
  bget_cached fuel d b x s =
    match head (filter (holds d b (bc s)) zs) with
    | Some i => Ok (Some i) (with_bc (on_buf i incref (bc s)) s)
    | None => Ok None s
    end.
Proof.
  revert fuel x. induction zs as [|z zs IH]; intros [|fuel] x Hp Hl; simpl in *; try lia.
  - subst x. done.
  - destruct Hp as (-> & Hz & Hp). assert ((z =? HEAD) = false) as -> by (unfold HEAD; lia).
    unfold mbind, M_bind. rewrite get_buf_eq by (unfold HEAD; lia).
    rewrite filter_cons. destruct (decide (holds d b (bc s) z)) as [[H1 H2]|Hn].
    + rewrite H1, H2, !Z.eqb_refl. simpl. rewrite set_buf_eq by (unfold HEAD; lia). done.
    + assert ((dev (bufs (bc s) z) =? d) && (blockno (bufs (bc s) z) =? b) = false) as ->.
      { apply andb_false_iff. unfold holds in Hn. destruct (decide (dev (bufs (bc s) z) = d)); lia. }
      apply IH; [done|lia].
Qed.

Lemma bget_recycle_eq fuel d b zs x s :
  path (fun i => prev (bufs (bc s) i)) x zs -> (length zs < fuel)%nat ->
  bget_recycle fuel d b x s =
    match head (filter (fun i => refcnt (bufs (bc s) i) = 0) zs) with
    | Some i => Ok (Some i) (with_bc (on_buf i (recycle d b) (bc s)) s)
    | None => Ok None s
    end.
Proof.
  revert fuel x. induction zs as [|z zs IH]; intros [|fuel] x Hp Hl; simpl in *; try lia.
  - subst x. done.
  - destruct Hp as (-> & Hz & Hp). assert ((z =? HEAD) = false) as -> by (unfold HEAD; lia).
    unfold mbind, M_bind. rewrite get_buf_eq by (unfold HEAD; lia).
    rewrite filter_cons. destruct (decide (refcnt (bufs (bc s) z) = 0)) as [H1|Hn].
    + rewrite H1. change (0 =? 0) with true. simpl. rewrite !set_buf_eq by (unfold HEAD; lia).
      unfold mret, M_ret. f_equal. unfold with_bc, on_buf, recycle, setter; cbn. rewrite !upd_upd, !upd_eq. done.
    + assert ((refcnt (bufs (bc s) z) =? 0) = false) as -> by lia. apply IH; [done|lia].
Qed.

#[global] Instance buf_lock_lawful i : LawfulLens (S := fs T) (buf_lock i).
Proof.
  split.
  - intros f s. simpl. by rewrite upd_eq.
  - intros f g s. unfold buf_lock, setter; cbn. by rewrite upd_upd, upd_eq.
  - intros f s Hf. destruct s as [[l bs d w] p t]. unfold buf_lock, setter in *; cbn in *.
    rewrite upd_same; [done|]. rewrite Hf. by destruct (bs i).
  - intros f g s Hf. unfold buf_lock, setter in *; cbn in *. by rewrite Hf.
Qed.
End loops.

(** ** The abstract view *)
Record bview := BView {
  vdisk : Z -> list Z;                   (* the disk *)
  vwrites : list (Z * list Z);
  vcont : Z -> list Z;                   (* the blocks as the kernel sees them *)
  vrefs : gmap Z Z;                      (* blocks in use, with reference counts *)
  vheld : gmap Z Z;                      (* locked blocks, with the process that holds them *)
  vbuf : Z -> Z                          (* the buffer of a block in use *)
}.
#[export] Instance bview_eta : Eta bview := fun r =>
  BView (vdisk r) (vwrites r) (vcont r) (vrefs r) (vheld r) (vbuf r).

Definition dll (c : bcache) (xs : list Z) : Prop :=
  dseg (fun i => next (bufs c i)) (fun i => prev (bufs c i)) HEAD xs HEAD.

Definition lock_view (h : option Z) (k : sleeplock) : Prop :=
  match h with
  | Some p => sl_locked k = 1 ∧ sl_pid k = p
  | None => sl_locked k = 0
  end.

(** What the view says of block [b], held in buffer [i]. *)
Definition slot_ok (v : bview) (i : Z) (x : buf) : Prop :=
  let b := blockno x in
  (valid x ≠ 0 -> data x = vcont v b) ∧ lock_view (vheld v !! b) (b_lock x) ∧
  if decide (refcnt x = 0)
  then vrefs v !! b = None ∧ vheld v !! b = None
  else vrefs v !! b = Some (refcnt x) ∧ vbuf v b = i ∧ valid x ≠ 0.

Record brep (c : bcache) (v : bview) : Prop := {
  br_lock : bc_lock c = false;
  br_list : ∃ xs, dll c xs ∧ xs ≡ₚ seqZ 0 NBUF;
  br_disk : dsk c = vdisk v;
  br_writes : writes c = vwrites v;
  br_lks : forall i, 0 <= i < NBUF -> sl_lk (b_lock (bufs c i)) = false;
  br_ref : forall i, 0 <= i < NBUF -> 0 <= refcnt (bufs c i) < 2^31;
  br_uniq : forall i j b, 0 <= i < NBUF -> 0 <= j < NBUF ->
    holds ROOTDEV b c i -> holds ROOTDEV b c j -> i = j;
  br_slot : forall i, 0 <= i < NBUF -> dev (bufs c i) = ROOTDEV -> slot_ok v i (bufs c i);
  br_other : forall i, 0 <= i < NBUF -> dev (bufs c i) ≠ ROOTDEV ->
    refcnt (bufs c i) = 0 ∧ sl_locked (b_lock (bufs c i)) = 0;
  br_in_use : forall b n, vrefs v !! b = Some n ->
    0 <= vbuf v b < NBUF ∧ holds ROOTDEV b c (vbuf v b) ∧ refcnt (bufs c (vbuf v b)) ≠ 0;
  br_held : forall b p, vheld v !! b = Some p -> ∃ n, vrefs v !! b = Some n;
  br_clean : forall b, vrefs v !! b = None -> vcont v b = vdisk v b
}.

(** The views [v] and [v'] agree except on block [b]. *)
Record agree_except (b : Z) (v v' : bview) : Prop := {
  ae_disk : vdisk v' = vdisk v;
  ae_writes : vwrites v' = vwrites v;
  ae_cont : forall b', b' ≠ b -> vcont v' b' = vcont v b';
  ae_refs : forall b', b' ≠ b -> vrefs v' !! b' = vrefs v !! b';
  ae_held : forall b', b' ≠ b -> vheld v' !! b' = vheld v !! b';
  ae_buf : forall b', b' ≠ b -> vbuf v' b' = vbuf v b'
}.

(** A change of one buffer, which then holds block [b]. *)
Lemma brep_update c v v' i f b :
  brep c v -> 0 <= i < NBUF -> agree_except b v v' ->
  let x := bufs c i in let x' := f x in
  next x' = next x -> prev x' = prev x -> sl_lk (b_lock x') = false -> 0 <= refcnt x' < 2^31 ->
  dev x' = ROOTDEV -> blockno x' = b ->
  (forall j, 0 <= j < NBUF -> j ≠ i -> ~ holds ROOTDEV b c j) ->
  (holds ROOTDEV b c i ∨ refcnt x = 0) ->
  slot_ok v' i x' -> (refcnt x' = 0 -> vcont v' b = vdisk v' b) ->
  brep (on_buf i f c) v'.
Proof.
  intros [R1 R2 R3 R4 R5 R6 R7 R8 R9 R10 R11 R12] Hi [A1 A2 A3 A4 A5 A6] x x' F1 F2 F3 F4 F5 F6 Huniq Hold Hslot Hclean.
  assert (Hx : forall j, bufs (on_buf i f c) j = if decide (j = i) then x' else bufs c j).
  { intros j. unfold on_buf; simpl. unfold upd. by case_decide. }
  assert (Hnp : (fun j => next (bufs (on_buf i f c) j)) = (fun j => next (bufs c j)) ∧
                (fun j => prev (bufs (on_buf i f c) j)) = (fun j => prev (bufs c j))).
  { split; apply functional_extensionality; intros j; rewrite Hx; case_decide; subst; done. }
  assert (Hdev : forall j, 0 <= j < NBUF -> j ≠ i -> dev (bufs c j) = ROOTDEV -> blockno (bufs c j) ≠ b).
  { intros j Hj Hji Hd Hb. by apply (Huniq j Hj Hji). }
  unfold slot_ok in Hslot. rewrite F6 in Hslot. destruct Hslot as (S1 & S2 & S3).
  (* the old block of the buffer is still not in use *)
  assert (Hin : forall b' n, b' ≠ b -> vrefs v' !! b' = Some n ->
    0 <= vbuf v' b' < NBUF ∧ holds ROOTDEV b' c (vbuf v' b') ∧ refcnt (bufs c (vbuf v' b')) ≠ 0 ∧ vbuf v' b' ≠ i).
  { intros b' n Hb' Hn. rewrite A4 in Hn by done. rewrite A6 by done.
    destruct (R10 b' n Hn) as (H1 & H2 & H3). split; [done|]. split; [done|]. split; [done|].
    intros Hvi. rewrite Hvi in *. destruct Hold as [[_ Ho]|Ho]; [|done]. destruct H2 as [_ H2].
    apply Hb'. congruence. }
  split.
  - done.
  - destruct R2 as (xs & Hd & Hxs). exists xs. split; [|done]. unfold dll in *.
    destruct Hnp as [-> ->]. done.
  - rewrite A1. done.
  - rewrite A2. done.
  - intros j Hj. rewrite Hx. destruct (decide (j = i)); auto.
  - intros j Hj. rewrite Hx. destruct (decide (j = i)); auto.
  - intros j k b' Hj Hk [D1 B1] [D2 B2]. rewrite Hx in *.
    destruct (decide (j = i)) as [->|Hji], (decide (k = i)) as [->|Hki]; try done.
    + destruct (Hdev k Hk Hki D2). congruence.
    + destruct (Hdev j Hj Hji D1). congruence.
    + by apply (R7 j k b').
  - intros j Hj. rewrite Hx. destruct (decide (j = i)) as [Hji|Hji].
    + subst j. intros _. unfold slot_ok. rewrite F6. done.
    + intros Hd. specialize (R8 j Hj Hd). specialize (Hdev j Hj Hji Hd). unfold slot_ok in *.
      rewrite A3, A4, A5, A6 by done. done.
  - intros j Hj. rewrite Hx. destruct (decide (j = i)) as [Hji|Hji]; [done|]. auto.
  - intros b' n Hn. destruct (decide (b' = b)) as [->|Hb'].
    + destruct (decide (refcnt x' = 0)) as [Hz|Hz]; [destruct S3; congruence|].
      destruct S3 as (S3 & S4 & S5). rewrite S4. split; [done|]. unfold holds. by rewrite Hx, decide_True.
    + destruct (Hin b' n Hb' Hn) as (H1 & H2 & H3 & H4). split; [done|]. unfold holds in *.
      by rewrite Hx, decide_False.
  - intros b' p Hp. destruct (decide (b' = b)) as [->|Hb'].
    + destruct (decide (refcnt x' = 0)) as [Hz|Hz]; [destruct S3; congruence|]. destruct S3 as (S3 & _). eauto.
    + rewrite A5 in Hp by done. rewrite A4 by done. by apply (R11 b' p).
  - intros b' Hn. destruct (decide (b' = b)) as [->|Hb'].
    + destruct (decide (refcnt x' = 0)) as [Hz|Hz]; [auto|]. destruct S3 as (S3 & _). congruence.
    + rewrite A1, A3 by done. apply R12. by rewrite <- A4.
Qed.

(** ** bget and bread *)
Section bread.
Context {T : Type}.
Implicit Types (s : fs T) (c : bcache) (v : bview).

Lemma on_buf_on_buf i (f g : buf -> buf) c : on_buf i g (on_buf i f c) = on_buf i (fun x => g (f x)) c.
Proof. unfold on_buf, setter; cbn. by rewrite upd_upd, upd_eq. Qed.

Lemma bufs_on_buf i f c : bufs (on_buf i f c) i = f (bufs c i).
Proof. unfold on_buf; simpl. apply upd_eq. Qed.

Definition locked_for (p : Z) (x : buf) : buf :=
  x <| b_lock ::= fun k => k <| sl_locked := 1 |> <| sl_pid := p |> |>.

Definition set_lk (l : bool) c : bcache := c <| bc_lock := l |>.

Lemma set_lk_lk l l' c : set_lk l (set_lk l' c) = set_lk l c.
Proof. done. Qed.

Lemma bget_lock_eq i s :
  bc_lock (bc s) = true -> free_lock (b_lock (bufs (bc s) i)) ->
  bget_lock i s = Ok i (with_bc (on_buf i (locked_for (mypid s)) (set_lk false (bc s))) s).
Proof.
  intros Hl Hf. unfold bget_lock, mbind, M_bind, release_spin, gets; simpl. rewrite Hl.
  rewrite acquiresleep_free; [done|apply _|done].
Qed.

Lemma acquire_bc_eq s :
  bc_lock (bc s) = false -> acquire_spin bcache_lock s = Ok tt (with_bc (set_lk true (bc s)) s).
Proof. intros Hl. unfold acquire_spin; simpl. by rewrite Hl. Qed.

Lemma release_bc_eq s :
  bc_lock (bc s) = true -> release_spin bcache_lock s = Ok tt (with_bc (set_lk false (bc s)) s).
Proof. intros Hl. unfold release_spin; simpl. by rewrite Hl. Qed.

(** The buffer [bget] returns for block [b], and how it was prepared. *)
Definition found (b : Z) c (i : Z) (f : buf -> buf) : Prop :=
  0 <= i < NBUF ∧
  ((holds ROOTDEV b c i ∧ f = incref) ∨
   (refcnt (bufs c i) = 0 ∧ f = recycle ROOTDEV b ∧ forall j, 0 <= j < NBUF -> ~ holds ROOTDEV b c j)).

Lemma head_filter_none {A} (P : A -> Prop) `{forall x, Decision (P x)} (xs : list A) :
  head (filter P xs) = None -> forall x, x ∈ xs -> ~ P x.
Proof.
  intros Hh x Hx HP. assert (Hin : x ∈ filter P xs) by (by apply list_elem_of_filter).
  destruct (filter P xs); [by apply not_elem_of_nil in Hin|done].
Qed.

Lemma head_filter_some {A} (P : A -> Prop) `{forall x, Decision (P x)} (xs : list A) x :
  head (filter P xs) = Some x -> x ∈ xs ∧ P x.
Proof.
  intros Hh. assert (Hin : x ∈ filter P xs).
  { destruct (filter P xs); simplify_eq/=. apply elem_of_cons; auto. }
  apply list_elem_of_filter in Hin. tauto.
Qed.

Lemma nbuf_elem xs i : xs ≡ₚ seqZ 0 NBUF -> i ∈ xs <-> 0 <= i < NBUF.
Proof. intros ->. rewrite elem_of_seqZ. lia. Qed.

Lemma free_if_unheld c v i b :
  brep c v -> 0 <= i < NBUF -> vheld v !! b = None ->
  holds ROOTDEV b c i ∨ refcnt (bufs c i) = 0 -> free_lock (b_lock (bufs c i)).
Proof.
  intros Hb Hi Hh Hor. split; [|by apply (br_lks _ _ Hb)].
  destruct (decide (dev (bufs c i) = ROOTDEV)) as [Hd|Hd]; [|by apply (br_other _ _ Hb i Hi Hd)].
  destruct (br_slot _ _ Hb i Hi Hd) as (_ & S2 & S3).
  destruct Hor as [[_ Hbn]|H0].
  - rewrite Hbn, Hh in S2. done.
  - rewrite H0, decide_True in S3 by done. destruct S3 as [_ S3]. by rewrite S3 in S2.
Qed.

(** With fewer than [NBUF] blocks in use there is a buffer to recycle. *)
Lemma some_unused c v :
  brep c v -> (size (vrefs v) < Z.to_nat NBUF)%nat -> ∃ i, 0 <= i < NBUF ∧ refcnt (bufs c i) = 0.
Proof.
  intros Hb Hsz.
  destruct (decide (Exists (fun i => refcnt (bufs c i) = 0) (seqZ 0 NBUF))) as [Hex|Hno].
  { apply Exists_exists in Hex as (i & Hi%elem_of_seqZ & H0). exists i. split; [lia|done]. }
  exfalso. rewrite <- Forall_Exists_neg, Forall_forall in Hno.
  assert (Hall : forall i, 0 <= i < NBUF -> dev (bufs c i) = ROOTDEV ∧
    vrefs v !! blockno (bufs c i) = Some (refcnt (bufs c i))).
  { intros i Hi. assert (Hr : refcnt (bufs c i) ≠ 0) by (apply Hno, elem_of_seqZ; lia).
    destruct (decide (dev (bufs c i) = ROOTDEV)) as [Hd|Hd]; [|by destruct (br_other _ _ Hb i Hi Hd)].
    split; [done|]. destruct (br_slot _ _ Hb i Hi Hd) as (_ & _ & S3). rewrite decide_False in S3 by done. tauto. }
  set (bl := (fun i => blockno (bufs c i)) <$> seqZ 0 NBUF).
  assert (Hnd : NoDup bl).
  { apply NoDup_fmap_2_strong; [|apply NoDup_seqZ].
    intros i j Hi%elem_of_seqZ Hj%elem_of_seqZ Heq.
    apply (br_uniq _ _ Hb i j (blockno (bufs c j))); [lia|lia|split; [apply Hall; lia|done]..]. }
  assert (Hsub : (list_to_set bl : gset Z) ⊆ dom (vrefs v)).
  { intros b Hb'. rewrite elem_of_list_to_set in Hb'. apply list_elem_of_fmap in Hb' as (i & -> & Hi%elem_of_seqZ).
    apply elem_of_dom. rewrite (proj2 (Hall i ltac:(lia))). done. }
  apply subseteq_size in Hsub. rewrite size_dom, size_list_to_set in Hsub by done.
  unfold bl in Hsub. rewrite length_fmap, length_seqZ in Hsub. lia.
Qed.

Lemma bget_ok s v b :
  brep (bc s) v -> vheld v !! b = None ->
  is_Some (vrefs v !! b) ∨ (size (vrefs v) < Z.to_nat NBUF)%nat ->
  ∃ i f, found b (bc s) i f ∧
    bget ROOTDEV b s = Ok i (with_bc (on_buf i (fun x => locked_for (mypid s) (f x)) (bc s)) s).
Proof.
  intros Hb Hh Havail. destruct s as [c p t]. simpl in *.
  destruct (br_list _ _ Hb) as (xs & Hd & Hxs).
  assert (Hr : forall y, y ∈ xs -> 0 <= y < NBUF) by (intros y; by apply nbuf_elem).
  assert (Hlen : length xs = Z.to_nat NBUF) by (rewrite Hxs; apply length_seqZ).
  pose proof (br_lock _ _ Hb) as Hlk. unfold bget.
  rewrite (bind_Ok _ _ _ _ _ (acquire_bc_eq (FS c p t) Hlk)).
  set (s1 := with_bc _ _). assert (Hs1 : bufs (bc s1) = bufs c) by done.
  rewrite (bind_Ok _ _ _ _ _ (get_buf_eq HEAD s1 ltac:(done))).
  assert (Hback : forall i f, set_lk false (on_buf i f (bc s1)) = on_buf i f c).
  { intros i f. unfold s1, on_buf, set_lk, setter; cbn. rewrite <- Hlk. by destruct c. }
  assert (Hfin : forall i f, (forall x, b_lock (f x) = b_lock x) -> holds ROOTDEV b c i ∨ refcnt (bufs c i) = 0 ->
    0 <= i < NBUF -> bget_lock i (with_bc (on_buf i f (bc s1)) s1) =
      Ok i (with_bc (on_buf i (fun x => locked_for p (f x)) c) (FS c p t))).
  { intros i f Hf Hor Hi. rewrite bget_lock_eq; [|done|].
    - f_equal. simpl. rewrite Hback, on_buf_on_buf. done.
    - simpl. rewrite upd_eq, Hf. by eapply free_if_unheld. }
  pose proof (bget_cached_eq walk_fuel ROOTDEV b xs (next (bufs (bc s1) HEAD)) s1) as Hc.
  rewrite Hs1 in Hc. specialize (Hc (dseg_path _ _ _ _ Hd Hr) ltac:(rewrite Hlen; unfold walk_fuel; lia)).
  destruct (head (filter (holds ROOTDEV b (bc s1)) xs)) as [i|] eqn:Hh1.
  - apply head_filter_some in Hh1 as [Hin Hho]. apply Hr in Hin.
    rewrite Hs1, (bind_Ok _ _ _ _ _ Hc). exists i, incref.
    split; [split; [done|]; left; done|]. apply Hfin; [done|left; done|done].
  - rewrite Hs1, (bind_Ok _ _ _ _ _ Hc), (bind_Ok _ _ _ _ _ (get_buf_eq HEAD s1 ltac:(done))), Hs1.
    assert (Hnone : forall j, 0 <= j < NBUF -> ~ holds ROOTDEV b c j).
    { intros j Hj. apply (head_filter_none _ _ Hh1), (nbuf_elem xs j Hxs); done. }
    pose proof (bget_recycle_eq walk_fuel ROOTDEV b (reverse xs) (prev (bufs c HEAD)) s1) as Hrc.
    rewrite Hs1 in Hrc. specialize (Hrc (dseg_path_back _ _ _ _ Hd Hr)
      ltac:(rewrite length_reverse, Hlen; unfold walk_fuel; lia)).
    destruct (head (filter _ (reverse xs))) as [i|] eqn:Hh2.
    + apply head_filter_some in Hh2 as [Hin Hz]. apply elem_of_reverse, Hr in Hin. rewrite (bind_Ok _ _ _ _ _ Hrc). exists i, (recycle ROOTDEV b).
      split; [split; [done|]; right; done|]. apply Hfin; [done|right; done|done].
    + exfalso. assert (size (vrefs v) < Z.to_nat NBUF)%nat as Hsz.
      { destruct Havail as [[n Hn]|]; [|done]. destruct (br_in_use _ _ Hb b n Hn) as (H1 & H2 & _).
        by destruct (Hnone _ H1). }
      destruct (some_unused _ _ Hb Hsz) as (i & Hi & Hz).
      apply (head_filter_none _ _ Hh2 i); [|done]. rewrite elem_of_reverse. by apply nbuf_elem.
Qed.
End bread.

(** ** Rules on the view *)
Section rules.
Context {T : Type}.
Implicit Types (s : fs T) (c : bcache) (v : bview).

Definition refs_of v (b : Z) : Z := default 0 (vrefs v !! b).

Definition take_block (p b i : Z) v : bview :=
  v <| vrefs ::= <[b := refs_of v b + 1]> |> <| vheld ::= <[b := p]> |> <| vbuf ::= fun g => upd g b i |>.

Lemma agree_take p b i v : agree_except b v (take_block p b i v).
Proof.
  split; try done; intros b' Hb; simpl; rewrite ?lookup_insert_ne by done; try done. by rewrite upd_ne.
Qed.

(** What [bread] makes of the buffer. *)
Definition loaded (d : list Z) (x : buf) : buf :=
  if valid x =? 0 then x <| data := d |> <| valid := 1 |> else x.

Lemma load_eq i s :
  0 <= i < NBUF ->
  (x ← get_buf i;
   when (valid x =? 0) (virtio_disk_rw i false;; set_buf i (fun x => x <| valid := 1 |>));;
   mret i) s =
  Ok i (with_bc (on_buf i (loaded (dsk (bc s) (blockno (bufs (bc s) i)))) (bc s)) s).
Proof.
  intros Hi. rewrite (bind_Ok _ _ _ _ _ (get_buf_eq i s ltac:(unfold HEAD; lia))).
  unfold loaded. destruct (valid (bufs (bc s) i) =? 0) eqn:Hv.
  - unfold when, virtio_disk_rw, mbind, M_bind.
    rewrite get_buf_eq by (unfold HEAD; lia). unfold gets. rewrite !set_buf_eq by (unfold HEAD; lia).
    unfold mret, M_ret. f_equal. unfold with_bc, setter; cbn. rewrite on_buf_on_buf.
    unfold on_buf, setter; cbn. by rewrite Hv.
  - unfold when, mbind, M_bind, mret, M_ret. f_equal. destruct s as [[l bs d w] p t].
    unfold with_bc, on_buf, setter; cbn in *. rewrite Hv. by rewrite upd_same.
Qed.

Lemma in_use_slot c v b n :
  brep c v -> vrefs v !! b = Some n ->
  let i := vbuf v b in let x := bufs c i in
  0 <= i < NBUF ∧ dev x = ROOTDEV ∧ blockno x = b ∧ refcnt x = n ∧ n ≠ 0 ∧ 0 <= n < 2^31 ∧
  valid x ≠ 0 ∧ data x = vcont v b ∧ sl_lk (b_lock x) = false ∧ lock_view (vheld v !! b) (b_lock x).
Proof.
  intros Hb He i x. destruct (br_in_use _ _ Hb b n He) as (U1 & [U2 U3] & U4).
  fold i x in U1, U2, U3, U4. destruct (br_slot _ _ Hb i U1 U2) as (S1 & S2 & S3). fold x in S1, S2, S3.
  rewrite decide_False, U3 in S3 by done. destruct S3 as (S3 & _ & S5).
  assert (n = refcnt x) as -> by congruence. rewrite U3 in S1, S2.
  pose proof (br_ref _ _ Hb i U1). pose proof (br_lks _ _ Hb i U1). repeat (split; [by auto|]). done.
Qed.

Lemma refs_of_nonneg c v b : brep c v -> 0 <= refs_of v b.
Proof.
  intros Hb. unfold refs_of. destruct (vrefs v !! b) as [n|] eqn:He; [|done]. simpl.
  destruct (in_use_slot _ _ _ _ Hb He) as (_ & _ & _ & _ & _ & ? & _). lia.
Qed.

(** The buffer that [bget] chose, prepared. *)
Lemma found_buf c v b i f :
  brep c v -> refs_of v b + 1 < 2^31 -> found b c i f ->
  let x := bufs c i in
  dev (f x) = ROOTDEV ∧ blockno (f x) = b ∧ refcnt (f x) = refs_of v b + 1 ∧
  next (f x) = next x ∧ prev (f x) = prev x ∧ b_lock (f x) = b_lock x ∧
  (valid (f x) ≠ 0 -> data (f x) = vcont v b) ∧ (valid (f x) = 0 -> vcont v b = vdisk v b).
Proof.
  intros Hb Hn [Hi Hf] x. destruct Hf as [[[H1 H2] ->]|(H1 & -> & Hno)]; fold x in H1.
  - fold x in H2. destruct (br_slot _ _ Hb i Hi H1) as (S1 & _ & S3). fold x in S1, S3. rewrite H2 in S1, S3.
    pose proof (br_ref _ _ Hb i Hi) as Hrc. fold x in Hrc.
    repeat split; simpl; try done.
    + unfold refs_of in *. destruct (decide (refcnt x = 0)) as [Hz|Hz].
      * destruct S3 as [-> _]. by rewrite Hz.
      * destruct S3 as [Hs3 _]. rewrite Hs3 in *. simpl in *. unfold u32. rewrite Z.mod_small by lia. done.
    + intros Hv0. apply (br_clean _ _ Hb). destruct (decide (refcnt x = 0)); tauto.
  - assert (Hnone : vrefs v !! b = None).
    { destruct (vrefs v !! b) as [n|] eqn:He; [|done]. destruct (br_in_use _ _ Hb b n He) as (R1 & R2 & _).
      by destruct (Hno _ R1). }
    repeat split; simpl; try done.
    + unfold refs_of. by rewrite Hnone.
    + intros _. by apply (br_clean _ _ Hb).
Qed.

(** [bread] of a block that nobody has locked returns a buffer with its contents. *)
Lemma bread_ok s v b :
  brep (bc s) v -> vheld v !! b = None ->
  is_Some (vrefs v !! b) ∨ (size (vrefs v) < Z.to_nat NBUF)%nat ->
  refs_of v b + 1 < 2^31 ->
  ∃ i c, bread ROOTDEV b s = Ok i (with_bc c s) ∧ brep c (take_block (mypid s) b i v).
Proof.
  intros Hb Hh Havail Hn. destruct (bget_ok s v b Hb Hh Havail) as (i & f & Hfound & Hg).
  set (c1 := on_buf i (fun x => locked_for (mypid s) (f x)) (bc s)) in *.
  pose proof Hfound as [Hi Hf]. pose proof (found_buf _ _ _ _ _ Hb Hn Hfound) as Hfx.
  exists i, (on_buf i (loaded (dsk c1 (blockno (bufs c1 i)))) c1). split.
  { unfold bread. rewrite (bind_Ok _ _ _ _ _ Hg). rewrite load_eq by done. done. }
  unfold c1. rewrite on_buf_on_buf, bufs_on_buf. set (x := bufs (bc s) i) in *.
  destruct Hfx as (F1 & F2 & F3 & F4 & F5 & F6 & F7 & F8).
  set (d := dsk _ _). assert (Hdb : d = vdisk v b) by (rewrite <- (br_disk _ _ Hb); unfold d; simpl; by rewrite F2).
  set (g := fun x0 => loaded d (locked_for (mypid s) (f x0))).
  assert (G : next (g x) = next x ∧ prev (g x) = prev x ∧ sl_lk (b_lock (g x)) = false ∧
    refcnt (g x) = refs_of v b + 1 ∧ dev (g x) = ROOTDEV ∧ blockno (g x) = b ∧
    sl_locked (b_lock (g x)) = 1 ∧ sl_pid (b_lock (g x)) = mypid s ∧ valid (g x) ≠ 0 ∧ data (g x) = vcont v b).
  { pose proof (br_lks _ _ Hb i Hi) as Hlk. fold x in Hlk. unfold g, loaded.
    destruct (valid (locked_for (mypid s) (f x)) =? 0) eqn:Hv0; simpl in *; rewrite F6;
      repeat (split; [done|]); rewrite ?Hdb.
    - symmetry. apply F8. lia.
    - split; [lia|]. apply F7. lia. }
  destruct G as (G1 & G2 & G3 & G4 & G5 & G6 & G7 & G8 & G9 & G10).
  pose proof (refs_of_nonneg _ _ b Hb) as Href.
  apply (brep_update (bc s) v _ i g b Hb Hi (agree_take _ _ _ _)); fold x; try done; try lia.
  - intros j Hj Hji Hho. destruct Hf as [[Hho' _]|(_ & _ & Hno)]; [|by apply (Hno j)].
    by apply Hji, (br_uniq _ _ Hb j i b).
  - destruct Hf as [[Hho' _]|(Hz & _)]; auto.
  - unfold slot_ok. rewrite G6. simpl. rewrite !lookup_insert_eq, upd_eq.
    split; [done|]. split; [done|]. rewrite decide_False by lia. by rewrite G4.
Qed.

(** A change of the buffer of a block in use that keeps its place. *)
Lemma brep_in_use c v v' b n f :
  brep c v -> vrefs v !! b = Some n -> agree_except b v v' ->
  let i := vbuf v b in let x := bufs c i in let x' := f x in
  next x' = next x -> prev x' = prev x -> sl_lk (b_lock x') = false -> 0 <= refcnt x' < 2^31 ->
  dev x' = dev x -> blockno x' = blockno x ->
  slot_ok v' i x' -> (refcnt x' = 0 -> vcont v' b = vdisk v' b) ->
  brep (on_buf i f c) v'.
Proof.
  intros Hb He Ha i x x' F1 F2 F3 F4 F5 F6 Hs Hc.
  destruct (in_use_slot _ _ _ _ Hb He) as (U1 & U2 & U3 & _). fold i x in U1, U2, U3.
  apply (brep_update c v v' i f b Hb U1 Ha); fold x x'; try done; try congruence; [|by left].
  intros j Hj Hji Hho. by apply Hji, (br_uniq _ _ Hb j i b).
Qed.

Definition with_cont (b : Z) (d : list Z) v : bview := v <| vcont ::= fun g => upd g b d |>.
Definition with_refs (b n : Z) v : bview := v <| vrefs ::= <[b := n]> |>.

Lemma buf_data_ok s v b n :
  brep (bc s) v -> vrefs v !! b = Some n -> buf_data (vbuf v b) s = Ok (vcont v b) s.
Proof.
  intros Hb He. destruct (in_use_slot _ _ _ _ Hb He) as (U1 & _ & _ & _ & _ & _ & _ & U8 & _).
  unfold buf_data. rewrite (bind_Ok _ _ _ _ _ (get_buf_eq (vbuf v b) s ltac:(unfold HEAD; lia))).
  by rewrite <- U8.
Qed.

Lemma set_data_ok s v b n d :
  brep (bc s) v -> vrefs v !! b = Some n ->
  ∃ c, set_data (vbuf v b) d s = Ok tt (with_bc c s) ∧ brep c (with_cont b d v).
Proof.
  intros Hb He. destruct (in_use_slot _ _ _ _ Hb He) as (U1 & U2 & U3 & U4 & U5 & U6 & U7 & U8 & U9 & U10).
  eexists. split; [apply set_buf_eq; unfold HEAD; lia|].
  apply (brep_in_use _ _ _ b n _ Hb He); try done; simpl; try lia.
  - split; try done. intros b' Hb'. simpl. by rewrite upd_ne.
  - unfold slot_ok. simpl. rewrite U3, upd_eq. split; [done|]. split; [done|].
    rewrite decide_False by lia. rewrite U4. done.
Qed.

Definition write_block (b : Z) v : bview :=
  v <| vdisk ::= fun g => upd g b (vcont v b) |> <| vwrites ::= cons (b, vcont v b) |>.

Lemma holding_ok s v b n :
  brep (bc s) v -> vrefs v !! b = Some n -> vheld v !! b = Some (mypid s) ->
  holdingsleep (buf_lock (vbuf v b)) (mypid s) s = Ok true s.
Proof.
  intros Hb He Hh. destruct (in_use_slot _ _ _ _ Hb He) as (U1 & _ & _ & _ & _ & _ & _ & _ & U9 & U10).
  rewrite holdingsleep_eq; [|apply _|done]. simpl. rewrite Hh in U10. destruct U10 as [-> ->].
  rewrite Z.eqb_refl. done.
Qed.

Lemma bwrite_ok s v b n :
  brep (bc s) v -> vrefs v !! b = Some n -> vheld v !! b = Some (mypid s) ->
  ∃ c, bwrite (vbuf v b) s = Ok tt (with_bc c s) ∧ brep c (write_block b v).
Proof.
  intros Hb He Hh. pose proof (holding_ok s v b n Hb He Hh) as Hho.
  destruct (in_use_slot _ _ _ _ Hb He) as (U1 & _ & U3 & _ & _ & _ & _ & U8 & _).
  unfold bwrite, mbind, M_bind, gets. rewrite Hho. simpl. unfold virtio_disk_rw, mbind, M_bind.
  rewrite get_buf_eq by (unfold HEAD; lia). eexists. split; [reflexivity|].
  destruct Hb as [R1 R2 R3 R4 R5 R6 R7 R8 R9 R10 R11 R12]. split; simpl; try done.
  - by rewrite U3, U8, R3.
  - by rewrite U3, U8, R4.
  - intros b' Hn. rewrite upd_ne; [by apply R12|]. intros ->. congruence.
Qed.

Lemma bpin_ok s v b n :
  brep (bc s) v -> vrefs v !! b = Some n -> n + 1 < 2^31 ->
  ∃ c, bpin (vbuf v b) s = Ok tt (with_bc c s) ∧ brep c (with_refs b (n + 1) v).
Proof.
  intros Hb He Hn. destruct (in_use_slot _ _ _ _ Hb He) as (U1 & U2 & U3 & U4 & U5 & U6 & U7 & U8 & U9 & U10).
  pose proof (br_lock _ _ Hb) as Hlk. unfold bpin.
  rewrite (bind_Ok _ _ _ _ _ (acquire_bc_eq s Hlk)).
  rewrite (bind_Ok _ _ _ _ _ (set_buf_eq (vbuf v b) incref _ ltac:(unfold HEAD; lia))).
  rewrite release_bc_eq by done. exists (on_buf (vbuf v b) incref (bc s)). split.
  { f_equal. destruct s as [[l bs d w] p t]. simpl in Hlk. subst l. done. }
  assert (u32 (n + 1) = n + 1) as Hu by (unfold u32; rewrite Z.mod_small by lia; done).
  apply (brep_in_use _ _ _ b n _ Hb He); try done; simpl; rewrite ?U4, ?Hu; try lia.
  - split; try done. intros b' Hb'. simpl. by rewrite lookup_insert_ne.
  - unfold slot_ok. simpl. rewrite U3, U4, Hu, lookup_insert_eq. split; [done|]. split; [done|].
    by rewrite decide_False by lia.
Qed.

Lemma bunpin_ok s v b n :
  brep (bc s) v -> vrefs v !! b = Some n -> 1 < n ->
  ∃ c, bunpin (vbuf v b) s = Ok tt (with_bc c s) ∧ brep c (with_refs b (n - 1) v).
Proof.
  intros Hb He Hn. destruct (in_use_slot _ _ _ _ Hb He) as (U1 & U2 & U3 & U4 & U5 & U6 & U7 & U8 & U9 & U10).
  pose proof (br_lock _ _ Hb) as Hlk. unfold bunpin. set (decref := fun x => x <| refcnt := u32 (refcnt x - 1) |>).
  rewrite (bind_Ok _ _ _ _ _ (acquire_bc_eq s Hlk)).
  rewrite (bind_Ok _ _ _ _ _ (set_buf_eq (vbuf v b) decref _ ltac:(unfold HEAD; lia))).
  rewrite release_bc_eq by done. exists (on_buf (vbuf v b) decref (bc s)). split.
  { f_equal. destruct s as [[l bs d w] p t]. simpl in Hlk. subst l. done. }
  assert (u32 (n - 1) = n - 1) as Hu by (unfold u32; rewrite Z.mod_small by lia; done).
  apply (brep_in_use _ _ _ b n _ Hb He); try done; simpl; rewrite ?U4, ?Hu; try lia.
  - split; try done. intros b' Hb'. simpl. by rewrite lookup_insert_ne.
  - unfold slot_ok. simpl. rewrite U3, U4, Hu, lookup_insert_eq. split; [done|]. split; [done|].
    by rewrite decide_False by lia.
Qed.
End rules.

(** ** brelse *)
Section brelse.
Context {T : Type}.
Implicit Types (s : fs T) (c : bcache) (v : bview).

Definition nxt c (j : Z) : Z := next (bufs c j).
Definition prv c (j : Z) : Z := prev (bufs c j).
Definition link_next (i w : Z) c : bcache := on_buf i (fun y => y <| next := w |>) c.
Definition link_prev (i w : Z) c : bcache := on_buf i (fun y => y <| prev := w |>) c.

Lemma nxt_link_next i w c : nxt (link_next i w c) = upd (nxt c) i w.
Proof. apply functional_extensionality; intros j. unfold nxt, link_next, on_buf; simpl. unfold upd. by case_decide. Qed.
Lemma prv_link_next i w c : prv (link_next i w c) = prv c.
Proof. apply functional_extensionality; intros j. unfold prv, link_next, on_buf; simpl. unfold upd. by case_decide; subst. Qed.
Lemma nxt_link_prev i w c : nxt (link_prev i w c) = nxt c.
Proof. apply functional_extensionality; intros j. unfold nxt, link_prev, on_buf; simpl. unfold upd. by case_decide; subst. Qed.
Lemma prv_link_prev i w c : prv (link_prev i w c) = upd (prv c) i w.
Proof. apply functional_extensionality; intros j. unfold prv, link_prev, on_buf; simpl. unfold upd. by case_decide. Qed.

(** The cache apart from its list. *)
Record same_data c c' : Prop := {
  sd_lock : bc_lock c' = bc_lock c;
  sd_disk : dsk c' = dsk c;
  sd_writes : writes c' = writes c;
  sd_buf : forall j, let x := bufs c j in let x' := bufs c' j in
    valid x' = valid x ∧ dev x' = dev x ∧ blockno x' = blockno x ∧ b_lock x' = b_lock x ∧
    refcnt x' = refcnt x ∧ data x' = data x
}.

Lemma same_data_trans c1 c2 c3 : same_data c1 c2 -> same_data c2 c3 -> same_data c1 c3.
Proof.
  intros [A1 A2 A3 A4] [B1 B2 B3 B4]. split; try congruence. intros j.
  destruct (A4 j) as (? & ? & ? & ? & ? & ?), (B4 j) as (? & ? & ? & ? & ? & ?). repeat split; congruence.
Qed.

Lemma same_data_next i w c : same_data c (link_next i w c).
Proof. split; try done. intros j. unfold link_next, on_buf; simpl. unfold upd. by case_decide; subst. Qed.
Lemma same_data_prev i w c : same_data c (link_prev i w c).
Proof. split; try done. intros j. unfold link_prev, on_buf; simpl. unfold upd. by case_decide; subst. Qed.

Lemma brep_relink c c' v xs :
  brep c v -> same_data c c' -> dll c' xs -> xs ≡ₚ seqZ 0 NBUF -> brep c' v.
Proof.
  intros [R1 R2 R3 R4 R5 R6 R7 R8 R9 R10 R11 R12] [D1 D2 D3 D4] Hd Hxs.
  assert (Hho : forall d b i, holds d b c' i <-> holds d b c i).
  { intros d b i. unfold holds. destruct (D4 i) as (_ & -> & -> & _). done. }
  split; try congruence; try done; eauto.
  - intros i Hi. destruct (D4 i) as (_ & _ & _ & -> & _). auto.
  - intros i Hi. destruct (D4 i) as (_ & _ & _ & _ & -> & _). auto.
  - intros i j b Hi Hj. rewrite !Hho. by apply R7.
  - intros i Hi. destruct (D4 i) as (E1 & E2 & E3 & E4 & E5 & E6). rewrite E2. intros Hd'.
    specialize (R8 i Hi Hd'). unfold slot_ok in *. by rewrite E1, E3, E4, E5, E6.
  - intros i Hi. destruct (D4 i) as (E1 & E2 & E3 & E4 & E5 & E6). rewrite E2, E4, E5. auto.
  - intros b n Hn. rewrite Hho. destruct (D4 (vbuf v b)) as (_ & _ & _ & _ & -> & _). by apply (R10 b n).
Qed.

(** Lines 128-133: to the front of the list. *)
Definition move_front (i : Z) c : bcache :=
  let c1 := link_prev (nxt c i) (prv c i) c in
  let c2 := link_next (prv c1 i) (nxt c1 i) c1 in
  let c3 := link_next i (nxt c2 HEAD) c2 in
  let c4 := link_prev i HEAD c3 in
  let c5 := link_prev (nxt c4 HEAD) i c4 in
  link_next HEAD i c5.

Lemma link_next_lk i w l c : link_next i w (set_lk l c) = set_lk l (link_next i w c).
Proof. done. Qed.
Lemma link_prev_lk i w l c : link_prev i w (set_lk l c) = set_lk l (link_prev i w c).
Proof. done. Qed.
Lemma nxt_lk l c : nxt (set_lk l c) = nxt c.
Proof. done. Qed.
Lemma prv_lk l c : prv (set_lk l c) = prv c.
Proof. done. Qed.

Lemma move_front_lk i l c : move_front i (set_lk l c) = set_lk l (move_front i c).
Proof.
  unfold move_front. cbv zeta.
  repeat first [rewrite nxt_lk | rewrite prv_lk | rewrite link_next_lk | rewrite link_prev_lk]. done.
Qed.

Lemma same_data_move i c : same_data c (move_front i c).
Proof.
  unfold move_front.
  repeat (eapply same_data_trans; [|first [apply same_data_next|apply same_data_prev]]). split; try done.
Qed.

Lemma dll_move i c xs :
  dll c xs -> xs ≡ₚ seqZ 0 NBUF -> 0 <= i < NBUF ->
  ∃ xs', dll (move_front i c) (i :: xs') ∧ i :: xs' ≡ₚ seqZ 0 NBUF.
Proof.
  intros Hd Hxs Hi. assert (Hin : i ∈ xs) by (by apply (nbuf_elem xs i Hxs)).
  assert (Hnd : NoDup xs) by (rewrite Hxs; apply NoDup_seqZ).
  assert (HH : HEAD ∉ xs) by (rewrite (nbuf_elem xs HEAD Hxs); unfold HEAD; lia).
  apply list_elem_of_split in Hin as (ys & zs & ->). exists (ys ++ zs).
  split; [|by rewrite <- Hxs, Permutation_middle].
  change (dseg (nxt c) (prv c) HEAD (ys ++ i :: zs) HEAD) in Hd.
  change (dseg (nxt (move_front i c)) (prv (move_front i c)) HEAD (i :: ys ++ zs) HEAD).
  pose proof (dseg_unlink _ _ _ _ _ _ _ Hd Hnd HH HH) as Hu.
  assert (Hni : nxt c i ≠ i).
  { apply dseg_app in Hd as [_ Hd]. apply dseg_first in Hd. intros Heq.
    pose proof (default_head_in HEAD zs) as Hz. rewrite <- Hd, Heq in Hz.
    apply elem_of_cons in Hz as [Hz|Hz]; [unfold HEAD in Hz; lia|].
    apply NoDup_app in Hnd as (_ & _ & Hnd). apply NoDup_cons in Hnd as [Hnd _]. done. }
  apply NoDup_app in Hnd as (Hn1 & Hn2 & Hn3). apply NoDup_cons in Hn3 as [Hn3 Hn4].
  rewrite not_elem_of_app, not_elem_of_cons in HH. destruct HH as (H1 & H2 & H3).
  unfold move_front. cbv zeta.
  repeat first [rewrite nxt_link_next | rewrite nxt_link_prev | rewrite prv_link_next | rewrite prv_link_prev].
  rewrite (upd_ne (prv c)) by done. rewrite (upd_ne _ i _ HEAD) by (unfold HEAD; lia).
  apply dseg_push; try done; rewrite ?not_elem_of_app; try (unfold HEAD; lia); try done.
  - split; [|done]. intros Hy. apply (Hn2 i Hy), elem_of_cons; auto.
  - apply NoDup_app. split; [done|]. split; [|done]. intros x Hx Hx'. apply (Hn2 x Hx), elem_of_cons; auto.
Qed.

Definition unlocked (x : buf) : buf :=
  x <| b_lock ::= fun k => k <| sl_locked := 0 |> <| sl_pid := 0 |> |>.
Definition decref (x : buf) : buf := x <| refcnt := u32 (refcnt x - 1) |>.

(** The list operations stay inside the array. *)
Definition links_ok c : Prop := forall j, 0 <= j <= HEAD -> 0 <= nxt c j <= HEAD ∧ 0 <= prv c j <= HEAD.

Lemma links_ok_next i w c : links_ok c -> 0 <= w <= HEAD -> links_ok (link_next i w c).
Proof.
  intros Hl Hw j Hj. rewrite nxt_link_next, prv_link_next. unfold upd. case_decide; [|by apply Hl].
  split; [done|]. by apply Hl.
Qed.
Lemma links_ok_prev i w c : links_ok c -> 0 <= w <= HEAD -> links_ok (link_prev i w c).
Proof.
  intros Hl Hw j Hj. rewrite nxt_link_prev, prv_link_prev. unfold upd. case_decide; [|by apply Hl].
  split; [by apply Hl|done].
Qed.

(** The two kinds of pointer assignment, followed by the rest of a program. *)
Lemma do_next {A} i w s (k : unit -> M (fs T) A) :
  0 <= i <= HEAD ->
  (set_buf i (fun y => y <| next := w |>) ≫= k) s = k tt (with_bc (link_next i w (bc s)) s).
Proof. intros Hi. by rewrite (bind_Ok _ _ _ _ _ (set_buf_eq i _ s Hi)). Qed.
Lemma do_prev {A} i w s (k : unit -> M (fs T) A) :
  0 <= i <= HEAD ->
  (set_buf i (fun y => y <| prev := w |>) ≫= k) s = k tt (with_bc (link_prev i w (bc s)) s).
Proof. intros Hi. by rewrite (bind_Ok _ _ _ _ _ (set_buf_eq i _ s Hi)). Qed.
Lemma do_get {A} i s (k : buf -> M (fs T) A) :
  0 <= i <= HEAD -> (get_buf i ≫= k) s = k (bufs (bc s) i) s.
Proof. intros Hi. by rewrite (bind_Ok _ _ _ _ _ (get_buf_eq i s Hi)). Qed.

Lemma relink_eq i s :
  0 <= i < NBUF -> links_ok (bc s) -> relink i s = Ok tt (with_bc (move_front i (bc s)) s).
Proof.
  intros Hi Hl. assert (Hi' : 0 <= i <= HEAD) by (unfold HEAD; lia).
  assert (HH : 0 <= HEAD <= HEAD) by done. unfold relink, move_front. cbv zeta.
  destruct s as [c p t]. unfold with_bc; cbn in *.
  destruct (Hl i Hi') as [L1 L2]. rewrite do_get by done. cbn. rewrite do_prev by done.
  unfold with_bc; cbn. change (next (bufs c i)) with (nxt c i). change (prev (bufs c i)) with (prv c i).
  set (c1 := link_prev (nxt c i) (prv c i) c). assert (Hl1 : links_ok c1) by (by apply links_ok_prev).
  destruct (Hl1 i Hi') as [L3 L4]. rewrite do_get by done. cbn. rewrite do_next by done.
  unfold with_bc; cbn. change (next (bufs c1 i)) with (nxt c1 i). change (prev (bufs c1 i)) with (prv c1 i).
  set (c2 := link_next (prv c1 i) (nxt c1 i) c1). assert (Hl2 : links_ok c2) by (by apply links_ok_next).
  destruct (Hl2 HEAD HH) as [L5 _]. rewrite do_get by done. cbn. rewrite do_next by done. rewrite do_prev by done.
  unfold with_bc; cbn. change (next (bufs c2 HEAD)) with (nxt c2 HEAD).
  set (c4 := link_prev i HEAD (link_next i (nxt c2 HEAD) c2)).
  assert (Hl4 : links_ok c4) by (by apply links_ok_prev; [apply links_ok_next|]).
  destruct (Hl4 HEAD HH) as [L6 _]. rewrite do_get by done. cbn. rewrite do_prev by done.
  rewrite set_buf_eq by done. done.
Qed.

Lemma dll_links_ok c xs : dll c xs -> xs ≡ₚ seqZ 0 NBUF -> links_ok c.
Proof.
  intros Hd Hxs j Hj.
  assert (Hall : forall x, x ∈ HEAD :: xs -> 0 <= x <= HEAD).
  { intros x [->|Hx]%elem_of_cons; [done|]. apply (nbuf_elem xs x Hxs) in Hx. unfold HEAD; lia. }
  change (dseg (nxt c) (prv c) HEAD xs HEAD) in Hd.
  destruct (decide (j = HEAD)) as [->|Hne].
  - rewrite (dseg_first _ _ _ _ _ Hd), (dseg_last _ _ _ _ _ Hd). split; apply Hall.
    + apply default_head_in. + apply default_last_in.
  - assert (Hin : j ∈ xs) by (apply (nbuf_elem xs j Hxs); unfold HEAD in *; lia).
    apply list_elem_of_split in Hin as (ys & zs & ->). apply dseg_app in Hd as [H1 H2].
    rewrite (dseg_last _ _ _ _ _ H1), (dseg_first _ _ _ _ _ H2). split; apply Hall.
    + pose proof (default_head_in HEAD zs) as Hz. rewrite elem_of_cons, elem_of_app, elem_of_cons in *. tauto.
    + pose proof (default_last_in HEAD ys) as Hz. rewrite elem_of_cons, elem_of_app, elem_of_cons in *. tauto.
Qed.

Definition drop_block (b : Z) v : bview :=
  v <| vrefs ::= fun m => if refs_of v b =? 1 then delete b m else <[b := refs_of v b - 1]> m |>
    <| vheld ::= delete b |>.

Lemma agree_drop b v : agree_except b v (drop_block b v).
Proof.
  split; try done; intros b' Hb; simpl.
  - destruct (refs_of v b =? 1); [by rewrite lookup_delete_ne|by rewrite lookup_insert_ne].
  - by rewrite lookup_delete_ne.
Qed.

(** [brelse] of a locked buffer; the last reference may only be given up when
    the disk has the block. *)
Lemma brelse_ok s v b n :
  brep (bc s) v -> vrefs v !! b = Some n -> vheld v !! b = Some (mypid s) ->
  (n = 1 -> vcont v b = vdisk v b) ->
  ∃ c, brelse (vbuf v b) s = Ok tt (with_bc c s) ∧ brep c (drop_block b v).
Proof.
  intros Hb He Hh Hclean. pose proof (holding_ok s v b n Hb He Hh) as Hho.
  destruct (in_use_slot _ _ _ _ Hb He) as (U1 & U2 & U3 & U4 & U5 & U6 & U7 & U8 & U9 & U10).
  set (i := vbuf v b) in *. set (c1 := on_buf i (fun x => decref (unlocked x)) (bc s)).
  assert (u32 (n - 1) = n - 1) as Hu by (unfold u32; rewrite Z.mod_small by lia; done).
  assert (Hb1 : brep c1 (drop_block b v)).
  { apply (brep_in_use _ _ _ b n _ Hb He (agree_drop b v)); fold i; try done; simpl; rewrite ?U4, ?Hu; try lia.
    - unfold slot_ok. simpl. rewrite U3, U4, Hu, lookup_delete_eq.
      assert (refs_of v b = n) as -> by (unfold refs_of; by rewrite He).
      split; [done|]. split; [done|]. destruct (decide (n - 1 = 0)) as [Hz|Hz].
      + assert ((n =? 1) = true) as -> by lia. by rewrite lookup_delete_eq.
      + assert ((n =? 1) = false) as -> by lia. by rewrite lookup_insert_eq.
    - intros Hz. simpl. apply Hclean. lia. }
  pose proof (br_lock _ _ Hb) as Hlk.
  assert (Hpre : brelse i s = (when (n - 1 =? 0) (relink i);; release_spin bcache_lock) (with_bc (set_lk true c1) s)).
  { unfold brelse. unfold mbind at 1, M_bind at 1. unfold gets at 1. rewrite (bind_Ok _ _ _ _ _ Hho). cbn [negb].
    assert (Hrs : releasesleep (buf_lock i) s = Ok tt (with_bc (on_buf i unlocked (bc s)) s))
      by (rewrite releasesleep_eq; [done|apply _|done]).
    rewrite (bind_Ok _ _ _ _ _ Hrs). set (s1 := with_bc _ s).
    rewrite (bind_Ok _ _ _ _ _ (acquire_bc_eq s1 Hlk)). set (s2 := with_bc _ s1).
    assert (Hi' : 0 <= i <= HEAD) by (unfold HEAD; lia).
    rewrite (bind_Ok _ _ _ _ _ (set_buf_eq i decref s2 Hi')). set (s3 := with_bc _ s2).
    assert (Hs3 : s3 = with_bc (set_lk true c1) s).
    { unfold s3, s2, s1, with_bc, setter; cbn. unfold c1. rewrite <- (on_buf_on_buf i unlocked decref). done. }
    rewrite (bind_Ok _ _ _ _ _ (get_buf_eq i s3 Hi')).
    assert (Hrf : refcnt (bufs (bc s3) i) = n - 1) by (rewrite Hs3; simpl; rewrite upd_eq; simpl; by rewrite U4).
    rewrite Hrf, Hs3. done. }
  assert (Hlk1 : set_lk false c1 = c1).
  { unfold c1, set_lk, on_buf, setter; cbn. rewrite <- Hlk. by destruct (bc s). }
  destruct (br_list _ _ Hb1) as (xs & Hd & Hxs).
  rewrite Hpre. destruct (n - 1 =? 0).
  - assert (Hl : links_ok (bc (with_bc (set_lk true c1) s))) by (by apply (dll_links_ok _ xs)).
    rewrite (bind_Ok _ _ _ _ _ (relink_eq i _ U1 Hl)). rewrite release_bc_eq by done.
    exists (move_front i c1). split.
    + assert (set_lk false (move_front i (set_lk true c1)) = move_front i c1) as Hm.
      { rewrite move_front_lk, set_lk_lk, <- move_front_lk, Hlk1. reflexivity. }
      cbn [bc with_bc]. rewrite <- Hm. exact (eq_refl (Ok tt (with_bc (set_lk false (move_front i (set_lk true c1))) s))).
    + destruct (dll_move i c1 xs Hd Hxs U1) as (xs' & Hd' & Hxs').
      by apply (brep_relink c1 _ _ (i :: xs') Hb1 (same_data_move i c1)).
  - exists c1. split; [|done]. unfold when, mbind, M_bind, mret, M_ret. rewrite release_bc_eq by done.
    transitivity (Ok (A := unit) tt (with_bc (set_lk false c1) s)); [reflexivity|by rewrite Hlk1].
Qed.
End brelse.

(** ** Total correctness on the view

    [vok m p t v Q]: run by process [p] on any cache with view [v], with the
    upper layers in state [t], [m] returns and ends in a state that satisfies
    [Q]. *)
Section vok.
Context {T : Type} (p : Z).
Implicit Types (t : T) (v : bview).

Definition vok {A} (m : M (fs T) A) t v (Q : A -> T -> bview -> Prop) : Prop :=
  forall c, brep c v -> ∃ r c' t' v', m (FS c p t) = Ok r (FS c' p t') ∧ brep c' v' ∧ Q r t' v'.

Lemma vok_mono {A} (m : M (fs T) A) t v (Q Q' : A -> T -> bview -> Prop) :
  vok m t v Q -> (forall r t' v', Q r t' v' -> Q' r t' v') -> vok m t v Q'.
Proof. intros Hm HQ c Hc. destruct (Hm c Hc) as (r & c' & t' & v' & H1 & H2 & H3). eauto 10. Qed.

Lemma vok_ret {A} (a : A) t v (Q : A -> T -> bview -> Prop) : Q a t v -> vok (mret a) t v Q.
Proof. intros HQ c Hc. by exists a, c, t, v. Qed.

Lemma vok_bind {A B} (m : M (fs T) A) (k : A -> M (fs T) B) t v Q :
  vok m t v (fun r t' v' => vok (k r) t' v' Q) -> vok (m ≫= k) t v Q.
Proof.
  intros Hm c Hc. destruct (Hm c Hc) as (r & c' & t' & v' & H1 & H2 & H3).
  destruct (H3 c' H2) as (r' & c'' & t'' & v'' & H4 & H5 & H6).
  exists r', c'', t'', v''. rewrite (bind_Ok _ _ _ _ _ H1). done.
Qed.

Lemma vok_when (b : bool) (m : M (fs T) unit) t v (Q : unit -> T -> bview -> Prop) :
  (b = true -> vok m t v Q) -> (b = false -> Q tt t v) -> vok (when b m) t v Q.
Proof. intros Ht Hf. destruct b; simpl; [auto|apply vok_ret; auto]. Qed.

Lemma vok_gets {A} (f : T -> A) t v (Q : A -> T -> bview -> Prop) :
  Q (f t) t v -> vok (gets (fun s => f (top s))) t v Q.
Proof. intros HQ c Hc. by exists (f t), c, t, v. Qed.

Lemma vok_modify (f : T -> T) t v (Q : unit -> T -> bview -> Prop) :
  Q tt (f t) v -> vok (modify (fun s => s <| top ::= f |>)) t v Q.
Proof. intros HQ c Hc. by exists tt, c, (f t), v. Qed.

Lemma vok_pid t v (Q : Z -> T -> bview -> Prop) : Q p t v -> vok (gets mypid) t v Q.
Proof. intros HQ c Hc. by exists p, c, t, v. Qed.

Lemma vok_for_each {A} (I : list A -> T -> bview -> Prop) (xs : list A) body t v Q :
  (forall dn x rest t v, xs = dn ++ x :: rest -> I dn t v ->
     vok (body x) t v (fun _ t' v' => I (dn ++ [x]) t' v')) ->
  I [] t v -> (forall t' v', I xs t' v' -> Q tt t' v') -> vok (for_each xs body) t v Q.
Proof.
  intros Hbody HI HQ.
  cut (forall ys dn t v, xs = dn ++ ys -> I dn t v -> vok (for_each ys body) t v Q).
  { intros Hcut. by apply (Hcut xs [] t v). }
  clear HI t v. induction ys as [|y ys IH]; intros dn t v -> HI; simpl.
  - apply vok_ret, HQ. by rewrite app_nil_r.
  - apply vok_bind. eapply vok_mono; [by eapply Hbody|].
    intros [] t' v' HI'. apply (IH (dn ++ [y])); [|done]. by rewrite <- app_assoc.
Qed.

Definition avail (b : Z) v : Prop := is_Some (vrefs v !! b) ∨ (size (vrefs v) < Z.to_nat NBUF)%nat.

Lemma vok_bread b t v (Q : Z -> T -> bview -> Prop) :
  vheld v !! b = None -> avail b v -> refs_of v b + 1 < 2^31 ->
  (forall i, Q i t (take_block p b i v)) -> vok (bread ROOTDEV b) t v Q.
Proof.
  intros Hh Ha Hn HQ c Hc. destruct (bread_ok (FS c p t) v b Hc Hh Ha Hn) as (i & c' & H1 & H2).
  exists i, c', t, (take_block p b i v). auto.
Qed.

Lemma vok_data i b t v (Q : list Z -> T -> bview -> Prop) :
  i = vbuf v b -> is_Some (vrefs v !! b) -> Q (vcont v b) t v -> vok (buf_data i) t v Q.
Proof.
  intros -> [n Hn] HQ c Hc. exists (vcont v b), c, t, v.
  split; [exact (buf_data_ok (FS c p t) v b n Hc Hn)|auto].
Qed.

Lemma vok_set_data i b d t v (Q : unit -> T -> bview -> Prop) :
  i = vbuf v b -> is_Some (vrefs v !! b) -> Q tt t (with_cont b d v) -> vok (set_data i d) t v Q.
Proof.
  intros -> [n Hn] HQ c Hc. destruct (set_data_ok (FS c p t) v b n d Hc Hn) as (c' & H1 & H2).
  exists tt, c', t, (with_cont b d v). auto.
Qed.

Lemma vok_bwrite i b t v (Q : unit -> T -> bview -> Prop) :
  i = vbuf v b -> is_Some (vrefs v !! b) -> vheld v !! b = Some p -> Q tt t (write_block b v) ->
  vok (bwrite i) t v Q.
Proof.
  intros -> [n Hn] Hh HQ c Hc. destruct (bwrite_ok (FS c p t) v b n Hc Hn Hh) as (c' & H1 & H2).
  exists tt, c', t, (write_block b v). auto.
Qed.

Lemma vok_brelse i b n t v (Q : unit -> T -> bview -> Prop) :
  i = vbuf v b -> vrefs v !! b = Some n -> vheld v !! b = Some p -> (n = 1 -> vcont v b = vdisk v b) ->
  Q tt t (drop_block b v) -> vok (brelse i) t v Q.
Proof.
  intros -> Hn Hh Hcl HQ c Hc. destruct (brelse_ok (FS c p t) v b n Hc Hn Hh Hcl) as (c' & H1 & H2).
  exists tt, c', t, (drop_block b v). auto.
Qed.

Lemma vok_bpin i b n t v (Q : unit -> T -> bview -> Prop) :
  i = vbuf v b -> vrefs v !! b = Some n -> n + 1 < 2^31 -> Q tt t (with_refs b (n + 1) v) ->
  vok (bpin i) t v Q.
Proof.
  intros -> Hn Hr HQ c Hc. destruct (bpin_ok (FS c p t) v b n Hc Hn Hr) as (c' & H1 & H2).
  exists tt, c', t, (with_refs b (n + 1) v). auto.
Qed.

Lemma vok_bunpin i b n t v (Q : unit -> T -> bview -> Prop) :
  i = vbuf v b -> vrefs v !! b = Some n -> 1 < n -> Q tt t (with_refs b (n - 1) v) ->
  vok (bunpin i) t v Q.
Proof.
  intros -> Hn Hr HQ c Hc. destruct (bunpin_ok (FS c p t) v b n Hc Hn Hr) as (c' & H1 & H2).
  exists tt, c', t, (with_refs b (n - 1) v). auto.
Qed.
End vok.

(** * the buffer cache after binit

    [binit], run on the zeroed memory of a freshly started kernel, gives a cache
    in which no block is in use and every block is what the disk has. *)

Definition zero_buf : buf :=
  Buf 0 0 0 0 (Sleeplock 0 false EmptyString 0) 0 0 0 (replicate (Z.to_nat BSIZE) 0).
Definition zero_cache (d : Z -> list Z) : bcache := Bcache false (fun _ => zero_buf) d [].
Definition boot_view (d : Z -> list Z) : bview := BView d [] d ∅ ∅ (fun _ => 0).

(** The list [binit] builds, and all it leaves in the buffers besides. *)
Definition booted (c : bcache) : bool :=
  forallb (fun i =>
    (next (bufs c i) =? (if i =? 0 then HEAD else i - 1)) && (prev (bufs c i) =? i + 1) &&
    negb (sl_lk (b_lock (bufs c i))) && (sl_locked (b_lock (bufs c i)) =? 0) &&
    (refcnt (bufs c i) =? 0) && (dev (bufs c i) =? 0)) (seqZ 0 NBUF).

(** What a run that succeeds leaves, as a value; [x] if it does not. *)
Definition left_by {S A B} (o : outcome S A) (f : S -> B) (x : B) : B :=
  match o with Ok _ s => f s | _ => x end.

Lemma left_by_ok {S} (o : outcome S unit) (f : S -> bool) :
  left_by o f false = true -> ∃ s, o = Ok tt s ∧ f s = true.
Proof. destruct o as [[] s| | | | |]; try done. intros Hf. by exists s. Qed.

Lemma binit_runs {T} (d : Z -> list Z) (p : Z) (t : T) :
  ∃ bs, binit (FS (zero_cache d) p t) = Ok tt (FS (Bcache false bs d []) p t) ∧
    booted (Bcache false bs d []) = true ∧ next (bs HEAD) = NBUF - 1 ∧ prev (bs HEAD) = 0.
Proof.
  set (o := binit (FS (zero_cache d) p t)).
  assert (H1 : left_by o (fun s => booted (bc s) && (next (bufs (bc s) HEAD) =? NBUF - 1) &&
    (prev (bufs (bc s) HEAD) =? 0)) false = true) by (vm_compute; reflexivity).
  assert (H2 : left_by o (fun s => (bc_lock (bc s), dsk (bc s), writes (bc s), mypid s, top s))
    (true, d, [], p, t) = (false, d, [], p, t)) by (vm_compute; reflexivity).
  clearbody o. apply left_by_ok in H1 as ([[lk bs d' ws] p' t'] & -> & H1). simpl in H1, H2.
  injection H2 as -> -> -> -> ->. exists bs.
  apply andb_prop in H1 as [[H1 H3]%andb_prop H4]. apply Z.eqb_eq in H3, H4. auto.
Qed.

Lemma booted_buf c i : booted c = true -> 0 <= i < NBUF ->
  next (bufs c i) = (if i =? 0 then HEAD else i - 1) ∧ prev (bufs c i) = i + 1 ∧
  sl_lk (b_lock (bufs c i)) = false ∧ sl_locked (b_lock (bufs c i)) = 0 ∧
  refcnt (bufs c i) = 0 ∧ dev (bufs c i) = 0.
Proof.
  intros Hb Hi. unfold booted in Hb. rewrite forallb_forall in Hb.
  assert (Hin : i ∈ seqZ 0 NBUF) by (apply elem_of_seqZ; lia). apply list_elem_of_In, Hb in Hin.
  repeat (apply andb_prop in Hin as [Hin ?]). destruct (sl_lk _); [done|].
  repeat match goal with H : (_ =? _) = true |- _ => apply Z.eqb_eq in H end. auto 10.
Qed.

(** The buffers are listed from the last to the first. *)
Lemma booted_seg nxt prv n :
  (forall i, 0 <= i < Z.of_nat n -> nxt i = (if i =? 0 then HEAD else i - 1) ∧ prv i = i + 1) -> prv HEAD = 0 ->
  forall a, nxt a = Z.of_nat n - 1 -> (0 < n)%nat -> prv (Z.of_nat n - 1) = a ->
  dseg nxt prv a (reverse (seqZ 0 (Z.of_nat n))) HEAD.
Proof.
  intros Hi Hh. induction n as [|n IH]; intros a Ha Hn Hp; [lia|].
  replace (Z.of_nat (S n) - 1) with (Z.of_nat n) in * by lia.
  rewrite seqZ_S, reverse_snoc. replace (0 + Z.of_nat n) with (Z.of_nat n) by lia. simpl.
  split; [done|]. split; [done|]. destruct (Hi (Z.of_nat n) ltac:(lia)) as [N P].
  destruct n as [|n]; [simpl in *; done|].
  apply IH; [intros i Hi'; apply Hi; lia| |lia|].
  - rewrite N. destruct (Z.eqb_spec (Z.of_nat (S n)) 0); lia.
  - destruct (Hi (Z.of_nat (S n) - 1) ltac:(lia)) as [_ ->]. lia.
Qed.

Lemma binit_ok {T} (d : Z -> list Z) (p : Z) (t : T) :
  ∃ c, binit (FS (zero_cache d) p t) = Ok tt (FS c p t) ∧ brep c (boot_view d).
Proof.
  destruct (binit_runs d p t) as (bs & Hrun & Hb & Hn & Hp). eexists. split; [exact Hrun|clear Hrun].
  set (c := Bcache false bs d []) in *.
  assert (Hbuf := fun i => booted_buf c i Hb).
  split; [reflexivity| |reflexivity|reflexivity|..].
  - exists (reverse (seqZ 0 NBUF)). split; [|apply reverse_Permutation].
    unfold dll. pose proof (booted_seg (fun i => next (bs i)) (fun i => prev (bs i)) (Z.to_nat NBUF)) as Hseg.
    rewrite Z2Nat.id in Hseg by done. apply Hseg; [|exact Hp|exact Hn|vm_compute; lia|].
    + intros i Hi. destruct (Hbuf i Hi) as (? & ? & _). auto.
    + destruct (Hbuf (NBUF - 1) ltac:(unfold NBUF, MAXOPBLOCKS; lia)) as (_ & He & _). exact He.
  - intros i Hi. by destruct (Hbuf i Hi) as (_ & _ & ? & _).
  - intros i Hi. destruct (Hbuf i Hi) as (_ & _ & _ & _ & -> & _). lia.
  - intros i j b Hi Hj [Hd _]. destruct (Hbuf i Hi) as (_ & _ & _ & _ & _ & He). unfold ROOTDEV in Hd. lia.
  - intros i Hi Hd. destruct (Hbuf i Hi) as (_ & _ & _ & _ & _ & He). unfold ROOTDEV in Hd. lia.
  - intros i Hi _. by destruct (Hbuf i Hi) as (_ & _ & _ & ? & ? & _).
  - intros b n Hr. exfalso. simpl in Hr. rewrite lookup_empty in Hr. discriminate Hr.
  - intros b q Hr. exfalso. simpl in Hr. rewrite lookup_empty in Hr. discriminate Hr.
  - intros b _. reflexivity.
Qed.
