(* ===== verification/Log.v ===== *)
(** * Log: the write-ahead log, kernel/log.c

    Transactions of the file system: [log_write] records a modified block and
    pins it in the cache, [commit] copies the recorded blocks to the log area of
    the disk, writes the log header (the commit point), installs the blocks at
    their home locations and clears the header; [recover_from_log] replays a
    committed transaction after a crash.

    Waiting in [begin_op] is the outcome [Spin]: the thread cannot go on until
    another one ends its operation. *)

From stdpp Require Import gmap.
From S2P Require Import Prelude Bytes SleepLock Bio BioRep.

(** [struct logheader] is an [int n] and [int block[LOGSIZE]]. *)
Definition sizeof_logheader : Z := 4 + 4 * LOGSIZE.

Record log := Log {
  log_lock : bool;
  start : Z;
  log_size : Z;
  outstanding : Z;
  committing : Z;
  ldev : Z;
  lh_n : Z;                        (* lh.n *)
  lh_block : Z -> Z                (* lh.block[] *)
}.
#[export] Instance log_eta : Eta log := fun r =>
  Log (log_lock r) (start r) (log_size r) (outstanding r) (committing r) (ldev r) (lh_n r) (lh_block r).

(** The superblock fields the log needs are in Fs.v's [superblock]. *)
Record ftop (U : Type) := FTop { lg : log; up : U }.
Arguments FTop {U}.
Arguments lg {U}.
Arguments up {U}.
#[export] Instance ftop_eta U : Eta (ftop U) := fun r => FTop (lg r) (up r).

Section ops.
Context {U : Type}.
Abbreviation K := (M (fs (ftop U))).

Definition get_log : K log := gets (fun s => lg (top s)).
Definition mod_log (f : log -> log) : K unit := modify (fun s => s <| top ::= fun t => t <| lg ::= f |> |>).
Definition loglock : lens (fs (ftop U)) bool :=
  Lens (fun s => log_lock (lg (top s)))
       (fun f s => s <| top ::= fun t => t <| lg ::= fun l => l <| log_lock ::= f |> |> |>).

(** [log.lh.block[i]] *)
Definition get_block (i : Z) : K Z :=
  if (0 <=? i) && (i <? LOGSIZE) then l ← get_log; mret (lh_block l i) else out_of_bounds.
Definition set_block (i v : Z) : K unit :=
  if (0 <=? i) && (i <? LOGSIZE)
  then mod_log (fun l => l <| lh_block ::= fun g => upd g i v |>)
  else out_of_bounds.

Definition install_trans (recovering : Z) : K unit :=
  l ← get_log;
  for_each (seqZ 0 (lh_n l)) (fun tail =>
    l ← get_log;
    lbuf ← bread (ldev l) (start l + tail + 1);
    b ← get_block tail;
    dbuf ← bread (ldev l) b;
    d ← buf_data lbuf;
    set_data dbuf d;;
    bwrite dbuf;;
    when (recovering =? 0) (bunpin dbuf);;
    brelse lbuf;;
    brelse dbuf).

(** [lh->n] and [lh->block[i]] in the header block *)
Definition head_n (d : list Z) : Z := get_int d 0.
Definition head_block (d : list Z) (i : Z) : Z := get_int d (4 + 4 * i).

Definition read_head : K unit :=
  l ← get_log;
  buf ← bread (ldev l) (start l);
  d ← buf_data buf;
  mod_log (fun l => l <| lh_n := head_n d |>);;
  l ← get_log;
  for_each (seqZ 0 (lh_n l)) (fun i => set_block i (head_block d i));;
  brelse buf.

Definition write_head : K unit :=
  l ← get_log;
  buf ← bread (ldev l) (start l);
  d ← buf_data buf;
  l ← get_log;
  set_data buf (put32 d 0 (lh_n l));;
  for_each (seqZ 0 (lh_n l)) (fun i =>
    d ← buf_data buf;
    b ← get_block i;
    set_data buf (put32 d (4 + 4 * i) b));;
  bwrite buf;;
  brelse buf.

Definition recover_from_log : K unit :=
  read_head;;
  install_trans 1;;
  mod_log (fun l => l <| lh_n := 0 |>);;
  write_head.

Definition initlog (dev logstart nlog : Z) : K unit :=
  if BSIZE <=? sizeof_logheader then panic "initlog: too big logheader" else
  mod_log (fun l => l <| log_lock := false |>);;
  mod_log (fun l => l <| start := logstart |>);;
  mod_log (fun l => l <| log_size := nlog |>);;
  mod_log (fun l => l <| ldev := dev |>);;
  recover_from_log.

Definition begin_op : K unit :=
  acquire_spin loglock;;
  l ← get_log;
  if negb (committing l =? 0) then spin else
  if LOGSIZE <? lh_n l + (outstanding l + 1) * MAXOPBLOCKS then spin else
  mod_log (fun l => l <| outstanding := outstanding l + 1 |>);;
  release_spin loglock.

Definition write_log : K unit :=
  l ← get_log;
  for_each (seqZ 0 (lh_n l)) (fun tail =>
    l ← get_log;
    to ← bread (ldev l) (start l + tail + 1);
    b ← get_block tail;
    from ← bread (ldev l) b;
    d ← buf_data from;
    set_data to d;;
    bwrite to;;
    brelse from;;
    brelse to).

Definition commit : K unit :=
  l ← get_log;
  when (0 <? lh_n l) (
    write_log;;
    write_head;;
    install_trans 0;;
    mod_log (fun l => l <| lh_n := 0 |>);;
    write_head).

Definition end_op : K unit :=
  acquire_spin loglock;;
  mod_log (fun l => l <| outstanding := outstanding l - 1 |>);;
  l ← get_log;
  if negb (committing l =? 0) then panic "log.committing" else
  do_commit ←
    (if outstanding l =? 0 then
       mod_log (fun l => l <| committing := 1 |>);; mret true
     else wakeup_others;; mret false);
  release_spin loglock;;
  when do_commit (
    commit;;
    acquire_spin loglock;;
    mod_log (fun l => l <| committing := 0 |>);;
    wakeup_others;;
    release_spin loglock).

(** The loop of [log_write]: the first index with that block, or [lh.n]. *)
Fixpoint absorb (fuel : nat) (i n blockno : Z) : K Z :=
  match fuel with
  | O => no_fuel
  | S fuel' =>
      if i <? n then
        b ← get_block i;
        if b =? blockno then mret i else absorb fuel' (i + 1) n blockno
      else mret i
  end.

Definition log_write (b : Z) : K unit :=
  acquire_spin loglock;;
  l ← get_log;
  if (LOGSIZE <=? lh_n l) || (log_size l - 1 <=? lh_n l) then panic "too big a transaction" else
  if outstanding l <? 1 then panic "log_write outside of trans" else
  x ← get_buf b;
  i ← absorb (S (Z.to_nat LOGSIZE)) 0 (lh_n l) (blockno x);
  set_block i (blockno x);;
  when (i =? lh_n l) (
    bpin b;;
    mod_log (fun l => l <| lh_n := lh_n l + 1 |>));;
  release_spin loglock.
End ops.

#[global] Arguments get_block : simpl never.
#[global] Arguments set_block : simpl never.
#[global] Arguments install_trans : simpl never.
#[global] Arguments read_head : simpl never.
#[global] Arguments write_head : simpl never.
#[global] Arguments write_log : simpl never.
#[global] Arguments recover_from_log : simpl never.
#[global] Arguments commit : simpl never.
#[global] Arguments log_write : simpl never.
