(* ===== verification/LogRep.v ===== *)
(** * LogRep: what the routines of the log do to the disk

    Each routine of kernel/log.c on the view of the buffer cache: which blocks
    it writes, in which order, and that it leaves the cache as it found it. *)

From stdpp Require Import gmap.
From S2P Require Import Prelude Bytes SleepLock Bio BioRep Log.

(** ** Projections of a view built up by the operations *)
Section views.
Implicit Types (v : bview).

Lemma refs_of_eq v b : refs_of v b = default 0 (vrefs v !! b).
Proof. done. Qed.

Lemma take_refs_eq p b i v : vrefs (take_block p b i v) !! b = Some (refs_of v b + 1).
Proof. apply lookup_insert_eq. Qed.
Lemma take_refs_ne p b i v b' : b ≠ b' -> vrefs (take_block p b i v) !! b' = vrefs v !! b'.
Proof. apply lookup_insert_ne. Qed.
Lemma take_held_eq p b i v : vheld (take_block p b i v) !! b = Some p.
Proof. apply lookup_insert_eq. Qed.
Lemma take_held_ne p b i v b' : b ≠ b' -> vheld (take_block p b i v) !! b' = vheld v !! b'.
Proof. apply lookup_insert_ne. Qed.
Lemma take_buf_eq p b i v : vbuf (take_block p b i v) b = i.
Proof. apply upd_eq. Qed.
Lemma take_buf_ne p b i v b' : b' ≠ b -> vbuf (take_block p b i v) b' = vbuf v b'.
Proof. apply upd_ne. Qed.
Lemma take_cont p b i v : vcont (take_block p b i v) = vcont v.
Proof. done. Qed.
Lemma take_disk p b i v : vdisk (take_block p b i v) = vdisk v.
Proof. done. Qed.
Lemma take_writes p b i v : vwrites (take_block p b i v) = vwrites v.
Proof. done. Qed.

Lemma drop_refs_ne b v b' : b ≠ b' -> vrefs (drop_block b v) !! b' = vrefs v !! b'.
Proof.
  intros Hb. unfold drop_block; simpl. destruct (refs_of v b =? 1);
    [by rewrite lookup_delete_ne|by rewrite lookup_insert_ne].
Qed.
Lemma drop_refs_eq b v :
  vrefs (drop_block b v) !! b = if refs_of v b =? 1 then None else Some (refs_of v b - 1).
Proof.
  unfold drop_block; simpl. destruct (refs_of v b =? 1); [apply lookup_delete_eq|apply lookup_insert_eq].
Qed.
Lemma drop_held_eq b v : vheld (drop_block b v) !! b = None.
Proof. apply lookup_delete_eq. Qed.
Lemma drop_held_ne b v b' : b ≠ b' -> vheld (drop_block b v) !! b' = vheld v !! b'.
Proof. apply lookup_delete_ne. Qed.
Lemma drop_buf b v : vbuf (drop_block b v) = vbuf v.
Proof. done. Qed.
Lemma drop_cont b v : vcont (drop_block b v) = vcont v.
Proof. done. Qed.
Lemma drop_disk b v : vdisk (drop_block b v) = vdisk v.
Proof. done. Qed.
Lemma drop_writes b v : vwrites (drop_block b v) = vwrites v.
Proof. done. Qed.

Lemma write_refs b v : vrefs (write_block b v) = vrefs v.
Proof. done. Qed.
Lemma write_held b v : vheld (write_block b v) = vheld v.
Proof. done. Qed.
Lemma write_buf b v : vbuf (write_block b v) = vbuf v.
Proof. done. Qed.
Lemma write_cont b v : vcont (write_block b v) = vcont v.
Proof. done. Qed.
Lemma write_disk b v : vdisk (write_block b v) = upd (vdisk v) b (vcont v b).
Proof. done. Qed.
Lemma write_writes b v : vwrites (write_block b v) = (b, vcont v b) :: vwrites v.
Proof. done. Qed.

Lemma cont_refs b d v : vrefs (with_cont b d v) = vrefs v.
Proof. done. Qed.
Lemma cont_held b d v : vheld (with_cont b d v) = vheld v.
Proof. done. Qed.
Lemma cont_buf b d v : vbuf (with_cont b d v) = vbuf v.
Proof. done. Qed.
Lemma cont_cont b d v : vcont (with_cont b d v) = upd (vcont v) b d.
Proof. done. Qed.
Lemma cont_disk b d v : vdisk (with_cont b d v) = vdisk v.
Proof. done. Qed.
Lemma cont_writes b d v : vwrites (with_cont b d v) = vwrites v.
Proof. done. Qed.

Lemma wrefs_refs_eq b n v : vrefs (with_refs b n v) !! b = Some n.
Proof. apply lookup_insert_eq. Qed.
Lemma wrefs_refs_ne b n v b' : b ≠ b' -> vrefs (with_refs b n v) !! b' = vrefs v !! b'.
Proof. apply lookup_insert_ne. Qed.
Lemma wrefs_held b n v : vheld (with_refs b n v) = vheld v.
Proof. done. Qed.
Lemma wrefs_buf b n v : vbuf (with_refs b n v) = vbuf v.
Proof. done. Qed.
Lemma wrefs_cont b n v : vcont (with_refs b n v) = vcont v.
Proof. done. Qed.
Lemma wrefs_disk b n v : vdisk (with_refs b n v) = vdisk v.
Proof. done. Qed.
Lemma wrefs_writes b n v : vwrites (with_refs b n v) = vwrites v.
Proof. done. Qed.
End views.

Create Rewrite HintDb view.
#[export] Hint Rewrite refs_of_eq take_refs_eq take_held_eq take_buf_eq take_cont take_disk take_writes
  drop_refs_eq drop_held_eq drop_buf drop_cont drop_disk drop_writes
  write_refs write_held write_buf write_cont write_disk write_writes
  cont_refs cont_held cont_buf cont_cont cont_disk cont_writes
  wrefs_refs_eq wrefs_held wrefs_buf wrefs_cont wrefs_disk wrefs_writes @upd_eq : view.
#[export] Hint Rewrite take_refs_ne take_held_ne take_buf_ne drop_refs_ne drop_held_ne wrefs_refs_ne @upd_ne
  using congruence : view.

(** Evaluates the projections, using the known lookups of the context. *)
Ltac view_simpl :=
  repeat (autorewrite with view;
    repeat match goal with
    | H : ?m !! ?k = _ |- context [?m !! ?k] => rewrite H; cbn [from_option id]
    | H : (?x =? ?y) = _ |- context [?x =? ?y] => rewrite H
    end); cbn [from_option id].

(** Is key [k] the first or the second block, or another one? *)
Ltac key_cases k b1 b2 :=
  destruct (decide (b1 = k)) as [?|?]; [subst k|destruct (decide (b2 = k)) as [?|?]; [subst k|]].

Section rep.
Context {U : Type} (p : Z).
Implicit Types (t : ftop U) (v : bview) (l : log).

(** The effect of block writes, the latest first. *)
Definition apply_writes (ws : list (Z * list Z)) (d : Z -> list Z) : Z -> list Z :=
  foldr (fun w d => upd d w.1 w.2) d ws.

(** [v'] is [v] after the writes [ws] to the disk, all of them from the cache;
    [m'] are the references.  Where unused blocks are buffered does not matter. *)
Record wrote v (ws : list (Z * list Z)) (m' : gmap Z Z) v' : Prop := {
  w_disk : vdisk v' = apply_writes ws (vdisk v);
  w_writes : vwrites v' = ws ++ vwrites v;
  w_cont : vcont v' = apply_writes ws (vcont v);
  w_refs : vrefs v' = m';
  w_held : vheld v' = vheld v
}.

Lemma wrote_nil v : wrote v [] (vrefs v) v.
Proof. done. Qed.

Lemma apply_writes_app ws1 ws2 d : apply_writes (ws1 ++ ws2) d = apply_writes ws1 (apply_writes ws2 d).
Proof. unfold apply_writes. by rewrite foldr_app. Qed.

Lemma wrote_trans v1 v2 v3 ws1 ws2 m1 m2 :
  wrote v1 ws1 m1 v2 -> wrote v2 ws2 m2 v3 -> wrote v1 (ws2 ++ ws1) m2 v3.
Proof.
  intros [A1 A2 A3 A4 A5] [B1 B2 B3 B4 B5]. split; try congruence.
  - by rewrite B1, A1, apply_writes_app.
  - by rewrite B2, A2, app_assoc.
  - by rewrite B3, A3, apply_writes_app.
Qed.

Lemma vok_get_log t v (Q : log -> ftop U -> bview -> Prop) : Q (lg t) t v -> vok p get_log t v Q.
Proof. apply (vok_gets p lg). Qed.

Lemma vok_mod_log f t v (Q : unit -> ftop U -> bview -> Prop) :
  Q tt (t <| lg ::= f |>) v -> vok p (mod_log f) t v Q.
Proof. apply (vok_modify p (fun t => t <| lg ::= f |>)). Qed.

Lemma vok_get_block i t v (Q : Z -> ftop U -> bview -> Prop) :
  0 <= i < LOGSIZE -> Q (lh_block (lg t) i) t v -> vok p (get_block i) t v Q.
Proof.
  intros Hi HQ. unfold get_block. assert ((0 <=? i) && (i <? LOGSIZE) = true) as -> by lia.
  apply vok_bind, vok_get_log. by apply vok_ret.
Qed.

(** Copying a block of the cache to an unused block of the disk: the body of the
    loop of [write_log]. *)
Definition copy_to (i tob : Z) : M (fs (ftop U)) unit :=
  to ← bread ROOTDEV tob;
  b ← get_block i;
  from ← bread ROOTDEV b;
  d ← buf_data from;
  set_data to d;;
  bwrite to;;
  brelse from;;
  brelse to.

Lemma vok_copy_to i fromb tob n t v :
  0 <= i < LOGSIZE -> lh_block (lg t) i = fromb -> vheld v = ∅ -> vrefs v !! fromb = Some n -> 0 < n < 2^30 -> vrefs v !! tob = None ->
  (base.size (vrefs v) < Z.to_nat NBUF)%nat ->
  vok p (copy_to i tob) t v (fun _ t' v' => t' = t ∧
    wrote v [(tob, vcont v fromb)] (vrefs v) v').
Proof.
  intros Hi Hfb Hh Hf Hn Ht Hsz. assert (Hne : fromb ≠ tob) by (intros ->; congruence). unfold copy_to.
  assert (Hh' : forall b, vheld v !! b = None) by (intros b; by rewrite Hh, lookup_empty).
  assert (Hn1 : (n + 1 =? 1) = false) by lia.
  apply vok_bind, vok_bread; [done|by right|by view_simpl|]. intros i1.
  apply vok_bind, vok_get_block; [done|]. rewrite Hfb.
  apply vok_bind, vok_bread; [by view_simpl|left; view_simpl; eauto|view_simpl; lia|]. intros i2.
  apply vok_bind, (vok_data p _ fromb); [by view_simpl|view_simpl; eauto|].
  apply vok_bind, (vok_set_data p _ tob); [by view_simpl|view_simpl; eauto|].
  apply vok_bind, (vok_bwrite p _ tob); [by view_simpl|view_simpl; eauto|by view_simpl|].
  apply vok_bind, (vok_brelse p _ fromb (n + 1)); [by view_simpl|by view_simpl|by view_simpl|lia|].
  apply (vok_brelse p _ tob 1); [by view_simpl..| |].
  - intros _. by view_simpl.
  - split; [done|]. split; [by view_simpl..| |].
    + apply map_eq. intros k. key_cases k tob fromb; view_simpl; try done. f_equal. lia.
    + apply map_eq. intros k. key_cases k tob fromb; by view_simpl.
Qed.

(** Copying a block of the log to its home location: the body of the loop of
    [install_trans].  Outside of recovery the home block is pinned, and the copy
    removes the pin. *)
Definition install_one (recovering logb i : Z) : M (fs (ftop U)) unit :=
  lbuf ← bread ROOTDEV logb;
  b ← get_block i;
  dbuf ← bread ROOTDEV b;
  d ← buf_data lbuf;
  set_data dbuf d;;
  bwrite dbuf;;
  when (recovering =? 0) (bunpin dbuf);;
  brelse lbuf;;
  brelse dbuf.

Lemma vok_install_one (recovering logb i homeb : Z) t v :
  0 <= i < LOGSIZE -> lh_block (lg t) i = homeb -> vheld v = ∅ -> logb ≠ homeb -> vrefs v !! logb = None -> vcont v logb = vdisk v logb ->
  vrefs v !! homeb = (if recovering =? 0 then Some 1 else None) ->
  (base.size (vrefs v) + 1 < Z.to_nat NBUF)%nat ∨
    (recovering = 0 ∧ (base.size (vrefs v) < Z.to_nat NBUF)%nat) ->
  vok p (install_one recovering logb i) t v (fun _ t' v' => t' = t ∧
    wrote v [(homeb, vcont v logb)] (delete homeb (vrefs v)) v').
Proof.
  intros Hi Hhb Hh Hne Hl Hcl Hd Hsz. unfold install_one.
  assert (Hh' : forall b, vheld v !! b = None) by (intros b; by rewrite Hh, lookup_empty).
  apply vok_bind, vok_bread; [done|right; lia|by view_simpl|]. intros i1.
  apply vok_bind, vok_get_block; [done|]. rewrite Hhb.
  apply vok_bind, vok_bread; [by view_simpl| |view_simpl; by destruct (recovering =? 0)|].
  { unfold avail. view_simpl. destruct (recovering =? 0) eqn:Hr; [left; eauto|right].
    unfold take_block; simpl. rewrite map_size_insert_None by done. destruct Hsz; lia. }
  intros i2. apply vok_bind, (vok_data p _ logb); [by view_simpl|view_simpl; eauto|].
  apply vok_bind, (vok_set_data p _ homeb); [by view_simpl|view_simpl; eauto|].
  apply vok_bind, (vok_bwrite p _ homeb); [by view_simpl|view_simpl; eauto|by view_simpl|].
  apply vok_bind. destruct (recovering =? 0) eqn:Hr.
  - apply vok_when; [intros _|done]. apply (vok_bunpin p _ homeb 2); [by view_simpl|by view_simpl|done|].
    apply vok_bind, (vok_brelse p _ logb 1); [by view_simpl..| |].
    { intros _. view_simpl. done. }
    apply (vok_brelse p _ homeb 1); [by view_simpl..| |].
    { intros _. by view_simpl. }
    split; [done|]. split; [by view_simpl..| |].
    + apply map_eq. intros k. key_cases k logb homeb; view_simpl; try done.
      * by rewrite lookup_delete_ne, Hl by done.
      * by rewrite lookup_delete_eq.
      * by rewrite lookup_delete_ne.
    + apply map_eq. intros k. key_cases k logb homeb; by view_simpl.
  - apply vok_when; [done|intros _].
    apply vok_bind, (vok_brelse p _ logb 1); [by view_simpl..| |].
    { intros _. view_simpl. done. }
    apply (vok_brelse p _ homeb 1); [by view_simpl..| |].
    { intros _. by view_simpl. }
    split; [done|]. split; [by view_simpl..| |].
    + apply map_eq. intros k. key_cases k logb homeb; view_simpl; try done.
      * by rewrite lookup_delete_ne, Hl by done.
      * by rewrite lookup_delete_eq.
      * by rewrite lookup_delete_ne.
    + apply map_eq. intros k. key_cases k logb homeb; by view_simpl.
Qed.

(** The header block that [write_head] writes over [d]. *)
Definition put_blocks (blk : Z -> Z) (d : list Z) (is_ : list Z) : list Z :=
  foldl (fun d i => put32 d (4 + 4 * i) (blk i)) d is_.
Definition put_head (d : list Z) (n : Z) (blk : Z -> Z) : list Z :=
  put_blocks blk (put32 d 0 n) (seqZ 0 n).

Lemma with_cont_twice b d1 d2 v : with_cont b d2 (with_cont b d1 v) = with_cont b d2 v.
Proof. unfold with_cont, setter; cbn. by rewrite upd_upd. Qed.

Lemma vok_write_head t v :
  let l := lg t in
  ldev l = ROOTDEV -> 0 <= lh_n l <= LOGSIZE ->
  vheld v = ∅ -> vrefs v !! start l = None -> (base.size (vrefs v) < Z.to_nat NBUF)%nat ->
  vok p write_head t v (fun _ t' v' => t' = t ∧
    let hdr := put_head (vcont v (start l)) (lh_n l) (lh_block l) in
    wrote v [(start l, hdr)] (vrefs v) v').
Proof.
  intros l Hdev Hn Hh Hs Hsz. set (b := start l) in *.
  assert (Hh' : forall b, vheld v !! b = None) by (intros b'; by rewrite Hh, lookup_empty).
  unfold write_head. apply vok_bind, vok_get_log. fold l. rewrite Hdev. fold b.
  apply vok_bind, vok_bread; [done|by right|by view_simpl|]. intros i.
  apply vok_bind, (vok_data p _ b); [by view_simpl|view_simpl; eauto|].
  apply vok_bind, vok_get_log. fold l. rewrite take_cont.
  apply vok_bind, (vok_set_data p _ b); [by view_simpl|view_simpl; eauto|].
  apply vok_bind. set (v1 := take_block p b i v).
  apply (vok_for_each p (fun dn t' v' => t' = t ∧
    v' = with_cont b (put_blocks (lh_block l) (put32 (vcont v b) 0 (lh_n l)) dn) v1)).
  - intros dn k rest t' v' Hk [-> ->].
    assert (Hkr : 0 <= k < LOGSIZE).
    { assert (Hin : k ∈ seqZ 0 (lh_n l)) by (rewrite Hk; apply elem_of_app; right; apply elem_of_cons; auto).
      apply elem_of_seqZ in Hin. lia. }
    apply vok_bind, (vok_data p _ b); [unfold v1; by view_simpl|unfold v1; view_simpl; eauto|].
    apply vok_bind, vok_get_block; [done|]. rewrite cont_cont, upd_eq. fold l.
    apply (vok_set_data p _ b); [unfold v1; by view_simpl|unfold v1; view_simpl; eauto|].
    split; [done|]. rewrite with_cont_twice. unfold put_blocks. by rewrite foldl_snoc.
  - done.
  - intros t' v' [-> ->]. fold (put_head (vcont v b) (lh_n l) (lh_block l)).
    set (hdr := put_head _ _ _). unfold v1.
    apply vok_bind, (vok_bwrite p _ b); [by view_simpl|view_simpl; eauto|by view_simpl|].
    apply (vok_brelse p _ b 1); [by view_simpl..| |].
    { intros _. by view_simpl. }
    split; [done|]. split; [by view_simpl..| |].
    + apply map_eq. intros k. key_cases k b b; by view_simpl.
    + apply map_eq. intros k. key_cases k b b; by view_simpl.
Qed.

(** A block nobody uses is the same in the cache and on the disk. *)
Lemma vok_clean {A} (m : M (fs (ftop U)) A) t v (Q : A -> ftop U -> bview -> Prop) :
  ((forall b, vrefs v !! b = None -> vcont v b = vdisk v b) -> vok p m t v Q) -> vok p m t v Q.
Proof. intros Hm c Hc. apply Hm; [|done]. apply (br_clean _ _ Hc). Qed.

Lemma apply_writes_other ws d b : (forall w, w ∈ ws -> w.1 ≠ b) -> apply_writes ws d b = d b.
Proof.
  induction ws as [|w ws IH]; intros Hw; simpl; [done|].
  rewrite upd_ne by (intros ->; apply (Hw w); [apply elem_of_cons; auto|done]).
  apply IH. intros w' Hw'. apply Hw, elem_of_cons; auto.
Qed.

(** Where the log and the blocks it names are: all in range, without
    repetition, and the home locations outside the log. *)
Record log_wf l : Prop := {
  wf_dev : ldev l = ROOTDEV;
  wf_n : 0 <= lh_n l < LOGSIZE;
  wf_inj : forall i j, 0 <= i < lh_n l -> 0 <= j < lh_n l -> lh_block l i = lh_block l j -> i = j;
  wf_int : forall i, 0 <= i < lh_n l -> 0 <= lh_block l i < 2^31;
  wf_home : forall i, 0 <= i < lh_n l -> lh_block l i < start l ∨ start l + LOGSIZE <= lh_block l i
}.

Definition logb l (i : Z) : Z := start l + i + 1.

(** The writes of [write_log] and of [install_trans], in program order. *)
Definition log_writes l (c : Z -> list Z) (is_ : list Z) : list (Z * list Z) :=
  (fun i => (logb l i, c (lh_block l i))) <$> is_.
Definition home_writes l (c : Z -> list Z) (is_ : list Z) : list (Z * list Z) :=
  (fun i => (lh_block l i, c (logb l i))) <$> is_.

Lemma seqZ_split n dn i rest : seqZ 0 n = dn ++ i :: rest -> 0 <= i < n ∧ forall j, j ∈ dn -> 0 <= j < n ∧ j ≠ i.
Proof.
  intros Hi. assert (Hin : i ∈ seqZ 0 n) by (rewrite Hi; apply elem_of_app; right; apply elem_of_cons; auto).
  apply elem_of_seqZ in Hin. split; [lia|]. intros j Hj.
  assert (Hjn : j ∈ seqZ 0 n) by (rewrite Hi; apply elem_of_app; auto). apply elem_of_seqZ in Hjn.
  split; [lia|]. intros ->. pose proof (NoDup_seqZ 0 n) as Hnd. rewrite Hi in Hnd.
  apply NoDup_app in Hnd as (_ & Hd & _). apply (Hd i Hj), elem_of_cons; auto.
Qed.

Lemma vok_write_log t v :
  let l := lg t in
  log_wf l -> vheld v = ∅ ->
  (forall i, 0 <= i < lh_n l -> vrefs v !! lh_block l i = Some 1) ->
  (forall i, 0 <= i < lh_n l -> vrefs v !! logb l i = None) ->
  (base.size (vrefs v) < Z.to_nat NBUF)%nat ->
  vok p write_log t v (fun _ t' v' => t' = t ∧
    wrote v (reverse (log_writes l (vcont v) (seqZ 0 (lh_n l)))) (vrefs v) v').
Proof.
  intros l Hwf Hh Hhome Hlog Hsz. unfold write_log. apply vok_bind, vok_get_log. fold l.
  apply (vok_for_each p (fun dn t' v' => t' = t ∧
    wrote v (reverse (log_writes l (vcont v) dn)) (vrefs v) v')).
  - intros dn i rest t' v' Hi [-> Hw].
    destruct (seqZ_split _ _ _ _ Hi) as [Hir Hdn].
    pose proof (wf_n _ Hwf) as Hn. apply vok_bind, vok_get_log. fold l. rewrite (wf_dev _ Hwf).
    change (start l + i + 1) with (logb l i).
    assert (Hc : vcont v' (lh_block l i) = vcont v (lh_block l i)).
    { rewrite (w_cont _ _ _ _ Hw). apply apply_writes_other. intros w Hw'.
      apply elem_of_reverse, list_elem_of_fmap in Hw' as (j & -> & Hj). simpl.
      destruct (Hdn j Hj). pose proof (wf_home _ Hwf i Hir). unfold logb. lia. }
    pose proof Hw as [W1 W2 W3 W4 W5].
    eapply vok_mono; [apply (vok_copy_to i (lh_block l i) (logb l i) 1); rewrite ?W4, ?W5; try done; [lia|by apply Hhome|by apply Hlog]|].
    intros [] t' v'' [-> Hw']. split; [done|]. rewrite W4, Hc in Hw'.
    unfold log_writes. rewrite fmap_app, reverse_app. simpl.
    exact (wrote_trans v _ _ _ [_] _ _ Hw Hw').
  - split; [done|]. apply wrote_nil.
  - done.
Qed.

(** The references after the logged blocks [is_] have been unpinned. *)
Definition unpinned l (is_ : list Z) (m : gmap Z Z) : gmap Z Z :=
  foldl (fun m i => delete (lh_block l i) m) m is_.

Lemma unpinned_snoc l is_ i m : unpinned l (is_ ++ [i]) m = delete (lh_block l i) (unpinned l is_ m).
Proof. unfold unpinned. by rewrite foldl_snoc. Qed.

Lemma unpinned_lookup l is_ m b :
  unpinned l is_ m !! b = if decide (b ∈ lh_block l <$> is_) then None else m !! b.
Proof.
  induction is_ as [|i is_ IH] using rev_ind; [done|]. rewrite unpinned_snoc, fmap_app. simpl.
  destruct (decide (lh_block l i = b)) as [<-|Hne].
  - rewrite lookup_delete_eq. rewrite decide_True; [done|]. apply elem_of_app; right. by apply list_elem_of_singleton.
  - rewrite lookup_delete_ne, IH by done. apply decide_ext. rewrite elem_of_app, list_elem_of_singleton.
    split; [auto|intros [?|?]; [done|congruence]].
Qed.

Lemma unpinned_size l is_ m : (base.size (unpinned l is_ m) <= base.size m)%nat.
Proof.
  induction is_ as [|i is_ IH] using rev_ind; [done|]. rewrite unpinned_snoc.
  pose proof (map_size_delete (lh_block l i) (unpinned l is_ m)) as ->. destruct (_ !! _); simpl; lia.
Qed.

Lemma vok_install_trans (recovering : Z) t v :
  let l := lg t in
  log_wf l -> vheld v = ∅ ->
  (forall i, 0 <= i < lh_n l -> vrefs v !! lh_block l i = if recovering =? 0 then Some 1 else None) ->
  (forall i, 0 <= i < lh_n l -> vrefs v !! logb l i = None) ->
  (base.size (vrefs v) + 1 < Z.to_nat NBUF)%nat ∨
    (recovering = 0 ∧ (base.size (vrefs v) < Z.to_nat NBUF)%nat) ->
  vok p (install_trans recovering) t v (fun _ t' v' => t' = t ∧
    wrote v (reverse (home_writes l (vcont v) (seqZ 0 (lh_n l)))) (unpinned l (seqZ 0 (lh_n l)) (vrefs v)) v').
Proof.
  intros l Hwf Hh Hhome Hlog Hsz. unfold install_trans. apply vok_bind, vok_get_log. fold l.
  apply (vok_for_each p (fun dn t' v' => t' = t ∧
    wrote v (reverse (home_writes l (vcont v) dn)) (unpinned l dn (vrefs v)) v')).
  - intros dn i rest t' v' Hi [-> Hw]. destruct (seqZ_split _ _ _ _ Hi) as [Hir Hdn].
    pose proof (wf_n _ Hwf) as Hn. apply vok_clean. intros Hcl.
    apply vok_bind, vok_get_log. fold l. rewrite (wf_dev _ Hwf). change (start l + i + 1) with (logb l i).
    assert (Hout : forall j, 0 <= j < lh_n l -> lh_block l j ≠ logb l i).
    { intros j Hj. pose proof (wf_home _ Hwf j Hj). unfold logb. lia. }
    assert (Hc : vcont v' (logb l i) = vcont v (logb l i)).
    { rewrite (w_cont _ _ _ _ Hw). apply apply_writes_other. intros w Hw'.
      apply elem_of_reverse, list_elem_of_fmap in Hw' as (j & -> & Hj). simpl. by apply Hout, Hdn. }
    pose proof Hw as [W1 W2 W3 W4 W5].
    assert (Hnone : vrefs v' !! logb l i = None).
    { rewrite W4, unpinned_lookup. destruct (decide _); [done|by apply Hlog]. }
    pose proof (unpinned_size l dn (vrefs v)) as Hsz'.
    eapply vok_mono; [apply (vok_install_one recovering (logb l i) i (lh_block l i));
      [lia|done|congruence|by apply not_eq_sym, Hout|done|by apply Hcl| |rewrite W4; lia]|].
    + rewrite W4, unpinned_lookup, decide_False; [by apply Hhome|].
      intros (j & Hj1 & Hj2)%list_elem_of_fmap. destruct (Hdn j Hj2) as [Hj3 Hj4].
      apply Hj4. symmetry. by apply (wf_inj _ Hwf).
    + intros [] t' v'' [-> Hw']. split; [done|]. rewrite W4, Hc, <- unpinned_snoc in Hw'.
      unfold home_writes. rewrite fmap_app, reverse_app. simpl.
      exact (wrote_trans v _ _ _ [_] _ _ Hw Hw').
  - split; [done|]. apply wrote_nil.
  - done.
Qed.

(** The header that commits the transaction, written over the old header [d]. *)
Definition commit_head l (d : list Z) : list Z := put_head d (lh_n l) (lh_block l).

(** All writes of a commit, in program order: the blocks to the log, the header,
    the blocks to their home locations, the cleared header.  [c] are the
    contents of the blocks in the cache. *)
Definition commit_writes l (c : Z -> list Z) : list (Z * list Z) :=
  let hdr := commit_head l (c (start l)) in
  log_writes l c (seqZ 0 (lh_n l)) ++ [(start l, hdr)] ++
  ((fun i => (lh_block l i, c (lh_block l i))) <$> seqZ 0 (lh_n l)) ++ [(start l, put32 hdr 0 0)].

(** The pinned blocks are those of the log, and no buffer is locked. *)
Record pinned l v : Prop := {
  pn_held : vheld v = ∅;
  pn_block : forall i, 0 <= i < lh_n l -> vrefs v !! lh_block l i = Some 1;
  pn_only : forall b n, vrefs v !! b = Some n -> ∃ i, 0 <= i < lh_n l ∧ b = lh_block l i
}.

Lemma pinned_log l v i : log_wf l -> pinned l v -> -1 <= i < lh_n l -> vrefs v !! logb l i = None.
Proof.
  intros Hwf Hp Hi. apply eq_None_not_Some. intros [n Hn].
  destruct (pn_only _ _ Hp _ _ Hn) as (j & Hj & He). pose proof (wf_home _ Hwf j Hj).
  pose proof (wf_n _ Hwf). unfold logb in He. lia.
Qed.

Lemma logb_head l : logb l (-1) = start l.
Proof. unfold logb. lia. Qed.

Lemma pinned_size l v : log_wf l -> pinned l v -> (base.size (vrefs v) < Z.to_nat NBUF)%nat.
Proof.
  intros Hwf Hp. pose proof (wf_n _ Hwf) as Hn.
  assert (Hsub : dom (vrefs v) ⊆ (list_to_set (lh_block l <$> seqZ 0 (lh_n l)) : gset Z)).
  { intros b [n Hb]%elem_of_dom. destruct (pn_only _ _ Hp b n Hb) as (i & Hi & ->).
    apply elem_of_list_to_set, list_elem_of_fmap. exists i. split; [done|]. apply elem_of_seqZ. lia. }
  apply subseteq_size in Hsub. rewrite size_dom in Hsub.
  rewrite size_list_to_set, length_fmap, length_seqZ in Hsub; [unfold LOGSIZE, NBUF in *; lia|].
  apply NoDup_fmap_2_strong; [|apply NoDup_seqZ]. intros i j Hi%elem_of_seqZ Hj%elem_of_seqZ.
  apply (wf_inj _ Hwf); lia.
Qed.

Lemma unpinned_all l v : pinned l v -> unpinned l (seqZ 0 (lh_n l)) (vrefs v) = ∅.
Proof.
  intros Hp. apply map_eq. intros b. rewrite unpinned_lookup, lookup_empty. destruct (decide _) as [|Hn]; [done|].
  apply eq_None_not_Some. intros [n Hb]. destruct (pn_only _ _ Hp _ _ Hb) as (i & Hi & ->).
  apply Hn, list_elem_of_fmap. exists i. split; [done|]. apply elem_of_seqZ. lia.
Qed.

(** The writes of [install_trans] after those of [write_log] and [write_head]. *)
Lemma home_writes_after l c d :
  log_wf l ->
  home_writes l (apply_writes ((start l, d) :: reverse (log_writes l c (seqZ 0 (lh_n l)))) c) (seqZ 0 (lh_n l)) =
  (fun i => (lh_block l i, c (lh_block l i))) <$> seqZ 0 (lh_n l).
Proof.
  intros Hwf. apply list_fmap_ext. intros k i Hk.
  assert (Hi : 0 <= i < lh_n l) by (apply list_elem_of_lookup_2, elem_of_seqZ in Hk; lia).
  f_equal. simpl. rewrite upd_ne by (unfold logb; lia).
  apply list_elem_of_lookup_2, list_elem_of_split in Hk as (dn & rest & Hs). rewrite Hs.
  destruct (seqZ_split _ _ _ _ Hs) as [_ Hdn].
  unfold log_writes. rewrite fmap_app, fmap_cons, reverse_app, reverse_cons, <- app_assoc, apply_writes_app.
  rewrite apply_writes_other.
  - simpl. by rewrite upd_eq.
  - intros w (j & -> & Hj)%elem_of_reverse%list_elem_of_fmap. simpl.
    pose proof (NoDup_seqZ 0 (lh_n l)) as Hnd. rewrite Hs in Hnd.
    apply NoDup_app in Hnd as (_ & _ & [Hni _]%NoDup_cons). unfold logb. intros He.
    assert (j = i) by lia. congruence.
Qed.

Lemma vok_commit t v :
  let l := lg t in
  log_wf l -> 0 < lh_n l -> pinned l v ->
  vok p commit t v (fun _ t' v' => t' = t <| lg ::= fun l => l <| lh_n := 0 |> |> ∧
    wrote v (reverse (commit_writes l (vcont v))) ∅ v').
Proof.
  intros l Hwf Hpos Hp. pose proof (wf_n _ Hwf) as Hn. pose proof (pinned_size _ _ Hwf Hp) as Hsz.
  pose proof (pn_held _ _ Hp) as Hh. pose proof (pinned_log l v (-1) Hwf Hp ltac:(lia)) as Hs. rewrite logb_head in Hs.
  assert (Hlog : forall i, 0 <= i < lh_n l -> vrefs v !! logb l i = None) by (intros; apply pinned_log; [done|done|lia]).
  unfold commit. apply vok_bind, vok_get_log. fold l. apply vok_when; [intros _|lia].
  apply vok_bind. eapply vok_mono; [apply vok_write_log; try done; apply Hp|]. intros [] t1 v1 [-> W1]. fold l in W1.
  assert (Hc1 : vcont v1 (start l) = vcont v (start l)).
  { rewrite (w_cont _ _ _ _ W1). apply apply_writes_other.
    intros w (j & -> & Hj%elem_of_seqZ)%elem_of_reverse%list_elem_of_fmap. simpl. unfold logb. lia. }
  apply vok_bind. eapply vok_mono; [apply vok_write_head; fold l; rewrite ?(w_refs _ _ _ _ W1), ?(w_held _ _ _ _ W1);
    try done; [apply Hwf|lia]|]. fold l.
  intros [] t2 v2 [-> W2]. rewrite Hc1, (w_refs _ _ _ _ W1) in W2. fold (commit_head l (vcont v (start l))) in W2.
  pose proof (wrote_trans _ _ _ _ _ _ _ W1 W2) as W12. simpl in W12.
  apply vok_bind. eapply vok_mono; [apply vok_install_trans; fold l; rewrite ?(w_refs _ _ _ _ W12), ?(w_held _ _ _ _ W12);
    try done; [apply Hp|by right]|]. fold l.
  intros [] t3 v3 [-> W3]. rewrite (w_refs _ _ _ _ W12), unpinned_all in W3 by done.
  rewrite (w_cont _ _ _ _ W12), home_writes_after in W3 by done.
  pose proof (wrote_trans _ _ _ _ _ _ _ W12 W3) as W123.
  apply vok_bind, vok_mod_log. set (t' := t <| lg ::= _ |>).
  assert (Hc3 : vcont v3 (start l) = commit_head l (vcont v (start l))).
  { rewrite (w_cont _ _ _ _ W123), apply_writes_app, apply_writes_other; [simpl; apply upd_eq|].
    intros w (j & -> & Hj%elem_of_seqZ)%elem_of_reverse%list_elem_of_fmap. simpl.
    pose proof (wf_home _ Hwf j ltac:(lia)). unfold LOGSIZE in *. lia. }
  eapply vok_mono; [apply (vok_write_head t'); rewrite ?(w_refs _ _ _ _ W123), ?(w_held _ _ _ _ W123);
    [apply Hwf|simpl; lia|done|apply lookup_empty|rewrite map_size_empty; vm_compute; lia]|].
  intros [] t4 v4 [-> W4]. split; [done|]. rewrite (w_refs _ _ _ _ W123) in W4.
  change (start (lg t')) with (start l) in W4. rewrite Hc3 in W4.
  pose proof (wrote_trans _ _ _ _ _ _ _ W123 W4) as W. unfold commit_writes.
  rewrite !reverse_app, <- !app_assoc. simpl. exact W.
Qed.

(** The log after [read_head] of the header block [d]. *)
Definition load_blocks (d : list Z) (g : Z -> Z) (is_ : list Z) : Z -> Z :=
  foldl (fun g i => upd g i (head_block d i)) g is_.
Definition load_head (d : list Z) l : log :=
  l <| lh_n := head_n d |> <| lh_block ::= fun g => load_blocks d g (seqZ 0 (head_n d)) |>.

Lemma load_blocks_lookup d g is_ i :
  load_blocks d g is_ i = if decide (i ∈ is_) then head_block d i else g i.
Proof.
  unfold load_blocks. induction is_ as [|j is_ IH] using rev_ind; [done|]. rewrite foldl_snoc.
  destruct (decide (i = j)) as [->|Hne].
  - rewrite upd_eq, decide_True; [done|]. apply elem_of_app; right. by apply list_elem_of_singleton.
  - rewrite upd_ne, IH by done. apply decide_ext. rewrite elem_of_app, list_elem_of_singleton.
    split; [auto|intros [?|?]; done].
Qed.

Lemma load_head_block d l i : 0 <= i < head_n d -> lh_block (load_head d l) i = head_block d i.
Proof.
  intros Hi. unfold load_head; simpl. rewrite load_blocks_lookup, decide_True; [done|].
  apply elem_of_seqZ. lia.
Qed.

Lemma vok_set_block i x t v (Q : unit -> ftop U -> bview -> Prop) :
  0 <= i < LOGSIZE -> Q tt (t <| lg ::= fun l => l <| lh_block ::= fun g => upd g i x |> |>) v ->
  vok p (set_block i x) t v Q.
Proof.
  intros Hi HQ. unfold set_block. assert ((0 <=? i) && (i <? LOGSIZE) = true) as -> by lia. by apply vok_mod_log.
Qed.

Lemma vok_read_head t v :
  let l := lg t in let d := vcont v (start l) in
  ldev l = ROOTDEV -> head_n d <= LOGSIZE ->
  vheld v = ∅ -> vrefs v !! start l = None -> (base.size (vrefs v) < Z.to_nat NBUF)%nat ->
  vok p read_head t v (fun _ t' v' => t' = t <| lg ::= load_head d |> ∧ wrote v [] (vrefs v) v').
Proof.
  intros l d Hdev Hn Hh Hs Hsz.
  assert (Hh' : forall b, vheld v !! b = None) by (intros b'; by rewrite Hh, lookup_empty).
  apply vok_clean. intros Hcl. unfold read_head. apply vok_bind, vok_get_log. fold l. rewrite Hdev.
  apply vok_bind, vok_bread; [done|by right|by view_simpl|]. intros i.
  apply vok_bind, (vok_data p _ (start l)); [by view_simpl|view_simpl; eauto|]. rewrite take_cont. fold d.
  apply vok_bind, vok_mod_log. apply vok_bind, vok_get_log. apply vok_bind.
  apply (vok_for_each p (fun dn t' v' => v' = take_block p (start l) i v ∧
    t' = t <| lg ::= fun l => l <| lh_n := head_n d |> <| lh_block ::= fun g => load_blocks d g dn |> |>)).
  - intros dn k rest t' v' Hk [-> ->]. destruct (seqZ_split _ _ _ _ Hk) as [Hkr _]. simpl in Hkr.
    apply vok_set_block; [lia|]. split; [done|]. unfold load_blocks.
    unfold setter; cbn. by rewrite foldl_snoc.
  - by destruct t as [[] ?].
  - intros t' v' [-> ->]. apply (vok_brelse p _ (start l) 1); [by view_simpl..| |].
    { intros _. view_simpl. by apply Hcl. }
    split; [done|]. split; [by view_simpl..| |].
    + apply map_eq. intros k. key_cases k (start l) (start l); by view_simpl.
    + apply map_eq. intros k. key_cases k (start l) (start l); by view_simpl.
Qed.

(** The writes of [recover_from_log], in program order, when the header on the
    disk is that of [l] and the blocks of the disk are [c]. *)
Definition recover_writes l (c : Z -> list Z) : list (Z * list Z) :=
  home_writes l c (seqZ 0 (lh_n l)) ++ [(start l, put32 (c (start l)) 0 0)].

Lemma vok_recover t v :
  let l := load_head (vcont v (start (lg t))) (lg t) in
  log_wf l -> vheld v = ∅ -> vrefs v = ∅ ->
  vok p recover_from_log t v (fun _ t' v' => t' = t <| lg := l <| lh_n := 0 |> |> ∧
    wrote v (reverse (recover_writes l (vcont v))) ∅ v').
Proof.
  intros l Hwf Hh Hr. pose proof (wf_n _ Hwf) as Hn. set (s := start (lg t)) in *.
  assert (Hempty : (base.size (∅ : gmap Z Z) + 1 < Z.to_nat NBUF)%nat) by (rewrite map_size_empty; vm_compute; lia).
  unfold recover_from_log. apply vok_bind.
  eapply vok_mono; [apply vok_read_head; fold s; rewrite ?Hr; [apply Hwf|change (lh_n l) with (head_n (vcont v s)) in Hn; lia|done|apply lookup_empty|lia]|].
  intros [] t1 v1 [-> W1]. fold s in W1 |- *. rewrite Hr in W1.
  set (t1 := t <| lg ::= _ |>). change (lg t1) with l.
  pose proof (w_refs _ _ _ _ W1) as Hr1. pose proof (w_held _ _ _ _ W1) as Hh1. pose proof (w_cont _ _ _ _ W1) as Hc1.
  simpl in Hc1. rewrite Hh in Hh1.
  apply vok_bind. eapply vok_mono; [apply (vok_install_trans 1 t1); rewrite ?Hr1;
    [done|done|intros; apply lookup_empty|intros; apply lookup_empty|by left]|].
  change (lg t1) with l. intros [] t2 v2 [-> W2]. rewrite Hr1, Hc1 in W2.
  assert (He : unpinned l (seqZ 0 (lh_n l)) ∅ = ∅).
  { apply map_eq. intros b. rewrite unpinned_lookup, lookup_empty. by destruct (decide _). }
  rewrite He in W2. pose proof (wrote_trans _ _ _ _ _ _ _ W1 W2) as W12. rewrite app_nil_r in W12.
  assert (Hc2 : vcont v2 s = vcont v s).
  { rewrite (w_cont _ _ _ _ W12), apply_writes_other; [done|].
    intros w (j & -> & Hj%elem_of_seqZ)%elem_of_reverse%list_elem_of_fmap. cbn [fst].
    pose proof (wf_home _ Hwf j ltac:(lia)) as Ho. change (start l) with s in Ho. unfold LOGSIZE in *. lia. }
  apply vok_bind, vok_mod_log. set (t3 := t1 <| lg ::= _ |>).
  eapply vok_mono; [apply (vok_write_head t3); rewrite ?(w_refs _ _ _ _ W2), ?(w_held _ _ _ _ W12);
    [apply Hwf|simpl; lia|done|apply lookup_empty|lia]|].
  intros [] t4 v4 [-> W4]. split; [done|]. rewrite (w_refs _ _ _ _ W2) in W4.
  change (start (lg t3)) with s in W4. rewrite Hc2 in W4.
  pose proof (wrote_trans _ _ _ _ _ _ _ W12 W4) as W. unfold recover_writes.
  rewrite !reverse_app. simpl. exact W.
Qed.

(** ** Recording a block in the log *)

Lemma vok_buf i b t v (Q : buf -> ftop U -> bview -> Prop) :
  i = vbuf v b -> is_Some (vrefs v !! b) -> (forall x, blockno x = b -> Q x t v) -> vok p (get_buf i) t v Q.
Proof.
  intros -> [n Hn] HQ c Hc. destruct (in_use_slot _ _ _ _ Hc Hn) as (U1 & _ & U3 & _).
  exists (bufs c (vbuf v b)), c, t, v. split; [|auto]. apply get_buf_eq. unfold HEAD. simpl. lia.
Qed.

Lemma vok_acquire_log t v (Q : unit -> ftop U -> bview -> Prop) :
  log_lock (lg t) = false -> Q tt (t <| lg ::= fun l => l <| log_lock := true |> |>) v ->
  vok p (acquire_spin loglock) t v Q.
Proof.
  intros Hl HQ c Hc. exists tt, c, (t <| lg ::= fun l => l <| log_lock := true |> |>), v. split; [|auto].
  unfold acquire_spin. simpl. by rewrite Hl.
Qed.

Lemma vok_release_log t v (Q : unit -> ftop U -> bview -> Prop) :
  log_lock (lg t) = true -> Q tt (t <| lg ::= fun l => l <| log_lock := false |> |>) v ->
  vok p (release_spin loglock) t v Q.
Proof.
  intros Hl HQ c Hc. exists tt, c, (t <| lg ::= fun l => l <| log_lock := false |> |>), v. split; [|auto].
  unfold release_spin. simpl. by rewrite Hl.
Qed.

(** The position of a block in the log, or the end of the log. *)
Lemma vok_absorb fuel i n b t v (Q : Z -> ftop U -> bview -> Prop) :
  0 <= i <= n -> n <= LOGSIZE -> (Z.to_nat (n - i) < fuel)%nat ->
  (forall j, 0 <= j < i -> lh_block (lg t) j ≠ b) ->
  (forall j, i <= j < n -> lh_block (lg t) j = b -> (forall k, 0 <= k < j -> lh_block (lg t) k ≠ b) -> Q j t v) ->
  ((forall j, 0 <= j < n -> lh_block (lg t) j ≠ b) -> Q n t v) ->
  vok p (absorb fuel i n b) t v Q.
Proof.
  revert i. induction fuel as [|fuel IH]; intros i Hi Hn Hf Hlt Hin Hout; [lia|]. simpl.
  destruct (i <? n) eqn:Hin'.
  - apply vok_bind, vok_get_block; [lia|]. destruct (lh_block (lg t) i =? b) eqn:He.
    + apply vok_ret, Hin; [lia|lia|done].
    + apply IH; [lia|done|lia| |intros j Hj; apply Hin; lia|done].
      intros j Hj. destruct (decide (j = i)) as [->|]; [lia|apply Hlt; lia].
  - apply vok_ret. replace i with n in * by lia. by apply Hout.
Qed.

Definition add_block (b : Z) l : log :=
  l <| lh_block ::= fun g => upd g (lh_n l) b |> <| lh_n := lh_n l + 1 |>.

#[local] Opaque absorb.
Lemma vok_log_write i b m t v (Q : unit -> ftop U -> bview -> Prop) :
  let l := lg t in
  i = vbuf v b -> vrefs v !! b = Some m -> m + 1 < 2^31 ->
  log_lock l = false -> 1 <= outstanding l -> 0 <= lh_n l < LOGSIZE -> lh_n l < log_size l - 1 ->
  ((∃ j, 0 <= j < lh_n l ∧ lh_block l j = b) -> Q tt t v) ->
  ((forall j, 0 <= j < lh_n l -> lh_block l j ≠ b) -> Q tt (t <| lg ::= add_block b |>) (with_refs b (m + 1) v)) ->
  vok p (log_write i) t v Q.
Proof.
  intros l Hi Hm Hmm Hlk Hout Hn Hsz Hin Hnew. unfold log_write.
  apply vok_bind, vok_acquire_log; [done|]. apply vok_bind, vok_get_log. simpl. fold l. assert ((LOGSIZE <=? lh_n l) || (log_size l - 1 <=? lh_n l) = false) as -> by lia.
  assert ((outstanding l <? 1) = false) as -> by lia.
  apply vok_bind, (vok_buf _ b); [done|eauto|]. intros x Hx. rewrite Hx.
  apply vok_bind, vok_absorb; [lia|lia|lia|lia| |]; simpl; fold l.
  - intros j Hj He _. apply vok_bind, vok_set_block; [lia|]. apply vok_bind, vok_when; [lia|intros _].
    apply vok_release_log; [done|].
    cut (Q tt t v); [|apply Hin; exists j; split; [lia|done]].
    destruct t as [[] ?]; unfold setter; simpl in *. subst. by rewrite upd_same.
  - intros Hno. apply vok_bind, vok_set_block; [lia|]. apply vok_bind, vok_when; [intros _|lia].
    apply vok_bind, (vok_bpin p _ b m); [done|done|done|]. apply vok_mod_log. apply vok_release_log; [done|].
    cut (Q tt (t <| lg ::= add_block b |>) (with_refs b (m + 1) v)); [|by apply Hnew].
    destruct t as [[] ?]; unfold add_block, setter; simpl in *. by subst.
Qed.
End rep.
