(* ===== verification/LogProps.v ===== *)
(** * LogProps: what the log guarantees

    Crash safety of [commit] and of recovery, stated of the code: the kernel
    crashes after any number of the block writes, the machine starts again with
    [binit] and [initlog], and the blocks of the file system are then those
    before the transaction or those after it. *)

From stdpp Require Import gmap.
From S2P Require Import Prelude Bytes SleepLock Bio BioRep Log LogRep.

(** * transactions survive crashes

    A crash keeps some first part of the block writes an operation performs.
    Whatever part of the writes of [commit] (or of an interrupted recovery) that
    is, booting again brings the file system to the state before the transaction
    or to the one after it. *)

(** ** The header block *)
Section header.

Lemma length_put_blocks blk d is_ : length (put_blocks blk d is_) = length d.
Proof.
  unfold put_blocks. induction is_ as [|i is_ IH] using rev_ind; [done|].
  by rewrite foldl_snoc, length_put32.
Qed.

Lemma put_blocks_n blk d is_ : (forall i, i ∈ is_ -> 0 <= i) -> get32 (put_blocks blk d is_) 0 = get32 d 0.
Proof.
  unfold put_blocks. induction is_ as [|i is_ IH] using rev_ind; intros Hi; [done|]. rewrite foldl_snoc.
  assert (0 <= i) by (apply Hi, elem_of_app; right; by apply list_elem_of_singleton).
  rewrite get_put32_ne by lia. apply IH. intros j Hj. apply Hi, elem_of_app; auto.
Qed.

Lemma put_blocks_block blk d is_ i :
  (forall j, j ∈ is_ -> 0 <= j < LOGSIZE) -> length d = Z.to_nat BSIZE -> i ∈ is_ ->
  get32 (put_blocks blk d is_) (4 + 4 * i) = u32 (blk i).
Proof.
  intros Hr Hd. unfold put_blocks. induction is_ as [|j is_ IH] using rev_ind; intros Hi; [by apply not_elem_of_nil in Hi|].
  rewrite foldl_snoc.
  assert (Hj : 0 <= j < LOGSIZE) by (apply Hr, elem_of_app; right; by apply list_elem_of_singleton).
  destruct (decide (i = j)) as [->|Hne].
  - apply get_put32; [lia|]. pose proof (length_put_blocks blk d is_) as Hl. unfold put_blocks in Hl. rewrite Hl, Hd.
    unfold BSIZE, LOGSIZE, MAXOPBLOCKS in *. lia.
  - rewrite get_put32_ne by lia. apply IH; [intros k Hk; apply Hr, elem_of_app; auto|].
    apply elem_of_app in Hi as [Hi|Hi]; [done|]. by apply list_elem_of_singleton in Hi.
Qed.

Lemma i32_small z : 0 <= z < 2^31 -> i32 z = z.
Proof. intros Hz. unfold i32. rewrite Z.mod_small by lia. lia. Qed.

(** The header that is written reads back as the log it was written from. *)
Lemma head_of_commit l d : log_wf l -> length d = Z.to_nat BSIZE ->
  head_n (commit_head l d) = lh_n l ∧
  forall i, 0 <= i < lh_n l -> head_block (commit_head l d) i = lh_block l i.
Proof.
  intros Hwf Hd. pose proof (wf_n _ Hwf) as Hn. unfold commit_head, put_head, head_n, head_block, get_int. split.
  - rewrite put_blocks_n by (intros i Hi%elem_of_seqZ; lia).
    rewrite get_put32, i32_u32 by (rewrite ?Hd; unfold BSIZE; lia). apply i32_small. unfold LOGSIZE, MAXOPBLOCKS in Hn. lia.
  - intros i Hi. rewrite put_blocks_block, i32_u32.
    + apply i32_small, (wf_int _ Hwf); lia.
    + intros j Hj%elem_of_seqZ. lia.
    + by rewrite length_put32.
    + apply elem_of_seqZ. lia.
Qed.

Lemma head_cleared d : length d = Z.to_nat BSIZE -> head_n (put32 d 0 0) = 0.
Proof. intros Hd. unfold head_n, get_int. rewrite get_put32 by (rewrite ?Hd; unfold BSIZE; lia). done. Qed.
End header.

(** ** What recovery makes of a disk *)
Section recovery.
Implicit Types (l : log) (d c : Z -> list Z).

(** Blocks outside the log. *)
Definition home l (b : Z) : Prop := b < start l ∨ start l + LOGSIZE <= b.

(** The log [l] with the header of disk [d], and the disk after recovery. *)
Definition disk_log l d : log := load_head (d (start l)) l.
Definition recovered l d : Z -> list Z :=
  apply_writes (reverse (recover_writes (disk_log l d) d)) d.

(** Writes that agree on the value of block [b]. *)
Lemma apply_writes_const ws d b x :
  (forall w, w ∈ ws -> w.1 = b -> w.2 = x) -> (∃ w, w ∈ ws ∧ w.1 = b) ∨ d b = x -> apply_writes ws d b = x.
Proof.
  induction ws as [|w ws IH]; intros Hw Hd; simpl.
  - destruct Hd as [(w & Hin & _)|Hd]; [by apply not_elem_of_nil in Hin|done].
  - destruct (decide (b = w.1)) as [->|Hne].
    + rewrite upd_eq. apply Hw; [apply elem_of_cons; auto|done].
    + rewrite upd_ne by done. apply IH.
      * intros w' Hw'. apply Hw, elem_of_cons; auto.
      * destruct Hd as [(w' & [->|Hin]%elem_of_cons & He)|Hd]; [by destruct Hne|left; eauto|auto].
Qed.

Lemma recovered_home l d b x :
  home l b -> let n := head_n (d (start l)) in let blk := head_block (d (start l)) in
  (forall i, 0 <= i < n -> blk i = b -> d (logb l i) = x) ->
  (∃ i, 0 <= i < n ∧ blk i = b) ∨ d b = x -> recovered l d b = x.
Proof.
  intros Hb n blk Hi Hx. unfold recovered, recover_writes. change (lh_n (disk_log l d)) with n.
  apply apply_writes_const.
  - intros w Hw He. apply elem_of_reverse, elem_of_app in Hw as [(i & -> & Hin%elem_of_seqZ)%list_elem_of_fmap|Hw].
    + cbn [fst snd] in *. unfold disk_log in He. rewrite load_head_block in He by (fold n; lia). apply Hi; [lia|done].
    + apply list_elem_of_singleton in Hw as ->. cbn [fst] in He. change (start (disk_log l d)) with (start l) in He.
      unfold home in Hb. unfold LOGSIZE, MAXOPBLOCKS in Hb. lia.
  - destruct Hx as [(i & Hin & He)|Hx]; [left|by right].
    exists (lh_block (disk_log l d) i, d (logb (disk_log l d) i)). split.
    + apply elem_of_reverse, elem_of_app; left. apply list_elem_of_fmap. exists i. split; [done|]. apply elem_of_seqZ. lia.
    + cbn [fst]. unfold disk_log. by rewrite load_head_block.
Qed.

Lemma apply_log_writes l c ws d i :
  log_wf l -> 0 <= i < lh_n l -> (forall w, w ∈ ws -> w.1 ≠ logb l i) ->
  apply_writes (ws ++ reverse (log_writes l c (seqZ 0 (lh_n l)))) d (logb l i) = c (lh_block l i).
Proof.
  intros Hwf Hi Hws. rewrite apply_writes_app, apply_writes_other by done.
  apply apply_writes_const.
  - intros w (j & -> & Hj)%elem_of_reverse%list_elem_of_fmap. simpl. unfold logb. intros He. by replace j with i by lia.
  - left. exists (logb l i, c (lh_block l i)). split; [|done].
    apply elem_of_reverse, list_elem_of_fmap. exists i. split; [done|]. apply elem_of_seqZ. lia.
Qed.

Lemma start_not_home l : ~ home l (start l).
Proof. unfold home, LOGSIZE, MAXOPBLOCKS. lia. Qed.
Lemma logb_not_home l i : log_wf l -> 0 <= i < lh_n l -> ~ home l (logb l i).
Proof. intros Hwf Hi. pose proof (wf_n _ Hwf). unfold home, logb. lia. Qed.

Lemma take_reverse_elem {A} (x : A) k xs : x ∈ reverse (take k xs) -> x ∈ xs.
Proof. rewrite elem_of_reverse. apply subseteq_take. Qed.

Definition home_targets l c : list (Z * list Z) :=
  (fun i => (lh_block l i, c (lh_block l i))) <$> seqZ 0 (lh_n l).

Lemma elem_home_targets l c w : w ∈ home_targets l c -> ∃ i, 0 <= i < lh_n l ∧ w = (lh_block l i, c (lh_block l i)).
Proof. intros (i & -> & Hi%elem_of_seqZ)%list_elem_of_fmap. exists i. split; [lia|done]. Qed.
Lemma elem_log_writes l c w : w ∈ log_writes l c (seqZ 0 (lh_n l)) -> ∃ i, 0 <= i < lh_n l ∧ w = (logb l i, c (lh_block l i)).
Proof. intros (i & -> & Hi%elem_of_seqZ)%list_elem_of_fmap. exists i. split; [lia|done]. Qed.

(** The setting of a commit: the blocks [c] in the cache and [d] on the disk
    differ outside the log only in the logged blocks, and the header on the disk
    is clear. *)
Record committable l c d : Prop := {
  cm_wf : log_wf l;
  cm_same : forall b, home l b -> (forall i, 0 <= i < lh_n l -> lh_block l i ≠ b) -> d b = c b;
  cm_head : c (start l) = d (start l);
  cm_clear : head_n (d (start l)) = 0;
  cm_len : length (d (start l)) = Z.to_nat BSIZE
}.

(** A crash while the blocks are copied to the log. *)
Lemma crash_in_log l c d k b :
  committable l c d -> home l b ->
  recovered l (apply_writes (reverse (take k (log_writes l c (seqZ 0 (lh_n l))))) d) b = d b.
Proof.
  intros Hc Hb.
  assert (Hother : forall b', (forall i, 0 <= i < lh_n l -> logb l i ≠ b') ->
    apply_writes (reverse (take k (log_writes l c (seqZ 0 (lh_n l))))) d b' = d b').
  { intros b' Hb'. apply apply_writes_other. intros w Hw%take_reverse_elem%elem_log_writes.
    destruct Hw as (i & Hi & ->). by apply Hb'. }
  apply recovered_home; [done|..]; rewrite (Hother (start l)), (cm_clear _ _ _ Hc) by (unfold logb; lia); [lia|].
  right. apply Hother. intros i Hi <-. by apply (logb_not_home l i (cm_wf _ _ _ Hc)).
Qed.

(** A crash after the header has been written, while blocks are installed. *)
Lemma crash_in_install l c d k b :
  committable l c d -> home l b ->
  recovered l (apply_writes (reverse (take k (home_targets l c)) ++
    (start l, commit_head l (c (start l))) :: reverse (log_writes l c (seqZ 0 (lh_n l)))) d) b = c b.
Proof.
  intros Hc Hb. pose proof (cm_wf _ _ _ Hc) as Hwf. set (hdr := commit_head l (c (start l))).
  set (d' := apply_writes _ d).
  destruct (head_of_commit l (c (start l)) Hwf) as [Hn Hblk]; [rewrite (cm_head _ _ _ Hc); apply Hc|]. fold hdr in Hn, Hblk.
  assert (Hhead : d' (start l) = hdr).
  { unfold d'. rewrite apply_writes_app, apply_writes_other; [apply upd_eq|].
    intros w (i & Hi & ->)%take_reverse_elem%elem_home_targets He. apply (start_not_home l). rewrite <- He.
    by apply (wf_home _ Hwf). }
  assert (Hlog : forall i, 0 <= i < lh_n l -> d' (logb l i) = c (lh_block l i)).
  { intros i Hi. unfold d'. rewrite cons_middle, app_assoc. apply apply_log_writes; [done..|].
    intros w [Hw|Hw]%elem_of_app.
    - apply take_reverse_elem, elem_home_targets in Hw as (j & Hj & ->). simpl. intros He.
      apply (logb_not_home l i Hwf Hi). rewrite <- He. by apply (wf_home _ Hwf).
    - apply list_elem_of_singleton in Hw as ->. simpl. unfold logb. lia. }
  apply recovered_home; [done|..]; rewrite Hhead, Hn.
  - intros i Hi He. rewrite Hblk in He by done. rewrite Hlog by done. by rewrite He.
  - destruct (decide (b ∈ lh_block l <$> seqZ 0 (lh_n l))) as [Hin|Hni].
    + apply list_elem_of_fmap in Hin as (i & -> & Hi%elem_of_seqZ). left. exists i. rewrite Hblk by lia. split; [lia|done].
    + right. rewrite <- (cm_same _ _ _ Hc b Hb).
      * apply apply_writes_other. intros w Hw He. subst b. apply elem_of_app in Hw as [Hw|[->|Hw]%elem_of_cons].
        -- apply take_reverse_elem, elem_home_targets in Hw as (i & Hi & ->). apply Hni, list_elem_of_fmap.
           exists i. split; [done|]. apply elem_of_seqZ. lia.
        -- by apply (start_not_home l).
        -- apply elem_of_reverse, elem_log_writes in Hw as (i & Hi & ->). by apply (logb_not_home l i).
      * intros i Hi He. apply Hni, list_elem_of_fmap. exists i. split; [done|]. apply elem_of_seqZ. lia.
Qed.

(** After the header has been cleared. *)
Lemma crash_after l c d b :
  committable l c d -> home l b ->
  let d' := apply_writes (reverse (commit_writes l c)) d in
  d' b = c b ∧ recovered l d' b = c b ∧ head_n (d' (start l)) = 0.
Proof.
  intros Hc Hb d'. pose proof (cm_wf _ _ _ Hc) as Hwf.
  assert (Hd : d' b = c b).
  { unfold d', commit_writes. rewrite !reverse_app. apply apply_writes_const.
    - intros w Hw He. subst b. rewrite !elem_of_app, !elem_of_reverse, !list_elem_of_singleton in Hw.
      destruct Hw as [[[-> | Hw] | ->] | Hw]; [by apply start_not_home in Hb| |by apply start_not_home in Hb|].
      + apply elem_home_targets in Hw as (i & Hi & ->). done.
      + apply elem_log_writes in Hw as (i & Hi & ->). by apply (logb_not_home l i) in Hb.
    - destruct (decide (b ∈ lh_block l <$> seqZ 0 (lh_n l))) as [Hin|Hni].
      + apply list_elem_of_fmap in Hin as (i & -> & Hi). left. exists (lh_block l i, c (lh_block l i)). split; [|done].
        rewrite !elem_of_app, !elem_of_reverse, list_elem_of_fmap. left; left; right. eauto.
      + right. apply (cm_same _ _ _ Hc b Hb). intros i Hi He. apply Hni, list_elem_of_fmap.
        exists i. split; [done|]. apply elem_of_seqZ. lia. }
  assert (Hh : head_n (d' (start l)) = 0).
  { unfold d', commit_writes. rewrite !reverse_app, <- !app_assoc. simpl. rewrite upd_eq. apply head_cleared.
    unfold commit_head, put_head. rewrite length_put_blocks, length_put32, (cm_head _ _ _ Hc). apply Hc. }
  split; [done|]. split; [|done]. apply recovered_home; [done|..]; rewrite Hh; [lia|auto].
Qed.

(** The disks a crash during the commit may leave. *)
Lemma commit_prefix l c d k :
  committable l c d -> let d' := apply_writes (reverse (take k (commit_writes l c))) d in
  (forall b, home l b -> recovered l d' b = d b) ∨ (forall b, home l b -> recovered l d' b = c b).
Proof.
  intros Hc d'. set (A := log_writes l c (seqZ 0 (lh_n l))).
  destruct (decide (k <= length A)%nat) as [Hk|Hk].
  - left. intros b Hb. unfold d', commit_writes. fold A. rewrite take_app_le by done. by apply crash_in_log.
  - right. intros b Hb. destruct (decide (k - S (length A) <= length (home_targets l c))%nat) as [Hk2|Hk2].
    + unfold d', commit_writes. fold A. rewrite take_app_ge by lia. rewrite reverse_app. fold (home_targets l c).
      destruct (k - length A)%nat as [|j] eqn:Hj; [lia|]. cbn [app take]. rewrite take_app_le by lia.
      rewrite reverse_cons, <- app_assoc. by apply crash_in_install.
    + unfold d'. rewrite take_ge; [by apply crash_after|]. unfold commit_writes. fold A. fold (home_targets l c).
      rewrite !length_app. simpl. lia.
Qed.

(** The header and the log blocks stay as they are until recovery clears the
    header, so an interrupted recovery may be repeated. *)
Lemma recover_prefix l d k b :
  log_wf (disk_log l d) -> length (d (start l)) = Z.to_nat BSIZE -> home l b ->
  recovered l (apply_writes (reverse (take k (recover_writes (disk_log l d) d))) d) b = recovered l d b.
Proof.
  intros Hwf Hlen Hb. set (l' := disk_log l d) in *. unfold recover_writes.
  set (A := home_writes l' d (seqZ 0 (lh_n l'))).
  destruct (decide (k <= length A)%nat) as [Hk|Hk].
  - rewrite take_app_le by done. set (d' := apply_writes _ d).
    assert (Hsame : forall b', ~ home l b' -> d' b' = d b').
    { intros b' Hb'. apply apply_writes_other. intros w Hw%take_reverse_elem He. subst b'.
      apply list_elem_of_fmap in Hw as (i & -> & Hi%elem_of_seqZ). apply Hb', (wf_home _ Hwf). lia. }
    assert (Hh : d' (start l) = d (start l)) by apply Hsame, start_not_home.
    assert (Hlogb : forall i, 0 <= i < lh_n l' -> d' (logb l i) = d (logb l i)).
    { intros i Hi. apply Hsame. by apply (logb_not_home l' i). }
    assert (Hblk : forall i, 0 <= i < lh_n l' -> lh_block l' i = head_block (d (start l)) i)
      by (intros; by apply load_head_block).
    destruct (decide (b ∈ lh_block l' <$> seqZ 0 (lh_n l'))) as [Hin|Hni].
    + apply list_elem_of_fmap in Hin as (i & -> & Hi%elem_of_seqZ). rewrite Z.add_0_l in Hi.
      trans (d (logb l i)); [|symmetry]; apply recovered_home; try done; rewrite ?Hh; eauto 6.
      * intros j Hj He. change (head_n _) with (lh_n l') in Hj. rewrite <- Hblk in He by done.
        rewrite Hlogb by done. by rewrite (wf_inj _ Hwf j i Hj Hi He).
      * left. exists i. split; [done|]. by rewrite Hblk.
      * intros j Hj He. change (head_n _) with (lh_n l') in Hj. rewrite <- Hblk in He by done.
        by rewrite (wf_inj _ Hwf j i Hj Hi He).
      * left. exists i. split; [done|]. by rewrite Hblk.
    + assert (Hno : forall i, 0 <= i < lh_n l' -> head_block (d (start l)) i ≠ b).
      { intros i Hi He. apply Hni, list_elem_of_fmap. exists i. rewrite Hblk by done. split; [done|].
        apply elem_of_seqZ. lia. }
      trans (d b); [|symmetry]; apply recovered_home; try done; rewrite ?Hh; auto;
        try (intros j Hj He; by destruct (Hno j Hj)).
      right. apply apply_writes_other. intros w Hw%take_reverse_elem He. subst b.
      apply list_elem_of_fmap in Hw as (i & -> & Hi). apply Hni, list_elem_of_fmap. eauto.
  - rewrite take_ge by (rewrite length_app; simpl; lia).
    change (apply_writes _ d) with (recovered l d).
    assert (Hz : head_n (recovered l d (start l)) = 0).
    { unfold recovered, recover_writes. rewrite reverse_app. simpl. rewrite upd_eq. by apply head_cleared. }
    apply recovered_home; [done|..]; rewrite Hz; [lia|auto].
Qed.
End recovery.

(** The disks that a crash may leave while the cache goes from [c] to [c']. *)
Definition crash_disk (c c' : bcache) (d : Z -> list Z) : Prop :=
  ∃ ws k, writes c' = ws ++ writes c ∧ d = apply_writes (drop k ws) (dsk c).

Definition zero_log : log := Log false 0 0 0 0 0 0 (fun _ => 0).

(** Starting the machine on disk [d]: [binit] from main(), then [initlog] from
    fsinit(), with the position and size of the log from the superblock. *)
Definition reboot {U} (d : Z -> list Z) (logstart nlog p : Z) (u : U) : outcome (fs (ftop U)) unit :=
  (binit;; initlog ROOTDEV logstart nlog) (FS (zero_cache d) p (FTop zero_log u)).

Section reboot.
Context {U : Type} (p : Z) (u : U).

Lemma recovered_start l l' d : start l = start l' -> recovered l d = recovered l' d.
Proof.
  intros Hs. unfold recovered, recover_writes, disk_log, home_writes. simpl. rewrite Hs.
  do 2 f_equal. f_equal. apply list_fmap_ext. intros k i Hi%list_elem_of_lookup_2. simpl. unfold logb; simpl.
  rewrite !load_blocks_lookup, !decide_True, Hs by done. done.
Qed.

Definition fresh_log (logstart nlog : Z) : log := Log false logstart nlog 0 0 ROOTDEV 0 (fun _ => 0).

(** Booting recovers the disk, and the cache shows it. *)
Lemma reboot_ok d logstart nlog :
  let l := fresh_log logstart nlog in
  log_wf (disk_log l d) ->
  ∃ c' t' v', reboot d logstart nlog p u = Ok tt (FS c' p t') ∧ brep c' v' ∧
    dsk c' = recovered l d ∧ vcont v' = recovered l d ∧ vrefs v' = ∅ ∧ vheld v' = ∅ ∧
    t' = FTop ((disk_log l d) <| lh_n := 0 |>) u ∧ writes c' = reverse (recover_writes (disk_log l d) d).
Proof.
  intros l Hwf. unfold reboot. destruct (binit_ok d p (FTop zero_log u)) as (c0 & Hrun & Hb).
  rewrite (bind_Ok _ _ _ _ _ Hrun). clear Hrun.
  cut (vok p (initlog ROOTDEV logstart nlog) (FTop zero_log u) (boot_view d)
    (fun _ t' v' => t' = FTop ((disk_log l d) <| lh_n := 0 |>) u ∧ wrote (boot_view d) (reverse (recover_writes (disk_log l d) d)) ∅ v')).
  { intros Hv. destruct (Hv c0 Hb) as ([] & c' & t' & v' & H1 & H2 & H3 & [W1 W2 W3 W4 W5]).
    exists c', t', v'. split; [exact H1|]. clear H1.
    rewrite (br_disk _ _ H2), (br_writes _ _ H2), W1, W2, W3, app_nil_r. auto 10. }
  unfold initlog. change (BSIZE <=? sizeof_logheader) with false. cbv iota.
  do 4 apply vok_bind, vok_mod_log. eapply vok_mono; [by apply vok_recover|].
  intros [] t' v' [-> W]. split; [done|exact W].
Qed.
End reboot.

(** The last write to a block, if any, decides what it holds. *)
Lemma apply_writes_cases ws d b :
  apply_writes ws d b = d b ∨ ∃ w, w ∈ ws ∧ w.1 = b ∧ apply_writes ws d b = w.2.
Proof.
  induction ws as [|w ws IH]; simpl; [auto|]. destruct (decide (b = w.1)) as [->|Hne].
  - right. exists w. rewrite upd_eq. split; [apply elem_of_cons; auto|done].
  - rewrite upd_ne by done. destruct IH as [IH|(w' & Hin & H1 & H2)]; [auto|].
    right. exists w'. split; [apply elem_of_cons; auto|done].
Qed.

Section wf.
Implicit Types (l : log) (h : list Z).

Lemma wf_load_clear l h : ldev l = ROOTDEV -> head_n h = 0 -> log_wf (load_head h l).
Proof.
  intros Hd Hn. split; try (intros i; simpl; rewrite Hn; lia); [done|].
  simpl. rewrite Hn. unfold LOGSIZE, MAXOPBLOCKS. lia.
Qed.

Lemma wf_load_same l l' h :
  log_wf l -> ldev l' = ROOTDEV -> start l' = start l -> head_n h = lh_n l ->
  (forall i, 0 <= i < lh_n l -> head_block h i = lh_block l i) -> log_wf (load_head h l').
Proof.
  intros Hwf Hd Hs Hn Hb.
  assert (Hb' : forall i, 0 <= i < lh_n l -> lh_block (load_head h l') i = lh_block l i).
  { intros i Hi. rewrite load_head_block by lia. by apply Hb. }
  split; [done|..]; change (lh_n (load_head h l')) with (head_n h); rewrite Hn; [apply Hwf|..].
  - intros i j Hi Hj. rewrite !Hb' by done. by apply (wf_inj _ Hwf).
  - intros i Hi. rewrite Hb' by done. by apply (wf_int _ Hwf).
  - intros i Hi. rewrite Hb' by done. change (start (load_head h l')) with (start l'). rewrite Hs. by apply (wf_home _ Hwf).
Qed.

(** The header is well formed whenever the crash happens. *)
Lemma crash_header l l' c d k :
  committable l c d -> ldev l' = ROOTDEV -> start l' = start l ->
  log_wf (disk_log l' (apply_writes (reverse (take k (commit_writes l c))) d)).
Proof.
  intros Hc Hd Hs. pose proof (cm_wf _ _ _ Hc) as Hwf. unfold disk_log. rewrite Hs.
  destruct (apply_writes_cases (reverse (take k (commit_writes l c))) d (start l)) as [->|(w & Hw & He & ->)].
  - apply wf_load_clear; [done|apply (cm_clear _ _ _ Hc)].
  - apply take_reverse_elem in Hw. unfold commit_writes in Hw.
    rewrite !elem_of_app, !list_elem_of_singleton in Hw.
    assert (Hlen : length (c (start l)) = Z.to_nat BSIZE) by (rewrite (cm_head _ _ _ Hc); apply Hc).
    destruct Hw as [Hw|[-> |[Hw| -> ]]].
    + apply elem_log_writes in Hw as (i & Hi & ->). simpl in He. unfold logb in He. lia.
    + destruct (head_of_commit l (c (start l)) Hwf Hlen). by apply wf_load_same with l.
    + apply elem_home_targets in Hw as (i & Hi & ->). simpl in He. destruct (start_not_home l).
      rewrite <- He. by apply (wf_home _ Hwf).
    + apply wf_load_clear; [done|]. apply head_cleared. simpl. unfold commit_head, put_head.
      by rewrite length_put_blocks, length_put32.
Qed.
End wf.

(** The transaction that a commit finds: the logged blocks are pinned, everything
    else is clean, and the header on the disk is clear. *)
Record in_log {U} (t : ftop U) (v : bview) : Prop := {
  il_wf : log_wf (lg t);
  il_pinned : pinned (lg t) v;
  il_clear : head_n (vdisk v (start (lg t))) = 0;
  il_len : length (vdisk v (start (lg t))) = Z.to_nat BSIZE
}.

Lemma in_log_committable {U} (t : ftop U) c v :
  brep c v -> in_log t v -> committable (lg t) (vcont v) (vdisk v).
Proof.
  intros Hb [Hwf Hp Hcl Hlen]. split; [done| |..|done|done].
  - intros b _ Hno. symmetry. apply (br_clean _ _ Hb), eq_None_not_Some. intros [n Hn].
    destruct (pn_only _ _ Hp _ _ Hn) as (i & Hi & ->). by apply (Hno i).
  - apply (br_clean _ _ Hb). pose proof (pinned_log _ _ (-1) Hwf Hp) as Hs. rewrite logb_head in Hs.
    apply Hs. pose proof (wf_n _ Hwf). lia.
Qed.

(** The writes of the commit of [l], the latest first. *)
Definition committed_writes (l : log) (c : Z -> list Z) : list (Z * list Z) :=
  if lh_n l =? 0 then [] else reverse (commit_writes l c).

Lemma committed_disk l c d b :
  committable l c d -> home l b -> apply_writes (committed_writes l c) d b = c b.
Proof.
  intros Hc Hb. unfold committed_writes. destruct (lh_n l =? 0) eqn:H0; [|by apply crash_after].
  apply (cm_same _ _ _ Hc b Hb). intros i Hi. lia.
Qed.

(** Starting the machine after a crash during the commit. *)
Lemma committed_crash {U} (q : Z) (u : U) l c d k :
  committable l c d ->
  let d' := apply_writes (drop k (committed_writes l c)) d in
  ∃ c2 t2, reboot d' (start l) (log_size l) q u = Ok tt (FS c2 q t2) ∧
    ((forall b, home l b -> dsk c2 b = d b) ∨ (forall b, home l b -> dsk c2 b = c b)).
Proof.
  intros Hc.
  assert (∃ k', drop k (committed_writes l c) = reverse (take k' (commit_writes l c))) as [k' ->].
  { unfold committed_writes. destruct (lh_n l =? 0); [exists 0%nat; by rewrite drop_nil|]. rewrite drop_reverse. eauto. }
  intros d'.
  pose proof (crash_header l (fresh_log (start l) (log_size l)) _ _ k' Hc eq_refl eq_refl) as Hwf. fold d' in Hwf.
  destruct (reboot_ok q u d' (start l) (log_size l) Hwf) as (c2 & t2 & v2 & Hr & _ & Hd & _).
  exists c2, t2. split; [exact Hr|]. clear Hr. rewrite Hd, (recovered_start _ l) by done.
  by apply commit_prefix.
Qed.

(** What [commit] does, with an empty transaction as well. *)
Lemma commit_runs {U} (p : Z) (t : ftop U) c v :
  brep c v -> in_log t v ->
  ∃ c' v' ws, commit (FS c p t) = Ok tt (FS c' p (t <| lg ::= fun l => l <| lh_n := 0 |> |>)) ∧
    brep c' v' ∧ wrote v ws ∅ v' ∧ ws = committed_writes (lg t) (vcont v).
Proof.
  intros Hb Hin. unfold committed_writes. pose proof (wf_n _ (il_wf _ _ Hin)) as Hn. destruct (lh_n (lg t) =? 0) eqn:H0.
  - assert (H0' : lh_n (lg t) = 0) by lia. exists c, v, []. split; [|split; [done|split; [|done]]].
    + unfold commit, mbind, M_bind, get_log, gets. simpl. rewrite H0'. simpl.
      unfold mret, M_ret. by destruct t as [[] ?]; simpl in *; subst.
    + pose proof (il_pinned _ _ Hin) as Hp. rewrite <- (unpinned_all _ _ Hp), H0'. apply wrote_nil.
  - destruct (vok_commit p t v (il_wf _ _ Hin) ltac:(lia) (il_pinned _ _ Hin) c Hb) as ([] & c' & t' & v' & H1 & H2 & -> & H3).
    by exists c', v', (reverse (commit_writes (lg t) (vcont v))).
Qed.

(** C7: Crash safety of commit.  From a cache with a transaction in it, [commit]
    succeeds and every block of the file system (every block outside the log) is
    then on the disk as the cache had it.  If the machine instead crashes after
    any number of the block writes and is started again, the kernel comes up,
    and the blocks of the file system on the disk are all as they were before
    the commit or all as the cache had them: nothing in between. *)
Theorem commit_crash_safe {U} (p q : Z) (t : ftop U) (u : U) c v :
  brep c v -> in_log t v ->
  let l := lg t in
  ∃ c' t', commit (FS c p t) = Ok tt (FS c' p t') ∧
    (forall b, home l b -> dsk c' b = vcont v b) ∧
    forall d, crash_disk c c' d ->
      ∃ c2 t2, reboot d (start l) (log_size l) q u = Ok tt (FS c2 q t2) ∧
        ((forall b, home l b -> dsk c2 b = dsk c b) ∨ (forall b, home l b -> dsk c2 b = vcont v b)).
Proof.
  intros Hb Hin l. pose proof (in_log_committable _ _ _ Hb Hin) as Hc. fold l in Hc.
  destruct (commit_runs p t c v Hb Hin) as (c' & v' & ws & H1 & H2 & [W1 W2 _ _ _] & Hws). fold l in Hws.
  eexists c', _. split; [exact H1|]. clear H1. subst ws. rewrite (br_disk _ _ H2), W1. split.
  - intros b Hhb. by apply committed_disk.
  - intros d (ws & k & Hw & ->). rewrite (br_writes _ _ H2), (br_writes _ _ Hb), W2 in Hw.
    apply app_inv_tail in Hw as <-. rewrite (br_disk _ _ Hb). by apply committed_crash.
Qed.

(** C8: Recovery may itself be interrupted.  On a disk with a well-formed log
    header, if the machine crashes after any number of the block writes of the
    recovery and is started once more, the kernel comes up and the blocks of the
    file system are the same as if the first recovery had not been interrupted. *)
Theorem recovery_idempotent {U} (p q logstart nlog : Z) (u : U) (d : Z -> list Z) :
  log_wf (disk_log (fresh_log logstart nlog) d) -> length (d logstart) = Z.to_nat BSIZE ->
  let l := fresh_log logstart nlog in
  ∃ c1 t1, reboot d logstart nlog p u = Ok tt (FS c1 p t1) ∧
    forall d', crash_disk (zero_cache d) c1 d' ->
      ∃ c2 t2, reboot d' logstart nlog q u = Ok tt (FS c2 q t2) ∧ forall b, home l b -> dsk c2 b = dsk c1 b.
Proof.
  intros Hwf Hlen l. destruct (reboot_ok p u d logstart nlog Hwf) as (c1 & t1 & v1 & H1 & _ & Hd1 & _ & _ & _ & _ & Hw1).
  exists c1, t1. split; [exact H1|]. clear H1. fold l in Hd1, Hw1, Hwf.
  intros d' (ws & k & Hw & ->). rewrite Hw1 in Hw. simpl in Hw. rewrite app_nil_r in Hw. subst ws.
  rewrite drop_reverse. change (dsk (zero_cache d)) with d. set (k' := (_ - k)%nat). set (d' := apply_writes _ d).
  assert (Hwf' : log_wf (disk_log l d')).
  { destruct (apply_writes_cases (reverse (take k' (recover_writes (disk_log l d) d))) d (start l)) as [He|(w & Hin & He & Hv)];
      fold d' in He || fold d' in Hv; unfold disk_log; [by rewrite He|rewrite Hv].
    apply take_reverse_elem, elem_of_app in Hin as [(i & -> & Hi%elem_of_seqZ)%list_elem_of_fmap|Hin].
    - exfalso. apply (start_not_home l). rewrite <- He. apply (wf_home _ Hwf). lia.
    - apply list_elem_of_singleton in Hin as ->. apply wf_load_clear; [done|]. by apply head_cleared. }
  destruct (reboot_ok q u d' logstart nlog Hwf') as (c2 & t2 & v2 & H2 & _ & Hd2 & _).
  exists c2, t2. split; [exact H2|]. clear H2. intros b Hhb. rewrite Hd1, Hd2. by apply recover_prefix.
Qed.
