(* ===== verification/Txn.v ===== *)
(** * Txn: operations of the file system inside a transaction

    What the layers above the log see between [begin_op] and [end_op]: the
    contents of every block, the list of blocks recorded in the log, and the
    blocks this thread has locked.  [trep] relates it to the log and to the
    buffer cache; the rules [tok_*] are the interface of bio.c and log.c that
    fs.c is proved against.  The disk does not change inside a transaction. *)

From stdpp Require Import gmap.
From S2P Require Import Prelude Bytes SleepLock Bio BioRep Log LogRep LogProps.

Record txn (U : Type) := Txn {
  tcont : Z -> list Z;               (* the blocks, as the kernel sees them *)
  tlog : list Z;                     (* blocks recorded in the log *)
  theld : gmap Z Z;                  (* locked blocks, with their buffers *)
  tdirty : gset Z;                   (* locked blocks with changes not recorded *)
  tup : U                            (* the state of the layers above *)
}.
Arguments Txn {U}.
Arguments tcont {U}.
Arguments tlog {U}.
Arguments theld {U}.
Arguments tdirty {U}.
Arguments tup {U}.
#[export] Instance txn_eta U : Eta (txn U) := fun r =>
  Txn (tcont r) (tlog r) (theld r) (tdirty r) (tup r).

(** Recording a block that may be there already. *)
Definition record (b : Z) (bs : list Z) : list Z := if decide (b ∈ bs) then bs else bs ++ [b].

Section txn.
(** [lst] and [lsz] are the position and size of the log, [D] is the disk and [W]
    the block writes it has completed. *)
Context {U : Type} (p : Z) (lst lsz : Z) (Hlsz : lsz <= LOGSIZE).
Context (D : Z -> list Z) (W : list (Z * list Z)).
Implicit Types (t : ftop U) (v : bview) (x : txn U).

(** References to a block: one of the log, one of the thread that locks it. *)
Definition tcnt x (b : Z) : Z :=
  (if decide (b ∈ tlog x) then 1 else 0) + (if decide (is_Some (theld x !! b)) then 1 else 0).

Definition logged_blocks (l : log) : list Z := lh_block l <$> seqZ 0 (lh_n l).

Record trep t v x : Prop := {
  r_wf : log_wf (lg t);
  r_lock : log_lock (lg t) = false;
  r_start : start (lg t) = lst;
  r_size : log_size (lg t) = lsz;
  r_out : outstanding (lg t) = 1;
  r_committing : committing (lg t) = 0;
  r_log : logged_blocks (lg t) = tlog x;
  r_cont : vcont v = tcont x;
  r_disk : vdisk v = D;
  r_writes : vwrites v = W;
  r_refs : forall b, vrefs v !! b = if tcnt x b =? 0 then None else Some (tcnt x b);
  r_held : vheld v = (fun _ => p) <$> theld x;
  r_buf : forall b i, theld x !! b = Some i -> vbuf v b = i;
  r_clean : forall b, b ∉ tlog x -> b ∉ tdirty x -> tcont x b = D b;
  r_dirty : forall b, b ∈ tdirty x -> is_Some (theld x !! b);
  r_up : up t = tup x
}.

(** Every run of [m] from a state described by [x] succeeds and ends in one
    described by some [x'] with [Q r x']. *)
Definition tok {A} (m : M (fs (ftop U)) A) x (Q : A -> txn U -> Prop) : Prop :=
  forall t v, trep t v x -> vok p m t v (fun r t' v' => ∃ x', trep t' v' x' ∧ Q r x').

Lemma tok_mono {A} (m : M (fs (ftop U)) A) x (Q Q' : A -> txn U -> Prop) :
  tok m x Q -> (forall r x', Q r x' -> Q' r x') -> tok m x Q'.
Proof.
  intros Hm HQ t v Ht. eapply vok_mono; [by apply Hm|]. intros r t' v' (x' & H1 & H2). eauto.
Qed.

Lemma tok_ret {A} (a : A) x Q : Q a x -> tok (mret a) x Q.
Proof. intros HQ t v Ht. apply vok_ret. eauto. Qed.

Lemma tok_bind {A B} (m : M (fs (ftop U)) A) (k : A -> M (fs (ftop U)) B) x Q :
  tok m x (fun r x' => tok (k r) x' Q) -> tok (m ≫= k) x Q.
Proof.
  intros Hm t v Ht. apply vok_bind. eapply vok_mono; [by apply Hm|]. intros r t' v' (x' & H1 & H2). by apply H2.
Qed.

Lemma tok_when (b : bool) (m : M (fs (ftop U)) unit) x (Q : unit -> txn U -> Prop) :
  (b = true -> tok m x Q) -> (b = false -> Q tt x) -> tok (when b m) x Q.
Proof. intros Ht Hf. destruct b; simpl; [auto|apply tok_ret; auto]. Qed.

Lemma tok_for_each {A} (I : list A -> txn U -> Prop) (xs : list A) body x Q :
  (forall dn y rest x, xs = dn ++ y :: rest -> I dn x -> tok (body y) x (fun _ x' => I (dn ++ [y]) x')) ->
  I [] x -> (forall x', I xs x' -> Q tt x') -> tok (for_each xs body) x Q.
Proof.
  intros Hbody HI HQ t v Ht.
  apply (vok_for_each p (fun dn t v => ∃ x, trep t v x ∧ I dn x)); [|eauto|].
  - intros dn y rest t' v' Heq (x' & H1 & H2). by eapply Hbody.
  - intros t' v' (x' & H1 & H2). eauto.
Qed.

Lemma tok_gets {A} (f : U -> A) x (Q : A -> txn U -> Prop) :
  Q (f (tup x)) x -> tok (gets (fun s => f (up (top s)))) x Q.
Proof.
  intros HQ t v Ht. apply (vok_gets p (fun t => f (up t))). exists x. rewrite (r_up _ _ _ Ht). auto.
Qed.

Lemma trep_up t v x f : trep t v x -> trep (t <| up ::= f |>) v (x <| tup ::= f |>).
Proof. intros []. split; try done. simpl. by f_equal. Qed.

Lemma tok_modify (f : U -> U) x (Q : unit -> txn U -> Prop) :
  Q tt (x <| tup ::= f |>) -> tok (modify (fun s => s <| top ::= fun t => t <| up ::= f |> |>)) x Q.
Proof.
  intros HQ t v Ht. apply (vok_modify p (fun t => t <| up ::= f |>)).
  exists (x <| tup ::= f |>). split; [by apply trep_up|done].
Qed.

Lemma tok_pid x (Q : Z -> txn U -> Prop) : Q p x -> tok (gets mypid) x Q.
Proof. intros HQ t v Ht. apply vok_pid. eauto. Qed.

Definition hold (b i : Z) x : txn U := x <| theld ::= <[b := i]> |>.
Definition put (b : Z) (d : list Z) x : txn U :=
  x <| tcont ::= fun g => upd g b d |> <| tdirty ::= fun s => {[b]} ∪ s |>.
Definition log_block (b : Z) x : txn U :=
  x <| tlog ::= record b |> <| tdirty ::= fun s => s ∖ {[b]} |>.
Definition let_go (b : Z) x : txn U :=
  x <| theld ::= delete b |> <| tdirty ::= fun s => s ∖ {[b]} |>.

Lemma refs_of_cnt t v x b : trep t v x -> refs_of v b = tcnt x b.
Proof. intros Ht. unfold refs_of. rewrite (r_refs _ _ _ Ht). destruct (tcnt x b =? 0) eqn:He; simpl; lia. Qed.

Lemma tcnt_bounds x b : 0 <= tcnt x b <= 2.
Proof. unfold tcnt. do 2 destruct (decide _); lia. Qed.

Lemma refs_size t v x : trep t v x -> (base.size (vrefs v) <= length (tlog x) + base.size (theld x))%nat.
Proof.
  intros Ht. rewrite <- size_dom, <- (size_dom (theld x)).
  assert (Hsub : dom (vrefs v) ⊆ list_to_set (tlog x) ∪ dom (theld x)).
  { intros b [n Hb]%elem_of_dom. rewrite (r_refs _ _ _ Ht) in Hb. unfold tcnt in Hb.
    apply elem_of_union. destruct (decide (b ∈ tlog x)) as [Hin|]; [left; by apply elem_of_list_to_set|].
    destruct (decide (is_Some _)) as [Hh|]; [right; by apply elem_of_dom|done]. }
  apply subseteq_size in Hsub. etrans; [exact Hsub|]. rewrite size_union_alt.
  pose proof (subseteq_size _ _ (subseteq_difference_l (dom (theld x)) (list_to_set (tlog x)) _ (reflexivity _))).
  assert (base.size (list_to_set (tlog x) : gset Z) <= length (tlog x))%nat; [|lia].
  clear. induction (tlog x) as [|b bs IH]; [by rewrite list_to_set_nil, size_empty|].
  rewrite list_to_set_cons, size_union_alt, size_singleton. simpl.
  pose proof (subseteq_size _ _ (subseteq_difference_l (list_to_set bs : gset Z) {[b]} _ (reflexivity _))). lia.
Qed.

Lemma trep_hold t v x b i :
  trep t v x -> theld x !! b = None -> trep t (take_block p b i v) (hold b i x).
Proof.
  intros Ht Hb. pose proof (refs_of_cnt _ _ _ b Ht) as Hr. destruct Ht. split; try done.
  - intros b'. unfold take_block, hold; simpl. unfold tcnt in *; simpl. destruct (decide (b = b')) as [<-|Hne].
    + rewrite lookup_insert_eq, Hr, lookup_insert_eq. rewrite Hb.
      rewrite (decide_False (P := is_Some None)) by (intros [? ?]; done).
      rewrite (decide_True (P := is_Some (Some i))) by eauto. by destruct (decide (b ∈ tlog x)).
    + rewrite !lookup_insert_ne by done. apply r_refs0.
  - unfold take_block, hold; simpl. by rewrite fmap_insert, r_held0.
  - intros b' i'. unfold take_block, hold; simpl. destruct (decide (b = b')) as [<-|Hne].
    + rewrite lookup_insert_eq. intros [= <-]. by rewrite upd_eq.
    + rewrite lookup_insert_ne by done. intros Hi. rewrite upd_ne by congruence. by apply r_buf0.
  - intros b' Hd. unfold hold; simpl. destruct (decide (b = b')) as [<-|]; [rewrite lookup_insert_eq; eauto|].
    rewrite lookup_insert_ne by done. by apply r_dirty0.
Qed.

Lemma tok_bread b x (Q : Z -> txn U -> Prop) :
  theld x !! b = None -> (length (tlog x) + base.size (theld x) < Z.to_nat NBUF)%nat ->
  (forall i, Q i (hold b i x)) -> tok (bread ROOTDEV b) x Q.
Proof.
  intros Hb Hsz HQ t v Ht. apply vok_bread.
  - by rewrite (r_held _ _ _ Ht), lookup_fmap, Hb.
  - right. pose proof (refs_size _ _ _ Ht). lia.
  - rewrite (refs_of_cnt _ _ _ b Ht). pose proof (tcnt_bounds x b). lia.
  - intros i. exists (hold b i x). split; [by apply trep_hold|done].
Qed.

Lemma held_refs t v x b i : trep t v x -> theld x !! b = Some i ->
  vrefs v !! b = Some (tcnt x b) ∧ vheld v !! b = Some p ∧ i = vbuf v b ∧ 1 <= tcnt x b.
Proof.
  intros Ht Hb. rewrite (r_refs _ _ _ Ht), (r_held _ _ _ Ht), lookup_fmap, Hb, (r_buf _ _ _ Ht _ _ Hb). simpl.
  assert (1 <= tcnt x b); [|by assert ((tcnt x b =? 0) = false) as -> by lia].
  unfold tcnt. rewrite (decide_True (P := is_Some _)) by (rewrite Hb; eauto). destruct (decide _); lia.
Qed.

Lemma tok_data i b x (Q : list Z -> txn U -> Prop) :
  theld x !! b = Some i -> Q (tcont x b) x -> tok (buf_data i) x Q.
Proof.
  intros Hb HQ t v Ht. destruct (held_refs _ _ _ _ _ Ht Hb) as (H1 & H2 & H3 & _).
  apply (vok_data p _ b); [done|eauto|]. rewrite (r_cont _ _ _ Ht). eauto.
Qed.

Lemma tok_set_data i b d x (Q : unit -> txn U -> Prop) :
  theld x !! b = Some i -> Q tt (put b d x) -> tok (set_data i d) x Q.
Proof.
  intros Hb HQ t v Ht. destruct (held_refs _ _ _ _ _ Ht Hb) as (H1 & H2 & H3 & _).
  apply (vok_set_data p _ b); [done|eauto|]. exists (put b d x). split; [|done].
  destruct Ht. split; try done; unfold put; simpl.
  - by rewrite r_cont0.
  - intros b' Hl [Hne Hd]%not_elem_of_union. rewrite not_elem_of_singleton in Hne.
    rewrite upd_ne by done. by apply r_clean0.
  - intros b' [->%elem_of_singleton|Hd]%elem_of_union; [eauto|by apply r_dirty0].
Qed.

Lemma record_elem b b' bs : b' ∈ record b bs <-> b' = b ∨ b' ∈ bs.
Proof.
  unfold record. destruct (decide (b ∈ bs)) as [Hb|]; [split; [auto|by intros [-> |?]]|]. rewrite elem_of_app, list_elem_of_singleton. tauto.
Qed.

(** A block that can be logged: outside the log, and an [int]. *)
Definition loggable (b : Z) : Prop := (b < lst ∨ lst + LOGSIZE <= b) ∧ 0 <= b < 2^31.

Lemma logged_elem l b : b ∈ logged_blocks l <-> ∃ j, 0 <= j < lh_n l ∧ lh_block l j = b.
Proof.
  unfold logged_blocks. rewrite list_elem_of_fmap. split.
  - intros (j & -> & Hj%elem_of_seqZ). exists j. split; [lia|done].
  - intros (j & Hj & <-). exists j. split; [done|]. apply elem_of_seqZ. lia.
Qed.

Lemma length_logged l : 0 <= lh_n l -> Z.of_nat (length (logged_blocks l)) = lh_n l.
Proof. intros Hn. unfold logged_blocks. rewrite length_fmap, length_seqZ. lia. Qed.

Lemma add_block_wf l b :
  log_wf l -> start l = lst -> loggable b -> lh_n l + 1 < LOGSIZE -> (forall j, 0 <= j < lh_n l -> lh_block l j ≠ b) ->
  log_wf (add_block b l).
Proof.
  intros [H1 H2 H3 H4 H5] Hs [Hh Hi] Hn Hno.
  assert (Hb : forall j, 0 <= j < lh_n l + 1 -> lh_block (add_block b l) j = if decide (j = lh_n l) then b else lh_block l j).
  { intros j Hj. done. }
  split; [done|simpl; lia|..]; change (lh_n (add_block b l)) with (lh_n l + 1).
  - intros i j Hi' Hj. rewrite !Hb by done. do 2 destruct (decide _); subst; try done.
    + intros He. by destruct (Hno j ltac:(lia)).
    + intros He. by destruct (Hno i ltac:(lia)).
    + apply H3; lia.
  - intros j Hj. rewrite Hb by done. destruct (decide _); [done|apply H4; lia].
  - intros j Hj. rewrite Hb by done. change (start (add_block b l)) with (start l).
    destruct (decide _); [by rewrite Hs|apply H5; lia].
Qed.

Lemma logged_add l b : 0 <= lh_n l -> logged_blocks (add_block b l) = logged_blocks l ++ [b].
Proof.
  intros Hn. unfold logged_blocks. change (lh_n (add_block b l)) with (lh_n l + 1).
  replace (lh_n l + 1) with (Z.of_nat (S (Z.to_nat (lh_n l)))) by lia. rewrite seqZ_S, fmap_app, Z2Nat.id by lia.
  simpl. f_equal; [|by rewrite upd_eq].
  apply list_fmap_ext. intros k j Hj%list_elem_of_lookup_2%elem_of_seqZ. unfold add_block; simpl. apply upd_ne. lia.
Qed.

Lemma tcnt_log b b' x : tcnt (log_block b x) b' =
  tcnt x b' + if decide (b' ∈ tlog x) then 0 else if decide (b' = b) then 1 else 0.
Proof.
  unfold tcnt, log_block; simpl. pose proof (record_elem b b' (tlog x)) as Hr.
  destruct (decide (b' ∈ record b (tlog x))), (decide (b' ∈ tlog x)), (decide (b' = b)), (decide (is_Some _)); tauto || lia.
Qed.

Lemma tok_log_write i b x (Q : unit -> txn U -> Prop) :
  theld x !! b = Some i -> loggable b -> Z.of_nat (length (tlog x)) < lsz - 1 ->
  Q tt (log_block b x) -> tok (log_write i) x Q.
Proof.
  intros Hb Hlb Hsz HQ t v Ht. destruct (held_refs _ _ _ _ _ Ht Hb) as (H1 & H2 & H3 & H4).
  pose proof (wf_n _ (r_wf _ _ _ Ht)) as Hn. pose proof (tcnt_bounds x b) as Hc.
  rewrite <- (r_log _ _ _ Ht), length_logged in Hsz by lia.
  apply (vok_log_write p i b (tcnt x b)); try done; [lia|apply Ht|rewrite (r_out _ _ _ Ht); lia|by rewrite (r_size _ _ _ Ht)|..].
  - intros Hin. exists (log_block b x). split; [|done]. rewrite <- logged_elem, (r_log _ _ _ Ht) in Hin.
    assert (Hrec : record b (tlog x) = tlog x) by (unfold record; by rewrite decide_True).
    destruct Ht. split; unfold log_block, tcnt; simpl; rewrite ?Hrec; try done.
    + intros b' Hl Hd. rewrite elem_of_difference, elem_of_singleton in Hd.
      apply r_clean0; [done|]. intros Hd'. apply Hd. split; [done|]. by intros ->.
    + intros b' [Hd _]%elem_of_difference. by apply r_dirty0.
  - intros Hno. exists (log_block b x). split; [|done].
    assert (Hni : b ∉ tlog x).
    { rewrite <- (r_log _ _ _ Ht), logged_elem. intros (j & Hj & He). by apply (Hno j). }
    assert (Hrec : record b (tlog x) = tlog x ++ [b]) by (unfold record; by rewrite decide_False).
    destruct Ht. split; unfold log_block; simpl; try done.
    + apply add_block_wf; try done. lia.
    + by rewrite logged_add, Hrec, r_log0 by lia.
    + intros b'. change (tcnt _ b') with (tcnt (log_block b x) b'). rewrite tcnt_log. destruct (decide (b = b')) as [<-|Hne].
      * rewrite lookup_insert_eq, decide_False, decide_True by done.
        by assert ((tcnt x b + 1 =? 0) = false) as -> by lia.
      * unfold with_refs; simpl. rewrite lookup_insert_ne by done. rewrite r_refs0.
        rewrite (decide_False (P := b' = b)) by congruence. destruct (decide (b' ∈ tlog x)); by rewrite Z.add_0_r.
    + intros b' Hl Hd. rewrite record_elem in Hl. rewrite elem_of_difference, elem_of_singleton in Hd.
      apply r_clean0; tauto.
    + intros b' [Hd _]%elem_of_difference. by apply r_dirty0.
Qed.

Lemma tok_brelse i b x (Q : unit -> txn U -> Prop) :
  theld x !! b = Some i -> b ∈ tlog x ∨ b ∉ tdirty x ->
  Q tt (let_go b x) -> tok (brelse i) x Q.
Proof.
  intros Hb Hcl HQ t v Ht. destruct (held_refs _ _ _ _ _ Ht Hb) as (H1 & H2 & H3 & H4).
  pose proof (refs_of_cnt _ _ _ b Ht) as Hr.
  assert (Hcnt : tcnt (let_go b x) b = tcnt x b - 1).
  { unfold tcnt, let_go; simpl. rewrite lookup_delete_eq, Hb.
    rewrite (decide_True (P := is_Some (Some i))), (decide_False (P := is_Some None)) by (eauto; by intros [? ?]). lia. }
  apply (vok_brelse p i b (tcnt x b)); try done.
  - intros He. rewrite (r_cont _ _ _ Ht), (r_disk _ _ _ Ht).
    assert (b ∉ tlog x).
    { intros Hin. unfold tcnt in He. rewrite decide_True, Hb, decide_True in He by eauto. lia. }
    apply (r_clean _ _ _ Ht); [done|]. tauto.
  - exists (let_go b x). split; [|done]. destruct Ht. split; try done.
    + intros b'. unfold drop_block; simpl. rewrite Hr. destruct (decide (b = b')) as [<-|Hne].
      * rewrite Hcnt. destruct (tcnt x b =? 1) eqn:He.
        -- rewrite lookup_delete_eq. by assert ((tcnt x b - 1 =? 0) = true) as -> by lia.
        -- rewrite lookup_insert_eq. by assert ((tcnt x b - 1 =? 0) = false) as -> by lia.
      * trans (vrefs v !! b'); [destruct (tcnt x b =? 1); by rewrite ?lookup_delete_ne, ?lookup_insert_ne|].
        rewrite r_refs0. unfold tcnt, let_go; simpl. by rewrite lookup_delete_ne.
    + unfold drop_block, let_go; simpl. by rewrite fmap_delete, r_held0.
    + intros b' i'. unfold let_go; simpl. intros [Hne Hi]%lookup_delete_Some. by apply r_buf0.
    + intros b' Hl Hd. unfold let_go in Hd; simpl in Hd. rewrite elem_of_difference, elem_of_singleton in Hd.
      apply r_clean0; [done|]. intros Hd'. destruct (decide (b' = b)) as [->|]; [tauto|]. apply Hd. done.
    + unfold let_go; simpl. intros b' [Hd Hne%not_elem_of_singleton]%elem_of_difference.
      rewrite lookup_delete_ne by done. by apply r_dirty0.
Qed.

(** At the end of the transaction the log is ready to be committed. *)
Lemma trep_in_log t v x :
  trep t v x -> theld x = ∅ -> head_n (D lst) = 0 -> length (D lst) = Z.to_nat BSIZE -> in_log t v.
Proof.
  intros Ht Hh Hn Hlen. pose proof (r_wf _ _ _ Ht) as Hwf.
  assert (Hcnt : forall b, tcnt x b = if decide (b ∈ tlog x) then 1 else 0).
  { intros b. unfold tcnt. rewrite Hh, lookup_empty, (decide_False (P := is_Some None)) by (by intros [? ?]).
    destruct (decide _); lia. }
  split; [done| |by rewrite (r_disk _ _ _ Ht), (r_start _ _ _ Ht)..].
  split.
  - rewrite (r_held _ _ _ Ht), Hh. by rewrite fmap_empty.
  - intros i Hi. rewrite (r_refs _ _ _ Ht), Hcnt, decide_True; [done|].
    rewrite <- (r_log _ _ _ Ht). apply logged_elem. eauto.
  - intros b n Hb. rewrite (r_refs _ _ _ Ht), Hcnt in Hb. destruct (decide _) as [Hin|]; [|done].
    rewrite <- (r_log _ _ _ Ht) in Hin. apply logged_elem in Hin as (j & Hj & <-). eauto.
Qed.
End txn.
