(* ===== verification/TxnProps.v ===== *)
(** * TxnProps: a file system operation is atomic with respect to crashes

    [begin_op; body; end_op] from a quiet file system, for any [body] that keeps
    to the rules of Txn.v. *)

From stdpp Require Import gmap.
From S2P Require Import Prelude Bytes SleepLock Bio BioRep Log LogRep LogProps Txn.

Section ops.
Context {U : Type} (p : Z) (lst lsz : Z) (Hlsz : lsz <= LOGSIZE).
Implicit Types (t : ftop U) (v : bview) (x : txn U).

(** Between operations: nothing is logged, locked or referenced. *)
Record quiet t v : Prop := {
  q_wf : log_wf (lg t);
  q_n : lh_n (lg t) = 0;
  q_lock : log_lock (lg t) = false;
  q_start : start (lg t) = lst;
  q_size : log_size (lg t) = lsz;
  q_out : outstanding (lg t) = 0;
  q_committing : committing (lg t) = 0;
  q_refs : vrefs v = ∅;
  q_held : vheld v = ∅;
  q_clear : head_n (vdisk v lst) = 0;
  q_len : length (vdisk v lst) = Z.to_nat BSIZE
}.

Definition first_txn t v : txn U := Txn (vcont v) [] ∅ ∅ (up t).

Lemma vok_begin_op t v :
  quiet t v ->
  vok p begin_op t v (fun _ t' v' => v' = v ∧ trep p lst lsz (vdisk v) (vwrites v) t' v (first_txn t v)).
Proof.
  intros Hq. apply vok_clean. intros Hcl. unfold begin_op.
  apply vok_bind, vok_acquire_log; [apply Hq|]. apply vok_bind, vok_get_log. simpl.
  rewrite (q_committing _ _ Hq), (q_n _ _ Hq), (q_out _ _ Hq). simpl.
  apply vok_bind, vok_mod_log, vok_release_log; [done|]. destruct Hq. simpl in *.
  split; [done|].
  assert (Hz : forall b, tcnt (first_txn t v) b = 0).
  { intros b. unfold tcnt. rewrite decide_False by apply not_elem_of_nil. simpl.
    by rewrite lookup_empty, (decide_False (P := is_Some None)) by (by intros [? ?]). }
  split; try done; simpl.
  - destruct q_wf0. by split.
  - by rewrite q_out0.
  - unfold logged_blocks; simpl. by rewrite q_n0.
  - intros b. by rewrite q_refs0, lookup_empty, Hz.
  - intros b _ _. apply Hcl. by rewrite q_refs0, lookup_empty.
Qed.

Lemma commit_header l c d :
  committable l c d -> 0 < lh_n l ->
  let h := apply_writes (reverse (commit_writes l c)) d (start l) in
  head_n h = 0 ∧ length h = Z.to_nat BSIZE.
Proof.
  intros Hc Hn. unfold commit_writes. rewrite !reverse_app, <- !app_assoc. simpl. rewrite upd_eq.
  assert (Hlen : length (commit_head l (c (start l))) = Z.to_nat BSIZE).
  { unfold commit_head, put_head. rewrite length_put_blocks, length_put32, (cm_head _ _ _ Hc). apply Hc. }
  by rewrite head_cleared, length_put32.
Qed.

Lemma vok_commit_any t v :
  in_log t v ->
  vok p commit t v (fun _ t' v' => t' = t <| lg ::= fun l => l <| lh_n := 0 |> |> ∧
    wrote v (committed_writes (lg t) (vcont v)) ∅ v').
Proof.
  intros Hin c Hb. destruct (commit_runs p t c v Hb Hin) as (c' & v' & ws & H1 & H2 & H3 & ->).
  exists tt, c', (t <| lg ::= fun l => l <| lh_n := 0 |> |>), v'. auto.
Qed.

Lemma committed_header t v :
  in_log t v -> committable (lg t) (vcont v) (vdisk v) ->
  let h := apply_writes (committed_writes (lg t) (vcont v)) (vdisk v) (start (lg t)) in
  head_n h = 0 ∧ length h = Z.to_nat BSIZE.
Proof.
  intros Hin Hc. unfold committed_writes. pose proof (wf_n _ (il_wf _ _ Hin)).
  destruct (lh_n (lg t) =? 0) eqn:He; [split; [apply (il_clear _ _ Hin)|apply (il_len _ _ Hin)]|].
  apply commit_header; [done|lia].
Qed.

Lemma wf_drop l l' : log_wf l -> lh_n l' = 0 -> ldev l' = ldev l -> log_wf l'.
Proof.
  intros Hwf Hn Hd. split; try (intros i; rewrite Hn; lia); [rewrite Hd; apply Hwf|].
  rewrite Hn. unfold LOGSIZE, MAXOPBLOCKS. lia.
Qed.

Lemma vok_known {A} (m : M (fs (ftop U)) A) t v Q : ((∃ c, brep c v) -> vok p m t v Q) -> vok p m t v Q.
Proof. intros Hm c Hc. apply Hm; eauto. Qed.

(** [end_op] of the only operation commits its transaction. *)
Lemma vok_end_op D W t v x :
  trep p lst lsz D W t v x -> theld x = ∅ -> head_n (D lst) = 0 -> length (D lst) = Z.to_nat BSIZE ->
  vok p end_op t v (fun _ t' v' => quiet t' v' ∧ up t' = up t ∧
    wrote v (committed_writes (lg t) (vcont v)) ∅ v').
Proof.
  intros Ht Hh Hcl Hlen. pose proof (trep_in_log p lst lsz D W t v x Ht Hh Hcl Hlen) as Hin.
  pose proof (r_committing _ _ _ _ _ _ _ _ Ht) as Hcm. pose proof (r_out _ _ _ _ _ _ _ _ Ht) as Hout.
  apply vok_known. intros [c0 Hc0]. pose proof (in_log_committable _ _ _ Hc0 Hin) as Hc.
  destruct (committed_header t v Hin Hc) as [Hz Hl]. clear c0 Hc0 Hc.
  unfold end_op. apply vok_bind, vok_acquire_log; [apply Ht|]. apply vok_bind, vok_mod_log.
  apply vok_bind, vok_get_log. simpl. rewrite Hcm, Hout. simpl.
  apply vok_bind, vok_bind, vok_mod_log, vok_ret. apply vok_bind, vok_release_log; [done|].
  apply vok_when; [intros _|done]. apply vok_bind.
  set (t1 := t <| lg ::= _ |> <| lg ::= _ |> <| lg ::= _ |> <| lg ::= _ |>).
  assert (Hin1 : in_log t1 v).
  { destruct Hin as [[] [] ? ?]. split; [by split|by split|done|done]. }
  eapply vok_mono; [by apply vok_commit_any|]. intros [] t2 v2 [-> Wr].
  apply vok_bind, vok_acquire_log; [done|]. apply vok_bind, vok_mod_log.
  apply vok_bind, vok_ret, vok_release_log; [done|]. split; [|split; [done|exact Wr]].
  destruct Wr as [W1 W2 W3 W4 W5]. pose proof (r_start _ _ _ _ _ _ _ _ Ht) as Hs. rewrite Hs in Hz, Hl.
  split; try done; simpl.
  - by apply (wf_drop (lg t)); [apply Ht|..].
  - apply (r_size _ _ _ _ _ _ _ _ Ht).
  - by rewrite Hout.
  - by rewrite W5, (r_held _ _ _ _ _ _ _ _ Ht), Hh, fmap_empty.
  - by rewrite W1.
  - by rewrite W1.
Qed.

Lemma vok_ext {A} (m m' : M (fs (ftop U)) A) t v Q : (forall s, m' s = m s) -> vok p m' t v Q -> vok p m t v Q.
Proof. intros E Hm c Hc. rewrite <- E. by apply Hm. Qed.

(** The state a transaction ends in: quiet, with contents [x] in [R] committed. *)
Definition committed_post {A} (R : A -> txn U -> Prop) v (r : A) t' v' : Prop :=
  quiet t' v' ∧ ∃ t1 v1 x, trep p lst lsz (vdisk v) (vwrites v) t1 v1 x ∧ R r x ∧ up t' = tup x ∧
    committable (lg t1) (vcont v1) (vdisk v1) ∧ wrote v1 (committed_writes (lg t1) (vcont v1)) ∅ v'.

Lemma vok_transaction {A B} (body : M (fs (ftop U)) A) (g : A -> B) (R : B -> txn U -> Prop) t v :
  quiet t v ->
  tok p lst lsz (vdisk v) (vwrites v) body (first_txn t v) (fun r x => theld x = ∅ ∧ R (g r) x) ->
  vok p (begin_op;; r ← body; end_op;; mret (g r)) t v (committed_post R v).
Proof.
  intros Hq Hbody. apply vok_bind. eapply vok_mono; [by apply vok_begin_op|]. intros [] t0 v0 [-> Ht0].
  apply vok_bind. eapply vok_mono; [by apply Hbody|]. intros r t1 v1 (x & Ht1 & Hh & HR).
  apply vok_known. intros [c1 Hc1].
  pose proof (trep_in_log _ _ _ _ _ _ _ _ Ht1 Hh (q_clear _ _ Hq) (q_len _ _ Hq)) as Hin.
  pose proof (in_log_committable _ _ _ Hc1 Hin) as Hc.
  apply vok_bind. eapply vok_mono; [by eapply vok_end_op; [| |apply (q_clear _ _ Hq)|apply (q_len _ _ Hq)]|].
  intros [] t2 v2 (H1 & H2 & H3). rewrite (r_up _ _ _ _ _ _ _ _ Ht1) in H2. apply vok_ret. split; [done|]. eauto 10.
Qed.

(** Such a transaction, and what is on the disk after it and after a crash on the way. *)
Lemma transaction_atomic {A} (m : M (fs (ftop U)) A) (R : A -> txn U -> Prop) (q : Z) (u : U) t v c :
  brep c v -> quiet t v -> vok p m t v (committed_post R v) ->
  let l := lg t in
  ∃ r c' t' x, m (FS c p t) = Ok r (FS c' p t') ∧
    (∃ v', brep c' v' ∧ quiet t' v') ∧ R r x ∧ up t' = tup x ∧ (forall b, home l b -> dsk c' b = tcont x b) ∧
    forall d, crash_disk c c' d ->
      ∃ c2 t2, reboot d lst lsz q u = Ok tt (FS c2 q t2) ∧
        ((forall b, home l b -> dsk c2 b = dsk c b) ∨ (forall b, home l b -> dsk c2 b = tcont x b)).
Proof.
  intros Hb Hq Hv l. destruct (Hv c Hb) as (r & c' & t' & v' & H1 & H2 & H3 & t1 & v1 & x & Ht1 & HR & Hup & Hc & [W1 W2 _ _ _]).
  pose proof (r_disk _ _ _ _ _ _ _ _ Ht1) as Hd. pose proof (r_writes _ _ _ _ _ _ _ _ Ht1) as Hw.
  pose proof (r_start _ _ _ _ _ _ _ _ Ht1) as Hs. pose proof (r_cont _ _ _ _ _ _ _ _ Ht1) as Hx.
  assert (Hhome : forall b, home l b <-> home (lg t1) b) by (intros b; unfold home, l; by rewrite Hs, (q_start _ _ Hq)).
  exists r, c', t', x. split; [exact H1|]. clear H1 Hv. split; [eauto|]. split; [done|]. split; [done|]. split.
  - intros b Hhb%Hhome. rewrite (br_disk _ _ H2), W1, committed_disk by done. by rewrite Hx.
  - intros d (ws & k & Hws & ->). rewrite (br_writes _ _ H2), (br_writes _ _ Hb), W2, Hw in Hws.
    apply app_inv_tail in Hws as <-. rewrite (br_disk _ _ Hb), <- Hd.
    destruct (committed_crash q u (lg t1) (vcont v1) (vdisk v1) k Hc) as (c2 & t2 & Hr & Hor).
    rewrite Hs, (r_size _ _ _ _ _ _ _ _ Ht1) in Hr. exists c2, t2. split; [exact Hr|]. clear Hr.
    rewrite Hx in Hor. destruct Hor as [Hor|Hor]; [left|right]; intros b Hhb%Hhome; by apply Hor.
Qed.

(** C3: An operation of the file system is atomic.  Let [body] be an operation
    that keeps to the rules of transactions, leaving no block locked and the
    blocks' contents in [R].  Then [begin_op; body; end_op] from a quiet file
    system succeeds and leaves it quiet, with contents [new] in [R] on the disk;
    and if the machine crashes after any number of the block writes on the way
    and is started again, the blocks on the disk are all the old ones or all the
    new ones. *)
Theorem operation_atomic {A} (body : M (fs (ftop U)) A) (R : (Z -> list Z) -> Prop) (q : Z) (u : U) t v c :
  brep c v -> quiet t v ->
  tok p lst lsz (vdisk v) (vwrites v) body (first_txn t v) (fun _ x => theld x = ∅ ∧ R (tcont x)) ->
  let l := lg t in
  ∃ c' t' new, (begin_op;; body;; end_op) (FS c p t) = Ok tt (FS c' p t') ∧
    (∃ v', brep c' v' ∧ quiet t' v') ∧ R new ∧ (forall b, home l b -> dsk c' b = new b) ∧
    forall d, crash_disk c c' d ->
      ∃ c2 t2, reboot d lst lsz q u = Ok tt (FS c2 q t2) ∧
        ((forall b, home l b -> dsk c2 b = dsk c b) ∨ (forall b, home l b -> dsk c2 b = new b)).
Proof.
  intros Hb Hq Hbody l.
  assert (Hv : vok p (begin_op;; body;; end_op) t v (committed_post (fun _ x => R (tcont x)) v)).
  { eapply vok_ext; [|by apply (vok_transaction body (fun _ => tt) (fun _ x => R (tcont x)))].
    intros s. unfold mbind, M_bind. destruct (begin_op s) as [[] s1| | | | |]; try done. destruct (body s1) as [r s2| | | | |]; try done.
    by destruct (end_op s2) as [[] s3| | | | |]. }
  destruct (transaction_atomic _ _ q u t v c Hb Hq Hv) as ([] & c' & t' & x & H1 & H2 & H3 & _ & H4).
  exists c', t', (tcont x). split; [exact H1|]. auto.
Qed.
End ops.

(** Booting leaves the file system quiet. *)
Lemma reboot_quiet {U} (p : Z) (u : U) d lst lsz :
  log_wf (disk_log (fresh_log lst lsz) d) -> length (d lst) = Z.to_nat BSIZE ->
  ∃ c t v, reboot d lst lsz p u = Ok tt (FS c p t) ∧ brep c v ∧ quiet lst lsz t v ∧
    vcont v = vdisk v ∧ up t = u ∧ start (lg t) = lst ∧ (head_n (d lst) = 0 -> forall b, b ≠ lst -> vcont v b = d b).
Proof.
  intros Hwf Hlen. destruct (reboot_ok p u d lst lsz Hwf) as (c & t & v & H1 & H2 & H3 & H4 & H5 & H6 & -> & _).
  eexists c, _, v. split; [exact H1|]. clear H1. pose proof (br_disk _ _ H2) as Hd. rewrite H3 in Hd.
  assert (Hh : vdisk v lst = put32 (d lst) 0 0).
  { rewrite <- Hd. unfold recovered, recover_writes. rewrite reverse_app. simpl. apply upd_eq. }
  split; [done|]. split; [|split; [by rewrite H4, Hd|split; [done|split; [done|]]]].
  2:{ intros Hn b Hne. rewrite H4. unfold recovered, recover_writes, home_writes.
      change (lh_n (disk_log (fresh_log lst lsz) d)) with (head_n (d lst)). rewrite Hn. simpl. by apply upd_ne. }
  split; try done; simpl.
  - by apply (wf_drop (disk_log (fresh_log lst lsz) d)).
  - rewrite Hh. by apply head_cleared.
  - by rewrite Hh, length_put32.
Qed.

(** ** Witnesses: writing block 50 of a blank disk *)
Module Blank.
Definition disk (_ : Z) : list Z := replicate (Z.to_nat BSIZE) 0.
Definition text : list Z := replicate (Z.to_nat BSIZE) 7.

Lemma disk_wf : log_wf (disk_log (fresh_log 2 30) disk).
Proof. apply wf_load_clear; [done|]. vm_compute. done. Qed.

(** A disk whose log holds a committed transaction: block 50 is to be [text]. *)
Definition committed (b : Z) : list Z :=
  if b =? 2 then put32 (put32 (disk 2) 0 1) 4 50 else if b =? 3 then text else disk b.

Lemma committed_wf : log_wf (disk_log (fresh_log 2 30) committed).
Proof.
  assert (Hn : head_n (committed 2) = 1) by (vm_compute; reflexivity).
  assert (Hb : head_block (committed 2) 0 = 50) by (vm_compute; reflexivity).
  assert (H0 : forall i, 0 <= i < 1 -> lh_block (disk_log (fresh_log 2 30) committed) i = 50).
  { intros i Hi. unfold disk_log. simpl start. rewrite load_head_block by (rewrite Hn; lia). by replace i with 0 by lia. }
  split; [done|..]; change (lh_n (disk_log (fresh_log 2 30) committed)) with (head_n (committed 2)); rewrite Hn.
  - unfold LOGSIZE, MAXOPBLOCKS. lia.
  - intros i j Hi Hj _. lia.
  - intros i Hi. rewrite H0 by done. lia.
  - intros i Hi. rewrite H0 by done. right. simpl. unfold LOGSIZE, MAXOPBLOCKS. lia.
Qed.

Definition write_50 : M (fs (ftop unit)) unit :=
  b ← bread ROOTDEV 50; set_data b text;; log_write b;; brelse b.

Lemma write_50_ok D W t v :
  tok 1 2 30 D W write_50 (first_txn t v) (fun _ x => theld x = ∅ ∧ tcont x 50 = text).
Proof.
  unfold write_50. apply tok_bind, tok_bread; [apply lookup_empty|vm_compute; lia|]. intros i.
  apply tok_bind, (tok_set_data _ _ _ _ _ _ 50); [apply lookup_insert_eq|].
  apply tok_bind, (tok_log_write _ _ _ ltac:(done) _ _ _ 50); [apply lookup_insert_eq| |vm_compute; done|].
  { split; [right|]; unfold LOGSIZE, MAXOPBLOCKS; lia. }
  apply (tok_brelse _ _ _ _ _ _ 50); [apply lookup_insert_eq|left; apply elem_of_cons; by left|].
  split; [by simpl; rewrite delete_insert_id|]. simpl. by rewrite upd_eq.
Qed.

(** The blank disk, booted, and the transaction that has written block 50. *)
Lemma booted : ∃ c t v, brep c v ∧ quiet 2 30 t v ∧ up t = tt.
Proof.
  destruct (reboot_quiet 1 tt disk 2 30 disk_wf eq_refl) as (c & t & v & _ & H2 & H3 & _ & H5 & _). eauto 6.
Qed.

Lemma logged : ∃ c (t : ftop unit) v, brep c v ∧ in_log t v ∧ vcont v 50 = text.
Proof.
  destruct booted as (c & t & v & Hb & Hq & _).
  assert (Hv : vok 1 (begin_op;; write_50) t v (fun _ t' v' => in_log t' v' ∧ vcont v' 50 = text)).
  { apply vok_bind. eapply vok_mono; [by apply (vok_begin_op 1 2 30)|]. intros [] t0 v0 [-> Ht0].
    eapply vok_mono; [exact (write_50_ok _ _ t v _ _ Ht0)|]. intros [] t1 v1 (x & Ht1 & Hh & Hx). split.
    - apply (trep_in_log _ _ _ _ _ _ _ _ Ht1 Hh); [apply (q_clear _ _ _ _ Hq)|apply (q_len _ _ _ _ Hq)].
    - by rewrite (r_cont _ _ _ _ _ _ _ _ Ht1). }
  destruct (Hv c Hb) as ([] & c' & t' & v' & _ & H2 & H3 & H4). eauto 6.
Qed.
End Blank.

Lemma operation_atomic_witness :
  ∃ c (t : ftop unit) c' t', (begin_op;; Blank.write_50;; end_op) (FS c 1 t) = Ok tt (FS c' 1 t') ∧
    dsk c' 50 = Blank.text ∧
    forall d, crash_disk c c' d -> ∃ c2 t2, reboot d 2 30 1 tt = Ok tt (FS c2 1 t2) ∧
      (dsk c2 50 = dsk c 50 ∨ dsk c2 50 = Blank.text).
Proof.
  destruct Blank.booted as (c & t & v & Hb & Hq & _). exists c, t.
  destruct (operation_atomic 1 2 30 Blank.write_50 (fun g => g 50 = Blank.text) 1 tt t v c Hb Hq
    (Blank.write_50_ok _ _ _ _)) as (c' & t' & new & H1 & _ & HR & H3 & H4).
  assert (Hh : home (lg t) 50) by (right; rewrite (q_start _ _ _ _ Hq); unfold LOGSIZE, MAXOPBLOCKS; lia).
  exists c', t'. split; [exact H1|]. split; [rewrite (H3 50 Hh); exact HR|].
  intros d Hd. destruct (H4 d Hd) as (c2 & t2 & H5 & H6). exists c2, t2. split; [exact H5|].
  destruct H6 as [H6|H6]; [left; exact (H6 50 Hh)|right; rewrite (H6 50 Hh); exact HR].
Defined.

Lemma commit_crash_safe_witness :
  ∃ c (t : ftop unit) v c' t', brep c v ∧ in_log t v ∧ commit (FS c 1 t) = Ok tt (FS c' 1 t') ∧
    (forall b, home (lg t) b -> dsk c' b = vcont v b) ∧
    forall d, crash_disk c c' d ->
      ∃ c2 t2, reboot d (start (lg t)) (log_size (lg t)) 1 tt = Ok tt (FS c2 1 t2) ∧
        ((forall b, home (lg t) b -> dsk c2 b = dsk c b) ∨ (forall b, home (lg t) b -> dsk c2 b = vcont v b)).
Proof.
  destruct Blank.logged as (c & t & v & Hb & Hin & _).
  destruct (commit_crash_safe 1 1 t tt c v Hb Hin) as (c' & t' & H). exists c, t, v, c', t'.
  split; [exact Hb|]. split; [exact Hin|]. exact H.
Defined.

Lemma recovery_idempotent_witness :
  ∃ c1 t1, reboot Blank.committed 2 30 1 tt = Ok tt (FS c1 1 t1) ∧
    forall d', crash_disk (zero_cache Blank.committed) c1 d' ->
      ∃ c2 t2, reboot d' 2 30 1 tt = Ok tt (FS c2 1 t2) ∧
        forall b, home (fresh_log 2 30) b -> dsk c2 b = dsk c1 b.
Proof. exact (recovery_idempotent 1 1 2 30 tt Blank.committed Blank.committed_wf eq_refl). Defined.
