(* ===== verification/Fs.v ===== *)
(** * Fs: inodes, files, directories and path names, kernel/fs.c

    The file system above the log.  The state adds to the log and the buffer cache
    the superblock, the table of in-memory inodes, the current directory of the
    running process, and a local buffer through which directory entries are read
    and written.  Pointers to inodes are indices into the table, [-1] for 0.

    [either_copyout] and [either_copyin] (proc.c) reach the memory [X] of the
    process through the class [Copy]. *)

From stdpp Require Import gmap.
From S2P Require Import Prelude Bytes SleepLock Bio Log.

(** ** fs.h, stat.h, param.h *)
Definition ROOTINO : Z := 1.
Definition NINODE : Z := 50.
Definition FSMAGIC : Z := 0x10203040.
Definition NDIRECT : Z := 12.
Definition NINDIRECT : Z := BSIZE / 4.
Definition MAXFILE : Z := NDIRECT + NINDIRECT.
Definition sizeof_dinode : Z := 64.
Definition IPB : Z := BSIZE / sizeof_dinode.
Definition BPB : Z := BSIZE * 8.
Definition DIRSIZ : Z := 14.
Definition sizeof_dirent : Z := 16.
Definition T_DIR : Z := 1.
Definition T_FILE : Z := 2.
Definition T_DEVICE : Z := 3.

Record superblock := Superblock {
  magic : Z; sb_size : Z; nblocks : Z; ninodes : Z; nlog : Z; logstart : Z; inodestart : Z; bmapstart : Z
}.
Definition IBLOCK (i : Z) (sb : superblock) : Z := i / IPB + inodestart sb.
Definition BBLOCK (b : Z) (sb : superblock) : Z := b / BPB + bmapstart sb.

(** The fields of an inode that are kept on disk, and the in-memory inode. *)
Record dinode := Dinode {
  type : Z; major : Z; minor : Z; nlink : Z; isize : Z; addrs : Z -> Z
}.
#[export] Instance dinode_eta : Eta dinode := fun r =>
  Dinode (type r) (major r) (minor r) (nlink r) (isize r) (addrs r).
Record inode := Inode {
  i_dev : Z; inum : Z; ref : Z; i_lock : sleeplock; i_valid : Z; dip : dinode
}.
#[export] Instance inode_eta : Eta inode := fun r =>
  Inode (i_dev r) (inum r) (ref r) (i_lock r) (i_valid r) (dip r).

(** [struct dinode] and [struct dirent] in a block. *)
Definition dinode_off (inum : Z) : Z := sizeof_dinode * (inum mod IPB).
Definition get_dinode (d : list Z) (o : Z) : dinode :=
  Dinode (get_short d o) (get_short d (o + 2)) (get_short d (o + 4)) (get_short d (o + 6))
    (get32 d (o + 8)) (fun i => get32 d (o + 12 + 4 * i)).
Definition put_addrs (d : list Z) (o : Z) (a : Z -> Z) : list Z :=
  foldl (fun d i => put32 d (o + 4 * i) (a i)) d (seqZ 0 (NDIRECT + 1)).
Definition put_dinode (d : list Z) (o : Z) (n : dinode) : list Z :=
  put_addrs (put32 (put16 (put16 (put16 (put16 d o (type n)) (o + 2) (major n)) (o + 4) (minor n)) (o + 6) (nlink n))
    (o + 8) (isize n)) (o + 12) (addrs n).

(** ** The state, and copying to and from the memory of the process *)
Class Copy (X : Type) := {
  (** [either_copyout(user_dst, dst, src, len)] with the bytes at [src] *)
  either_copyout : bool -> Z -> list Z -> X -> Z * X;
  (** [either_copyin(dst, user_src, src, len)]: the result and the bytes that
      reached [dst], all of them if the result is 0 *)
  either_copyin : bool -> Z -> Z -> X -> Z * list Z
}.

Record ist (X : Type) := Ist {
  itable_lock : bool; inodes : Z -> inode; sb : superblock; cwd : Z; local : list Z; ext : X
}.
Arguments Ist {X}.
Arguments itable_lock {X}.
Arguments inodes {X}.
Arguments sb {X}.
Arguments cwd {X}.
Arguments local {X}.
Arguments ext {X}.
#[export] Instance ist_eta X : Eta (ist X) := fun r =>
  Ist (itable_lock r) (inodes r) (sb r) (cwd r) (local r) (ext r).

(** Where [readi] puts bytes and [writei] takes them from: an address of the process
    or of the kernel, or the local variable of the caller. *)
Inductive place := Address (user : bool) (a : Z) | Local.

Section ops.
Context {X : Type} `{!Copy X}.
Abbreviation K := (M (fs (ftop (ist X)))).

Definition ugets {A} (f : ist X -> A) : K A := gets (fun s => f (up (top s))).
Definition umod (f : ist X -> ist X) : K unit := modify (fun s => s <| top ::= fun t => t <| up ::= f |> |>).
Definition itablelk : lens (fs (ftop (ist X))) bool :=
  Lens (fun s => itable_lock (up (top s)))
       (fun f s => s <| top ::= fun t => t <| up ::= fun u => u <| itable_lock ::= f |> |> |>).
Definition ilk (ip : Z) : lens (fs (ftop (ist X))) sleeplock :=
  Lens (fun s => i_lock (inodes (up (top s)) ip))
       (fun f s => s <| top ::= fun t => t <| up ::= fun u =>
          u <| inodes ::= fun g => upd g ip ((g ip) <| i_lock ::= f |>) |> |> |>).

Definition inode_ok (ip : Z) : bool := (0 <=? ip) && (ip <? NINODE).
Definition get_inode (ip : Z) : K inode :=
  if inode_ok ip then ugets (fun u => inodes u ip) else out_of_bounds.
Definition set_inode (ip : Z) (f : inode -> inode) : K unit :=
  if inode_ok ip then umod (fun u => u <| inodes ::= fun g => upd g ip (f (g ip)) |>) else out_of_bounds.

(** ** Blocks *)
Definition readsb (dev : Z) : K unit :=
  bp ← bread dev 1;
  d ← buf_data bp;
  umod (fun u => u <| sb := Superblock (get32 d 0) (get32 d 4) (get32 d 8) (get32 d 12)
                               (get32 d 16) (get32 d 20) (get32 d 24) (get32 d 28) |>);;
  brelse bp.

Definition fsinit (dev : Z) : K unit :=
  readsb dev;;
  b ← ugets sb;
  if negb (magic b =? FSMAGIC) then panic "invalid file system" else
  initlog dev (logstart b) (nlog b).

Definition bzero (dev bno : Z) : K unit :=
  bp ← bread dev bno;
  set_data bp (replicate (Z.to_nat BSIZE) 0);;
  log_write bp;;
  brelse bp.

(** The bit of [bi] in a bitmap block. *)
Definition bit_mask (bi : Z) : Z := Z.shiftl 1 (bi mod 8).
Definition bit_set (d : list Z) (bi : Z) : bool := negb (Z.land (byte_at d (bi / 8)) (bit_mask bi) =? 0).

(** The inner loop of [balloc]: the first clear bit. *)
Fixpoint balloc_find (k : nat) (d : list Z) (b bi size : Z) : option Z :=
  match k with
  | O => None
  | S k' =>
      if (bi <? BPB) && (b + bi <? size) then
        if bit_set d bi then balloc_find k' d b (bi + 1) size else Some bi
      else None
  end.
Fixpoint balloc_loop (k : nat) (dev b : Z) : K Z :=
  match k with
  | O => no_fuel
  | S k' =>
      s ← ugets sb;
      if negb (b <? sb_size s) then panic "balloc: out of blocks" else
      bp ← bread dev (BBLOCK b s);
      d ← buf_data bp;
      match balloc_find (Z.to_nat BPB) d b 0 (sb_size s) with
      | Some bi =>
          set_data bp (put_byte d (bi / 8) (Z.lor (byte_at d (bi / 8)) (bit_mask bi)));;
          log_write bp;;
          brelse bp;;
          bzero dev (b + bi);;
          mret (b + bi)
      | None =>
          brelse bp;;
          balloc_loop k' dev (b + BPB)
      end
  end.
(** At most one iteration for each bitmap block, and one more. *)
Definition balloc (dev : Z) : K Z :=
  s ← ugets sb;
  balloc_loop (S (S (Z.to_nat (sb_size s / BPB)))) dev 0.

Definition bfree (dev b : Z) : K unit :=
  s ← ugets sb;
  bp ← bread dev (BBLOCK b s);
  let bi := b mod BPB in
  d ← buf_data bp;
  if negb (bit_set d bi) then panic "freeing free block" else
  set_data bp (put_byte d (bi / 8) (Z.land (byte_at d (bi / 8)) (Z.lnot (bit_mask bi))));;
  log_write bp;;
  brelse bp.

(** ** Inodes *)
Definition iinit : K unit :=
  umod (fun u => u <| itable_lock := false |>);;
  for_each (seqZ 0 NINODE) (fun i => initsleeplock (ilk i) "inode").

(** The first entry in use for [(dev, inum)]. *)
Fixpoint iget_find (k : nat) (ip dev n : Z) (g : Z -> inode) : option Z :=
  match k with
  | O => None
  | S k' =>
      if (0 <? ref (g ip)) && (i_dev (g ip) =? dev) && (inum (g ip) =? n) then Some ip
      else iget_find k' (ip + 1) dev n g
  end.
(** The first entry not in use. *)
Fixpoint iget_empty (k : nat) (ip : Z) (g : Z -> inode) : option Z :=
  match k with
  | O => None
  | S k' => if ref (g ip) =? 0 then Some ip else iget_empty k' (ip + 1) g
  end.
Definition iget (dev n : Z) : K Z :=
  acquire_spin itablelk;;
  g ← ugets inodes;
  match iget_find (Z.to_nat NINODE) 0 dev n g with
  | Some ip =>
      set_inode ip (fun p => p <| ref ::= Z.succ |>);;
      release_spin itablelk;;
      mret ip
  | None =>
      match iget_empty (Z.to_nat NINODE) 0 g with
      | None => panic "iget: no inodes"
      | Some ip =>
          set_inode ip (fun p => p <| i_dev := dev |> <| inum := n |> <| ref := 1 |> <| i_valid := 0 |>);;
          release_spin itablelk;;
          mret ip
      end
  end.

Fixpoint ialloc_loop (k : nat) (dev ty n : Z) : K Z :=
  match k with
  | O => no_fuel
  | S k' =>
      s ← ugets sb;
      if negb (n <? ninodes s) then panic "ialloc: no inodes" else
      bp ← bread dev (IBLOCK n s);
      d ← buf_data bp;
      if get_short d (dinode_off n) =? 0 then
        set_data bp (put_dinode d (dinode_off n) (Dinode ty 0 0 0 0 (fun _ => 0)));;
        log_write bp;;
        brelse bp;;
        iget dev n
      else
        brelse bp;;
        ialloc_loop k' dev ty (n + 1)
  end.
Definition ialloc (dev ty : Z) : K Z :=
  s ← ugets sb;
  ialloc_loop (S (Z.to_nat (ninodes s))) dev ty 1.

Definition iupdate (ip : Z) : K unit :=
  p ← get_inode ip;
  s ← ugets sb;
  bp ← bread (i_dev p) (IBLOCK (inum p) s);
  d ← buf_data bp;
  set_data bp (put_dinode d (dinode_off (inum p)) (dip p));;
  log_write bp;;
  brelse bp.

Definition idup (ip : Z) : K Z :=
  acquire_spin itablelk;;
  set_inode ip (fun p => p <| ref ::= Z.succ |>);;
  release_spin itablelk;;
  mret ip.

Definition ilock (ip : Z) : K unit :=
  if ip =? -1 then panic "ilock" else
  p ← get_inode ip;
  if ref p <? 1 then panic "ilock" else
  pid ← gets mypid;
  acquiresleep (ilk ip) pid;;
  p ← get_inode ip;
  when (i_valid p =? 0) (
    s ← ugets sb;
    bp ← bread (i_dev p) (IBLOCK (inum p) s);
    d ← buf_data bp;
    set_inode ip (fun p => p <| dip := get_dinode d (dinode_off (inum p)) |>);;
    brelse bp;;
    set_inode ip (fun p => p <| i_valid := 1 |>);;
    p ← get_inode ip;
    when (type (dip p) =? 0) (panic "ilock: no type")).

Definition iunlock (ip : Z) : K unit :=
  if ip =? -1 then panic "iunlock" else
  pid ← gets mypid;
  h ← holdingsleep (ilk ip) pid;
  p ← get_inode ip;
  if negb h || (ref p <? 1) then panic "iunlock" else
  releasesleep (ilk ip).

Definition set_addr (ip i a : Z) : K unit :=
  set_inode ip (fun p => p <| dip ::= fun n => n <| addrs ::= fun f => upd f i a |> |>).

Definition itrunc (ip : Z) : K unit :=
  for_each (seqZ 0 NDIRECT) (fun i =>
    p ← get_inode ip;
    when (negb (addrs (dip p) i =? 0)) (
      bfree (i_dev p) (addrs (dip p) i);;
      set_addr ip i 0));;
  p ← get_inode ip;
  when (negb (addrs (dip p) NDIRECT =? 0)) (
    bp ← bread (i_dev p) (addrs (dip p) NDIRECT);
    for_each (seqZ 0 NINDIRECT) (fun j =>
      d ← buf_data bp;
      when (negb (get32 d (4 * j) =? 0)) (bfree (i_dev p) (get32 d (4 * j))));;
    brelse bp;;
    bfree (i_dev p) (addrs (dip p) NDIRECT);;
    set_addr ip NDIRECT 0);;
  set_inode ip (fun p => p <| dip ::= fun n => n <| isize := 0 |> |>);;
  iupdate ip.

Definition iput (ip : Z) : K unit :=
  acquire_spin itablelk;;
  p ← get_inode ip;
  when ((ref p =? 1) && negb (i_valid p =? 0) && (nlink (dip p) =? 0)) (
    pid ← gets mypid;
    acquiresleep (ilk ip) pid;;
    release_spin itablelk;;
    itrunc ip;;
    set_inode ip (fun p => p <| dip ::= fun n => n <| type := 0 |> |>);;
    iupdate ip;;
    set_inode ip (fun p => p <| i_valid := 0 |>);;
    releasesleep (ilk ip);;
    acquire_spin itablelk);;
  set_inode ip (fun p => p <| ref ::= Z.pred |>);;
  release_spin itablelk.

Definition iunlockput (ip : Z) : K unit := iunlock ip;; iput ip.

(** ** Contents *)
Definition bmap (ip bn : Z) : K Z :=
  if bn <? NDIRECT then
    p ← get_inode ip;
    if addrs (dip p) bn =? 0 then
      addr ← balloc (i_dev p);
      set_addr ip bn addr;;
      mret addr
    else mret (addrs (dip p) bn)
  else
  let bn := bn - NDIRECT in
  if bn <? NINDIRECT then
    p ← get_inode ip;
    addr ← (if addrs (dip p) NDIRECT =? 0 then
              addr ← balloc (i_dev p);
              set_addr ip NDIRECT addr;;
              mret addr
            else mret (addrs (dip p) NDIRECT));
    bp ← bread (i_dev p) addr;
    d ← buf_data bp;
    if get32 d (4 * bn) =? 0 then
      addr ← balloc (i_dev p);
      d ← buf_data bp;
      set_data bp (put32 d (4 * bn) addr);;
      log_write bp;;
      brelse bp;;
      mret addr
    else
      brelse bp;;
      mret (get32 d (4 * bn))
  else panic "bmap: out of range".

(** [struct stat], the fields in order. *)
Definition stati (ip : Z) : K (Z * Z * Z * Z * Z) :=
  p ← get_inode ip;
  mret (i_dev p, inum p, type (dip p), nlink (dip p), isize (dip p)).

(** [n] bytes of [d] from [o] on, and [d] with the bytes [bs] at [o]. *)
Definition slice (o n : Z) (d : list Z) : list Z := take (Z.to_nat n) (drop (Z.to_nat o) d).
Definition splice (o : Z) (bs d : list Z) : list Z :=
  take (Z.to_nat o) d ++ bs ++ drop (Z.to_nat o + length bs) d.

Definition copy_to (dst : place) (tot : Z) (bs : list Z) : K Z :=
  match dst with
  | Address user a => fun s =>
      match either_copyout user (u64 (a + tot)) bs (ext (up (top s))) with
      | (r, x) => Ok r (s <| top ::= fun t => t <| up ::= fun u => u <| ext := x |> |> |>)
      end
  | Local => umod (fun u => u <| local ::= splice tot bs |>);; mret 0
  end.
Definition copy_from (src : place) (tot m : Z) : K (Z * list Z) :=
  match src with
  | Address user a => ugets (fun u => either_copyin user (u64 (a + tot)) m (ext u))
  | Local => ugets (fun u => (0, slice tot m (local u)))
  end.

Fixpoint readi_loop (k : nat) (ip : Z) (dst : place) (tot off n : Z) : K Z :=
  match k with
  | O => no_fuel
  | S k' =>
      if negb (tot <? n) then mret tot else
      p ← get_inode ip;
      a ← bmap ip (off / BSIZE);
      bp ← bread (i_dev p) a;
      let m := Z.min (n - tot) (BSIZE - off mod BSIZE) in
      d ← buf_data bp;
      r ← copy_to dst tot (slice (off mod BSIZE) m d);
      if r =? -1 then brelse bp;; mret (-1)
      else brelse bp;; readi_loop k' ip dst (tot + m) (off + m) n
  end.
Definition readi (ip : Z) (dst : place) (off n : Z) : K Z :=
  p ← get_inode ip;
  if (isize (dip p) <? off) || (u32 (off + n) <? off) then mret 0 else
  let n := if isize (dip p) <? off + n then isize (dip p) - off else n in
  readi_loop (S (Z.to_nat n)) ip dst 0 off n.

(** The loop of [writei]: [tot] and [off] at its end. *)
Fixpoint writei_loop (k : nat) (ip : Z) (src : place) (tot off n : Z) : K (Z * Z) :=
  match k with
  | O => no_fuel
  | S k' =>
      if negb (tot <? n) then mret (tot, off) else
      p ← get_inode ip;
      a ← bmap ip (off / BSIZE);
      bp ← bread (i_dev p) a;
      let m := Z.min (n - tot) (BSIZE - off mod BSIZE) in
      rb ← copy_from src tot m;
      d ← buf_data bp;
      set_data bp (splice (off mod BSIZE) rb.2 d);;
      if rb.1 =? -1 then brelse bp;; mret (tot, off)
      else log_write bp;; brelse bp;; writei_loop k' ip src (tot + m) (off + m) n
  end.
Definition writei (ip : Z) (src : place) (off n : Z) : K Z :=
  p ← get_inode ip;
  if (isize (dip p) <? off) || (u32 (off + n) <? off) then mret (-1) else
  if MAXFILE * BSIZE <? off + n then mret (-1) else
  to ← writei_loop (S (Z.to_nat n)) ip src 0 off n;
  p ← get_inode ip;
  when (isize (dip p) <? to.2) (set_inode ip (fun p => p <| dip ::= fun d => d <| isize := to.2 |> |>));;
  iupdate ip;;
  mret to.1.

(** ** Directories *)

(** [strncmp] on two byte sequences, which a 0 or their end terminates. *)
Fixpoint strncmp_bytes (n : nat) (i : Z) (s t : list Z) : Z :=
  match n with
  | O => 0
  | S n' =>
      if negb (byte_at s i =? 0) && (byte_at s i =? byte_at t i) then strncmp_bytes n' (i + 1) s t
      else byte_at s i - byte_at t i
  end.
Definition namecmp (s t : list Z) : Z := strncmp_bytes (Z.to_nat DIRSIZ) 0 s t.

(** [strncpy] of a name: its bytes up to a 0, then zeros. *)
Fixpoint strncpy_bytes (n : nat) (i : Z) (t : list Z) : list Z :=
  match n with
  | O => []
  | S n' =>
      if byte_at t i =? 0 then replicate (S n') 0
      else byte_at t i :: strncpy_bytes n' (i + 1) t
  end.

(** [struct dirent] in the local buffer. *)
Definition de_inum (de : list Z) : Z := get16 de 0.
Definition de_name (de : list Z) : list Z := slice 2 DIRSIZ de.
Definition mk_dirent (n : Z) (name : list Z) : list Z := put16 (replicate 2 0) 0 n ++ name.

(** The entry found, [-1] if there is none, and its offset. *)
Fixpoint dirlookup_loop (k : nat) (dp : Z) (name : list Z) (off : Z) : K (Z * Z) :=
  match k with
  | O => no_fuel
  | S k' =>
      p ← get_inode dp;
      if negb (off <? isize (dip p)) then mret (-1, 0) else
      r ← readi dp Local off sizeof_dirent;
      if negb (r =? sizeof_dirent) then panic "dirlookup read" else
      de ← ugets local;
      if de_inum de =? 0 then dirlookup_loop k' dp name (off + sizeof_dirent) else
      if namecmp name (de_name de) =? 0 then
        ip ← iget (i_dev p) (de_inum de);
        mret (ip, off)
      else dirlookup_loop k' dp name (off + sizeof_dirent)
  end.
(** The local variable [de] has some contents before it is read into. *)
Definition new_local : K unit := umod (fun u => u <| local := replicate (Z.to_nat sizeof_dirent) 0 |>).
Definition dirlookup (dp : Z) (name : list Z) : K (Z * Z) :=
  p ← get_inode dp;
  if negb (type (dip p) =? T_DIR) then panic "dirlookup not DIR" else
  new_local;;
  dirlookup_loop (S (Z.to_nat (isize (dip p)))) dp name 0.

Fixpoint dirlink_loop (k : nat) (dp off : Z) : K Z :=
  match k with
  | O => no_fuel
  | S k' =>
      p ← get_inode dp;
      if negb (off <? isize (dip p)) then mret off else
      r ← readi dp Local off sizeof_dirent;
      if negb (r =? sizeof_dirent) then panic "dirlink read" else
      de ← ugets local;
      if de_inum de =? 0 then mret off else dirlink_loop k' dp (off + sizeof_dirent)
  end.
Definition dirlink (dp : Z) (name : list Z) (n : Z) : K Z :=
  r ← dirlookup dp name;
  if negb (r.1 =? -1) then iput r.1;; mret (-1) else
  p ← get_inode dp;
  new_local;;
  off ← dirlink_loop (S (Z.to_nat (isize (dip p)))) dp 0;
  umod (fun u => u <| local := mk_dirent n (strncpy_bytes (Z.to_nat DIRSIZ) 0 name) |>);;
  r ← writei dp Local off sizeof_dirent;
  if negb (r =? sizeof_dirent) then panic "dirlink" else
  mret 0.

(** ** Paths *)
Definition slash : Z := 47.

(** A path is the sequence of its bytes before the terminating 0. *)
Fixpoint skip_slashes (path : list Z) : list Z :=
  match path with
  | c :: path' => if c =? slash then skip_slashes path' else path
  | [] => []
  end.
(** The bytes up to the next slash, and the rest from the slash on. *)
Fixpoint split_elem (path : list Z) : list Z * list Z :=
  match path with
  | [] => ([], [])
  | c :: path' => if c =? slash then ([], path) else let (e, r) := split_elem path' in (c :: e, r)
  end.
(** The rest of the path, and the name copied: at most [DIRSIZ] bytes. *)
Definition skipelem (path : list Z) : option (list Z * list Z) :=
  match skip_slashes path with
  | [] => None
  | c :: path' =>
      let (e, r) := split_elem (c :: path') in
      Some (skip_slashes r, take (Z.to_nat DIRSIZ) e)
  end.

Fixpoint namex_loop (k : nat) (ip : Z) (path : list Z) (nameiparent : bool) (name : list Z) : K (Z * list Z) :=
  match k with
  | O => no_fuel
  | S k' =>
      match skipelem path with
      | None =>
          if nameiparent then iput ip;; mret (-1, name) else mret (ip, name)
      | Some (path', name') =>
          ilock ip;;
          p ← get_inode ip;
          if negb (type (dip p) =? T_DIR) then iunlockput ip;; mret (-1, name') else
          if nameiparent && match path' with [] => true | _ => false end then
            iunlock ip;;
            mret (ip, name')
          else
          next ← dirlookup ip name';
          if next.1 =? -1 then iunlockput ip;; mret (-1, name') else
          iunlockput ip;;
          namex_loop k' next.1 path' nameiparent name'
      end
  end.
Definition namex (path : list Z) (nameiparent : bool) : K (Z * list Z) :=
  ip ← (match path with
        | c :: _ => if c =? slash then iget ROOTDEV ROOTINO else c ← ugets cwd; idup c
        | [] => c ← ugets cwd; idup c
        end);
  namex_loop (S (length path)) ip path nameiparent [].

Definition namei (path : list Z) : K Z := r ← namex path false; mret r.1.
Definition nameiparent (path : list Z) : K (Z * list Z) := namex path true.
End ops.

