(* ===== verification/FsPath.v ===== *)
(** * FsPath: path names

    [skipelem] takes a path apart into the names between its slashes; the loop of
    [namex] therefore ends after as many rounds as the path has names. *)

From S2P Require Import Prelude Bytes SleepLock Bio Log Fs.

(** The names of a path: the maximal runs of bytes without a slash. *)
Fixpoint elements (path : list Z) : list (list Z) :=
  match path with
  | [] => []
  | c :: path' =>
      if c =? slash then elements path' else
      match path' with
      | [] => [[c]]
      | c' :: _ =>
          if c' =? slash then [c] :: elements path'
          else match elements path' with
               | e :: es => (c :: e) :: es
               | [] => [[c]]
               end
      end
  end.

(** What repeated [skipelem] yields. *)
Fixpoint skip_all (k : nat) (path : list Z) : option (list (list Z)) :=
  match k with
  | O => None
  | S k' =>
      match skipelem path with
      | None => Some []
      | Some (path', name) => cons name <$> skip_all k' path'
      end
  end.

Lemma skip_slashes_elements path : elements (skip_slashes path) = elements path.
Proof. induction path as [|c path IH]; [done|]. simpl. destruct (Z.eqb_spec c slash) as [->|]; [done|]. simpl. by rewrite (proj2 (Z.eqb_neq c slash)). Qed.

Lemma skip_slashes_length path : (length (skip_slashes path) <= length path)%nat.
Proof. induction path as [|c path IH]; simpl; [done|]. destruct (c =? slash); simpl; lia. Qed.

Lemma skip_slashes_head path c path' : skip_slashes path = c :: path' -> c ≠ slash.
Proof.
  induction path as [|d path IH]; simpl; [done|]. destruct (Z.eqb_spec d slash); [done|]. by intros [= <- _].
Qed.

Lemma split_elem_spec path e r :
  split_elem path = (e, r) ->
  path = e ++ r ∧ (slash ∉ e) ∧ match r with [] => True | c :: _ => c = slash end.
Proof.
  revert e r. induction path as [|c path IH]; intros e r; simpl; [intros [= <- <-]; by split_and!; [|apply not_elem_of_nil|]|].
  destruct (Z.eqb_spec c slash) as [->|Hc]; [intros [= <- <-]; by split_and!; [|apply not_elem_of_nil|]|].
  destruct (split_elem path) as [e' r'] eqn:E. intros [= <- <-]. destruct (IH _ _ eq_refl) as (-> & Hn & Hr).
  split_and!; [done| |done]. apply not_elem_of_cons. split; [done|done].
Qed.

Lemma elements_split c e r : slash ∉ c :: e -> match r with [] => True | d :: _ => d = slash end ->
  elements ((c :: e) ++ r) = (c :: e) :: elements r.
Proof.
  revert c. induction e as [|d e IH]; intros c Hn Hr.
  - apply not_elem_of_cons in Hn as [Hc _]. simpl. rewrite (proj2 (Z.eqb_neq c slash)) by congruence.
    destruct r as [|d r]; [done|]. subst d. by rewrite Z.eqb_refl.
  - apply not_elem_of_cons in Hn as [Hc Hn]. specialize (IH d Hn Hr). apply not_elem_of_cons in Hn as [Hd _].
    change ((c :: d :: e) ++ r) with (c :: (d :: e) ++ r). cbn [elements]. rewrite IH.
    rewrite (proj2 (Z.eqb_neq c slash)) by congruence. simpl. by rewrite (proj2 (Z.eqb_neq d slash)) by congruence.
Qed.

Lemma skipelem_spec path :
  match skipelem path with
  | None => elements path = []
  | Some (path', name) => exists e, elements path = e :: elements path' ∧ name = take (Z.to_nat DIRSIZ) e
      ∧ (length path' < length path)%nat ∧ match path' with [] => elements path' = [] | c :: _ => c ≠ slash end
  end.
Proof.
  unfold skipelem. pose proof (skip_slashes_elements path) as He. pose proof (skip_slashes_length path) as Hl.
  destruct (skip_slashes path) as [|c p] eqn:Hs; [done|]. apply skip_slashes_head in Hs.
  destruct (split_elem (c :: p)) as [e r] eqn:Hsp. destruct (split_elem_spec _ _ _ Hsp) as (Heq & Hn & Hr).
  destruct e as [|d e]; [simpl in Heq; subst r; simpl in Hr; congruence|].
  exists (d :: e). rewrite <- He, Heq, elements_split, skip_slashes_elements by done. split_and!; [done|done| |].
  - rewrite Heq in Hl. rewrite length_app in Hl. simpl in Hl. pose proof (skip_slashes_length r). simpl. lia.
  - destruct (skip_slashes r) as [|x y] eqn:Hx; [by rewrite <- skip_slashes_elements, Hx|]. by eapply skip_slashes_head.
Qed.

(** Taking a path apart with [skipelem] yields exactly its names in order, each
    cut to [DIRSIZ] bytes; a rest never starts with a slash, so an empty rest means
    that the name was the last one; and the loop ends within as many rounds as the
    path has bytes, plus one, which is the fuel [namex] runs with. *)
Theorem skipelem_elements path :
  skip_all (S (length path)) path = Some (take (Z.to_nat DIRSIZ) <$> elements path)
  ∧ (forall path' name, skipelem path = Some (path', name) ->
       (path' = [] <-> elements path' = []) ∧ (Z.of_nat (length name) <= DIRSIZ)).
Proof.
  split.
  - assert (H : forall k path, (length path < k)%nat -> skip_all k path = Some (take (Z.to_nat DIRSIZ) <$> elements path)).
    { induction k as [|k IH]; intros q Hk; [lia|]. cbn [skip_all]. pose proof (skipelem_spec q) as Hq.
      destruct (skipelem q) as [[q' name]|]; [|by rewrite Hq].
      destruct Hq as (e & -> & -> & Hlen & _). rewrite IH by lia. done. }
    apply H. lia.
  - intros path' name Hp. pose proof (skipelem_spec path) as Hq. rewrite Hp in Hq. destruct Hq as (e & _ & -> & _ & Hc). split.
    + split; [by intros ->|]. destruct path' as [|c path']; [done|]. simpl. rewrite (proj2 (Z.eqb_neq c slash)) by done.
      destruct path' as [|d path']; [done|]. destruct (d =? slash); [done|]. by destruct (elements (d :: path')).
    + rewrite length_take. unfold DIRSIZ. lia.
Qed.

(** The examples of the comment in fs.c: "a/bb/c", "///a//bb", "a", "" and "////". *)
Example skipelem_examples :
  skipelem [97; 47; 98; 98; 47; 99] = Some ([98; 98; 47; 99], [97])
  ∧ skipelem [47; 47; 47; 97; 47; 47; 98; 98] = Some ([98; 98], [97])
  ∧ skipelem [97] = Some ([], [97]) ∧ skipelem [] = None ∧ skipelem [47; 47; 47; 47] = None.
Proof. done. Qed.
