(* ===== verification/FsBlock.v ===== *)
(** * FsBlock: allocating and freeing disk blocks

    Rules for the two access patterns of fs.c inside a transaction, reading a block
    and replacing a block, and with them the block allocator: [balloc] takes the
    first block whose bit in the bitmap is clear, [bfree] clears a bit. *)

From stdpp Require Import gmap.
From S2P Require Import Prelude Bytes SleepLock Bio BioRep Log LogRep LogProps Txn Fs.

(** ** Bits *)
Lemma land_bit b k : 0 <= k -> negb (Z.land b (Z.shiftl 1 k) =? 0) = Z.testbit b k.
Proof.
  intros Hk. rewrite Z.shiftl_1_l. destruct (Z.testbit b k) eqn:Hb.
  - apply negb_true_iff, Z.eqb_neq. intros H0. assert (Z.testbit (Z.land b (2 ^ k)) k = true); [|by rewrite H0, Z.bits_0 in *].
    by rewrite Z.land_spec, Hb, Z.pow2_bits_true.
  - apply negb_false_iff, Z.eqb_eq. apply Z.bits_inj'. intros n Hn. rewrite Z.land_spec, Z.bits_0.
    destruct (decide (n = k)) as [->|]; [by rewrite Hb|]. by rewrite Z.pow2_bits_false, andb_false_r by congruence.
Qed.
Lemma bit_set_testbit d bi : bit_set d bi = Z.testbit (byte_at d (bi / 8)) (bi mod 8).
Proof. apply land_bit. apply Z.mod_pos_bound. lia. Qed.
Lemma mask_testbit bi k : 0 <= k -> Z.testbit (bit_mask bi) k = (k =? bi mod 8).
Proof.
  intros Hk. unfold bit_mask. rewrite Z.shiftl_1_l. pose proof (Z.mod_pos_bound bi 8).
  destruct (Z.eqb_spec k (bi mod 8)) as [->|]; [by apply Z.pow2_bits_true; lia|by apply Z.pow2_bits_false; congruence].
Qed.

Lemma bit_write d bi bj v :
  length d = Z.to_nat BSIZE -> 0 <= bi < BPB -> 0 <= bj < BPB ->
  bit_set (put_byte d (bi / 8) v) bj = if bj / 8 =? bi / 8 then Z.testbit v (bj mod 8) else bit_set d bj.
Proof.
  intros Hd Hi Hj. rewrite !bit_set_testbit. pose proof (Z.mod_pos_bound bj 8). destruct (Z.eqb_spec (bj / 8) (bi / 8)) as [->|].
  - rewrite byte_put_eq; [|rewrite Hd; unfold BPB, BSIZE in *; rewrite Z2Nat.id by lia; Z.div_mod_to_equations; lia].
    unfold u8. by rewrite Z.mod_pow2_bits_low by lia.
  - by rewrite byte_put_ne by congruence.
Qed.
Lemma same_bit bi bj : bj / 8 = bi / 8 -> (bj mod 8 =? bi mod 8) = (bj =? bi).
Proof. intros H. rewrite (Z.div_mod bj 8), (Z.div_mod bi 8), H by lia. apply eq_true_iff_eq. rewrite !Z.eqb_eq. Z.div_mod_to_equations. lia. Qed.

Lemma bit_mark d bi bj :
  length d = Z.to_nat BSIZE -> 0 <= bi < BPB -> 0 <= bj < BPB ->
  bit_set (put_byte d (bi / 8) (Z.lor (byte_at d (bi / 8)) (bit_mask bi))) bj = (bj =? bi) || bit_set d bj.
Proof.
  intros Hd Hi Hj. rewrite bit_write by done. pose proof (Z.mod_pos_bound bj 8). destruct (Z.eqb_spec (bj / 8) (bi / 8)) as [E|E].
  - rewrite Z.lor_spec, mask_testbit, same_bit, bit_set_testbit, E by (done || lia). apply orb_comm.
  - rewrite (proj2 (Z.eqb_neq bj bi)); [done|]. by intros ->.
Qed.
Lemma bit_clear d bi bj :
  length d = Z.to_nat BSIZE -> 0 <= bi < BPB -> 0 <= bj < BPB ->
  bit_set (put_byte d (bi / 8) (Z.land (byte_at d (bi / 8)) (Z.lnot (bit_mask bi)))) bj = negb (bj =? bi) && bit_set d bj.
Proof.
  intros Hd Hi Hj. rewrite bit_write by done. pose proof (Z.mod_pos_bound bj 8). destruct (Z.eqb_spec (bj / 8) (bi / 8)) as [E|E].
  - rewrite Z.land_spec, Z.lnot_spec, mask_testbit, same_bit, bit_set_testbit, E by (done || lia). apply andb_comm.
  - rewrite (proj2 (Z.eqb_neq bj bi)); [done|]. by intros ->.
Qed.

(** The search for a clear bit. *)
Lemma balloc_find_spec k d b bi size :
  0 <= bi -> Z.min BPB (size - b) <= bi + Z.of_nat k ->
  match balloc_find k d b bi size with
  | Some r => bi <= r < BPB ∧ b + r < size ∧ bit_set d r = false ∧ (forall j, bi <= j < r -> bit_set d j = true)
  | None => forall j, bi <= j < BPB -> b + j < size -> bit_set d j = true
  end.
Proof.
  revert bi. induction k as [|k IH]; intros bi H0 Hk; cbn [balloc_find]; [intros; lia|].
  destruct (Z.ltb_spec bi BPB), (Z.ltb_spec (b + bi) size); simpl; try (intros; lia).
  destruct (bit_set d bi) eqn:Hb.
  - specialize (IH (bi + 1) ltac:(lia) ltac:(lia)). destruct (balloc_find k d b (bi + 1) size) as [r|].
    + destruct IH as (A1 & A2 & A3 & A4). split_and!; [lia|lia|lia|done|]. intros j Hj. destruct (decide (j = bi)) as [->|]; [done|]. apply A4. lia.
    + intros j Hj Hs. destruct (decide (j = bi)) as [->|]; [done|]. apply IH; lia.
  - split_and!; [lia|lia|lia|done|]. intros; lia.
Qed.

(** Filters that agree, or differ in one element. *)
Lemma filter_same (P P' : Z -> Prop) `{!forall z, Decision (P z), !forall z, Decision (P' z)} (l : list Z) :
  (forall z, z ∈ l -> P z <-> P' z) -> filter P l = filter P' l.
Proof.
  induction l as [|z l IH]; intros HP; [done|]. rewrite !filter_cons, IH by (intros y Hy; apply HP; by right).
  pose proof (HP z (list_elem_of_here _ _)). repeat case_decide; tauto.
Qed.
Lemma filter_remove (P P' : Z -> Prop) `{!forall z, Decision (P z), !forall z, Decision (P' z)} (l : list Z) r :
  NoDup l -> (forall z, z ∈ l -> P' z <-> P z ∧ z ≠ r) -> (length (filter P l) <= S (length (filter P' l)))%nat.
Proof.
  induction l as [|z l IH]; intros Hn HP; [simpl; lia|]. apply NoDup_cons in Hn as [Hz Hn].
  assert (Hzl : P' z <-> P z ∧ z ≠ r) by (apply HP; left).
  rewrite !filter_cons. destruct (decide (z = r)) as [->|Hne].
  - assert (Heq : filter P l = filter P' l).
    { apply filter_same. intros y Hy. rewrite (HP y) by by right. split; [|tauto]. intros Hp. split; [done|]. by intros ->. }
    rewrite Heq. repeat case_decide; simpl; lia.
  - specialize (IH Hn ltac:(intros y Hy; apply HP; by right)).
    repeat case_decide; simpl; try lia; tauto.
Qed.

(** The lock of an inode is a field of the state. *)
#[export] Instance ilk_lawful {X} ip : LawfulLens (ilk (X := X) ip).
Proof.
  split.
  - intros f st. simpl. by rewrite upd_eq.
  - intros f h st. unfold ilk, setter; cbn. by rewrite upd_upd, upd_eq.
  - intros f st Hf. destruct st as [b q [l [k h sb c lo x]]]. unfold ilk, setter in *; cbn in *.
    rewrite upd_same; [done|]. rewrite Hf. by destruct (h ip).
  - intros f h st Hf. unfold ilk, setter in *; cbn in *. by rewrite Hf.
Qed.

Section block.
Context {X : Type} `{!Copy X}.
Context (p lst lsz : Z) (Hlsz : lsz <= LOGSIZE) (D : Z -> list Z) (W : list (Z * list Z)).
Abbreviation U := (ist X).
Abbreviation tok := (Txn.tok (U := U) p lst lsz D W).
Implicit Types (x : txn U).

(** Block [b] replaced and recorded. *)
Definition write_block (b : Z) (d : list Z) x : txn U :=
  x <| tcont ::= fun g => upd g b d |> <| tlog ::= record b |>.

(** Block [b] can be locked, and changed. *)
Record can_read x (b : Z) : Prop := {
  cr_held : theld x !! b = None;
  cr_clean : b ∉ tdirty x;
  cr_room : (length (tlog x) + base.size (theld x) < Z.to_nat NBUF)%nat
}.
Record can_write x (b : Z) : Prop := {
  cw_read : can_read x b;
  cw_log : loggable lst b;
  cw_room : Z.of_nat (length (tlog x)) < lsz - 1
}.

Lemma hold_let_go x b i : can_read x b -> let_go b (hold b i x) = x.
Proof.
  intros [Hh Hc _]. destruct x as [c l h d u]. unfold let_go, hold, setter. simpl in *. f_equal.
  - by apply delete_insert_id.
  - apply set_eq. intros y. rewrite elem_of_difference, elem_of_singleton. split; [tauto|]. intros Hy. split; [done|]. by intros ->.
Qed.

Lemma hold_write x b i d : can_read x b -> let_go b (log_block b (put b d (hold b i x))) = write_block b d x.
Proof.
  intros [Hh Hc _]. destruct x as [c l h dd u]. unfold let_go, hold, put, log_block, write_block, setter. simpl in *. f_equal.
  - by apply delete_insert_id.
  - apply set_eq. intros y. rewrite !elem_of_difference, elem_of_union, !elem_of_singleton. split; [tauto|].
    intros Hy. assert (y ≠ b) by (by intros ->). tauto.
Qed.

(** Lock a block, look at it, release it. *)
Lemma tok_read {A} b x (k : Z -> list Z -> M _ A) Q :
  can_read x b ->
  (forall i, tok (k i (tcont x b)) (hold b i x) Q) ->
  tok (bp ← bread ROOTDEV b; d ← buf_data bp; k bp d) x Q.
Proof.
  intros Hr HQ. apply tok_bind, tok_bread; [apply Hr|apply Hr|]. intros i. apply tok_bind, (tok_data p lst lsz D W i b).
  - unfold hold. simpl. by rewrite lookup_insert_eq.
  - apply HQ.
Qed.
Lemma tok_release {A} b i x (k : M _ A) Q :
  can_read x b -> tok k x Q -> tok (brelse i;; k) (hold b i x) Q.
Proof.
  intros Hr HQ. apply tok_bind, (tok_brelse p lst lsz D W i b).
  - unfold hold. simpl. by rewrite lookup_insert_eq.
  - right. apply Hr.
  - by rewrite hold_let_go.
Qed.
Lemma tok_replace_end b i d x Q :
  can_write x b -> Q tt (write_block b d x) -> tok (set_data i d;; log_write i;; brelse i) (hold b i x) Q.
Proof using Hlsz.
  intros Hw HQ. assert (Hh : forall y : txn U, theld y = theld (hold b i x) -> theld y !! b = Some i).
  { intros y ->. unfold hold. simpl. by rewrite lookup_insert_eq. }
  apply tok_bind, (tok_set_data p lst lsz D W i b); [by apply Hh|].
  apply tok_bind, (tok_log_write p lst lsz Hlsz D W i b); [by apply Hh|apply Hw|apply Hw|].
  apply (tok_brelse p lst lsz D W i b); [by apply Hh| |].
  - left. change (b ∈ record b (tlog x)). apply (record_elem p D). by left.
  - rewrite hold_write by apply Hw. exact HQ.
Qed.

Lemma tok_ext {A} (m m' : M _ A) x Q : (forall s, m s = m' s) -> tok m x Q -> tok m' x Q.
Proof. intros E Hm t v Ht. specialize (Hm t v Ht). intros c Hc. rewrite <- E. exact (Hm c Hc). Qed.

Lemma tok_replace {A} b i d x (k : M _ A) Q :
  can_write x b -> tok k (write_block b d x) Q ->
  tok (set_data i d;; log_write i;; brelse i;; k) (hold b i x) Q.
Proof using Hlsz.
  intros Hw HQ. apply tok_ext with ((set_data i d;; log_write i;; brelse i) ≫= fun _ => k).
  { intros s. unfold mbind, M_bind. destruct (set_data i d s) as [[] s1| | | | |]; try done. by destruct (log_write i s1). }
  apply tok_bind. by apply tok_replace_end.
Qed.

(** ** The layout of the disk *)
Definition datastart (s : superblock) : Z := bmapstart s + (sb_size s - 1) / BPB + 1.
Record layout (s : superblock) : Prop := {
  lay_log : 0 <= lst ∧ lst + LOGSIZE <= inodestart s;
  lay_inodes : 0 <= ninodes s ∧ inodestart s + ninodes s / IPB < bmapstart s;
  lay_size : datastart s < sb_size s < 2 ^ 31
}.

(** Block [b] is marked in the bitmap. *)
Definition used x (b : Z) : bool := bit_set (tcont x (BBLOCK b (sb (tup x)))) (b mod BPB).

Lemma BBLOCK_range s b : layout s -> 0 <= b < sb_size s -> bmapstart s <= BBLOCK b s < datastart s.
Proof.
  intros [_ _ Hs] Hb. unfold BBLOCK, datastart in *. unfold BPB, BSIZE in *.
  assert (b / (1024 * 8) <= (sb_size s - 1) / (1024 * 8)) by (apply Z.div_le_mono; lia).
  assert (0 <= b / (1024 * 8)) by (apply Z.div_pos; lia). lia.
Qed.
Lemma layout_loggable s b : layout s -> inodestart s <= b < sb_size s -> loggable lst b.
Proof.
  intros [Hl Hi Hs] Hb. unfold loggable, LOGSIZE, MAXOPBLOCKS in *. split; [right|]; lia.
Qed.

(** The state of the blocks that fs.c keeps between its steps. *)
Record blocks_ok x : Prop := {
  bo_layout : layout (sb (tup x));
  bo_len : forall b, length (tcont x b) = Z.to_nat BSIZE;
  bo_meta : forall b, 0 <= b < datastart (sb (tup x)) -> used x b = true
}.
(** Only data blocks in use are locked. *)
Definition held_ok x : Prop :=
  (forall b, is_Some (theld x !! b) -> datastart (sb (tup x)) <= b ∧ used x b = true) ∧ (forall b, b ∈ tdirty x -> is_Some (theld x !! b)).
(** Room to record [n] more blocks and to lock [h] more buffers. *)
Definition room x (n h : Z) : Prop :=
  Z.of_nat (length (tlog x)) + n <= lsz - 1 ∧ Z.of_nat (length (tlog x)) + n + Z.of_nat (base.size (theld x)) + h <= NBUF.

Lemma can_write_of x b n :
  layout (sb (tup x)) -> held_ok x -> room x n 1 -> 1 <= n -> inodestart (sb (tup x)) <= b < sb_size (sb (tup x)) ->
  (b < datastart (sb (tup x)) ∨ used x b = false) -> can_write x b.
Proof.
  intros Hl [Hh Hd] [Hr1 Hr2] Hn Hb Hu.
  assert (Hnone : theld x !! b = None).
  { destruct (theld x !! b) as [i|] eqn:E; [|done]. destruct (Hh b) as [H1 H2]; [by exists i|]. destruct Hu; [lia|congruence]. }
  split; [split|..].
  - done.
  - intros [i Hi]%Hd. congruence.
  - unfold NBUF, MAXOPBLOCKS in *. lia.
  - by eapply layout_loggable.
  - lia.
Qed.

Definition zero_block : list Z := replicate (Z.to_nat BSIZE) 0.
Definition mark_block (b : Z) x : txn U :=
  let bb := BBLOCK b (sb (tup x)) in let d := tcont x bb in let bi := b mod BPB in
  write_block bb (put_byte d (bi / 8) (Z.lor (byte_at d (bi / 8)) (bit_mask bi))) x.
Definition alloc_block (b : Z) x : txn U := write_block b zero_block (mark_block b x).

Lemma record_length b bs : (length (record b bs) <= S (length bs))%nat.
Proof. unfold record. destruct (decide _); [lia|]. rewrite length_app. simpl. lia. Qed.

Lemma room_write x b d n h : room x n h -> room (write_block b d x) (n - 1) h.
Proof.
  intros [H1 H2]. unfold room, write_block. simpl. pose proof (record_length b (tlog x)). lia.
Qed.

Lemma layout_pos s : layout s -> 0 <= bmapstart s ∧ bmapstart s < datastart s ∧ 0 < sb_size s.
Proof.
  intros [Hl Hi Hs]. unfold datastart, LOGSIZE, MAXOPBLOCKS, BPB, IPB, BSIZE, sizeof_dinode in *.
  assert (0 <= ninodes s / (1024 / 64)) by (apply Z.div_pos; [lia|done]). change (1024 * 8) with 8192 in *.
  assert (Hd := Z.div_mod (sb_size s - 1) 8192 ltac:(done)). pose proof (Z.mod_pos_bound (sb_size s - 1) 8192 ltac:(done)). lia.
Qed.

Lemma used_write x b d b' : BBLOCK b' (sb (tup x)) ≠ b -> used (write_block b d x) b' = used x b'.
Proof. intros Hne. unfold used, write_block. simpl. by rewrite upd_ne. Qed.

Lemma used_mark x b b' :
  blocks_ok x -> 0 <= b < sb_size (sb (tup x)) -> 0 <= b' < sb_size (sb (tup x)) ->
  used (mark_block b x) b' = (b' =? b) || used x b'.
Proof.
  intros [Hl Hlen _] Hb Hb'. pose proof (Z.mod_pos_bound b BPB ltac:(done)). pose proof (Z.mod_pos_bound b' BPB ltac:(done)).
  destruct (decide (b' / BPB = b / BPB)) as [E|E].
  - unfold used, mark_block, write_block, BBLOCK. simpl. rewrite E, upd_eq, bit_mark by done. f_equal.
    apply eq_true_iff_eq. rewrite !Z.eqb_eq. split; [|by intros ->].
    intros Hx. rewrite (Z.div_mod b' BPB), (Z.div_mod b BPB), E, Hx by done. done.
  - unfold mark_block. rewrite used_write by (unfold BBLOCK; lia). rewrite (proj2 (Z.eqb_neq b' b)); [done|]. by intros ->.
Qed.

Lemma length_zero_block : length zero_block = Z.to_nat BSIZE.
Proof. apply length_replicate. Qed.

Lemma sb_mark x b : sb (tup (mark_block b x)) = sb (tup x).
Proof. done. Qed.

(** Writing a block outside the bitmap. *)
Definition not_bitmap x (b : Z) : Prop := b < bmapstart (sb (tup x)) ∨ datastart (sb (tup x)) <= b.
Lemma used_data x b d b' :
  blocks_ok x -> not_bitmap x b -> 0 <= b' < sb_size (sb (tup x)) -> used (write_block b d x) b' = used x b'.
Proof.
  intros Hx Hb Hb'. apply used_write. unfold not_bitmap in Hb. pose proof (BBLOCK_range _ b' (bo_layout _ Hx) Hb'). lia.
Qed.
Lemma blocks_write x b d : blocks_ok x -> length d = Z.to_nat BSIZE -> not_bitmap x b -> blocks_ok (write_block b d x).
Proof.
  intros Hx Hd Hb. split; [apply Hx| |].
  - intros b'. unfold write_block. simpl. destruct (decide (b' = b)) as [->|]; [by rewrite upd_eq|rewrite upd_ne by done; apply Hx].
  - intros b' Hb'. pose proof (lay_size _ (bo_layout _ Hx)). rewrite used_data; [by apply Hx|done|done|simpl in Hb'; lia].
Qed.

Lemma used_alloc x b b' :
  blocks_ok x -> datastart (sb (tup x)) <= b < sb_size (sb (tup x)) -> 0 <= b' < sb_size (sb (tup x)) ->
  used (alloc_block b x) b' = (b' =? b) || used x b'.
Proof.
  intros Hx Hb Hb'. pose proof (layout_pos _ (bo_layout _ Hx)). unfold alloc_block.
  pose proof (BBLOCK_range _ b' (bo_layout _ Hx) Hb').
  rewrite used_write by (simpl; lia). apply used_mark; [done|lia|done].
Qed.

Lemma blocks_alloc x b :
  blocks_ok x -> datastart (sb (tup x)) <= b < sb_size (sb (tup x)) -> blocks_ok (alloc_block b x).
Proof.
  intros Hx Hb. pose proof (layout_pos _ (bo_layout _ Hx)). unfold alloc_block. apply blocks_write; [|apply length_zero_block|right; apply Hb].
  pose proof Hx as [H1 H2 H3]. split; [done| |].
  - intros b'. unfold mark_block, write_block. simpl. destruct (decide (b' = BBLOCK b (sb (tup x)))) as [->|].
    + rewrite upd_eq, length_put_byte. apply H2. + by rewrite upd_ne.
  - intros b' Hb'. change (sb (tup (mark_block b x))) with (sb (tup x)) in Hb'. rewrite used_mark by (done || lia).
    rewrite H3 by done. by rewrite orb_true_r.
Qed.

(** ** balloc and bfree *)
Lemma tok_sb {A} (k : superblock -> M _ A) x Q : tok (k (sb (tup x))) x Q -> tok (s ← ugets sb; k s) x Q.
Proof. intros Hk. apply tok_bind. by apply (tok_gets p lst lsz D W sb). Qed.

Lemma tok_bzero b x Q : can_write x b -> Q tt (write_block b zero_block x) -> tok (bzero ROOTDEV b) x Q.
Proof using Hlsz.
  intros Hw HQ. unfold bzero. apply tok_bind, tok_bread; [apply Hw|apply Hw|]. intros i. by apply tok_replace_end.
Qed.

Lemma can_write_step x b b' d n : room x n 1 -> 2 <= n -> can_write x b -> can_write (write_block b' d x) b.
Proof.
  intros [H1 H2] Hn [[Hh Hc _] Hl _]. pose proof (record_length b' (tlog x)). unfold NBUF, MAXOPBLOCKS in *.
  split; [split|..]; unfold write_block, NBUF, MAXOPBLOCKS; simpl; try done; lia.
Qed.

Lemma bit_of_block s j bi : 0 <= j -> 0 <= bi < BPB -> BBLOCK (j * BPB + bi) s = BBLOCK (j * BPB) s ∧ (j * BPB + bi) mod BPB = bi.
Proof.
  intros Hj Hbi. unfold BBLOCK. rewrite Z.div_add_l, Z.div_mul, Z.div_small, Z.add_0_r by (done || lia). split; [done|].
  rewrite Z.add_comm, Z.mod_add by done. by apply Z.mod_small.
Qed.

Lemma tok_balloc_loop Q x : blocks_ok x -> held_ok x -> room x 2 1 ->
  (forall r, datastart (sb (tup x)) <= r < sb_size (sb (tup x)) -> used x r = false ->
     (forall b, 0 <= b < r -> used x b = true) -> Q r (alloc_block r x)) ->
  forall k j, 0 <= j -> (forall b, 0 <= b < j * BPB -> used x b = true) ->
  (exists f, j * BPB <= f < sb_size (sb (tup x)) ∧ used x f = false) ->
  sb_size (sb (tup x)) - j * BPB <= Z.of_nat k * BPB -> tok (balloc_loop k ROOTDEV (j * BPB)) x Q.
Proof using Hlsz.
  intros Hx Hh Hr HQ. pose proof (bo_layout _ Hx) as Hl. pose proof (layout_pos _ Hl) as Hpos.
  induction k as [|k IH]; intros j Hj Hlow Hex Hk; [destruct Hex as (f & ? & _); lia|]. cbn [balloc_loop].
  apply tok_sb. destruct (Z.ltb_spec (j * BPB) (sb_size (sb (tup x)))); [|destruct Hex as (f & ? & _); lia]. cbn [negb].
  assert (Hb0 : 0 <= j * BPB) by (unfold BPB, BSIZE; lia).
  pose proof (BBLOCK_range _ (j * BPB) Hl ltac:(lia)) as HBB. destruct Hl as [Hl1 Hl2 Hl3] eqn:E. clear E.
  assert (0 <= ninodes (sb (tup x)) / IPB) by (apply Z.div_pos; [lia|done]).
  assert (Hw : can_write x (BBLOCK (j * BPB) (sb (tup x)))) by (eapply can_write_of; [done|done|exact Hr|lia|lia|left; lia]).
  apply (tok_read (BBLOCK (j * BPB) (sb (tup x)))); [apply Hw|]. intros i.
  pose proof (balloc_find_spec (Z.to_nat BPB) (tcont x (BBLOCK (j * BPB) (sb (tup x)))) (j * BPB) 0 (sb_size (sb (tup x))) ltac:(lia)) as Hfind.
  rewrite Z2Nat.id in Hfind by done. specialize (Hfind ltac:(lia)).
  assert (Hbit : forall bi, 0 <= bi < BPB -> bit_set (tcont x (BBLOCK (j * BPB) (sb (tup x)))) bi = used x (j * BPB + bi)).
  { intros bi Hbi. unfold used. by destruct (bit_of_block (sb (tup x)) j bi Hj Hbi) as [-> ->]. }
  destruct (balloc_find _ _ _ _ _) as [bi|].
  - destruct Hfind as (Hbi & Hsz & Hclr & Hset). rewrite Hbit in Hclr by lia.
    assert (Hlo : forall b, 0 <= b < j * BPB + bi -> used x b = true).
    { intros b Hb. destruct (decide (b < j * BPB)) as [|Hge]; [apply Hlow; lia|].
      replace b with (j * BPB + (b - j * BPB)) by lia. rewrite <- Hbit by lia. apply Hset. lia. }
    assert (Hds : datastart (sb (tup x)) <= j * BPB + bi).
    { apply Z.nlt_ge. intros Hlt. rewrite (bo_meta _ Hx) in Hclr; [done|lia]. }
    apply tok_replace; [exact Hw|]. destruct (bit_of_block (sb (tup x)) j bi Hj ltac:(lia)) as [Ebb Emod].
    assert (Hmk : write_block (BBLOCK (j * BPB) (sb (tup x)))
        (put_byte (tcont x (BBLOCK (j * BPB) (sb (tup x)))) (bi / 8)
           (Z.lor (byte_at (tcont x (BBLOCK (j * BPB) (sb (tup x)))) (bi / 8)) (bit_mask bi))) x = mark_block (j * BPB + bi) x).
    { unfold mark_block. by rewrite Ebb, Emod. }
    rewrite Hmk. apply tok_bind, tok_bzero.
    + eapply can_write_step; [exact Hr|lia|]. eapply can_write_of; [done|done|exact Hr|lia|lia|by right].
    + apply tok_ret. apply HQ; [lia|done|done].
  - apply tok_release; [apply Hw|]. replace (j * BPB + BPB) with ((j + 1) * BPB) by ring.
    assert (Hall : forall b, 0 <= b < (j + 1) * BPB -> b < sb_size (sb (tup x)) -> used x b = true).
    { intros b Hb Hs. destruct (decide (b < j * BPB)) as [|Hge]; [apply Hlow; lia|].
      replace b with (j * BPB + (b - j * BPB)) by lia. rewrite <- Hbit by lia. apply Hfind; lia. }
    destruct Hex as (f & Hf & Hu). assert ((j + 1) * BPB <= f).
    { apply Z.nlt_ge. intros Hlt. rewrite Hall in Hu; [done|lia|lia]. }
    apply IH; [lia| | |unfold BPB, BSIZE in *; lia].
    + intros b Hb. apply Hall; [done|lia].
    + exists f. split; [lia|done].
Qed.

(** [balloc] takes the first free block. *)
Lemma tok_balloc x Q : blocks_ok x -> held_ok x -> room x 2 1 ->
  (exists f, 0 <= f < sb_size (sb (tup x)) ∧ used x f = false) ->
  (forall r, datastart (sb (tup x)) <= r < sb_size (sb (tup x)) -> used x r = false ->
     (forall b, 0 <= b < r -> used x b = true) -> Q r (alloc_block r x)) ->
  tok (balloc ROOTDEV) x Q.
Proof using Hlsz.
  intros Hx Hh Hr Hex HQ. unfold balloc. apply tok_sb. change 0 with (0 * BPB).
  apply tok_balloc_loop; try done; [intros; lia|].
  pose proof (layout_pos _ (bo_layout _ Hx)). rewrite !Nat2Z.inj_succ, Z2Nat.id by (apply Z.div_pos; [lia|done]).
  pose proof (Z.div_mod (sb_size (sb (tup x))) BPB ltac:(done)). pose proof (Z.mod_pos_bound (sb_size (sb (tup x))) BPB ltac:(done)). unfold BPB, BSIZE in *. lia.
Qed.

(** ** Freeing, and the number of free blocks *)
Definition unmark_block (b : Z) x : txn U :=
  let bb := BBLOCK b (sb (tup x)) in let d := tcont x bb in let bi := b mod BPB in
  write_block bb (put_byte d (bi / 8) (Z.land (byte_at d (bi / 8)) (Z.lnot (bit_mask bi)))) x.

Lemma tok_bfree b x Q : blocks_ok x -> held_ok x -> room x 1 1 ->
  datastart (sb (tup x)) <= b < sb_size (sb (tup x)) -> used x b = true -> Q tt (unmark_block b x) ->
  tok (bfree ROOTDEV b) x Q.
Proof using Hlsz.
  intros Hx Hh Hr Hb Hu HQ. pose proof (bo_layout _ Hx) as Hl. pose proof (layout_pos _ Hl) as Hpos.
  pose proof (BBLOCK_range _ b Hl ltac:(lia)) as HBB. pose proof (lay_inodes _ Hl). pose proof (lay_size _ Hl).
  assert (0 <= ninodes (sb (tup x)) / IPB) by (apply Z.div_pos; [lia|done]).
  unfold bfree. apply tok_sb.
  assert (Hw : can_write x (BBLOCK b (sb (tup x)))) by (eapply can_write_of; [done|done|exact Hr|lia|lia|left; lia]).
  apply (tok_read (BBLOCK b (sb (tup x)))); [apply Hw|]. intros i. unfold used in Hu. rewrite Hu. cbn [negb].
  apply tok_replace_end; [exact Hw|exact HQ].
Qed.

Lemma used_unmark x b b' :
  blocks_ok x -> 0 <= b < sb_size (sb (tup x)) -> 0 <= b' < sb_size (sb (tup x)) ->
  used (unmark_block b x) b' = negb (b' =? b) && used x b'.
Proof.
  intros [Hl Hlen _] Hb Hb'. pose proof (Z.mod_pos_bound b BPB ltac:(done)). pose proof (Z.mod_pos_bound b' BPB ltac:(done)).
  destruct (decide (b' / BPB = b / BPB)) as [E|E].
  - unfold used, unmark_block, write_block, BBLOCK. simpl. rewrite E, upd_eq, bit_clear by done. f_equal. f_equal.
    apply eq_true_iff_eq. rewrite !Z.eqb_eq. split; [|by intros ->].
    intros Hx. rewrite (Z.div_mod b' BPB), (Z.div_mod b BPB), E, Hx by done. done.
  - unfold unmark_block. rewrite used_write by (unfold BBLOCK; lia). rewrite (proj2 (Z.eqb_neq b' b)); [done|]. by intros ->.
Qed.

Definition nfree x : nat := length (filter (fun b => used x b = false) (seqZ 0 (sb_size (sb (tup x))))).

Lemma nfree_exists x : (0 < nfree x)%nat -> exists f, 0 <= f < sb_size (sb (tup x)) ∧ used x f = false.
Proof using.
  unfold nfree. intros Hn. destruct (filter _ _) as [|f l] eqn:E; [simpl in Hn; lia|].
  assert (Hf : f ∈ f :: l) by left. rewrite <- E in Hf. apply list_elem_of_filter in Hf as [Hf Hin%elem_of_seqZ]. exists f. split; [lia|done].
Qed.

Lemma nfree_data x b d : blocks_ok x -> not_bitmap x b -> nfree (write_block b d x) = nfree x.
Proof using.
  intros Hx Hb. unfold nfree. f_equal. apply filter_same. intros z Hz%elem_of_seqZ.
  rewrite used_data; [done|done|done|simpl in Hz; lia].
Qed.

Lemma nfree_alloc x b :
  blocks_ok x -> datastart (sb (tup x)) <= b < sb_size (sb (tup x)) -> (nfree x <= S (nfree (alloc_block b x)))%nat.
Proof using X lst.
  intros Hx Hb. unfold nfree. apply (filter_remove _ _ _ b); [apply NoDup_seqZ|].
  intros z Hz%elem_of_seqZ. rewrite used_alloc by (done || lia). clear p D; destruct (Z.eqb_spec z b) as [->|]; simpl; [|tauto].
  split; [done|tauto].
Qed.
End block.
