(* ===== verification/FsFile.v ===== *)
(** * FsFile: the contents of files

    The blocks of a file ([bmap]: direct and indirect, allocated on demand), and
    reading and writing at an offset, as operations on the byte sequence the file
    holds.  Everything is inside a transaction, on an inode that is locked and
    valid. *)

From stdpp Require Import gmap.
From S2P Require Import Prelude Bytes SleepLock Bio BioRep Log LogRep LogProps Txn Fs FsBlock.

(** The block of a file with on-disk inode [n] that holds its [bn]th kilobyte; 0 if
    there is none. *)
Definition fblk (g : Z -> list Z) (n : dinode) (bn : Z) : Z :=
  if bn <? NDIRECT then addrs n bn
  else if addrs n NDIRECT =? 0 then 0 else get32 (g (addrs n NDIRECT)) (4 * (bn - NDIRECT)).

Section file.
Context {X : Type} `{!Copy X}.
Context (p lst lsz : Z) (Hlsz : lsz <= LOGSIZE) (D : Z -> list Z) (W : list (Z * list Z)).
Abbreviation U := (ist X).
Abbreviation tok := (Txn.tok (U := U) p lst lsz D W).
Implicit Types (x : txn U).
Context (ip : Z) (Hip : inode_ok ip = true).

Definition node x : inode := inodes (tup x) ip.
Definition set_dip (n : dinode) x : txn U :=
  x <| tup ::= fun u => u <| inodes ::= fun g => upd g ip ((g ip) <| dip := n |>) |> |>.
Definition fb x (bn : Z) : Z := fblk (tcont x) (dip (node x)) bn.
Abbreviation ind x := (addrs (dip (node x)) NDIRECT).
Abbreviation bsize x := (sb_size (sb (tup x))).
Abbreviation dstart x := (datastart (sb (tup x))).

Lemma tok_inode {A} (k : inode -> M _ A) x Q : tok (k (node x)) x Q -> tok (p ← get_inode ip; k p) x Q.
Proof using Hip.
  intros Hk. apply tok_bind. unfold get_inode. rewrite Hip. by apply (tok_gets p lst lsz D W (fun u => inodes u ip)).
Qed.
Lemma tok_set_dip (f : dinode -> dinode) x (Q : unit -> txn U -> Prop) :
  Q tt (set_dip (f (dip (node x))) x) -> tok (set_inode ip (fun p => p <| dip ::= f |>)) x Q.
Proof using Hip. intros HQ. unfold set_inode. rewrite Hip. by apply (tok_modify p lst lsz D W). Qed.

Lemma node_set_dip n x : node (set_dip n x) = (node x) <| dip := n |>.
Proof. unfold node, set_dip. simpl. by rewrite upd_eq. Qed.

(** The blocks of the file are in use and distinct, there is no gap below its size. *)
Record file_ok x : Prop := {
  fi_dev : i_dev (node x) = ROOTDEV;
  fi_data : forall bn, 0 <= bn < MAXFILE -> fb x bn ≠ 0 -> dstart x <= fb x bn < bsize x ∧ used x (fb x bn) = true;
  fi_ind : ind x ≠ 0 -> dstart x <= ind x < bsize x ∧ used x (ind x) = true ∧ (forall bn, 0 <= bn < MAXFILE -> fb x bn ≠ ind x);
  fi_inj : forall bn bn', 0 <= bn < MAXFILE -> 0 <= bn' < MAXFILE -> fb x bn ≠ 0 -> fb x bn = fb x bn' -> bn = bn';
  fi_size : 0 <= isize (dip (node x)) <= MAXFILE * BSIZE;
  fi_gap : forall bn, 0 <= bn -> bn * BSIZE < isize (dip (node x)) -> fb x bn ≠ 0
}.

(** What a step of the file layer leaves alone: locked blocks, the superblock, other
    inodes, metadata blocks, and every data block in use except the indirect block of
    this file; it uses up at most [f] free blocks and [l] log entries. *)
Record kept (f l : nat) x x' : Prop := {
  k_held : theld x' = theld x;
  k_dirty : tdirty x' = tdirty x;
  k_sb : sb (tup x') = sb (tup x);
  k_inodes : forall j, j ≠ ip -> inodes (tup x') j = inodes (tup x) j;
  k_node : node x' = (node x) <| dip := dip (node x') |>;
  k_dip : dip (node x') = (dip (node x)) <| addrs := addrs (dip (node x')) |>;
  k_local : local (tup x') = local (tup x);
  k_ext : ext (tup x') = ext (tup x);
  k_meta : forall b, b < bmapstart (sb (tup x)) -> tcont x' b = tcont x b;
  k_used : forall b, 0 <= b < bsize x -> used x b = true -> used x' b = true;
  k_cont : forall b, dstart x <= b < bsize x -> used x b = true -> b ≠ ind x -> tcont x' b = tcont x b;
  k_ind : ind x ≠ 0 -> ind x' = ind x;
  k_ind_new : ind x = 0 -> ind x' ≠ 0 -> used x (ind x') = false;
  k_free : (nfree x <= f + nfree x')%nat;
  k_log : (length (tlog x') <= l + length (tlog x))%nat
}.

Lemma k_size f l x x' : kept f l x x' -> isize (dip (node x')) = isize (dip (node x)).
Proof. intros Hk. by rewrite (k_dip _ _ _ _ Hk). Qed.

Lemma kept_refl x : kept 0 0 x x.
Proof. split; try done; [by destruct (node x)|by destruct (dip (node x))]. Qed.

Lemma kept_trans f1 l1 f2 l2 x1 x2 x3 :
  kept f1 l1 x1 x2 -> kept f2 l2 x2 x3 -> (ind x3 ≠ 0 -> 0 <= ind x3 < bsize x1) -> 0 <= dstart x1 ->
  kept (f1 + f2) (l1 + l2) x1 x3.
Proof.
  intros [] [] Hi Hd. split; try congruence.
  - intros j Hj. by rewrite k_inodes1, k_inodes0.
  - rewrite k_node1, k_node0. by destruct (node x1), (node x2), (node x3).
  - rewrite k_dip1, k_dip0. by destruct (dip (node x1)), (dip (node x2)), (dip (node x3)).
  - intros b Hbb. rewrite k_meta1, k_meta0; [done|done|]. by rewrite k_sb0.
  - intros b Hbb Hu. apply k_used1; [by rewrite k_sb0|]. by apply k_used0.
  - intros b Hbb Hu Hne. rewrite k_cont1, k_cont0; [done|done|done|done|by rewrite k_sb0|apply k_used0; [lia|done]|].
    destruct (decide (ind x1 = 0)) as [E|E]; [|by rewrite k_ind0]. intros ->. destruct (decide (ind x2 = 0)) as [E2|E2]; [lia|].
    rewrite k_ind_new0 in Hu; done.
  - intros Hne. rewrite k_ind1, k_ind0; [done|done|]. by rewrite k_ind0.
  - intros E Hne. destruct (decide (ind x2 = 0)) as [E2|E2].
    + destruct (used x1 (ind x3)) eqn:Hu; [|done]. rewrite <- (k_ind_new1 E2 Hne). symmetry. apply k_used0; [by apply Hi|done].
    + rewrite k_ind1 in * by done. by apply k_ind_new0.
  - lia.
  - lia.
Qed.

(** No block is locked. *)
Definition idle x : Prop := theld x = ∅ ∧ tdirty x = ∅.
Lemma idle_held x : idle x -> held_ok x.
Proof. intros [Hh Hd]. split; [rewrite Hh|rewrite Hd]; intros b; [intros [? ?]; by rewrite lookup_empty in *|by intros ?%elem_of_empty]. Qed.

Lemma idle_read x b n : idle x -> room lsz x n 1 -> 0 <= n -> can_read x b.
Proof.
  intros [Hh Hd] [_ Hr] Hn. split; [by rewrite Hh, lookup_empty|by rewrite Hd; apply not_elem_of_empty|].
  unfold NBUF, MAXOPBLOCKS in *. lia.
Qed.
Lemma idle_write x b n : idle x -> room lsz x n 1 -> 1 <= n -> loggable lst b -> can_write lst lsz x b.
Proof. intros Hi Hr Hn Hl. split; [eapply idle_read; [done|exact Hr|lia]|done|]. destruct Hr. lia. Qed.

(** Allocating a block for the file. *)
Lemma alloc_kept x r :
  blocks_ok lst x -> dstart x <= r < bsize x -> used x r = false -> kept 1 2 x (alloc_block r x).
Proof.
  intros Hx Hr Hu. pose proof (layout_pos lst _ (bo_layout _ _ Hx)) as Hpos.
  pose proof (BBLOCK_range lst _ r (bo_layout _ _ Hx) ltac:(lia)) as HBB.
  split; try done.
  - change (node (alloc_block r x)) with (node x). by destruct (node x).
  - change (node (alloc_block r x)) with (node x). by destruct (dip (node x)).
  - intros b Hb. unfold alloc_block, mark_block, write_block. simpl. by rewrite !upd_ne by lia.
  - intros b Hb Hub. rewrite (used_alloc lst) by done. by rewrite Hub, orb_true_r.
  - intros b Hb Hub _. unfold alloc_block, mark_block, write_block. simpl. rewrite !upd_ne; [done|lia|congruence].
  - by apply (nfree_alloc lst).
  - unfold alloc_block, mark_block, write_block. simpl. pose proof (record_length (BBLOCK r (sb (tup x))) (tlog x)).
    pose proof (record_length r (record (BBLOCK r (sb (tup x))) (tlog x))). lia.
Qed.

(** [file_ok] depends on the inode, its indirect block and the bitmap only. *)
Lemma fb_same x x' bn : dip (node x') = dip (node x) -> (ind x ≠ 0 -> tcont x' (ind x) = tcont x (ind x)) -> fb x' bn = fb x bn.
Proof.
  intros Hd Hi. unfold fb, fblk. rewrite Hd. destruct (bn <? NDIRECT); [done|]. destruct (Z.eqb_spec (ind x) 0); [done|]. by rewrite Hi.
Qed.
Lemma file_same x x' :
  file_ok x -> node x' = node x -> sb (tup x') = sb (tup x) -> (ind x ≠ 0 -> tcont x' (ind x) = tcont x (ind x)) ->
  (forall b, 0 <= b < bsize x -> used x b = true -> used x' b = true) -> 0 <= dstart x -> file_ok x'.
Proof.
  intros [] Hn Hs Hi Hu Hd. assert (Hfb : forall bn, fb x' bn = fb x bn) by (intros; apply fb_same; [by rewrite Hn|done]).
  split.
  - by rewrite Hn.
  - intros bn Hb. rewrite Hfb, Hs. intros Hne. destruct (fi_data0 bn Hb Hne). split; [done|]. apply Hu; [lia|done].
  - rewrite Hn, Hs. intros Hne. destruct (fi_ind0 Hne) as (H1 & H2 & H3). split_and!; [lia|lia|apply Hu; [lia|done]|].
    intros bn Hb. rewrite Hfb. by apply H3.
  - intros bn bn' Hb Hb'. rewrite !Hfb. by apply fi_inj0.
  - by rewrite Hn.
  - intros bn. rewrite Hfb, Hn. apply fi_gap0.
Qed.

(** A block entered in the inode. *)
Definition link_addr (i r : Z) x : txn U := set_dip ((dip (node x)) <| addrs ::= fun f => upd f i r |>) x.
(** A block entered in the indirect block. *)
Definition link_entry (bn r : Z) x : txn U := write_block (ind x) (put32 (tcont x (ind x)) (4 * (bn - NDIRECT)) r) x.

Lemma node_link i r x : node (link_addr i r x) = (node x) <| dip := (dip (node x)) <| addrs ::= fun f => upd f i r |> |>.
Proof. apply node_set_dip. Qed.
Lemma ind_link i r x : ind (link_addr i r x) = if i =? NDIRECT then r else ind x.
Proof. rewrite node_link. simpl. destruct (Z.eqb_spec i NDIRECT) as [->|]; [apply upd_eq|by apply upd_ne]. Qed.

Lemma fb_link bn r x bn' : 0 <= bn < NDIRECT -> 0 <= bn' -> fb (link_addr bn r x) bn' = if bn' =? bn then r else fb x bn'.
Proof.
  intros Hb Hb'. unfold fb, fblk. rewrite node_link. simpl. rewrite (upd_ne _ bn _ NDIRECT) by lia.
  change (tcont (link_addr bn r x)) with (tcont x). destruct (Z.ltb_spec bn' NDIRECT).
  - destruct (Z.eqb_spec bn' bn) as [->|]; [apply upd_eq|by apply upd_ne].
  - by assert ((bn' =? bn) = false) as -> by lia.
Qed.
Lemma get32_zero off : get32 zero_block off = 0.
Proof.
  assert (E : forall i, byte_at zero_block i = 0); [|unfold get32, get_le; by rewrite !E].
  intros i. unfold byte_at, zero_block. destruct (0 <=? i); [|done].
  destruct (decide (Z.to_nat i < Z.to_nat BSIZE)%nat); [by rewrite lookup_replicate_2|].
  rewrite lookup_ge_None_2; [done|]. rewrite length_replicate. lia.
Qed.
Lemma fb_link_ind r x bn : ind x = 0 -> tcont x r = zero_block -> fb (link_addr NDIRECT r x) bn = fb x bn.
Proof.
  intros Hi Hz. unfold fb, fblk. rewrite node_link. simpl. rewrite upd_eq. change (tcont (link_addr NDIRECT r x)) with (tcont x).
  rewrite Hz, get32_zero, Hi. destruct (Z.ltb_spec bn NDIRECT); [by rewrite upd_ne by lia|]. by destruct (r =? 0).
Qed.
Lemma fb_entry bn r x bn' :
  blocks_ok lst x -> ind x ≠ 0 -> NDIRECT <= bn < MAXFILE -> 0 <= bn' < MAXFILE -> 0 <= r < 2 ^ 32 ->
  fb (link_entry bn r x) bn' = if bn' =? bn then r else fb x bn'.
Proof.
  intros Hx Hi Hb Hb' Hr. unfold fb, fblk. change (node (link_entry bn r x)) with (node x). unfold link_entry, write_block. simpl.
  rewrite upd_eq. destruct (Z.ltb_spec bn' NDIRECT); [by assert ((bn' =? bn) = false) as -> by lia|].
  assert ((ind x =? 0) = false) as -> by lia. pose proof (bo_len _ _ Hx (ind x)) as Hl.
  destruct (Z.eqb_spec bn' bn) as [->|]; [|by rewrite get_put32_ne by lia].
  rewrite get_put32; [by apply Z.mod_small|lia|]. rewrite Hl. change MAXFILE with 268 in *. unfold NDIRECT, BSIZE in *. lia.
Qed.

Lemma link_kept i r x :
  blocks_ok lst x -> dstart x <= r < bsize x -> used x r = false -> (i = NDIRECT -> ind x = 0) ->
  kept 1 2 x (link_addr i r (alloc_block r x)).
Proof.
  intros Hx Hr Hu Hi. destruct (alloc_kept x r Hx Hr Hu). split; try done.
  - intros j Hj. unfold link_addr, set_dip. simpl. by rewrite upd_ne.
  - rewrite node_link. change (node (alloc_block r x)) with (node x). by destruct (node x).
  - rewrite node_link. change (node (alloc_block r x)) with (node x). by destruct (dip (node x)).
  - rewrite ind_link. destruct (Z.eqb_spec i NDIRECT) as [->|]; [|done]. by intros []; apply Hi.
  - rewrite ind_link. destruct (Z.eqb_spec i NDIRECT) as [->|]; done.
Qed.
Lemma entry_kept bn r x : blocks_ok lst x -> ind x ≠ 0 -> dstart x <= ind x < bsize x -> kept 0 1 x (link_entry bn r x).
Proof.
  intros Hx Hi Hr. pose proof (layout_pos lst _ (bo_layout _ _ Hx)) as Hpos.
  split; try done.
  - change (node (link_entry bn r x)) with (node x). by destruct (node x).
  - change (node (link_entry bn r x)) with (node x). by destruct (dip (node x)).
  - intros b Hb. unfold link_entry, write_block. simpl. by rewrite upd_ne by lia.
  - intros b Hb Hu. unfold link_entry. by rewrite (used_data lst) by (done || (right; lia) || lia).
  - intros b Hb Hu Hne. unfold link_entry, write_block. simpl. by rewrite upd_ne.
  - unfold link_entry. by rewrite (nfree_data lst) by (done || (right; lia)).
  - apply record_length.
Qed.

(** One more block in the file. *)
Lemma file_add bn r x x' :
  file_ok x -> i_dev (node x') = i_dev (node x) -> isize (dip (node x')) = isize (dip (node x)) ->
  sb (tup x') = sb (tup x) -> ind x' = ind x -> (forall b, 0 <= b < bsize x -> used x b = true -> used x' b = true) ->
  (forall bn', 0 <= bn' < MAXFILE -> fb x' bn' = if bn' =? bn then r else fb x bn') ->
  dstart x <= r < bsize x -> used x r = true -> r ≠ ind x -> (forall bn', 0 <= bn' < MAXFILE -> fb x bn' ≠ r) -> 0 < dstart x ->
  file_ok x'.
Proof.
  intros [] Hdv Hsz Hs Hi Hus Hfb Hr Hur Hri Hnew Hd. split; try congruence.
  - intros bn' Hb. rewrite Hfb, Hs by done. destruct (Z.eqb_spec bn' bn); [intros _; split; [lia|apply Hus; [lia|done]]|].
    intros Hne. destruct (fi_data0 bn' Hb Hne). split; [done|]. apply Hus; [lia|done].
  - rewrite Hi, Hs. intros Hne. destruct (fi_ind0 Hne) as (H1 & H2 & H3). split_and!; [lia|lia|apply Hus; [lia|done]|].
    intros bn' Hb. rewrite Hfb by done. destruct (bn' =? bn); [done|by apply H3].
  - intros b1 b2 Hb1 Hb2. rewrite !Hfb by done. destruct (Z.eqb_spec b1 bn), (Z.eqb_spec b2 bn); [congruence| | |by apply fi_inj0].
    + intros _ E. by destruct (Hnew b2 Hb2).
    + intros _ E. by destruct (Hnew b1 Hb1).
  - intros b Hb. rewrite Hsz. intros Hlt. assert (b < MAXFILE) by (unfold BSIZE in *; lia). rewrite Hfb by lia.
    destruct (b =? bn); [lia|by apply fi_gap0].
Qed.
Lemma file_ind r x x' :
  file_ok x -> i_dev (node x') = i_dev (node x) -> isize (dip (node x')) = isize (dip (node x)) ->
  sb (tup x') = sb (tup x) -> ind x' = r -> (forall b, 0 <= b < bsize x -> used x b = true -> used x' b = true) ->
  (forall bn', fb x' bn' = fb x bn') ->
  dstart x <= r < bsize x -> used x r = true -> (forall bn', 0 <= bn' < MAXFILE -> fb x bn' ≠ r) -> 0 < dstart x ->
  file_ok x'.
Proof.
  intros [] Hdv Hsz Hs Hi Hus Hfb Hr Hur Hnew Hd. split; try congruence.
  - intros bn' Hb. rewrite Hfb, Hs. intros Hne. destruct (fi_data0 bn' Hb Hne). split; [done|]. apply Hus; [lia|done].
  - rewrite Hi, Hs. intros Hne. split_and!; [lia|lia|apply Hus; [lia|done]|]. intros bn' Hb. rewrite Hfb. by apply Hnew.
  - intros b1 b2 Hb1 Hb2. rewrite !Hfb. by apply fi_inj0.
  - intros b Hb. rewrite Hsz, Hfb. apply fi_gap0. done.
Qed.

Lemma alloc_file x r :
  blocks_ok lst x -> file_ok x -> dstart x <= r < bsize x -> used x r = false ->
  file_ok (alloc_block r x) ∧ (forall bn, fb (alloc_block r x) bn = fb x bn) ∧ (forall bn, 0 <= bn < MAXFILE -> fb x bn ≠ r) ∧
  r ≠ ind x ∧ used (alloc_block r x) r = true ∧ tcont (alloc_block r x) r = zero_block ∧ 0 < dstart x.
Proof.
  intros Hx Hf Hr Hu. pose proof (layout_pos lst _ (bo_layout _ _ Hx)) as Hpos. destruct (alloc_kept x r Hx Hr Hu).
  assert (Hind : ind x ≠ 0 -> r ≠ ind x ∧ tcont (alloc_block r x) (ind x) = tcont x (ind x)).
  { intros Hi. destruct (fi_ind _ Hf Hi) as (H1 & H2 & _). assert (r ≠ ind x) by congruence. split; [done|].
    unfold alloc_block, mark_block, write_block. simpl. pose proof (BBLOCK_range lst _ r (bo_layout _ _ Hx) ltac:(lia)).
    by rewrite !upd_ne by lia. }
  split_and!.
  - eapply file_same; [exact Hf|done|done|intros Hi; by apply Hind|done|lia].
  - intros bn. apply fb_same; [done|]. intros Hi. by apply Hind.
  - intros bn Hb E. destruct (decide (fb x bn = 0)); [lia|]. destruct (fi_data _ Hf bn Hb); congruence.
  - destruct (decide (ind x = 0)); [lia|]. by apply Hind.
  - rewrite (used_alloc lst) by (done || lia). by rewrite Z.eqb_refl.
  - unfold alloc_block, write_block. simpl. by rewrite upd_eq.
  - lia.
Qed.

(** [x'] is [x] with block [r] for the [bn]th kilobyte: the block it had, or a new
    one, filled with zeros. *)
Record mapped (f l : nat) (bn r : Z) x x' : Prop := {
  mp_kept : kept f l x x';
  mp_file : file_ok x';
  mp_blocks : blocks_ok lst x';
  mp_fb : forall bn', 0 <= bn' < MAXFILE -> fb x' bn' = if bn' =? bn then r else fb x bn';
  mp_old : fb x bn ≠ 0 -> r = fb x bn;
  mp_new : fb x bn = 0 -> tcont x' r = zero_block ∧ used x r = false;
  mp_range : dstart x <= r < bsize x
}.

Lemma mapped_same bn x : file_ok x -> blocks_ok lst x -> 0 <= bn < MAXFILE -> fb x bn ≠ 0 -> mapped 0 0 bn (fb x bn) x x.
Proof.
  intros Hf Hx Hb Hne. destruct (fi_data _ Hf bn Hb Hne). split; try done; [apply kept_refl|].
  intros bn' _. by destruct (Z.eqb_spec bn' bn) as [->|].
Qed.

Lemma blocks_link i r x : blocks_ok lst x -> blocks_ok lst (link_addr i r x).
Proof. intros []. by split. Qed.

Lemma mapped_direct bn r x :
  file_ok x -> blocks_ok lst x -> 0 <= bn < NDIRECT -> dstart x <= r < bsize x -> used x r = false -> fb x bn = 0 ->
  mapped 1 2 bn r x (link_addr bn r (alloc_block r x)).
Proof.
  intros Hf Hx Hb Hr Hu H0. destruct (alloc_file x r Hx Hf Hr Hu) as (Hf' & Hfb & Hnew & Hri & Hus & Hz & Hd).
  assert (HNM : NDIRECT < MAXFILE) by done.
  assert (Hall : forall bn', 0 <= bn' < MAXFILE -> fb (link_addr bn r (alloc_block r x)) bn' = if bn' =? bn then r else fb x bn').
  { intros bn' Hb'. rewrite fb_link, Hfb by lia. done. }
  split; try done.
  - apply link_kept; [done|done|done|lia].
  - eapply (file_add bn r (alloc_block r x)); try done.
    + by rewrite node_link.
    + by rewrite node_link.
    + rewrite ind_link. by assert ((bn =? NDIRECT) = false) as -> by lia.
    + intros bn' Hb'. rewrite Hfb. by apply Hall.
    + intros bn' Hb'. rewrite Hfb. by apply Hnew.
  - by apply blocks_link, blocks_alloc.
Qed.

Lemma new_ind r x :
  file_ok x -> blocks_ok lst x -> dstart x <= r < bsize x -> used x r = false -> ind x = 0 ->
  let x' := link_addr NDIRECT r (alloc_block r x) in
  kept 1 2 x x' ∧ file_ok x' ∧ blocks_ok lst x' ∧ (forall bn, fb x' bn = fb x bn) ∧ ind x' = r ∧ r ≠ 0.
Proof.
  intros Hf Hx Hr Hu H0 x'. destruct (alloc_file x r Hx Hf Hr Hu) as (Hf' & Hfb & Hnew & Hri & Hus & Hz & Hd).
  assert (Hall : forall bn, fb x' bn = fb (alloc_block r x) bn) by (intros bn; by apply fb_link_ind).
  split_and!.
  - by apply link_kept.
  - eapply (file_ind r (alloc_block r x)); try done.
    + unfold x'. by rewrite node_link.
    + unfold x'. by rewrite node_link.
    + unfold x'. by rewrite ind_link.
    + intros bn' Hb'. rewrite Hfb. by apply Hnew.
  - by apply blocks_link, blocks_alloc.
  - intros bn. by rewrite Hall.
  - unfold x'. by rewrite ind_link.
  - lia.
Qed.

Lemma mapped_entry bn r x :
  file_ok x -> blocks_ok lst x -> NDIRECT <= bn < MAXFILE -> dstart x <= r < bsize x -> used x r = false -> fb x bn = 0 -> ind x ≠ 0 ->
  mapped 1 3 bn r x (link_entry bn r (alloc_block r x)).
Proof.
  intros Hf Hx Hb Hr Hu H0 Hi. destruct (alloc_file x r Hx Hf Hr Hu) as (Hf' & Hfb & Hnew & Hri & Hus & Hz & Hd).
  destruct (fi_ind _ Hf Hi) as (H1 & H2 & _). pose proof (blocks_alloc lst x r Hx Hr) as Hx'.
  pose proof (lay_size _ _ (bo_layout _ _ Hx)) as Hsz. assert (HND : 0 <= NDIRECT) by done.
  assert (Hall : forall bn', 0 <= bn' < MAXFILE -> fb (link_entry bn r (alloc_block r x)) bn' = if bn' =? bn then r else fb x bn').
  { intros bn' Hb'. rewrite fb_entry, Hfb by (done || lia). done. }
  pose proof (entry_kept bn r (alloc_block r x) Hx' Hi H1) as Hk.
  split; try done.
  - apply (kept_trans 1 2 0 1 x (alloc_block r x)); [by apply alloc_kept|done|intros _; change (0 <= ind x < bsize x); lia|lia].
  - eapply (file_add bn r (alloc_block r x)); try done.
    + apply Hk.
    + intros bn' Hb'. rewrite Hfb. by apply Hall.
    + intros bn' Hb'. rewrite Hfb. by apply Hnew.
  - apply blocks_write; [done| |right; change (dstart x <= ind x); lia]. rewrite length_put32. apply Hx'.
  - intros _. split; [|done]. rewrite (k_cont _ _ _ _ Hk); done.
Qed.

Lemma mapped_trans bn r f l f' l' x x1 x2 :
  kept f l x x1 -> (forall bn, fb x1 bn = fb x bn) -> mapped f' l' bn r x1 x2 -> 0 <= dstart x ->
  mapped (f + f') (l + l') bn r x x2.
Proof.
  intros Hk Hfb Hm Hd. pose proof (k_sb _ _ _ _ Hk) as Hs. pose proof (mp_range _ _ _ _ _ _ Hm) as Hr. rewrite Hs in Hr.
  split; try apply Hm; try done.
  - eapply kept_trans; [done|apply Hm| |done]. intros Hi. destruct (fi_ind _ (mp_file _ _ _ _ _ _ Hm) Hi) as (H1 & _).
    rewrite (k_sb _ _ _ _ (mp_kept _ _ _ _ _ _ Hm)), Hs in H1. lia.
  - intros bn' Hb. rewrite (mp_fb _ _ _ _ _ _ Hm) by done. by rewrite Hfb.
  - rewrite <- Hfb. apply Hm.
  - rewrite <- Hfb. intros H0. destruct (mp_new _ _ _ _ _ _ Hm H0) as [H1 H2]. split; [done|].
    destruct (used x r) eqn:Hu; [|done]. rewrite (k_used _ _ _ _ Hk) in H2; [done|lia|done].
Qed.

Lemma kept_mono f l f' l' x x' : (f <= f')%nat -> (l <= l')%nat -> kept f l x x' -> kept f' l' x x'.
Proof. intros H1 H2 []. split; try done; lia. Qed.
Lemma mapped_mono f l f' l' bn r x x' : (f <= f')%nat -> (l <= l')%nat -> mapped f l bn r x x' -> mapped f' l' bn r x x'.
Proof. intros H1 H2 []. split; try done. by apply (kept_mono f l). Qed.
Lemma kept_room f l x x' n h : kept f l x x' -> room lsz x n h -> room lsz x' (n - Z.of_nat l) h.
Proof. intros Hk [H1 H2]. pose proof (k_log _ _ _ _ Hk). split; rewrite ?(k_held _ _ _ _ Hk); lia. Qed.
Lemma kept_idle f l x x' : kept f l x x' -> idle x -> idle x'.
Proof. intros Hk [H1 H2]. split; [by rewrite (k_held _ _ _ _ Hk)|by rewrite (k_dirty _ _ _ _ Hk)]. Qed.
Lemma room_less x n h n' h' : n' <= n -> h' <= h -> room lsz x n h -> room lsz x n' h'.
Proof. intros Hn Hh [H1 H2]. split; lia. Qed.

Lemma tok_set_addr i a x (Q : unit -> txn U -> Prop) : Q tt (link_addr i a x) -> tok (set_addr ip i a) x Q.
Proof using Hip. apply tok_set_dip. Qed.

(** Allocating a block and entering it in the inode. *)
Lemma tok_new_addr i x Q :
  blocks_ok lst x -> held_ok x -> room lsz x 2 1 -> (1 <= nfree x)%nat -> i_dev (node x) = ROOTDEV ->
  (forall r, dstart x <= r < bsize x -> used x r = false -> Q r (link_addr i r (alloc_block r x))) ->
  tok (addr ← balloc (i_dev (node x)); set_addr ip i addr;; mret addr) x Q.
Proof using Hip Hlsz.
  intros Hx Hh Hr Hn -> HQ. apply tok_bind, tok_balloc; [done|done|done|done|by apply nfree_exists|].
  intros r Hrr Hu _. apply tok_bind, tok_set_addr, tok_ret. by apply HQ.
Qed.

Lemma tok_bmap_direct bn x Q :
  file_ok x -> blocks_ok lst x -> idle x -> room lsz x 2 1 -> (1 <= nfree x)%nat -> 0 <= bn < NDIRECT ->
  (forall r x', mapped 1 2 bn r x x' -> Q r x') -> tok (bmap ip bn) x Q.
Proof using Hip Hlsz.
  intros Hf Hx Hid Hr Hn Hb HQ. unfold bmap. assert ((bn <? NDIRECT) = true) as -> by lia.
  assert (Efb : addrs (dip (node x)) bn = fb x bn).
  { unfold fb, fblk. by assert ((bn <? NDIRECT) = true) as -> by lia. }
  apply tok_inode. rewrite Efb. destruct (Z.eqb_spec (fb x bn) 0) as [E|E].
  - apply tok_new_addr; [done|by apply idle_held|done|done|apply Hf|]. intros r Hrr Hu. apply HQ. by apply mapped_direct.
  - apply tok_ret, HQ. apply (mapped_mono 0 0); [lia|lia|]. apply mapped_same; try done. assert (NDIRECT < MAXFILE) by done. lia.
Qed.

(** The part of [bmap] that looks up an entry of the indirect block. *)
Definition bmap_entry (dev addr bn : Z) : M (fs (ftop U)) Z :=
  bp ← bread dev addr;
  d ← buf_data bp;
  if get32 d (4 * (bn - NDIRECT)) =? 0 then
    addr ← balloc dev;
    d ← buf_data bp;
    set_data bp (put32 d (4 * (bn - NDIRECT)) addr);;
    log_write bp;;
    brelse bp;;
    mret addr
  else
    brelse bp;;
    mret (get32 d (4 * (bn - NDIRECT))).

Lemma tok_bmap_entry bn x Q :
  file_ok x -> blocks_ok lst x -> idle x -> room lsz x 3 2 -> (1 <= nfree x)%nat -> NDIRECT <= bn < MAXFILE -> ind x ≠ 0 ->
  (forall r x', mapped 1 3 bn r x x' -> Q r x') -> tok (bmap_entry ROOTDEV (ind x) bn) x Q.
Proof using Hip Hlsz.
  intros Hf Hx Hid Hr Hn Hb Hi HQ. destruct (fi_ind _ Hf Hi) as (H1 & H2 & _). assert (HND : 0 <= NDIRECT) by done.
  assert (Hcr : can_read x (ind x)) by (eapply (idle_read x _ 3); [done|by eapply room_less, Hr|lia]).
  assert (Efb : get32 (tcont x (ind x)) (4 * (bn - NDIRECT)) = fb x bn).
  { unfold fb, fblk. assert ((bn <? NDIRECT) = false) as -> by lia. by assert ((ind x =? 0) = false) as -> by lia. }
  apply tok_read; [done|]. intros i. rewrite Efb. destruct (Z.eqb_spec (fb x bn) 0) as [E|E].
  - assert (Hx' : blocks_ok lst (hold (ind x) i x)) by (destruct Hx; by split).
    destruct Hid as [Hh Hdy]. assert (Hsz : base.size (theld (hold (ind x) i x)) = 1%nat).
    { unfold hold. simpl. by rewrite Hh, insert_empty, map_size_singleton. }
    apply tok_bind, tok_balloc; [done|done| | |by apply nfree_exists|].
    + split.
      * intros b [v Hv]. unfold hold in Hv. simpl in Hv. rewrite Hh, insert_empty, lookup_singleton_Some in Hv.
        destruct Hv as [<- _]. split; [exact (proj1 H1)|exact H2].
      * intros b. simpl. rewrite Hdy. by intros ?%elem_of_empty.
    + destruct Hr as [Hr1 Hr2]. rewrite Hh, map_size_empty in Hr2. split; rewrite ?Hsz; simpl; lia.
    + intros r Hrr Hu _. pose proof (alloc_kept x r Hx Hrr Hu) as Hk.
      apply tok_bind, (tok_data p lst lsz D W i (ind x)); [simpl; by rewrite lookup_insert_eq|].
      change (alloc_block r (hold (ind x) i x)) with (hold (ind x) i (alloc_block r x)). apply tok_replace; [done| |].
      * eapply (idle_write _ _ 1); [by eapply kept_idle|eapply room_less, (kept_room _ _ _ _ _ _ Hk Hr); lia|lia|].
        apply (layout_loggable lst _ _ (bo_layout _ _ Hx)). pose proof (layout_pos lst _ (bo_layout _ _ Hx)).
        pose proof (lay_inodes _ _ (bo_layout _ _ Hx)) as [? ?]. assert (0 <= ninodes (sb (tup x)) / IPB) by (apply Z.div_pos; done). lia.
      * apply tok_ret, HQ. by apply mapped_entry.
  - apply tok_release; [done|]. apply tok_ret, HQ. apply (mapped_mono 0 0); [lia|lia|]. apply mapped_same; [done|done|lia|done].
Qed.

(** [bmap] returns the block of the file, a new one if it had none. *)
Lemma tok_bmap bn x Q :
  file_ok x -> blocks_ok lst x -> idle x -> room lsz x 5 2 -> (2 <= nfree x)%nat -> 0 <= bn < MAXFILE ->
  (forall r x', mapped 2 5 bn r x x' -> Q r x') -> tok (bmap ip bn) x Q.
Proof using Hip Hlsz.
  intros Hf Hx Hid Hr Hn Hb HQ. destruct (Z.ltb_spec bn NDIRECT) as [Hlt|Hge].
  { apply tok_bmap_direct; try done; [eapply room_less, Hr; lia|lia|lia|]. intros r x' Hm. apply HQ. by eapply mapped_mono, Hm; lia. }
  unfold bmap. assert ((bn <? NDIRECT) = false) as -> by lia.
  assert ((bn - NDIRECT <? NINDIRECT) = true) as -> by (unfold MAXFILE in *; lia).
  pose proof (fi_dev _ Hf) as Hdev. apply tok_inode, tok_bind. rewrite Hdev.
  pose proof (layout_pos lst _ (bo_layout _ _ Hx)) as Hpos.
  destruct (Z.eqb_spec (ind x) 0) as [E|E].
  - rewrite <- Hdev at 1. apply tok_new_addr; [done|by apply idle_held|eapply room_less, Hr; lia|lia|done|].
    intros r Hrr Hu. destruct (new_ind r x Hf Hx Hrr Hu E) as (Hk & Hf1 & Hx1 & Hfb & Hi & H0).
    set (x1 := link_addr NDIRECT r (alloc_block r x)) in *. change (tok (bmap_entry ROOTDEV r bn) x1 Q). rewrite <- Hi.
    pose proof (k_free _ _ _ _ Hk). apply tok_bmap_entry; try done; [exact (kept_room _ _ _ _ _ _ Hk Hr)|lia|lia|congruence|].
    intros r' x' Hm. apply HQ. apply (mapped_trans bn r' 1 2 1 3 x x1); [done|done|done|lia].
  - apply tok_ret. change (tok (bmap_entry ROOTDEV (ind x) bn) x Q).
    apply tok_bmap_entry; try done; [eapply room_less, Hr; lia|lia|lia|]. intros r x' Hm. apply HQ. by eapply mapped_mono, Hm; lia.
Qed.
End file.
