(* ===== verification/FsData.v ===== *)
(** * FsData: reading and writing files

    A file as the sequence of its bytes: [readi] delivers a part of it, [writei]
    replaces a part and extends the file, [iupdate] stores the inode.  Everything is
    inside a transaction, on an inode that is locked and valid. *)

From stdpp Require Import gmap.
From S2P Require Import Prelude Bytes SleepLock Bio BioRep Log LogRep LogProps Txn.
From S2P Require Import Fs FsBlock FsFile.

(** * inodes on disk

    Encoding and decoding of [struct dinode] in its block, and [iupdate]: the
    in-memory inode is stored, the other inodes of the block are kept. *)

(** ** The encoding *)
Lemma get_put16 bs off v : 0 <= off -> off + 2 <= Z.of_nat (length bs) -> get16 (put16 bs off v) off = v mod 2 ^ 16.
Proof. intros H0 Hlen. unfold get16, put16. rewrite get_put_le by lia. done. Qed.
Lemma i16_mod v : - 2 ^ 15 <= v < 2 ^ 15 -> i16 (v mod 2 ^ 16) = v.
Proof. intros Hv. unfold i16. rewrite Z.add_mod_idemp_l, Z.mod_small by lia. lia. Qed.

(** The fields fit their types; two inodes with the same fields. *)
Record dinode_ok (n : dinode) : Prop := {
  do_type : - 2 ^ 15 <= type n < 2 ^ 15;
  do_major : - 2 ^ 15 <= major n < 2 ^ 15;
  do_minor : - 2 ^ 15 <= minor n < 2 ^ 15;
  do_nlink : - 2 ^ 15 <= nlink n < 2 ^ 15;
  do_size : 0 <= isize n < 2 ^ 32;
  do_addrs : forall i, 0 <= i <= NDIRECT -> 0 <= addrs n i < 2 ^ 32
}.
Definition same_dinode (n n' : dinode) : Prop :=
  type n = type n' ∧ major n = major n' ∧ minor n = minor n' ∧ nlink n = nlink n' ∧ isize n = isize n' ∧
  forall i, 0 <= i <= NDIRECT -> addrs n i = addrs n' i.

#[local] Abbreviation put_list d o a l := (foldl (fun d i => put32 d (o + 4 * i) (a i)) d l).

Lemma length_put_list o a l d : length (put_list d o a l) = length d.
Proof. revert d. induction l as [|i l IH]; intros d; simpl; [done|]. by rewrite IH, length_put32. Qed.
Lemma byte_put_list_ne o a l d j :
  (forall i, i ∈ l -> j < o + 4 * i ∨ o + 4 * i + 4 <= j) -> byte_at (put_list d o a l) j = byte_at d j.
Proof.
  revert d. induction l as [|i l IH]; intros d Hj; simpl; [done|]. rewrite IH by (intros; apply Hj; by right).
  apply byte_put_le_ne. specialize (Hj i). rewrite elem_of_cons in Hj. lia.
Qed.
Lemma get_put_list_ne m o a l d off :
  (forall i, i ∈ l -> off + Z.of_nat m <= o + 4 * i ∨ o + 4 * i + 4 <= off) -> get_le m (put_list d o a l) off = get_le m d off.
Proof. intros Hj. apply get_le_ext. intros j Hjj. apply byte_put_list_ne. intros i Hi. specialize (Hj i Hi). lia. Qed.
Lemma get_put_list o a l d i :
  NoDup l -> i ∈ l -> (forall i, i ∈ l -> 0 <= o + 4 * i ∧ o + 4 * i + 4 <= Z.of_nat (length d)) ->
  get32 (put_list d o a l) (o + 4 * i) = u32 (a i).
Proof.
  revert d. induction l as [|i' l IH]; intros d Hnd Hi Hb; simpl; [by apply elem_of_nil in Hi|].
  apply NoDup_cons in Hnd as [Hni Hnd]. apply elem_of_cons in Hi as [->|Hi].
  - unfold get32. rewrite get_put_list_ne.
    + apply get_put32; apply (Hb i'); by left.
    + intros i Hi. assert (i ≠ i') by (by intros ->). lia.
  - apply IH; [done|done|]. intros i0 Hi0. rewrite length_put32. apply Hb. by right.
Qed.

Lemma length_put_dinode d o n : length (put_dinode d o n) = length d.
Proof. unfold put_dinode, put_addrs. rewrite length_put_list, length_put32. unfold put16. by rewrite !length_put_le. Qed.
(** The bytes of other inodes are kept. *)
Lemma byte_put_dinode_ne d o n j : j < o ∨ o + sizeof_dinode <= j -> byte_at (put_dinode d o n) j = byte_at d j.
Proof.
  unfold sizeof_dinode. intros Hj. unfold put_dinode, put_addrs. rewrite byte_put_list_ne.
  - unfold put32, put16. by rewrite !byte_put_le_ne by lia.
  - intros i Hi%elem_of_seqZ. unfold NDIRECT in *. lia.
Qed.
Lemma get_dinode_ext d d' o :
  (forall j, o <= j < o + sizeof_dinode -> byte_at d j = byte_at d' j) -> same_dinode (get_dinode d o) (get_dinode d' o).
Proof.
  unfold sizeof_dinode. intros Hj. unfold same_dinode, get_dinode, get_short, get16, get32. cbn [type major minor nlink isize addrs].
  split_and!; try (f_equal; apply get_le_ext; intros; apply Hj; lia); [apply get_le_ext; intros; apply Hj; lia|].
  intros i Hi. apply get_le_ext. intros j Hjj. apply Hj. unfold NDIRECT in *. lia.
Qed.

Lemma get_put_dinode d o n :
  dinode_ok n -> 0 <= o -> o + sizeof_dinode <= Z.of_nat (length d) -> same_dinode (get_dinode (put_dinode d o n) o) n.
Proof.
  unfold sizeof_dinode. intros [] Ho Hl.
  assert (Hout : forall m off, off + Z.of_nat m <= o + 12 -> get_le m (put_dinode d o n) off =
    get_le m (put32 (put16 (put16 (put16 (put16 d o (type n)) (o + 2) (major n)) (o + 4) (minor n)) (o + 6) (nlink n)) (o + 8) (isize n)) off).
  { intros m off Hoff. apply get_put_list_ne. intros i Hi%elem_of_seqZ. lia. }
  unfold same_dinode, get_dinode, get_short, get16. cbn [type major minor nlink isize addrs].
  split_and!; try (rewrite Hout by lia; unfold put32, put16; rewrite ?get_put_le_ne by lia; rewrite get_put_le by (rewrite ?length_put_le; lia);
    by apply i16_mod).
  - unfold get32. rewrite Hout by lia. fold (get32 (put32 (put16 (put16 (put16 (put16 d o (type n)) (o + 2) (major n)) (o + 4) (minor n)) (o + 6) (nlink n)) (o + 8) (isize n)) (o + 8)).
    rewrite get_put32 by (unfold put16; rewrite ?length_put_le; lia). by apply Z.mod_small.
  - intros i Hi. unfold put_dinode, put_addrs. rewrite get_put_list; [by apply Z.mod_small, do_addrs0|apply NoDup_seqZ| |].
    + apply elem_of_seqZ. lia.
    + intros j Hj%elem_of_seqZ. unfold put32, put16. rewrite !length_put_le. unfold NDIRECT in *. lia.
Qed.

(** ** iupdate *)
Section update.
Context {X : Type} `{!Copy X}.
Context (p lst lsz : Z) (Hlsz : lsz <= LOGSIZE) (D : Z -> list Z) (W : list (Z * list Z)).
Abbreviation U := (ist X).
Abbreviation tok := (Txn.tok (U := U) p lst lsz D W).
Implicit Types (x : txn U).
Context (ip : Z) (Hip : inode_ok ip = true).
Abbreviation node := (FsFile.node ip).

(** Where the inode is on the disk, and the state with the inode stored there. *)
Definition iblock x : Z := IBLOCK (inum (node x)) (sb (tup x)).
Definition ioff x : Z := dinode_off (inum (node x)).
Definition store_inode x : txn U := write_block (iblock x) (put_dinode (tcont x (iblock x)) (ioff x) (dip (node x))) x.
Definition inum_ok x : Prop := 0 <= inum (node x) < ninodes (sb (tup x)).

Lemma iblock_range x : blocks_ok lst x -> inum_ok x -> inodestart (sb (tup x)) <= iblock x < bmapstart (sb (tup x)).
Proof.
  intros Hx Hn. destruct (lay_inodes _ _ (bo_layout _ _ Hx)) as [_ H]. unfold iblock, IBLOCK, inum_ok in *.
  assert (0 <= inum (node x) / IPB) by (apply Z.div_pos; done || lia).
  assert (inum (node x) / IPB <= ninodes (sb (tup x)) / IPB) by (apply Z.div_le_mono; done || lia). lia.
Qed.
Lemma ioff_range x : 0 <= ioff x ∧ ioff x + sizeof_dinode <= BSIZE.
Proof.
  unfold ioff, dinode_off. pose proof (Z.mod_pos_bound (inum (node x)) IPB ltac:(done)). change IPB with 16 in *. unfold sizeof_dinode, BSIZE in *. lia.
Qed.

Lemma tok_iupdate x (Q : unit -> txn U -> Prop) :
  blocks_ok lst x -> inum_ok x -> idle x -> room lsz x 1 1 -> i_dev (node x) = ROOTDEV -> Q tt (store_inode x) -> tok (iupdate ip) x Q.
Proof using Hip Hlsz.
  intros Hx Hn Hid Hr Hd HQ. unfold iupdate. apply tok_inode; [done|]. apply tok_sb. rewrite Hd.
  pose proof (iblock_range x Hx Hn) as Hb. pose proof (layout_pos lst _ (bo_layout _ _ Hx)). pose proof (lay_size _ _ (bo_layout _ _ Hx)).
  assert (Hcw : can_write lst lsz x (iblock x)).
  { eapply (idle_write _ _ _ _ 1); [done|done|lia|]. apply (layout_loggable lst _ _ (bo_layout _ _ Hx)). lia. }
  apply tok_read; [apply Hcw|]. intros i. apply tok_replace_end; [done|done|]. exact HQ.
Qed.

(** The inode is on the disk, the other inodes of the block are as they were. *)
Lemma stored x : blocks_ok lst x -> dinode_ok (dip (node x)) ->
  same_dinode (get_dinode (tcont (store_inode x) (iblock x)) (ioff x)) (dip (node x)) ∧
  forall j, j < ioff x ∨ ioff x + sizeof_dinode <= j -> byte_at (tcont (store_inode x) (iblock x)) j = byte_at (tcont x (iblock x)) j.
Proof.
  intros Hx Hn. unfold store_inode, write_block. simpl. rewrite upd_eq. pose proof (ioff_range x). split.
  - apply get_put_dinode; [done|lia|]. rewrite (bo_len _ _ Hx). unfold BSIZE in *. lia.
  - intros j Hj. by apply byte_put_dinode_ne.
Qed.
Lemma store_blocks x : blocks_ok lst x -> inum_ok x -> blocks_ok lst (store_inode x).
Proof.
  intros Hx Hn. apply blocks_write; [done|rewrite length_put_dinode; apply Hx|left]. apply iblock_range; done.
Qed.
Lemma store_file x : blocks_ok lst x -> inum_ok x -> file_ok ip x -> file_ok ip (store_inode x).
Proof.
  intros Hx Hn Hf. pose proof (iblock_range x Hx Hn). pose proof (layout_pos lst _ (bo_layout _ _ Hx)).
  eapply file_same; [exact Hf|done|done| | |lia].
  - intros Hi. destruct (fi_ind _ _ Hf Hi) as ([H1 _] & _). unfold store_inode, write_block. simpl. by rewrite upd_ne by lia.
  - intros b Hb Hu. unfold store_inode. rewrite (used_data lst); [done|done|left; lia|done].
Qed.
End update.

(** ** Bytes of a block *)
Lemma slice_bytes d o m :
  0 <= o -> 0 <= m -> o + m <= Z.of_nat (length d) -> slice o m d = byte_at d <$> seqZ o m.
Proof.
  intros Ho Hm Hl. apply list_eq. intros i. unfold slice. rewrite list_lookup_fmap.
  destruct (decide (i < Z.to_nat m)%nat) as [Hi|Hi].
  - rewrite lookup_take_lt, lookup_drop, lookup_seqZ_lt by lia. simpl. unfold byte_at.
    assert ((0 <=? o + Z.of_nat i) = true) as -> by lia. replace (Z.to_nat (o + Z.of_nat i)) with (Z.to_nat o + i)%nat by lia.
    destruct (lookup_lt_is_Some_2 d (Z.to_nat o + i)) as [v ->]; [lia|done].
  - rewrite lookup_take_ge, lookup_seqZ_ge by lia. done.
Qed.

Lemma byte_splice d o bs i :
  0 <= o -> o + Z.of_nat (length bs) <= Z.of_nat (length d) -> 0 <= i ->
  byte_at (splice o bs d) i = if (o <=? i) && (i <? o + Z.of_nat (length bs)) then byte_at bs (i - o) else byte_at d i.
Proof.
  intros Ho Hl Hi. unfold byte_at, splice. assert ((0 <=? i) = true) as -> by lia.
  destruct (Z.leb_spec o i); simpl.
  - rewrite lookup_app_r; rewrite length_take_le by lia; [|lia]. assert ((0 <=? i - o) = true) as -> by lia.
    replace (Z.to_nat i - Z.to_nat o)%nat with (Z.to_nat (i - o)) by lia. destruct (Z.ltb_spec i (o + Z.of_nat (length bs))).
    + by rewrite lookup_app_l by lia.
    + rewrite lookup_app_r, lookup_drop by lia. do 2 f_equal. lia.
  - rewrite lookup_app_l; [|rewrite length_take_le by lia; lia]. by rewrite lookup_take_lt by lia.
Qed.
Lemma length_splice d o bs : 0 <= o -> o + Z.of_nat (length bs) <= Z.of_nat (length d) -> length (splice o bs d) = length d.
Proof. intros Ho Hl. unfold splice. rewrite !length_app, length_take_le, length_drop by lia. lia. Qed.
Lemma length_slice d o m : 0 <= o -> 0 <= m -> o + m <= Z.of_nat (length d) -> length (slice o m d) = Z.to_nat m.
Proof. intros Ho Hm Hl. unfold slice. rewrite length_take_le; [done|]. rewrite length_drop. lia. Qed.
Lemma byte_slice d o m i : 0 <= o -> 0 <= i < m -> byte_at (slice o m d) i = byte_at d (o + i).
Proof.
  intros Ho Hi. unfold byte_at, slice. assert ((0 <=? i) = true) as -> by lia. assert ((0 <=? o + i) = true) as -> by lia.
  rewrite lookup_take_lt, lookup_drop by lia. do 2 f_equal. lia.
Qed.

(** Delivering [bs2] behind [bs1] is delivering [bs1 ++ bs2]. *)
Lemma splice_app a (bs1 bs2 d : list Z) :
  0 <= a <= Z.of_nat (length d) -> splice (a + Z.of_nat (length bs1)) bs2 (splice a bs1 d) = splice a (bs1 ++ bs2) d.
Proof.
  intros Ha. unfold splice. replace (Z.to_nat (a + Z.of_nat (length bs1))) with (Z.to_nat a + length bs1)%nat by lia.
  assert (Hl : length (take (Z.to_nat a) d) = Z.to_nat a) by (rewrite length_take; lia).
  rewrite take_app_ge, Hl by lia. rewrite Nat.add_sub_swap, Nat.sub_diag, Nat.add_0_l by lia.
  rewrite take_app_length, <- !app_assoc, length_app. do 3 f_equal.
  rewrite drop_app_ge, Hl by lia. rewrite drop_app_ge by lia. rewrite drop_drop. f_equal. lia.
Qed.

(** The chunk of an iteration: the part of the range in the block of its first byte. *)
Definition chunk (tot off n : Z) : Z := Z.min (n - tot) (BSIZE - off mod BSIZE).
Lemma chunk_bounds tot off n : tot < n -> 0 < chunk tot off n <= n - tot ∧ off mod BSIZE + chunk tot off n <= BSIZE.
Proof. intros Ht. unfold chunk. pose proof (Z.mod_pos_bound off BSIZE ltac:(done)). lia. Qed.
Lemma chunk_block off m o : 0 <= off -> off mod BSIZE + m <= BSIZE -> off <= o < off + m ->
  o / BSIZE = off / BSIZE ∧ o mod BSIZE = off mod BSIZE + (o - off).
Proof. intros Ho Hm Hb. unfold BSIZE in *. Z.div_mod_to_equations. lia. Qed.

Section data.
Context {X : Type} `{!Copy X}.
Context (p lst lsz : Z) (Hlsz : lsz <= LOGSIZE) (D : Z -> list Z) (W : list (Z * list Z)).
Abbreviation U := (ist X).
Abbreviation tok := (Txn.tok (U := U) p lst lsz D W).
Implicit Types (x : txn U) (u : U).
Context (ip : Z) (Hip : inode_ok ip = true).
Abbreviation node := (FsFile.node ip).
Abbreviation fb := (FsFile.fb ip).
Abbreviation file_ok := (FsFile.file_ok ip).
Abbreviation ind x := (addrs (dip (node x)) NDIRECT).
Abbreviation bsize x := (sb_size (sb (tup x))).
Abbreviation dstart x := (datastart (sb (tup x))).
Abbreviation fsize x := (isize (dip (node x))).

(** Byte [o] of the file, and [n] bytes from [o] on. *)
Definition fbyte x (o : Z) : Z := if fb x (o / BSIZE) =? 0 then 0 else byte_at (tcont x (fb x (o / BSIZE))) (o mod BSIZE).
Definition fbytes x (o n : Z) : list Z := fbyte x <$> seqZ o n.

(** ** Where the bytes go to and come from *)
Definition sink (dst : place) (tot : Z) (bs : list Z) u : Z * U :=
  match dst with
  | Address user a => let (r, e) := either_copyout user (u64 (a + tot)) bs (ext u) in (r, u <| ext := e |>)
  | Local => (0, u <| local ::= splice tot bs |>)
  end.
Definition source (src : place) (tot m : Z) u : Z * list Z :=
  match src with
  | Address user a => either_copyin user (u64 (a + tot)) m (ext u)
  | Local => (0, slice tot m (local u))
  end.

Lemma tok_copy_to dst tot bs x (Q : Z -> txn U -> Prop) :
  Q (sink dst tot bs (tup x)).1 (x <| tup := (sink dst tot bs (tup x)).2 |>) -> tok (copy_to dst tot bs) x Q.
Proof.
  intros HQ. destruct dst as [user a|]; simpl in *.
  - intros t v Ht c Hc. pose proof (r_up _ _ _ _ _ _ _ _ Ht) as Hu. simpl. rewrite Hu.
    destruct (either_copyout user (u64 (a + tot)) bs (ext (tup x))) as [r e]. simpl in HQ.
    eexists _, _, _, _. split; [reflexivity|]. split; [exact Hc|]. eexists. split; [|exact HQ].
    pose proof (trep_up p lst lsz D W _ _ _ (fun u => u <| ext := e |>) Ht) as Ht'. exact Ht'.
  - apply tok_bind, (tok_modify p lst lsz D W), tok_ret. exact HQ.
Qed.
Lemma tok_copy_from src tot m x (Q : Z * list Z -> txn U -> Prop) :
  Q (source src tot m (tup x)) x -> tok (copy_from src tot m) x Q.
Proof. intros HQ. destruct src as [user a|]; by apply (tok_gets p lst lsz D W). Qed.

(** [dst] takes up to [n] bytes: [f bs] is the state after [bs] has been delivered. *)
Record accepts (dst : place) (n : Z) (f : list Z -> U) : Prop := {
  ac_step : forall bs1 bs2, Z.of_nat (length (bs1 ++ bs2)) <= n ->
    sink dst (Z.of_nat (length bs1)) bs2 (f bs1) = (0, f (bs1 ++ bs2));
  ac_inodes : forall bs, inodes (f bs) = inodes (f []);
  ac_sb : forall bs, sb (f bs) = sb (f [])
}.
Lemma accepts_local n u : accepts Local n (fun bs => u <| local ::= splice 0 bs |>).
Proof.
  split; try done. intros bs1 bs2 _. simpl. f_equal. unfold setter. simpl. pose proof (splice_app 0 bs1 bs2 (local u)) as E. rewrite Z.add_0_l in E. rewrite E by lia. done.
Qed.
(** [src] holds the bytes [bs]. *)
Definition supplies (src : place) (bs : list Z) u : Prop :=
  forall tot m, 0 <= tot -> 0 < m -> tot + m <= Z.of_nat (length bs) -> source src tot m u = (0, slice tot m bs).

(** ** Reading *)

(** [bmap] of a block the file has. *)
Lemma tok_bmap_old bn x Q :
  file_ok x -> 0 <= bn < MAXFILE -> fb x bn ≠ 0 -> (forall b, can_read x b) -> Q (fb x bn) x -> tok (bmap ip bn) x Q.
Proof using Hip.
  intros Hf Hb Hne Hcr HQ. unfold bmap. destruct (Z.ltb_spec bn NDIRECT) as [Hlt|Hge].
  - assert (Efb : addrs (dip (node x)) bn = fb x bn).
    { unfold FsFile.fb, fblk. by assert ((bn <? NDIRECT) = true) as -> by lia. }
    apply tok_inode; [done|]. rewrite Efb. assert ((fb x bn =? 0) = false) as -> by lia. by apply tok_ret.
  - assert ((bn - NDIRECT <? NINDIRECT) = true) as -> by (unfold MAXFILE in *; lia).
    assert (Efb : ind x ≠ 0 ∧ get32 (tcont x (ind x)) (4 * (bn - NDIRECT)) = fb x bn).
    { revert Hne. unfold FsFile.fb, fblk. assert ((bn <? NDIRECT) = false) as -> by lia.
      by destruct (Z.eqb_spec (ind x) 0). }
    destruct Efb as [Hi Efb]. apply tok_inode; [done|]. rewrite (fi_dev _ _ Hf). apply tok_bind.
    assert ((ind x =? 0) = false) as -> by lia. apply tok_ret, tok_read; [done|]. intros i. rewrite Efb.
    assert ((fb x bn =? 0) = false) as -> by lia. apply tok_release; [done|]. by apply tok_ret.
Qed.

Lemma fbytes_app x o m n : 0 <= m <= n -> fbytes x o n = fbytes x o m ++ fbytes x (o + m) (n - m).
Proof.
  intros Hm. unfold fbytes. rewrite <- fmap_app. f_equal. rewrite <- seqZ_app by lia. f_equal. lia.
Qed.
Lemma length_fbytes x o n : length (fbytes x o n) = Z.to_nat n.
Proof. unfold fbytes. by rewrite length_fmap, length_seqZ. Qed.

Lemma read_chunk x off m :
  blocks_ok lst x -> 0 <= off -> 0 <= m -> off mod BSIZE + m <= BSIZE -> fb x (off / BSIZE) ≠ 0 ->
  slice (off mod BSIZE) m (tcont x (fb x (off / BSIZE))) = fbytes x off m.
Proof.
  intros Hx Ho Hm Hc Hne. pose proof (Z.mod_pos_bound off BSIZE ltac:(done)).
  rewrite slice_bytes; [|lia|lia|rewrite (bo_len _ _ Hx); unfold BSIZE in *; lia].
  unfold fbytes. apply list_eq. intros i. rewrite !list_lookup_fmap. destruct (decide (i < Z.to_nat m)%nat) as [Hi|Hi].
  - rewrite !lookup_seqZ_lt by lia. simpl. f_equal. unfold fbyte.
    destruct (chunk_block off m (off + Z.of_nat i)) as [-> ->]; [lia|lia|lia|].
    assert ((fb x (off / BSIZE) =? 0) = false) as -> by lia. f_equal. lia.
  - by rewrite !lookup_seqZ_ge by lia.
Qed.

Section reading.
Context (x0 : txn U) (dst : place) (n off : Z) (f : list Z -> U).
Context (Hf : file_ok x0) (Hx : blocks_ok lst x0) (Hcr : forall b, can_read x0 b).
Context (Hup : tup x0 = f []) (Hac : accepts dst n f) (Hoff : 0 <= off) (Hn : 0 <= n) (Hsz : off + n <= fsize x0).

(** The state after [bs] has been delivered. *)
Definition after (bs : list Z) : txn U := x0 <| tup := f bs |>.
Lemma node_after bs : node (after bs) = node x0.
Proof using Hac Hup. unfold FsFile.node, after. simpl. by rewrite (ac_inodes _ _ _ Hac), Hup. Qed.
Lemma fb_after bs bn : fb (after bs) bn = fb x0 bn.
Proof using Hac Hup. unfold FsFile.fb. by rewrite node_after. Qed.
Lemma sb_after bs : sb (tup (after bs)) = sb (tup x0).
Proof using Hac Hup. unfold after. simpl. by rewrite (ac_sb _ _ _ Hac), Hup. Qed.
Lemma file_after bs : file_ok (after bs).
Proof using Hac Hup Hf Hx.
  pose proof (layout_pos lst _ (bo_layout _ _ Hx)). eapply file_same; [exact Hf|apply node_after|apply sb_after|done| |lia].
  intros b Hb Hu. unfold used. by rewrite sb_after.
Qed.

Lemma tok_readi_loop Q : Q n (after (fbytes x0 off n)) -> forall k tot, 0 <= tot <= n -> n - tot < Z.of_nat k ->
  tok (readi_loop k ip dst tot (off + tot) n) (after (fbytes x0 off tot)) Q.
Proof using Hip Hf Hx Hcr Hup Hac Hoff Hn Hsz.
  intros HQ k. induction k as [|k IH]; [lia|]. intros tot Ht Hk. simpl. destruct (Z.ltb_spec tot n) as [Hlt|Hge]; simpl.
  2:{ replace tot with n by lia. by apply tok_ret. }
  set (bs := fbytes x0 off tot). pose proof (fi_size _ _ Hf) as Hs. set (o := off + tot).
  assert (Ho : 0 <= o / BSIZE < MAXFILE) by (unfold o, BSIZE in *; Z.div_mod_to_equations; lia).
  assert (Hne : fb x0 (o / BSIZE) ≠ 0) by (apply (fi_gap _ _ Hf); unfold o, BSIZE in *; Z.div_mod_to_equations; lia).
  assert (Hcr' : forall b, can_read (after bs) b) by (intros b; destruct (Hcr b); by split).
  apply tok_inode; [done|]. apply tok_bind, tok_bmap_old; [apply file_after|done|by rewrite fb_after|done|].
  rewrite node_after, fb_after, (fi_dev _ _ Hf). apply tok_read; [done|]. intros i. fold (chunk tot o n).
  destruct (chunk_bounds tot o n Hlt) as [Hm Hmb]. set (m := chunk tot o n) in *. unfold after at 1. simpl tcont.
  rewrite read_chunk by (done || (unfold o; lia)).
  assert (Hbs : Z.of_nat (length bs) = tot) by (unfold bs; rewrite length_fbytes; lia).
  assert (Hall : fbytes x0 off (tot + m) = bs ++ fbytes x0 o m).
  { unfold bs, o. rewrite (fbytes_app x0 off tot (tot + m)) by lia. f_equal. f_equal. lia. }
  apply tok_bind, tok_copy_to. change (tup (hold (fb x0 (o / BSIZE)) i (after bs))) with (f bs).
  pose proof (ac_step _ _ _ Hac bs (fbytes x0 o m)) as Hst. rewrite Hbs, <- Hall, length_fbytes in Hst. rewrite Hst by lia. simpl.
  refine (tok_release p lst lsz D W (fb x0 (o / BSIZE)) i (after (fbytes x0 off (tot + m))) _ Q _ _).
  { by destruct (Hcr (fb x0 (o / BSIZE))). }
  unfold o. rewrite <- Z.add_assoc. apply IH; lia.
Qed.

(** [readi] delivers the bytes of the file, up to its end. *)
Lemma tok_readi n' Q :
  0 <= n' -> off + n' < 2 ^ 32 -> n = (if fsize x0 <? off + n' then fsize x0 - off else n') ->
  Q n (after (fbytes x0 off n)) -> tok (readi ip dst off n') x0 Q.
Proof using Hip Hf Hx Hcr Hup Hac Hoff Hn Hsz.
  intros Hn' Hw En HQ. assert (Hz : x0 = after (fbytes x0 off 0)).
  { unfold after, fbytes. simpl. rewrite <- Hup. by destruct x0. }
  unfold readi. apply tok_inode; [done|]. assert ((fsize x0 <? off) = false) as -> by lia. unfold u32. rewrite Z.mod_small by lia.
  assert ((off + n' <? off) = false) as -> by lia. simpl. rewrite <- En.
  pose proof (tok_readi_loop Q HQ (S (Z.to_nat n)) 0 ltac:(lia) ltac:(lia)) as Hl. rewrite Z.add_0_r, <- Hz in Hl. exact Hl.
Qed.
End reading.
End data.
