(* ===== verification/FsWrite.v ===== *)
(** * FsWrite: writing files

    The loop of [writei], and [iupdate]: the file becomes the old one with the bytes
    written in place, the on-disk inode is the in-memory one, and nothing else that
    is in use changes. *)

From stdpp Require Import gmap.
From S2P Require Import Prelude Bytes SleepLock Bio BioRep Log LogRep LogProps Txn Fs FsBlock FsFile FsData.

Lemma file_block o : 0 <= o < MAXFILE * BSIZE -> 0 <= o / BSIZE < MAXFILE.
Proof. intros Ho. unfold BSIZE in *. Z.div_mod_to_equations. lia. Qed.

(** The number of blocks a range touches. *)
Definition span (o n : Z) : Z := if n <=? 0 then 0 else (o mod BSIZE + n + BSIZE - 1) / BSIZE.
Lemma span_pos o n : 0 < n -> 1 <= span o n.
Proof.
  intros Hn. unfold span. assert ((n <=? 0) = false) as -> by lia. pose proof (Z.mod_pos_bound o BSIZE ltac:(done)).
  apply Z.div_le_lower_bound; unfold BSIZE in *; lia.
Qed.
Lemma span_nonneg o n : 0 <= span o n.
Proof. destruct (decide (0 < n)); [pose proof (span_pos o n); lia|]. unfold span. by assert ((n <=? 0) = true) as -> by lia. Qed.
Lemma span_chunk off tot n : tot < n ->
  let m := chunk tot (off + tot) n in span (off + (tot + m)) (n - (tot + m)) + 1 <= span (off + tot) (n - tot).
Proof.
  intros Ht m. destruct (chunk_bounds tot (off + tot) n Ht) as [Hm _]. fold m in Hm.
  destruct (decide (m = n - tot)) as [E|E].
  - pose proof (span_pos (off + tot) (n - tot) ltac:(lia)). unfold span at 1. by assert ((n - (tot + m) <=? 0) = true) as -> by lia.
  - unfold m, chunk in *. set (o := off + tot) in *. destruct (Z.min_spec (n - tot) (BSIZE - o mod BSIZE)) as [[_ Em]|[_ Em]]; [lia|].
    rewrite Em in *. replace (off + (tot + (BSIZE - o mod BSIZE))) with ((o / BSIZE + 1) * BSIZE) by (unfold o, BSIZE; Z.div_mod_to_equations; lia).
    unfold span. rewrite Z.mod_mul by done. assert ((n - tot <=? 0) = false) as -> by lia.
    assert ((n - (tot + (BSIZE - o mod BSIZE)) <=? 0) = false) as -> by lia.
    replace (o mod BSIZE + (n - tot) + BSIZE - 1) with (0 + (n - (tot + (BSIZE - o mod BSIZE))) + BSIZE - 1 + 1 * BSIZE) by lia.
    rewrite Z.div_add by done. lia.
Qed.

Section write.
Context {X : Type} `{!Copy X}.
Context (p lst lsz : Z) (Hlsz : lsz <= LOGSIZE) (D : Z -> list Z) (W : list (Z * list Z)).
Abbreviation U := (ist X).
Abbreviation tok := (Txn.tok (U := U) p lst lsz D W).
Implicit Types (x : txn U) (u : U).
Context (ip : Z) (Hip : inode_ok ip = true).
Abbreviation node := (FsFile.node ip).
Abbreviation fb := (FsFile.fb ip).
Abbreviation file_ok := (FsFile.file_ok ip).
Abbreviation mapped := (FsFile.mapped lst ip).
Abbreviation fbyte := (FsData.fbyte ip).
Abbreviation ind x := (addrs (dip (node x)) NDIRECT).
Abbreviation bsize x := (sb_size (sb (tup x))).
Abbreviation dstart x := (datastart (sb (tup x))).
Abbreviation fsize x := (isize (dip (node x))).

(** Blocks added to the file hold zeros, which is what a missing block reads as. *)
Lemma mapped_bytes f l bn r x x1 o :
  mapped f l bn r x x1 -> file_ok x -> 0 <= bn < MAXFILE -> 0 <= o < MAXFILE * BSIZE -> 0 < dstart x -> fbyte x1 o = fbyte x o.
Proof.
  intros Hm Hf Hb Ho Hd. pose proof (file_block o Ho) as Hbo. unfold FsData.fbyte. rewrite (mp_fb _ _ _ _ _ _ _ _ Hm) by done.
  assert (Hold : fb x (o / BSIZE) ≠ 0 -> tcont x1 (fb x (o / BSIZE)) = tcont x (fb x (o / BSIZE))).
  { intros Hne. destruct (fi_data _ _ Hf _ Hbo Hne) as [H1 H2]. apply (k_cont _ _ _ _ _ (mp_kept _ _ _ _ _ _ _ _ Hm)); [done|done|].
    destruct (decide (ind x = 0)) as [->|Hi]; [done|]. by apply (fi_ind _ _ Hf Hi). }
  pose proof (mp_range _ _ _ _ _ _ _ _ Hm). destruct (Z.eqb_spec (o / BSIZE) bn) as [E|E].
  - rewrite <- E in Hm. destruct (Z.eqb_spec (fb x (o / BSIZE)) 0) as [E0|E0].
    + destruct (mp_new _ _ _ _ _ _ _ _ Hm E0) as [-> _]. assert ((r =? 0) = false) as -> by lia.
      unfold byte_at, zero_block. destruct (0 <=? o mod BSIZE); [|done].
      destruct (replicate _ _ !! _) eqn:Hl; [|done]. by apply lookup_replicate_1 in Hl as [-> _].
    + rewrite (mp_old _ _ _ _ _ _ _ _ Hm E0), Hold by done. by assert ((fb x (o / BSIZE) =? 0) = false) as -> by lia.
  - destruct (Z.eqb_spec (fb x (o / BSIZE)) 0) as [|E0]; [done|]. by rewrite Hold.
Qed.

(** Replacing a block of the file. *)
Lemma fb_data x bn d bn' : file_ok x -> 0 <= bn < MAXFILE -> fb x bn ≠ 0 -> fb (write_block (fb x bn) d x) bn' = fb x bn'.
Proof.
  intros Hf Hb Hne. apply fb_same; [done|]. intros Hi. unfold write_block. simpl. rewrite upd_ne; [done|].
  intros E. destruct (fi_ind _ _ Hf Hi) as (_ & _ & H). by destruct (H bn Hb).
Qed.
Lemma data_bytes x bn d o :
  file_ok x -> 0 <= bn < MAXFILE -> fb x bn ≠ 0 -> 0 <= o < MAXFILE * BSIZE ->
  fbyte (write_block (fb x bn) d x) o = if o / BSIZE =? bn then byte_at d (o mod BSIZE) else fbyte x o.
Proof.
  intros Hf Hb Hne Ho. pose proof (file_block o Ho) as Hbo. unfold FsData.fbyte. rewrite fb_data by done.
  unfold write_block. simpl. destruct (Z.eqb_spec (o / BSIZE) bn) as [->|E].
  - by assert ((fb x bn =? 0) = false) as -> by lia; rewrite upd_eq.
  - destruct (Z.eqb_spec (fb x (o / BSIZE)) 0); [done|]. rewrite upd_ne; [done|]. intros E'.
    apply E. by apply (fi_inj _ _ Hf).
Qed.

Section loop.
Context (x0 : txn U) (bs : list Z) (off : Z).
Context (Hoff : 0 <= off) (Hmax : off + Z.of_nat (length bs) <= MAXFILE * BSIZE).

(** The first [tot] bytes of [bs] are written, at the cost of [f] free blocks and [l]
    log entries at most.  Blocks in use that are not of this file are as they were. *)
Record wprog (f l : nat) (tot : Z) x : Prop := {
  wp_file : file_ok x;
  wp_blocks : blocks_ok lst x;
  wp_held : theld x = theld x0;
  wp_dirty : tdirty x = tdirty x0;
  wp_sb : sb (tup x) = sb (tup x0);
  wp_inodes : forall j, j ≠ ip -> inodes (tup x) j = inodes (tup x0) j;
  wp_node : node x = (node x0) <| dip := dip (node x) |>;
  wp_dip : dip (node x) = (dip (node x0)) <| addrs := addrs (dip (node x)) |>;
  wp_local : local (tup x) = local (tup x0);
  wp_ext : ext (tup x) = ext (tup x0);
  wp_meta : forall b, b < bmapstart (sb (tup x0)) -> tcont x b = tcont x0 b;
  wp_used : forall b, 0 <= b < bsize x0 -> used x0 b = true -> used x b = true;
  wp_cont : forall b, dstart x0 <= b < bsize x0 -> used x0 b = true -> b ≠ ind x0 ->
    (forall bn, 0 <= bn < MAXFILE -> fb x0 bn ≠ b) -> tcont x b = tcont x0 b;
  wp_fb : forall bn, 0 <= bn < MAXFILE -> fb x0 bn ≠ 0 -> fb x bn = fb x0 bn;
  wp_fb_new : forall bn, 0 <= bn < MAXFILE -> fb x0 bn = 0 -> fb x bn ≠ 0 -> used x0 (fb x bn) = false;
  wp_ind : ind x0 ≠ 0 -> ind x = ind x0;
  wp_ind_new : ind x0 = 0 -> ind x ≠ 0 -> used x0 (ind x) = false;
  wp_byte : forall o, 0 <= o < MAXFILE * BSIZE ->
    fbyte x o = if (off <=? o) && (o <? off + tot) then byte_at bs (o - off) else fbyte x0 o;
  wp_alloc : forall o, off <= o < off + tot -> fb x (o / BSIZE) ≠ 0;
  wp_free : (nfree x0 <= f + nfree x)%nat;
  wp_log : (length (tlog x) <= l + length (tlog x0))%nat
}.

Lemma wprog_refl : file_ok x0 -> blocks_ok lst x0 -> wprog 0 0 0 x0.
Proof.
  intros Hf Hx. split; try done; [by destruct (node x0)|by destruct (dip (node x0))| |lia].
  intros o Ho. by assert ((off <=? o) && (o <? off + 0) = false) as -> by lia.
Qed.

Lemma not_used_before f l tot x b : wprog f l tot x -> 0 <= b < bsize x0 -> used x b = false -> used x0 b = false.
Proof. intros Hw Hb Hu. destruct (used x0 b) eqn:E; [|done]. by rewrite (wp_used _ _ _ _ Hw) in Hu. Qed.

Lemma wprog_mapped f l f' l' tot bn r x x1 :
  wprog f l tot x -> mapped f' l' bn r x x1 -> 0 <= bn < MAXFILE -> tot <= Z.of_nat (length bs) -> wprog (f + f') (l + l') tot x1.
Proof.
  intros Hw Hm Hb Htot. pose proof (mp_kept _ _ _ _ _ _ _ _ Hm) as Hk. pose proof (wp_file _ _ _ _ Hw) as Hf.
  pose proof (layout_pos lst _ (bo_layout _ _ (wp_blocks _ _ _ _ Hw))) as Hpos.
  pose proof (wp_sb _ _ _ _ Hw) as Hs. pose proof (k_sb _ _ _ _ _ Hk) as Hs1.
  pose proof (mp_range _ _ _ _ _ _ _ _ Hm) as Hr. pose proof (mp_file _ _ _ _ _ _ _ _ Hm) as Hf1.
  assert (Hfb : forall bn', 0 <= bn' < MAXFILE -> fb x bn' ≠ 0 -> fb x1 bn' = fb x bn').
  { intros bn' Hb' Hne. rewrite (mp_fb _ _ _ _ _ _ _ _ Hm) by done. destruct (Z.eqb_spec bn' bn) as [->|]; [|done].
    by apply (mp_old _ _ _ _ _ _ _ _ Hm). }
  split; try (destruct Hk, Hw; congruence); try apply Hm.
  - intros j Hj. rewrite (k_inodes _ _ _ _ _ Hk), (wp_inodes _ _ _ _ Hw); done.
  - rewrite (k_node _ _ _ _ _ Hk), (wp_node _ _ _ _ Hw). by destruct (node x0), (node x), (node x1).
  - rewrite (k_dip _ _ _ _ _ Hk), (wp_dip _ _ _ _ Hw). by destruct (dip (node x0)), (dip (node x)), (dip (node x1)).
  - intros b Hbb. rewrite (k_meta _ _ _ _ _ Hk), (wp_meta _ _ _ _ Hw); [done|done|by rewrite Hs].
  - intros b Hbb Hu. apply (k_used _ _ _ _ _ Hk); [by rewrite Hs|]. by apply (wp_used _ _ _ _ Hw).
  - intros b Hbb Hu Hi Hn. rewrite <- (wp_cont _ _ _ _ Hw) by done. rewrite <- Hs in Hbb.
    apply (k_cont _ _ _ _ _ Hk); [done|apply (wp_used _ _ _ _ Hw); [rewrite <- Hs; lia|done]|].
    destruct (decide (ind x0 = 0)) as [E0|E0]; [|by rewrite (wp_ind _ _ _ _ Hw)].
    destruct (decide (ind x = 0)) as [->|E1]; [lia|]. intros ->. by rewrite (wp_ind_new _ _ _ _ Hw) in Hu.
  - intros bn' Hb' Hne. pose proof (wp_fb _ _ _ _ Hw bn' Hb' Hne) as E. rewrite <- E in Hne. by rewrite Hfb.
  - intros bn' Hb' E0 Hne. destruct (decide (fb x bn' = 0)) as [E|E]; [|rewrite Hfb in * by done; by apply (wp_fb_new _ _ _ _ Hw)].
    rewrite (mp_fb _ _ _ _ _ _ _ _ Hm) in * by done. destruct (Z.eqb_spec bn' bn) as [->|]; [|done].
    destruct (mp_new _ _ _ _ _ _ _ _ Hm E) as [_ Hu]. eapply not_used_before; [done|rewrite <- Hs; lia|done].
  - intros Hne. rewrite (k_ind _ _ _ _ _ Hk), (wp_ind _ _ _ _ Hw); [done|done|]. by rewrite (wp_ind _ _ _ _ Hw).
  - intros E0 Hne. destruct (decide (ind x = 0)) as [E|E].
    + eapply not_used_before; [done| |by apply (k_ind_new _ _ _ _ _ Hk)].
      destruct (fi_ind _ _ Hf1 Hne) as ([H1 H2] & _). rewrite Hs1, Hs in H1, H2. rewrite Hs in Hpos. lia.
    + rewrite (k_ind _ _ _ _ _ Hk) in * by done. by apply (wp_ind_new _ _ _ _ Hw).
  - intros o Ho. rewrite <- (wp_byte _ _ _ _ Hw) by done. eapply mapped_bytes; [exact Hm|done|done|done|lia].
  - intros o Ho. rewrite Hfb; [by apply (wp_alloc _ _ _ _ Hw)|apply file_block; lia|by apply (wp_alloc _ _ _ _ Hw)].
  - pose proof (k_free _ _ _ _ _ Hk). pose proof (wp_free _ _ _ _ Hw). lia.
  - pose proof (k_log _ _ _ _ _ Hk). pose proof (wp_log _ _ _ _ Hw). lia.
Qed.

Lemma wprog_data f l tot m x :
  let bn := (off + tot) / BSIZE in let o := (off + tot) mod BSIZE in
  wprog f l tot x -> 0 <= tot -> 0 < m -> tot + m <= Z.of_nat (length bs) -> o + m <= BSIZE -> fb x bn ≠ 0 ->
  wprog f (l + 1) (tot + m) (write_block (fb x bn) (splice o (slice tot m bs) (tcont x (fb x bn))) x).
Proof.
  intros bn o Hw Ht Hm Hl Hmb Hne. pose proof (wp_file _ _ _ _ Hw) as Hf. pose proof (wp_blocks _ _ _ _ Hw) as Hx.
  assert (Hb : 0 <= bn < MAXFILE) by (apply file_block; lia).
  destruct (fi_data _ _ Hf bn Hb Hne) as [Hr Hu]. pose proof (layout_pos lst _ (bo_layout _ _ Hx)) as Hpos.
  set (d := splice o (slice tot m bs) (tcont x (fb x bn))). pose proof (Z.mod_pos_bound (off + tot) BSIZE ltac:(done)).
  assert (Hls : length (slice tot m bs) = Z.to_nat m) by (apply length_slice; lia).
  assert (Hfit : o + Z.of_nat (length (slice tot m bs)) <= Z.of_nat (length (tcont x (fb x bn)))).
  { rewrite Hls, (bo_len _ _ Hx). unfold BSIZE in *. lia. }
  assert (Hld : length d = Z.to_nat BSIZE) by (unfold d; rewrite length_splice, (bo_len _ _ Hx); done || lia).
  split; try (destruct Hw; done || congruence).
  - eapply file_same; [exact Hf|done|done| | |lia].
    + intros Hi. unfold write_block. simpl. rewrite upd_ne; [done|]. intros E. destruct (fi_ind _ _ Hf Hi) as (_ & _ & H0). by destruct (H0 bn Hb).
    + intros b Hbb Hub. by rewrite (used_data lst) by (done || (right; lia) || lia).
  - by apply blocks_write; [done|done|right; lia].
  - intros b Hbb. pose proof (wp_sb _ _ _ _ Hw) as Hs. unfold write_block. simpl. rewrite upd_ne; [by apply (wp_meta _ _ _ _ Hw)|]. rewrite Hs in *. lia.
  - intros b Hbb Hub. rewrite (used_data lst); [by apply (wp_used _ _ _ _ Hw)|done|right; lia|by rewrite (wp_sb _ _ _ _ Hw)].
  - intros b Hbb Hub Hi Hn. unfold write_block. simpl. rewrite upd_ne; [by apply (wp_cont _ _ _ _ Hw)|]. intros ->.
    destruct (decide (fb x0 bn = 0)) as [E|E]; [by rewrite (wp_fb_new _ _ _ _ Hw bn Hb E Hne) in Hub|].
    apply (Hn bn Hb). symmetry. by apply (wp_fb _ _ _ _ Hw).
  - intros bn' Hb' Hne'. rewrite fb_data by done. by apply (wp_fb _ _ _ _ Hw).
  - intros bn' Hb'. rewrite fb_data by done. by apply (wp_fb_new _ _ _ _ Hw).
  - intros o' Ho'. rewrite data_bytes by done. pose proof (wp_byte _ _ _ _ Hw o' Ho') as Hby.
    destruct (Z.eqb_spec (o' / BSIZE) bn) as [E|E].
    + pose proof (Z.mod_pos_bound o' BSIZE ltac:(done)). unfold d. rewrite byte_splice, Hls by lia.
      assert (Hd : o' - (off + tot) = o' mod BSIZE - o) by (unfold bn, o, BSIZE in *; Z.div_mod_to_equations; lia).
      destruct (Z.leb_spec o (o' mod BSIZE)); simpl; [destruct (Z.ltb_spec (o' mod BSIZE) (o + Z.of_nat (Z.to_nat m)))|].
      * rewrite byte_slice by lia. assert ((off <=? o') && (o' <? off + (tot + m)) = true) as -> by lia. f_equal. lia.
      * assert ((off <=? o') && (o' <? off + (tot + m)) = false) as -> by lia.
        assert ((off <=? o') && (o' <? off + tot) = false) as Hc by lia. rewrite Hc in Hby.
        rewrite <- Hby. unfold FsData.fbyte. rewrite E. by assert ((fb x bn =? 0) = false) as -> by lia.
      * assert ((off <=? o') && (o' <? off + (tot + m)) = (off <=? o') && (o' <? off + tot)) as -> by lia.
        rewrite <- Hby. unfold FsData.fbyte. rewrite E. by assert ((fb x bn =? 0) = false) as -> by lia.
    + rewrite Hby. assert (o' < off + tot ∨ off + tot + m <= o') by (unfold bn, o, BSIZE in *; Z.div_mod_to_equations; lia).
      by assert ((off <=? o') && (o' <? off + (tot + m)) = (off <=? o') && (o' <? off + tot)) as -> by lia.
  - intros o' Ho'. rewrite fb_data by done. destruct (decide (o' < off + tot)); [apply (wp_alloc _ _ _ _ Hw); lia|].
    by destruct (chunk_block (off + tot) m o') as [-> _]; [lia|lia|lia|].
  - rewrite (nfree_data lst) by (done || (right; lia)). apply Hw.
  - pose proof (wp_log _ _ _ _ Hw). unfold write_block. simpl. pose proof (record_length (fb x bn) (tlog x)). lia.
Qed.

Lemma wprog_mono f l f' l' tot x : (f <= f')%nat -> (l <= l')%nat -> wprog f l tot x -> wprog f' l' tot x.
Proof. intros H1 H2 []. split; try done; lia. Qed.

Context (src : place) (F L : nat).
Context (Hidle : idle x0) (Hroom : room lsz x0 (Z.of_nat L + 1) 2) (HF : (F <= nfree x0)%nat) (Hsrc : supplies src bs (tup x0)).
Abbreviation n := (Z.of_nat (length bs)).

Lemma wprog_supplies f l tot x : wprog f l tot x -> supplies src bs (tup x).
Proof using Hsrc.
  intros Hw t m H1 H2 H3. rewrite <- (Hsrc t m H1 H2 H3). unfold source.
  destruct src; by rewrite ?(wp_ext _ _ _ _ Hw), ?(wp_local _ _ _ _ Hw).
Qed.
Lemma wprog_room f l tot x : wprog f l tot x -> (l <= L)%nat -> room lsz x (Z.of_nat (L - l) + 1) 2.
Proof using Hroom HF.
  intros Hw Hl. pose proof (wp_log _ _ _ _ Hw). destruct Hroom as [H1 H2]. split; rewrite ?(wp_held _ _ _ _ Hw); lia.
Qed.
Lemma wprog_idle f l tot x : wprog f l tot x -> idle x.
Proof using Hidle. intros Hw. destruct Hidle as [H1 H2]. split; [by rewrite (wp_held _ _ _ _ Hw)|by rewrite (wp_dirty _ _ _ _ Hw)]. Qed.

(** Data blocks can be logged. *)
Lemma data_loggable x b : blocks_ok lst x -> dstart x <= b < bsize x -> loggable lst b.
Proof.
  intros Hx Hb. apply (layout_loggable lst _ _ (bo_layout _ _ Hx)). pose proof (layout_pos lst _ (bo_layout _ _ Hx)).
  pose proof (lay_inodes _ _ (bo_layout _ _ Hx)) as [? ?]. assert (0 <= ninodes (sb (tup x)) / IPB) by (apply Z.div_pos; done). lia.
Qed.

Lemma tok_writei_loop Q : (forall x', wprog F L n x' -> Q (n, off + n) x') ->
  forall k f l tot x, wprog f l tot x -> 0 <= tot <= n -> n - tot < Z.of_nat k ->
  Z.of_nat f + 2 * span (off + tot) (n - tot) <= Z.of_nat F -> Z.of_nat l + 6 * span (off + tot) (n - tot) <= Z.of_nat L ->
  tok (writei_loop k ip src tot (off + tot) n) x Q.
Proof using All.
  intros HQ k. induction k as [|k IH]; [lia|]. intros f l tot x Hw Ht Hk HfF HlL. pose proof (span_nonneg (off + tot) (n - tot)) as Hs0.
  simpl. destruct (Z.ltb_spec tot n) as [Hlt|Hge]; simpl.
  2:{ replace tot with n by lia. apply tok_ret, HQ. replace n with tot by lia. apply (wprog_mono f l); [lia|lia|done]. }
  pose proof (span_pos (off + tot) (n - tot) ltac:(lia)) as Hs1. pose proof (span_chunk off tot n Hlt) as Hsp. simpl in Hsp.
  destruct (chunk_bounds tot (off + tot) n Hlt) as [Hm Hmb]. fold (chunk tot (off + tot) n). set (m := chunk tot (off + tot) n) in *.
  assert (Hb : 0 <= (off + tot) / BSIZE < MAXFILE) by (apply file_block; lia).
  pose proof (wprog_room _ _ _ _ Hw ltac:(lia)) as Hrm. pose proof (wp_free _ _ _ _ Hw).
  apply tok_inode; [done|]. apply tok_bind, tok_bmap; [done|done|apply Hw|apply Hw|by eapply wprog_idle|eapply room_less, Hrm; lia|lia|done|].
  intros r x1 Hmap. rewrite (fi_dev _ _ (wp_file _ _ _ _ Hw)). pose proof (wprog_mapped _ _ _ _ _ _ _ _ _ Hw Hmap Hb ltac:(lia)) as Hw1.
  pose proof (mp_fb _ _ _ _ _ _ _ _ Hmap _ Hb) as Er. rewrite Z.eqb_refl in Er. pose proof (mp_range _ _ _ _ _ _ _ _ Hmap) as Hr.
  pose proof (layout_pos lst _ (bo_layout _ _ (wp_blocks _ _ _ _ Hw))) as Hpos. rewrite <- (k_sb _ _ _ _ _ (mp_kept _ _ _ _ _ _ _ _ Hmap)) in Hr, Hpos.
  pose proof (wprog_room _ _ _ _ Hw1 ltac:(lia)) as Hrm1. pose proof (wprog_idle _ _ _ _ Hw1) as Hid1.
  assert (Hcw : can_write lst lsz x1 r).
  { eapply (idle_write _ _ _ _ 1); [done|eapply room_less, Hrm1; lia|lia|]. apply (data_loggable x1); [apply Hw1|done]. }
  apply tok_bind, tok_bread; [apply Hcw|apply Hcw|]. intros i. apply tok_bind, tok_copy_from.
  change (tup (hold r i x1)) with (tup x1). rewrite (wprog_supplies _ _ _ _ Hw1) by lia.
  apply tok_bind, (tok_data p lst lsz D W i r); [simpl; by rewrite lookup_insert_eq|]. simpl.
  apply tok_replace; [done|done|]. rewrite <- Z.add_assoc. subst r.
  pose proof (wprog_data _ _ tot m x1 Hw1 ltac:(lia) ltac:(lia) ltac:(lia) Hmb ltac:(lia)) as Hw2.
  eapply IH; [exact Hw2|lia|lia|lia|lia].
Qed.

(** ** The whole of [writei] *)

(** What [writei] leaves behind: the file with [bs] at [off], its inode stored, and
    everything else that was in use as it was. *)
Record written x : Prop := {
  wr_file : file_ok x;
  wr_blocks : blocks_ok lst x;
  wr_idle : idle x;
  wr_sb : sb (tup x) = sb (tup x0);
  wr_inodes : forall j, j ≠ ip -> inodes (tup x) j = inodes (tup x0) j;
  wr_local : local (tup x) = local (tup x0);
  wr_ext : ext (tup x) = ext (tup x0);
  wr_node : node x = (node x0) <| dip := (dip (node x0)) <| isize := Z.max (fsize x0) (off + n) |> <| addrs := addrs (dip (node x)) |> |>;
  wr_byte : forall o, 0 <= o < MAXFILE * BSIZE ->
    fbyte x o = if (off <=? o) && (o <? off + n) then byte_at bs (o - off) else fbyte x0 o;
  wr_inode : same_dinode (get_dinode (tcont x (iblock ip x0)) (ioff ip x0)) (dip (node x));
  wr_others : forall j, j < ioff ip x0 ∨ ioff ip x0 + sizeof_dinode <= j -> byte_at (tcont x (iblock ip x0)) j = byte_at (tcont x0 (iblock ip x0)) j;
  wr_meta : forall b, b < bmapstart (sb (tup x0)) -> b ≠ iblock ip x0 -> tcont x b = tcont x0 b;
  wr_used : forall b, 0 <= b < bsize x0 -> used x0 b = true -> used x b = true;
  wr_cont : forall b, dstart x0 <= b < bsize x0 -> used x0 b = true -> b ≠ ind x0 ->
    (forall bn, 0 <= bn < MAXFILE -> fb x0 bn ≠ b) -> tcont x b = tcont x0 b;
  wr_fb : forall bn, 0 <= bn < MAXFILE -> fb x0 bn ≠ 0 -> fb x bn = fb x0 bn;
  wr_free : (nfree x0 <= F + nfree x)%nat;
  wr_log : (length (tlog x) <= L + 1 + length (tlog x0))%nat
}.

(** The size is updated. *)
Definition set_size (z : Z) x : txn U := set_dip ip ((dip (node x)) <| isize := z |>) x.
Lemma fb_size z x bn : fb (set_size z x) bn = fb x bn.
Proof. unfold FsFile.fb, fblk, set_size. by rewrite node_set_dip. Qed.

Lemma size_file x :
  wprog F L n x -> off <= fsize x0 -> file_ok (set_size (Z.max (fsize x0) (off + n)) x).
Proof.
  intros Hw Ho. pose proof (wp_file _ _ _ _ Hw) as []. assert (Hs : fsize x = fsize x0) by (by rewrite (wp_dip _ _ _ _ Hw)).
  assert (Hn : node (set_size (Z.max (fsize x0) (off + n)) x) = (node x) <| dip := (dip (node x)) <| isize := Z.max (fsize x0) (off + n) |> |>)
    by apply node_set_dip.
  split; rewrite ?Hn; simpl; try done.
  - intros bn Hb. rewrite fb_size. apply fi_data. done.
  - intros Hi. destruct (fi_ind Hi) as (H1 & H2 & H3). split_and!; try done; try lia. intros bn Hb. rewrite fb_size. by apply H3.
  - intros bn bn' Hb Hb'. rewrite !fb_size. by apply fi_inj.
  - rewrite Hs in fi_size. lia.
  - intros bn Hb Hlt. rewrite fb_size. destruct (decide (bn * BSIZE < fsize x)) as [|Hge]; [by apply fi_gap|].
    pose proof (wp_alloc _ _ _ _ Hw (bn * BSIZE)) as Ha. rewrite Z.div_mul in Ha by done. apply Ha. lia.
Qed.

Lemma file_addrs x i : file_ok x -> blocks_ok lst x -> 0 <= i <= NDIRECT -> 0 <= addrs (dip (node x)) i < 2 ^ 32.
Proof.
  intros Hf Hx Hi. pose proof (layout_pos lst _ (bo_layout _ _ Hx)). pose proof (lay_size _ _ (bo_layout _ _ Hx)).
  destruct (decide (addrs (dip (node x)) i = 0)) as [->|Hne]; [done|]. destruct (decide (i = NDIRECT)) as [->|].
  - destruct (fi_ind _ _ Hf Hne) as ([? ?] & _). lia.
  - assert (E : addrs (dip (node x)) i = fb x i). { unfold FsFile.fb, fblk. by assert ((i <? NDIRECT) = true) as -> by lia. }
    rewrite E in *. change MAXFILE with 268 in *. unfold NDIRECT in *. destruct (fi_data _ _ Hf i) as [? _]; [change MAXFILE with 268; lia|done|lia].
Qed.

(** The last step: the inode, with its new size, is stored. *)
Lemma written_store x y :
  wprog F L n x -> file_ok y -> (node y = (node x) <| dip := (dip (node x)) <| isize := Z.max (fsize x0) (off + n) |> |>) ->
  (forall j, j ≠ ip -> inodes (tup y) j = inodes (tup x) j) -> (forall bn, fb y bn = fb x bn) ->
  tcont y = tcont x -> tlog y = tlog x -> theld y = theld x -> tdirty y = tdirty x -> sb (tup y) = sb (tup x) ->
  local (tup y) = local (tup x) -> ext (tup y) = ext (tup x) ->
  inum_ok ip x0 -> dinode_ok (dip (node x0)) -> written (store_inode ip y).
Proof using Hidle HF Hmax.
  intros Hw Hf Hn Hj Hfb Hc Hl Hh Hd Hs Hlo He Hi Hdo. pose proof (wp_sb _ _ _ _ Hw) as Hsx. pose proof (wp_blocks _ _ _ _ Hw) as Hbx.
  assert (Hnum : inum (node y) = inum (node x0)) by (rewrite Hn, (wp_node _ _ _ _ Hw); done).
  assert (Hib : iblock ip y = iblock ip x0) by (unfold iblock; by rewrite Hnum, Hs, Hsx).
  assert (Hio : ioff ip y = ioff ip x0) by (unfold ioff; by rewrite Hnum).
  assert (Hy : blocks_ok lst y) by (destruct Hbx; split; unfold used in *; rewrite ?Hs, ?Hc; done).
  assert (Hiy : inum_ok ip y) by (unfold inum_ok; by rewrite Hnum, Hs, Hsx).
  pose proof (iblock_range lst ip y Hy Hiy) as Hrng. assert (Hnb : not_bitmap y (iblock ip y)) by (left; apply Hrng). rewrite Hib, Hs, Hsx in Hrng.
  assert (Hdy : dinode_ok (dip (node y))).
  { assert (HM : MAXFILE * BSIZE < 2 ^ 32) by done. pose proof (fi_size _ _ Hf). destruct Hdo. split; try (rewrite Hn; simpl; rewrite (wp_dip _ _ _ _ Hw); done).
    - lia.
    - intros i Hii. by apply file_addrs. }
  destruct (stored lst ip y Hy Hdy) as [Hst Hot]. rewrite Hib, Hio in Hst, Hot.
  assert (Hus : forall b, 0 <= b < bsize x0 -> used (store_inode ip y) b = used x b).
  { intros b Hb. unfold store_inode. rewrite (used_data lst); [unfold used; by rewrite Hc, Hs|done|done|by rewrite Hs, Hsx]. }
  assert (Hto : forall b, b ≠ iblock ip x0 -> tcont (store_inode ip y) b = tcont x b).
  { intros b Hb. unfold store_inode, write_block. simpl. rewrite upd_ne by congruence. by rewrite Hc. }
  assert (Hfbs : forall bn, fb (store_inode ip y) bn = fb x bn).
  { intros bn. rewrite <- Hfb. apply fb_same; [done|]. intros Hi0. destruct (fi_ind _ _ Hf Hi0) as ([H1 _] & _). rewrite Hto; [by rewrite Hc|].
    rewrite Hs, Hsx in H1. pose proof (layout_pos lst _ (bo_layout _ _ Hbx)). rewrite Hsx in *. lia. }
  pose proof (layout_pos lst _ (bo_layout _ _ Hbx)) as Hpos. rewrite Hsx in Hpos.
  split.
  - by apply store_file with lst.
  - by apply store_blocks.
  - destruct Hidle as [E1 E2]. split; [change (theld y = ∅)|change (tdirty y = ∅)]; rewrite ?Hh, ?Hd, ?(wp_held _ _ _ _ Hw), ?(wp_dirty _ _ _ _ Hw); done.
  - change (sb (tup y) = sb (tup x0)). congruence.
  - intros j Hne. change (inodes (tup y) j = inodes (tup x0) j). rewrite Hj by done. by apply (wp_inodes _ _ _ _ Hw).
  - change (local (tup y) = local (tup x0)). rewrite Hlo. apply Hw.
  - change (ext (tup y) = ext (tup x0)). rewrite He. apply Hw.
  - change (node (store_inode ip y)) with (node y). rewrite Hn, (wp_node _ _ _ _ Hw), (wp_dip _ _ _ _ Hw). reflexivity.
  - intros o Ho. rewrite <- (wp_byte _ _ _ _ Hw) by done. unfold FsData.fbyte. rewrite Hfbs.
    destruct (Z.eqb_spec (fb x (o / BSIZE)) 0); [done|]. rewrite Hto; [done|].
    destruct (fi_data _ _ (wp_file _ _ _ _ Hw) (o / BSIZE)) as [H1 _]; [by apply file_block|done|]. rewrite Hsx in H1. lia.
  - exact Hst.
  - intros j Hjj. rewrite Hot by done. by rewrite Hc, (wp_meta _ _ _ _ Hw) by lia.
  - intros b Hb Hne. rewrite Hto by done. by apply (wp_meta _ _ _ _ Hw).
  - intros b Hb Hu. rewrite Hus by done. by apply (wp_used _ _ _ _ Hw).
  - intros b Hb Hu Hi0 Hno. rewrite Hto by lia. by apply (wp_cont _ _ _ _ Hw).
  - intros bn Hb Hne. rewrite Hfbs. by apply (wp_fb _ _ _ _ Hw).
  - unfold store_inode. rewrite (nfree_data lst) by done.
    assert (nfree y = nfree x) as -> by (unfold nfree, used; by rewrite Hc, Hs). apply Hw.
  - pose proof (wp_log _ _ _ _ Hw). unfold store_inode, write_block. simpl. rewrite Hl. pose proof (record_length (iblock ip y) (tlog x)). lia.
Qed.

Lemma tok_writei Q :
  file_ok x0 -> blocks_ok lst x0 -> inum_ok ip x0 -> dinode_ok (dip (node x0)) -> off <= fsize x0 ->
  2 * span off n <= Z.of_nat F -> 6 * span off n <= Z.of_nat L ->
  (forall x, written x -> Q n x) -> tok (writei ip src off n) x0 Q.
Proof using All.
  intros Hf Hx Hi Hdo Ho HF2 HL6 HQ. assert (HM : MAXFILE * BSIZE < 2 ^ 32) by done.
  unfold writei. apply tok_inode; [done|]. assert ((fsize x0 <? off) = false) as -> by lia. unfold u32. rewrite Z.mod_small by lia.
  assert ((off + n <? off) = false) as -> by lia. cbn [orb]. assert ((MAXFILE * BSIZE <? off + n) = false) as -> by lia.
  apply tok_bind. pose proof (wprog_refl Hf Hx) as H0. eapply tok_mono.
  { pose proof (tok_writei_loop (fun r x => r = (n, off + n) ∧ wprog F L n x) (fun x Hw => conj eq_refl Hw) (S (Z.to_nat n)) 0 0 0 x0 H0) as Hl.
    rewrite Z.add_0_r, Z.sub_0_r in Hl. apply Hl; lia. }
  intros r x [-> Hw]. simpl fst. simpl snd. pose proof (wprog_room _ _ _ _ Hw ltac:(lia)) as Hr. pose proof (wprog_idle _ _ _ _ Hw) as Hid.
  assert (Hs : fsize x = fsize x0) by (by rewrite (wp_dip _ _ _ _ Hw)).
  assert (Hnum : inum (node x) = inum (node x0)) by (by rewrite (wp_node _ _ _ _ Hw)).
  assert (Hix : inum_ok ip x) by (unfold inum_ok; by rewrite Hnum, (wp_sb _ _ _ _ Hw)).
  apply tok_inode; [done|]. apply tok_bind, tok_when; rewrite Hs; intros Hlt.
  - apply tok_set_dip; [done|]. fold (set_size (off + n) x). replace (off + n) with (Z.max (fsize x0) (off + n)) by lia.
    set (y := set_size _ x). assert (Hny : node y = (node x) <| dip := (dip (node x)) <| isize := Z.max (fsize x0) (off + n) |> |>)
      by apply node_set_dip.
    apply tok_bind, tok_iupdate; [done|done|by destruct (wp_blocks _ _ _ _ Hw)| |done|eapply room_less, Hr; lia| |].
    + unfold inum_ok. by rewrite Hny.
    + rewrite Hny. exact (fi_dev _ _ (wp_file _ _ _ _ Hw)).
    + apply tok_ret, HQ, (written_store x); try done; [by apply size_file| |intros; apply fb_size].
      intros j Hj. unfold y, set_size, set_dip. simpl. by rewrite upd_ne.
  - apply tok_bind, tok_iupdate; [done|done|apply Hw|done|done|eapply room_less, Hr; lia|apply (fi_dev _ _ (wp_file _ _ _ _ Hw))|].
    apply tok_ret, HQ, (written_store x); try done; [apply Hw|]. replace (Z.max (fsize x0) (off + n)) with (fsize x) by lia.
    destruct (node x) as [? ? ? ? ? nn]. by destruct nn.
Qed.
End loop.
End write.
