(* ===== verification/FsProps.v ===== *)
(** * FsProps: what reading and writing a file does, also across a crash *)

From stdpp Require Import gmap.
From S2P Require Import Prelude Bytes SleepLock Bio BioRep Log LogRep LogProps Txn TxnProps Fs FsBlock FsFile FsData FsWrite.

(** ** A file as it is on a disk *)
Section disk.
Context (g : Z -> list Z) (s : superblock) (i : Z).
Definition disk_inode : dinode := get_dinode (g (IBLOCK i s)) (dinode_off i).
Definition disk_byte (o : Z) : Z :=
  let b := fblk g disk_inode (o / BSIZE) in if b =? 0 then 0 else byte_at (g b) (o mod BSIZE).
(** File [i] has size [z] and the bytes [f]. *)
Definition file_at (z : Z) (f : Z -> Z) : Prop :=
  isize disk_inode = z ∧ forall o, 0 <= o < MAXFILE * BSIZE -> disk_byte o = f o.
End disk.

Lemma fblk_same g n n' bn : same_dinode n n' -> 0 <= bn -> fblk g n bn = fblk g n' bn.
Proof.
  intros (_ & _ & _ & _ & _ & Ha) Hb. unfold fblk. rewrite (Ha NDIRECT) by (unfold NDIRECT; lia).
  destruct (Z.ltb_spec bn NDIRECT); [|done]. apply Ha. lia.
Qed.
Lemma same_dinode_trans n1 n2 n3 : same_dinode n1 n2 -> same_dinode n2 n3 -> same_dinode n1 n3.
Proof. intros (H1 & H2 & H3 & H4 & H5 & H6) (J1 & J2 & J3 & J4 & J5 & J6). split_and!; try congruence. intros i Hi. by rewrite H6, J6. Qed.

Section props.
Context {X : Type} `{!Copy X} (p lst lsz : Z) (Hlsz : lsz <= LOGSIZE).
Abbreviation U := (ist X).
Implicit Types (x : txn U) (t : ftop U).

(** A disk that agrees with a transaction on inode, bitmap and data blocks shows the
    file of the transaction, if its inode is stored. *)
Lemma disk_view ip x g :
  file_ok ip x -> blocks_ok lst x -> inum_ok ip x -> same_dinode (get_dinode (tcont x (iblock ip x)) (ioff ip x)) (dip (node ip x)) ->
  (forall b, inodestart (sb (tup x)) <= b < sb_size (sb (tup x)) -> g b = tcont x b) ->
  file_at g (sb (tup x)) (inum (node ip x)) (isize (dip (node ip x))) (fbyte ip x).
Proof.
  intros Hf Hx Hn Hs Hg. pose proof (iblock_range lst ip x Hx Hn) as Hib. pose proof (layout_pos lst _ (bo_layout _ _ Hx)) as Hpos.
  pose proof (lay_size _ _ (bo_layout _ _ Hx)) as Hsz.
  assert (Hd : same_dinode (disk_inode g (sb (tup x)) (inum (node ip x))) (dip (node ip x))).
  { unfold disk_inode. fold (iblock ip x) (ioff ip x). rewrite Hg by lia. exact Hs. }
  split; [apply Hd|]. intros o Ho. pose proof (file_block o Ho) as Hbo. unfold disk_byte, fbyte.
  assert (Hfb : fblk g (disk_inode g (sb (tup x)) (inum (node ip x))) (o / BSIZE) = fb ip x (o / BSIZE)).
  { rewrite (fblk_same _ _ _ _ Hd) by lia. unfold fb, fblk. destruct (_ <? _); [done|]. destruct (Z.eqb_spec (addrs (dip (node ip x)) NDIRECT) 0) as [|Hi]; [done|].
    destruct (fi_ind _ _ Hf Hi) as (H1 & _). by rewrite Hg by lia. }
  rewrite Hfb. destruct (Z.eqb_spec (fb ip x (o / BSIZE)) 0) as [|Hne]; [done|]. destruct (fi_data _ _ Hf _ Hbo Hne) as [H1 _]. by rewrite Hg by lia.
Qed.

(** [ip] is a file that [writei] can write [bs] to at [off]: the inode is in the table
    and as on the disk, the blocks of the file are in order, [src] supplies the bytes,
    and there are enough free blocks and log entries. *)
Record writable (ip : Z) (src : place) (off : Z) (bs : list Z) x : Prop := {
  w_ip : inode_ok ip = true;
  w_file : file_ok ip x;
  w_blocks : blocks_ok lst x;
  w_idle : idle x;
  w_inum : inum_ok ip x;
  w_dinode : dinode_ok (dip (node ip x));
  w_stored : same_dinode (get_dinode (tcont x (iblock ip x)) (ioff ip x)) (dip (node ip x));
  w_off : 0 <= off <= isize (dip (node ip x));
  w_max : off + Z.of_nat (length bs) <= MAXFILE * BSIZE;
  w_src : supplies src bs (tup x);
  w_free : 2 * span off (Z.of_nat (length bs)) <= Z.of_nat (nfree x);
  w_room : room lsz x (6 * span off (Z.of_nat (length bs)) + 1) 2
}.

(** The file after writing, and the blocks in use that are not of the file. *)
Definition new_size (z off : Z) (bs : list Z) : Z := Z.max z (off + Z.of_nat (length bs)).
Definition new_bytes (f : Z -> Z) (off : Z) (bs : list Z) (o : Z) : Z :=
  if (off <=? o) && (o <? off + Z.of_nat (length bs)) then byte_at bs (o - off) else f o.
Definition of_others (ip : Z) x (b : Z) : Prop :=
  datastart (sb (tup x)) <= b < sb_size (sb (tup x)) ∧ used x b = true ∧ b ≠ addrs (dip (node ip x)) NDIRECT ∧
  forall bn, 0 <= bn < MAXFILE -> fb ip x bn ≠ b.

(** The blocks that inode [j] refers to on the disk [g]. *)
Definition refers (g : Z -> list Z) (s : superblock) (j b : Z) : Prop :=
  b ≠ 0 ∧ (b = addrs (disk_inode g s j) NDIRECT ∨ ∃ bn, 0 <= bn < MAXFILE ∧ b = fblk g (disk_inode g s j) bn).

(** Seen from the disk [g0], the disk [g] has changed in nothing that is not of file
    [ip]: the blocks in use elsewhere, the marks in the bitmap, the other inodes, and
    with them the contents of every file that shares no block with [ip]. *)
Record untouched (ip : Z) x (g0 g : Z -> list Z) : Prop := {
  un_blocks : forall b, of_others ip x b -> g b = g0 b;
  un_used : forall b, 0 <= b < sb_size (sb (tup x)) -> used x b = true -> bit_set (g (BBLOCK b (sb (tup x)))) (b mod BPB) = true;
  un_inodes : forall j, 0 <= j < ninodes (sb (tup x)) -> j ≠ inum (node ip x) ->
    same_dinode (disk_inode g (sb (tup x)) j) (disk_inode g0 (sb (tup x)) j);
  un_files : forall j, 0 <= j < ninodes (sb (tup x)) -> j ≠ inum (node ip x) ->
    (forall b, refers g0 (sb (tup x)) j b -> of_others ip x b) ->
    forall o, 0 <= o < MAXFILE * BSIZE -> disk_byte g (sb (tup x)) j o = disk_byte g0 (sb (tup x)) j o
}.

Lemma same_file g0 g s j :
  same_dinode (disk_inode g s j) (disk_inode g0 s j) -> (forall b, refers g0 s j b -> g b = g0 b) ->
  forall o, 0 <= o < MAXFILE * BSIZE -> disk_byte g s j o = disk_byte g0 s j o.
Proof.
  intros Hd Hr o Ho. pose proof (file_block o Ho) as Hbo. unfold disk_byte.
  assert (E : fblk g (disk_inode g s j) (o / BSIZE) = fblk g0 (disk_inode g0 s j) (o / BSIZE)).
  { rewrite (fblk_same _ _ _ _ Hd) by lia. unfold fblk. destruct (_ <? _); [done|].
    destruct (Z.eqb_spec (addrs (disk_inode g0 s j) NDIRECT) 0) as [|Hi]; [done|]. rewrite (Hr (addrs (disk_inode g0 s j) NDIRECT)); [done|].
    split; [done|by left]. }
  rewrite E. destruct (Z.eqb_spec (fblk g0 (disk_inode g0 s j) (o / BSIZE)) 0) as [|Hne]; [done|]. rewrite Hr; [done|].
  split; [done|]. right. by exists (o / BSIZE).
Qed.

Lemma untouched_intro ip x g0 g :
  (forall b, of_others ip x b -> g b = g0 b) ->
  (forall b, 0 <= b < sb_size (sb (tup x)) -> used x b = true -> bit_set (g (BBLOCK b (sb (tup x)))) (b mod BPB) = true) ->
  (forall j, 0 <= j < ninodes (sb (tup x)) -> j ≠ inum (node ip x) ->
    same_dinode (disk_inode g (sb (tup x)) j) (disk_inode g0 (sb (tup x)) j)) -> untouched ip x g0 g.
Proof. intros H1 H2 H3. split; [done|done|done|]. intros j Hj Hne Hr. apply same_file; auto. Qed.

Lemma inode_block_range x j : blocks_ok lst x -> 0 <= j < ninodes (sb (tup x)) ->
  inodestart (sb (tup x)) <= IBLOCK j (sb (tup x)) < bmapstart (sb (tup x)).
Proof.
  intros Hx Hj. destruct (lay_inodes _ _ (bo_layout _ _ Hx)) as [_ H]. unfold IBLOCK.
  assert (0 <= j / IPB) by (apply Z.div_pos; done || lia).
  assert (j / IPB <= ninodes (sb (tup x)) / IPB) by (apply Z.div_le_mono; done || lia). lia.
Qed.

(** Inodes in the same block are apart. *)
Lemma inode_slots s i j k : i ≠ j -> IBLOCK i s = IBLOCK j s -> dinode_off j <= k < dinode_off j + sizeof_dinode ->
  k < dinode_off i ∨ dinode_off i + sizeof_dinode <= k.
Proof.
  unfold IBLOCK, dinode_off, sizeof_dinode. change IPB with 16. intros Hne Hb Hk.
  pose proof (Z.div_mod i 16 ltac:(done)). pose proof (Z.div_mod j 16 ltac:(done)). lia.
Qed.

Abbreviation z0 ip x := (isize (dip (node ip x))).

Lemma written_inodes ip x bs off F L y g g0 :
  blocks_ok lst x -> written lst ip x bs off F L y ->
  (forall b, inodestart (sb (tup x)) <= b -> g b = tcont y b) -> (forall b, g0 b = tcont x b) ->
  forall j, 0 <= j < ninodes (sb (tup x)) -> j ≠ inum (node ip x) ->
  same_dinode (disk_inode g (sb (tup x)) j) (disk_inode g0 (sb (tup x)) j).
Proof.
  intros Hx Hy Hg Hg0 j Hj Hne. pose proof (inode_block_range x j Hx Hj) as Hr. apply get_dinode_ext. intros k Hk. rewrite Hg, Hg0 by lia.
  destruct (decide (IBLOCK j (sb (tup x)) = iblock ip x)) as [E|E].
  - rewrite E. apply (wr_others _ _ _ _ _ _ _ _ Hy). apply (inode_slots (sb (tup x)) _ j); [done|by rewrite E|done].
  - by rewrite (wr_meta _ _ _ _ _ _ _ _ Hy) by (done || lia).
Qed.

Lemma layout_order x : blocks_ok lst x -> inodestart (sb (tup x)) < bmapstart (sb (tup x)) < datastart (sb (tup x)).
Proof.
  intros Hx. pose proof (layout_pos lst _ (bo_layout _ _ Hx)) as Hp. destruct (lay_inodes _ _ (bo_layout _ _ Hx)) as [H1 H2].
  assert (0 <= ninodes (sb (tup x)) / IPB) by (apply Z.div_pos; done || lia). lia.
Qed.

Lemma written_untouched ip x bs off F L y g g0 :
  blocks_ok lst x -> written lst ip x bs off F L y ->
  (forall b, inodestart (sb (tup x)) <= b -> g b = tcont y b) -> (forall b, g0 b = tcont x b) -> untouched ip x g0 g.
Proof.
  intros Hx Hy Hg Hg0. pose proof (layout_order x Hx) as Ho. apply untouched_intro.
  - intros b (H1 & H2 & H3 & H4). rewrite Hg, Hg0 by lia. by apply (wr_cont _ _ _ _ _ _ _ _ Hy).
  - intros b Hb Hu. pose proof (BBLOCK_range lst _ b (bo_layout _ _ Hx) Hb). rewrite Hg by lia.
    pose proof (wr_used _ _ _ _ _ _ _ _ Hy b Hb Hu) as Hu'. unfold used in Hu'. by rewrite (wr_sb _ _ _ _ _ _ _ _ Hy) in Hu'.
  - by apply (written_inodes ip x bs off F L y).
Qed.

Lemma kept_untouched ip x g g0 :
  blocks_ok lst x -> (forall b, inodestart (sb (tup x)) <= b -> g b = g0 b) -> (forall b, g0 b = tcont x b) -> untouched ip x g0 g.
Proof.
  intros Hx Hg Hg0. pose proof (layout_order x Hx) as Ho. apply untouched_intro.
  - intros b (H1 & _). apply Hg. lia.
  - intros b Hb Hu. pose proof (BBLOCK_range lst _ b (bo_layout _ _ Hx) Hb). by rewrite Hg, Hg0 by lia.
  - intros j Hj _. pose proof (inode_block_range x j Hx Hj). unfold disk_inode. by rewrite Hg by lia.
Qed.

Lemma written_view ip src off bs x F L y g :
  writable ip src off bs x -> written lst ip x bs off F L y ->
  (forall b, inodestart (sb (tup x)) <= b < sb_size (sb (tup x)) -> g b = tcont y b) ->
  file_at g (sb (tup x)) (inum (node ip x)) (new_size (z0 ip x) off bs) (new_bytes (fbyte ip x) off bs).
Proof.
  intros Hw Hy Hg. pose proof (wr_sb _ _ _ _ _ _ _ _ Hy) as Hs. pose proof (wr_node _ _ _ _ _ _ _ _ Hy) as Hn.
  assert (Hnum : inum (node ip y) = inum (node ip x)) by (by rewrite Hn).
  assert (Hib : iblock ip y = iblock ip x) by (unfold iblock; by rewrite Hnum, Hs).
  assert (Hio : ioff ip y = ioff ip x) by (unfold ioff; by rewrite Hnum).
  assert (Hsz : isize (dip (node ip y)) = new_size (z0 ip x) off bs) by (by rewrite Hn).
  pose proof (disk_view ip y g (wr_file _ _ _ _ _ _ _ _ Hy) (wr_blocks _ _ _ _ _ _ _ _ Hy)) as Hv.
  rewrite Hib, Hio, Hs, Hnum, Hsz in Hv. destruct Hv as [H1 H2].
  - unfold inum_ok. rewrite Hnum, Hs. apply Hw.
  - apply (wr_inode _ _ _ _ _ _ _ _ Hy).
  - exact Hg.
  - split; [exact H1|]. intros o Ho. rewrite H2 by done. by apply (wr_byte _ _ _ _ _ _ _ _ Hy).
Qed.

Abbreviation written_by ip off bs x y :=
  (written lst ip x bs off (Z.to_nat (2 * span off (Z.of_nat (length bs)))) (Z.to_nat (6 * span off (Z.of_nat (length bs)))) y).

Lemma tok_writei_post D W ip src off bs x :
  writable ip src off bs x ->
  tok p lst lsz D W (writei ip src off (Z.of_nat (length bs))) x (fun r y => theld y = ∅ ∧ r = Z.of_nat (length bs) ∧ written_by ip off bs x y).
Proof using Hlsz.
  intros Hw. pose proof (span_nonneg off (Z.of_nat (length bs))) as Hsp. destruct Hw.
  apply (tok_writei p lst lsz Hlsz D W ip w_ip0 x bs off (proj1 w_off0) w_max0 src
    (Z.to_nat (2 * span off (Z.of_nat (length bs)))) (Z.to_nat (6 * span off (Z.of_nat (length bs))))); try done; try lia.
  - by rewrite Z2Nat.id by lia.
  - intros y Hy. split; [apply (wr_idle _ _ _ _ _ _ _ _ Hy)|]. by split.
Qed.

(** C4: Writing a file is atomic.  [begin_op; writei; end_op] on a quiet file system
    returns the number of bytes and puts them into the file on the disk, which
    grows if they reach beyond its end; nothing else in use on the disk changes
    ([untouched]): neither another inode, in the same block or elsewhere, nor a block
    of another file, nor the mark of a block in use.  If the machine crashes after any
    number of the block writes on the way and is started again, the file on the disk
    is the old one or the new one, and everything else is as it was. *)
Theorem writei_atomic ip src off bs (q : Z) (u : U) t v c :
  brep c v -> quiet lst lsz t v -> writable ip src off bs (first_txn t v) ->
  let s := sb (up t) in let i := inum (inodes (up t) ip) in let n := Z.of_nat (length bs) in
  let z := isize (disk_inode (dsk c) s i) in let f := disk_byte (dsk c) s i in
  let others := untouched ip (first_txn t v) (dsk c) in
  ∃ c' t', (begin_op;; r ← writei ip src off n; end_op;; mret r) (FS c p t) = Ok n (FS c' p t') ∧
    file_at (dsk c') s i (new_size z off bs) (new_bytes f off bs) ∧ others (dsk c') ∧
    forall d, crash_disk c c' d -> ∃ c2 t2, reboot d lst lsz q u = Ok tt (FS c2 q t2) ∧ others (dsk c2) ∧
      (file_at (dsk c2) s i z f ∨ file_at (dsk c2) s i (new_size z off bs) (new_bytes f off bs)).
Proof using Hlsz.
  intros Hb Hq Hw s i n z f others. set (x := first_txn t v) in *.
  assert (Hcl : forall b, dsk c b = tcont x b).
  { intros b. rewrite (br_disk _ _ Hb). symmetry. apply (br_clean _ _ Hb). by rewrite (q_refs _ _ _ _ Hq), lookup_empty. }
  assert (Hold : forall g, (forall b, inodestart s <= b < sb_size s -> g b = dsk c b) -> file_at g s i (z0 ip x) (fbyte ip x)).
  { intros g Hg. apply (disk_view ip x g); try apply Hw. intros b Hbb. rewrite Hg by done. apply Hcl. }
  destruct (Hold (dsk c) (fun _ _ => eq_refl)) as [Hz Hf]. fold z in Hz. fold f in Hf. rewrite <- Hz in *.
  assert (Hhome : forall b, inodestart s <= b -> home (lg t) b).
  { intros b Hbb. right. rewrite (q_start _ _ _ _ Hq). destruct (lay_log _ _ (bo_layout _ _ (w_blocks _ _ _ _ _ Hw))). change (sb (tup x)) with s in *. lia. }
  destruct (transaction_atomic p lst lsz (begin_op;; r ← writei ip src off n; end_op;; mret r)
    (fun r y => r = n ∧ written_by ip off bs x y) q u t v c Hb Hq) as (r & c' & t' & y & Hrun & _ & [-> Hy] & _ & Hd & Hcr).
  { apply (vok_transaction p lst lsz (writei ip src off n) id); [done|]. apply tok_writei_post. exact Hw. }
  assert (Hnew : forall g, (forall b, home (lg t) b -> g b = tcont y b) ->
    file_at g s i (new_size z off bs) (new_bytes f off bs) ∧ others g).
  { intros g Hg. split.
    - destruct (written_view ip src off bs x _ _ y g Hw Hy) as [H1 H2]; [intros b Hbb; apply Hg, Hhome; apply Hbb|].
      rewrite <- Hz in H1. split; [exact H1|]. intros o Ho. rewrite H2 by done. unfold new_bytes. by rewrite Hf.
    - apply (written_untouched ip x bs off _ _ y g (dsk c) (w_blocks _ _ _ _ _ Hw) Hy); auto. }
  exists c', t'. split; [exact Hrun|]. clear Hrun. split; [apply (Hnew (dsk c') Hd)|]. split; [apply (Hnew (dsk c') Hd)|].
  intros d Hdd. destruct (Hcr d Hdd) as (c2 & t2 & Hr & Hor). exists c2, t2. split; [exact Hr|]. clear Hr. destruct Hor as [Hor|Hor].
  - split; [apply (kept_untouched ip x (dsk c2) (dsk c) (w_blocks _ _ _ _ _ Hw)); auto|].
    left. destruct (Hold (dsk c2)) as [H1 H2]; [intros b Hbb; apply Hor, Hhome; apply Hbb|].
    split; [exact H1|]. intros o Ho. by rewrite H2, Hf.
  - destruct (Hnew (dsk c2) Hor). auto.
Qed.

(** Up to [m] bytes can be delivered at address [a]: [h bs] is the memory with [bs]
    there. *)
Definition reaches (user : bool) (a m : Z) (h : list Z -> X) : Prop :=
  forall bs1 bs2, Z.of_nat (length (bs1 ++ bs2)) <= m ->
    either_copyout user (u64 (a + Z.of_nat (length bs1))) bs2 (h bs1) = (0, h (bs1 ++ bs2)).
Lemma accepts_address user a m h u : reaches user a m h -> accepts (Address user a) m (fun bs => u <| ext := h bs |>).
Proof. intros Hr. split; try done. intros bs1 bs2 Hl. simpl. by rewrite Hr. Qed.

(** C5: Reading back what was written.  After [writei] has put [bs] at [off], [readi]
    of any range delivers the bytes of the range in the new file, which are those of
    [bs] where it covers the range and the old ones elsewhere, up to the end of the
    file. *)
Theorem writei_readi ip src off bs user a o m h t v c :
  brep c v -> quiet lst lsz t v -> writable ip src off bs (first_txn t v) ->
  let n := Z.of_nat (length bs) in let x := first_txn t v in let z := new_size (isize (dip (inodes (up t) ip))) off bs in
  0 <= o <= z -> 0 <= m -> o + m < 2 ^ 32 -> h [] = ext (up t) -> reaches user a (Z.min m (z - o)) h ->
  ∃ c' t', (begin_op;; r ← (writei ip src off n;; readi ip (Address user a) o m); end_op;; mret r) (FS c p t)
      = Ok (Z.min m (z - o)) (FS c' p t') ∧
    ext (up t') = h (new_bytes (fbyte ip x) off bs <$> seqZ o (Z.min m (z - o))).
Proof using Hlsz.
  intros Hb Hq Hw n x z Ho Hm Hom Hh Hre. set (m' := Z.min m (z - o)) in *.
  destruct (transaction_atomic p lst lsz (begin_op;; r ← (writei ip src off n;; readi ip (Address user a) o m); end_op;; mret r)
    (fun r y => r = m' ∧ ext (tup y) = h (new_bytes (fbyte ip x) off bs <$> seqZ o m')) p (up t) t v c Hb Hq)
    as (r & c' & t' & y & Hrun & _ & [-> Hy] & Hup & _).
  2:{ exists c', t'. split; [exact Hrun|]. by rewrite Hup. }
  apply (vok_transaction p lst lsz (writei ip src off n;; readi ip (Address user a) o m) id); [done|].
  apply tok_bind. eapply tok_mono; [apply tok_writei_post; exact Hw|]. intros r y (_ & _ & Hy).
  assert (Hz : isize (dip (node ip y)) = z) by (by rewrite (wr_node _ _ _ _ _ _ _ _ Hy)).
  pose proof (wr_idle _ _ _ _ _ _ _ _ Hy) as Hid. pose proof (span_nonneg off n) as Hsp.
  assert (Hmax : z <= MAXFILE * BSIZE) by (rewrite <- Hz; apply (fi_size _ _ (wr_file _ _ _ _ _ _ _ _ Hy))).
  apply (tok_readi p lst lsz _ _ ip (w_ip _ _ _ _ _ Hw) y (Address user a) m' o (fun bs => (tup y) <| ext := h bs |>)); try lia.
  - apply (wr_file _ _ _ _ _ _ _ _ Hy).
  - apply (wr_blocks _ _ _ _ _ _ _ _ Hy).
  - intros b. destruct (w_room _ _ _ _ _ Hw) as [_ Hr]. pose proof (wr_log _ _ _ _ _ _ _ _ Hy). destruct Hid as [H1 H2].
    split; [by rewrite H1, lookup_empty|by rewrite H2; apply not_elem_of_empty|]. fold n in Hr, H. rewrite H1, map_size_empty. lia.
  - pose proof (wr_ext _ _ _ _ _ _ _ _ Hy) as He. change (ext (tup (first_txn t v))) with (ext (up t)) in He.
    rewrite Hh, <- He. by destruct (tup y).
  - by apply accepts_address.
  - rewrite Hz. unfold m'. destruct (Z.ltb_spec z (o + m)); lia.
  - split; [apply Hid|]. split; [done|]. unfold after. simpl. f_equal. unfold fbytes. apply list_fmap_ext.
    intros k o' Ho'%list_elem_of_lookup_2%elem_of_seqZ. apply (wr_byte _ _ _ _ _ _ _ _ Hy). lia.
Qed.
End props.

(** ** Witnesses: a small disk with one empty file *)
Module SmallFs.
(** The memory of the process is a list of bytes. *)
#[export] Instance list_copy : Copy (list Z) := {
  either_copyout := fun _ a bs m => if a + Z.of_nat (length bs) <=? Z.of_nat (length m) then (0, splice a bs m) else (-1, m);
  either_copyin := fun _ a n m => if a + n <=? Z.of_nat (length m) then (0, slice a n m) else (-1, [])
}.

Definition super : superblock := Superblock FSMAGIC 1000 954 200 30 2 32 45.
Definition bitmap : list Z := replicate 5 255 ++ [63] ++ replicate 1018 0.
Definition empty_file : dinode := Dinode T_FILE 0 0 1 0 (fun _ => 0).
Definition disk (b : Z) : list Z :=
  if b =? 45 then bitmap else if b =? 32 then put_dinode zero_block (dinode_off 2) empty_file else zero_block.
Definition memory : list Z := [104; 105; 33; 10; 0; 0; 0; 0].
Definition user : ist (list Z) := Ist false (fun _ => Inode ROOTDEV 2 1 (Sleeplock 1 false "inode" 1) 1 empty_file) super 0 [] memory.
Definition hi : list Z := [104; 105; 33; 10].

Lemma disk_len b : length (disk b) = Z.to_nat BSIZE.
Proof.
  unfold disk. destruct (b =? 45); [done|]. destruct (b =? 32); [rewrite length_put_dinode|]; apply length_zero_block.
Qed.
Lemma small_disk_wf : log_wf (disk_log (fresh_log 2 30) disk).
Proof. apply wf_load_clear; [done|]. vm_compute. done. Qed.

Lemma small_booted : ∃ c t v, brep c v ∧ quiet 2 30 t v ∧ up t = user ∧ forall b, b ≠ 2 -> vcont v b = disk b.
Proof.
  destruct (reboot_quiet 1 user disk 2 30 small_disk_wf (disk_len 2)) as (c & t & v & _ & H2 & H3 & _ & H5 & _ & H6).
  exists c, t, v. split_and!; try done. apply H6. vm_compute. done.
Qed.
Lemma used_disk t v b : up t = user -> (forall b, b ≠ 2 -> vcont v b = disk b) -> 0 <= b < 1000 -> used (first_txn t v) b = bit_set bitmap b.
Proof.
  intros Hu Hd Hb. unfold used, first_txn. simpl. rewrite Hu. unfold BBLOCK. simpl.
  change BPB with 8192. rewrite Z.div_small, Z.mod_small by lia. by rewrite Hd.
Qed.

Section small_booted.
Context (c : bcache) (t : ftop (ist (list Z))) (v : bview).
Context (Hb : brep c v) (Hq : quiet 2 30 t v) (Hu : up t = user) (Hd : forall b, b ≠ 2 -> vcont v b = disk b).
Abbreviation x := (first_txn t v).

Lemma sb_x : sb (tup x) = super.
Proof using Hu. simpl. by rewrite Hu. Qed.
Lemma node_x : node 0 x = Inode ROOTDEV 2 1 (Sleeplock 1 false "inode" 1) 1 empty_file.
Proof using Hu. unfold node. simpl. by rewrite Hu. Qed.
Lemma fb_x bn : fb 0 x bn = 0.
Proof using Hu. unfold fb, fblk. rewrite node_x. simpl. by destruct (bn <? NDIRECT). Qed.

Lemma x_blocks : blocks_ok 2 x.
Proof using Hb Hq Hu Hd.
  assert (Hm : forallb (bit_set bitmap) (seqZ 0 46) = true) by (vm_compute; reflexivity).
  split; rewrite ?sb_x.
  - split; vm_compute; repeat split; done.
  - intros b. destruct (decide (b = 2)) as [->|]; [|simpl; by rewrite Hd, disk_len]. simpl.
    rewrite (br_clean _ _ Hb) by (by rewrite (q_refs _ _ _ _ Hq), lookup_empty). apply (q_len _ _ _ _ Hq).
  - intros b Hbb. change (datastart super) with 46 in Hbb. rewrite (used_disk t v b Hu Hd) by lia.
    rewrite forallb_forall in Hm. apply Hm, list_elem_of_In, elem_of_seqZ. lia.
Qed.
Lemma x_file : file_ok 0 x.
Proof using Hu.
  split; rewrite ?node_x; simpl; try done; try (intros bn Hbn; by rewrite fb_x).
  intros bn Hbn Hlt. unfold BSIZE in Hlt. lia.
Qed.
Lemma x_free : nfree x = 954%nat.
Proof using Hu Hd.
  unfold nfree. rewrite sb_x. rewrite (filter_same _ (fun b => bit_set bitmap b = false)).
  - vm_compute. reflexivity.
  - intros b Hbb%elem_of_seqZ. rewrite (used_disk t v b Hu Hd); [done|]. simpl in Hbb. lia.
Qed.

(** Four bytes of the memory can be written to the empty file. *)
Lemma x_writable : writable 2 30 0 (Address true 0) 0 hi x.
Proof using Hb Hq Hu Hd.
  assert (Hib : iblock 0 x = 32) by (unfold iblock; by rewrite node_x, sb_x).
  assert (Hio : ioff 0 x = dinode_off 2) by (unfold ioff; by rewrite node_x).
  split; try done.
  - apply x_file.
  - apply x_blocks.
  - unfold inum_ok. by rewrite node_x, sb_x.
  - rewrite node_x. split; vm_compute; repeat split; done.
  - rewrite Hib, Hio, node_x. simpl. rewrite Hd by done. apply get_put_dinode; [|vm_compute; done|vm_compute; done].
    split; vm_compute; repeat split; done.
  - by rewrite node_x.
  - intros tot m Ht Hm Hl. change (Z.of_nat (length hi)) with 4 in Hl. unfold source, either_copyin, list_copy. 
    replace (ext (tup x)) with memory by (simpl; by rewrite Hu).
    assert (Ha : u64 (0 + tot) = tot) by (unfold u64; rewrite Z.mod_small; lia). rewrite Ha.
    assert ((tot + m <=? Z.of_nat (length memory)) = true) as -> by (change (Z.of_nat (length memory)) with 8; lia). f_equal. unfold slice.
    assert (0 <= tot < 4) by lia. assert (0 < m <= 4) by lia.
    assert (tot = 0 ∨ tot = 1 ∨ tot = 2 ∨ tot = 3) as [-> |[-> |[-> | ->]]] by lia;
      assert (m = 1 ∨ m = 2 ∨ m = 3 ∨ m = 4) as [-> |[-> |[-> | ->]]] by lia; try lia; reflexivity.
  - rewrite x_free. vm_compute. done.
Qed.
End small_booted.
End SmallFs.
Import SmallFs.

Lemma writei_atomic_witness :
  ∃ c (t : ftop (ist (list Z))) c' t', (begin_op;; r ← writei 0 (Address true 0) 0 4; end_op;; mret r) (FS c 1 t) = Ok 4 (FS c' 1 t') ∧
    isize (disk_inode (dsk c) SmallFs.super 2) = 0 ∧ isize (disk_inode (dsk c') SmallFs.super 2) = 4 ∧
    disk_byte (dsk c') SmallFs.super 2 1 = 105 ∧
    forall d, crash_disk c c' d -> ∃ c2 t2, reboot d 2 30 1 SmallFs.user = Ok tt (FS c2 1 t2) ∧
      (isize (disk_inode (dsk c2) SmallFs.super 2) = 0 ∨ isize (disk_inode (dsk c2) SmallFs.super 2) = 4).
Proof.
  destruct SmallFs.small_booted as (c & t & v & Hb & Hq & Hu & Hd). exists c, t.
  pose proof (SmallFs.x_writable c t v Hb Hq Hu Hd) as Hw.
  destruct (writei_atomic 1 2 30 ltac:(done) 0 (Address true 0) 0 SmallFs.hi 1 SmallFs.user t v c Hb Hq Hw) as (c' & t' & H1 & H2 & _ & H4).
  rewrite Hu in H2, H4. change (inum (inodes SmallFs.user 0)) with 2 in *. change (sb SmallFs.user) with SmallFs.super in *.
  assert (Hz : isize (disk_inode (dsk c) SmallFs.super 2) = 0).
  { unfold disk_inode. rewrite (br_disk _ _ Hb), <- (br_clean _ _ Hb), Hd; [vm_compute; reflexivity|done|].
    by rewrite (q_refs _ _ _ _ Hq), lookup_empty. }
  rewrite Hz in *. exists c', t'. split; [exact H1|]. clear H1. split; [done|]. split; [exact (proj1 H2)|].
  split; [rewrite (proj2 H2 1); [reflexivity|vm_compute; done]|].
  intros d Hdd. destruct (H4 d Hdd) as (c2 & t2 & H5 & _ & H6). exists c2, t2. split; [exact H5|]. clear H5.
  destruct H6 as [[H6 _]|[H6 _]]; [left; exact H6|right; exact H6].
Defined.

Lemma writei_readi_witness :
  ∃ c (t : ftop (ist (list Z))) c' t', (begin_op;; r ← (writei 0 (Address true 0) 0 4;; readi 0 (Address true 4) 1 100); end_op;; mret r) (FS c 1 t) = Ok 3 (FS c' 1 t') ∧
    ext (up t') = [104; 105; 33; 10; 105; 33; 10; 0].
Proof.
  destruct SmallFs.small_booted as (c & t & v & Hb & Hq & Hu & Hd). exists c, t.
  pose proof (SmallFs.x_writable c t v Hb Hq Hu Hd) as Hw.
  destruct (writei_readi 1 2 30 ltac:(done) 0 (Address true 0) 0 SmallFs.hi true 4 1 100 (fun bs => splice 4 bs SmallFs.memory) t v c Hb Hq Hw)
    as (c' & t' & H1 & H2); rewrite ?Hu; try done.
  - intros bs1 bs2 Hl. change (Z.min 100 (new_size (isize (dip (inodes user 0))) 0 hi - 1)) with 3 in Hl. rewrite length_app in Hl.
    unfold either_copyout, list_copy. unfold u64. rewrite Z.mod_small by lia. rewrite length_splice by (change (Z.of_nat (length memory)) with 8; lia).
    assert ((4 + Z.of_nat (length bs1) + Z.of_nat (length bs2) <=? Z.of_nat (length memory)) = true) as -> by (change (Z.of_nat (length memory)) with 8; lia).
    f_equal. apply splice_app. vm_compute. done.
  - rewrite Hu in H1, H2. exists c', t'. split; [exact H1|]. rewrite H2. reflexivity.
Defined.
