(* ===== verification/FsName.v ===== *)
(** * FsName: looking up path names

    [namei] of fs.c finds the inode that a path names: the directories on the disk are
    read as tables of names, a path as the sequence of its elements, and the loop of
    [namex] follows the elements from the root or the current directory.  The table of
    in-memory inodes is left as it was, with one more reference to the inode found. *)

From stdpp Require Import gmap.
From S2P Require Import Prelude Bytes SleepLock Bio BioRep Log LogRep LogProps Txn TxnProps.
From S2P Require Import Fs FsPath FsBlock FsFile FsData FsWrite FsProps.

(** ** Names *)
(** A name as it is stored: [DIRSIZ] bytes, padded with zeros. *)
Definition padded (s : list Z) : list Z := strncpy_bytes (Z.to_nat DIRSIZ) 0 s.

Lemma strncmp_spec n : forall i s t, strncmp_bytes n i s t = 0 <-> strncpy_bytes n i s = strncpy_bytes n i t.
Proof.
  induction n as [|n IH]; intros i s t; cbn [strncmp_bytes strncpy_bytes]; [done|].
  destruct (Z.eqb_spec (byte_at s i) 0) as [Hs|Hs], (Z.eqb_spec (byte_at t i) 0) as [Ht|Ht]; cbn [negb andb replicate].
  - split; [done|lia].
  - split; [lia|]. intros [= H]. lia.
  - destruct (Z.eqb_spec (byte_at s i) (byte_at t i)); [lia|]. split; [lia|]. intros [= H]. lia.
  - destruct (Z.eqb_spec (byte_at s i) (byte_at t i)) as [E|E].
    + rewrite IH, E. split; [by intros ->|]. by intros [= ->].
    + split; [lia|]. intros [= H]. lia.
Qed.
Lemma namecmp_padded s t : namecmp s t = 0 <-> padded s = padded t.
Proof. apply strncmp_spec. Qed.

Lemma padded_take_aux n : forall i e, 0 <= i -> (Z.to_nat i + n <= Z.to_nat DIRSIZ)%nat ->
  strncpy_bytes n i (take (Z.to_nat DIRSIZ) e) = strncpy_bytes n i e.
Proof.
  induction n as [|n IH]; intros i e Hi Hn; [done|]. cbn [strncpy_bytes].
  assert (byte_at (take (Z.to_nat DIRSIZ) e) i = byte_at e i) as ->.
  { unfold byte_at. assert ((0 <=? i) = true) as -> by lia. by rewrite lookup_take_lt by lia. }
  destruct (byte_at e i =? 0); [done|]. by rewrite IH by lia.
Qed.
Lemma padded_take e : padded (take (Z.to_nat DIRSIZ) e) = padded e.
Proof. apply padded_take_aux; [done|]. rewrite Z2Nat.inj_0. lia. Qed.

(** ** Directories and paths on a disk *)
Section tree.
Context (g : Z -> list Z) (s : superblock).
Abbreviation dnode := (disk_inode g s).

(** The bytes of file [n]. *)
Definition disk_bytes (n : Z) : list Z := disk_byte g s n <$> seqZ 0 (isize (dnode n)).
(** The entries of a directory. *)
Definition dirents (c : list Z) : list (list Z) :=
  (fun k => slice (sizeof_dirent * k) sizeof_dirent c) <$> seqZ 0 (Z.of_nat (length c) / sizeof_dirent).
Definition names (name : list Z) (de : list Z) : bool := negb (de_inum de =? 0) && bool_decide (padded name = padded (de_name de)).
Definition dir_find (c name : list Z) : option Z := de_inum <$> find (names name) (dirents c).

(** The inode that a sequence of names leads to from [n]. *)
Fixpoint follow (es : list (list Z)) (n : Z) : option Z :=
  match es with
  | [] => Some n
  | e :: es' => if type (dnode n) =? T_DIR then n' ← dir_find (disk_bytes n) e; follow es' n' else None
  end.
(** The inode a path names; [cw] is the current directory. *)
Definition path_start (cw : Z) (path : list Z) : Z :=
  match path with c :: _ => if c =? slash then ROOTINO else cw | [] => cw end.
Definition resolve (cw : Z) (path : list Z) : option Z := follow (elements path) (path_start cw path).

(** The blocks of the file are in use and distinct, there is no gap below its size. *)
Definition marked (b : Z) : bool := bit_set (g (BBLOCK b s)) (b mod BPB).
Record disk_file (n : dinode) : Prop := {
  df_data : forall bn, 0 <= bn < MAXFILE -> fblk g n bn ≠ 0 -> datastart s <= fblk g n bn < sb_size s ∧ marked (fblk g n bn) = true;
  df_ind : addrs n NDIRECT ≠ 0 -> datastart s <= addrs n NDIRECT < sb_size s ∧ marked (addrs n NDIRECT) = true
    ∧ (forall bn, 0 <= bn < MAXFILE -> fblk g n bn ≠ addrs n NDIRECT);
  df_inj : forall bn bn', 0 <= bn < MAXFILE -> 0 <= bn' < MAXFILE -> fblk g n bn ≠ 0 -> fblk g n bn = fblk g n bn' -> bn = bn';
  df_size : 0 <= isize n <= MAXFILE * BSIZE;
  df_gap : forall bn, 0 <= bn -> bn * BSIZE < isize n -> fblk g n bn ≠ 0
}.

(** The files that names lead to: each is an allocated inode with a link, and a
    directory is a sequence of entries for such files. *)
Record tree_ok (live : Z -> Prop) : Prop := {
  tr_root : live ROOTINO;
  tr_inum : forall n, live n -> 0 <= n < ninodes s;
  tr_type : forall n, live n -> type (dnode n) ≠ 0;
  tr_nlink : forall n, live n -> nlink (dnode n) ≠ 0;
  tr_file : forall n, live n -> disk_file (dnode n);
  tr_dir : forall n, live n -> type (dnode n) = T_DIR -> isize (dnode n) mod sizeof_dirent = 0;
  tr_entry : forall n de, live n -> type (dnode n) = T_DIR -> de ∈ dirents (disk_bytes n) -> de_inum de ≠ 0 -> live (de_inum de)
}.

Lemma find_live live n name n' : tree_ok live -> live n -> type (dnode n) = T_DIR -> dir_find (disk_bytes n) name = Some n' -> live n'.
Proof.
  intros Ht Hn Hd. unfold dir_find. destruct (find _ _) as [de|] eqn:E; [|done]. intros [= <-].
  apply find_some in E as [Hin Hm]. unfold names in Hm. apply andb_true_iff in Hm as [Hm _].
  eapply tr_entry; [done|exact Hn|done|by apply list_elem_of_In|]. destruct (Z.eqb_spec (de_inum de) 0); [done|lia].
Qed.
Lemma follow_live live es : tree_ok live -> forall n n', live n -> follow es n = Some n' -> live n'.
Proof.
  intros Ht. induction es as [|e es IH]; intros n n' Hn; cbn [follow]; [by intros [= <-]|].
  destruct (Z.eqb_spec (type (dnode n)) T_DIR) as [Hd|]; [|done]. destruct (dir_find _ e) as [n1|] eqn:E; [|done]. cbn.
  apply IH. by eapply find_live.
Qed.
End tree.

(** ** Operations that change no block *)
Section lookup.
Context {X : Type} `{!Copy X} (p lst lsz : Z) (D : Z -> list Z) (W : list (Z * list Z)).
Context (g : Z -> list Z) (s : superblock) (live : Z -> Prop).
Abbreviation U := (ist X).
Abbreviation tok := (Txn.tok (U := U) p lst lsz D W).
Abbreviation dnode := (disk_inode g s).
Implicit Types (u : U) (R : Z -> Z).

(** The transaction in which nothing has been written. *)
Definition ro u : txn U := Txn g [] ∅ ∅ u.
Definition rok {A} (m : M (fs (ftop U)) A) u (P : A -> U -> Prop) : Prop := tok m (ro u) (fun r x => exists u', x = ro u' ∧ P r u').

Lemma rok_ret {A} (a : A) u (P : A -> U -> Prop) : P a u -> rok (mret a) u P.
Proof. intros HP. apply tok_ret. eauto. Qed.
Lemma rok_bind {A B} (m : M (fs (ftop U)) A) (k : A -> M (fs (ftop U)) B) u P : rok m u (fun r u' => rok (k r) u' P) -> rok (m ≫= k) u P.
Proof. intros Hm. apply tok_bind. eapply tok_mono; [exact Hm|]. intros r x (u' & -> & Hk). exact Hk. Qed.
Lemma rok_mono {A} (m : M (fs (ftop U)) A) u (P P' : A -> U -> Prop) : rok m u P -> (forall r u', P r u' -> P' r u') -> rok m u P'.
Proof. intros Hm HP. eapply tok_mono; [exact Hm|]. intros r x (u' & -> & H). eauto. Qed.

(** A step that only changes the state above the log. *)
Lemma rok_up {A} (m : M (fs (ftop U)) A) r f u (P : A -> U -> Prop) :
  (forall c t, up t = u -> m (FS c p t) = Ok r (FS c p (t <| up ::= f |>))) -> P r (f u) -> rok m u P.
Proof.
  intros Hm HP t v Ht c Hc. pose proof (r_up _ _ _ _ _ _ _ _ Ht) as Hu. exists r, c, (t <| up ::= f |>), v.
  split; [by apply Hm|]. split; [done|]. exists (ro (f u)). split; [|eauto]. apply (trep_up p lst lsz D W _ _ _ f Ht).
Qed.
Lemma rok_gets {A} (f : U -> A) u (P : A -> U -> Prop) : P (f u) u -> rok (ugets f) u P.
Proof. intros HP. apply (rok_up _ (f u) id); [|done]. intros c [l u'] Hu. cbn in Hu. by subst. Qed.
Lemma rok_mod f u (P : unit -> U -> Prop) : P tt (f u) -> rok (umod f) u P.
Proof. intros HP. apply (rok_up _ tt f); [|done]. intros c [l u'] Hu. done. Qed.
Lemma rok_inode {A} ip (k : inode -> M _ A) u P : inode_ok ip = true -> rok (k (inodes u ip)) u P -> rok (p ← get_inode ip; k p) u P.
Proof. intros Hi Hk. apply rok_bind. unfold get_inode. rewrite Hi. by apply rok_gets. Qed.
Lemma rok_set {A} ip f (k : M _ A) u P : inode_ok ip = true -> rok k (u <| inodes ::= fun h => upd h ip (f (h ip)) |>) P -> rok (set_inode ip f;; k) u P.
Proof. intros Hi Hk. apply rok_bind. unfold set_inode. rewrite Hi. by apply rok_mod. Qed.
Lemma rok_pid {A} (k : Z -> M _ A) u P : rok (k p) u P -> rok (q ← gets mypid; k q) u P.
Proof. intros Hk. apply rok_bind. apply (rok_up _ p id); [|done]. intros c [l u'] Hu. done. Qed.

Lemma rok_acquire {A} (k : M _ A) u P : itable_lock u = false -> rok k (u <| itable_lock := true |>) P -> rok (acquire_spin itablelk;; k) u P.
Proof.
  intros Hl Hk. apply rok_bind. apply (rok_up _ tt (fun u => u <| itable_lock := true |>)); [|done].
  intros c [l u'] Hu. cbn in Hu. subst. unfold acquire_spin. cbn. by rewrite Hl.
Qed.
Lemma rok_release {A} (k : M _ A) u P : itable_lock u = true -> rok k (u <| itable_lock := false |>) P -> rok (release_spin itablelk;; k) u P.
Proof.
  intros Hl Hk. apply rok_bind. apply (rok_up _ tt (fun u => u <| itable_lock := false |>)); [|done].
  intros c [l u'] Hu. cbn in Hu. subst. unfold release_spin. cbn. by rewrite Hl.
Qed.
Lemma rok_release_end u (P : unit -> U -> Prop) : itable_lock u = true -> P tt (u <| itable_lock := false |>) -> rok (release_spin itablelk) u P.
Proof.
  intros Hl Hk. apply (rok_up _ tt (fun u => u <| itable_lock := false |>)); [|done].
  intros c [l u'] Hu. cbn in Hu. subst. unfold release_spin. cbn. by rewrite Hl.
Qed.

(** The sleep lock of an inode. *)
Definition set_ilk (ip : Z) (f : sleeplock -> sleeplock) u : U := u <| inodes ::= fun h => upd h ip ((h ip) <| i_lock ::= f |>) |>.
Lemma rok_acquiresleep {A} ip (k : M _ A) u P : free_lock (i_lock (inodes u ip)) ->
  rok k (set_ilk ip (fun l => l <| sl_locked := 1 |> <| sl_pid := p |>) u) P -> rok (acquiresleep (ilk ip) p;; k) u P.
Proof.
  intros Hl Hk. apply rok_bind. apply (rok_up _ tt (set_ilk ip (fun l => l <| sl_locked := 1 |> <| sl_pid := p |>))); [|done].
  intros c t Hu. rewrite (acquiresleep_free _ (LawfulLens0 := ilk_lawful ip)); [done|]. cbn. by rewrite Hu.
Qed.
Lemma rok_releasesleep ip u (P : unit -> U -> Prop) : sl_lk (i_lock (inodes u ip)) = false ->
  P tt (set_ilk ip (fun l => l <| sl_locked := 0 |> <| sl_pid := 0 |>) u) -> rok (releasesleep (ilk ip)) u P.
Proof.
  intros Hl Hk. apply (rok_up _ tt (set_ilk ip (fun l => l <| sl_locked := 0 |> <| sl_pid := 0 |>))); [|done].
  intros c t Hu. rewrite (releasesleep_eq _ (LawfulLens0 := ilk_lawful ip)); [done|]. cbn. by rewrite Hu.
Qed.
Lemma rok_holdingsleep {A} ip (k : bool -> M _ A) u P : sl_lk (i_lock (inodes u ip)) = false -> sl_locked (i_lock (inodes u ip)) = 1 ->
  sl_pid (i_lock (inodes u ip)) = p -> rok (k true) u P -> rok (h ← holdingsleep (ilk ip) p; k h) u P.
Proof.
  intros Hl H1 H2 Hk. apply rok_bind. apply (rok_up _ true id); [|done].
  intros c [l u'] Hu. cbn in Hu. subst. rewrite (holdingsleep_eq _ (LawfulLens0 := ilk_lawful ip)); [|done]. cbn. rewrite H1, H2, Z.eqb_refl. done.
Qed.

(** Reading a block. *)
Lemma ro_read u b : can_read (ro u) b.
Proof. split; [done|apply not_elem_of_empty|]. cbn. rewrite map_size_empty. unfold NBUF, MAXOPBLOCKS. lia. Qed.

(** ** The table of inodes

    [R0] and [N] are the reference counts and the inode numbers before the operation,
    [c0] is the entry of the current directory. *)
Context (R0 N : Z -> Z) (c0 : Z) (Htree : tree_ok g s live).

(** [R] are the reference counts now, [L] is the inode this thread has locked. *)
Record itab R (L : option Z) u : Prop := {
  it_lock : itable_lock u = false;
  it_sb : sb u = s;
  it_cwd : cwd u = c0;
  it_base : forall i, 0 <= R0 i <= R i;
  it_ref : forall i, inode_ok i = true -> ref (inodes u i) = R i;
  it_dev : forall i, inode_ok i = true -> 0 < R i -> i_dev (inodes u i) = ROOTDEV;
  it_num : forall i, inode_ok i = true -> 0 < R0 i -> inum (inodes u i) = N i;
  it_uniq : forall i j, inode_ok i = true -> inode_ok j = true -> 0 < R i -> 0 < R j -> inum (inodes u i) = inum (inodes u j) -> i = j;
  it_valid : forall i, inode_ok i = true -> 0 < R i -> live (inum (inodes u i)) -> i_valid (inodes u i) ≠ 0 ->
    same_dinode (dip (inodes u i)) (dnode (inum (inodes u i)));
  it_free : forall i, inode_ok i = true -> L ≠ Some i -> free_lock (i_lock (inodes u i));
  it_held : forall i, L = Some i -> inode_ok i = true ∧ 0 < R i ∧ live (inum (inodes u i)) ∧ i_valid (inodes u i) ≠ 0
    ∧ sl_lk (i_lock (inodes u i)) = false ∧ sl_locked (i_lock (inodes u i)) = 1 ∧ sl_pid (i_lock (inodes u i)) = p
}.
Definition bump (i : Z) R : Z -> Z := upd R i (R i + 1).
Definition drop_ref (i : Z) R : Z -> Z := upd R i (R i - 1).

Lemma iget_find_spec k : forall ip dev n h,
  match iget_find k ip dev n h with
  | Some i => ip <= i < ip + Z.of_nat k ∧ 0 < ref (h i) ∧ i_dev (h i) = dev ∧ inum (h i) = n
  | None => forall i, ip <= i < ip + Z.of_nat k -> 0 < ref (h i) -> i_dev (h i) = dev -> inum (h i) ≠ n
  end.
Proof.
  induction k as [|k IH]; intros ip dev n h; cbn [iget_find]; [intros; lia|].
  destruct ((0 <? ref (h ip)) && (i_dev (h ip) =? dev) && (inum (h ip) =? n)) eqn:E; [lia|].
  specialize (IH (ip + 1) dev n h). destruct (iget_find k (ip + 1) dev n h) as [i|]; [split; [lia|apply IH]|].
  intros i Hi. destruct (decide (i = ip)) as [->|]; [lia|]. apply IH. lia.
Qed.
Lemma iget_empty_spec k : forall ip h,
  match iget_empty k ip h with
  | Some i => ip <= i < ip + Z.of_nat k ∧ ref (h i) = 0
  | None => forall i, ip <= i < ip + Z.of_nat k -> ref (h i) ≠ 0
  end.
Proof.
  induction k as [|k IH]; intros ip h; cbn [iget_empty]; [intros; lia|].
  destruct (Z.eqb_spec (ref (h ip)) 0) as [E|E]; [lia|].
  specialize (IH (ip + 1) h). destruct (iget_empty k (ip + 1) h) as [i|]; [split; [lia|apply IH]|].
  intros i Hi. destruct (decide (i = ip)) as [->|]; [lia|]. apply IH. lia.
Qed.
Lemma inode_ok_range i : inode_ok i = true <-> 0 <= i < NINODE.
Proof. unfold inode_ok. lia. Qed.

(** One entry of the table changes. *)
Lemma itab_upd R L u u' i nd r L' :
  itab R L u -> itable_lock u' = false -> sb u' = s -> cwd u' = c0 -> inodes u' = upd (inodes u) i nd -> inode_ok i = true ->
  R0 i <= r -> ref nd = r -> (0 < r -> i_dev nd = ROOTDEV) -> (0 < R0 i -> inum nd = N i) ->
  (0 < r -> forall j, inode_ok j = true -> 0 < R j -> j ≠ i -> inum (inodes u j) ≠ inum nd) ->
  (0 < r -> live (inum nd) -> i_valid nd ≠ 0 -> same_dinode (dip nd) (dnode (inum nd))) ->
  (L' ≠ Some i -> free_lock (i_lock nd)) ->
  (L' = Some i -> 0 < r ∧ live (inum nd) ∧ i_valid nd ≠ 0 ∧ sl_lk (i_lock nd) = false ∧ sl_locked (i_lock nd) = 1 ∧ sl_pid (i_lock nd) = p) ->
  (forall j, j ≠ i -> L' = Some j <-> L = Some j) -> itab (upd R i r) L' u'.
Proof.
  intros [] H1 H2 H3 H4 Hi Hr Hnd Hdev Hnum Huq Hv Hfr Hh HL. split; try done.
  - intros j. destruct (decide (j = i)) as [->|Hne]; [rewrite upd_eq|rewrite upd_ne by done]; [|done]. pose proof (it_base0 i). lia.
  - intros j Hj. rewrite H4. destruct (decide (j = i)) as [->|Hne]; [by rewrite !upd_eq|rewrite !upd_ne by done; auto].
  - intros j Hj. rewrite H4. destruct (decide (j = i)) as [->|Hne]; [by rewrite !upd_eq|rewrite !upd_ne by done; auto].
  - intros j Hj. rewrite H4. destruct (decide (j = i)) as [->|Hne]; [by rewrite !upd_eq|rewrite !upd_ne by done; auto].
  - intros j k Hj Hk. rewrite H4. destruct (decide (j = i)) as [->|Hj'], (decide (k = i)) as [->|Hk']; rewrite ?upd_eq, ?upd_ne by done; try done.
    + intros Hp Hk0 E. by destruct (Huq Hp k Hk Hk0 Hk').
    + intros Hj0 Hp E. by destruct (Huq Hp j Hj Hj0 Hj').
    + auto.
  - intros j Hj. rewrite H4. destruct (decide (j = i)) as [->|Hne]; [by rewrite !upd_eq|rewrite !upd_ne by done; auto].
  - intros j Hj HLj. rewrite H4. destruct (decide (j = i)) as [->|Hne]; [rewrite upd_eq; auto|rewrite upd_ne by done]. apply it_free0; [done|].
    intros E. by apply HLj, HL.
  - intros j Hj. rewrite H4. destruct (decide (j = i)) as [->|Hne]; [rewrite !upd_eq; auto|rewrite !upd_ne by done]. by apply it_held0, HL.
Qed.
(** One more reference to an entry in use. *)
Lemma itab_bump R L u u' i :
  itab R L u -> itable_lock u' = false -> sb u' = sb u -> cwd u' = cwd u -> inode_ok i = true -> 0 < R i ->
  inodes u' = upd (inodes u) i ((inodes u i) <| ref ::= Z.succ |>) -> itab (bump i R) L u'.
Proof.
  intros Hu H1 H2 H3 Hok Hr E.
  eapply (itab_upd R L u); [done|done|rewrite H2; apply Hu|rewrite H3; apply Hu|exact E|done|..]; cbn.
  - pose proof (it_base _ _ _ Hu i). lia.
  - rewrite (it_ref _ _ _ Hu i Hok). lia.
  - intros _. by apply (it_dev _ _ _ Hu).
  - by apply (it_num _ _ _ Hu).
  - intros _ j Hj Hjr Hne Ej. apply Hne. by apply (it_uniq _ _ _ Hu).
  - intros _ Hl Hv. by apply (it_valid _ _ _ Hu).
  - by apply (it_free _ _ _ Hu).
  - intros ->. destruct (it_held _ _ _ Hu i eq_refl) as (_ & ? & ?). split; [lia|done].
  - done.
Qed.

(** A new reference to the inode [n]. *)
Lemma rok_iget n R L u (P : Z -> U -> Prop) : live n -> itab R L u -> (exists i, inode_ok i = true ∧ R i = 0) ->
  (forall i u', inode_ok i = true -> itab (bump i R) L u' -> inum (inodes u' i) = n -> P i u') -> rok (iget ROOTDEV n) u P.
Proof.
  intros Hn Hu (f & Hf & Hf0) HP. unfold iget. apply rok_acquire; [apply Hu|]. apply rok_bind, rok_gets. cbn [inodes].
  change (inodes (u <| itable_lock := true |>)) with (inodes u).
  pose proof (iget_find_spec (Z.to_nat NINODE) 0 ROOTDEV n (inodes u)) as Hfind. destruct (iget_find _ _ _ _ _) as [i|].
  - destruct Hfind as (Hi & Hr & Hd & Hin). assert (Hok : inode_ok i = true) by (apply inode_ok_range; unfold NINODE in *; lia).
    rewrite (it_ref _ _ _ Hu i Hok) in Hr. apply rok_set; [done|]. apply rok_release; [done|]. apply rok_ret, HP; [done| |by cbn; rewrite upd_eq].
    by eapply (itab_bump R L u).
  - pose proof (iget_empty_spec (Z.to_nat NINODE) 0 (inodes u)) as Hemp. destruct (iget_empty _ _ _) as [i|].
    2:{ exfalso. apply (Hemp f); [apply inode_ok_range in Hf; unfold NINODE in *; lia|]. by rewrite (it_ref _ _ _ Hu). }
    destruct Hemp as (Hi & Hr). assert (Hok : inode_ok i = true) by (apply inode_ok_range; unfold NINODE in *; lia).
    rewrite (it_ref _ _ _ Hu i Hok) in Hr. pose proof (it_base _ _ _ Hu i) as Hb.
    assert (HLi : L ≠ Some i) by (intros ->; destruct (it_held _ _ _ Hu i eq_refl) as (_ & ? & _); lia).
    apply rok_set; [done|]. apply rok_release; [done|]. apply rok_ret, HP; [done| |by cbn; rewrite upd_eq].
    eapply (itab_upd R L u); [done|done|apply Hu|apply Hu|reflexivity|done|..]; cbn; try done; try lia.
    + intros _ j Hj Hjr Hne E. apply (Hfind j); [apply inode_ok_range in Hj; unfold NINODE in *; lia| | |done].
      * by rewrite (it_ref _ _ _ Hu).
      * by apply (it_dev _ _ _ Hu).
    + intros _. by apply (it_free _ _ _ Hu).
Qed.

Lemma rok_idup i R L u (P : Z -> U -> Prop) : inode_ok i = true -> 0 < R i -> itab R L u ->
  (forall u', itab (bump i R) L u' -> inum (inodes u' i) = inum (inodes u i) -> P i u') -> rok (idup i) u P.
Proof.
  intros Hok Hr Hu HP. unfold idup. apply rok_acquire; [apply Hu|]. apply rok_set; [done|]. apply rok_release; [done|]. apply rok_ret, HP; [|by cbn; rewrite upd_eq].
  by eapply (itab_bump R L u).
Qed.

(** The numbers of the entries stay. *)
Definition same_nums u u' : Prop := forall j, inum (inodes u' j) = inum (inodes u j).
Lemma nums_upd u u' i nd : inodes u' = upd (inodes u) i nd -> inum nd = inum (inodes u i) -> same_nums u u'.
Proof. intros E En j. rewrite E. destruct (decide (j = i)) as [->|]; [by rewrite upd_eq|by rewrite upd_ne]. Qed.

(** Locking an inode loads it from the disk. *)
Lemma rok_ilock i R u (P : unit -> U -> Prop) : inode_ok i = true -> 0 < R i -> live (inum (inodes u i)) -> itab R None u ->
  (forall u', itab R (Some i) u' -> same_nums u u' -> P tt u') -> rok (ilock i) u P.
Proof.
  intros Hok Hr Hl Hu HP. unfold ilock. assert ((i =? -1) = false) as -> by (apply inode_ok_range in Hok; lia).
  apply rok_inode; [done|]. rewrite (it_ref _ _ _ Hu i Hok). assert ((R i <? 1) = false) as -> by lia.
  apply rok_pid. destruct (it_free _ _ _ Hu i Hok ltac:(done)) as [F1 F2]. apply rok_acquiresleep; [done|]. apply rok_inode; [done|].
  set (u1 := set_ilk i _ u). assert (E1 : inodes u1 = upd (inodes u) i (inodes u1 i)) by (cbn; by rewrite upd_eq).
  assert (N1 : inodes u1 i = (inodes u i) <| i_lock := (i_lock (inodes u i)) <| sl_locked := 1 |> <| sl_pid := p |> |>) by (cbn; by rewrite upd_eq).
  assert (Hgoal : forall u', itable_lock u' = false -> sb u' = s -> cwd u' = c0 -> inodes u' = upd (inodes u) i (inodes u' i) ->
    i_dev (inodes u' i) = i_dev (inodes u i) -> inum (inodes u' i) = inum (inodes u i) -> ref (inodes u' i) = ref (inodes u i) ->
    i_lock (inodes u' i) = i_lock (inodes u1 i) -> i_valid (inodes u' i) ≠ 0 -> same_dinode (dip (inodes u' i)) (dnode (inum (inodes u i))) -> P tt u').
  { intros u' G1 G2 G3 G4 G5 G6 G7 G8 G9 G10. apply HP; [|by apply (nums_upd u u' i _ G4)]. rewrite <- (upd_same R i (R i) eq_refl).
    eapply (itab_upd R None u); [done|done|done|done|exact G4|done|..]; rewrite ?G5, ?G6, ?G7, ?G8; try done.
    - apply (it_base _ _ _ Hu).
    - by apply (it_ref _ _ _ Hu).
    - by apply (it_dev _ _ _ Hu).
    - by apply (it_num _ _ _ Hu).
    - intros _ j Hj Hjr Hne Ej. apply Hne. by apply (it_uniq _ _ _ Hu).
    - intros _. rewrite N1. done.
    - intros j Hj. split; [intros [= ->]; done|done]. }
  rewrite N1. cbn [i_valid]. change (i_valid (_ <| i_lock := _ |>)) with (i_valid (inodes u i)).
  destruct (Z.eqb_spec (i_valid (inodes u i)) 0) as [Hv|Hv]; cbn [when].
  2:{ apply rok_ret. apply Hgoal; try (by rewrite N1); [apply Hu|apply Hu|apply Hu|]. rewrite N1. by apply (it_valid _ _ _ Hu). }
  unfold rok. apply (tok_sb p lst lsz D W). cbn [tup ro]. change (sb u1) with (sb u). rewrite (it_sb _ _ _ Hu).
  change (i_dev (_ <| i_lock := _ |>)) with (i_dev (inodes u i)). change (inum (_ <| i_lock := _ |>)) with (inum (inodes u i)).
  rewrite (it_dev _ _ _ Hu i Hok Hr). apply (tok_read p lst lsz D W); [apply ro_read|]. intros bp. cbn [tcont ro].
  set (u2 := u1 <| inodes ::= fun h => upd h i ((h i) <| dip := dnode (inum (inodes u i)) |>) |>).
  apply tok_bind. unfold set_inode at 1. rewrite Hok. apply (tok_modify p lst lsz D W).
  match goal with |- Txn.tok _ _ _ _ _ _ ?y _ => assert (Ey : y = hold (IBLOCK (inum (inodes u i)) s) bp (ro u2)) end.
  { unfold hold, ro, u2, setter. cbn. f_equal. f_equal. rewrite !upd_upd, !upd_eq. f_equal. }
  rewrite Ey. apply (tok_release p lst lsz D W); [apply ro_read|]. lazymatch goal with |- Txn.tok _ _ _ _ _ ?m _ _ => change (rok m u2 P) end.
  apply rok_set; [done|]. apply rok_inode; [done|]. set (u3 := u2 <| inodes ::= _ |>).
  assert (N3 : inodes u3 i = (inodes u1 i) <| dip := dnode (inum (inodes u i)) |> <| i_valid := 1 |>) by (unfold u3, u2; cbn; by rewrite !upd_eq).
  rewrite N3. change (type (dip _)) with (type (dnode (inum (inodes u i)))). pose proof (tr_type _ _ _ Htree _ Hl) as Hty.
  assert ((type (dnode (inum (inodes u i))) =? 0) = false) as -> by lia. cbn [when]. apply rok_ret.
  apply Hgoal; rewrite ?N3; try (by rewrite N1); try done; [apply Hu|apply Hu|apply Hu|].
  rewrite <- N3. unfold u3, u2. cbn. by rewrite !upd_upd, !upd_eq.
Qed.

(** Unlocking it, and giving up the reference. *)
Lemma rok_iunlock i R u (P : unit -> U -> Prop) : itab R (Some i) u ->
  (forall u', itab R None u' -> same_nums u u' -> P tt u') -> rok (iunlock i) u P.
Proof.
  intros Hu HP. destruct (it_held _ _ _ Hu i eq_refl) as (Hok & Hr & Hl & Hv & K1 & K2 & K3).
  unfold iunlock. assert ((i =? -1) = false) as -> by (apply inode_ok_range in Hok; lia). apply rok_pid. apply rok_holdingsleep; [done..|].
  apply rok_inode; [done|]. rewrite (it_ref _ _ _ Hu i Hok). assert ((R i <? 1) = false) as -> by lia. cbn [negb orb].
  apply rok_releasesleep; [done|]. apply HP; [|by eapply nums_upd]. rewrite <- (upd_same R i (R i) eq_refl).
  eapply (itab_upd R (Some i) u); [done|apply Hu|apply Hu|apply Hu|reflexivity|done|..]; cbn; try done.
  - apply (it_base _ _ _ Hu).
  - by apply (it_ref _ _ _ Hu).
  - by apply (it_dev _ _ _ Hu).
  - by apply (it_num _ _ _ Hu).
  - intros _ j Hj Hjr Hne Ej. apply Hne. by apply (it_uniq _ _ _ Hu).
  - by apply (it_valid _ _ _ Hu).
  - intros j Hj. split; [done|]. intros [= ->]. done.
Qed.

Lemma rok_iput i R u (P : unit -> U -> Prop) : inode_ok i = true -> R0 i < R i -> live (inum (inodes u i)) -> itab R None u ->
  (forall u', itab (drop_ref i R) None u' -> same_nums u u' -> P tt u') -> rok (iput i) u P.
Proof.
  intros Hok Hr Hl Hu HP. pose proof (it_base _ _ _ Hu i) as Hb. unfold iput. apply rok_acquire; [apply Hu|]. apply rok_inode; [done|].
  change (inodes (u <| itable_lock := true |>)) with (inodes u).
  assert (Hno : (ref (inodes u i) =? 1) && negb (i_valid (inodes u i) =? 0) && (nlink (dip (inodes u i)) =? 0) = false).
  { destruct (Z.eqb_spec (i_valid (inodes u i)) 0) as [|Hv]; [by rewrite andb_false_r|]. pose proof (tr_nlink _ _ _ Htree _ Hl) as Hn.
    destruct (it_valid _ _ _ Hu i Hok ltac:(lia) Hl Hv) as (_ & _ & _ & -> & _). lia. }
  rewrite Hno. cbn [when]. apply rok_bind, rok_ret. apply rok_set; [done|]. apply rok_release_end; [done|]. apply HP; [|by eapply nums_upd].
  eapply (itab_upd R None u); [done|done|apply Hu|apply Hu|reflexivity|done|..]; cbn; try done.
  - lia.
  - rewrite (it_ref _ _ _ Hu i Hok). lia.
  - intros Hp. apply (it_dev _ _ _ Hu); [done|lia].
  - by apply (it_num _ _ _ Hu).
  - intros Hp j Hj Hjr Hne Ej. apply Hne. apply (it_uniq _ _ _ Hu); [done|done|done|lia|done].
  - intros Hp. apply (it_valid _ _ _ Hu); [done|lia].
  - by apply (it_free _ _ _ Hu).
Qed.
Lemma rok_iunlockput i R u (P : unit -> U -> Prop) : R0 i < R i -> itab R (Some i) u ->
  (forall u', itab (drop_ref i R) None u' -> same_nums u u' -> P tt u') -> rok (iunlockput i) u P.
Proof.
  intros Hr Hu HP. destruct (it_held _ _ _ Hu i eq_refl) as (Hok & _ & Hl & _). apply rok_bind. apply (rok_iunlock i R); [done|].
  intros u' Hu' Hn. apply (rok_iput i R); [done|done|by rewrite Hn|done|]. intros u2 Hu2 Hn2. apply HP; [done|]. intros j. by rewrite Hn2.
Qed.

(** ** Reading directories *)
Context (Hlay : layout lst s) (Hlen : forall b, length (g b) = Z.to_nat BSIZE) (Hmeta : forall b, 0 <= b < datastart s -> marked g s b = true).

Lemma ro_blocks u : sb u = s -> blocks_ok lst (ro u).
Proof using Hlay Hlen Hmeta. intros Hs. split; [by cbn; rewrite Hs|done|]. intros b. unfold used. cbn. rewrite Hs. apply Hmeta. Qed.
Lemma ro_fb u i n bn : same_dinode (dip (inodes u i)) n -> 0 <= bn -> fb i (ro u) bn = fblk g n bn.
Proof. intros Hn Hb. by apply fblk_same. Qed.
Lemma ro_file u i : sb u = s -> i_dev (inodes u i) = ROOTDEV -> live (inum (inodes u i)) ->
  same_dinode (dip (inodes u i)) (dnode (inum (inodes u i))) -> file_ok i (ro u).
Proof using Htree.
  intros Hs Hd Hl Hn. destruct (tr_file _ _ _ Htree _ Hl) as [F1 F2 F3 F4 F5]. pose proof Hn as (_ & _ & _ & _ & Hsz & Ha).
  assert (Hi : addrs (dip (node i (ro u))) NDIRECT = addrs (dnode (inum (inodes u i))) NDIRECT) by (apply Ha; unfold NDIRECT; lia).
  split; cbn -[fb node]; unfold used; cbn -[fb node]; rewrite ?Hs, ?Hi.
  - done.
  - intros bn Hb. rewrite (ro_fb u i _ bn Hn) by lia. by apply F1.
  - intros Hne. destruct (F2 Hne) as (G1 & G2 & G3). split_and!; [lia|lia|done|]. intros bn Hb. rewrite (ro_fb u i _ bn Hn) by lia. by apply G3.
  - intros bn bn' Hb Hb'. rewrite !(ro_fb u i _ _ Hn) by lia. by apply F3.
  - unfold node. cbn. by rewrite Hsz.
  - intros bn Hb. unfold node. cbn. rewrite Hsz, (ro_fb u i _ bn Hn) by lia. by apply F5.
Qed.
Lemma ro_fbytes u i off n : same_dinode (dip (inodes u i)) (dnode (inum (inodes u i))) -> 0 <= off -> 0 <= n ->
  off + n <= isize (dnode (inum (inodes u i))) -> fbytes i (ro u) off n = slice off n (disk_bytes g s (inum (inodes u i))).
Proof.
  intros Hn Ho Hk Hs. apply list_eq. intros j. unfold fbytes, slice, disk_bytes. rewrite list_lookup_fmap.
  destruct (decide (j < Z.to_nat n)%nat) as [Hj|Hj].
  - rewrite lookup_take_lt, lookup_drop, list_lookup_fmap, !lookup_seqZ_lt by lia. cbn [fmap option_fmap option_map]. f_equal.
    replace (0 + Z.of_nat (Z.to_nat off + j)) with (off + Z.of_nat j) by lia. unfold fbyte, disk_byte.
    rewrite (ro_fb u i _ _ Hn) by (apply Z.div_pos; [lia|done]). done.
  - rewrite lookup_seqZ_ge by lia. by rewrite lookup_take_ge by lia.
Qed.

(** One entry is read into the local variable. *)
Lemma itab_local R L u l : itab R L u -> itab R L (u <| local := l |>).
Proof. intros []. by split. Qed.
Lemma rok_read_entry i R u off (P : Z -> U -> Prop) : itab R (Some i) u -> length (local u) = Z.to_nat sizeof_dirent -> 0 <= off ->
  off + sizeof_dirent <= isize (dnode (inum (inodes u i))) ->
  P sizeof_dirent (u <| local := slice off sizeof_dirent (disk_bytes g s (inum (inodes u i))) |>) -> rok (readi i Local off sizeof_dirent) u P.
Proof using Htree Hlay Hlen Hmeta.
  intros Hu Hl Ho Hs HP. destruct (it_held _ _ _ Hu i eq_refl) as (Hok & Hr & Hlv & Hv & _).
  pose proof (it_valid _ _ _ Hu i Hok Hr Hlv Hv) as Hn. pose proof Hn as (_ & _ & _ & _ & Hsz & _). pose proof (df_size _ _ _ (tr_file _ _ _ Htree _ Hlv)) as Hmax.
  unfold sizeof_dirent, MAXFILE, NDIRECT, NINDIRECT, BSIZE in *. change (1024 / 4) with 256 in *.
  eapply (tok_readi p lst lsz D W i Hok (ro u) Local 16 off (fun bs => u <| local ::= splice 0 bs |>));
    [apply ro_file; [apply Hu|by apply (it_dev _ _ _ Hu)|done|done]|apply ro_blocks, Hu|apply ro_read| |apply accepts_local|done|lia|..].
  - cbn. by destruct u.
  - unfold node. cbn. rewrite Hsz. lia.
  - lia.
  - lia.
  - unfold node. cbn. rewrite Hsz. assert ((isize (dnode (inum (inodes u i))) <? off + 16) = false) as -> by lia. done.
  - eexists. split; [reflexivity|]. rewrite ro_fbytes by (done || lia). 
    match type of HP with P _ ?a => match goal with |- P _ ?b => assert (b = a) as ->; [|done] end end.
    unfold setter. cbn. f_equal. unfold splice. cbn. rewrite length_slice; [|lia|lia|].
    + rewrite drop_ge by lia. by rewrite app_nil_r.
    + unfold disk_bytes. rewrite length_fmap, length_seqZ. lia.
Qed.

(** What [dirlookup] promises: a reference to the inode of the entry, or none. *)
Definition found (i : Z) R (r : option Z) (P : Z * Z -> U -> Prop) : Prop :=
  match r with
  | Some n' => forall j off u', inode_ok j = true -> itab (bump j R) (Some i) u' -> inum (inodes u' j) = n' -> P (j, off) u'
  | None => forall u', itab R (Some i) u' -> P (-1, 0) u'
  end.

Lemma rok_dirlookup_loop i R name n P : live n -> type (dnode n) = T_DIR -> (exists f, inode_ok f = true ∧ R f = 0) ->
  forall fuel k u, itab R (Some i) u -> inum (inodes u i) = n -> length (local u) = Z.to_nat sizeof_dirent ->
  (k <= length (dirents (disk_bytes g s n)) < k + fuel)%nat ->
  found i R (de_inum <$> find (names name) (drop k (dirents (disk_bytes g s n)))) P ->
  rok (dirlookup_loop fuel i name (sizeof_dirent * Z.of_nat k)) u P.
Proof using Htree Hlay Hlen Hmeta.
  intros Hlv Hdir Hslot fuel. set (es := dirents (disk_bytes g s n)).
  pose proof (df_size _ _ _ (tr_file _ _ _ Htree _ Hlv)) as [Hsz0 _]. pose proof (tr_dir _ _ _ Htree _ Hlv Hdir) as Hmod.
  assert (Hclen : Z.of_nat (length (disk_bytes g s n)) = isize (dnode n)) by (unfold disk_bytes; rewrite length_fmap, length_seqZ; lia).
  assert (Hes : Z.of_nat (length es) = isize (dnode n) / sizeof_dirent).
  { unfold es, dirents. rewrite length_fmap, length_seqZ, Hclen. apply Z2Nat.id, Z.div_pos; [lia|done]. }
  induction fuel as [|fuel IH]; intros k u Hu Hn Hl Hk HP.
  { exfalso. fold es in Hk. lia. }
  fold es in Hk, HP. cbn [dirlookup_loop]. destruct (it_held _ _ _ Hu i eq_refl) as (Hok & Hr & Hlu & Hv & _). apply rok_inode; [done|].
  pose proof (it_valid _ _ _ Hu i Hok Hr Hlu Hv) as (_ & _ & _ & _ & Hsz & _). rewrite Hsz, Hn. unfold sizeof_dirent in *.
  destruct (Z.ltb_spec (16 * Z.of_nat k) (isize (dnode n))) as [Hlt|Hge]; cbn [negb].
  2:{ rewrite drop_ge in HP by (Z.div_mod_to_equations; lia). apply rok_ret. by apply HP. }
  assert (Hin : es !! k = Some (slice (16 * Z.of_nat k) 16 (disk_bytes g s n))).
  { unfold es, dirents. rewrite list_lookup_fmap, lookup_seqZ_lt by (rewrite Hclen; unfold sizeof_dirent; Z.div_mod_to_equations; lia). done. }
  set (de := slice (16 * Z.of_nat k) 16 (disk_bytes g s n)) in *. rewrite (drop_S _ _ _ Hin) in HP. cbn [find] in HP.
  apply rok_bind. apply (rok_read_entry i R); [done|done|lia|rewrite Hn; unfold sizeof_dirent; Z.div_mod_to_equations; lia|]. rewrite Hn.
  change (slice (16 * Z.of_nat k) sizeof_dirent (disk_bytes g s n)) with de. change (sizeof_dirent =? 16) with true. cbn [negb].
  apply rok_bind, rok_gets. set (u1 := u <| local := de |>). change (local u1) with de.
  assert (Hnext : found i R (de_inum <$> find (names name) (drop (S k) es)) P ->
    rok (dirlookup_loop fuel i name (16 * Z.of_nat k + 16)) u1 P).
  { intros Hf. replace (16 * Z.of_nat k + 16) with (16 * Z.of_nat (S k)) by lia.
    assert (Hkl : (k < length es)%nat) by (by eapply lookup_lt_Some). apply IH; [by apply itab_local|done| |lia|done].
    cbn. unfold de. rewrite length_slice; [done|lia|lia|]. rewrite Hclen. Z.div_mod_to_equations; lia. }
  unfold names at 1 in HP. destruct (Z.eqb_spec (de_inum de) 0) as [E0|E0]; cbn [negb andb] in HP; [by apply Hnext|].
  destruct (Z.eqb_spec (namecmp name (de_name de)) 0) as [Em|Em].
  - apply namecmp_padded in Em. rewrite bool_decide_eq_true_2 in HP by done. cbn in HP. rewrite (it_dev _ _ _ Hu i Hok Hr).
    apply rok_bind. apply (rok_iget (de_inum de) R (Some i)); [|by apply itab_local|done|].
    + eapply tr_entry; [done|exact Hlv|done| |done]. by eapply list_elem_of_lookup_2.
    + intros j u' Hj Hu' Hnj. apply rok_ret. by apply HP.
  - rewrite bool_decide_eq_false_2 in HP by (by rewrite <- namecmp_padded). by apply Hnext.
Qed.

Lemma rok_dirlookup i R u name P : itab R (Some i) u -> type (dnode (inum (inodes u i))) = T_DIR -> (exists f, inode_ok f = true ∧ R f = 0) ->
  found i R (dir_find (disk_bytes g s (inum (inodes u i))) name) P -> rok (dirlookup i name) u P.
Proof using Htree Hlay Hlen Hmeta.
  intros Hu Hdir Hslot HP. destruct (it_held _ _ _ Hu i eq_refl) as (Hok & Hr & Hlv & Hv & _).
  pose proof (it_valid _ _ _ Hu i Hok Hr Hlv Hv) as (Hty & _ & _ & _ & Hsz & _). unfold dirlookup. apply rok_inode; [done|].
  rewrite Hty, Hdir. cbn [negb]. apply rok_bind, rok_mod. set (u1 := u <| local := _ |>).
  apply (rok_dirlookup_loop i R name (inum (inodes u i)) P Hlv Hdir Hslot _ 0%nat u1); [by apply itab_local|done|done| |done].
  unfold dirents. rewrite length_fmap, length_seqZ. unfold disk_bytes. rewrite length_fmap, length_seqZ, Hsz.
  pose proof (df_size _ _ _ (tr_file _ _ _ Htree _ Hlv)) as [Hsz0 _]. unfold sizeof_dirent. split; [lia|]. rewrite Z2Nat.id by done.
  assert (isize (dnode (inum (inodes u i))) / 16 <= isize (dnode (inum (inodes u i)))) by (apply Z.div_le_upper_bound; lia). lia.
Qed.

(** ** Paths *)
Context (Hslots : exists a b, a ≠ b ∧ inode_ok a = true ∧ inode_ok b = true ∧ R0 a = 0 ∧ R0 b = 0).

Lemma slot_left i : exists f, inode_ok f = true ∧ bump i R0 f = 0.
Proof using Hslots.
  destruct Hslots as (a & b & Hne & Ha & Hb & H1 & H2). unfold bump. destruct (decide (a = i)) as [->|].
  - exists b. by rewrite upd_ne.
  - exists a. by rewrite upd_ne.
Qed.
Lemma drop_bump i R : drop_ref i (bump i R) = R.
Proof.
  apply functional_extensionality. intros j. unfold drop_ref, bump. rewrite upd_eq. destruct (decide (j = i)) as [->|]; [rewrite upd_eq; lia|by rewrite !upd_ne].
Qed.
Lemma drop_bump_2 i j R : drop_ref i (bump j (bump i R)) = bump j R.
Proof.
  apply functional_extensionality. intros k. unfold drop_ref, bump, upd. repeat case_decide; simplify_eq; lia.
Qed.
Lemma dir_find_take c e : dir_find c (take (Z.to_nat DIRSIZ) e) = dir_find c e.
Proof. unfold dir_find, names. by rewrite padded_take. Qed.

(** What [namex] promises for a path that leads to [r]. *)
Definition led (r : option Z) (P : Z * list Z -> U -> Prop) : Prop :=
  match r with
  | Some n' => forall j nm u', inode_ok j = true -> itab (bump j R0) None u' -> inum (inodes u' j) = n' -> P (j, nm) u'
  | None => forall nm u', itab R0 None u' -> P (-1, nm) u'
  end.
Lemma rok_namex_loop P : forall k path i u name, (length path < k)%nat -> inode_ok i = true -> itab (bump i R0) None u -> live (inum (inodes u i)) ->
  led (follow g s (elements path) (inum (inodes u i))) P -> rok (namex_loop k i path false name) u P.
Proof using Htree Hlay Hlen Hmeta Hslots.
  induction k as [|k IH]; intros path i u name Hk Hok Hu Hlv HP; [lia|]. cbn [namex_loop]. pose proof (skipelem_spec path) as Hsk.
  destruct (skipelem path) as [[path' name']|]; [|rewrite Hsk in HP; apply rok_ret; by apply HP].
  destruct Hsk as (e & He & -> & Hlt & _). rewrite He in HP. cbn [follow] in HP. set (n := inum (inodes u i)) in *.
  assert (Hr : 0 < bump i R0 i) by (pose proof (it_base _ _ _ Hu i); unfold bump in *; rewrite upd_eq in *; lia).
  assert (Hr0 : R0 i < bump i R0 i) by (unfold bump; rewrite upd_eq; lia).
  apply rok_bind. apply (rok_ilock i (bump i R0)); [done..|]. intros u1 Hu1 Hn1. apply rok_inode; [done|].
  destruct (it_held _ _ _ Hu1 i eq_refl) as (_ & _ & Hl1 & Hv1 & _). pose proof (it_valid _ _ _ Hu1 i Hok Hr Hl1 Hv1) as (Hty & _).
  rewrite Hty, (Hn1 i). fold n. destruct (Z.eqb_spec (type (dnode n)) T_DIR) as [Hdir|Hnd]; cbn [negb andb].
  2:{ apply rok_bind. apply (rok_iunlockput i (bump i R0)); [done..|]. intros u2 Hu2 _. rewrite drop_bump in Hu2. apply rok_ret. by apply HP. }
  apply rok_bind. apply (rok_dirlookup i (bump i R0)); [done|by rewrite (Hn1 i)|apply slot_left|]. rewrite (Hn1 i), dir_find_take. fold n.
  destruct (dir_find (disk_bytes g s n) e) as [n'|] eqn:Ef; cbn [found]; cbn in HP.
  - intros j off u2 Hj Hu2 Hnj. cbn [fst]. assert ((j =? -1) = false) as -> by (apply inode_ok_range in Hj; lia).
    apply rok_bind. apply (rok_iunlockput i (bump j (bump i R0))); [|done|].
    { unfold bump. destruct (decide (i = j)) as [->|]; [rewrite !upd_eq; lia|rewrite upd_ne, upd_eq by done; lia]. }
    intros u3 Hu3 Hn3. rewrite drop_bump_2 in Hu3. apply IH; [lia|done|done| |].
    + rewrite Hn3, Hnj. eapply find_live; [exact Htree|exact Hlv|done|exact Ef].
    + by rewrite Hn3, Hnj.
  - intros u2 Hu2. cbn [fst]. change (-1 =? -1) with true. apply rok_bind. apply (rok_iunlockput i (bump i R0)); [done..|].
    intros u3 Hu3 _. rewrite drop_bump in Hu3. apply rok_ret. by apply HP.
Qed.

Context (Hc0 : inode_ok c0 = true ∧ 0 < R0 c0 ∧ live (N c0)).
Lemma slot_any : exists f, inode_ok f = true ∧ R0 f = 0.
Proof using Hslots. destruct Hslots as (a & b & _ & Ha & _ & H1 & _). eauto. Qed.

(** [namei] finds the inode the path names. *)
Lemma rok_namei path u (P : Z -> U -> Prop) : itab R0 None u ->
  match resolve g s (N c0) path with
  | Some n' => forall j u', inode_ok j = true -> itab (bump j R0) None u' -> inum (inodes u' j) = n' -> P j u'
  | None => forall u', itab R0 None u' -> P (-1) u'
  end -> rok (namei path) u P.
Proof using Htree Hlay Hlen Hmeta Hslots Hc0.
  intros Hu HP. destruct Hc0 as (Hok & Hr & Hlv). unfold namei. apply rok_bind. unfold namex. apply rok_bind.
  assert (Hgo : forall i u', inode_ok i = true -> itab (bump i R0) None u' -> inum (inodes u' i) = path_start (N c0) path -> live (path_start (N c0) path) ->
    rok (namex_loop (S (length path)) i path false []) u' (fun r u'' => rok (mret r.1) u'' P)).
  { intros i u' Hi Hu' Hn Hl. apply rok_namex_loop; [lia|done|done|by rewrite Hn|]. rewrite Hn. fold (resolve g s (N c0) path).
    destruct (resolve g s (N c0) path); [intros j nm u2 H1 H2 H3|intros nm u2 H1]; apply rok_ret; cbn; by apply HP. }
  assert (Hcwd : path_start (N c0) path = N c0 -> rok (c ← ugets cwd; idup c) u (fun r u' => rok (namex_loop (S (length path)) r path false []) u' (fun r u'' => rok (mret r.1) u'' P))).
  { intros E. apply rok_bind, rok_gets. rewrite (it_cwd _ _ _ Hu). apply (rok_idup c0 R0 None); [done..|]. intros u' Hu' Hn.
    apply Hgo; [done|done| |by rewrite E]. rewrite Hn, E. by apply (it_num _ _ _ Hu). }
  destruct path as [|c path]; [by apply Hcwd|]. cbn [path_start] in *. destruct (c =? slash); [|by apply Hcwd].
  apply (rok_iget ROOTINO R0 None); [apply Htree|done|apply slot_any|]. intros i u' Hi Hu' Hn. apply Hgo; [done|done|done|apply Htree].
Qed.
End lookup.

(** ** Path lookup as an operation *)

(** What path lookup depends on: the blocks of the disk, which inodes names can lead to,
    the counts and numbers in the inode table, and the entry of the current directory. *)
Record world := World {
  tw_cont : Z -> list Z; tw_sb : superblock; tw_live : Z -> Prop; tw_refs : Z -> Z; tw_nums : Z -> Z; tw_cwd : Z
}.
Record world_ok (lst : Z) (w : world) : Prop := {
  wo_tree : tree_ok (tw_cont w) (tw_sb w) (tw_live w);
  wo_layout : layout lst (tw_sb w);
  wo_len : forall b, length (tw_cont w b) = Z.to_nat BSIZE;
  wo_meta : forall b, 0 <= b < datastart (tw_sb w) -> marked (tw_cont w) (tw_sb w) b = true;
  wo_slots : exists a b, a ≠ b ∧ inode_ok a = true ∧ inode_ok b = true ∧ tw_refs w a = 0 ∧ tw_refs w b = 0;
  wo_cwd : inode_ok (tw_cwd w) = true ∧ 0 < tw_refs w (tw_cwd w) ∧ tw_live w (tw_nums w (tw_cwd w))
}.
(** The state [u] of the inode layer fits the world, up to the counts [R] and the locked inode [L]. *)
Definition fits {X} (p : Z) (w : world) (R : Z -> Z) (L : option Z) (u : ist X) : Prop :=
  itab p (tw_cont w) (tw_sb w) (tw_live w) (tw_refs w) (tw_nums w) (tw_cwd w) R L u.
(** The inode a path names. *)
Definition named (w : world) (path : list Z) : option Z := resolve (tw_cont w) (tw_sb w) (tw_nums w (tw_cwd w)) path.

Section operation.
Context {X : Type} `{!Copy X} (p lst lsz : Z) (Hlsz : lsz <= LOGSIZE).
Abbreviation U := (ist X).
Implicit Types (u : U) (t : ftop U) (v : bview).

(** Ending an operation that has written nothing. *)
Lemma vok_end_ro D W t v g u :
  trep p lst lsz D W t v (ro g u) -> head_n (D lst) = 0 -> length (D lst) = Z.to_nat BSIZE ->
  vok p end_op t v (fun _ t' v' => quiet lst lsz t' v' ∧ up t' = u ∧ vcont v' = g ∧ vdisk v' = D).
Proof.
  intros Ht Hh Hl. pose proof (r_log _ _ _ _ _ _ _ _ Ht) as Hlog. pose proof (wf_n _ (r_wf _ _ _ _ _ _ _ _ Ht)) as Hn.
  assert (H0 : lh_n (lg t) = 0). { apply (f_equal (fun l => Z.of_nat (length l))) in Hlog. rewrite length_logged in Hlog by lia. done. }
  eapply vok_mono; [by eapply vok_end_op|]. intros [] t' v' (Hq & Hup & [W1 _ W3 _ _]). unfold committed_writes in *. rewrite H0 in W1, W3. cbn in W1, W3.
  rewrite W1, W3, Hup. split; [done|]. by rewrite (r_up _ _ _ _ _ _ _ _ Ht), (r_cont _ _ _ _ _ _ _ _ Ht), (r_disk _ _ _ _ _ _ _ _ Ht).
Qed.

(** What is found, with the counts in the table. *)
Definition lookup_post (w : world) (path : list Z) (ip : Z) u : Prop :=
  match named w path with
  | Some n => inode_ok ip = true ∧ fits p w (bump ip (tw_refs w)) None u ∧ inum (inodes u ip) = n
  | None => ip = -1 ∧ fits p w (tw_refs w) None u
  end.
Lemma namei_txn D W w u path : world_ok lst w -> fits p w (tw_refs w) None u ->
  rok p lst lsz D W (tw_cont w) (namei path) u (lookup_post w path).
Proof.
  intros [] Hu. eapply (rok_namei p lst lsz D W (tw_cont w) (tw_sb w) (tw_live w)); try done.
  unfold lookup_post. fold (named w path). by destruct (named w path).
Qed.

(** C6: Path lookup is right.  Let the files of the disk be in order ([world_ok]: every
    inode that names lead to is allocated, linked and has its blocks, directories hold
    entries for such inodes) and the table of in-memory inodes fit them, with two entries
    free.  Then [namei], as an operation of its own, returns; the inode it returns is the
    one the path names, read element by element from the root or from the current
    directory, in directories read as tables of names of at most 14 bytes.  Its entry has
    one more reference; if nothing has that name the result is 0.  Nothing is locked
    afterwards, all other counts are as before, and no block has changed, neither in the
    cache nor on the disk. *)
Theorem namei_spec c t v w path :
  brep c v -> quiet lst lsz t v -> world_ok lst w -> vcont v = tw_cont w -> fits p w (tw_refs w) None (up t) ->
  exists ip c' t' v', (begin_op;; ip ← namei path; end_op;; mret ip) (FS c p t) = Ok ip (FS c' p t')
    ∧ brep c' v' ∧ quiet lst lsz t' v' ∧ vcont v' = tw_cont w ∧ dsk c' = dsk c
    ∧ match named w path with
      | Some n => inode_ok ip = true ∧ inum (inodes (up t') ip) = n ∧ fits p w (bump ip (tw_refs w)) None (up t')
      | None => ip = -1 ∧ fits p w (tw_refs w) None (up t')
      end.
Proof.
  intros Hb Hq Hw Hv Hu.
  assert (Hrun : vok p (begin_op;; ip ← namei path; end_op;; mret ip) t v (fun ip t' v' => quiet lst lsz t' v' ∧ vcont v' = tw_cont w ∧ vdisk v' = vdisk v
    ∧ lookup_post w path ip (up t'))).
  { apply vok_bind. eapply vok_mono; [by apply vok_begin_op|]. intros [] t0 v0 [-> Ht0]. unfold first_txn in Ht0. rewrite Hv in Ht0.
    pose proof (namei_txn _ _ w (up t) path Hw Hu _ _ Ht0) as Hn.
    apply vok_bind. eapply vok_mono; [exact Hn|]. intros ip t1 v1 (x & Ht1 & u' & -> & Hpost).
    pose proof (vok_end_ro _ _ _ _ _ _ Ht1 (q_clear _ _ _ _ Hq) (q_len _ _ _ _ Hq)) as He.
    apply vok_bind. eapply vok_mono; [exact He|]. intros r2 t2 v2. intros (Hq2 & <- & Hc2 & Hd2). by apply vok_ret. }
  destruct (Hrun c Hb) as (ip & c' & t' & v' & H1 & H2 & H3 & H4 & H5 & H6). exists ip, c', t', v'. split; [done|]. split; [done|]. split; [done|]. split; [done|].
  split; [by rewrite (br_disk _ _ H2), H5, (br_disk _ _ Hb)|]. unfold lookup_post in H6. destruct (named w path); naive_solver.
Qed.
End operation.

(** ** A disk with a directory *)
Module SmallTree.
(** An executable: the header, one program header for four bytes at address 0, of
    8192 bytes in memory, and the four bytes. *)
Definition le (n : nat) (v : Z) : list Z := (fun i => u8 (Z.shiftr v (8 * i))) <$> seqZ 0 (Z.of_nat n).
Definition program : list Z :=
  le 4 0x464C457F ++ replicate 12 0 ++ le 2 2 ++ le 2 243 ++ le 4 1 ++ le 8 0 ++ le 8 64 ++ le 8 0 ++ le 4 0
  ++ le 2 64 ++ le 2 56 ++ le 2 1 ++ le 2 0 ++ le 2 0 ++ le 2 0
  ++ le 4 1 ++ le 4 7 ++ le 8 120 ++ le 8 0 ++ le 8 0 ++ le 8 4 ++ le 8 8192 ++ le 8 4096
  ++ [0x13; 0; 0; 0].
(** The root directory, inode 1, in block 46: ".", ".." and "a", which is inode 2, in block 47. *)
Definition root_dir : list Z := mk_dirent 1 (padded [46]) ++ mk_dirent 1 (padded [46; 46]) ++ mk_dirent 2 (padded [97]).
Definition root_inode : dinode := Dinode T_DIR 0 0 1 48 (fun i => if i =? 0 then 46 else 0).
Definition prog_inode : dinode := Dinode T_FILE 0 0 1 124 (fun i => if i =? 0 then 47 else 0).
Definition fill (bs : list Z) : list Z := bs ++ replicate (Z.to_nat BSIZE - length bs) 0.
Definition super : superblock := Superblock FSMAGIC 1000 954 200 30 2 32 45.
Definition inode_block : list Z := put_dinode (put_dinode zero_block (dinode_off 1) root_inode) (dinode_off 2) prog_inode.
Definition disk (b : Z) : list Z :=
  if b =? 45 then fill (replicate 6 255)
  else if b =? 32 then inode_block
  else if b =? 46 then fill root_dir
  else if b =? 47 then fill program else zero_block.
(** The current directory is the root, entry 0 of the table. *)
Definition user : ist (list Z) :=
  Ist false (fun i => Inode ROOTDEV 1 (if i =? 0 then 1 else 0) (Sleeplock 0 false "inode" 0) 0 root_inode) super 0 [] [].
Definition is_live (n : Z) : Prop := n = 1 ∨ n = 2.
Definition inode_of (n : Z) : dinode := if n =? 1 then root_inode else prog_inode.
Definition content (n : Z) : list Z := if n =? 1 then root_dir else program.

Lemma inode_of_ok n : dinode_ok (inode_of n).
Proof. unfold inode_of. destruct (n =? 1); (split; [done..|]; intros i _; cbn; by destruct (i =? 0)). Qed.
Lemma bytes_of_prefix (bs r : list Z) : byte_at (bs ++ r) <$> seqZ 0 (Z.of_nat (length bs)) = bs.
Proof.
  apply list_eq_same_length with (length bs); [done|by rewrite length_fmap, length_seqZ; lia|].
  intros i x y Hi. rewrite list_lookup_fmap. intros (o & Ho & ->)%fmap_Some Hy. apply lookup_seqZ in Ho as [-> _].
  unfold byte_at. assert ((0 <=? 0 + Z.of_nat i) = true) as -> by lia. rewrite Z.add_0_l, Nat2Z.id, lookup_app_l by done. by rewrite Hy.
Qed.
Lemma tree_disk_len b : length (disk b) = Z.to_nat BSIZE.
Proof.
  unfold disk. destruct (b =? 45); [done|]. destruct (b =? 32); [unfold inode_block; rewrite !length_put_dinode; apply length_zero_block|].
  destruct (b =? 46); [by vm_compute|]. destruct (b =? 47); [by vm_compute|]. apply length_zero_block.
Qed.
Lemma tree_disk_wf : log_wf (disk_log (fresh_log 2 30) disk).
Proof. apply wf_load_clear; [done|]. vm_compute. done. Qed.
Lemma tree_booted : exists c t v, brep c v ∧ quiet 2 30 t v ∧ up t = user ∧ forall b, b ≠ 2 -> vcont v b = disk b.
Proof.
  destruct (reboot_quiet 1 user disk 2 30 tree_disk_wf (tree_disk_len 2)) as (c & t & v & _ & H2 & H3 & _ & H5 & _ & H6).
  exists c, t, v. split_and!; try done. apply H6. vm_compute. done.
Qed.

(** Everything but the header of the log is known. *)
Section known.
Context (g : Z -> list Z) (Hg : forall b, b ≠ 2 -> g b = disk b).
Abbreviation dnode := (disk_inode g super).

Lemma dnode_is n : is_live n -> same_dinode (dnode n) (inode_of n).
Proof using Hg.
  intros Hn. unfold disk_inode. change (IBLOCK n super) with (n / 16 + 32).
  assert (n / 16 + 32 = 32) as -> by (destruct Hn as [-> | ->]; done). rewrite Hg by done. change (disk 32) with inode_block.
  unfold inode_block. destruct Hn as [-> | ->]; cbn [inode_of Z.eqb Pos.eqb].
  - eapply same_dinode_trans; [|apply (get_put_dinode zero_block (dinode_off 1)); [by apply (inode_of_ok 1)|done|by rewrite length_zero_block]].
    apply get_dinode_ext. intros j Hj. apply byte_put_dinode_ne. left. change (dinode_off 1) with 64 in Hj. change (dinode_off 2) with 128. unfold sizeof_dinode in Hj. lia.
  - apply get_put_dinode; [by apply (inode_of_ok 2)|done|]. by rewrite length_put_dinode, length_zero_block.
Qed.
Lemma dnode_addrs n i : is_live n -> 0 <= i <= NDIRECT -> addrs (dnode n) i = if i =? 0 then 45 + n else 0.
Proof using Hg. intros Hn Hi. destruct (dnode_is n Hn) as (_ & _ & _ & _ & _ & Ha). rewrite Ha by done. by destruct Hn as [-> | ->]. Qed.
Lemma size_live n : is_live n -> isize (dnode n) = Z.of_nat (length (content n)).
Proof using Hg. intros Hn. destruct (dnode_is n Hn) as (_ & _ & _ & _ & -> & _). by destruct Hn as [-> | ->]. Qed.
Lemma type_live n : is_live n -> type (dnode n) = (if n =? 1 then T_DIR else T_FILE) ∧ nlink (dnode n) = 1.
Proof using Hg. intros Hn. destruct (dnode_is n Hn) as (-> & _ & _ & -> & _). by destruct Hn as [-> | ->]. Qed.
Lemma dnode_fblk n bn : is_live n -> 0 <= bn -> fblk g (dnode n) bn = if bn =? 0 then 45 + n else 0.
Proof using Hg.
  intros Hn Hb. unfold fblk. destruct (Z.ltb_spec bn NDIRECT); [apply dnode_addrs; [done|lia]|].
  rewrite dnode_addrs by (done || (unfold NDIRECT; lia)). unfold NDIRECT in *. assert ((bn =? 0) = false) as -> by lia. done.
Qed.
Lemma dnode_bytes n : is_live n -> disk_bytes g super n = content n.
Proof using Hg.
  intros Hn. unfold disk_bytes. rewrite size_live by done. rewrite <- (bytes_of_prefix (content n) (replicate (Z.to_nat BSIZE - length (content n)) 0)) at 2.
  apply list_fmap_ext. intros i o Ho%list_elem_of_lookup_2%elem_of_seqZ. unfold disk_byte.
  assert (Hl : Z.of_nat (length (content n)) < BSIZE) by (by destruct Hn as [-> | ->]).
  rewrite Z.div_small, Z.mod_small, dnode_fblk by (done || lia). change (0 =? 0) with true. cbv iota.
  assert ((45 + n =? 0) = false) as -> by (destruct Hn; lia). by destruct Hn as [-> | ->]; cbn [Z.add Pos.add Pos.succ Pos.add_carry]; rewrite Hg.
Qed.

Lemma marked_low b : 0 <= b < 48 -> marked g super b = true.
Proof using Hg.
  intros Hb. unfold marked, BBLOCK. change BPB with 8192. rewrite Z.div_small, Z.mod_small, Z.add_0_l by lia. cbn [bmapstart super]. rewrite Hg by done.
  assert (H : forallb (bit_set (disk 45)) (seqZ 0 48) = true) by (by vm_compute). rewrite forallb_forall in H.
  apply H, list_elem_of_In, elem_of_seqZ. lia.
Qed.
Lemma file_live n : is_live n -> disk_file g super (dnode n).
Proof using Hg.
  intros Hn. assert (Hr : 46 <= 45 + n < 48) by (destruct Hn; lia). pose proof (dnode_addrs n NDIRECT Hn ltac:(unfold NDIRECT; lia)) as Hi.
  change (NDIRECT =? 0) with false in Hi. cbv iota in Hi. pose proof (size_live n Hn) as Hs.
  assert (Hsz : 0 <= isize (dnode n) <= 124) by (rewrite Hs; by destruct Hn as [-> | ->]). split.
  - intros bn Hb. rewrite dnode_fblk by (done || lia). destruct (bn =? 0); [|done]. intros _. change (datastart super) with 46. cbn [sb_size super].
    split; [lia|]. apply marked_low. lia.
  - by rewrite Hi.
  - intros bn bn' Hb Hb'. rewrite !dnode_fblk by (done || lia). destruct (Z.eqb_spec bn 0), (Z.eqb_spec bn' 0); lia.
  - change (MAXFILE * BSIZE) with 274432. lia.
  - intros bn Hb Hlt. change BSIZE with 1024 in Hlt. rewrite dnode_fblk by done. assert ((bn =? 0) = true) as -> by lia. lia.
Qed.

Definition world1 : world := World g super is_live (fun i => if i =? 0 then 1 else 0) (fun _ => 1) 0.
Lemma tree1 : tree_ok g super is_live.
Proof using Hg.
  split.
  - by left.
  - intros n Hn. cbn [ninodes super]. destruct Hn; lia.
  - intros n Hn. destruct (type_live n Hn) as [-> _]. by destruct (n =? 1).
  - intros n Hn. by destruct (type_live n Hn) as [_ ->].
  - apply file_live.
  - intros n Hn Ht. rewrite (size_live n Hn). destruct (type_live n Hn) as [E _]. by destruct Hn as [-> | ->]; [|rewrite E in Ht].
  - intros n de Hn Ht Hde Hne. rewrite dnode_bytes in Hde by done. destruct (type_live n Hn) as [E _]. destruct Hn as [-> | ->]; [|by rewrite E in Ht].
    assert (H : forallb (fun de => (de_inum de =? 1) || (de_inum de =? 2)) (dirents root_dir) = true) by (by vm_compute).
    rewrite forallb_forall in H. specialize (H de ltac:(by apply list_elem_of_In)). unfold is_live. lia.
Qed.
Lemma layout1 : layout 2 super.
Proof. split; vm_compute; repeat split; done. Qed.
Lemma world1_ok : (length (g 2) = Z.to_nat BSIZE) -> world_ok 2 world1.
Proof using Hg.
  intros H2. split; cbn [world1 tw_cont tw_sb tw_live tw_refs tw_nums tw_cwd].
  - apply tree1.
  - apply layout1.
  - intros b. destruct (decide (b = 2)) as [->|]; [done|]. by rewrite Hg, tree_disk_len.
  - intros b Hb. change (datastart super) with 46 in Hb. apply marked_low. lia.
  - by exists 1, 2.
  - split_and!; [done|done|by left].
Qed.
Lemma user_fits : fits 1 world1 (tw_refs world1) None user.
Proof using Hg.
  split; cbn [world1 tw_cont tw_sb tw_live tw_refs tw_nums tw_cwd user itable_lock sb cwd inodes ref i_dev inum i_valid i_lock]; try done.
  - intros i. destruct (i =? 0); lia.
  - intros i j Hi Hj. destruct (Z.eqb_spec i 0), (Z.eqb_spec j 0); lia.
Qed.
Lemma named1 : named world1 [47; 97] = Some 2.
Proof using Hg.
  unfold named, resolve. change (elements [47; 97]) with [[97]]. change (path_start _ [47; 97]) with 1. cbn [follow world1 tw_cont tw_sb].
  rewrite dnode_bytes by (by left). destruct (type_live 1 (or_introl eq_refl)) as [-> _]. by vm_compute.
Qed.
End known.
End SmallTree.

(** The path "/a" names inode 2. *)
Lemma namei_spec_witness : exists c (t : ftop (ist (list Z))) ip c' t',
  (begin_op;; ip ← namei (Copy0 := SmallFs.list_copy) [47; 97]; end_op;; mret ip) (FS c 1 t) = Ok ip (FS c' 1 t') ∧ inum (inodes (up t') ip) = 2.
Proof.
  destruct SmallTree.tree_booted as (c & t & v & Hb & Hq & Hu & Hd).
  assert (H2 : length (vcont v 2) = Z.to_nat BSIZE).
  { rewrite (br_clean _ _ Hb) by (by rewrite (q_refs _ _ _ _ Hq), lookup_empty). apply (q_len _ _ _ _ Hq). }
  set (w := SmallTree.world1 (vcont v)).
  destruct (namei_spec (X := list Z) (Copy0 := SmallFs.list_copy) 1 2 30 c t v w [47; 97] Hb Hq (SmallTree.world1_ok _ Hd H2) eq_refl) as (ip & c' & t' & v' & H3 & _ & _ & _ & _ & H4).
  { rewrite Hu. by apply SmallTree.user_fits. }
  exists c, t, ip, c', t'. split; [exact H3|].
  assert (En : named w [47; 97] = Some 2) by exact (SmallTree.named1 _ Hd). rewrite En in H4. exact (proj1 (proj2 H4)).
Defined.
