(* ===== verification/KFile.v ===== *)
(** * KFile: open files, kernel/file.c, and pipealloc of kernel/pipe.c

    The state above the file system: the table of open files and, for every process
    (by its identifier), its array of open files.  A [struct file *] is an index into
    the table, [-1] for 0.

    The pipes, the devices of [devsw] and the memory of the running process belong to
    other components, which are reached through the class [Peers]. *)

From S2P Require Import Prelude Bytes SleepLock Bio Log Fs.

(** ** param.h, file.h *)
Definition NOFILE : Z := 16.
Definition NFILE : Z := 100.
Definition NDEV : Z := 10.

Inductive ftype := FD_NONE | FD_PIPE | FD_INODE | FD_DEVICE.
#[export] Instance ftype_eq_dec : EqDecision ftype.
Proof. solve_decision. Defined.
Record file := File {
  f_type : ftype; f_ref : Z; readable : bool; writable : bool; f_pipe : Z; f_ip : Z; f_off : Z; f_major : Z
}.
#[export] Instance file_eta : Eta file := fun r =>
  File (f_type r) (f_ref r) (readable r) (writable r) (f_pipe r) (f_ip r) (f_off r) (f_major r).

(** ** What the file layer calls *)
Class Peers (Y : Type) := {
  (** proc.c and vm.c *)
  peer_copyout : bool -> Z -> list Z -> Y -> Z * Y;
  peer_copyin : bool -> Z -> Z -> Y -> Z * list Z;
  (** [copyinstr] of at most [max] bytes from a user address: the string *)
  peer_copyinstr : Z -> Z -> Y -> option (list Z);
  (** the padding of [struct stat] *)
  stat_pad : list Z;
  (** pipe.c; [peer_pipe_new] is [kalloc] and the set-up of the [struct pipe], -1 if there
      is no memory *)
  peer_pipe_new : M Y Z;
  peer_piperead : Z -> Z -> Z -> M Y Z;
  peer_pipewrite : Z -> Z -> Z -> M Y Z;
  peer_pipeclose : Z -> bool -> M Y unit;
  (** [devsw], [None] for 0 *)
  dev_read : Z -> option (bool -> Z -> Z -> M Y Z);
  dev_write : Z -> option (bool -> Z -> Z -> M Y Z)
}.

Record fstate (Y : Type) := FState {
  ftable_lock : bool; files : Z -> file; ofile : Z -> Z -> Z; regs : Z -> Z; peer : Y
}.
Arguments FState {Y}.
Arguments ftable_lock {Y}.
Arguments files {Y}.
Arguments ofile {Y}.
Arguments regs {Y}.
Arguments peer {Y}.
#[export] Instance fstate_eta Y : Eta (fstate Y) := fun r =>
  FState (ftable_lock r) (files r) (ofile r) (regs r) (peer r).
#[export] Instance fstate_copy Y `{!Peers Y} : Copy (fstate Y) := {|
  either_copyout u a bs x := let (r, y) := peer_copyout u a bs (peer x) in (r, x <| peer := y |>);
  either_copyin u a n x := peer_copyin u a n (peer x) |}.

Section ops.
Context {Y : Type} `{!Peers Y}.
Abbreviation X := (fstate Y).
Abbreviation St := (fs (ftop (ist X))).
Abbreviation K := (M St).

Definition xgets {A} (f : X -> A) : K A := ugets (fun u => f (ext u)).
Definition xmod (f : X -> X) : K unit := umod (fun u => u <| ext ::= f |>).
Definition ftablelk : lens St bool :=
  Lens (fun s => ftable_lock (ext (up (top s))))
       (fun f s => s <| top ::= fun t => t <| up ::= fun u => u <| ext ::= fun x => x <| ftable_lock ::= f |> |> |> |>).
(** Running an operation of a peer. *)
Definition on_peer {A} (m : M Y A) : K A := fun s =>
  match m (peer (ext (up (top s)))) with
  | Ok a y => Ok a (s <| top ::= fun t => t <| up ::= fun u => u <| ext ::= fun x => x <| peer := y |> |> |> |>)
  | Panic msg => Panic msg
  | OutOfBounds => OutOfBounds
  | Spin => Spin
  | NoFuel => NoFuel
  | Callee => Callee
  end.

Definition file_ok (f : Z) : bool := (0 <=? f) && (f <? NFILE).
Definition get_file (f : Z) : K file := if file_ok f then xgets (fun x => files x f) else out_of_bounds.
Definition set_file (f : Z) (g : file -> file) : K unit :=
  if file_ok f then xmod (fun x => x <| files ::= fun t => upd t f (g (t f)) |>) else out_of_bounds.

(** ** file.c *)
Definition fileinit : K unit := xmod (fun x => x <| ftable_lock := false |>).

(** The first entry with no reference. *)
Fixpoint find_file (k : nat) (f : Z) (t : Z -> file) : option Z :=
  match k with
  | O => None
  | S k' => if f_ref (t f) =? 0 then Some f else find_file k' (f + 1) t
  end.
Definition filealloc : K Z :=
  acquire_spin ftablelk;;
  t ← xgets files;
  match find_file (Z.to_nat NFILE) 0 t with
  | Some f =>
      set_file f (fun p => p <| f_ref := 1 |>);;
      release_spin ftablelk;;
      mret f
  | None =>
      release_spin ftablelk;;
      mret (-1)
  end.

Definition filedup (f : Z) : K Z :=
  acquire_spin ftablelk;;
  p ← get_file f;
  if f_ref p <? 1 then panic "filedup" else
  set_file f (fun p => p <| f_ref ::= Z.succ |>);;
  release_spin ftablelk;;
  mret f.

Definition fileclose (f : Z) : K unit :=
  acquire_spin ftablelk;;
  p ← get_file f;
  if f_ref p <? 1 then panic "fileclose" else
  set_file f (fun p => p <| f_ref ::= Z.pred |>);;
  ff ← get_file f;
  if 0 <? f_ref ff then release_spin ftablelk else
  set_file f (fun p => p <| f_ref := 0 |> <| f_type := FD_NONE |>);;
  release_spin ftablelk;;
  match f_type ff with
  | FD_PIPE => on_peer (peer_pipeclose (f_pipe ff) (writable ff))
  | FD_INODE | FD_DEVICE => begin_op;; iput (f_ip ff);; end_op
  | FD_NONE => mret tt
  end.

(** [struct stat] *)
Definition stat_bytes (st : Z * Z * Z * Z * Z) : list Z :=
  let '(dev, ino, ty, nl, size) := st in
  put16 (put16 (put32 (put32 (replicate 12 0) 0 dev) 4 ino) 8 ty) 10 nl ++ stat_pad ++ put_le 8 (replicate 8 0) 0 size.

(** [copyout(p->pagetable, addr, bytes)] *)
Definition copyout_user (addr : Z) (bs : list Z) : K Z := copy_to (Address true addr) 0 bs.

Definition filestat (f addr : Z) : K Z :=
  p ← get_file f;
  match f_type p with
  | FD_INODE | FD_DEVICE =>
      ilock (f_ip p);;
      st ← stati (f_ip p);
      iunlock (f_ip p);;
      r ← copyout_user addr (stat_bytes st);
      if r <? 0 then mret (-1) else mret 0
  | _ => mret (-1)
  end.

Definition fileread (f addr n : Z) : K Z :=
  p ← get_file f;
  if negb (readable p) then mret (-1) else
  match f_type p with
  | FD_PIPE => on_peer (peer_piperead (f_pipe p) addr n)
  | FD_DEVICE =>
      if (f_major p <? 0) || (NDEV <=? f_major p) then mret (-1) else
      match dev_read (f_major p) with
      | None => mret (-1)
      | Some rd => on_peer (rd true addr n)
      end
  | FD_INODE =>
      ilock (f_ip p);;
      p ← get_file f;
      r ← readi (f_ip p) (Address true addr) (f_off p) (u32 n);
      when (0 <? r) (set_file f (fun p => p <| f_off ::= fun o => u32 (o + r) |>));;
      iunlock (f_ip p);;
      mret r
  | FD_NONE => panic "fileread"
  end.

(** The most bytes written in one transaction. *)
Definition max_write : Z := (MAXOPBLOCKS - 1 - 1 - 2) / 2 * BSIZE.
(** The loop of [filewrite]: the number of bytes written. *)
Fixpoint filewrite_loop (k : nat) (f addr i n : Z) : K Z :=
  match k with
  | O => no_fuel
  | S k' =>
      if negb (i <? n) then mret i else
      let n1 := Z.min (n - i) max_write in
      begin_op;;
      p ← get_file f;
      ilock (f_ip p);;
      p ← get_file f;
      r ← writei (f_ip p) (Address true (u64 (addr + i))) (f_off p) n1;
      when (0 <? r) (set_file f (fun p => p <| f_off ::= fun o => u32 (o + r) |>));;
      iunlock (f_ip p);;
      end_op;;
      if negb (r =? n1) then mret i else filewrite_loop k' f addr (i + r) n
  end.
Definition filewrite (f addr n : Z) : K Z :=
  p ← get_file f;
  if negb (writable p) then mret (-1) else
  match f_type p with
  | FD_PIPE => on_peer (peer_pipewrite (f_pipe p) addr n)
  | FD_DEVICE =>
      if (f_major p <? 0) || (NDEV <=? f_major p) then mret (-1) else
      match dev_write (f_major p) with
      | None => mret (-1)
      | Some wr => on_peer (wr true addr n)
      end
  | FD_INODE =>
      i ← filewrite_loop (S (Z.to_nat n)) f addr 0 n;
      mret (if i =? n then n else -1)
  | FD_NONE => panic "filewrite"
  end.

(** ** pipealloc *)
Definition pipealloc_bad (f0 f1 : Z) : K (option (Z * Z)) :=
  when (negb (f0 =? -1)) (fileclose f0);;
  when (negb (f1 =? -1)) (fileclose f1);;
  mret None.
(** The two files, [None] for the result -1. *)
Definition pipealloc : K (option (Z * Z)) :=
  f0 ← filealloc;
  if f0 =? -1 then pipealloc_bad f0 (-1) else
  f1 ← filealloc;
  if f1 =? -1 then pipealloc_bad f0 f1 else
  pi ← on_peer peer_pipe_new;
  if pi =? -1 then pipealloc_bad f0 f1 else
  set_file f0 (fun p => p <| f_type := FD_PIPE |> <| readable := true |> <| writable := false |> <| f_pipe := pi |>);;
  set_file f1 (fun p => p <| f_type := FD_PIPE |> <| readable := false |> <| writable := true |> <| f_pipe := pi |>);;
  mret (Some (f0, f1)).
End ops.
