(* ===== verification/SysFile.v ===== *)
(** * SysFile: file system calls, kernel/sysfile.c, and their arguments, kernel/syscall.c

    The arguments of a system call are the saved registers a0 to a5 of the process.
    Results are the C values before the conversion to [uint64].  [sys_exec]
    is in [Exec], beside [exec]. *)

From S2P Require Import Prelude Bytes SleepLock Bio Log Fs Fcntl KFile.

Definition MAXPATH : Z := 128.

Section ops.
Context {Y : Type} `{!Peers Y}.
Abbreviation X := (fstate Y).
Abbreviation K := (M (fs (ftop (ist X)))).

(** ** syscall.c *)
Definition argraw (n : Z) : K Z :=
  if (0 <=? n) && (n <=? 5) then xgets (fun x => regs x n) else panic "argraw".
Definition argint (n : Z) : K Z := v ← argraw n; mret (i32 v).
Definition argaddr (n : Z) : K Z := argraw n.
(** The string, [None] for a negative result. *)
Definition fetchstr (addr max : Z) : K (option (list Z)) := xgets (fun x => peer_copyinstr addr max (peer x)).
Definition argstr (n max : Z) : K (option (list Z)) := addr ← argaddr n; fetchstr addr max.

(** ** Descriptors *)
Definition get_ofile (fd : Z) : K Z := pid ← gets mypid; xgets (fun x => ofile x pid fd).
Definition set_ofile (fd f : Z) : K unit :=
  pid ← gets mypid;
  xmod (fun x => x <| ofile ::= fun o => upd o pid (upd (o pid) fd f) |>).

(** The descriptor and its file, [None] for the result -1. *)
Definition argfd (n : Z) : K (option (Z * Z)) :=
  fd ← argint n;
  if (fd <? 0) || (NOFILE <=? fd) then mret None else
  f ← get_ofile fd;
  if f =? -1 then mret None else mret (Some (fd, f)).

Fixpoint fdalloc_loop (k : nat) (fd f : Z) : K Z :=
  match k with
  | O => mret (-1)
  | S k' =>
      o ← get_ofile fd;
      if o =? -1 then set_ofile fd f;; mret fd else fdalloc_loop k' (fd + 1) f
  end.
Definition fdalloc (f : Z) : K Z := fdalloc_loop (Z.to_nat NOFILE) 0 f.

Definition sys_dup : K Z :=
  a ← argfd 0;
  match a with
  | None => mret (-1)
  | Some (_, f) =>
      fd ← fdalloc f;
      if fd <? 0 then mret (-1) else
      filedup f;;
      mret fd
  end.

Definition sys_read : K Z :=
  a ← argfd 0;
  match a with
  | None => mret (-1)
  | Some (_, f) =>
      n ← argint 2;
      p ← argaddr 1;
      fileread f p n
  end.
Definition sys_write : K Z :=
  a ← argfd 0;
  match a with
  | None => mret (-1)
  | Some (_, f) =>
      n ← argint 2;
      p ← argaddr 1;
      filewrite f p n
  end.

Definition sys_close : K Z :=
  a ← argfd 0;
  match a with
  | None => mret (-1)
  | Some (fd, f) =>
      set_ofile fd (-1);;
      fileclose f;;
      mret 0
  end.

Definition sys_fstat : K Z :=
  a ← argfd 0;
  match a with
  | None => mret (-1)
  | Some (_, f) => st ← argaddr 1; filestat f st
  end.

(** ** Links *)
Definition add_nlink (ip d : Z) : K unit :=
  set_inode ip (fun p => p <| dip ::= fun n => n <| nlink ::= fun l => i16 (l + d) |> |>).

Definition link_bad (ip : Z) : K Z :=
  ilock ip;;
  add_nlink ip (-1);;
  iupdate ip;;
  iunlockput ip;;
  end_op;;
  mret (-1).
Definition sys_link : K Z :=
  old ← argstr 0 MAXPATH;
  match old with
  | None => mret (-1)
  | Some old =>
  new ← argstr 1 MAXPATH;
  match new with
  | None => mret (-1)
  | Some new =>
  begin_op;;
  ip ← namei old;
  if ip =? -1 then end_op;; mret (-1) else
  ilock ip;;
  p ← get_inode ip;
  if type (dip p) =? T_DIR then
    iunlockput ip;;
    end_op;;
    mret (-1)
  else
  add_nlink ip 1;;
  iupdate ip;;
  iunlock ip;;
  dn ← nameiparent new;
  let (dp, name) := (dn : Z * list Z) in
  if dp =? -1 then link_bad ip else
  ilock dp;;
  d ← get_inode dp;
  p ← get_inode ip;
  r ← (if negb (i_dev d =? i_dev p) then mret (-1) : K Z else dirlink dp name (inum p));
  if r <? 0 then
    iunlockput dp;;
    link_bad ip
  else
  iunlockput dp;;
  iput ip;;
  end_op;;
  mret 0
  end
  end.

Fixpoint isdirempty_loop (k : nat) (dp off : Z) : K bool :=
  match k with
  | O => no_fuel
  | S k' =>
      p ← get_inode dp;
      if negb (off <? isize (dip p)) then mret true else
      r ← readi dp Local off sizeof_dirent;
      if negb (r =? sizeof_dirent) then panic "isdirempty: readi" else
      de ← ugets local;
      if negb (de_inum de =? 0) then mret false else isdirempty_loop k' dp (off + sizeof_dirent)
  end.
Definition isdirempty (dp : Z) : K bool :=
  p ← get_inode dp;
  new_local;;
  isdirempty_loop (S (Z.to_nat (isize (dip p)))) dp (2 * sizeof_dirent).

Definition dot : list Z := [46].
Definition dotdot : list Z := [46; 46].

Definition unlink_bad (dp : Z) : K Z := iunlockput dp;; end_op;; mret (-1).
Definition sys_unlink : K Z :=
  path ← argstr 0 MAXPATH;
  match path with
  | None => mret (-1)
  | Some path =>
  begin_op;;
  dn ← nameiparent path;
  let (dp, name) := (dn : Z * list Z) in
  if dp =? -1 then end_op;; mret (-1) else
  ilock dp;;
  if (namecmp name dot =? 0) || (namecmp name dotdot =? 0) then unlink_bad dp else
  r ← dirlookup dp name;
  let (ip, off) := (r : Z * Z) in
  if ip =? -1 then unlink_bad dp else
  ilock ip;;
  p ← get_inode ip;
  if nlink (dip p) <? 1 then panic "unlink: nlink < 1" else
  b ← (if type (dip p) =? T_DIR then e ← isdirempty ip; mret (negb e) else mret false);
  if (b : bool) then
    iunlockput ip;;
    unlink_bad dp
  else
  new_local;;
  r ← writei dp Local off sizeof_dirent;
  if negb (r =? sizeof_dirent) then panic "unlink: writei" else
  p ← get_inode ip;
  when (type (dip p) =? T_DIR) (
    add_nlink dp (-1);;
    iupdate dp);;
  iunlockput dp;;
  add_nlink ip (-1);;
  iupdate ip;;
  iunlockput ip;;
  end_op;;
  mret 0
  end.

(** ** Creating *)
(** The locked inode, [-1] for 0. *)
Definition create (path : list Z) (ty major minor : Z) : K Z :=
  dn ← nameiparent path;
  let (dp, name) := (dn : Z * list Z) in
  if dp =? -1 then mret (-1) else
  ilock dp;;
  r ← dirlookup dp name;
  if negb (r.1 =? -1) then
    iunlockput dp;;
    ilock r.1;;
    p ← get_inode r.1;
    if (ty =? T_FILE) && ((type (dip p) =? T_FILE) || (type (dip p) =? T_DEVICE)) then mret r.1 else
    iunlockput r.1;;
    mret (-1)
  else
  d ← get_inode dp;
  ip ← ialloc (i_dev d) ty;
  if ip =? -1 then panic "create: ialloc" else
  ilock ip;;
  set_inode ip (fun p => p <| dip ::= fun n => n <| Fs.major := major |> <| Fs.minor := minor |> <| nlink := 1 |> |>);;
  iupdate ip;;
  p ← get_inode ip;
  when (ty =? T_DIR) (
    add_nlink dp 1;;
    iupdate dp;;
    r ← dirlink ip dot (inum p);
    if r <? 0 then panic "create dots" else
    d ← get_inode dp;
    r ← dirlink ip dotdot (inum d);
    when (r <? 0) (panic "create dots"));;
  r ← dirlink dp name (inum p);
  if r <? 0 then panic "create: dirlink" else
  iunlockput dp;;
  mret ip.

(** The inode [sys_open] works on: locked, [-1] if the call fails here. *)
Definition open_inode (path : list Z) (omode : Z) : K Z :=
  if negb (Z.land omode O_CREATE =? 0) then
    ip ← create path T_FILE 0 0;
    if ip =? -1 then end_op;; mret (-1) else mret ip
  else
    ip ← namei path;
    if ip =? -1 then end_op;; mret (-1) else
    ilock ip;;
    p ← get_inode ip;
    if (type (dip p) =? T_DIR) && negb (omode =? O_RDONLY) then
      iunlockput ip;;
      end_op;;
      mret (-1)
    else mret ip.
Definition open_fail (ip : Z) : K Z := iunlockput ip;; end_op;; mret (-1).
(** From [filealloc] on, with the contents [p] of the locked inode. *)
Definition open_file (ip : Z) (p : inode) (omode : Z) : K Z :=
  f ← filealloc;
  if f =? -1 then open_fail ip else
  fd ← fdalloc f;
  if fd <? 0 then
    fileclose f;;
    open_fail ip
  else
  (if type (dip p) =? T_DEVICE
   then set_file f (fun q => q <| f_type := FD_DEVICE |> <| f_major := major (dip p) |>)
   else set_file f (fun q => q <| f_type := FD_INODE |> <| f_off := 0 |>));;
  set_file f (fun q => q <| f_ip := ip |> <| readable := (Z.land omode O_WRONLY =? 0) |>
    <| writable := negb (Z.land omode O_WRONLY =? 0) || negb (Z.land omode O_RDWR =? 0) |>);;
  when (negb (Z.land omode O_TRUNC =? 0) && (type (dip p) =? T_FILE)) (itrunc ip);;
  iunlock ip;;
  end_op;;
  mret fd.
Definition sys_open : K Z :=
  path ← argstr 0 MAXPATH;
  match path with
  | None => mret (-1)
  | Some path =>
  omode ← argint 1;
  begin_op;;
  ip ← open_inode path omode;
  if ip =? -1 then mret (-1) else
  p ← get_inode ip;
  if (type (dip p) =? T_DEVICE) && ((major (dip p) <? 0) || (NDEV <=? major (dip p))) then open_fail ip else
  open_file ip p omode
  end.

(** The end of [sys_mkdir] and [sys_mknod]. *)
Definition made (ip : Z) : K Z :=
  if ip =? -1 then end_op;; mret (-1) else
  iunlockput ip;;
  end_op;;
  mret 0.
Definition sys_mkdir : K Z :=
  begin_op;;
  path ← argstr 0 MAXPATH;
  match path with
  | None => end_op;; mret (-1)
  | Some path => ip ← create path T_DIR 0 0; made ip
  end.
Definition sys_mknod : K Z :=
  begin_op;;
  path ← argstr 0 MAXPATH;
  match path with
  | None => end_op;; mret (-1)
  | Some path =>
      major ← argint 1;
      minor ← argint 2;
      ip ← create path T_DEVICE (i16 major) (i16 minor);
      made ip
  end.

Definition sys_chdir : K Z :=
  begin_op;;
  path ← argstr 0 MAXPATH;
  match path with
  | None => end_op;; mret (-1)
  | Some path =>
      ip ← namei path;
      if ip =? -1 then end_op;; mret (-1) else
      ilock ip;;
      p ← get_inode ip;
      if negb (type (dip p) =? T_DIR) then
        iunlockput ip;;
        end_op;;
        mret (-1)
      else
      iunlock ip;;
      c ← ugets cwd;
      iput c;;
      end_op;;
      umod (fun u => u <| cwd := ip |>);;
      mret 0
  end.

(** ** Pipes *)
Definition fd_bytes (v : Z) : list Z := put32 (replicate 4 0) 0 v.
Definition sys_pipe : K Z :=
  fdarray ← argaddr 0;
  fs ← pipealloc;
  match fs with
  | None => mret (-1)
  | Some (rf, wf) =>
      fd0 ← fdalloc rf;
      fd1 ← (if fd0 <? 0 then mret (-1) else fdalloc wf);
      if (fd0 <? 0) || (fd1 <? 0) then
        when (0 <=? fd0) (set_ofile fd0 (-1));;
        fileclose rf;;
        fileclose wf;;
        mret (-1)
      else
      r ← copyout_user fdarray (fd_bytes fd0);
      r ← (if r <? 0 then mret r else copyout_user (u64 (fdarray + 4)) (fd_bytes fd1));
      if r <? 0 then
        set_ofile fd0 (-1);;
        set_ofile fd1 (-1);;
        fileclose rf;;
        fileclose wf;;
        mret (-1)
      else mret 0
  end.

(** ** The system calls of this file, by number (syscall.h) *)
Inductive file_call :=
| SYS_pipe | SYS_read | SYS_fstat | SYS_chdir | SYS_dup | SYS_open | SYS_write | SYS_mknod | SYS_unlink | SYS_link | SYS_mkdir | SYS_close.
Definition file_call_of (num : Z) : option file_call :=
  if num =? 4 then Some SYS_pipe else if num =? 5 then Some SYS_read else if num =? 8 then Some SYS_fstat
  else if num =? 9 then Some SYS_chdir else if num =? 10 then Some SYS_dup else if num =? 15 then Some SYS_open
  else if num =? 16 then Some SYS_write else if num =? 17 then Some SYS_mknod else if num =? 18 then Some SYS_unlink
  else if num =? 19 then Some SYS_link else if num =? 20 then Some SYS_mkdir else if num =? 21 then Some SYS_close
  else None.
Definition run_call (c : file_call) : K Z :=
  match c with
  | SYS_pipe => sys_pipe | SYS_read => sys_read | SYS_fstat => sys_fstat | SYS_chdir => sys_chdir | SYS_dup => sys_dup
  | SYS_open => sys_open | SYS_write => sys_write | SYS_mknod => sys_mknod | SYS_unlink => sys_unlink | SYS_link => sys_link
  | SYS_mkdir => sys_mkdir | SYS_close => sys_close
  end.
(** [syscall] for a number of these calls: the result goes to the saved a0. *)
Definition syscall_file (c : file_call) : K unit :=
  r ← run_call c;
  xmod (fun x => x <| regs ::= fun g => upd g 0 (u64 r) |>).

(** ** What [fork] and [exit] (proc.c) do to open files *)
Definition fork_files (np : Z) : K Z :=
  for_each (seqZ 0 NOFILE) (fun i =>
    f ← get_ofile i;
    when (negb (f =? -1)) (
      f ← filedup f;
      xmod (fun x => x <| ofile ::= fun o => upd o np (upd (o np) i f) |>)));;
  c ← ugets cwd;
  idup c.
Definition exit_files : K unit :=
  for_each (seqZ 0 NOFILE) (fun fd =>
    f ← get_ofile fd;
    when (negb (f =? -1)) (
      fileclose f;;
      set_ofile fd (-1)));;
  begin_op;;
  c ← ugets cwd;
  iput c;;
  end_op;;
  umod (fun u => u <| cwd := -1 |>).
End ops.
