(* ===== verification/KView.v ===== *)
(** * KView: what the file system code does to locks and reference counts

    A view of the state of the file system and of the open files: the spin locks, the
    sleep locks of buffers and inodes, the number of operations in progress, the
    reference counts of inodes, the open files and the current directory.  Every
    function of bio.c, log.c and fs.c that the system calls use is given its effect
    on the view, for every path on which it returns. *)

From stdpp Require Import gmap.
From S2P Require Import Prelude Bytes SleepLock Bio BioRep Log Fs FsBlock KFile.

(** A sleep lock: locked, and its spin lock. *)
Definition slk (k : sleeplock) : bool * bool := (negb (sl_locked k =? 0), sl_lk k).

Record view := View {
  v_pid : Z;
  v_bcache : bool; v_log : bool; v_itable : bool; v_ftable : bool;
  v_buf : Z -> bool * bool; v_inode : Z -> bool * bool;
  v_outstanding : Z; v_committing : Z;
  v_ref : Z -> Z; v_cwd : Z;
  v_files : Z -> file; v_ofile : Z -> Z -> Z
}.
#[export] Instance view_eta : Eta view := fun r =>
  View (v_pid r) (v_bcache r) (v_log r) (v_itable r) (v_ftable r) (v_buf r) (v_inode r) (v_outstanding r) (v_committing r)
    (v_ref r) (v_cwd r) (v_files r) (v_ofile r).

Section view.
Context {Y : Type} `{!Peers Y}.
Abbreviation X := (fstate Y).
Abbreviation St := (fs (ftop (ist X))).
Abbreviation K := (M St).

Definition vw (s : St) : view :=
  View (mypid s) (bc_lock (bc s)) (log_lock (lg (top s))) (itable_lock (up (top s))) (ftable_lock (ext (up (top s))))
    (fun b => slk (b_lock (bufs (bc s) b))) (fun i => slk (i_lock (inodes (up (top s)) i)))
    (outstanding (lg (top s))) (committing (lg (top s)))
    (fun i => ref (inodes (up (top s)) i)) (cwd (up (top s)))
    (files (ext (up (top s)))) (ofile (ext (up (top s)))).

(** The effect of an operation that returns. *)
Class Eff {A} (m : K A) (R : A -> view -> view -> Prop) : Prop :=
  eff : forall s a s', m s = Ok a s' -> R a (vw s) (vw s').
Definition same {A} : A -> view -> view -> Prop := fun _ v v' => v' = v.

Lemma bind_inv {A B} (m : K A) (k : A -> K B) s b s' :
  (m ≫= k) s = Ok b s' -> ∃ a s1, m s = Ok a s1 ∧ k a s1 = Ok b s'.
Proof. unfold mbind, M_bind. destruct (m s) eqn:E; try done. eauto. Qed.
Lemma mret_inv {A} (a b : A) (s s' : St) : (mret a : K A) s = Ok b s' -> a = b ∧ s = s'.
Proof. by intros [= -> ->]. Qed.
Lemma when_inv c (m : K unit) s a s' : when c m s = Ok a s' -> (c = true ∧ m s = Ok a s') ∨ (c = false ∧ s = s').
Proof. destruct c; simpl; [by left|]. intros [= _ ->]. by right. Qed.

End view.

(** Changes of the view. *)
Definition lock_buf (b : Z) (v : view) : view := v <| v_buf ::= fun g => upd g b (true, false) |>.
Definition unlock_buf (b : Z) (v : view) : view := v <| v_buf ::= fun g => upd g b (false, false) |>.
Definition lock_inode (i : Z) (v : view) : view := v <| v_inode ::= fun g => upd g i (true, false) |>.
Definition unlock_inode (i : Z) (v : view) : view := v <| v_inode ::= fun g => upd g i (false, false) |>.
Definition add_ref (i d : Z) (v : view) : view := v <| v_ref ::= fun g => upd g i (g i + d) |>.

Definition set_files (f : Z) (p : file) (v : view) : view := v <| v_files ::= fun t => upd t f p |>.
Definition set_fd (fd f : Z) (v : view) : view := v <| v_ofile ::= fun o => upd o (v_pid v) (upd (o (v_pid v)) fd f) |>.
(** An inode that is not 0 has been returned with a reference. *)
Definition taken (ip : Z) (v : view) : view := if decide (ip = -1) then v else add_ref ip 1 v.
Lemma taken_ok ip v : inode_ok ip = true -> taken ip v = add_ref ip 1 v.
Proof. unfold inode_ok, taken. intros [H _]%andb_true_iff. by rewrite decide_False by lia. Qed.
Lemma taken_some ip v : (ip =? -1) = false -> taken ip v = add_ref ip 1 v.
Proof. unfold taken. intros H. by rewrite decide_False by lia. Qed.
Lemma taken_none ip v : (ip =? -1) = true -> taken ip v = v.
Proof. unfold taken. intros H. by rewrite decide_True by lia. Qed.
Ltac taken_simpl :=
  repeat match goal with
  | H : negb (_ =? -1) = false |- _ => apply negb_false_iff in H
  | H : negb (_ =? -1) = true |- _ => apply negb_true_iff in H
  end;
  repeat match goal with
  | H : inode_ok ?ip = true |- _ => progress rewrite !(taken_ok ip _ H) in *
  | H : (?ip =? -1) = false |- _ => progress rewrite !(taken_some ip _ H) in *
  | H : (?ip =? -1) = true |- _ => progress rewrite !(taken_none ip _ H) in *
  | |- context [taken (-1) _] => rewrite !(taken_none (-1) _ eq_refl)
  end.

(** Views are equal if their parts are. *)
Lemma view_ext v v' :
  v_pid v = v_pid v' -> v_bcache v = v_bcache v' -> v_log v = v_log v' -> v_itable v = v_itable v' -> v_ftable v = v_ftable v' ->
  (forall b, v_buf v b = v_buf v' b) -> (forall i, v_inode v i = v_inode v' i) ->
  v_outstanding v = v_outstanding v' -> v_committing v = v_committing v' -> (forall i, v_ref v i = v_ref v' i) -> v_cwd v = v_cwd v' ->
  (forall f, v_files v f = v_files v' f) -> (forall p fd, v_ofile v p fd = v_ofile v' p fd) -> v = v'.
Proof.
  destruct v, v'. cbn. intros. f_equal; try done; repeat (apply functional_extensionality; intros ?); done.
Qed.
Ltac view_simpl := unfold lock_buf, unlock_buf, lock_inode, unlock_inode, add_ref, set_files, set_fd in *; cbn in *.
Ltac view_part := try done; intros; unfold upd in *; repeat (case_decide; subst); cbn in *; try done; try congruence; try lia.
Ltac view_eq := apply view_ext; view_simpl; view_part.

(** The facts of a run, about the view it started from. *)
Ltac run_clean :=
  unfold same in *;
  repeat (progress destruct_and? || match goal with H : ∃ _, _ |- _ => destruct H end);
  repeat match goal with
  | H : vw ?s = _ |- _ => rewrite H in *; clear H
  end.
Ltac gen_views :=
  repeat match goal with
  | |- context [vw ?s] => let v := fresh "v" in set (v := vw s) in *; clearbody v
  end.
Ltac run_done := run_clean; try done; gen_views; subst; cbn [fst snd] in *; taken_simpl; split_and?; try done; try solve [view_eq].

Lemma for_each_same {Y A} (xs : list A) (body : A -> M (fs (ftop (ist (fstate Y)))) unit) s a s' :
  for_each xs body s = Ok a s' -> (forall x t b t', body x t = Ok b t' -> vw t' = vw t) -> vw s' = vw s.
Proof.
  intros H Hb. revert s H. induction xs as [|x xs IH]; intros s H; cbn [for_each] in H; [by apply mret_inv in H as [_ <-]|].
  apply bind_inv in H as (b & s1 & H1 & H2). etrans; [by apply IH|by eapply Hb].
Qed.

(** One step of a run, and all of them. *)
Ltac run_fact H :=
  let E := fresh "E" in
  first [ pose proof (eff _ _ _ H) as E; cbv beta in E; clear H ].
Ltac run_in H :=
  lazymatch type of H with
  | (_ ≫= _) _ = Ok _ _ =>
      let a := fresh "a" in let s := fresh "s" in let H1 := fresh "H" in
      apply bind_inv in H as (a & s & H1 & H); run_in H1; cbv beta in H; run_in H
  | mret _ _ = Ok _ _ => apply mret_inv in H as [? ?]; subst
  | panic _ _ = Ok _ _ => discriminate H
  | out_of_bounds _ = Ok _ _ => discriminate H
  | spin _ = Ok _ _ => discriminate H
  | no_fuel _ = Ok _ _ => discriminate H
  | when _ _ _ = Ok _ _ =>
      let E := fresh "E" in apply when_inv in H as [[E H]|[E H]]; [try discriminate E; run_in H|try discriminate E; subst]
  | (if ?b then _ else _) _ = Ok _ _ => let E := fresh "Eb" in destruct b eqn:E; run_in H
  | (match ?x with _ => _ end) _ = Ok _ _ => let E := fresh "Em" in destruct x eqn:E; run_in H
  | for_each _ _ _ = Ok _ _ =>
      apply for_each_same in H; [|let x := fresh "x" in let t := fresh "t" in let H' := fresh "H" in
        intros x t ? ? H'; cbv beta in H'; run_in H'; solve [run_done]]
  | _ => try run_fact H
  end.


(** Sleep locks, by what happened when they returned. *)
Section sleep.
Context {S : Type} (l : lens S sleeplock) `{!LawfulLens l}.
Lemma acquiresleep_inv pid s a s' :
  acquiresleep l pid s = Ok a s' -> free_lock (lget l s) ∧ s' = lset l (fun k => k <| sl_locked := 1 |> <| sl_pid := pid |>) s.
Proof.
  intros H. destruct (decide (sl_locked (lget l s) = 0)) as [E|E]; [|by rewrite acquiresleep_held in H].
  destruct (sl_lk (lget l s)) eqn:E'; [by unfold acquiresleep, acquire_spin, mbind, M_bind, lk_of in H; simpl in H; rewrite E' in H|].
  rewrite acquiresleep_free in H by done. by injection H as _ <-.
Qed.
Lemma releasesleep_inv s a s' :
  releasesleep l s = Ok a s' -> sl_lk (lget l s) = false ∧ s' = lset l (fun k => k <| sl_locked := 0 |> <| sl_pid := 0 |>) s.
Proof.
  intros H. destruct (sl_lk (lget l s)) eqn:E'; [by unfold releasesleep, acquire_spin, mbind, M_bind, lk_of in H; simpl in H; rewrite E' in H|].
  rewrite releasesleep_eq in H by done. by injection H as _ <-.
Qed.
Lemma holdingsleep_inv pid s a s' :
  holdingsleep l pid s = Ok a s' -> s' = s ∧ sl_lk (lget l s) = false ∧ a = negb (sl_locked (lget l s) =? 0) && (sl_pid (lget l s) =? pid).
Proof.
  intros H. destruct (sl_lk (lget l s)) eqn:E'; [by unfold holdingsleep, acquire_spin, mbind, M_bind, lk_of in H; simpl in H; rewrite E' in H|].
  rewrite holdingsleep_eq in H by done. by injection H as <- <-.
Qed.
End sleep.

Class KeepsLock (f : buf -> buf) : Prop := keeps_lock : forall b, b_lock (f b) = b_lock b.
#[export] Hint Extern 0 (KeepsLock _) => (intros ?; reflexivity) : typeclass_instances.
Class KeepsLog (f : log -> log) : Prop :=
  keeps_log : forall l, log_lock (f l) = log_lock l ∧ outstanding (f l) = outstanding l ∧ committing (f l) = committing l.
#[export] Hint Extern 0 (KeepsLog _) => (intros ?; split_and!; reflexivity) : typeclass_instances.
(** The reference count and the lock of an inode stay. *)
Class KeepsInode (f : inode -> inode) : Prop := keeps_inode : forall p, i_lock (f p) = i_lock p ∧ ref (f p) = ref p.
#[export] Hint Extern 0 (KeepsInode _) => (intros ?; split; reflexivity) : typeclass_instances.

(** Only the superblock and the local variable change. *)
Class KeepsUp {X} (f : ist X -> ist X) : Prop :=
  keeps_up : forall u, itable_lock (f u) = itable_lock u ∧ inodes (f u) = inodes u ∧ cwd (f u) = cwd u ∧ ext (f u) = ext u.
#[export] Hint Extern 0 (KeepsUp _) => (intros ?; split_and!; reflexivity) : typeclass_instances.

Section fs_effects.
Context {Y : Type} `{!Peers Y}.
Abbreviation X := (fstate Y).
Abbreviation St := (fs (ftop (ist X))).
Abbreviation K := (M St).
Implicit Types (s : St) (v : view).

#[export] Instance gets_eff {A} (f : St -> A) : Eff (gets f) (fun a v v' => v' = v) | 10.
Proof. by intros s a s' [= <- <-]. Qed.
#[export] Instance gets_pid_eff : Eff (gets (mypid (T:=ftop (ist X)))) (fun a v v' => a = v_pid v ∧ v' = v) | 0.
Proof. by intros s a s' [= <- <-]. Qed.

(** ** Buffers *)
#[export] Instance get_buf_eff i : Eff (Y:=Y) (get_buf i) same.
Proof. intros s a s'. unfold get_buf. destruct (_ && _); [|done]. by intros [= _ <-]. Qed.
#[export] Instance set_buf_eff i f `{!KeepsLock f} : Eff (Y:=Y) (set_buf i f) same.
Proof.
  intros s a s'. unfold set_buf. destruct (_ && _); [|done]. intros [= _ <-]. unfold same, vw. cbn. f_equal.
  apply functional_extensionality. intros b. upd_cases; [|done]. by rewrite keeps_lock.
Qed.
#[export] Instance acquire_bcache_eff : Eff (Y:=Y) (acquire_spin bcache_lock) (fun _ v v' => v_bcache v = false ∧ v' = v <| v_bcache := true |>).
Proof. intros s a s'. unfold acquire_spin, bcache_lock. cbn. destruct (bc_lock (bc s)) eqn:E; [done|]. by intros [= _ <-]. Qed.
#[export] Instance release_bcache_eff : Eff (Y:=Y) (release_spin bcache_lock) (fun _ v v' => v_bcache v = true ∧ v' = v <| v_bcache := false |>).
Proof. intros s a s'. unfold release_spin, bcache_lock. cbn. destruct (bc_lock (bc s)) eqn:E; [|done]. by intros [= _ <-]. Qed.

Lemma vw_buf_lock b f (s : St) : vw (lset (buf_lock b) f s) = (vw s) <| v_buf ::= fun g => upd g b (slk (f (b_lock (bufs (bc s) b)))) |>.
Proof. unfold vw, setter. cbn. f_equal. apply functional_extensionality. intros x. by upd_cases. Qed.
#[export] Instance acquire_buf_eff b pid : Eff (Y:=Y) (acquiresleep (buf_lock b) pid) (fun _ v v' => v_buf v b = (false, false) ∧ v' = lock_buf b v).
Proof. intros s a s' H. apply (acquiresleep_inv _) in H as [[H1 H2] ->]. rewrite vw_buf_lock. cbn in H1, H2. split; [cbn|]; unfold slk; [by rewrite H1, H2|]. simpl. by rewrite H2. Qed.
#[export] Instance release_buf_eff b : Eff (Y:=Y) (releasesleep (buf_lock b)) (fun _ v v' => (v_buf v b).2 = false ∧ v' = unlock_buf b v).
Proof. intros s a s' H. apply (releasesleep_inv _) in H as [H1 ->]. rewrite vw_buf_lock. cbn in H1. split; [done|]. unfold slk. simpl. by rewrite H1. Qed.
#[export] Instance holding_buf_eff b pid : Eff (Y:=Y) (holdingsleep (buf_lock b) pid) (fun h v v' => (h = true -> (v_buf v b).1 = true) ∧ v' = v).
Proof. intros s a s' H. apply (holdingsleep_inv _) in H as (-> & H1 & ->). split; [|done]. by intros [? _]%andb_true_iff. Qed.

#[export] Instance mod_bc_eff f : (forall c, bc_lock (f c) = bc_lock c ∧ bufs (f c) = bufs c) -> Eff (Y:=Y) (mod_bc f) same.
Proof. intros Hf s a s' [= _ <-]. destruct (Hf (bc s)) as [H1 H2]. unfold same, vw, setter. cbn. by rewrite H1, H2. Qed.
#[export] Instance virtio_eff b w : Eff (Y:=Y) (virtio_disk_rw b w) same.
Proof.
  intros s a s' H. unfold virtio_disk_rw in H. run_in H; [|run_done]. apply mod_bc_eff in H; [|done]. run_done.
Qed.
#[export] Instance bget_cached_eff k d n b : Eff (Y:=Y) (bget_cached k d n b) same.
Proof. revert b. induction k as [|k IH]; intros b s a s' H; cbn [bget_cached] in H; run_in H; run_done. Qed.
#[export] Instance bget_recycle_eff k d n b : Eff (Y:=Y) (bget_recycle k d n b) same.
Proof. revert b. induction k as [|k IH]; intros b s a s' H; cbn [bget_recycle] in H; run_in H; run_done. Qed.
#[export] Instance bget_lock_eff b : Eff (Y:=Y) (bget_lock b)
  (fun r v v' => r = b ∧ v_bcache v = true ∧ v_buf v b = (false, false) ∧ v' = lock_buf b (v <| v_bcache := false |>)).
Proof. intros s a s' H. unfold bget_lock in H. run_in H. run_done. Qed.
#[export] Instance bget_eff d n : Eff (Y:=Y) (bget d n) (fun r v v' => v_bcache v = false ∧ v_buf v r = (false, false) ∧ v' = lock_buf r v).
Proof. intros s a s' H. unfold bget in H. run_in H; run_done. Qed.
#[export] Instance bread_eff d n : Eff (Y:=Y) (bread d n) (fun r v v' => v_bcache v = false ∧ v_buf v r = (false, false) ∧ v' = lock_buf r v).
Proof. intros s a s' H. unfold bread in H. run_in H; run_done. Qed.
#[export] Instance bwrite_eff b : Eff (Y:=Y) (bwrite b) same.
Proof. intros s a s' H. unfold bwrite in H. run_in H; run_done. Qed.
#[export] Instance relink_eff b : Eff (Y:=Y) (relink b) same.
Proof. intros s a s' H. unfold relink in H. run_in H; run_done. Qed.
#[export] Instance brelse_eff b : Eff (Y:=Y) (brelse b) (fun _ v v' => v_bcache v = false ∧ v_buf v b = (true, false) ∧ v' = unlock_buf b v).
Proof.
  intros s a s' H. unfold brelse in H. run_in H; run_clean; gen_views; subst; split_and!; try done; try solve [view_eq];
    (apply negb_false_iff in Eb; apply injective_projections; cbn; auto).
Qed.
#[export] Instance bpin_eff b : Eff (Y:=Y) (bpin b) same.
Proof. intros s a s' H. unfold bpin in H. run_in H; run_done. Qed.
#[export] Instance bunpin_eff b : Eff (Y:=Y) (bunpin b) same.
Proof. intros s a s' H. unfold bunpin in H. run_in H; run_done. Qed.
#[export] Instance buf_data_eff b : Eff (Y:=Y) (buf_data b) same.
Proof. intros s a s' H. unfold buf_data in H. run_in H; run_done. Qed.
#[export] Instance set_data_eff b d : Eff (Y:=Y) (set_data b d) same.
Proof. intros s a s' H. unfold set_data in H. run_in H; run_done. Qed.

(** ** The log *)
Definition log_view (l : log) (v : view) : Prop := log_lock l = v_log v ∧ outstanding l = v_outstanding v ∧ committing l = v_committing v.
#[export] Instance get_log_eff : Eff (Y:=Y) get_log (fun l v v' => log_view l v ∧ v' = v).
Proof. by intros s a s' [= <- <-]. Qed.
#[export] Instance mod_log_eff f `{!KeepsLog f} : Eff (Y:=Y) (mod_log f) same.
Proof. intros s a s' [= _ <-]. destruct (keeps_log (lg (top s))) as (H1 & H2 & H3). unfold same, vw, setter. cbn. by rewrite H1, H2, H3. Qed.
#[export] Instance mod_outstanding_eff d : Eff (Y:=Y) (mod_log (fun l => l <| outstanding := outstanding l + d |>)) (fun _ v v' => v' = v <| v_outstanding ::= Z.add d |>).
Proof. intros s a s' [= _ <-]. unfold vw, setter. cbn. f_equal. lia. Qed.
#[export] Instance sub_outstanding_eff d : Eff (Y:=Y) (mod_log (fun l => l <| outstanding := outstanding l - d |>)) (fun _ v v' => v' = v <| v_outstanding ::= Z.add (-d) |>).
Proof. intros s a s' [= _ <-]. unfold vw, setter. cbn. f_equal. lia. Qed.
#[export] Instance mod_committing_eff c : Eff (Y:=Y) (mod_log (fun l => l <| committing := c |>)) (fun _ v v' => v' = v <| v_committing := c |>).
Proof. by intros s a s' [= _ <-]. Qed.
#[export] Instance acquire_log_eff : Eff (Y:=Y) (acquire_spin loglock) (fun _ v v' => v_log v = false ∧ v' = v <| v_log := true |>).
Proof. intros s a s'. unfold acquire_spin, loglock. cbn. destruct (log_lock (lg (top s))) eqn:E; [done|]. by intros [= _ <-]. Qed.
#[export] Instance release_log_eff : Eff (Y:=Y) (release_spin loglock) (fun _ v v' => v_log v = true ∧ v' = v <| v_log := false |>).
Proof. intros s a s'. unfold release_spin, loglock. cbn. destruct (log_lock (lg (top s))) eqn:E; [|done]. by intros [= _ <-]. Qed.
#[export] Instance get_block_eff i : Eff (Y:=Y) (get_block i) same.
Proof. intros s a s' H. unfold get_block in H. run_in H; run_done. Qed.
#[export] Instance set_block_eff i b : Eff (Y:=Y) (set_block i b) same.
Proof. intros s a s' H. unfold set_block in H. run_in H; run_done. Qed.
#[export] Instance install_trans_eff r : Eff (Y:=Y) (install_trans r) same.
Proof. intros s a s' H. unfold install_trans in H. run_in H; run_done. Qed.
#[export] Instance write_head_eff : Eff (Y:=Y) write_head same.
Proof. intros s a s' H. unfold write_head in H. run_in H; run_done. Qed.
#[export] Instance write_log_eff : Eff (Y:=Y) write_log same.
Proof. intros s a s' H. unfold write_log in H. run_in H; run_done. Qed.
#[export] Instance commit_eff : Eff (Y:=Y) commit same.
Proof. intros s a s' H. unfold commit in H. run_in H; run_done. Qed.
#[export] Instance absorb_eff k i n b : Eff (Y:=Y) (absorb k i n b) same.
Proof. revert i. induction k as [|k IH]; intros i s a s' H; cbn [absorb] in H; run_in H; run_done. Qed.
#[export] Instance log_write_eff b : Eff (Y:=Y) (log_write b) same.
Proof. intros s a s' H. unfold log_write in H. run_in H; run_done. Qed.
#[export] Instance begin_op_eff : Eff (Y:=Y) begin_op (fun _ v v' => v_log v = false ∧ v_committing v = 0 ∧ v' = v <| v_outstanding ::= Z.add 1 |>).
Proof. intros s a s' H. unfold begin_op, log_view in *. run_in H. run_clean. gen_views. split_and!; [done|unfold log_view in *; destruct_and?; apply negb_false_iff in Eb; cbn in *; lia|view_eq]. Qed.
#[export] Instance end_op_eff : Eff (Y:=Y) end_op (fun _ v v' => v_log v = false ∧ v_committing v = 0 ∧ v' = v <| v_outstanding ::= Z.add (-1) |>).
Proof.
  intros s a s' H. unfold end_op, wakeup_others in H. run_in H; run_clean; gen_views; unfold log_view in *; destruct_and?; apply negb_false_iff in Eb; split_and!; try done; try (cbn in *; lia); view_eq; lia.
Qed.

(** ** Inodes *)
#[export] Instance ugets_eff {A} (f : ist X -> A) : Eff (Y:=Y) (ugets f) same | 10.
Proof. by intros s a s' [= _ <-]. Qed.
#[export] Instance ugets_cwd_eff : Eff (Y:=Y) (ugets cwd) (fun c v v' => c = v_cwd v ∧ v' = v) | 0.
Proof. by intros s a s' [= <- <-]. Qed.
#[export] Instance umod_eff f `{!KeepsUp f} : Eff (Y:=Y) (umod f) same.
Proof.
  intros s a s' [= _ <-]. destruct (keeps_up (up (top s))) as (H1 & H2 & H3 & H4). unfold same, vw, setter. cbn. by rewrite H1, H2, H3, H4.
Qed.
#[export] Instance get_inode_eff ip : Eff (Y:=Y) (get_inode ip) (fun p v v' => inode_ok ip = true ∧ ref p = v_ref v ip ∧ v' = v).
Proof. intros s a s'. unfold get_inode. destruct (inode_ok ip); [|done]. by intros [= <- <-]. Qed.
#[export] Instance set_inode_eff ip f `{!KeepsInode f} : Eff (Y:=Y) (set_inode ip f) same.
Proof.
  intros s a s'. unfold set_inode. destruct (inode_ok ip); [|done]. intros [= _ <-]. unfold same.
  apply view_ext; unfold vw, setter; cbn; try done; intros i; upd_cases; try done; unfold slk; destruct (keeps_inode (inodes (up (top s)) ip)) as [H1 H2]; congruence.
Qed.
Lemma set_ref_eff ip (f : inode -> inode) s a s' d :
  set_inode ip f s = Ok a s' -> (forall p, i_lock (f p) = i_lock p) -> ref (f (inodes (up (top s)) ip)) = ref (inodes (up (top s)) ip) + d ->
  inode_ok ip = true ∧ vw s' = add_ref ip d (vw s).
Proof.
  unfold set_inode. destruct (inode_ok ip); [|done]. intros [= _ <-] H1 H2. split; [done|].
  apply view_ext; unfold vw, add_ref, setter; cbn; try done; intros i; upd_cases; try done. by rewrite H1.
Qed.
#[export] Instance succ_ref_eff ip : Eff (Y:=Y) (set_inode ip (fun p => p <| ref ::= Z.succ |>)) (fun _ v v' => inode_ok ip = true ∧ v' = add_ref ip 1 v) | 0.
Proof. intros s a s' H. by apply (set_ref_eff _ _ _ _ _ 1) in H. Qed.
#[export] Instance pred_ref_eff ip : Eff (Y:=Y) (set_inode ip (fun p => p <| ref ::= Z.pred |>)) (fun _ v v' => inode_ok ip = true ∧ v' = add_ref ip (-1) v) | 0.
Proof. intros s a s' H. by apply (set_ref_eff _ _ _ _ _ (-1)) in H. Qed.
#[export] Instance acquire_itable_eff : Eff (Y:=Y) (acquire_spin itablelk) (fun _ v v' => v_itable v = false ∧ v' = v <| v_itable := true |>).
Proof. intros s a s'. unfold acquire_spin, itablelk. cbn. destruct (itable_lock (up (top s))) eqn:E; [done|]. by intros [= _ <-]. Qed.
#[export] Instance release_itable_eff : Eff (Y:=Y) (release_spin itablelk) (fun _ v v' => v_itable v = true ∧ v' = v <| v_itable := false |>).
Proof. intros s a s'. unfold release_spin, itablelk. cbn. destruct (itable_lock (up (top s))) eqn:E; [|done]. by intros [= _ <-]. Qed.

Lemma vw_ilk ip f (s : St) : vw (lset (ilk ip) f s) = (vw s) <| v_inode ::= fun g => upd g ip (slk (f (i_lock (inodes (up (top s)) ip)))) |>.
Proof. apply view_ext; unfold vw, setter; cbn; try done; intros i; by upd_cases. Qed.
#[export] Instance acquire_ilk_eff ip pid : Eff (Y:=Y) (acquiresleep (ilk ip) pid) (fun _ v v' => v_inode v ip = (false, false) ∧ v' = lock_inode ip v).
Proof. intros s a s' H. apply (acquiresleep_inv _) in H as [[H1 H2] ->]. rewrite vw_ilk. cbn in H1, H2. split; [cbn|]; unfold slk; [by rewrite H1, H2|]. simpl. by rewrite H2. Qed.
#[export] Instance release_ilk_eff ip : Eff (Y:=Y) (releasesleep (ilk ip)) (fun _ v v' => (v_inode v ip).2 = false ∧ v' = unlock_inode ip v).
Proof. intros s a s' H. apply (releasesleep_inv _) in H as [H1 ->]. rewrite vw_ilk. cbn in H1. split; [done|]. unfold slk. simpl. by rewrite H1. Qed.
#[export] Instance holding_ilk_eff ip pid : Eff (Y:=Y) (holdingsleep (ilk ip) pid) (fun h v v' => (h = true -> (v_inode v ip).1 = true) ∧ v' = v).
Proof. intros s a s' H. apply (holdingsleep_inv _) in H as (-> & H1 & ->). split; [|done]. by intros [? _]%andb_true_iff. Qed.

(** ** Blocks *)
#[export] Instance bzero_eff d n : Eff (Y:=Y) (bzero d n) same.
Proof. intros s a s' H. unfold bzero in H. run_in H; run_done. Qed.
#[export] Instance balloc_loop_eff k d b : Eff (Y:=Y) (balloc_loop k d b) same.
Proof. revert b. induction k as [|k IH]; intros b s a s' H; cbn [balloc_loop] in H; run_in H; run_done. Qed.
#[export] Instance balloc_eff d : Eff (Y:=Y) (balloc d) same.
Proof. intros s a s' H. unfold balloc in H. run_in H; run_done. Qed.
#[export] Instance bfree_eff d n : Eff (Y:=Y) (bfree d n) same.
Proof. intros s a s' H. unfold bfree in H. run_in H; run_done. Qed.

(** ** Inode operations *)
#[export] Instance iupdate_eff ip : Eff (Y:=Y) (iupdate ip) same.
Proof. intros s a s' H. unfold iupdate in H. run_in H; run_done. Qed.
#[export] Instance idup_eff ip : Eff (Y:=Y) (idup ip) (fun r v v' => r = ip ∧ inode_ok ip = true ∧ v_itable v = false ∧ v' = add_ref ip 1 v).
Proof. intros s a s' H. unfold idup in H. run_in H; run_done. Qed.
#[export] Instance ilock_eff ip : Eff (Y:=Y) (ilock ip) (fun _ v v' => v_inode v ip = (false, false) ∧ v' = lock_inode ip v).
Proof. intros s a s' H. unfold ilock in H. run_in H; run_done. Qed.
#[export] Instance iunlock_eff ip : Eff (Y:=Y) (iunlock ip) (fun _ v v' => v_inode v ip = (true, false) ∧ v' = unlock_inode ip v).
Proof.
  intros s a s' H. unfold iunlock in H. run_in H. run_clean. gen_views. apply orb_false_iff in Eb0 as [Eb0 _]. apply negb_false_iff in Eb0.
  split; [|done]. apply injective_projections; cbn; auto.
Qed.
#[export] Instance set_addr_eff ip i x : Eff (Y:=Y) (set_addr ip i x) same.
Proof. intros s a s' H. unfold set_addr in H. run_in H; run_done. Qed.
#[export] Instance itrunc_eff ip : Eff (Y:=Y) (itrunc ip) same.
Proof. intros s a s' H. unfold itrunc in H. run_in H; run_done. Qed.
#[export] Instance iput_eff ip : Eff (Y:=Y) (iput ip) (fun _ v v' => inode_ok ip = true ∧ v_itable v = false ∧ v' = add_ref ip (-1) v).
Proof. intros s a s' H. unfold iput in H. run_in H; run_done. Qed.
#[export] Instance iunlockput_eff ip : Eff (Y:=Y) (iunlockput ip)
  (fun _ v v' => inode_ok ip = true ∧ v_inode v ip = (true, false) ∧ v_itable v = false ∧ v' = add_ref ip (-1) (unlock_inode ip v)).
Proof. intros s a s' H. unfold iunlockput in H. run_in H; run_done. Qed.

Lemma iget_empty_ref k ip (g : Z -> inode) r : iget_empty k ip g = Some r -> ref (g r) = 0.
Proof. revert ip. induction k as [|k IH]; intros ip; simpl; [done|]. destruct (Z.eqb_spec (ref (g ip)) 0); [by intros [= <-]|apply IH]. Qed.
#[export] Instance iget_eff d n : Eff (Y:=Y) (iget d n) (fun r v v' => inode_ok r = true ∧ v_itable v = false ∧ v' = add_ref r 1 v).
Proof.
  intros s a s' H. unfold iget in H. apply bind_inv in H as (? & s1 & H1 & H). run_in H1.
  apply bind_inv in H as (g & s2 & [= <- <-] & H). cbv beta in H. run_in H; [run_done|]. apply iget_empty_ref in Em0.
  match goal with E : set_inode _ _ _ = Ok _ _ |- _ => apply (set_ref_eff _ _ _ _ _ 1) in E as [? E]; [|done|cbn; lia] end. run_done.
Qed.
#[export] Instance ialloc_loop_eff k d t n : Eff (Y:=Y) (ialloc_loop k d t n) (fun r v v' => inode_ok r = true ∧ v_itable v = false ∧ v' = add_ref r 1 v).
Proof. revert n. induction k as [|k IH]; intros n s a s' H; cbn [ialloc_loop] in H; run_in H; run_done. Qed.
#[export] Instance ialloc_eff d t : Eff (Y:=Y) (ialloc d t) (fun r v v' => inode_ok r = true ∧ v_itable v = false ∧ v' = add_ref r 1 v).
Proof. intros s a s' H. unfold ialloc in H. run_in H; run_done. Qed.

(** ** Contents *)
#[export] Instance bmap_eff ip bn : Eff (Y:=Y) (bmap ip bn) same.
Proof. intros s a s' H. unfold bmap in H. run_in H; run_done. Qed.
#[export] Instance stati_eff ip : Eff (Y:=Y) (stati ip) same.
Proof. intros s a s' H. unfold stati in H. run_in H; run_done. Qed.
#[export] Instance copy_to_eff dst tot bs : Eff (Y:=Y) (copy_to dst tot bs) same.
Proof.
  intros s a s' H. destruct dst as [u x|]; unfold copy_to in H; [|run_in H; run_done].
  unfold either_copyout, fstate_copy in H. destruct (peer_copyout _ _ _ _) as [r y]. by injection H as _ <-.
Qed.
#[export] Instance copy_from_eff src tot m : Eff (Y:=Y) (copy_from src tot m) same.
Proof. intros s a s' H. destruct src; unfold copy_from in H; run_in H; run_done. Qed.
#[export] Instance readi_loop_eff k ip dst tot off n : Eff (Y:=Y) (readi_loop k ip dst tot off n) same.
Proof. revert tot off. induction k as [|k IH]; intros tot off s a s' H; cbn [readi_loop] in H; run_in H; run_done. Qed.
#[export] Instance readi_eff ip dst off n : Eff (Y:=Y) (readi ip dst off n) same.
Proof. intros s a s' H. unfold readi in H. run_in H; run_done. Qed.
#[export] Instance writei_loop_eff k ip src tot off n : Eff (Y:=Y) (writei_loop k ip src tot off n) same.
Proof. revert tot off. induction k as [|k IH]; intros tot off s a s' H; cbn [writei_loop] in H; run_in H; run_done. Qed.
#[export] Instance writei_eff ip src off n : Eff (Y:=Y) (writei ip src off n) same.
Proof. intros s a s' H. unfold writei in H. run_in H; run_done. Qed.

(** ** Directories and paths *)
#[export] Instance new_local_eff : Eff (Y:=Y) new_local same.
Proof. intros s a s' H. unfold new_local in H. run_in H; run_done. Qed.
#[export] Instance dirlookup_loop_eff k dp name off : Eff (Y:=Y) (dirlookup_loop k dp name off) (fun r v v' => v' = taken r.1 v).
Proof. revert off. induction k as [|k IH]; intros off s a s' H; cbn [dirlookup_loop] in H; run_in H; run_done. Qed.
#[export] Instance dirlookup_eff dp name : Eff (Y:=Y) (dirlookup dp name) (fun r v v' => v' = taken r.1 v).
Proof. intros s a s' H. unfold dirlookup in H. run_in H; run_done. Qed.
#[export] Instance dirlink_loop_eff k dp off : Eff (Y:=Y) (dirlink_loop k dp off) same.
Proof. revert off. induction k as [|k IH]; intros off s a s' H; cbn [dirlink_loop] in H; run_in H; run_done. Qed.
#[export] Instance dirlink_eff dp name n : Eff (Y:=Y) (dirlink dp name n) same.
Proof. intros s a s' H. unfold dirlink in H. run_in H; run_done. Qed.

Lemma namex_loop_eff k ip path np name :
  (ip =? -1) = false -> Eff (Y:=Y) (namex_loop k ip path np name) (fun r v v' => v' = taken r.1 (add_ref ip (-1) v)).
Proof.
  revert ip path name. induction k as [|k IH]; intros ip path name Hip s a s' H; cbn [namex_loop] in H; run_in H; try solve [run_done].
  match goal with E : namex_loop _ _ _ _ _ _ = Ok _ _ |- _ => apply IH in E; [|done] end. run_done. f_equal. view_eq.
Qed.
#[export] Instance namex_eff path np : Eff (Y:=Y) (namex path np) (fun r v v' => v' = taken r.1 v).
Proof.
  intros s a s' H. unfold namex in H. apply bind_inv in H as (ip & s1 & H1 & H).
  assert (Hip : inode_ok ip = true ∧ vw s1 = add_ref ip 1 (vw s)) by (run_in H1; run_done). destruct Hip as [Hok Hv].
  apply namex_loop_eff in H; [|unfold inode_ok in Hok; apply andb_true_iff in Hok; lia]. rewrite H, Hv. f_equal. gen_views. view_eq.
Qed.
#[export] Instance namei_eff path : Eff (Y:=Y) (namei path) (fun r v v' => v' = taken r v).
Proof. intros s a s' H. unfold namei in H. run_in H; run_done. Qed.
#[export] Instance nameiparent_eff path : Eff (Y:=Y) (nameiparent path) (fun r v v' => v' = taken r.1 v).
Proof. intros s a s' H. unfold nameiparent in H. run_in H; run_done. Qed.
End fs_effects.
