(* ===== verification/SysView.v ===== *)
(** * SysView: what the file system calls do to locks and reference counts

    The effects of file.c and sysfile.c on the view of KView.v, for every path on
    which the calls return, errors included. *)

From stdpp Require Import gmap.
From S2P Require Import Prelude Bytes SleepLock Bio Log Fs Fcntl KFile SysFile KView.

Section effects.
Context {Y : Type} `{!Peers Y}.
Abbreviation X := (fstate Y).
Abbreviation St := (fs (ftop (ist X))).
Abbreviation K := (M St).
Implicit Types (s : St) (v : view).

#[export] Instance xgets_eff {A} (f : X -> A) : Eff (Y:=Y) (xgets f) same | 10.
Proof. by intros s a s' [= _ <-]. Qed.
#[export] Instance xgets_files_eff : Eff (Y:=Y) (xgets files) (fun t v v' => t = v_files v ∧ v' = v) | 0.
Proof. by intros s a s' [= <- <-]. Qed.
#[export] Instance on_peer_eff {A} (m : M Y A) : Eff (on_peer m) same.
Proof. intros s a s'. unfold on_peer. destruct (m _); try done. by intros [= _ <-]. Qed.
#[export] Instance get_file_eff f : Eff (Y:=Y) (get_file f) (fun p v v' => file_ok f = true ∧ p = v_files v f ∧ v' = v).
Proof. intros s a s'. unfold get_file. destruct (file_ok f); [|done]. by intros [= <- <-]. Qed.
#[export] Instance set_file_eff f g : Eff (Y:=Y) (set_file f g) (fun _ v v' => file_ok f = true ∧ v' = set_files f (g (v_files v f)) v).
Proof. intros s a s'. unfold set_file. destruct (file_ok f); [|done]. by intros [= _ <-]. Qed.
#[export] Instance acquire_ftable_eff : Eff (Y:=Y) (acquire_spin ftablelk) (fun _ v v' => v_ftable v = false ∧ v' = v <| v_ftable := true |>).
Proof. intros s a s'. unfold acquire_spin, ftablelk. cbn. destruct (ftable_lock (ext (up (top s)))) eqn:E; [done|]. by intros [= _ <-]. Qed.
#[export] Instance release_ftable_eff : Eff (Y:=Y) (release_spin ftablelk) (fun _ v v' => v_ftable v = true ∧ v' = v <| v_ftable := false |>).
Proof. intros s a s'. unfold release_spin, ftablelk. cbn. destruct (ftable_lock (ext (up (top s)))) eqn:E; [|done]. by intros [= _ <-]. Qed.
#[export] Instance get_ofile_eff fd : Eff (Y:=Y) (get_ofile fd) (fun f v v' => f = v_ofile v (v_pid v) fd ∧ v' = v).
Proof. by intros s a s' [= <- <-]. Qed.
#[export] Instance set_ofile_eff fd f : Eff (Y:=Y) (set_ofile fd f) (fun _ v v' => v' = set_fd fd f v).
Proof. by intros s a s' [= _ <-]. Qed.

(** ** file.c *)
Lemma find_file_ref k f t r : find_file k f t = Some r -> f <= r < f + Z.of_nat k ∧ f_ref (t r) = 0.
Proof.
  revert f. induction k as [|k IH]; intros f; simpl; [done|]. destruct (Z.eqb_spec (f_ref (t f)) 0); [intros [= <-]; split; [lia|done]|].
  intros H%IH. destruct H as [H1 H2]. split; [lia|done].
Qed.

(** A new file, or none. *)
Definition new_file (r : Z) (v v' : view) : Prop :=
  (r = -1 ∧ v' = v) ∨ (file_ok r = true ∧ f_ref (v_files v r) = 0 ∧ v' = set_files r ((v_files v r) <| f_ref := 1 |>) v).
#[export] Instance filealloc_eff : Eff (Y:=Y) filealloc new_file.
Proof.
  intros s a s' H. unfold filealloc in H. run_in H; run_clean; gen_views; subst.
  - right. apply find_file_ref in Em as [_ Em]. split_and!; [done|done|]. view_eq.
  - left. split; [done|]. view_eq.
Qed.
#[export] Instance filedup_eff f : Eff (Y:=Y) (filedup f) (fun r v v' =>
  r = f ∧ file_ok f = true ∧ 1 <= f_ref (v_files v f) ∧ v' = set_files f ((v_files v f) <| f_ref ::= Z.succ |>) v).
Proof.
  intros s a s' H. unfold filedup in H. run_in H. run_clean. gen_views. subst. cbn in *. split_and!; [done|done|lia|]. view_eq.
Qed.
(** The view after a file is closed. *)
Definition closed (f : Z) (v : view) : view :=
  let p := v_files v f in
  if 1 <? f_ref p then set_files f (p <| f_ref ::= Z.pred |>) v else
  let v1 := set_files f (p <| f_ref := 0 |> <| f_type := FD_NONE |>) v in
  match f_type p with
  | FD_INODE | FD_DEVICE => add_ref (f_ip p) (-1) v1
  | _ => v1
  end.
#[export] Instance fileclose_eff f : Eff (Y:=Y) (fileclose f) (fun _ v v' => file_ok f = true ∧ 1 <= f_ref (v_files v f) ∧ v' = closed f v).
Proof.
  intros s a s' H. unfold fileclose in H. run_in H; run_clean; gen_views; subst; cbn in *; rewrite ?upd_eq in *; cbn in *;
    (split_and!; [done|lia|]); unfold closed, Z.pred in *; cbv zeta; first [rewrite (proj2 (Z.ltb_lt 1 (f_ref (v_files v f)))) by lia|rewrite (proj2 (Z.ltb_ge 1 (f_ref (v_files v f)))) by lia];
    rewrite ?Em; view_eq.
Qed.
#[export] Instance copyout_user_eff addr bs : Eff (Y:=Y) (copyout_user addr bs) same.
Proof. intros s a s' H. unfold copyout_user in H. run_in H; run_done. Qed.
#[export] Instance filestat_eff f addr : Eff (Y:=Y) (filestat f addr) same.
Proof. intros s a s' H. unfold filestat in H. run_in H; run_done. Qed.

(** Only the offset of an open file may have changed. *)
Definition moved (f : Z) (v v' : view) : Prop := ∃ o, v' = set_files f ((v_files v f) <| f_off := o |>) v.
Lemma moved_refl f v : moved f v v.
Proof. exists (f_off (v_files v f)). view_eq. by destruct (v_files v f). Qed.
Lemma moved_trans f v1 v2 v3 : moved f v1 v2 -> moved f v2 v3 -> moved f v1 v3.
Proof. intros [o1 ->] [o2 ->]. exists o2. view_eq. Qed.
#[export] Instance fileread_eff f addr n : Eff (Y:=Y) (fileread f addr n) (fun _ v v' => moved f v v').
Proof.
  intros s a s' H. unfold fileread in H. run_in H; run_clean; gen_views; subst; try apply moved_refl; [eexists; view_eq|].
  exists (f_off (v_files v f)). view_eq. by destruct (v_files v f).
Qed.
Ltac moved_now f v := first [eexists; solve [view_eq] | exists (f_off (v_files v f)); view_eq; by destruct (v_files v f)].
#[export] Instance filewrite_loop_eff k f addr i n : Eff (Y:=Y) (filewrite_loop k f addr i n) (fun _ v v' => moved f v v').
Proof.
  revert i. induction k as [|k IH]; intros i s a s' H; cbn [filewrite_loop] in H; run_in H; run_clean; gen_views; subst; try apply moved_refl;
    first [moved_now f v | eapply moved_trans; [|eassumption]; moved_now f v].
Qed.
#[export] Instance filewrite_eff f addr n : Eff (Y:=Y) (filewrite f addr n) (fun _ v v' => moved f v v').
Proof. intros s a s' H. unfold filewrite in H. run_in H; run_clean; gen_views; subst; try apply moved_refl; done. Qed.

(** Unused files have no type: closing a file that was only allocated undoes it. *)
Definition clean (v : view) : Prop := forall f, file_ok f = true -> f_ref (v_files v f) = 0 -> f_type (v_files v f) = FD_NONE.
Definition newly (f : Z) (v : view) : view := set_files f ((v_files v f) <| f_ref := 1 |>) v.
Lemma close_new f v : f_ref (v_files v f) = 0 -> f_type (v_files v f) = FD_NONE -> closed f (newly f v) = v.
Proof.
  intros Hr Ht. unfold closed, newly. cbn. rewrite !upd_eq. cbn. change (1 <? 1) with false. cbv iota. rewrite Ht.
  view_eq. destruct (v_files v f). cbn in Hr, Ht. by subst.
Qed.
Definition read_end (pi : Z) (p : file) : file := p <| f_ref := 1 |> <| f_type := FD_PIPE |> <| readable := true |> <| writable := false |> <| f_pipe := pi |>.
Definition write_end (pi : Z) (p : file) : file := p <| f_ref := 1 |> <| f_type := FD_PIPE |> <| readable := false |> <| writable := true |> <| f_pipe := pi |>.
Definition free_file (f : Z) (v : view) : Prop := file_ok f = true ∧ f_ref (v_files v f) = 0.
Definition pipe_made (f0 f1 : Z) (v v' : view) : Prop :=
  f0 ≠ f1 ∧ free_file f0 v ∧ free_file f1 v ∧
  ∃ pi, v' = set_files f1 (write_end pi (v_files v f1)) (set_files f0 (read_end pi (v_files v f0)) v).

Lemma file_ok_ne f : file_ok f = true -> f ≠ -1.
Proof. unfold file_ok. intros [H _]%andb_true_iff. lia. Qed.
Lemma newly_comm f0 f1 v : f0 ≠ f1 -> newly f1 (newly f0 v) = newly f0 (newly f1 v).
Proof. intros Hne. unfold newly. view_eq. Qed.
Lemma newly_other f g v : g ≠ f -> v_files (newly f v) g = v_files v g.
Proof. intros Hne. unfold newly. cbn. by rewrite upd_ne. Qed.
Lemma newly_ref f g v : file_ok g = true -> f_ref (v_files (newly f v) g) = 0 -> g ≠ f ∧ f_ref (v_files v g) = 0.
Proof. intros _. unfold newly. cbn. unfold upd. destruct (decide (g = f)); [done|]. done. Qed.

(** [pipealloc_bad] with one or two new files. *)
Lemma pipealloc_bad_eff f0 f1 s a s' v :
  pipealloc_bad f0 f1 s = Ok a s' -> clean v -> free_file f0 v ->
  (f1 = -1 ∧ vw (Y:=Y) s = newly f0 v) ∨ (f0 ≠ f1 ∧ free_file f1 v ∧ vw s = newly f1 (newly f0 v)) ->
  a = None ∧ vw s' = v.
Proof.
  intros H Hc [Ok0 Hr0] Hv. pose proof (file_ok_ne _ Ok0). unfold pipealloc_bad in H. rewrite (proj2 (Z.eqb_neq f0 (-1))) in H by done. cbn [negb] in H.
  destruct Hv as [[-> Hv]|(Hne & [Ok1 Hr1] & Hv)].
  - change (negb (-1 =? -1)) with false in H. run_in H; run_clean; subst. split; [done|]. apply close_new; [done|by apply Hc].
  - pose proof (file_ok_ne _ Ok1). rewrite (proj2 (Z.eqb_neq f1 (-1))) in H by done. cbn [negb] in H. run_in H; run_clean; subst. split; [done|].
    rewrite (newly_comm f0 f1) by done. rewrite (close_new f0 (newly f1 v)); [apply close_new; [done|by apply Hc]| |]; rewrite newly_other by done; [done|by apply Hc].
Qed.
#[export] Instance pipealloc_eff : Eff (Y:=Y) pipealloc (fun r v v' => clean v -> match r with None => v' = v | Some (f0, f1) => pipe_made f0 f1 v v' end).
Proof.
  intros s a s' H Hc. unfold pipealloc in H. apply bind_inv in H as (f0 & s1 & H1 & H). run_in H1.
  destruct E as [[-> E]|(Hok0 & Hr0 & E)].
  { change (-1 =? -1) with true in H. cbv iota in H. unfold pipealloc_bad in H. change (negb (-1 =? -1)) with false in H. run_in H; run_done. }
  pose proof (file_ok_ne _ Hok0). rewrite (proj2 (Z.eqb_neq f0 (-1))) in H by done. apply bind_inv in H as (f1 & s2 & H2 & H). run_in H2.
  fold (newly f0 (vw s)) in E. destruct E0 as [[-> E0]|(Hok1 & Hr1 & E0)].
  { change (-1 =? -1) with true in H. cbv iota in H. apply (pipealloc_bad_eff _ _ _ _ _ (vw s)) in H as [-> H]; [done|done|done|]. left. by rewrite E0. }
  pose proof (file_ok_ne _ Hok1). rewrite (proj2 (Z.eqb_neq f1 (-1))) in H by done. fold (newly f1 (vw s1)) in E0. rewrite E in *.
  apply newly_ref in Hr1 as [Hne Hr1]; [|done]. apply bind_inv in H as (pi & s3 & H3 & H). run_in H3. red in E1.
  destruct (pi =? -1).
  { apply (pipealloc_bad_eff _ _ _ _ _ (vw s)) in H as [-> H]; [done|done|done|]. right. by rewrite E1, E0. }
  run_in H. run_clean. subst. split; [done|]. split; [done|]. split; [done|]. exists pi. gen_views. unfold newly. view_eq.
Qed.

(** ** Arguments and descriptors *)
#[export] Instance argraw_eff n : Eff (Y:=Y) (argraw n) same.
Proof. intros s a s' H. unfold argraw in H. run_in H; run_done. Qed.
#[export] Instance argint_eff n : Eff (Y:=Y) (argint n) same.
Proof. intros s a s' H. unfold argint in H. run_in H; run_done. Qed.
#[export] Instance argaddr_eff n : Eff (Y:=Y) (argaddr n) same.
Proof. intros s a s' H. unfold argaddr in H. run_in H; run_done. Qed.
#[export] Instance fetchstr_eff addr max : Eff (Y:=Y) (fetchstr addr max) same.
Proof. intros s a s' H. unfold fetchstr in H. run_in H; run_done. Qed.
#[export] Instance argstr_eff n max : Eff (Y:=Y) (argstr n max) same.
Proof. intros s a s' H. unfold argstr in H. run_in H; run_done. Qed.

Definition fd_ok (fd : Z) : Prop := 0 <= fd < NOFILE.
(** [fd] stands for the file [f] in the running process. *)
Definition fd_is (v : view) (fd f : Z) : Prop := fd_ok fd ∧ v_ofile v (v_pid v) fd = f.
#[export] Instance argfd_eff n : Eff (Y:=Y) (argfd n) (fun r v v' => v' = v ∧ match r with None => True | Some (fd, f) => fd_is v fd f ∧ f ≠ -1 end).
Proof.
  intros s a s' H. unfold argfd in H. run_in H; run_clean; subst; try done. apply orb_false_iff in Eb as [? ?].
  split; [done|]. split; [split; [unfold fd_ok; lia|done]|lia].
Qed.
(** The descriptor given out is the lowest one that is not in use. *)
Definition new_fd (r f : Z) (v v' : view) : Prop :=
  (r = -1 ∧ v' = v ∧ forall fd, fd_ok fd -> v_ofile v (v_pid v) fd ≠ -1) ∨
  (fd_is v r (-1) ∧ (forall fd, 0 <= fd < r -> v_ofile v (v_pid v) fd ≠ -1) ∧ v' = set_fd r f v).
Lemma fdalloc_loop_eff k fd f s a s' :
  fdalloc_loop k fd f s = Ok a s' -> 0 <= fd -> fd + Z.of_nat k = NOFILE -> (forall i, 0 <= i < fd -> v_ofile (vw (Y:=Y) s) (v_pid (vw s)) i ≠ -1) ->
  new_fd a f (vw s) (vw s').
Proof.
  revert fd s. induction k as [|k IH]; intros fd s H H0 Hk Hi; cbn [fdalloc_loop] in H.
  - run_in H. left. split; [done|]. split; [done|]. intros i Hr. apply Hi. unfold fd_ok in Hr. lia.
  - apply bind_inv in H as (o & s1 & H1 & H). run_in H1. destruct E as [-> E]. destruct (Z.eqb_spec (v_ofile (vw s) (v_pid (vw s)) fd) (-1)) as [Eo|Eo].
    + run_in H. run_clean. subst. right. split; [split; [unfold fd_ok; lia|done]|done].
    + rewrite <- E in *. apply (IH (fd + 1)) in H; [done|lia|lia|]. intros i Hr. destruct (decide (i = fd)) as [->|]; [done|apply Hi; lia].
Qed.
#[export] Instance fdalloc_eff f : Eff (Y:=Y) (fdalloc f) (fun r v v' => new_fd r f v v').
Proof. intros s a s' H. apply fdalloc_loop_eff in H; [done|lia|done|]. intros i Hi. exfalso. lia. Qed.

(** ** System calls *)
#[export] Instance sys_dup_eff : Eff (Y:=Y) sys_dup (fun r v v' => (r = -1 ∧ v' = v) ∨
  ∃ fd0 f, fd_is v fd0 f ∧ file_ok f = true ∧ 1 <= f_ref (v_files v f) ∧ fd_is v r (-1) ∧ (forall fd, 0 <= fd < r -> v_ofile v (v_pid v) fd ≠ -1) ∧
    v' = set_fd r f (set_files f ((v_files v f) <| f_ref ::= Z.succ |>) v)).
Proof.
  intros s a s' H. unfold sys_dup in H. run_in H; run_clean; gen_views; subst; [destruct E0 as [(-> & -> & _)|(Hf & _ & ->)]|destruct E0 as [(-> & _)|(Hf & Hl & ->)]|]; try (by left).
  - destruct Hf as [Hf _]. unfold fd_ok in Hf. lia.
  - right. exists z, z0. split_and!; try done; view_eq.
Qed.
#[export] Instance sys_read_eff : Eff (Y:=Y) sys_read (fun r v v' => (r = -1 ∧ v' = v) ∨ ∃ f, moved f v v').
Proof. intros s a s' H. unfold sys_read in H. run_in H; run_clean; gen_views; subst; eauto. Qed.
#[export] Instance sys_write_eff : Eff (Y:=Y) sys_write (fun r v v' => (r = -1 ∧ v' = v) ∨ ∃ f, moved f v v').
Proof. intros s a s' H. unfold sys_write in H. run_in H; run_clean; gen_views; subst; eauto. Qed.
#[export] Instance sys_close_eff : Eff (Y:=Y) sys_close (fun r v v' => (r = -1 ∧ v' = v) ∨
  ∃ fd f, r = 0 ∧ fd_is v fd f ∧ file_ok f = true ∧ 1 <= f_ref (v_files v f) ∧ v' = set_fd fd (-1) (closed f v)).
Proof.
  intros s a s' H. unfold sys_close in H. run_in H; run_clean; gen_views; subst; [|by left]. right. exists z, z0.
  split_and!; try done. unfold closed. cbn. repeat case_match; view_eq.
Qed.
#[export] Instance sys_fstat_eff : Eff (Y:=Y) sys_fstat same.
Proof. intros s a s' H. unfold sys_fstat in H. run_in H; run_done. Qed.
#[export] Instance add_nlink_eff ip d : Eff (Y:=Y) (add_nlink ip d) same.
Proof. intros s a s' H. unfold add_nlink in H. run_in H; run_done. Qed.
#[export] Instance link_bad_eff ip : Eff (Y:=Y) (link_bad ip) (fun _ v v' => inode_ok ip = true ∧ v_inode v ip = (false, false) ∧ v' = add_ref ip (-1) (v <| v_outstanding ::= Z.add (-1) |>)).
Proof. intros s a s' H. unfold link_bad in H. run_in H; run_done. Qed.
#[export] Instance sys_link_eff : Eff (Y:=Y) sys_link same.
Proof. intros s a s' H. unfold sys_link in H. run_in H; run_done. Qed.
#[export] Instance isdirempty_loop_eff k dp off : Eff (Y:=Y) (isdirempty_loop k dp off) same.
Proof. revert off. induction k as [|k IH]; intros off s a s' H; cbn [isdirempty_loop] in H; run_in H; run_done. Qed.
#[export] Instance isdirempty_eff dp : Eff (Y:=Y) (isdirempty dp) same.
Proof. intros s a s' H. unfold isdirempty in H. run_in H; run_done. Qed.
#[export] Instance unlink_bad_eff dp : Eff (Y:=Y) (unlink_bad dp)
  (fun _ v v' => inode_ok dp = true ∧ v_inode v dp = (true, false) ∧ v' = add_ref dp (-1) (unlock_inode dp (v <| v_outstanding ::= Z.add (-1) |>))).
Proof. intros s a s' H. unfold unlink_bad in H. run_in H; run_done. Qed.
#[export] Instance sys_unlink_eff : Eff (Y:=Y) sys_unlink same.
Proof. intros s a s' H. unfold sys_unlink in H. run_in H; run_done. Qed.

(** A new or existing inode, locked, with a reference. *)
Definition got_inode (r : Z) (v v' : view) : Prop :=
  (r = -1 ∧ v' = v) ∨ (r ≠ -1 ∧ v_inode v r = (false, false) ∧ v' = lock_inode r (add_ref r 1 v)).
Ltac run_cases :=
  unfold got_inode, new_file, new_fd in *; run_clean;
  repeat match goal with E : _ ∨ _ |- _ => destruct E end; run_clean; gen_views; subst; cbn [fst snd] in *; taken_simpl.
#[export] Instance create_eff path ty mj mn : Eff (Y:=Y) (create path ty mj mn) got_inode.
Proof.
  intros s a s' H. unfold create in H. run_in H; run_clean; gen_views; subst; cbn [fst snd] in *; taken_simpl;
    first [by left|left; split; [done|]; solve [view_eq]|right; split_and!; [lia|view_simpl; view_part|view_eq]].
Qed.
#[export] Instance open_inode_eff path omode : Eff (Y:=Y) (open_inode path omode) (fun r v v' =>
  (r = -1 ∧ v' = v <| v_outstanding ::= Z.add (-1) |>) ∨ (r ≠ -1 ∧ v_inode v r = (false, false) ∧ v' = lock_inode r (add_ref r 1 v))).
Proof.
  intros s a s' H. unfold open_inode in H. run_in H; run_clean; gen_views; subst; unfold got_inode in *; taken_simpl;
    first [destruct E as [[-> ->]|(? & ? & ->)]|idtac]; try lia; try by left.
  all: first [left; split; [done|]; solve [view_eq]|right; split_and!; [lia|view_simpl; view_part|view_eq]].
Qed.
#[export] Instance open_fail_eff ip : Eff (Y:=Y) (open_fail ip)
  (fun r v v' => r = -1 ∧ inode_ok ip = true ∧ v_inode v ip = (true, false) ∧ v' = add_ref ip (-1) (unlock_inode ip (v <| v_outstanding ::= Z.add (-1) |>))).
Proof. intros s a s' H. unfold open_fail in H. run_in H; run_done. Qed.
#[export] Instance made_eff ip : Eff (Y:=Y) (made ip) (fun _ v v' =>
  (ip = -1 ∧ v' = v <| v_outstanding ::= Z.add (-1) |>) ∨
  (ip ≠ -1 ∧ v_inode v ip = (true, false) ∧ v' = add_ref ip (-1) (unlock_inode ip (v <| v_outstanding ::= Z.add (-1) |>)))).
Proof. intros s a s' H. unfold made in H. run_in H; run_clean; gen_views; subst; [left|right]; split_and!; try lia; try done; view_eq. Qed.
#[export] Instance sys_mkdir_eff : Eff (Y:=Y) sys_mkdir same.
Proof.
  intros s a s' H. unfold sys_mkdir in H. run_in H; run_cases; try lia; view_eq.
Qed.
#[export] Instance sys_mknod_eff : Eff (Y:=Y) sys_mknod same.
Proof.
  intros s a s' H. unfold sys_mknod in H. run_in H; run_cases; try lia; view_eq.
Qed.
#[export] Instance umod_cwd_eff ip : Eff (Y:=Y) (umod (fun u => u <| cwd := ip |>)) (fun _ v v' => v' = v <| v_cwd := ip |>) | 0.
Proof. by intros s a s' [= _ <-]. Qed.
#[export] Instance sys_chdir_eff : Eff (Y:=Y) sys_chdir (fun r v v' => (r = -1 ∧ v' = v) ∨
  ∃ ip, r = 0 ∧ v' = (add_ref (v_cwd v) (-1) (add_ref ip 1 v)) <| v_cwd := ip |>).
Proof.
  intros s a s' H. unfold sys_chdir in H. run_in H; run_cases; first [left; split; [done|]; solve [view_eq]|right; eexists; split; [done|]; view_eq].
Qed.
(** The file that [sys_open] makes of the inode [ip]. *)
Definition open_of (ip : Z) (p : file) : Prop := f_ref p = 1 ∧ (f_type p = FD_INODE ∨ f_type p = FD_DEVICE) ∧ f_ip p = ip.
Definition lowest_fd (r : Z) (v : view) : Prop := fd_is v r (-1) ∧ (forall fd, 0 <= fd < r -> v_ofile v (v_pid v) fd ≠ -1).
Lemma open_file_eff ip i omode s a s' v : open_file ip i omode s = Ok a s' -> clean v -> vw (Y:=Y) s = v ->
  (a = -1 ∧ v_inode v ip = (true, false) ∧ vw s' = add_ref ip (-1) (unlock_inode ip (v <| v_outstanding ::= Z.add (-1) |>))) ∨
  (∃ f q, lowest_fd a v ∧ free_file f v ∧ open_of ip q ∧ v_inode v ip = (true, false) ∧ vw s' = set_fd a f (set_files f q (unlock_inode ip (v <| v_outstanding ::= Z.add (-1) |>)))).
Proof.
  intros H Hc <-. unfold open_file in H. apply bind_inv in H as (f & s1 & H1 & H). run_in H1. destruct E as [[-> E]|(Hok & Hr & E)].
  { change (-1 =? -1) with true in H. cbv iota in H. run_in H. run_clean. by left. }
  rewrite (proj2 (Z.eqb_neq f (-1))) in H by (by apply file_ok_ne). fold (newly f (vw s)) in E.
  apply bind_inv in H as (fd & s2 & H2 & H). run_in H2. rewrite E in E0. destruct E0 as [(-> & E0 & _)|(Hfd & Hlow & E0)].
  { change (-1 <? 0) with true in H. cbv iota in H. run_in H. run_clean. rewrite (close_new f (vw s) Hr (Hc f Hok Hr)) in *. by left. }
  assert ((fd <? 0) = false) as Hneg by (destruct Hfd as [[? ?] _]; lia). rewrite Hneg in H. right. exists f.
  apply bind_inv in H as (? & s3 & H3 & H).
  assert (Hq : ∃ t, (t = FD_INODE ∨ t = FD_DEVICE) ∧ ∃ q, vw s3 = set_files f q (vw s2) ∧ f_ref q = f_ref (v_files (vw s2) f) ∧ f_type q = t)
    by (destruct (_ =? _); run_in H3; run_clean; [exists FD_DEVICE|exists FD_INODE]; (split; [by auto|eexists; split; [reflexivity|done]])).
  destruct Hq as (t & Ht & q & E3 & Hqr & Hqt). rewrite E0 in *. cbn in Hqr. rewrite upd_eq in Hqr. cbn in Hqr.
  exists (q <| f_ip := ip |> <| readable := (Z.land omode O_WRONLY =? 0) |>
    <| writable := negb (Z.land omode O_WRONLY =? 0) || negb (Z.land omode O_RDWR =? 0) |>).
  assert (Hopen : open_of ip (q <| f_ip := ip |> <| readable := (Z.land omode O_WRONLY =? 0) |>
    <| writable := negb (Z.land omode O_WRONLY =? 0) || negb (Z.land omode O_RDWR =? 0) |>)) by (split_and!; [done|by subst t|done]).
  run_in H; run_clean; subst; split_and!; try done; unfold newly; view_eq.
Qed.
#[export] Instance sys_open_eff : Eff (Y:=Y) sys_open (fun r v v' => clean v -> (r = -1 ∧ v' = v) ∨
  ∃ f q, lowest_fd r v ∧ free_file f v ∧ open_of (f_ip q) q ∧ v' = set_fd r f (set_files f q (add_ref (f_ip q) 1 v))).
Proof.
  intros s a s' H Hc. unfold sys_open in H. run_in H; run_clean;
    repeat match goal with E : _ ∨ _ |- _ => destruct E end; run_clean; try (gen_views; subst; left; split; [done|]; solve [view_eq]); try (gen_views; lia).
  match goal with E : vw ?t = _, H : open_file _ _ _ ?t = _ |- _ => apply (open_file_eff _ _ _ _ _ _ _ H) in E; [|exact Hc]; clear H; rename E into Hend end.
  destruct Hend as [(-> & ? & E)|(f & q & Hl & Hf & (Hq1 & Hq2 & <-) & ? & E)]; rewrite E; gen_views.
  - left. split; [done|]. view_eq.
  - right. exists f, q. split_and!; try done. view_eq.
Qed.

Definition dead (p : file) : file := p <| f_ref := 0 |> <| f_type := FD_NONE |>.
Lemma closed_pipe f v : f_ref (v_files v f) = 1 -> f_type (v_files v f) = FD_PIPE -> closed f v = set_files f (dead (v_files v f)) v.
Proof. intros Hr Ht. unfold closed. rewrite Hr, Ht. done. Qed.
(** Two files were taken and given back. *)
Definition given_back (v v' : view) : Prop :=
  ∃ rf wf p0 p1, rf ≠ wf ∧ free_file rf v ∧ free_file wf v ∧ v' = set_files wf (dead p1) (set_files rf (dead p0) v).
Lemma close_both rf wf v v1 : pipe_made rf wf v v1 -> given_back v (closed wf (closed rf v1)).
Proof.
  intros (Hne & H0 & H1 & pi & ->). exists rf, wf, (read_end pi (v_files v rf)), (write_end pi (v_files v wf)). split_and!; [done|done|done|].
  rewrite (closed_pipe rf); [|cbn; by rewrite upd_ne, upd_eq..].
  rewrite (closed_pipe wf); [|cbn; by rewrite upd_ne, upd_eq..]. view_eq.
Qed.
Lemma closed_set_fd f fd x v : closed f (set_fd fd x v) = set_fd fd x (closed f v).
Proof. unfold closed. cbn. repeat case_match; view_eq. Qed.
Lemma set_fd_back fd f v : fd_is v fd (-1) -> set_fd fd (-1) (set_fd fd f v) = v.
Proof. intros [_ H]. view_eq. Qed.
Lemma set_fd_other fd0 fd1 f v : fd_is (set_fd fd0 f v) fd1 (-1) -> f ≠ -1 -> fd0 ≠ fd1 ∧ fd_is v fd1 (-1).
Proof. intros [Hk H] Hf. cbn in H. rewrite upd_eq in H. unfold upd in H. destruct (decide (fd1 = fd0)) as [->|]; [done|]. done. Qed.
Lemma set_fd_back2 fd0 fd1 f g v :
  fd0 ≠ fd1 -> fd_is v fd0 (-1) -> fd_is v fd1 (-1) -> set_fd fd1 (-1) (set_fd fd0 (-1) (set_fd fd1 g (set_fd fd0 f v))) = v.
Proof. intros Hne [_ H0] [_ H1]. view_eq. Qed.

Definition piped (v v' : view) : Prop :=
  ∃ rf wf fd0 fd1 v1, pipe_made rf wf v v1 ∧ fd0 ≠ fd1 ∧ fd_is v fd0 (-1) ∧ fd_is v fd1 (-1) ∧ v' = set_fd fd1 wf (set_fd fd0 rf v1).
#[export] Instance sys_pipe_eff : Eff (Y:=Y) sys_pipe (fun r v v' => clean v -> (r = -1 ∧ (v' = v ∨ given_back v v')) ∨ (r = 0 ∧ piped v v')).
Proof.
  intros s a s' H Hc. unfold sys_pipe in H. apply bind_inv in H as (fa & s1 & H1 & H). run_in H1. red in E.
  apply bind_inv in H as (pp & s2 & H2 & H). run_in H2. rewrite E in *. specialize (E0 Hc). destruct pp as [[rf wf]|]; [|run_in H; by auto].
  assert (Hsame : v_ofile (vw s2) = v_ofile (vw s) ∧ v_pid (vw s2) = v_pid (vw s)) by (by destruct E0 as (_ & _ & _ & pi & ->)). destruct Hsame as [Ho Hp].
  assert (Hrf : rf ≠ -1) by (destruct E0 as (_ & [Hf _] & _); by apply file_ok_ne).
  pose proof (close_both rf wf _ _ E0) as Hback. apply bind_inv in H as (fd0 & s3 & H3 & H). run_in H3.
  destruct E1 as [(-> & E1 & _)|(Hfd0 & _ & E1)].
  { change (-1 <? 0) with true in H. change (0 <=? -1) with false in H. cbv iota in H. cbn [orb] in H. run_in H. run_clean. by auto. }
  assert (Hr0 : (fd0 <? 0) = false ∧ (0 <=? fd0) = true) by (destruct Hfd0 as [[? ?] _]; split; lia). destruct Hr0 as [Hr0 Hr0'].
  rewrite Hr0, Hr0' in H. cbv iota in H. cbn [orb] in H. apply bind_inv in H as (fd1 & s4 & H4 & H). run_in H4. rewrite E1 in E2.
  destruct E2 as [(-> & E2 & _)|(Hfd1 & _ & E2)].
  { change (-1 <? 0) with true in H. cbv iota in H. run_in H. run_clean. subst. rewrite (set_fd_back fd0 rf _ Hfd0). by auto. }
  assert (Hr1 : (fd1 <? 0) = false) by (destruct Hfd1 as [[? ?] _]; lia). rewrite Hr1 in H. cbv iota in H.
  apply set_fd_other in Hfd1 as [Hne Hfd1]; [|done]. pose proof (set_fd_back2 fd0 fd1 rf wf _ Hne Hfd0 Hfd1) as Hb.
  run_in H; run_clean; subst; rewrite ?Hb; [by auto..|]. right. split; [done|]. exists rf, wf, fd0, fd1, (vw s2).
  unfold fd_is in *. rewrite <- Ho, <- Hp. by destruct Hfd0, Hfd1.
Qed.
End effects.
