(* ===== verification/FileInv.v ===== *)
(** * FileInv: the reference counts of open files and inodes are exact

    The invariant of the table of open files: the count of an open file is the number
    of descriptors that stand for it, and the count of an in-memory inode is the
    number of open files and current directories that stand for it.  Every file system
    call keeps it, on every path on which it returns, and leaves all locks as they were. *)

From stdpp Require Import gmap.
From S2P Require Import Prelude Bytes SleepLock Bio Log Fs Fcntl KFile SysFile KView SysView.

(** ** Sums *)
Fixpoint total {A} (w : A -> Z) (xs : list A) : Z :=
  match xs with [] => 0 | x :: xs' => w x + total w xs' end.
Lemma total_ext {A} (w w' : A -> Z) xs : (forall x, x ∈ xs -> w' x = w x) -> total w' xs = total w xs.
Proof. induction xs as [|x xs IH]; intros H; [done|]. simpl. rewrite (H x), IH; [done| |]; set_solver. Qed.
Lemma total_upd {A} (w w' : A -> Z) xs k :
  NoDup xs -> k ∈ xs -> (forall x, x ∈ xs -> x ≠ k -> w' x = w x) -> total w' xs = total w xs - w k + w' k.
Proof.
  induction 1 as [|x xs Hx Hnd IH]; intros Hk H; [by apply elem_of_nil in Hk|]. simpl. apply elem_of_cons in Hk as [->|Hk].
  - rewrite (total_ext w w' xs); [lia|]. intros y Hy. apply H; [set_solver|]. by intros ->.
  - rewrite IH by (done || set_solver). rewrite (H x); [lia|set_solver|]. by intros ->.
Qed.
Lemma total_pos {A} (w : A -> Z) xs k : k ∈ xs -> (forall x, 0 <= w x) -> w k <= total w xs.
Proof.
  intros Hk Hw. induction xs as [|x xs IH]; [by apply elem_of_nil in Hk|]. simpl. pose proof (Hw x).
  assert (0 <= total w xs) by (clear -Hw; induction xs as [|y xs IH]; simpl; [lia|]; pose proof (Hw y); lia).
  apply elem_of_cons in Hk as [->|Hk]; [lia|]. specialize (IH Hk). lia.
Qed.
Definition b2z (b : bool) : Z := if b then 1 else 0.

(** ** References *)
Definition fd_refs (o : Z -> Z) (f : Z) : Z := total (fun fd => b2z (o fd =? f)) (seqZ 0 NOFILE).
(** The file is open on the inode. *)
Definition open_on (p : file) (ip : Z) : bool := match f_type p with FD_INODE | FD_DEVICE => f_ip p =? ip | _ => false end.

(** Parts that an update does not touch. *)
Ltac vproj :=
  repeat match goal with
  | |- context [v_files (set_fd ?a ?b ?x)] => change (v_files (set_fd a b x)) with (v_files x)
  | |- context [v_files (add_ref ?a ?b ?x)] => change (v_files (add_ref a b x)) with (v_files x)
  | |- context [v_ofile (set_files ?a ?b ?x)] => change (v_ofile (set_files a b x)) with (v_ofile x)
  | |- context [v_ofile (add_ref ?a ?b ?x)] => change (v_ofile (add_ref a b x)) with (v_ofile x)
  | |- context [v_pid (set_fd ?a ?b ?x)] => change (v_pid (set_fd a b x)) with (v_pid x)
  | |- context [v_pid (set_files ?a ?b ?x)] => change (v_pid (set_files a b x)) with (v_pid x)
  | |- context [v_pid (add_ref ?a ?b ?x)] => change (v_pid (add_ref a b x)) with (v_pid x)
  | |- context [v_cwd (set_fd ?a ?b ?x)] => change (v_cwd (set_fd a b x)) with (v_cwd x)
  | |- context [v_cwd (set_files ?a ?b ?x)] => change (v_cwd (set_files a b x)) with (v_cwd x)
  | |- context [v_cwd (add_ref ?a ?b ?x)] => change (v_cwd (add_ref a b x)) with (v_cwd x)
  | |- context [v_ref (set_fd ?a ?b ?x)] => change (v_ref (set_fd a b x)) with (v_ref x)
  | |- context [v_ref (set_files ?a ?b ?x)] => change (v_ref (set_files a b x)) with (v_ref x)
  end.

Section inv.
(** The processes, and the references to inodes that are not those of open files and
    of the running process. *)
Context (procs : list Z) (Hnd : NoDup procs) (others : Z -> Z).

Definition refs (v : view) (f : Z) : Z := total (fun p => fd_refs (v_ofile v p) f) procs.
Definition uses (v : view) (ip : Z) : Z := total (fun f => b2z (open_on (v_files v f) ip)) (seqZ 0 NFILE).

Record file_inv (v : view) : Prop := FileInv {
  inv_pid : v_pid v ∈ procs;
  inv_fd : forall p fd, p ∈ procs -> fd_ok fd -> v_ofile v p fd = -1 ∨ file_ok (v_ofile v p fd) = true;
  inv_ref : forall f, file_ok f = true -> f_ref (v_files v f) = refs v f;
  inv_type : forall f, file_ok f = true -> f_type (v_files v f) = FD_NONE <-> f_ref (v_files v f) = 0;
  inv_inode : forall ip, v_ref v ip = uses v ip + b2z (v_cwd v =? ip) + others ip
}.

(** The parts of the view that tell which locks are held. *)
Definition locks (v : view) :=
  (v_bcache v, v_log v, v_itable v, v_ftable v, v_buf v, v_inode v, v_outstanding v, v_committing v).

(** A descriptor of process [q]. *)
Definition set_fd_of (q fd f : Z) (v : view) : view := v <| v_ofile ::= fun o => upd o q (upd (o q) fd f) |>.
Lemma refs_set_fd_of q fd x v f : q ∈ procs -> fd_ok fd ->
  refs (set_fd_of q fd x v) f = refs v f - b2z (v_ofile v q fd =? f) + b2z (x =? f).
Proof.
  intros Hp Hfd. unfold refs. rewrite (total_upd (fun p => fd_refs (v_ofile v p) f) (fun p => fd_refs (v_ofile (set_fd_of q fd x v) p) f) procs q); [|done|done|].
  - assert (v_ofile (set_fd_of q fd x v) q = upd (v_ofile v q) fd x) as -> by apply upd_eq.
    unfold fd_refs. rewrite (total_upd (fun i => b2z (v_ofile v q i =? f)) (fun i => b2z (upd (v_ofile v q) fd x i =? f)) (seqZ 0 NOFILE) fd).
    + rewrite upd_eq. lia.
    + apply NoDup_seqZ.
    + apply elem_of_seqZ. unfold fd_ok in Hfd. lia.
    + intros i _ Hi. by rewrite upd_ne.
  - intros p _ Hne. assert (v_ofile (set_fd_of q fd x v) p = v_ofile v p) as -> by (by apply upd_ne). done.
Qed.
Lemma refs_set_fd fd x v f : v_pid v ∈ procs -> fd_ok fd ->
  refs (set_fd fd x v) f = refs v f - b2z (v_ofile v (v_pid v) fd =? f) + b2z (x =? f).
Proof. apply (refs_set_fd_of (v_pid v)). Qed.
Lemma uses_set_files f p v ip : file_ok f = true ->
  uses (set_files f p v) ip = uses v ip - b2z (open_on (v_files v f) ip) + b2z (open_on p ip).
Proof.
  intros Hf. unfold uses. rewrite (total_upd (fun g => b2z (open_on (v_files v g) ip)) (fun g => b2z (open_on (v_files (set_files f p v) g) ip)) (seqZ 0 NFILE) f).
  - assert (v_files (set_files f p v) f = p) as -> by apply upd_eq. lia.
  - apply NoDup_seqZ.
  - apply elem_of_seqZ. apply andb_true_iff in Hf. lia.
  - intros g _ Hg. assert (v_files (set_files f p v) g = v_files v g) as -> by (by apply upd_ne). done.
Qed.

(** The counts do not see the other parts. *)
Lemma refs_same v v' f : v_ofile v' = v_ofile v -> refs v' f = refs v f.
Proof. unfold refs. by intros ->. Qed.
Lemma uses_same v v' ip : v_files v' = v_files v -> uses v' ip = uses v ip.
Proof. unfold uses. by intros ->. Qed.
Lemma files_set_files f p v g : v_files (set_files f p v) g = if decide (g = f) then p else v_files v g.
Proof. done. Qed.

Lemma inv_clean v : file_inv v -> clean v.
Proof. intros Hi f Hf Hr. by apply (inv_type v Hi). Qed.
Lemma fd_ref_pos v fd f : file_inv v -> fd_is v fd f -> file_ok f = true -> 1 <= refs v f.
Proof.
  intros Hi [Hk Hf] Hok. assert (Hb : forall b, 0 <= b2z b) by (intros []; done).
  assert (Hfd : forall o, 0 <= fd_refs o f).
  { intros o. unfold fd_refs. generalize (seqZ 0 NOFILE). intros l. induction l as [|x l IH]; simpl; [done|]. specialize (Hb (o x =? f)). lia. }
  pose proof (total_pos (fun p => fd_refs (v_ofile v p) f) procs (v_pid v) (inv_pid v Hi) (fun p => Hfd _)) as Ha. cbv beta in Ha.
  pose proof (total_pos (fun i => b2z (v_ofile v (v_pid v) i =? f)) (seqZ 0 NOFILE) fd) as Hc. cbv beta in Hc. rewrite Hf, Z.eqb_refl in Hc.
  change (total (fun i => b2z (v_ofile v (v_pid v) i =? f)) (seqZ 0 NOFILE)) with (fd_refs (v_ofile v (v_pid v)) f) in Hc.
  specialize (Hc ltac:(apply elem_of_seqZ; unfold fd_ok in Hk; lia) (fun i => Hb _)). unfold refs. simpl in Hc. lia.
Qed.

(** Descriptors after they are set. *)
Lemma fd_set_of v q fd f : (f = -1 ∨ file_ok f = true) ->
  (forall p i, p ∈ procs -> fd_ok i -> v_ofile v p i = -1 ∨ file_ok (v_ofile v p i) = true) ->
  forall p i, p ∈ procs -> fd_ok i -> v_ofile (set_fd_of q fd f v) p i = -1 ∨ file_ok (v_ofile (set_fd_of q fd f v) p i) = true.
Proof.
  intros Hf H p i Hp Hi. cbn. unfold upd. destruct (decide (p = q)) as [->|]; [|by apply H]. destruct (decide (i = fd)); [done|by apply H].
Qed.
Lemma fd_set v fd f : (f = -1 ∨ file_ok f = true) ->
  (forall p i, p ∈ procs -> fd_ok i -> v_ofile v p i = -1 ∨ file_ok (v_ofile v p i) = true) ->
  forall p i, p ∈ procs -> fd_ok i -> v_ofile (set_fd fd f v) p i = -1 ∨ file_ok (v_ofile (set_fd fd f v) p i) = true.
Proof. apply (fd_set_of v (v_pid v)). Qed.

Lemma eqb_b2z x y : x ≠ y -> b2z (x =? y) = 0.
Proof. intros H. by rewrite (proj2 (Z.eqb_neq x y) H). Qed.
Lemma eqb_b2z_refl x : b2z (x =? x) = 1.
Proof. by rewrite Z.eqb_refl. Qed.
Lemma b2z_dec x y : b2z (x =? y) = if decide (y = x) then 1 else 0.
Proof. case_decide; [subst; by rewrite Z.eqb_refl|by apply eqb_b2z]. Qed.

(** Another descriptor, of process [q], for an open file. *)
Lemma inv_dup_of v f q r :
  file_inv v -> file_ok f = true -> 1 <= f_ref (v_files v f) -> q ∈ procs -> fd_ok r -> v_ofile v q r = -1 ->
  file_inv (set_fd_of q r f (set_files f ((v_files v f) <| f_ref ::= Z.succ |>) v)).
Proof.
  intros [H1 H2 H3 H4 H5] Hok Hpos Hq Hk Hr. set (v1 := set_files f ((v_files v f) <| f_ref ::= Z.succ |>) v).
  assert (Hf : forall g, v_files (set_fd_of q r f v1) g = if decide (g = f) then (v_files v f) <| f_ref ::= Z.succ |> else v_files v g) by done. split.
  - done.
  - apply fd_set_of; [by right|done].
  - intros g Hg. rewrite Hf, refs_set_fd_of by done. rewrite (refs_same v) by done. change (v_ofile v1 q r) with (v_ofile v q r).
    rewrite Hr, (eqb_b2z (-1) g) by (by apply not_eq_sym, file_ok_ne).
    case_decide as E; [subst g; cbn; rewrite eqb_b2z_refl, (H3 f Hok); lia|]. rewrite eqb_b2z by done. rewrite (H3 g Hg). lia.
  - intros g Hg. rewrite Hf. case_decide as E; [subst g; cbn|by apply H4]. rewrite (H4 f Hok). unfold Z.succ. lia.
  - intros ip. rewrite (uses_same v1) by done. unfold v1. rewrite uses_set_files by done. change (v_ref (set_fd_of q r f _)) with (v_ref v). rewrite H5.
    change (open_on ((v_files v f) <| f_ref ::= Z.succ |>) ip) with (open_on (v_files v f) ip). cbn. lia.
Qed.
Lemma inv_dup v fd0 f r :
  file_inv v -> fd_is v fd0 f -> file_ok f = true -> fd_is v r (-1) ->
  file_inv (set_fd r f (set_files f ((v_files v f) <| f_ref ::= Z.succ |>) v)).
Proof.
  intros Hi Hf Hok [Hk Hr]. apply (inv_dup_of v f (v_pid v) r); try done; [|apply Hi]. rewrite (inv_ref v Hi f Hok). by eapply fd_ref_pos.
Qed.
(** A new file with a descriptor. *)
Lemma inv_new v w f q r :
  file_inv v -> free_file f v -> fd_is v r (-1) -> f_ref q = 1 -> f_type q ≠ FD_NONE ->
  v_pid w = v_pid v -> v_ofile w = v_ofile v -> v_files w = v_files v -> v_cwd w = v_cwd v ->
  (forall ip, v_ref w ip = v_ref v ip + b2z (open_on q ip)) -> file_inv (set_fd r f (set_files f q w)).
Proof.
  intros [H1 H2 H3 H4 H5] [Hok Hr] [Hk Hfd] Hq Ht Wp Wo Wf Wc Wr.
  assert (Hn : open_on (v_files v f) = open_on (v_files v f) ∧ f_type (v_files v f) = FD_NONE) by (split; [done|by apply H4]). destruct Hn as [_ Hn]. split.
  - vproj. by rewrite Wp.
  - apply fd_set; [by right|]. vproj. by rewrite Wo.
  - intros g Hg. rewrite refs_set_fd by (vproj; rewrite ?Wp; done). rewrite (refs_same v) by done. vproj. rewrite Wo, Wp, Hfd, (eqb_b2z (-1) g) by (by apply not_eq_sym, file_ok_ne).
    rewrite files_set_files. case_decide as E; [subst g; rewrite eqb_b2z_refl, Hq, <- (H3 f Hok); lia|]. rewrite eqb_b2z by done. rewrite Wf, (H3 g Hg). lia.
  - intros g Hg. vproj. rewrite files_set_files. case_decide as E; [|rewrite Wf; by apply H4]. split; [done|]. rewrite Hq. done.
  - intros ip. rewrite (uses_same (set_files f q w)) by done. rewrite uses_set_files by done. vproj. rewrite Wr, Wc, Wf, H5.
    rewrite (uses_same v w) by done. unfold open_on at 2. rewrite Hn. cbn. lia.
Qed.
(** A file given back unused. *)
Lemma inv_dead v f p : file_inv v -> free_file f v -> file_inv (set_files f (dead p) v).
Proof.
  intros [H1 H2 H3 H4 H5] [Hok Hr]. split; [done|done|..].
  - intros g Hg. rewrite (refs_same v) by done. rewrite files_set_files. case_decide as E; [subst g; rewrite <- (H3 f Hok), Hr; done|by apply H3].
  - intros g Hg. rewrite files_set_files. case_decide as E; [done|by apply H4].
  - intros ip. rewrite uses_set_files by done. vproj. rewrite H5. unfold open_on at 1. rewrite (proj2 (H4 f Hok) Hr). cbn. lia.
Qed.
Lemma inv_given_back v v' : file_inv v -> given_back v v' -> file_inv v'.
Proof.
  intros Hi (rf & wf & p0 & p1 & Hne & H0 & [H1 H1'] & ->). apply inv_dead; [by apply inv_dead|]. split; [done|].
  rewrite files_set_files, decide_False by done. done.
Qed.
Lemma inv_moved v v' f : file_inv v -> moved f v v' -> file_inv v'.
Proof.
  intros [H1 H2 H3 H4 H5] [o ->].
  assert (Hs : forall g, f_ref (v_files (set_files f ((v_files v f) <| f_off := o |>) v) g) = f_ref (v_files v g) ∧
    f_type (v_files (set_files f ((v_files v f) <| f_off := o |>) v) g) = f_type (v_files v g) ∧
    f_ip (v_files (set_files f ((v_files v f) <| f_off := o |>) v) g) = f_ip (v_files v g)).
  { intros g. rewrite files_set_files. by case_decide as E; [subst g|]. }
  split; [done|done|..].
  - intros g Hg. rewrite (refs_same v) by done. rewrite (proj1 (Hs g)). by apply H3.
  - intros g Hg. destruct (Hs g) as (-> & -> & _). by apply H4.
  - intros ip. assert (uses (set_files f ((v_files v f) <| f_off := o |>) v) ip = uses v ip) as ->; [|apply H5].
    apply total_ext. intros g _. destruct (Hs g) as (_ & E1 & E2). unfold open_on. by rewrite E1, E2.
Qed.
Lemma inv_chdir v ip : file_inv v -> file_inv ((add_ref (v_cwd v) (-1) (add_ref ip 1 v)) <| v_cwd := ip |>).
Proof.
  intros [H1 H2 H3 H4 H5]. split; [done|done|done|done|]. intros j. rewrite (uses_same v) by done.
  assert (v_ref ((add_ref (v_cwd v) (-1) (add_ref ip 1 v)) <| v_cwd := ip |>) j = v_ref v j - b2z (v_cwd v =? j) + b2z (ip =? j)) as ->; [|rewrite H5; cbn; lia].
  rewrite !b2z_dec. cbn. unfold upd. repeat case_decide; try congruence; subst; lia.
Qed.
(** A descriptor less. *)
Lemma inv_drop v w f q fd :
  file_inv v -> fd_is v fd f -> file_ok f = true -> f_ref q = f_ref (v_files v f) - 1 -> (f_type q = FD_NONE <-> f_ref q = 0) ->
  v_pid w = v_pid v -> v_ofile w = v_ofile v -> v_files w = v_files v -> v_cwd w = v_cwd v ->
  (forall ip, v_ref w ip = v_ref v ip - b2z (open_on (v_files v f) ip) + b2z (open_on q ip)) -> file_inv (set_fd fd (-1) (set_files f q w)).
Proof.
  intros [H1 H2 H3 H4 H5] [Hk Hfd] Hok Hq Ht Wp Wo Wf Wc Wr. split.
  - vproj. by rewrite Wp.
  - apply fd_set; [by left|]. vproj. by rewrite Wo.
  - intros g Hg. rewrite refs_set_fd by (vproj; rewrite ?Wp; done). rewrite (refs_same v) by done. vproj. rewrite Wo, Wp, Hfd, (eqb_b2z (-1) g) by (by apply not_eq_sym, file_ok_ne).
    rewrite files_set_files. case_decide as E; [subst g; rewrite eqb_b2z_refl, Hq, <- (H3 f Hok); lia|]. rewrite eqb_b2z by done. rewrite Wf, (H3 g Hg). lia.
  - intros g Hg. vproj. rewrite files_set_files. case_decide as E; [done|rewrite Wf; by apply H4].
  - intros ip. rewrite (uses_same (set_files f q w)) by done. rewrite uses_set_files by done. vproj. rewrite Wr, Wc, Wf, H5.
    rewrite (uses_same v w) by done. lia.
Qed.
Lemma inv_close v fd f : file_inv v -> fd_is v fd f -> file_ok f = true -> file_inv (set_fd fd (-1) (closed f v)).
Proof.
  intros Hi Hfd Hok. pose proof (fd_ref_pos v fd f Hi Hfd Hok) as Hpos. rewrite <- (inv_ref v Hi f Hok) in Hpos.
  assert (Hn : f_type (v_files v f) ≠ FD_NONE) by (rewrite (inv_type v Hi f Hok); lia). unfold closed. destruct (Z.ltb_spec 1 (f_ref (v_files v f))).
  - apply (inv_drop v v); try done; cbn; [unfold Z.pred; split; [done|lia]|]. intros ip.
    change (open_on ((v_files v f) <| f_ref ::= Z.pred |>) ip) with (open_on (v_files v f) ip). lia.
  - assert (Hc : closed f v = set_files f (dead (v_files v f)) (match f_type (v_files v f) with FD_INODE | FD_DEVICE => add_ref (f_ip (v_files v f)) (-1) v | _ => v end)).
    { unfold closed. rewrite (proj2 (Z.ltb_ge 1 (f_ref (v_files v f)))) by lia. by destruct (f_type (v_files v f)). }
    unfold closed in Hc. rewrite (proj2 (Z.ltb_ge 1 (f_ref (v_files v f)))) in Hc by lia. rewrite Hc. clear Hc.
    apply (inv_drop v); try done; try (by destruct (f_type (v_files v f))); [cbn; lia|]. intros ip. change (open_on (dead (v_files v f)) ip) with false.
    unfold open_on. destruct (f_type (v_files v f)); try done; cbn; try lia; rewrite b2z_dec; unfold upd; case_decide; subst; lia.
Qed.
Lemma inv_open v r f q : file_inv v -> fd_is v r (-1) -> free_file f v -> open_of (f_ip q) q ->
  file_inv (set_fd r f (set_files f q (add_ref (f_ip q) 1 v))).
Proof.
  intros Hi Hr Hf (Hq & Ht & _). apply (inv_new v); try done; [by destruct Ht as [-> | ->]|]. intros ip.
  assert (open_on q ip = (f_ip q =? ip)) as -> by (unfold open_on; by destruct Ht as [-> | ->]). rewrite b2z_dec. cbn. unfold upd. case_decide; subst; lia.
Qed.
Lemma inv_pipe v v' : file_inv v -> piped v v' -> file_inv v'.
Proof.
  intros Hi (rf & wf & fd0 & fd1 & v1 & (Hne & H0 & H1 & pi & ->) & Hd & Hf0 & Hf1 & ->).
  assert (Hi1 : file_inv (set_fd fd0 rf (set_files rf (read_end pi (v_files v rf)) v))).
  { apply (inv_new v); try done. intros ip. cbn. lia. }
  assert (E : set_fd fd1 wf (set_fd fd0 rf (set_files wf (write_end pi (v_files v wf)) (set_files rf (read_end pi (v_files v rf)) v))) =
    set_fd fd1 wf (set_files wf (write_end pi (v_files v wf)) (set_fd fd0 rf (set_files rf (read_end pi (v_files v rf)) v)))) by view_eq.
  rewrite E. apply (inv_new _ _ _ _ _ Hi1); try done.
  - destruct H1 as [Hok Hr]. split; [done|]. vproj. rewrite files_set_files, decide_False by done. done.
  - destruct Hf1 as [Hk Hf1]. split; [done|]. cbn. rewrite upd_eq. by rewrite upd_ne.
  - intros ip. cbn. lia.
Qed.
End inv.

(** Other processes, and other references to inodes. *)
Lemma inv_shift procs o o' v v' :
  file_inv procs o v -> v_pid v' ∈ procs -> v_ofile v' = v_ofile v -> v_files v' = v_files v ->
  (forall ip, v_ref v' ip - b2z (v_cwd v' =? ip) - o' ip = v_ref v ip - b2z (v_cwd v =? ip) - o ip) -> file_inv procs o' v'.
Proof.
  intros [H1 H2 H3 H4 H5] Hp Ho Hf Hr. split; [done|by rewrite Ho|intros f Hok; rewrite Hf, (refs_same procs v) by done; by apply H3|by rewrite Hf|].
  intros ip. rewrite (uses_same v) by done. specialize (H5 ip). specialize (Hr ip). lia.
Qed.
Lemma fd_refs_none o f : file_ok f = true -> (forall fd, fd_ok fd -> o fd = -1) -> fd_refs o f = 0.
Proof.
  intros Hf Ho. unfold fd_refs. assert (Hl : forall l, (forall i, i ∈ l -> o i = -1) -> total (fun fd => b2z (o fd =? f)) l = 0).
  { intros l. induction l as [|x l IH]; intros H; simpl; [done|]. rewrite H by set_solver. rewrite IH by set_solver. rewrite eqb_b2z; [done|].
    by apply not_eq_sym, file_ok_ne. }
  apply Hl. intros i Hi. apply Ho. apply elem_of_seqZ in Hi. unfold fd_ok. lia.
Qed.
Lemma inv_join procs o v q : file_inv procs o v -> (forall fd, fd_ok fd -> v_ofile v q fd = -1) -> file_inv (q :: procs) o v.
Proof.
  intros [H1 H2 H3 H4 H5] Hq. split; [by right| |..]; try done.
  - intros p fd [->|Hp]%elem_of_cons Hfd; [left; by apply Hq|by apply H2].
  - intros f Hf. unfold refs. simpl. rewrite (fd_refs_none (v_ofile v q)) by done. by apply H3.
Qed.
Lemma total_delete (w : Z -> Z) xs q : NoDup xs -> q ∈ xs -> total w (filter (fun p => p ≠ q) xs) = total w xs - w q.
Proof.
  induction 1 as [|x xs Hx Hnd IH]; intros Hq; [by apply elem_of_nil in Hq|]. rewrite filter_cons. apply elem_of_cons in Hq as [->|Hq].
  - rewrite decide_False by auto. assert (filter (fun p => p ≠ x) xs = xs) as ->; [|simpl; lia].
    clear -Hx. induction xs as [|y xs IH]; [done|]. rewrite filter_cons, decide_True by set_solver. f_equal. apply IH. set_solver.
  - rewrite decide_True by set_solver. simpl. rewrite IH by done. lia.
Qed.
Lemma inv_leave procs o v q : NoDup procs -> file_inv procs o v -> q ∈ procs -> v_pid v ≠ q -> (forall fd, fd_ok fd -> v_ofile v q fd = -1) ->
  file_inv (filter (fun p => p ≠ q) procs) o v.
Proof.
  intros Hnd [H1 H2 H3 H4 H5] Hin Hne Hq. split; try done.
  - by apply list_elem_of_filter.
  - intros p fd [_ Hp]%list_elem_of_filter Hfd. by apply H2.
  - intros f Hf. unfold refs. rewrite total_delete by done. rewrite (fd_refs_none (v_ofile v q)) by done. rewrite (H3 f Hf). unfold refs. lia.
Qed.
