(* ===== verification/FileSys.v ===== *)
(** * FileSys: processes making file system calls

    Any number of processes that make file system calls, fork and exit, one call at a
    time: in every state they can reach, the reference counts of open files and of
    inodes are exact and no lock is held. *)

From stdpp Require Import gmap.
From S2P Require Import Prelude Bytes SleepLock Bio Log Fs Fcntl KFile SysFile KView SysView FileInv.

Section calls.
Context {Y : Type} `{!Peers Y}.
Abbreviation St := (fs (ftop (ist (fstate Y)))).
Implicit Types (s : St) (v : view).

(** What no call changes: the locks, the running process, the tables of the others. *)
Definition apart (v v' : view) : Prop :=
  locks v' = locks v ∧ v_pid v' = v_pid v ∧ forall p, p ≠ v_pid v -> v_ofile v' p = v_ofile v p.
Lemma apart_refl v : apart v v.
Proof. done. Qed.
Lemma apart_trans v1 v2 v3 : apart v1 v2 -> apart v2 v3 -> apart v1 v3.
Proof. intros (A1 & A2 & A3) (B1 & B2 & B3). split_and!; [congruence|congruence|]. intros p Hp. rewrite B3 by congruence. by apply A3. Qed.
Lemma apart_set_fd fd f v : apart v (set_fd fd f v).
Proof. split_and!; [done|done|]. intros p Hp. cbn. by rewrite upd_ne. Qed.
Lemma apart_set_files f p v : apart v (set_files f p v).
Proof. done. Qed.
Lemma apart_add_ref i d v : apart v (add_ref i d v).
Proof. done. Qed.
Lemma apart_closed f v : apart v (closed f v).
Proof. unfold closed. by repeat case_match. Qed.

Lemma call_keeps procs others c s r s' :
  NoDup procs -> run_call c s = Ok r s' -> file_inv procs others (vw s) -> file_inv procs others (vw s') ∧ apart (vw s) (vw s').
Proof.
  intros Hnd H Hi. pose proof (inv_clean _ _ _ Hi) as Hc. destruct c; cbn [run_call] in H; apply eff in H; cbv beta in H.
  - destruct (H Hc) as [[_ [-> |Hg]]|[_ Hp]]; [done| |].
    + split; [by eapply inv_given_back|]. by destruct Hg as (? & ? & ? & ? & _ & _ & _ & ->).
    + split; [by eapply inv_pipe|]. destruct Hp as (? & ? & ? & ? & v1 & (_ & _ & _ & ? & ->) & _ & _ & _ & ->).
      eapply apart_trans; [|apply apart_set_fd]. eapply apart_trans; [|apply apart_set_fd]. done.
  - destruct H as [[_ ->]|[f Hm]]; [done|]. split; [by eapply inv_moved|]. by destruct Hm as [? ->].
  - by rewrite H.
  - destruct H as [[_ ->]|(ip & _ & ->)]; [done|]. split; [by apply inv_chdir|done].
  - destruct H as [[_ ->]|(fd0 & f & H1 & H2 & _ & H4 & _ & ->)]; [done|]. split; [by eapply inv_dup|].
    eapply apart_trans; [|apply apart_set_fd]. done.
  - destruct (H Hc) as [[_ ->]|(f & q & [H1 _] & H2 & H3 & ->)]; [done|]. split; [by apply inv_open|].
    eapply apart_trans; [|apply apart_set_fd]. done.
  - destruct H as [[_ ->]|[f Hm]]; [done|]. split; [by eapply inv_moved|]. by destruct Hm as [? ->].
  - by rewrite H.
  - by rewrite H.
  - by rewrite H.
  - by rewrite H.
  - destruct H as [[_ ->]|(fd & f & _ & H1 & H2 & _ & ->)]; [done|]. split; [by apply inv_close|].
    eapply apart_trans; [apply apart_closed|apply apart_set_fd].
Qed.

(** ** exit *)
Lemma close_all xs procs others s a s' :
  NoDup procs -> Forall fd_ok xs -> file_inv procs others (vw s) ->
  for_each xs (fun fd => f ← get_ofile fd; when (negb (f =? -1)) (fileclose f;; set_ofile fd (-1))) s = Ok a s' ->
  file_inv procs others (vw s') ∧ apart (vw s) (vw s') ∧ v_cwd (vw s') = v_cwd (vw s) ∧
  forall fd, fd ∈ xs ∨ v_ofile (vw s) (v_pid (vw s)) fd = -1 -> v_ofile (vw s') (v_pid (vw s)) fd = -1.
Proof.
  intros Hnd Hxs. revert s. induction Hxs as [|fd xs Hk _ IH]; intros s Hi H; cbn [for_each] in H.
  { run_in H. split_and!; try done. intros fd [Hf%elem_of_nil|]; done. }
  apply bind_inv in H as (? & s1 & H1 & H).
  assert (Hs : file_inv procs others (vw s1) ∧ apart (vw s) (vw s1) ∧ v_cwd (vw s1) = v_cwd (vw s) ∧
    forall i, i = fd ∨ v_ofile (vw s) (v_pid (vw s)) i = -1 -> v_ofile (vw s1) (v_pid (vw s)) i = -1).
  { apply bind_inv in H1 as (f & s2 & H2 & H1). run_in H2. destruct E as [-> E]. apply when_inv in H1 as [[Ef H1]|[Ef H1]].
    - run_in H1. destruct E0 as (Hok & _ & E0). rewrite E in E0. rewrite E0 in E1. rewrite E1. split; [by apply inv_close|]. split.
      + eapply apart_trans; [apply apart_closed|apply apart_set_fd].
      + assert (Hv : v_pid (closed (v_ofile (vw s) (v_pid (vw s)) fd) (vw s)) = v_pid (vw s) ∧ v_cwd (closed (v_ofile (vw s) (v_pid (vw s)) fd) (vw s)) = v_cwd (vw s) ∧
          v_ofile (closed (v_ofile (vw s) (v_pid (vw s)) fd) (vw s)) = v_ofile (vw s)) by (unfold closed; by repeat case_match).
        destruct Hv as (Hv1 & Hv2 & Hv3). set (w := closed _ _) in *. clearbody w. split; [exact Hv2|]. intros i Hi'. cbn. rewrite Hv1, Hv3, upd_eq.
        unfold upd. case_decide; [done|]. by destruct Hi'.
    - apply negb_false_iff, Z.eqb_eq in Ef. rewrite <- H1, E. split_and!; try done. intros i [->|]; done. }
  destruct Hs as (Hi1 & Ha1 & Hc1 & Hf1). destruct (IH s1 Hi1 H) as (Hi2 & Ha2 & Hc2 & Hf2). split; [done|]. split; [by eapply apart_trans|].
  split; [congruence|]. destruct Ha1 as (_ & Hp1 & _). rewrite Hp1 in Hf2. intros i Hi'. apply Hf2.
  destruct Hi' as [Hin|]; [|right; by auto]. apply elem_of_cons in Hin as [->|]; [right; by auto|by left].
Qed.
Lemma exit_keeps procs others s a s' :
  NoDup procs -> exit_files s = Ok a s' -> file_inv procs others (vw s) ->
  apart (vw s) (vw s') ∧ (forall fd, fd_ok fd -> v_ofile (vw s') (v_pid (vw s)) fd = -1) ∧
  file_inv procs others ((add_ref (v_cwd (vw s)) 1 (vw s')) <| v_cwd := v_cwd (vw s) |>).
Proof.
  intros Hnd H Hi. unfold exit_files in H. apply bind_inv in H as (? & s1 & H1 & H).
  assert (Hxs : Forall fd_ok (seqZ 0 NOFILE)) by (apply Forall_forall; intros fd Hfd; apply elem_of_seqZ in Hfd; unfold fd_ok; lia).
  destruct (close_all _ procs others s _ s1 Hnd Hxs Hi H1) as (Hi1 & Ha1 & Hc1 & Hf1). clear H1. run_in H. run_clean.
  split; [|split].
  - eapply apart_trans; [exact Ha1|]. split_and!; try done. unfold locks. cbn. repeat (apply pair_equal_spec; split); try done; lia.
  - intros fd Hfd. change (v_ofile (vw s1) (v_pid (vw s)) fd = -1). apply Hf1. left. apply elem_of_seqZ. unfold fd_ok in Hfd. lia.
  - rewrite <- Hc1. match goal with |- file_inv _ _ ?x => assert (x = vw s1) as -> by (gen_views; view_eq) end. done.
Qed.

(** ** fork *)
#[local] Instance set_ofile_of_eff np i f : Eff (Y:=Y) (xmod (fun x => x <| ofile ::= fun o => upd o np (upd (o np) i f) |>)) (fun _ v v' => v' = set_fd_of np i f v).
Proof. by intros s a s' [= _ <-]. Qed.
(** As [apart], for a new process [np]. *)
Definition beside (np : Z) (v v' : view) : Prop :=
  locks v' = locks v ∧ v_pid v' = v_pid v ∧ v_cwd v' = v_cwd v ∧ forall p, p ≠ np -> v_ofile v' p = v_ofile v p.
Lemma dup_all xs procs others np s a s' :
  NoDup procs -> np ∈ procs -> np ≠ v_pid (vw s) -> NoDup xs -> Forall fd_ok xs -> (forall i, i ∈ xs -> v_ofile (vw s) np i = -1) -> file_inv procs others (vw s) ->
  for_each xs (fun i => f ← get_ofile i; when (negb (f =? -1)) (f ← filedup f; xmod (fun x => x <| ofile ::= fun o => upd o np (upd (o np) i f) |>))) s = Ok a s' ->
  file_inv procs others (vw s') ∧ beside np (vw s) (vw s').
Proof.
  intros Hnd Hnp Hne Hxs Hk. revert s Hne. induction Hxs as [|i xs Hi Hxs IH]; intros s Hne Hfree Hinv H; cbn [for_each] in H; [by run_in H|].
  apply Forall_cons in Hk as [Hki Hk]. apply bind_inv in H as (? & s1 & H1 & H).
  assert (Hs : file_inv procs others (vw s1) ∧ beside np (vw s) (vw s1) ∧ forall j, j ≠ i -> v_ofile (vw s1) np j = v_ofile (vw s) np j).
  { apply bind_inv in H1 as (f & s2 & H2 & H1). run_in H2. destruct E as [-> E]. apply when_inv in H1 as [[Ef H1]|[Ef H1]]; [|by rewrite <- H1, E].
    run_in H1. destruct E0 as (-> & Hok & Hpos & E0). rewrite E in *. rewrite E0 in E1. rewrite E1. split; [|split].
    - apply inv_dup_of; try done. apply Hfree. by left.
    - split_and!; try done. intros p Hp. cbn. by rewrite upd_ne.
    - intros j Hj. cbn. rewrite upd_eq. by rewrite upd_ne. }
  destruct Hs as (Hi1 & (B1 & B2 & B3 & B4) & Hf1). destruct (IH Hk s1) as (Hi2 & C1 & C2 & C3 & C4); try done.
  - congruence.
  - intros j Hj. rewrite Hf1 by (by intros ->). apply Hfree. by right.
  - split; [done|]. split_and!; try congruence. intros p Hp. rewrite C4 by done. by apply B4.
Qed.
Lemma fork_keeps procs others np s c s' :
  NoDup procs -> np ∈ procs -> np ≠ v_pid (vw s) -> (forall i, fd_ok i -> v_ofile (vw s) np i = -1) -> file_inv procs others (vw s) -> fork_files np s = Ok c s' ->
  c = v_cwd (vw s) ∧ beside np (vw s) (vw s') ∧ file_inv procs (fun ip => others ip + b2z (c =? ip)) (vw s').
Proof.
  intros Hnd Hnp Hne Hfree Hi H. unfold fork_files in H. apply bind_inv in H as (x & s1 & H1 & H).
  assert (Hxs : Forall fd_ok (seqZ 0 NOFILE)) by (apply Forall_forall; intros fd Hfd; apply elem_of_seqZ in Hfd; unfold fd_ok; lia).
  destruct (dup_all _ procs others np s x s1 Hnd Hnp Hne (NoDup_seqZ _ _) Hxs) as (Hi1 & B1 & B2 & B3 & B4); [|done|done|].
  { intros i Hi'%elem_of_seqZ. apply Hfree. unfold fd_ok. lia. }
  clear H1. run_in H. run_clean. subst. split; [done|]. split; [done|]. apply (inv_shift procs others _ (vw s1)); try done; [apply Hi1|].
  intros ip. rewrite !b2z_dec. cbn. unfold upd. case_decide as E; [rewrite E|]; lia.
Qed.

#[local] Instance xmod_regs_eff g : Eff (Y:=Y) (xmod (fun x => x <| regs ::= g |>)) same.
Proof. by intros s a s' [= _ <-]. Qed.

(** ** The system *)
(** The state of the kernel with the running process, the current directories of all
    processes, and the processes. *)
Record config := Config { kst : St; cwds : Z -> Z; live : list Z }.
Definition running (c : config) : Z := v_pid (vw (kst c)).

(** The state [s'] is [s] with process [q] running.  User code changes registers and
    memory of its process, and nothing of the view. *)
Definition switched (q : Z) (cw : Z -> Z) (s s' : St) : Prop := vw s' = (vw s) <| v_pid := q |> <| v_cwd := cw q |>.

Inductive step : config -> config -> Prop :=
| step_call s cw l c s' :
    syscall_file c s = Ok tt s' -> step (Config s cw l) (Config s' (upd cw (v_pid (vw s)) (v_cwd (vw s'))) l)
| step_switch s cw l q s' :
    q ∈ l -> switched q cw s s' -> step (Config s cw l) (Config s' cw l)
| step_fork s cw l np c s' :
    np ∉ l -> fork_files np s = Ok c s' -> step (Config s cw l) (Config s' (upd cw np c) (np :: l))
| step_exit s cw l q s1 s' :
    exit_files s = Ok tt s1 -> q ∈ l -> q ≠ v_pid (vw s) -> switched q cw s1 s' ->
    step (Config s cw l) (Config s' cw (filter (fun p => p ≠ v_pid (vw s)) l)).

(** No lock is held and no operation is in progress. *)
Definition idle (v : view) : Prop :=
  v_bcache v = false ∧ v_log v = false ∧ v_itable v = false ∧ v_ftable v = false ∧
  (forall b, v_buf v b = (false, false)) ∧ (forall i, v_inode v i = (false, false)) ∧ v_outstanding v = 0 ∧ v_committing v = 0.
(** One process, no open file. *)
Definition start (c : config) : Prop :=
  live c = [running c] ∧ cwds c (running c) = v_cwd (vw (kst c)) ∧ idle (vw (kst c)) ∧
  (forall f, file_ok f = true -> f_ref (v_files (vw (kst c)) f) = 0 ∧ f_type (v_files (vw (kst c)) f) = FD_NONE) ∧
  (forall p fd, fd_ok fd -> v_ofile (vw (kst c)) p fd = -1) ∧
  (forall ip, v_ref (vw (kst c)) ip = b2z (v_cwd (vw (kst c)) =? ip)).

Definition cwd_refs (cw : Z -> Z) (l : list Z) (ip : Z) : Z := total (fun p => b2z (cw p =? ip)) l.
Record sys_inv (c : config) : Prop := {
  si_nodup : NoDup (live c);
  si_cwd : cwds c (running c) = v_cwd (vw (kst c));
  si_file : file_inv (live c) (fun ip => cwd_refs (cwds c) (live c) ip - b2z (v_cwd (vw (kst c)) =? ip)) (vw (kst c));
  si_none : forall p fd, p ∉ live c -> fd_ok fd -> v_ofile (vw (kst c)) p fd = -1;
  si_idle : idle (vw (kst c))
}.

Lemma idle_locks v v' : locks v' = locks v -> idle v -> idle v'.
Proof. unfold locks, idle. intros [= -> -> -> -> -> -> -> ->]. done. Qed.
Lemma cwd_refs_upd cw l p x ip : NoDup l -> p ∈ l -> cwd_refs (upd cw p x) l ip = cwd_refs cw l ip - b2z (cw p =? ip) + b2z (x =? ip).
Proof.
  intros Hnd Hp. unfold cwd_refs. rewrite (total_upd (fun q => b2z (cw q =? ip)) (fun q => b2z (upd cw p x q =? ip)) l p); [|done|done|].
  - by rewrite upd_eq.
  - intros q _ Hq. by rewrite upd_ne.
Qed.
Lemma fstart_inv c : start c -> sys_inv c.
Proof.
  destruct c as [s cw l]. unfold start, running. cbn [kst cwds live]. intros (-> & Hc & Hi & Hf & Ho & Hr). split; unfold running; cbn [kst cwds live]; try done; [by apply NoDup_singleton|..].
  - split; [by left|intros; left; by apply Ho|..].
    + intros f Hok. destruct (Hf f Hok) as [-> _]. unfold refs. simpl. rewrite fd_refs_none; [lia|done|]. intros fd Hfd. by apply Ho.
    + intros f Hok. by destruct (Hf f Hok) as [-> ->].
    + intros ip. rewrite Hr. unfold cwd_refs. cbn [total]. rewrite Hc. assert (uses (vw s) ip = 0) as ->; [|lia].
      unfold uses. assert (Hl : forall xs, (forall f, f ∈ xs -> file_ok f = true) -> total (fun f => b2z (open_on (v_files (vw s) f) ip)) xs = 0).
      { intros xs. induction xs as [|f xs IH]; intros H; cbn [total]; [done|]. rewrite IH by (intros g Hg; apply H; by right). unfold open_on.
        destruct (Hf f) as [_ ->]; [apply H; by left|]. done. }
      apply Hl. intros f Hfs%elem_of_seqZ. unfold file_ok. apply andb_true_iff. split; lia.
  - intros p fd _ Hfd. by apply Ho.
Qed.

Lemma switch_keeps l o cw q s s' :
  file_inv l (fun ip => o ip - b2z (v_cwd (vw s) =? ip)) (vw s) -> q ∈ l -> switched q cw s s' ->
  file_inv l (fun ip => o ip - b2z (v_cwd (vw s') =? ip)) (vw s').
Proof. unfold switched. intros Hf Hq ->. eapply inv_shift; [exact Hf|done|done|done|]. intros ip. set (v := vw s). cbn. lia. Qed.

Lemma step_inv c c' : step c c' -> sys_inv c -> sys_inv c'.
Proof.
  intros H [Hnd Hcw Hf Hn Hid]. destruct H as [s cw l c s' H|s cw l q s' Hq Hsw|s cw l np c s' Hnp H|s cw l q s1 s' H Hq Hne Hsw]; unfold running in *; cbn [kst cwds live] in *.
  - unfold syscall_file in H. apply bind_inv in H as (r & s1 & H1 & H). run_in H. red in E. rewrite E.
    destruct (call_keeps _ _ _ _ _ _ Hnd H1 Hf) as [Hf1 (Hl & Hp & Ho)].
    split; unfold running; cbn [kst cwds live]; rewrite ?E; [done|by rewrite Hp, upd_eq| |..].
    + eapply inv_shift; [exact Hf1|apply Hf1|done|done|]. intros ip. rewrite cwd_refs_upd by (done || apply Hf). rewrite Hcw. lia.
    + intros p fd Hpl Hfd. rewrite Ho; [by apply Hn|]. intros ->. apply Hpl, Hf.
    + by eapply idle_locks.
  - assert (Hv : vw s' = (vw s) <| v_pid := q |> <| v_cwd := cw q |>) by exact Hsw.
    split; unfold running; cbn [kst cwds live]; [done|by rewrite Hv|by eapply switch_keeps|by rewrite Hv|by rewrite Hv].
  - pose proof (inv_join _ _ _ np Hf (fun fd => Hn np fd Hnp)) as Hj. assert (Hpn : np ≠ v_pid (vw s)) by (intros ->; apply Hnp, Hf).
    assert (Hnd' : NoDup (np :: l)) by (by apply NoDup_cons). destruct (fork_keeps _ _ np s c s' Hnd' ltac:(by left) Hpn (fun fd => Hn np fd Hnp) Hj H) as (-> & (B1 & B2 & B3 & B4) & Hf').
    split; unfold running; cbn [kst cwds live]; rewrite ?B2, ?B3; [done|rewrite upd_ne by (by apply not_eq_sym); done| |..].
    + eapply inv_shift; [exact Hf'|apply Hf'|done|done|]. intros ip. unfold cwd_refs. cbn [total]. rewrite upd_eq, B3.
      rewrite (total_ext (fun p => b2z (cw p =? ip)) (fun p => b2z (upd cw np (v_cwd (vw s)) p =? ip)) l); [lia|].
      intros p Hp. rewrite upd_ne; [done|]. by intros ->.
    + intros p fd [Hp1 Hp2]%not_elem_of_cons Hfd. rewrite B4 by done. by apply Hn.
    + by eapply idle_locks.
  - destruct (exit_keeps _ _ _ _ _ Hnd H Hf) as ((Hl & Hp & Ho) & Hnone & Hf1).
    assert (Hv : vw s' = (vw s1) <| v_pid := q |> <| v_cwd := cw q |>) by exact Hsw. set (p0 := v_pid (vw s)) in *.
    assert (Hin0 : p0 ∈ l) by apply Hf.
    split; unfold running; cbn [kst cwds live].
    + by apply NoDup_filter.
    + by rewrite Hv.
    + apply inv_leave; [done| |done|by rewrite Hv|intros fd Hfd; rewrite Hv; by apply Hnone].
      eapply inv_shift; [exact Hf1|by rewrite Hv|by rewrite Hv|by rewrite Hv|]. intros ip. unfold cwd_refs. rewrite total_delete by done.
      rewrite Hcw, Hv. set (v1 := vw s1). set (c0 := v_cwd (vw s)). rewrite !b2z_dec. cbn. unfold upd.
      destruct (decide (ip = cwd (up (top s)))) as [->|]; destruct (decide (_ = cw q)); lia.
    + intros p fd Hpl Hfd. rewrite Hv. change (v_ofile (vw s1) p fd = -1). destruct (decide (p = p0)) as [->|Hpp]; [by apply Hnone|].
      rewrite Ho by done. apply Hn; [|done]. intros Hpin. apply Hpl. by apply list_elem_of_filter.
    + rewrite Hv. eapply (idle_locks (vw s1)); [done|]. by eapply idle_locks.
Qed.

(** [dup] returns. *)
Lemma fdalloc_returns k fd f s : ∃ r s', fdalloc_loop k fd f s = Ok r s' ∧ v_ftable (vw (Y:=Y) s') = v_ftable (vw s) ∧ v_files (vw s') = v_files (vw s).
Proof.
  revert fd. induction k as [|k IH]; intros fd; cbn [fdalloc_loop]; [by eexists _, _|]. rewrite (bind_Ok (get_ofile fd) _ s _ s eq_refl).
  destruct (_ =? -1); [|apply IH]. by eexists _, _.
Qed.
Lemma filedup_returns f s : v_ftable (vw (Y:=Y) s) = false -> file_ok f = true -> 1 <= f_ref (v_files (vw s) f) -> ∃ s', filedup f s = Ok f s'.
Proof.
  intros Hl Hok Hr. unfold filedup, acquire_spin, release_spin, get_file, set_file, mbind, M_bind. cbn in *. rewrite Hl, Hok. cbn.
  assert ((f_ref (files (ext (up (top s))) f) <? 1) = false) as -> by lia. cbn. by eexists.
Qed.
Lemma dup_returns procs others s :
  file_inv procs others (vw s) -> v_ftable (vw (Y:=Y) s) = false -> ∃ r s', sys_dup s = Ok r s'.
Proof.
  intros Hi Hl. unfold sys_dup. assert (Ha : ∃ a, argfd 0 s = Ok a s ∧ match a with Some (fd, f) => fd_is (vw s) fd f ∧ f ≠ -1 | None => True end).
  { unfold argfd. set (fd := i32 (regs (ext (up (top s))) 0)). rewrite (bind_Ok (argint 0) _ s fd s eq_refl).
    destruct ((fd <? 0) || (NOFILE <=? fd)) eqn:E; [by exists None|]. apply orb_false_iff in E as [E1 E2].
    rewrite (bind_Ok (get_ofile fd) _ s _ s eq_refl). set (f := ofile (ext (up (top s))) (mypid s) fd).
    destruct (Z.eqb_spec f (-1)); [by exists None|]. exists (Some (fd, f)). split; [done|]. split; [|done].
    split; [unfold fd_ok; lia|done]. }
  destruct Ha as (a & Ha & Hf). rewrite (bind_Ok _ _ _ _ _ Ha). destruct a as [[fd f]|]; [|by eexists _, _]. destruct Hf as [Hfd Hne].
  assert (Hok : file_ok f = true) by (destruct Hfd as [Hk <-]; destruct (inv_fd procs others (vw s) Hi (v_pid (vw s)) fd (inv_pid procs others (vw s) Hi) Hk); done).
  destruct (fdalloc_returns (Z.to_nat NOFILE) 0 f s) as (r & s1 & H1 & H2 & H3). rewrite (bind_Ok (fdalloc f) _ _ _ _ H1).
  destruct (r <? 0); [by eexists _, _|]. destruct (filedup_returns f s1) as [s2 Hd]; [by rewrite H2|done| |].
  - rewrite H3, (inv_ref _ _ _ Hi f Hok). by eapply fd_ref_pos.
  - rewrite (bind_Ok _ _ _ _ _ Hd). by eexists _, _.
Qed.

(** C10: The file system calls are well typed.  Given well-formed tables (every
    descriptor is free or stands for an open file, every file is counted by its
    descriptors and every inode by the files and directories that stand for it), each
    of the twelve calls that returns, with success or with an error, leaves the tables
    well-formed and every lock, the transaction count, the running process and the
    descriptors of other processes as they were; a descriptor that [open] or [dup]
    returns is the lowest one that was free. *)
Theorem calls_well_formed procs others c s r s' :
  NoDup procs -> file_inv procs others (vw s) -> run_call c s = Ok r s' ->
  file_inv procs others (vw s') ∧ apart (vw s) (vw s') ∧
  (c = SYS_open ∨ c = SYS_dup -> r = -1 ∨ (fd_ok r ∧ v_ofile (vw s) (v_pid (vw s)) r = -1 ∧ forall fd, 0 <= fd < r -> v_ofile (vw s) (v_pid (vw s)) fd ≠ -1)).
Proof.
  intros Hnd Hi H. destruct (call_keeps _ _ _ _ _ _ Hnd H Hi) as [H1 H2]. split; [done|]. split; [done|].
  intros [-> | ->]; cbn [run_call] in H; apply eff in H; cbv beta in H.
  - destruct (H (inv_clean _ _ _ Hi)) as [[-> _]|(f & q & [[Hk Hf] Hl] & _)]; [by left|by right].
  - destruct H as [[-> _]|(fd0 & f & _ & _ & _ & [Hk Hf] & Hl & _)]; [by left|by right].
Qed.

(** C9: However processes make file system calls, fork and exit, one call at a time,
    in every state they reach the reference count of an open file is the number of
    descriptors of all processes that stand for it, the reference count of an inode is
    the number of open files and current directories that stand for it, exactly the
    files without references are unused, and no lock is held and no transaction open:
    no path of sysfile.c, file.c and fs.c loses a reference, keeps a lock or skips an
    [end_op].  In such a state [dup] always returns: the panics of [filedup] cannot
    happen. *)
Theorem reference_counts (c c' : config) :
  start c -> rtc step c c' ->
  (forall f, file_ok f = true -> f_ref (v_files (vw (kst c')) f) = refs (live c') (vw (kst c')) f) ∧
  (forall f, file_ok f = true -> f_type (v_files (vw (kst c')) f) = FD_NONE <-> f_ref (v_files (vw (kst c')) f) = 0) ∧
  (forall ip, v_ref (vw (kst c')) ip = uses (vw (kst c')) ip + cwd_refs (cwds c') (live c') ip) ∧
  idle (vw (kst c')) ∧
  (∃ r s', run_call SYS_dup (kst c') = Ok r s').
Proof.
  intros Hs%fstart_inv Hr. assert (Hi : sys_inv c') by (revert Hs; induction Hr as [c|c c1 c' H _ IH]; intros Hs; [done|]; apply IH; by eapply step_inv).
  destruct Hi as [_ _ Hf _ Hid]. pose proof Hf as [_ _ H3 H4 H5]. split_and!; [done|done| |done|]; [intros ip; rewrite H5; lia|].
  eapply dup_returns; [exact Hf|apply Hid].
Qed.
End calls.

(** ** An example: a pipe, a child, and the exit of the parent *)
Module Example.
Definition peers : Peers unit := {|
  peer_copyout _ _ _ y := (0, y); peer_copyin _ _ n _ := (0, replicate (Z.to_nat n) 0); peer_copyinstr _ _ _ := Some [47];
  stat_pad := [0; 0; 0; 0]; peer_pipe_new := mret 7; peer_piperead _ _ _ := mret 0; peer_pipewrite _ _ n := mret n; peer_pipeclose _ _ := mret tt;
  dev_read _ := None; dev_write _ := None |}.
#[local] Existing Instance peers.
Abbreviation St := (fs (ftop (ist (fstate unit)))).
Definition unlocked : sleeplock := Sleeplock 0 false "" 0.
Definition s0 : St :=
  FS (Bcache false (fun _ => Buf 0 0 0 0 unlocked 0 0 0 []) (fun _ => []) []) 1
    (FTop (Log false 0 0 0 0 0 0 (fun _ => 0))
      (Ist false (fun i => Inode 1 1 (if i =? 3 then 1 else 0) unlocked 1 (Dinode 1 0 0 1 0 (fun _ => 0)))
        (Superblock 0 0 0 0 0 0 0 0) 3 []
        (FState false (fun _ => File FD_NONE 0 false false 0 0 0 0) (fun _ _ => -1) (fun _ => 0) tt))).
Definition after {A} (o : outcome St A) : St := match o with Ok _ s => s | _ => s0 end.
Definition returns {A} (o : outcome St A) : bool := match o with Ok _ _ => true | _ => false end.
Lemma returns_unit (o : outcome St unit) : returns o = true -> o = Ok tt (after o).
Proof. by destruct o as [[] s| | | | |]. Qed.

Definition s1 : St := after (syscall_file SYS_pipe s0).
Definition s2 : St := after (fork_files 2 s1).
Definition c0 : config := Config s0 (fun _ => 3) [1].
Definition c2 : config := Config s2 (upd (upd (fun _ => 3) 1 3) 2 3) [2; 1].
Lemma c0_start : start c0.
Proof. unfold start, idle. split_and!; try done. intros ip. cbn. by rewrite Z.eqb_sym. Qed.
Lemma c0_c2 : rtc step c0 c2.
Proof.
  eapply rtc_l; [apply (step_call s0 _ _ SYS_pipe s1); apply returns_unit; vm_compute; reflexivity|].
  eapply rtc_l; [|apply rtc_refl]. apply (step_fork s1 (upd (fun _ => 3) 1 3) [1] 2 3 s2); [by intros H%list_elem_of_singleton|].
  unfold s2. assert (H : match fork_files 2 s1 with Ok c _ => c =? 3 | _ => false end = true) by (vm_compute; reflexivity).
  destruct (fork_files 2 s1) as [c s| | | | |]; try done. apply Z.eqb_eq in H. by subst c.
Qed.
Definition r1 : St := after (run_call SYS_pipe s0).
End Example.

Lemma reference_counts_witness :
  f_ref (v_files (vw (kst Example.c2)) 1) = refs [2; 1] (vw (kst Example.c2)) 1 ∧ refs [2; 1] (vw (kst Example.c2)) 1 = 2 ∧ v_ref (vw (kst Example.c2)) 3 = 2.
Proof.
  pose proof Example.peers as Hpeers.
  split; [apply (proj1 (reference_counts Example.c0 Example.c2 Example.c0_start Example.c0_c2)); reflexivity|].
  split; vm_compute; reflexivity.
Defined.
Lemma calls_well_formed_witness :
  file_inv [1] (fun ip => cwd_refs (fun _ => 3) [1] ip - b2z (3 =? ip)) (vw Example.r1) ∧ apart (vw Example.s0) (vw Example.r1).
Proof.
  destruct (calls_well_formed (Y:=unit) (Peers0:=Example.peers) [1] (fun ip => cwd_refs (fun _ => 3) [1] ip - b2z (3 =? ip)) SYS_pipe Example.s0 0 Example.r1) as (H1 & H2 & _).
  - apply NoDup_singleton.
  - exact (si_file _ (fstart_inv _ Example.c0_start)).
  - assert (H : match run_call (Peers0:=Example.peers) SYS_pipe Example.s0 with Ok r _ => r =? 0 | _ => false end = true) by (vm_compute; reflexivity).
    unfold Example.r1. destruct (run_call SYS_pipe Example.s0) as [r s| | | | |]; try discriminate H. apply Z.eqb_eq in H. by subst r.
  - split; assumption.
Defined.
