(* ===== verification/MemC.v ===== *)
(** * MemC: kernel/string.c and the string functions of user/ulib.c

    Memory is a function from addresses to bytes ([char] is unsigned on RISC-V).
    A loop that counts down is a recursion on the count; a loop that runs up to
    a terminating 0 has fuel, and returns [None] when it is used up.  Addresses
    do not wrap around, and a count is smaller than 2^31, as everywhere the
    kernel and the programs call these functions. *)

From S2P Require Import Prelude Proc.

Abbreviation mem := (Z -> Z).

(** [n] bytes of memory from [a] on. *)
Definition bytes_from (m : mem) (a : Z) (n : nat) : list Z := (fun i => m (a + i)) <$> seqZ 0 (Z.of_nat n).

(** ** kernel/string.c *)

Fixpoint memset_loop (k : nat) (i dst c : Z) (m : mem) : mem :=
  match k with
  | O => m
  | S k' => memset_loop k' (i + 1) dst c (upd m (dst + i) (u8 c))
  end.
Definition memset (dst c n : Z) (m : mem) : mem := memset_loop (Z.to_nat n) 0 dst c m.

Fixpoint memcmp_loop (k : nat) (s1 s2 : Z) (m : mem) : Z :=
  match k with
  | O => 0
  | S k' => if negb (m s1 =? m s2) then m s1 - m s2 else memcmp_loop k' (s1 + 1) (s2 + 1) m
  end.
Definition memcmp (v1 v2 n : Z) (m : mem) : Z := memcmp_loop (Z.to_nat n) v1 v2 m.

(** [while(n-- > 0) *d++ = *s++] and [while(n-- > 0) *--d = *--s] *)
Fixpoint copy_up (k : nat) (d s : Z) (m : mem) : mem :=
  match k with
  | O => m
  | S k' => copy_up k' (d + 1) (s + 1) (upd m d (m s))
  end.
Fixpoint copy_down (k : nat) (d s : Z) (m : mem) : mem :=
  match k with
  | O => m
  | S k' => copy_down k' (d - 1) (s - 1) (upd m (d - 1) (m (s - 1)))
  end.

Definition memmove (dst src n : Z) (m : mem) : mem :=
  if n =? 0 then m else
  if (src <? dst) && (dst <? src + n)
  then copy_down (Z.to_nat n) (dst + n) (src + n) m
  else copy_up (Z.to_nat n) dst src m.

Definition memcpy (dst src n : Z) (m : mem) : mem := memmove dst src n m.

Fixpoint strncmp_loop (k : nat) (p q : Z) (m : mem) : Z :=
  match k with
  | O => 0
  | S k' =>
      if negb (m p =? 0) && (m p =? m q) then strncmp_loop k' (p + 1) (q + 1) m
      else m p - m q
  end.
Definition strncmp (p q n : Z) (m : mem) : Z := strncmp_loop (Z.to_nat n) p q m.

(** The second loop of [strncpy]. *)
Fixpoint strncpy_pad (k : nat) (s : Z) (m : mem) : mem :=
  match k with
  | O => m
  | S k' => strncpy_pad k' (s + 1) (upd m s 0)
  end.
Fixpoint strncpy_loop (k : nat) (s t : Z) (m : mem) : mem :=
  match k with
  | O => m
  | S k' =>
      let m' := upd m s (m t) in
      if negb (m t =? 0) then strncpy_loop k' (s + 1) (t + 1) m'
      else strncpy_pad k' (s + 1) m'
  end.
Definition strncpy (s t n : Z) (m : mem) : mem := strncpy_loop (Z.to_nat n) s t m.

(** [safestrcpy] on memory; Proc.v has it on the cells of an array. *)
Fixpoint safestrcpy_mem_loop (k : nat) (s t : Z) (m : mem) : mem :=
  match k with
  | O => upd m s 0
  | S k' =>
      let m' := upd m s (m t) in
      if negb (m t =? 0) then safestrcpy_mem_loop k' (s + 1) (t + 1) m'
      else upd m' (s + 1) 0
  end.
Definition safestrcpy_mem (s t n : Z) (m : mem) : mem :=
  if n <=? 0 then m else safestrcpy_mem_loop (Z.to_nat (n - 1)) s t m.

Fixpoint strlen_loop (fuel : nat) (n s : Z) (m : mem) : option Z :=
  match fuel with
  | O => None
  | S fuel' => if negb (m (s + n) =? 0) then strlen_loop fuel' (n + 1) s m else Some n
  end.
Definition strlen (fuel : nat) (s : Z) (m : mem) : option Z := strlen_loop fuel 0 s m.

(** ** user/ulib.c *)

Fixpoint u_strcpy (fuel : nat) (s t : Z) (m : mem) : option mem :=
  match fuel with
  | O => None
  | S fuel' =>
      let m' := upd m s (m t) in
      if negb (m t =? 0) then u_strcpy fuel' (s + 1) (t + 1) m' else Some m'
  end.

Fixpoint u_strcmp (fuel : nat) (p q : Z) (m : mem) : option Z :=
  match fuel with
  | O => None
  | S fuel' =>
      if negb (m p =? 0) && (m p =? m q) then u_strcmp fuel' (p + 1) (q + 1) m
      else Some (m p - m q)
  end.

(** [None] is out of fuel, [Some None] the null pointer. *)
Fixpoint u_strchr (fuel : nat) (s c : Z) (m : mem) : option (option Z) :=
  match fuel with
  | O => None
  | S fuel' =>
      if m s =? 0 then Some None
      else if m s =? c then Some (Some s) else u_strchr fuel' (s + 1) c m
  end.

Definition u_memmove (vdst vsrc n : Z) (m : mem) : mem :=
  if vdst <? vsrc then copy_up (Z.to_nat n) vdst vsrc m
  else copy_down (Z.to_nat n) (vdst + n) (vsrc + n) m.

(** [n*10 + *s++ - '0'] in [int]. *)
Fixpoint u_atoi_loop (fuel : nat) (s n : Z) (m : mem) : option Z :=
  match fuel with
  | O => None
  | S fuel' =>
      if (48 <=? m s) && (m s <=? 57) then u_atoi_loop fuel' (s + 1) (i32 (n * 10 + m s - 48)) m
      else Some n
  end.
Definition u_atoi (fuel : nat) (s : Z) (m : mem) : option Z := u_atoi_loop fuel s 0 m.

(** The same code as in the kernel. *)
Definition u_memset (dst c n : Z) (m : mem) : mem := memset_loop (Z.to_nat n) 0 dst c m.
Definition u_memcmp (s1 s2 n : Z) (m : mem) : Z := memcmp_loop (Z.to_nat n) s1 s2 m.
Definition u_memcpy (dst src n : Z) (m : mem) : mem := u_memmove dst src n m.
Definition u_strlen (fuel : nat) (s : Z) (m : mem) : option Z := strlen_loop fuel 0 s m.

(** [gets]: [inp] is what is left of the standard input, [read] of one byte
    fails at its end.  The result is the memory and the rest of the input. *)
Fixpoint u_gets_loop (k : nat) (i buf : Z) (inp : list Z) (m : mem) : mem * list Z :=
  match k, inp with
  | S k', c :: inp' =>
      let m' := upd m (buf + i) c in
      if (c =? 10) || (c =? 13) then (upd m' (buf + (i + 1)) 0, inp')
      else u_gets_loop k' (i + 1) buf inp' m'
  | _, _ => (upd m (buf + i) 0, inp)
  end.
Definition u_gets (buf max : Z) (inp : list Z) (m : mem) : mem * list Z :=
  u_gets_loop (Z.to_nat (max - 1)) 0 buf inp m.

(** ** Copying *)

(** Memory [m] with the [n] bytes at [dst] those that were at [src]. *)
Definition copied (dst src n : Z) (m : mem) : mem :=
  fun a => if (dst <=? a) && (a <? dst + n) then m (src + (a - dst)) else m a.

(** Copying the first byte and then the rest, and the rest and then the last. *)
Lemma copied_up d s n m :
  0 <= n -> ~ (s < d < s + (n + 1)) -> copied (d + 1) (s + 1) n (upd m d (m s)) = copied d s (n + 1) m.
Proof.
  intros Hn Hov. apply functional_extensionality; intros a. unfold copied.
  destruct ((d + 1 <=? a) && (a <? d + 1 + n)) eqn:H1.
  - assert ((d <=? a) && (a <? d + (n + 1)) = true) as -> by lia. rewrite upd_ne by lia. f_equal. lia.
  - destruct (decide (a = d)) as [->|Hne].
    + rewrite upd_eq. assert ((d <=? d) && (d <? d + (n + 1)) = true) as -> by lia. f_equal. lia.
    + rewrite upd_ne by done. by assert ((d <=? a) && (a <? d + (n + 1)) = false) as -> by lia.
Qed.

Lemma copied_down d s n m :
  0 <= n -> ~ (d < s < d + (n + 1)) ->
  copied d s n (upd m (d + n) (m (s + n))) = copied d s (n + 1) m.
Proof.
  intros Hn Hov. apply functional_extensionality; intros a. unfold copied.
  destruct ((d <=? a) && (a <? d + n)) eqn:H1.
  - assert ((d <=? a) && (a <? d + (n + 1)) = true) as -> by lia. rewrite upd_ne by lia. done.
  - destruct (decide (a = d + n)) as [->|Hne].
    + rewrite upd_eq. assert ((d <=? d + n) && (d + n <? d + (n + 1)) = true) as -> by lia. f_equal. lia.
    + rewrite upd_ne by done. by assert ((d <=? a) && (a <? d + (n + 1)) = false) as -> by lia.
Qed.

Lemma copied_none dst src n m : n <= 0 -> copied dst src n m = m.
Proof.
  intros Hn. apply functional_extensionality; intros a. unfold copied.
  by assert ((dst <=? a) && (a <? dst + n) = false) as -> by lia.
Qed.

Lemma copy_up_copied k d s m :
  ~ (s < d < s + Z.of_nat k) -> copy_up k d s m = copied d s (Z.of_nat k) m.
Proof.
  revert d s m. induction k as [|k IH]; intros d s m Hov; simpl; [by rewrite copied_none|].
  rewrite Nat2Z.inj_succ in *. rewrite IH by lia. apply copied_up; lia.
Qed.

Lemma copy_down_copied k d s m :
  ~ (d < s < d + Z.of_nat k) -> copy_down k (d + Z.of_nat k) (s + Z.of_nat k) m = copied d s (Z.of_nat k) m.
Proof.
  revert m. induction k as [|k IH]; intros m Hov; simpl; [by rewrite copied_none|].
  rewrite Nat2Z.inj_succ in *. rewrite <- Z.add_1_r, <- copied_down by lia.
  replace (d + (Z.of_nat k + 1) - 1) with (d + Z.of_nat k) by lia.
  replace (s + (Z.of_nat k + 1) - 1) with (s + Z.of_nat k) by lia. apply IH. lia.
Qed.
Lemma memmove_copied dst src n m : 0 <= n -> memmove dst src n m = copied dst src n m.
Proof.
  intros Hn. unfold memmove. destruct (n =? 0) eqn:H0; [by rewrite copied_none by lia|].
  destruct ((src <? dst) && (dst <? src + n)) eqn:Hov.
  - rewrite <- (Z2Nat.id n) at 2 3 by lia. rewrite copy_down_copied by lia. by rewrite Z2Nat.id.
  - rewrite copy_up_copied by lia. by rewrite Z2Nat.id.
Qed.

Lemma u_memmove_copied dst src n m : 0 <= n -> u_memmove dst src n m = copied dst src n m.
Proof.
  intros Hn. unfold u_memmove. destruct (dst <? src) eqn:Hov.
  - rewrite copy_up_copied by lia. by rewrite Z2Nat.id.
  - rewrite <- (Z2Nat.id n) at 2 3 by lia. rewrite copy_down_copied by lia. by rewrite Z2Nat.id.
Qed.

(** memmove, in the kernel and in the user library: the [n] bytes at [dst]
    become those that were at [src] before the call and nothing else changes,
    however the two ranges overlap. *)
Theorem memmove_spec dst src n m a :
  0 <= n ->
  memmove dst src n m a = (if (dst <=? a) && (a <? dst + n) then m (src + (a - dst)) else m a) ∧
  u_memmove dst src n m a = (if (dst <=? a) && (a <? dst + n) then m (src + (a - dst)) else m a).
Proof. intros Hn. by rewrite memmove_copied, u_memmove_copied. Qed.

(** ** Comparing *)

(** Two byte sequences agree up to the first 0, or over [k] bytes. *)
Fixpoint same_string (k : nat) (p q : Z) (m : mem) : Prop :=
  match k with
  | O => True
  | S k' => m p = m q ∧ (m p ≠ 0 -> same_string k' (p + 1) (q + 1) m)
  end.

Lemma strncmp_loop_zero k p q m : strncmp_loop k p q m = 0 <-> same_string k p q m.
Proof.
  revert p q. induction k as [|k IH]; intros p q; simpl; [done|].
  destruct (m p =? 0) eqn:H0; simpl.
  - split; [intros He; split; lia|intros [He _]; lia].
  - destruct (m p =? m q) eqn:H1.
    + rewrite IH. split; [intros Hs; split; [lia|done]|intros [_ Hs]; apply Hs; lia].
    + split; [lia|intros [He _]; lia].
Qed.

Lemma memcmp_loop_spec k s1 s2 m :
  (memcmp_loop k s1 s2 m = 0 ∧ forall i, 0 <= i < Z.of_nat k -> m (s1 + i) = m (s2 + i)) ∨
  ∃ i, 0 <= i < Z.of_nat k ∧ (forall j, 0 <= j < i -> m (s1 + j) = m (s2 + j)) ∧ m (s1 + i) ≠ m (s2 + i) ∧
    memcmp_loop k s1 s2 m = m (s1 + i) - m (s2 + i).
Proof.
  revert s1 s2. induction k as [|k IH]; intros s1 s2; simpl; [left; split; [done|]; lia|].
  rewrite Nat2Z.inj_succ. destruct (m s1 =? m s2) eqn:He; simpl.
  - assert (Hz : m (s1 + 0) = m (s2 + 0)) by (rewrite !Z.add_0_r; lia).
    destruct (IH (s1 + 1) (s2 + 1)) as [[H1 H2]|(i & H1 & H2 & H3 & H4)].
    + left. split; [done|]. intros i Hi. destruct (decide (i = 0)) as [->|]; [done|].
      specialize (H2 (i - 1) ltac:(lia)). replace (s1 + i) with (s1 + 1 + (i - 1)) by lia.
      by replace (s2 + i) with (s2 + 1 + (i - 1)) by lia.
    + right. exists (i + 1). rewrite !(Z.add_comm i 1), !Z.add_assoc. split; [lia|]. split; [|done].
      intros j Hj. destruct (decide (j = 0)) as [->|]; [done|].
      specialize (H2 (j - 1) ltac:(lia)). replace (s1 + j) with (s1 + 1 + (j - 1)) by lia.
      by replace (s2 + j) with (s2 + 1 + (j - 1)) by lia.
  - right. exists 0. rewrite !Z.add_0_r. split; [lia|]. split; [lia|]. split; [lia|done].
Qed.

(** ** Finding the end of a string *)

Lemma strlen_loop_spec fuel n s m k :
  (forall i, 0 <= i < k -> m (s + n + i) ≠ 0) -> m (s + n + k) = 0 -> 0 <= k -> (Z.to_nat k < fuel)%nat ->
  strlen_loop fuel n s m = Some (n + k).
Proof.
  revert n k. induction fuel as [|fuel IH]; intros n k Hnz Hz Hk Hf; [lia|]. simpl.
  destruct (m (s + n) =? 0) eqn:H0; simpl.
  - destruct (decide (k = 0)) as [->|]; [f_equal; lia|].
    exfalso. apply (Hnz 0); [lia|]. rewrite Z.add_0_r. lia.
  - destruct (decide (k = 0)) as [->|]; [rewrite Z.add_0_r in Hz; lia|].
    rewrite (IH (n + 1) (k - 1)); [f_equal; lia| |by replace (s + (n + 1) + (k - 1)) with (s + n + k) by lia|lia|lia].
    intros i Hi. replace (s + (n + 1) + i) with (s + n + (i + 1)) by lia. apply Hnz. lia.
Qed.

(** ** safestrcpy on memory is safestrcpy on the cells of the array *)

Lemma bytes_from_S m a k : bytes_from m a (S k) = m a :: bytes_from m (a + 1) k.
Proof.
  unfold bytes_from. rewrite seqZ_cons by lia. simpl. rewrite Z.add_0_r. f_equal.
  replace (Z.pred (Z.of_nat (S k))) with (Z.of_nat k) by lia.
  rewrite <- (fmap_add_seqZ 1 0), <- list_fmap_compose. apply list_fmap_ext. intros i x _. simpl. f_equal. lia.
Qed.

Lemma bytes_from_upd m a k b v : b < a ∨ a + Z.of_nat k <= b -> bytes_from (upd m b v) a k = bytes_from m a k.
Proof.
  intros Hb. apply list_fmap_ext. intros i x Hx%list_elem_of_lookup_2%elem_of_seqZ. apply upd_ne. lia.
Qed.

Lemma safestrcpy_mem_loop_other k s t m a :
  a < s ∨ s + Z.of_nat k < a -> safestrcpy_mem_loop k s t m a = m a.
Proof.
  revert s t m. induction k as [|k IH]; intros s t m Ha; simpl; [apply upd_ne; lia|].
  destruct (negb (m t =? 0)); [rewrite IH by lia; apply upd_ne; lia|]. rewrite !upd_ne by lia. done.
Qed.

Lemma safestrcpy_loop_mem k s t m :
  s + Z.of_nat k < t ∨ t + Z.of_nat k <= s ->
  bytes_from (safestrcpy_mem_loop k s t m) s (S k) =
  safestrcpy_loop k (bytes_from m s (S k)) (bytes_from m t k).
Proof.
  revert s t m. induction k as [|k IH]; intros s t m Hd.
  - simpl. rewrite !bytes_from_S. simpl. by rewrite upd_eq.
  - rewrite !(bytes_from_S _ _ (S k)), (bytes_from_S _ t k). cbn [safestrcpy_mem_loop safestrcpy_loop].
    destruct (m t =? 0) eqn:Hz; simpl.
    + rewrite upd_ne, upd_eq by lia. f_equal. rewrite !bytes_from_S. simpl. rewrite upd_eq. f_equal.
      rewrite !bytes_from_upd by lia. done.
    + rewrite safestrcpy_mem_loop_other, upd_eq by lia. f_equal. rewrite IH by lia.
      rewrite !bytes_from_upd by lia. done.
Qed.

(** The string that [safestrcpy_mem_loop k] leaves at [s]: the [j] bytes before
    the first 0 at [t], or the first [k] of them. *)
Lemma safestrcpy_mem_loop_spec k s t m :
  s + Z.of_nat k < t ∨ t + Z.of_nat k <= s ->
  let m' := safestrcpy_mem_loop k s t m in
  ∃ j, 0 <= j <= Z.of_nat k ∧ (forall i, 0 <= i < j -> m (t + i) ≠ 0 ∧ m' (s + i) = m (t + i)) ∧
    m' (s + j) = 0 ∧ (j = Z.of_nat k ∨ m (t + j) = 0).
Proof.
  revert s t m. induction k as [|k IH]; intros s t m Hd; simpl.
  - exists 0. rewrite Z.add_0_r, upd_eq. split; [lia|]. split; [lia|]. split; [done|]. left. lia.
  - rewrite Nat2Z.inj_succ in *. destruct (m t =? 0) eqn:Hz; simpl.
    + exists 0. rewrite !Z.add_0_r, upd_ne, upd_eq by lia. split; [lia|]. split; [lia|]. split; [lia|]. right. lia.
    + destruct (IH (s + 1) (t + 1) (upd m s (m t)) ltac:(lia)) as (j & H1 & H2 & H3 & H4).
      exists (j + 1). split; [lia|]. replace (s + (j + 1)) with (s + 1 + j) by lia. split; [|split; [done|]].
      * intros i Hi. destruct (decide (i = 0)) as [->|].
        -- rewrite !Z.add_0_r, safestrcpy_mem_loop_other, upd_eq by lia. split; [lia|done].
        -- specialize (H2 (i - 1) ltac:(lia)). replace (s + 1 + (i - 1)) with (s + i) in H2 by lia.
           replace (t + 1 + (i - 1)) with (t + i) in H2 by lia. by rewrite upd_ne in H2 by lia.
      * destruct H4 as [H4|H4]; [left; lia|right]. replace (t + (j + 1)) with (t + 1 + j) by lia.
        destruct (decide (t + 1 + j = s)) as [He|]; [rewrite He, upd_eq in H4; lia|by rewrite upd_ne in H4].
Qed.

(** Safestrcpy leaves a terminated string in the [n] bytes at [s]: the longest
    prefix of the string at [t] that fits with its 0; it writes nothing outside
    those bytes. *)
Theorem safestrcpy_spec s t n m :
  0 < n -> s + n <= t ∨ t + n <= s + 1 ->
  let m' := safestrcpy_mem s t n m in
  (∃ j, 0 <= j < n ∧ (forall i, 0 <= i < j -> m (t + i) ≠ 0 ∧ m' (s + i) = m (t + i)) ∧
    m' (s + j) = 0 ∧ (j = n - 1 ∨ m (t + j) = 0)) ∧
  forall a, a < s ∨ s + n <= a -> m' a = m a.
Proof.
  intros Hn Hd. unfold safestrcpy_mem. assert ((n <=? 0) = false) as -> by lia. split.
  - destruct (safestrcpy_mem_loop_spec (Z.to_nat (n - 1)) s t m ltac:(lia)) as (j & H1 & H2 & H3 & H4).
    exists j. rewrite Z2Nat.id in H1, H4 by lia. split; [lia|done].
  - intros a Ha. apply safestrcpy_mem_loop_other. lia.
Qed.

(** ** Witnesses: the text "hi" at address 100 *)
Definition hi_mem : mem := upd (upd (fun _ => 0) 100 104) 101 105.

Lemma memmove_spec_witness :
  memmove 101 100 2 hi_mem 102 = 105 ∧ u_memmove 101 100 2 hi_mem 102 = 105.
Proof. exact (memmove_spec 101 100 2 hi_mem 102 ltac:(lia)). Defined.

Lemma safestrcpy_spec_witness :
  (∃ j, 0 <= j < 2 ∧ safestrcpy_mem 50 100 2 hi_mem (50 + j) = 0) ∧ safestrcpy_mem 50 100 2 hi_mem 52 = 0.
Proof.
  destruct (safestrcpy_spec 50 100 2 hi_mem ltac:(lia) ltac:(lia)) as [(j & H1 & _ & H3 & _) H4].
  split; [exists j; auto|]. rewrite H4 by lia. reflexivity.
Defined.
