(* ===== verification/Grep.v ===== *)
(** * Grep: user/grep.c

    The regular expression matcher and the loop that reads a file into a buffer
    of 1024 bytes and writes the lines that match.  C strings are lists of bytes
    without their terminating 0.  [read] returns an arbitrary part of what is
    left of the file.  [grep_main] is [main]: what the program writes to its output and
    error output, and its exit status.

    The matcher is proved equivalent to the language of the expression, the loop
    to "the lines that match", however [read] cuts the file into pieces. *)

From S2P Require Import Prelude.

(** ** The matcher *)

(** [re[i]], 0 at the end of the string *)
Definition ch (s : list Z) (i : nat) : Z := default 0 (s !! i).

(** [mh] is [matchhere] with the rest of the expression. *)
Fixpoint matchstar (mh : list Z -> bool) (c : Z) (text : list Z) : bool :=
  if mh text then true else
  match text with
  | [] => false
  | t :: text' => if (t =? c) || (c =? 46) then matchstar mh c text' else false
  end.

Fixpoint matchhere (re text : list Z) {struct re} : bool :=
  match re with
  | [] => true
  | c :: re1 =>
      if ch re1 0 =? 42 then matchstar (match re1 with [] => fun _ => false | _ :: re2 => matchhere re2 end) c text else
      if (c =? 36) && (ch re1 0 =? 0) then bool_decide (text = []) else
      match text with
      | [] => false
      | t :: text' => if (c =? 46) || (c =? t) then matchhere re1 text' else false
      end
  end.

(** The loop of [match]. *)
Fixpoint match_anywhere (re text : list Z) : bool :=
  if matchhere re text then true else
  match text with
  | [] => false
  | _ :: text' => match_anywhere re text'
  end.

Definition match_ (re text : list Z) : bool :=
  match re with
  | 94 :: re1 => matchhere re1 text
  | _ => match_anywhere re text
  end.

(** ** The language of an expression *)
Inductive item := Lit (c : Z) | Dot | Star (c : Z) | StarDot | End.

Fixpoint parse (re : list Z) : list item :=
  match re with
  | [] => []
  | c :: re1 =>
      if ch re1 0 =? 42
      then (if c =? 46 then StarDot else Star c) :: match re1 with [] => [] | _ :: re2 => parse re2 end
      else if (c =? 36) && (ch re1 0 =? 0) then [End]
      else (if c =? 46 then Dot else Lit c) :: parse re1
  end.

(** [w] is matched, and [rest] is what follows it in the text. *)
Inductive matches : list item -> list Z -> list Z -> Prop :=
| MNil rest : matches [] [] rest
| MLit c its w rest : matches its w rest -> matches (Lit c :: its) (c :: w) rest
| MDot c its w rest : matches its w rest -> matches (Dot :: its) (c :: w) rest
| MStar c k its w rest : matches its w rest -> matches (Star c :: its) (replicate k c ++ w) rest
| MStarDot w1 its w rest : matches its w rest -> matches (StarDot :: its) (w1 ++ w) rest
| MEnd : matches [End] [] [].

(** A prefix of the text is matched. *)
Definition here (its : list item) (text : list Z) : Prop :=
  ∃ w rest, text = w ++ rest ∧ matches its w rest.

(** A pattern is a C string. *)
Definition no_nul (s : list Z) : Prop := 0 ∉ s.

Lemma matchstar_spec mh c text :
  matchstar mh c text = true <->
  ∃ w text', text = w ++ text' ∧ mh text' = true ∧ (forall x, x ∈ w -> x = c ∨ c = 46).
Proof.
  induction text as [|t text IH]; simpl.
  - destruct (mh []) eqn:Hm; split; try done.
    + intros _. exists [], []. split; [done|]. split; [done|]. by intros x Hx%not_elem_of_nil.
    + intros (w & text' & He & Hm' & _). symmetry in He. apply app_eq_nil in He as [-> ->]. congruence.
  - destruct (mh (t :: text)) eqn:Hm.
    + split; [|done]. intros _. exists [], (t :: text). split; [done|]. split; [done|]. by intros x Hx%not_elem_of_nil.
    + destruct ((t =? c) || (c =? 46)) eqn:Ht.
      * rewrite IH. split.
        -- intros (w & text' & -> & Hm' & Hw). exists (t :: w), text'. split; [done|]. split; [done|].
           intros x [->|Hx]%elem_of_cons; [lia|auto].
        -- intros (w & text' & He & Hm' & Hw). destruct w as [|x w]; simpl in He; [subst; congruence|].
           injection He as -> ->. exists w, text'. split; [done|]. split; [done|].
           intros y Hy. apply Hw, elem_of_cons; auto.
      * split; [done|]. intros (w & text' & He & Hm' & Hw). destruct w as [|x w]; simpl in He; [subst; congruence|].
        injection He as -> ->. specialize (Hw x ltac:(apply elem_of_cons; auto)). lia.
Qed.

Lemma all_same (c : Z) w : (forall x, x ∈ w -> x = c) -> w = replicate (length w) c.
Proof.
  induction w as [|x w IH]; intros Hw; simpl; [done|]. rewrite <- IH; [|intros y Hy; apply Hw, elem_of_cons; auto].
  f_equal. apply Hw, elem_of_cons; auto.
Qed.

Lemma here_star c its text :
  here ((if c =? 46 then StarDot else Star c) :: its) text <->
  ∃ w text', text = w ++ text' ∧ here its text' ∧ (forall x, x ∈ w -> x = c ∨ c = 46).
Proof.
  split.
  - intros (w & rest & -> & Hm). destruct (c =? 46) eqn:Hc; inversion Hm; subst.
    + exists w1, (w0 ++ rest). rewrite <- app_assoc. split; [done|]. split; [by exists w0, rest|]. intros x _. right. lia.
    + exists (replicate k c), (w0 ++ rest). rewrite <- app_assoc. split; [done|]. split; [by exists w0, rest|].
      intros x [-> _]%elem_of_replicate. auto.
  - intros (w & text' & -> & (w' & rest & -> & Hm) & Hw). exists (w ++ w'), rest. split; [by rewrite app_assoc|].
    destruct (c =? 46) eqn:Hc; [by constructor|]. rewrite (all_same c w); [by constructor|].
    intros x Hx. destruct (Hw x Hx); [done|lia].
Qed.

Lemma here_nil text : here [] text.
Proof. exists [], text. split; [done|constructor]. Qed.

Lemma here_end text : here [End] text <-> text = [].
Proof.
  split.
  - intros (w & rest & -> & Hm). by inversion Hm.
  - intros ->. exists [], []. split; [done|constructor].
Qed.

Lemma here_char c its text :
  here ((if c =? 46 then Dot else Lit c) :: its) text <->
  ∃ t text', text = t :: text' ∧ (c = 46 ∨ c = t) ∧ here its text'.
Proof.
  split.
  - intros (w & rest & -> & Hm). destruct (c =? 46) eqn:Hc; inversion Hm; subst.
    + exists c0, (w0 ++ rest). split; [done|]. split; [lia|by exists w0, rest].
    + exists c, (w0 ++ rest). split; [done|]. split; [lia|by exists w0, rest].
  - intros (t & text' & -> & Ht & w & rest & -> & Hm). exists (t :: w), rest. split; [done|].
    destruct (c =? 46) eqn:Hc; [by constructor|]. assert (t = c) as -> by lia. by constructor.
Qed.

(** The three ways an expression begins. *)
Lemma re_cases c re1 :
  (∃ re2, re1 = 42 :: re2 ∧ parse (c :: re1) = (if c =? 46 then StarDot else Star c) :: parse re2 ∧
    forall text, matchhere (c :: re1) text = matchstar (matchhere re2) c text) ∨
  (c = 36 ∧ ch re1 0 = 0 ∧ parse (c :: re1) = [End] ∧
    forall text, matchhere (c :: re1) text = bool_decide (text = [])) ∨
  (parse (c :: re1) = (if c =? 46 then Dot else Lit c) :: parse re1 ∧
    forall text, matchhere (c :: re1) text =
      match text with [] => false | t :: text' => if (c =? 46) || (c =? t) then matchhere re1 text' else false end).
Proof.
  cbn [parse matchhere]. destruct (ch re1 0 =? 42) eqn:H42.
  - left. destruct re1 as [|x re2]; [done|]. exists re2. unfold ch in H42. simpl in H42.
    assert (x = 42) as -> by lia. done.
  - right. destruct ((c =? 36) && (ch re1 0 =? 0)) eqn:He; [left|right; done]. split; [lia|]. split; [lia|done].
Qed.

Lemma matchhere_here re text : no_nul re -> matchhere re text = true <-> here (parse re) text.
Proof.
  revert text. remember (length re) as n eqn:Hn. revert re Hn.
  induction n as [n IH] using lt_wf_ind. intros [|c re1] Hn text Hz; [split; [by intros _; apply here_nil|done]|].
  simpl in Hn. destruct (re_cases c re1) as [(re2 & -> & -> & Hm)|[(-> & Hc & -> & Hm)|[-> Hm]]]; rewrite Hm.
  - rewrite matchstar_spec, here_star.
    assert (Hz2 : no_nul re2) by (intros Hin; apply Hz, elem_of_cons; right; apply elem_of_cons; auto).
    simpl in Hn. split; intros (w & text' & -> & Hh & Hw); exists w, text'; (split; [done|]; split; [|done]);
      apply (IH (length re2)); auto; lia.
  - rewrite here_end. by rewrite bool_decide_eq_true.
  - rewrite here_char. assert (Hz1 : no_nul re1) by (intros Hin; apply Hz, elem_of_cons; auto).
    destruct text as [|t text]; [split; [done|by intros (? & ? & ? & _)]|].
    destruct ((c =? 46) || (c =? t)) eqn:Ht.
    + rewrite (IH (length re1)) by (auto; lia). split; [intros Hh; exists t, text; split; [done|split; [lia|done]]|].
      by intros (? & ? & [= <- <-] & _ & Hh).
    + split; [done|]. intros (? & ? & [= <- <-] & Hor & _). lia.
Qed.

(** C39: The matcher decides the language of the expression: [match] succeeds
    exactly when some part of the text, or for an expression that begins with ^
    some first part of it, is matched by the expression ([.], [x*] and a final
    [$] included). *)
Theorem match_spec re text :
  no_nul re ->
  match_ re text = true <->
    match re with
    | 94 :: re1 => here (parse re1) text
    | _ => ∃ pre text', text = pre ++ text' ∧ here (parse re) text'
    end.
Proof.
  intros Hz.
  assert (Hany : match_anywhere re text = true <-> ∃ pre text', text = pre ++ text' ∧ here (parse re) text').
  { induction text as [|t text IH]; simpl; destruct (matchhere re _) eqn:Hm.
    - split; [|done]. intros _. exists [], []. split; [done|]. by apply matchhere_here.
    - split; [done|]. intros (pre & text' & He & Hh). symmetry in He. apply app_eq_nil in He as [_ ->].
      apply matchhere_here in Hh; [congruence|done].
    - split; [|done]. intros _. exists [], (t :: text). split; [done|]. by apply matchhere_here.
    - rewrite IH. split; [intros (pre & text' & -> & Hh); by exists (t :: pre), text'|].
      intros ([|x pre] & text' & He & Hh); simpl in He.
      + subst. apply matchhere_here in Hh; [congruence|done].
      + injection He as -> ->. by exists pre, text'. }
  unfold match_. repeat case_match; try exact Hany. apply matchhere_here. subst. intros Hin. apply Hz, elem_of_cons. auto.
Qed.

(** ** The loop over the file *)

(** [strchr(p, '\n')]: the bytes before the newline and those after it. *)
Fixpoint strchr_nl (p : list Z) : option (list Z * list Z) :=
  match p with
  | [] => None
  | c :: p' =>
      if c =? 0 then None else
      if c =? 10 then Some ([], p') else
      match strchr_nl p' with
      | Some (l, r) => Some (c :: l, r)
      | None => None
      end
  end.

(** The inner loop: what is left in the buffer, and the output. *)
Fixpoint grep_lines (fuel : nat) (pattern p out : list Z) : option (list Z * list Z) :=
  match fuel with
  | O => None
  | S fuel' =>
      match strchr_nl p with
      | Some (l, p') => grep_lines fuel' pattern p' (if match_ pattern l then out ++ l ++ [10] else out)
      | None => Some (p, out)
      end
  end.

Definition bufsize : Z := 1024.

(** [buf] are the [m] bytes in the buffer, [inp] what is left of the file;
    [rd inp k] is what [read] of at most [k] bytes returns. *)
Fixpoint grep (fuel : nat) (rd : list Z -> Z -> Z) (pattern buf inp out : list Z) : option (list Z) :=
  match fuel with
  | O => None
  | S fuel' =>
      let n := rd inp (bufsize - Z.of_nat (length buf) - 1) in
      if n <=? 0 then Some out else
      let buf := buf ++ take (Z.to_nat n) inp in
      match grep_lines (S (length buf)) pattern buf out with
      | None => None
      | Some (p, out) => grep fuel' rd pattern p (drop (Z.to_nat n) inp) out
      end
  end.

(** ** main *)
(** Text of the program. *)
Definition str (s : string) : list Z := (fun c => Z.of_nat (Ascii.nat_of_ascii c)) <$> String.list_ascii_of_string s.

Section program.
(** [contents a] is what the file [a] holds, [None] when it cannot be opened; [stdin]
    is what can be read from descriptor 0. *)
Context (rd : list Z -> Z -> Z) (contents : list Z -> option (list Z)) (stdin : list Z).

(** The loop over the files: the exit status and what has been written to descriptor 1. *)
Fixpoint grep_files (pattern : list Z) (files : list (list Z)) (out : list Z) : option (Z * list Z) :=
  match files with
  | [] => Some (0, out)
  | a :: files' =>
      match contents a with
      | None => Some (1, out ++ str "grep: cannot open " ++ a ++ [10])
      | Some inp =>
          match grep (S (length inp)) rd pattern [] inp out with
          | None => None
          | Some out => grep_files pattern files' out
          end
      end
  end.
(** The exit status, and what is written to descriptors 1 and 2. *)
Definition grep_main (argv : list (list Z)) : option (Z * list Z * list Z) :=
  match argv with
  | [] | [_] => Some (1, [], str "usage: grep pattern [file ...]" ++ [10])
  | [_; pattern] =>
      match grep (S (length stdin)) rd pattern [] stdin [] with
      | None => None
      | Some out => Some (0, out, [])
      end
  | _ :: pattern :: files =>
      match grep_files pattern files [] with
      | None => None
      | Some (status, out) => Some (status, out, [])
      end
  end.
End program.


(** A [read] that follows its manual page: some bytes if there are any and any
    are asked for. *)
Definition read_ok (rd : list Z -> Z -> Z) : Prop :=
  forall inp k, 0 <= k -> if (k =? 0) || bool_decide (inp = []) then rd inp k <= 0
    else 1 <= rd inp k <= Z.min k (Z.of_nat (length inp)).

(** The complete lines of a text and what follows the last of them. *)
Fixpoint cut (text : list Z) : list (list Z) * list Z :=
  match text with
  | [] => ([], [])
  | c :: text' =>
      let (ls, r) := cut text' in
      if c =? 10 then ([] :: ls, r)
      else match ls with [] => ([], c :: r) | l :: ls' => ((c :: l) :: ls', r) end
  end.

(** The lines that match, each with its newline. *)
Definition matching (pattern : list Z) (ls : list (list Z)) : list Z :=
  concat ((fun l => l ++ [10]) <$> filter (fun l => match_ pattern l = true) ls).

Lemma cut_app a b : let (ls, r) := cut a in let (ls', r') := cut (r ++ b) in cut (a ++ b) = (ls ++ ls', r').
Proof.
  induction a as [|c a IH]; simpl; [by destruct (cut b)|]. destruct (cut a) as [ls r].
  destruct (c =? 10) eqn:Hc.
  - destruct (cut (r ++ b)) as [ls' r']. by rewrite IH.
  - destruct ls as [|l ls]; simpl in *.
    + destruct (cut (r ++ b)) as [ls' r'] eqn:Hr. rewrite IH. rewrite Hc. by destruct ls'.
    + destruct (cut (r ++ b)) as [ls' r']. by rewrite IH.
Qed.

Lemma strchr_cut p : no_nul p ->
  match strchr_nl p with
  | None => cut p = ([], p)
  | Some (l, p') => no_nul p' ∧ cut p = (l :: (cut p').1, (cut p').2) ∧ (length p' < length p)%nat
  end.
Proof.
  induction p as [|c p IH]; intros Hz; simpl; [done|].
  apply not_elem_of_cons in Hz as [Hc Hz]. specialize (IH Hz).
  assert ((c =? 0) = false) as -> by lia. destruct (c =? 10) eqn:Hn.
  - destruct (cut p); simpl. split; [done|]. split; [done|lia].
  - destruct (strchr_nl p) as [[l p']|].
    + destruct IH as (H1 & -> & H3). split; [done|]. split; [done|simpl; lia].
    + by rewrite IH.
Qed.

Lemma matching_cons pattern l ls :
  matching pattern (l :: ls) = (if match_ pattern l then l ++ [10] else []) ++ matching pattern ls.
Proof. unfold matching. rewrite filter_cons. destruct (match_ pattern l) eqn:Hm; [by rewrite decide_True|by rewrite decide_False]. Qed.

Lemma matching_app pattern ls ls' : matching pattern (ls ++ ls') = matching pattern ls ++ matching pattern ls'.
Proof. unfold matching. by rewrite filter_app, fmap_app, concat_app. Qed.

Lemma grep_lines_spec fuel pattern p out :
  no_nul p -> (length p < fuel)%nat ->
  grep_lines fuel pattern p out = Some ((cut p).2, out ++ matching pattern (cut p).1).
Proof.
  revert p out. induction fuel as [|fuel IH]; intros p out Hz Hf; [lia|]. simpl.
  pose proof (strchr_cut p Hz) as Hs. destruct (strchr_nl p) as [[l p']|].
  - destruct Hs as (Hz' & -> & Hlt). rewrite IH by (done || lia). simpl. rewrite matching_cons.
    destruct (match_ pattern l); [by rewrite <- !app_assoc|done].
  - rewrite Hs. simpl. by rewrite app_nil_r.
Qed.

Lemma cut_partial a : cut (cut a).2 = ([], (cut a).2).
Proof.
  induction a as [|c a IH]; simpl; [done|]. destruct (cut a) as [ls r]. simpl in IH.
  destruct (c =? 10) eqn:Hc; [done|]. destruct ls; simpl; [|done]. by rewrite IH, Hc.
Qed.

Lemma cut_first r b l ls : cut r = ([], r) -> (cut (r ++ b)).1 = l :: ls -> (length r <= length l)%nat.
Proof.
  intros Hr. revert l ls. induction r as [|c r IH]; intros l ls; [simpl; lia|]. simpl in *.
  destruct (cut r) as [ls' r'] eqn:Hcr. destruct (c =? 10) eqn:Hc; [done|]. destruct ls'; [|done].
  injection Hr as ->. specialize (IH eq_refl). destruct (cut (r ++ b)) as [ls2 r2]. destruct ls2 as [|l2 ls2]; simpl; [done|].
  intros [= <- <-]. specialize (IH l2 ls2 eq_refl). simpl. lia.
Qed.

Lemma cut_none a r : cut a = ([], r) -> r = a.
Proof.
  revert r. induction a as [|c a IH]; intros r; simpl; [by intros [= <-]|]. destruct (cut a) as [ls r'].
  destruct (c =? 10); [done|]. destruct ls; [|done]. intros [= <-]. by rewrite (IH r' eq_refl).
Qed.

Lemma cut_suffix a : ∃ pre, a = pre ++ (cut a).2.
Proof.
  induction a as [|c a [pre IH]]; [by exists []|]. destruct (cut (c :: a)) as [ls2 r2] eqn:Hc. simpl.
  destruct ls2 as [|l2 ls2]; [exists []; by rewrite (cut_none _ _ Hc)|].
  simpl in Hc. destruct (cut a) as [ls r]. simpl in IH. exists (c :: pre). simpl. f_equal. rewrite IH at 1. f_equal.
  destruct (c =? 10); [congruence|]. destruct ls; congruence.
Qed.

Lemma grep_runs fuel rd pattern buf inp out :
  read_ok rd -> no_nul (buf ++ inp) -> (length inp < fuel)%nat -> (length buf <= 1023)%nat ->
  cut buf = ([], buf) -> (forall l, l ∈ (cut (buf ++ inp)).1 -> (length l < 1023)%nat) ->
  grep fuel rd pattern buf inp out = Some (out ++ matching pattern (cut (buf ++ inp)).1).
Proof.
  intros Hrd. revert buf inp out. induction fuel as [|fuel IH]; intros buf inp out Hz Hf Hb Hcut Hlen; [lia|].
  cbn [grep]. set (k := bufsize - Z.of_nat (length buf) - 1). set (n := rd inp k).
  pose proof (Hrd inp k ltac:(unfold k, bufsize; lia)) as Hn. fold n in Hn.
  assert (Hstop : (k =? 0) || bool_decide (inp = []) = true -> matching pattern (cut (buf ++ inp)).1 = []).
  { intros Hs. destruct (cut (buf ++ inp)).1 as [|l ls] eqn:Hc; [done|exfalso].
    destruct (bool_decide (inp = [])) eqn:Hi.
    - apply bool_decide_eq_true in Hi as ->. by rewrite app_nil_r, Hcut in Hc.
    - pose proof (cut_first _ _ _ _ Hcut Hc). specialize (Hlen l ltac:(apply elem_of_cons; auto)).
      unfold k, bufsize in Hs. lia. }
  destruct ((k =? 0) || bool_decide (inp = [])) eqn:Hs.
  - assert ((n <=? 0) = true) as -> by lia. by rewrite Hstop, app_nil_r.
  - assert ((n <=? 0) = false) as -> by lia. clear Hstop.
    set (a := buf ++ take (Z.to_nat n) inp).
    assert (Heq : buf ++ inp = a ++ drop (Z.to_nat n) inp) by (unfold a; by rewrite <- app_assoc, take_drop).
    rewrite Heq in Hz, Hlen |- *.
    rewrite grep_lines_spec; [|intros Hin; apply Hz, elem_of_app; auto|unfold a; lia].
    pose proof (cut_app a (drop (Z.to_nat n) inp)) as Hca. pose proof (cut_partial a) as Hp.
    destruct (cut_suffix a) as [pre Hpre].
    destruct (cut a) as [ls r] eqn:Hcuta. simpl in *.
    destruct (cut (r ++ drop (Z.to_nat n) inp)) as [ls' r'] eqn:Hc'. rewrite Hca in Hlen |- *. simpl in *.
    rewrite (IH r (drop (Z.to_nat n) inp)), Hc'.
    + simpl. by rewrite matching_app, app_assoc.
    + intros Hin. apply Hz. rewrite Hpre, <- app_assoc. apply elem_of_app; auto.
    + rewrite length_drop. lia.
    + apply (f_equal length) in Hpre. rewrite length_app in Hpre. unfold a in Hpre.
      rewrite length_app, length_take in Hpre. unfold k, bufsize in Hn. lia.
    + done.
    + rewrite Hc'. intros l Hl. apply Hlen. simpl. apply elem_of_app; auto.
Qed.

(** C40: for a file without 0 bytes whose lines all have fewer than 1023 bytes (the
    newline not counted), and however [read] cuts the file into pieces, grep writes
    exactly the lines of the file that match, in order and each with its newline.  Text
    after the last newline is not a line: it is not looked at. *)
Theorem grep_spec rd pattern inp :
  read_ok rd -> no_nul inp -> (forall l, l ∈ (cut inp).1 -> (length l < 1023)%nat) ->
  grep (S (length inp)) rd pattern [] inp [] = Some (matching pattern (cut inp).1).
Proof. intros Hrd Hz Hl. apply (grep_runs _ rd pattern [] inp []); simpl; try done; lia. Qed.

(** A text that grep reads in full. *)
Definition plain (inp : list Z) : Prop := no_nul inp ∧ forall l, l ∈ (cut inp).1 -> (length l < 1023)%nat.
(** The files up to the first that cannot be opened, and that one. *)
Fixpoint opened (contents : list Z -> option (list Z)) (files : list (list Z)) : list (list Z) * option (list Z) :=
  match files with
  | [] => ([], None)
  | a :: files' =>
      match contents a with
      | None => ([], Some a)
      | Some inp => let '(inps, missing) := opened contents files' in (inp :: inps, missing)
      end
  end.
Lemma grep_files_spec rd contents pattern files out :
  read_ok rd -> (forall a inp, a ∈ files -> contents a = Some inp -> plain inp) ->
  grep_files rd contents pattern files out =
    let '(inps, missing) := opened contents files in
    let out := out ++ concat ((fun inp => matching pattern (cut inp).1) <$> inps) in
    Some (match missing with None => (0, out) | Some a => (1, out ++ str "grep: cannot open " ++ a ++ [10]) end).
Proof.
  intros Hrd. revert out. induction files as [|a files IH]; intros out Hp; cbn [grep_files opened]; [by cbn; rewrite app_nil_r|].
  destruct (contents a) as [inp|] eqn:Ha; [|by cbn; rewrite app_nil_r].
  destruct (Hp a inp ltac:(by left) Ha) as [Hz Hl]. rewrite grep_runs by (done || simpl; lia). rewrite IH by (intros b i Hb; apply Hp; by right).
  destruct (opened contents files) as [inps missing]. cbn [fmap list_fmap concat app]. by rewrite !app_assoc.
Qed.
(** grep with file names writes the matching lines of the files one after the other; it
    stops at the first that cannot be opened, with a message and status 1. *)
Theorem grep_main_files rd contents stdin prog pattern file files :
  read_ok rd -> (forall a inp, a ∈ file :: files -> contents a = Some inp -> plain inp) ->
  grep_main rd contents stdin (prog :: pattern :: file :: files) =
    let '(inps, missing) := opened contents (file :: files) in
    let out := concat ((fun inp => matching pattern (cut inp).1) <$> inps) in
    Some (match missing with None => (0, out, []) | Some a => (1, out ++ str "grep: cannot open " ++ a ++ [10], []) end).
Proof.
  intros Hrd Hp. unfold grep_main. rewrite grep_files_spec by done. destruct (opened contents (file :: files)) as [inps [a|]]; done.
Qed.

Lemma cut_no_newline a : 10 ∉ a -> cut a = ([], a).
Proof.
  induction a as [|c a IH]; intros Hn; [done|]. apply not_elem_of_cons in Hn as [Hc Hn]. simpl.
  rewrite IH by done. by assert ((c =? 10) = false) as -> by lia.
Qed.

Lemma grep_fills fuel rd pattern buf line rest out :
  read_ok rd -> no_nul (buf ++ line) -> 10 ∉ buf ++ line -> (1023 <= length (buf ++ line))%nat ->
  (length buf <= 1023)%nat -> (length line < fuel)%nat ->
  grep fuel rd pattern buf (line ++ rest) out = Some out.
Proof.
  intros Hrd. revert buf line. induction fuel as [|fuel IH]; intros buf line Hz Hn Hlen Hb Hf; [lia|].
  cbn [grep]. set (k := bufsize - Z.of_nat (length buf) - 1). set (n := rd (line ++ rest) k).
  pose proof (Hrd (line ++ rest) k ltac:(unfold k, bufsize; lia)) as Hrn. fold n in Hrn. rewrite length_app in Hlen.
  destruct ((k =? 0) || bool_decide (line ++ rest = [])) eqn:Hs; [by assert ((n <=? 0) = true) as -> by lia|].
  assert ((n <=? 0) = false) as -> by lia.
  assert (Hnl : (Z.to_nat n <= length line)%nat) by (unfold k, bufsize in Hrn; lia).
  rewrite take_app_le, drop_app_le by done. set (a := buf ++ take (Z.to_nat n) line).
  assert (Heq : a ++ drop (Z.to_nat n) line = buf ++ line) by (unfold a; by rewrite <- app_assoc, take_drop).
  rewrite <- Heq in Hz, Hn. rewrite grep_lines_spec; [|intros Hin; apply Hz, elem_of_app; auto|lia].
  rewrite cut_no_newline by (intros Hin; apply Hn, elem_of_app; auto). simpl. rewrite app_nil_r.
  apply IH; [done|done|by rewrite Heq, length_app| |rewrite length_drop; lia].
  unfold a. rewrite length_app, length_take. unfold k, bufsize in Hrn. lia.
Qed.

(** A line of 1023 bytes or more ends the search: grep writes nothing of it
    and nothing of what follows it in the file. *)
Theorem grep_long_line rd pattern line rest :
  read_ok rd -> no_nul line -> 10 ∉ line -> (1023 <= length line)%nat ->
  grep (S (length line)) rd pattern [] (line ++ rest) [] = Some [].
Proof. intros Hrd Hz Hn Hlen. apply grep_fills; simpl; try done; lia. Qed.

(** ** Witnesses *)

(** [read] that returns as much as it may. *)
Definition rd_all (inp : list Z) (k : Z) : Z := Z.min k (Z.of_nat (length inp)).
Lemma rd_all_ok : read_ok rd_all.
Proof.
  intros inp k Hk. unfold rd_all. destruct (bool_decide (inp = [])) eqn:Hi.
  - apply bool_decide_eq_true in Hi as ->. destruct (k =? 0); simpl; lia.
  - apply bool_decide_eq_false in Hi. destruct inp; [done|]. simpl. destruct (k =? 0) eqn:H0; simpl; lia.
Qed.

Lemma match_spec_witness : match_ (str "^ab*c") (str "abbcd") = true <-> here (parse (str "ab*c")) (str "abbcd").
Proof. apply (match_spec (str "^ab*c") (str "abbcd")). apply (bool_decide_unpack (0 ∉ str "^ab*c")). vm_compute. exact I. Defined.

Definition two_lines : list Z := str "abc" ++ [10] ++ str "xyz" ++ [10].
Lemma two_lines_short : forall l, l ∈ (cut two_lines).1 -> (length l < 1023)%nat.
Proof.
  intros l Hl. change (cut two_lines).1 with [str "abc"; str "xyz"] in Hl.
  apply elem_of_cons in Hl as [->|Hl]; [vm_compute; lia|].
  apply elem_of_cons in Hl as [->|Hl]; [vm_compute; lia|]. by apply not_elem_of_nil in Hl.
Qed.

Lemma grep_spec_witness :
  grep (S (length two_lines)) rd_all (str "y") [] two_lines [] = Some (str "xyz" ++ [10]).
Proof.
  rewrite (grep_spec rd_all (str "y") two_lines rd_all_ok); [vm_compute; reflexivity| |exact two_lines_short].
  apply (bool_decide_unpack (0 ∉ two_lines)). vm_compute. exact I.
Defined.

Lemma grep_long_line_witness :
  grep (S (length (replicate 1023 97))) rd_all (str "y") [] (replicate 1023 97 ++ [10] ++ str "y" ++ [10]) [] = Some [].
Proof.
  apply (grep_long_line rd_all (str "y") (replicate 1023 97)); [exact rd_all_ok| | |].
  - intros [? _]%elem_of_replicate. discriminate.
  - intros [? _]%elem_of_replicate. discriminate.
  - rewrite length_replicate. lia.
Defined.
