(* ===== verification/Ring.v ===== *)
(** * Ring: circular buffers with free-running counters

    pipe.c, console.c and uart.c keep a queue in an array of [N] bytes, with
    unsigned counters that are reduced modulo [N] only to index the array and
    that wrap around at their own width.  [N] divides 2^width, so the wrap is
    invisible.  [ring N buf r xs]: the queue [xs] starts at counter [r]. *)

From S2P Require Import Prelude.

Section ring.
(** [W] is 2^32 or 2^64. *)
Context (N W : Z) (HN : 0 < N) (HNW : N < W) (HW : (N | W)).
Implicit Types (buf : Z -> Z) (r : Z) (xs : list Z).

Definition ring buf r xs : Prop :=
  0 <= r < W ∧ Z.of_nat (length xs) <= N ∧
  forall j x, xs !! j = Some x -> buf ((r + Z.of_nat j) mod N) = x.

(** The counter one past the last element. *)
Definition ring_end r xs : Z := (r + Z.of_nat (length xs)) mod W.

Lemma wrap_mod z : (z mod W) mod N = z mod N.
Proof. by apply Z.mod_mod_divide. Qed.

Lemma wrap_plus r k : (r mod W + k) mod W = (r + k) mod W.
Proof. apply Z.add_mod_idemp_l. lia. Qed.

Lemma wrap_small z k : 0 <= k < W -> 0 <= z < W -> (z + k) mod W = z -> k = 0.
Proof.
  intros Hk Hz He. destruct (decide (z + k < W)).
  - rewrite Z.mod_small in He by lia. lia.
  - rewrite <- (Z.mod_unique (z + k) W 1 (z + k - W)) in He by lia. lia.
Qed.

Lemma wrap_inj r a b : 0 <= a < W -> 0 <= b < W -> (r + a) mod W = (r + b) mod W -> a = b.
Proof.
  intros Ha Hb He. assert (H : (a - b) mod W = 0).
  { replace (a - b) with (r + a - (r + b)) by lia. rewrite Zminus_mod, He, Z.sub_diag. done. }
  apply Z.mod_divide in H as [q Hq]; [|lia]. assert (q = 0) by nia. lia.
Qed.

(** The tests "empty" and "full" of the code. *)
Lemma ring_empty buf r xs : ring buf r xs -> (r =? ring_end r xs) = bool_decide (xs = []).
Proof.
  intros (Hr & Hl & _). unfold ring_end. destruct xs as [|x xs].
  - simpl. rewrite Z.add_0_r, Z.mod_small by lia. lia.
  - rewrite bool_decide_eq_false_2 by done. apply Z.eqb_neq. intros He. symmetry in He.
    apply wrap_small in He; [|lia..]. simpl in He. lia.
Qed.

Lemma ring_full buf r xs :
  ring buf r xs -> (ring_end r xs =? (r + N) mod W) = (Z.of_nat (length xs) =? N).
Proof.
  intros (Hr & Hl & _). unfold ring_end. destruct (Z.of_nat (length xs) =? N) eqn:He.
  - assert (Z.of_nat (length xs) = N) as -> by lia. lia.
  - apply Z.eqb_neq. intros Hw. apply wrap_inj in Hw; lia.
Qed.

(** Adding at the end, taking from the front, dropping the last. *)
Lemma ring_push buf r xs x :
  ring buf r xs -> Z.of_nat (length xs) < N ->
  ring (upd buf (ring_end r xs mod N) x) r (xs ++ [x]) ∧ ring_end r (xs ++ [x]) = (ring_end r xs + 1) mod W.
Proof.
  intros (Hr & Hl & Hx) Hn. split.
  - split; [done|]. rewrite length_app. simpl. split; [lia|]. intros j y Hj. unfold ring_end. rewrite wrap_mod.
    apply lookup_app_Some in Hj as [Hj|[Hlen Hj]].
    + pose proof (lookup_lt_Some _ _ _ Hj). rewrite upd_ne; [by apply Hx|].
      intros He. assert ((Z.of_nat (length xs) - Z.of_nat j) mod N = 0) as H0.
      { replace (Z.of_nat (length xs) - Z.of_nat j) with (r + Z.of_nat (length xs) - (r + Z.of_nat j)) by lia.
        by rewrite Zminus_mod, He, Z.sub_diag. }
      rewrite Z.mod_small in H0 by lia. lia.
    + apply list_lookup_singleton_Some in Hj as [Hj <-]. replace j with (length xs) by lia. apply upd_eq.
  - unfold ring_end. rewrite wrap_plus, length_app. simpl. f_equal. lia.
Qed.

Lemma ring_pop buf r x xs :
  ring buf r (x :: xs) ->
  buf (r mod N) = x ∧ ring buf ((r + 1) mod W) xs ∧ ring_end ((r + 1) mod W) xs = ring_end r (x :: xs).
Proof.
  intros (Hr & Hl & Hx). split; [|split].
  - rewrite <- (Hx 0%nat x eq_refl). f_equal. f_equal. lia.
  - split; [apply Z.mod_pos_bound; lia|]. simpl in Hl. split; [lia|]. intros j y Hj.
    rewrite <- (Hx (S j) y Hj), <- (wrap_mod (_ + Z.of_nat j)), wrap_plus, wrap_mod. do 2 f_equal. lia.
  - unfold ring_end. rewrite wrap_plus. simpl. f_equal. lia.
Qed.

Lemma ring_drop buf r xs x :
  ring buf r (xs ++ [x]) -> ring buf r xs ∧ ring_end r xs = (ring_end r (xs ++ [x]) - 1) mod W ∧
    buf (ring_end r xs mod N) = x.
Proof.
  intros (Hr & Hl & Hx). rewrite length_app in Hl. simpl in Hl. split; [|split].
  - split; [done|]. split; [lia|]. intros j y Hj. apply Hx. by apply lookup_app_l_Some.
  - unfold ring_end. rewrite Zminus_mod_idemp_l, length_app. simpl. f_equal. lia.
  - unfold ring_end. rewrite wrap_mod. apply Hx. rewrite lookup_app_r, Nat.sub_diag by lia. done.
Qed.

Lemma ring_nil buf r : 0 <= r < W -> ring buf r [].
Proof. intros Hr. split; [done|]. split; [simpl; lia|]. intros j x Hj. by rewrite lookup_nil in Hj. Qed.
End ring.
