(* ===== verification/Pipe.v ===== *)
(** * Pipe: kernel/pipe.c

    A pipe is a ring of 512 bytes with free-running [uint] counters.  A call of
    [pipewrite] or [piperead] runs under the pipe's lock until it returns or goes
    to sleep; sleeping gives up the lock, and the call goes on with the same loop
    when it is woken.  Such a piece of a call is a segment: [pipewrite_seg i]
    starts the loop with [i] bytes written, [piperead_seg] starts the read.  What
    several processes do to a pipe is a sequence of segments.

    The user memory the bytes come from and go to, and the [killed] flag that
    another hart may set at any time, are arguments: [src a] is the byte
    [copyin] finds at address [a] or [None] when it fails, [dst a] says whether
    [copyout] to [a] succeeds, [killed i] is the flag as the code reads it with
    [i] bytes done. *)

From S2P Require Import Prelude SleepLock Ring.

Definition PIPESIZE : Z := 512.

(** The two sleep channels, [&pi->nread] and [&pi->nwrite]. *)
Inductive pchan := ChRead | ChWrite.

Record pipe := Pipe {
  p_lock : bool;
  pdata : Z -> Z;
  nread : Z;
  nwrite : Z;
  readopen : Z;
  writeopen : Z;
  p_freed : bool;                   (* the page has been given to kfree *)
  woken : list pchan                (* calls of wakeup, the latest first *)
}.
#[export] Instance pipe_eta : Eta pipe := fun r =>
  Pipe (p_lock r) (pdata r) (nread r) (nwrite r) (readopen r) (writeopen r) (p_freed r) (woken r).

Definition pipe_lock : lens pipe bool := Lens p_lock (fun f s => s <| p_lock ::= f |>).
Definition wake (c : pchan) : M pipe unit := modify (fun s => s <| woken ::= cons c |>).

(** The initialization in [pipealloc]. *)
Definition pipe_new (garbage : Z -> Z) : pipe := Pipe false garbage 0 0 1 1 false [].

Definition pipeclose (writable : Z) : M pipe unit :=
  acquire_spin pipe_lock;;
  (if negb (writable =? 0) then
     modify (fun s => s <| writeopen := 0 |>);;
     wake ChRead
   else
     modify (fun s => s <| readopen := 0 |>);;
     wake ChWrite);;
  s ← gets id;
  if (readopen s =? 0) && (writeopen s =? 0) then
    release_spin pipe_lock;;
    modify (fun s => s <| p_freed := true |>)
  else release_spin pipe_lock.

(** How a segment ends: the value the call returns, or asleep with [i] bytes done. *)
Inductive ends := Returned (r : Z) | Asleep (i : Z).

Section calls.
Context (killed : Z -> bool) (src : Z -> option Z) (dst : Z -> bool) (addr n : Z).

(** The list is the bytes put into the pipe so far, in order. *)
Fixpoint pipewrite_loop (fuel : nat) (i : Z) (done_ : list Z) : M pipe (ends * list Z) :=
  match fuel with
  | O => no_fuel
  | S fuel' =>
      if i <? n then
        s ← gets id;
        if (readopen s =? 0) || killed i then
          release_spin pipe_lock;;
          mret (Returned (-1), done_)
        else if nwrite s =? u32 (nread s + PIPESIZE) then
          wake ChRead;;
          release_spin pipe_lock;;
          mret (Asleep i, done_)
        else
          match src (addr + i) with
          | None =>
              wake ChRead;;
              release_spin pipe_lock;;
              mret (Returned i, done_)
          | Some c =>
              modify (fun s => s <| pdata ::= fun d => upd d (nwrite s mod PIPESIZE) c |>);;
              modify (fun s => s <| nwrite := u32 (nwrite s + 1) |>);;
              pipewrite_loop fuel' (i + 1) (done_ ++ [c])
          end
      else
        wake ChRead;;
        release_spin pipe_lock;;
        mret (Returned i, done_)
  end.

Definition pipewrite_seg (i : Z) : M pipe (ends * list Z) :=
  acquire_spin pipe_lock;;
  pipewrite_loop (S (Z.to_nat (n - i))) i [].

Definition pipewrite : M pipe (ends * list Z) := pipewrite_seg 0.

(** The list is the bytes taken from the pipe, in order: the first [i] of them
    have been copied to the user, a last one may have been lost when [copyout]
    failed. *)
Fixpoint piperead_copy (fuel : nat) (i : Z) (got : list Z) : M pipe (ends * list Z) :=
  match fuel with
  | O => no_fuel
  | S fuel' =>
      s ← gets id;
      if (i <? n) && negb (nread s =? nwrite s) then
        let ch := pdata s (nread s mod PIPESIZE) in
        modify (fun s => s <| nread := u32 (nread s + 1) |>);;
        if dst (addr + i) then piperead_copy fuel' (i + 1) (got ++ [ch])
        else
          wake ChWrite;;
          release_spin pipe_lock;;
          mret (Returned i, got ++ [ch])
      else
        wake ChWrite;;
        release_spin pipe_lock;;
        mret (Returned i, got)
  end.

Definition piperead_seg : M pipe (ends * list Z) :=
  acquire_spin pipe_lock;;
  s ← gets id;
  if (nread s =? nwrite s) && negb (writeopen s =? 0) then
    if killed 0 then
      release_spin pipe_lock;;
      mret (Returned (-1), [])
    else
      release_spin pipe_lock;;
      mret (Asleep 0, [])
  else piperead_copy (S (Z.to_nat n)) 0 [].
End calls.

(** ** The pipe as a queue *)

Record pipe_rep (s : pipe) (xs : list Z) : Prop := {
  pr_ring : ring PIPESIZE (2^32) (pdata s) (nread s) xs;
  pr_end : nwrite s = ring_end (2^32) (nread s) xs
}.

Lemma pipe_sizes : 0 < PIPESIZE ∧ PIPESIZE < 2^32 ∧ (PIPESIZE | 2^32).
Proof. split; [done|]. split; [done|]. by exists (2^23). Qed.

Lemma pipe_rep_other s s' xs :
  pdata s' = pdata s -> nread s' = nread s -> nwrite s' = nwrite s -> pipe_rep s xs -> pipe_rep s' xs.
Proof. intros H1 H2 H3 [R E]. split; by rewrite ?H1, ?H2, ?H3. Qed.

Lemma pipe_full s xs : pipe_rep s xs -> (nwrite s =? u32 (nread s + PIPESIZE)) = (Z.of_nat (length xs) =? PIPESIZE).
Proof. intros [R E]. rewrite E. destruct pipe_sizes as (? & ? & ?). by apply (ring_full PIPESIZE (2^32)) in R. Qed.

Lemma pipe_empty s xs : pipe_rep s xs -> (nread s =? nwrite s) = bool_decide (xs = []).
Proof. intros [R E]. rewrite E. destruct pipe_sizes as (? & ? & ?). by apply (ring_empty PIPESIZE (2^32)) in R. Qed.

Lemma pipe_put s xs c :
  pipe_rep s xs -> Z.of_nat (length xs) < PIPESIZE ->
  pipe_rep (s <| pdata ::= fun d => upd d (nwrite s mod PIPESIZE) c |> <| nwrite := u32 (nwrite s + 1) |>) (xs ++ [c]).
Proof.
  intros [R E] Hl. destruct pipe_sizes as (H1 & H2 & H3).
  destruct (ring_push PIPESIZE (2^32) H1 H2 H3 _ _ _ c R Hl) as [R' E']. split; simpl; [by rewrite E|].
  by rewrite E', E.
Qed.

Lemma pipe_get s x xs :
  pipe_rep s (x :: xs) ->
  pdata s (nread s mod PIPESIZE) = x ∧ pipe_rep (s <| nread := u32 (nread s + 1) |>) xs.
Proof.
  intros [R E]. destruct pipe_sizes as (H1 & H2 & H3).
  destruct (ring_pop PIPESIZE (2^32) H1 H2 H3 _ _ _ _ R) as (Hx & R' & E'). split; [done|].
  split; [exact R'|]. simpl. unfold u32. by rewrite E', E.
Qed.

(** The effect of a write segment that starts with [i] bytes done: [bs] goes to
    the end of the queue, and the segment ends for one of four reasons. *)
Record wrote_seg killed src addr n (i : Z) (s s' : pipe) (xs : list Z) (e : ends) (bs : list Z) : Prop := {
  ws_rep : pipe_rep s' (xs ++ bs);
  ws_lock : p_lock s' = false;
  ws_src : forall j b, bs !! j = Some b -> src (addr + i + Z.of_nat j) = Some b;
  ws_open : readopen s' = readopen s ∧ writeopen s' = writeopen s ∧ p_freed s' = p_freed s;
  ws_end : let i' := i + Z.of_nat (length bs) in
    (e = Returned (-1) ∧ i' < n ∧ (readopen s = 0 ∨ killed i' = true) ∧ woken s' = woken s) ∨
    (e = Asleep i' ∧ i' < n ∧ Z.of_nat (length (xs ++ bs)) = PIPESIZE ∧ woken s' = ChRead :: woken s) ∨
    (e = Returned i' ∧ (n <= i' ∨ src (addr + i') = None) ∧ woken s' = ChRead :: woken s)
}.

(** The two ways to leave: with a wakeup and without. *)
Lemma leave_wake {A} c (r : A) s : p_lock s = true ->
  (wake c;; release_spin pipe_lock;; mret r) s = Ok r (s <| woken ::= cons c |> <| p_lock := false |>).
Proof.
  intros Hl. unfold wake, release_spin, modify, mbind, M_bind, mret, M_ret; simpl. by rewrite Hl.
Qed.
Lemma leave_quiet {A} (r : A) s : p_lock s = true ->
  (release_spin pipe_lock;; mret r) s = Ok r (s <| p_lock := false |>).
Proof. intros Hl. unfold release_spin, mbind, M_bind, mret, M_ret; simpl. by rewrite Hl. Qed.

(** A segment that stops before it writes a byte. *)
Lemma wrote_none killed src addr n i s s' xs e :
  pipe_rep s xs -> pdata s' = pdata s -> nread s' = nread s -> nwrite s' = nwrite s -> p_lock s' = false ->
  readopen s' = readopen s ∧ writeopen s' = writeopen s ∧ p_freed s' = p_freed s ->
  (e = Returned (-1) ∧ i < n ∧ (readopen s = 0 ∨ killed i = true) ∧ woken s' = woken s) ∨
  (e = Asleep i ∧ i < n ∧ Z.of_nat (length xs) = PIPESIZE ∧ woken s' = ChRead :: woken s) ∨
  (e = Returned i ∧ (n <= i ∨ src (addr + i) = None) ∧ woken s' = ChRead :: woken s) ->
  wrote_seg killed src addr n i s s' xs e [].
Proof.
  intros Hrep H1 H2 H3 H4 H5 H6. split; rewrite ?app_nil_r; try done.
  - by eapply pipe_rep_other.
  - simpl. by rewrite Z.add_0_r.
Qed.

Lemma pipewrite_loop_spec killed src addr n fuel i done_ s xs :
  pipe_rep s xs -> p_lock s = true -> (Z.to_nat (n - i) < fuel)%nat ->
  ∃ e bs s', pipewrite_loop killed src addr n fuel i done_ s = Ok (e, done_ ++ bs) s' ∧
    wrote_seg killed src addr n i s s' xs e bs.
Proof.
  revert i done_ s xs. induction fuel as [|fuel IH]; intros i done_ s xs Hrep Hlk Hf; [lia|].
  cbn [pipewrite_loop]. destruct (i <? n) eqn:Hin.
  2:{ exists (Returned i), []. eexists. rewrite app_nil_r. split; [by apply leave_wake|].
      apply wrote_none; try done. right; right. split; [done|]. split; [left; lia|done]. }
  rewrite (bind_Ok (gets id) _ s s s eq_refl).
  destruct ((readopen s =? 0) || killed i) eqn:Hk.
  { exists (Returned (-1)), []. eexists. rewrite app_nil_r. split; [by apply leave_quiet|].
    apply wrote_none; try done. left. split; [done|]. split; [lia|]. split; [|done].
    apply orb_true_iff in Hk as [Hk|Hk]; [left; lia|by right]. }
  rewrite (pipe_full _ _ Hrep). destruct (Z.of_nat (length xs) =? PIPESIZE) eqn:Hfull.
  { exists (Asleep i), []. eexists. rewrite app_nil_r. split; [by apply leave_wake|].
    apply wrote_none; try done. right; left. split; [done|]. split; [lia|]. split; [lia|done]. }
  destruct (src (addr + i)) as [c|] eqn:Hsrc.
  2:{ exists (Returned i), []. eexists. rewrite app_nil_r. split; [by apply leave_wake|].
      apply wrote_none; try done. right; right. split; [done|]. split; [by right|done]. }
  assert (Hl : Z.of_nat (length xs) < PIPESIZE) by (destruct (pr_ring _ _ Hrep) as (_ & ? & _); lia).
  destruct (IH (i + 1) (done_ ++ [c]) _ _ (pipe_put _ _ c Hrep Hl) Hlk ltac:(lia))
    as (e & bs & s' & Hrun & [W1 W2 W3 W4 W5]).
  exists e, (c :: bs), s'. split; [rewrite <- app_assoc in Hrun; exact Hrun|].
  split; try done.
  - by rewrite <- app_assoc in W1.
  - intros [|j] b Hj; [injection Hj as <-; by replace (addr + i + Z.of_nat 0) with (addr + i) by lia|].
    rewrite <- (W3 j b Hj). f_equal. lia.
  - cbn [length]. rewrite Nat2Z.inj_succ. rewrite <- app_assoc in W5. simpl in W5.
    replace (i + 1 + Z.of_nat (length bs)) with (i + Z.succ (Z.of_nat (length bs))) in W5 by lia. exact W5.
Qed.

(** The effect of a read segment: [got] is taken from the front of the queue. *)
Record read_seg killed dst addr n (s s' : pipe) (xs : list Z) (e : ends) (got : list Z) : Prop := {
  rs_rep : ∃ rest, xs = got ++ rest ∧ pipe_rep s' rest;
  rs_lock : p_lock s' = false;
  rs_open : readopen s' = readopen s ∧ writeopen s' = writeopen s ∧ p_freed s' = p_freed s;
  rs_end :
    (e = Returned (-1) ∧ got = [] ∧ xs = [] ∧ writeopen s ≠ 0 ∧ killed 0 = true ∧ woken s' = woken s) ∨
    (e = Asleep 0 ∧ got = [] ∧ xs = [] ∧ writeopen s ≠ 0 ∧ woken s' = woken s) ∨
    (∃ i, e = Returned i ∧ 0 <= i ∧ woken s' = ChWrite :: woken s ∧
      (forall j, 0 <= j < i -> dst (addr + j) = true) ∧
      ((Z.of_nat (length got) = i ∧ (n <= i ∨ got = xs)) ∨
       (Z.of_nat (length got) = i + 1 ∧ i < n ∧ dst (addr + i) = false)))
}.

Lemma piperead_copy_spec dst addr n fuel i got s xs :
  pipe_rep s xs -> p_lock s = true -> 0 <= i -> (Z.to_nat (n - i) < fuel)%nat -> Z.of_nat (length got) = i ->
  (forall j, 0 <= j < i -> dst (addr + j) = true) ->
  ∃ i' got' rest s', piperead_copy dst addr n fuel i got s = Ok (Returned i', got ++ got') s' ∧
    xs = got' ++ rest ∧ pipe_rep s' rest ∧ p_lock s' = false ∧
    (readopen s' = readopen s ∧ writeopen s' = writeopen s ∧ p_freed s' = p_freed s) ∧
    0 <= i' ∧ woken s' = ChWrite :: woken s ∧ (forall j, 0 <= j < i' -> dst (addr + j) = true) ∧
    ((Z.of_nat (length (got ++ got')) = i' ∧ (n <= i' ∨ rest = [])) ∨
     (Z.of_nat (length (got ++ got')) = i' + 1 ∧ i' < n ∧ dst (addr + i') = false)).
Proof.
  revert i got s xs. induction fuel as [|fuel IH]; intros i got s xs Hrep Hlk Hi Hf Hg Hd; [lia|].
  cbn [piperead_copy]. rewrite (bind_Ok (gets id) _ s s s eq_refl). rewrite (pipe_empty _ _ Hrep).
  destruct ((i <? n) && negb (bool_decide (xs = []))) eqn:Hc.
  2:{ exists i, [], xs. eexists. rewrite !app_nil_r. split; [by apply leave_wake|].
      split; [done|]. split; [by eapply pipe_rep_other; [..|exact Hrep]|]. split; [done|]. split; [done|].
      split; [done|]. split; [done|]. split; [done|]. left. split; [done|].
      destruct (i <? n) eqn:Hin; [right|left; lia]. by destruct xs. }
  destruct xs as [|x xs]; [by rewrite bool_decide_eq_true_2, andb_false_r in Hc|].
  destruct (pipe_get s x xs Hrep) as [-> Hrep']. set (s1 := s <| nread := _ |>) in *.
  rewrite (bind_Ok (modify (fun s => s <| nread := u32 (nread s + 1) |>)) _ s tt s1 eq_refl). destruct (dst (addr + i)) eqn:Hdi.
  - destruct (IH (i + 1) (got ++ [x]) s1 xs Hrep' Hlk ltac:(lia) ltac:(lia)) as (i' & got' & rest & s' & H1 & H2 & H3);
      [rewrite length_app; simpl; lia|intros j Hj; destruct (decide (j = i)) as [->|]; [done|apply Hd; lia]|].
    exists i', (x :: got'), rest, s'. rewrite <- app_assoc in H1, H3. split; [exact H1|]. split; [by rewrite H2|exact H3].
  - exists i, [x], xs. eexists. split; [by apply leave_wake|]. split; [done|].
    split; [by eapply pipe_rep_other; [..|exact Hrep']|]. split; [done|]. split; [done|]. split; [done|]. split; [done|].
    split; [done|]. right. rewrite length_app. simpl. split; [lia|]. split; [lia|done].
Qed.

Lemma piperead_seg_spec killed dst addr n s xs :
  pipe_rep s xs -> p_lock s = false ->
  ∃ e got s', piperead_seg killed dst addr n s = Ok (e, got) s' ∧ read_seg killed dst addr n s s' xs e got.
Proof.
  intros Hrep Hlk. unfold piperead_seg.
  assert (Ha : acquire_spin pipe_lock s = Ok tt (s <| p_lock := true |>)) by (unfold acquire_spin; simpl; by rewrite Hlk).
  rewrite (bind_Ok _ _ _ _ _ Ha). set (s1 := s <| p_lock := true |>).
  assert (Hrep1 : pipe_rep s1 xs) by (by eapply pipe_rep_other; [..|exact Hrep]).
  rewrite (bind_Ok (gets id) _ s1 s1 s1 eq_refl), (pipe_empty _ _ Hrep1).
  destruct (bool_decide (xs = []) && negb (writeopen s1 =? 0)) eqn:Hc.
  - apply andb_true_iff in Hc as [Hx%bool_decide_eq_true Hw]. subst xs.
    assert (Hw' : writeopen s ≠ 0) by (unfold s1 in Hw; simpl in Hw; destruct (writeopen s =? 0) eqn:?; [done|lia]).
    destruct (killed 0) eqn:Hk; eexists _, [], _; (split; [by apply leave_quiet|]).
    + split; [exists []; split; [done|by eapply pipe_rep_other; [..|exact Hrep]]|done|done|left; auto 10].
    + split; [exists []; split; [done|by eapply pipe_rep_other; [..|exact Hrep]]|done|done|right; left; auto 10].
  - destruct (piperead_copy_spec dst addr n (S (Z.to_nat n)) 0 [] s1 xs Hrep1 eq_refl ltac:(lia) ltac:(lia) eq_refl ltac:(lia))
      as (i & got & rest & s' & H1 & H2 & H3 & H4 & H5 & H6 & H7 & H8 & H9).
    exists (Returned i), got, s'. split; [exact H1|]. split; [eauto|done|done|right; right].
    exists i. split; [done|]. split; [done|]. split; [done|]. split; [done|]. simpl in H9.
    destruct H9 as [[H9 H10]|H9]; [left|by right]. split; [done|]. destruct H10 as [?|H10]; [by left|right].
    subst. by rewrite app_nil_r.
Qed.

Lemma pipewrite_seg_spec killed src addr n i s xs :
  pipe_rep s xs -> p_lock s = false ->
  ∃ e bs s', pipewrite_seg killed src addr n i s = Ok (e, bs) s' ∧ wrote_seg killed src addr n i s s' xs e bs.
Proof.
  intros Hrep Hlk. unfold pipewrite_seg.
  assert (Ha : acquire_spin pipe_lock s = Ok tt (s <| p_lock := true |>)) by (unfold acquire_spin; simpl; by rewrite Hlk).
  rewrite (bind_Ok _ _ _ _ _ Ha).
  destruct (pipewrite_loop_spec killed src addr n (S (Z.to_nat (n - i))) i [] (s <| p_lock := true |>) xs)
    as (e & bs & s' & Hrun & [W1 W2 W3 W4 W5]); [by eapply pipe_rep_other; [..|exact Hrep]|done|lia|].
  by exists e, bs, s'.
Qed.

Lemma pipeclose_spec w s xs :
  pipe_rep s xs -> p_lock s = false ->
  ∃ s', pipeclose w s = Ok tt s' ∧ pipe_rep s' xs ∧ p_lock s' = false ∧
    woken s' = (if w =? 0 then ChWrite else ChRead) :: woken s ∧
    (p_freed s' = true <-> p_freed s = true ∨ (readopen s' = 0 ∧ writeopen s' = 0)).
Proof.
  intros Hrep Hlk. unfold pipeclose, acquire_spin, release_spin, wake, modify, gets, mbind, M_bind; simpl. rewrite Hlk.
  destruct (w =? 0) eqn:Hw; simpl;
    match goal with |- context [if ?c then _ else _] => destruct c eqn:Hc end; eexists; (split; [done|]);
    (split; [by eapply pipe_rep_other; [..|exact Hrep]|]); simpl; (split; [done|]); (split; [done|]); split;
    first [by auto | by intros [?|[? ?]]; [done|lia] | intros _; right; lia].
Qed.

(** ** Any number of processes at the two ends of a pipe *)

(** [psteps s ws rs s']: segments lead from [s] to [s']; [ws] are the bytes put
    into the pipe on the way and [rs] those taken out, in order. *)
Inductive psteps (s : pipe) : list Z -> list Z -> pipe -> Prop :=
| PS_nil : psteps s [] [] s
| PS_write killed src addr n i ws rs s1 e bs s2 :
    psteps s ws rs s1 -> pipewrite_seg killed src addr n i s1 = Ok (e, bs) s2 -> psteps s (ws ++ bs) rs s2
| PS_read killed dst addr n ws rs s1 e bs s2 :
    psteps s ws rs s1 -> piperead_seg killed dst addr n s1 = Ok (e, bs) s2 -> psteps s ws (rs ++ bs) s2
| PS_close w ws rs s1 s2 :
    psteps s ws rs s1 -> pipeclose w s1 = Ok tt s2 -> psteps s ws rs s2.

Lemma psteps_rep g ws rs s :
  psteps (pipe_new g) ws rs s -> p_lock s = false ∧ ∃ q, ws = rs ++ q ∧ pipe_rep s q.
Proof.
  induction 1 as [|killed src addr n i ws rs s1 e bs s2 _ [Hl (q & -> & Hq)] Hrun
                  |killed dst addr n ws rs s1 e bs s2 _ [Hl (q & -> & Hq)] Hrun|w ws rs s1 s2 _ [Hl (q & -> & Hq)] Hrun].
  - split; [done|]. exists []. split; [done|]. split; [by apply ring_nil|done].
  - destruct (pipewrite_seg_spec killed src addr n i s1 q Hq Hl) as (e' & bs' & s' & Hrun' & [W1 W2 _ _ _]).
    rewrite Hrun in Hrun'. injection Hrun' as <- <- <-. split; [done|]. exists (q ++ bs). by rewrite app_assoc.
  - destruct (piperead_seg_spec killed dst addr n s1 q Hq Hl) as (e' & bs' & s' & Hrun' & [(rest & -> & R1) R2 _ _]).
    rewrite Hrun in Hrun'. injection Hrun' as <- <- <-. split; [done|]. exists rest. by rewrite app_assoc.
  - destruct (pipeclose_spec w s1 q Hq Hl) as (s' & Hrun' & C1 & C2 & _).
    rewrite Hrun in Hrun'. injection Hrun' as <-. split; [done|]. by exists q.
Qed.

(** C30: A pipe is a queue of at most 512 bytes.  After any sequence of segments of
    writes, reads and closes by any number of processes, the bytes put in so far
    are those taken out so far followed by what the pipe holds, so every byte is
    delivered once and in order, also when the counters wrap around; the pipe's
    lock is free, and every further segment runs to its end. *)
Theorem pipe_fifo g ws rs s :
  psteps (pipe_new g) ws rs s ->
  (∃ q, ws = rs ++ q ∧ Z.of_nat (length q) <= PIPESIZE ∧ u32 (nwrite s - nread s) = Z.of_nat (length q)) ∧
  p_lock s = false ∧
  (forall killed src addr n i, ∃ e bs s', pipewrite_seg killed src addr n i s = Ok (e, bs) s') ∧
  (forall killed dst addr n, ∃ e bs s', piperead_seg killed dst addr n s = Ok (e, bs) s') ∧
  (forall w, ∃ s', pipeclose w s = Ok tt s').
Proof.
  intros [Hl (q & Hq & Hrep)]%psteps_rep. split.
  - exists q. split; [done|]. destruct Hrep as [(Hr & Hlen & _) He]. split; [done|]. rewrite He. unfold ring_end, u32.
    rewrite Zminus_mod_idemp_l. replace (nread s + Z.of_nat (length q) - nread s) with (Z.of_nat (length q)) by lia.
    unfold PIPESIZE in Hlen. rewrite Z.mod_small; lia.
  - split; [done|]. split; [|split].
    + intros. destruct (pipewrite_seg_spec killed src addr n i s q Hrep Hl) as (e & bs & s' & Hrun & _). eauto.
    + intros. destruct (piperead_seg_spec killed dst addr n s q Hrep Hl) as (e & bs & s' & Hrun & _). eauto.
    + intros. destruct (pipeclose_spec w s q Hrep Hl) as (s' & Hrun & _). eauto.
Qed.

(** C31: who is woken, and the one exception.  A writer goes to sleep only when the
    pipe is full, a reader only when it is empty and a writer still has it open; a
    segment that takes bytes out wakes the writers, and closing an end wakes the other.
    A segment of a writer wakes the readers, except when it returns -1 because the
    read end is closed or the writer was killed: then bytes it has put in are there
    without a wakeup ([killed_writer_wakes_nobody]). *)
Theorem pipe_wakeups g ws rs s :
  psteps (pipe_new g) ws rs s ->
  (forall killed src addr n i e bs s', pipewrite_seg killed src addr n i s = Ok (e, bs) s' ->
    (forall k, e = Asleep k -> nwrite s' = u32 (nread s' + PIPESIZE)) ∧
    (woken s' = ChRead :: woken s ∨
      (e = Returned (-1) ∧ (readopen s = 0 ∨ killed (i + Z.of_nat (length bs)) = true)))) ∧
  (forall killed dst addr n e bs s', piperead_seg killed dst addr n s = Ok (e, bs) s' ->
    (forall k, e = Asleep k -> nread s' = nwrite s' ∧ writeopen s' ≠ 0) ∧
    (bs ≠ [] -> woken s' = ChWrite :: woken s)) ∧
  (forall w s', pipeclose w s = Ok tt s' -> woken s' = (if w =? 0 then ChWrite else ChRead) :: woken s).
Proof.
  intros [Hl (q & Hq & Hrep)]%psteps_rep. split; [|split].
  - intros killed src addr n i e bs s' Hrun.
    destruct (pipewrite_seg_spec killed src addr n i s q Hrep Hl) as (e' & bs' & s2 & Hrun' & [W1 _ _ _ W5]).
    rewrite Hrun in Hrun'. injection Hrun' as <- <- <-. pose proof (pipe_full _ _ W1) as Hfull. split.
    + intros k ->. destruct W5 as [(? & _)|[(_ & _ & Hlen & _)|(? & _)]]; [done| |done].
      rewrite Hlen in Hfull. lia.
    + destruct W5 as [(? & _ & ? & _)|[(_ & _ & _ & ?)|(_ & _ & ?)]]; auto.
  - intros killed dst addr n e bs s' Hrun.
    destruct (piperead_seg_spec killed dst addr n s q Hrep Hl) as (e' & bs' & s2 & Hrun' & [(rest & He & R1) _ (_ & R3 & _) R4]).
    rewrite Hrun in Hrun'. injection Hrun' as <- <- <-. pose proof (pipe_empty _ _ R1) as Hempty. split.
    + intros k ->. destruct R4 as [(? & _)|[(_ & -> & -> & Hw & _)|(i & ? & _)]]; [done| |done].
      destruct rest; [|done]. rewrite bool_decide_eq_true_2 in Hempty by done. split; [lia|by rewrite R3].
    + intros Hbs. destruct R4 as [(_ & -> & _)|[(_ & -> & _)|(i & _ & _ & ? & _)]]; done.
  - intros w s' Hrun. destruct (pipeclose_spec w s q Hrep Hl) as (s2 & Hrun' & _ & _ & C3 & _).
    rewrite Hrun in Hrun'. by injection Hrun' as <-.
Qed.

(** ** Witnesses: three bytes are written, two are read *)
Definition three (a : Z) : option Z := if (100 <=? a) && (a <? 103) then Some a else None.

(** A writer that is killed when it has put one byte into an empty pipe: the byte can
    be read, and a reader that sleeps on the pipe is not woken. *)
Lemma killed_writer_wakes_nobody : ∃ s,
  pipewrite_seg (fun i => i =? 1) three 100 3 0 (pipe_new (fun _ => 0)) = Ok (Returned (-1), [100]) s ∧
  u32 (nwrite s - nread s) = 1 ∧ readopen s = 1 ∧ woken s = [].
Proof. eexists. split; [vm_compute; reflexivity|]. done. Qed.

Lemma pipe_example : ∃ s, psteps (pipe_new (fun _ => 0)) [100; 101; 102] [100; 101] s.
Proof.
  eexists. eapply (PS_read _ (fun _ => false) (fun _ => true) 0 2 _ [] _ (Returned 2) [100; 101]).
  - eapply (PS_write _ (fun _ => false) three 100 3 0 [] [] _ (Returned 3) [100; 101; 102]); [apply PS_nil|].
    vm_compute. reflexivity.
  - vm_compute. reflexivity.
Qed.

Lemma pipe_fifo_witness : ∃ s q, psteps (pipe_new (fun _ => 0)) [100; 101; 102] [100; 101] s ∧
  [100; 101; 102] = [100; 101] ++ q ∧ u32 (nwrite s - nread s) = Z.of_nat (length q).
Proof.
  destruct pipe_example as [s Hs]. destruct (pipe_fifo _ _ _ _ Hs) as [(q & H1 & _ & H3) _].
  exists s, q. split; [exact Hs|]. split; [exact H1|exact H3].
Defined.

Lemma pipe_wakeups_witness : ∃ s s', psteps (pipe_new (fun _ => 0)) [100; 101; 102] [100; 101] s ∧
  pipeclose 1 s = Ok tt s' ∧ woken s' = ChRead :: woken s.
Proof.
  destruct pipe_example as [s Hs]. pose proof (psteps_rep _ _ _ _ Hs) as [Hl (q & _ & Hq)].
  destruct (pipeclose_spec 1 s q Hq Hl) as (s' & Hc & _). exists s, s'. split; [exact Hs|]. split; [exact Hc|].
  destruct (pipe_wakeups _ _ _ _ Hs) as (_ & _ & Hw). exact (Hw 1 s' Hc).
Defined.
