(* ===== verification/Console.v ===== *)
(** * Console: kernel/console.c and kernel/uart.c

    The console line editor, its input ring of 128 bytes, and the output ring of
    32 bytes of the UART driver.  The device is what the driver sees of it: the
    line status register, read as the stream [lsr] (bit 5: the transmitter is
    idle), the bytes written to THR in order, and the bytes received.  A call
    that goes to sleep ends there with [false] or [Asleep]; it is resumed by
    running the same loop again.  [push_off] and [pop_off] around
    [uartputc_sync] restore the interrupt state of the hart (Spinlock.v). *)

From S2P Require Import Prelude SleepLock Ring.

Definition INPUT_BUF : Z := 128.
Definition UART_TX_BUF_SIZE : Z := 32.
Definition BACKSPACE : Z := 256.
Definition LSR_TX_IDLE : Z := Z.shiftl 1 5.
(** C(x), Control-x *)
Definition Ctl (x : Z) : Z := x - 64.

(** Sleep channels: [&cons.r] and [&uart_tx_r]. *)
Inductive cchan := ChInput | ChOutput.

Record cons_ := Cons {
  c_lock : bool; cbuf : Z -> Z; c_r : Z; c_w : Z; c_e : Z;
  tx_lock : bool; tx_buf : Z -> Z; tx_w : Z; tx_r : Z;
  panicked : Z;
  thr : list Z;                     (* bytes written to THR, in order *)
  rx : list Z;                      (* bytes received and not read yet *)
  reads : nat;                      (* reads of LSR for the transmitter *)
  c_woken : list cchan              (* calls of wakeup, the latest first *)
}.
#[export] Instance cons_eta : Eta cons_ := fun r =>
  Cons (c_lock r) (cbuf r) (c_r r) (c_w r) (c_e r) (tx_lock r) (tx_buf r) (tx_w r) (tx_r r) (panicked r)
    (thr r) (rx r) (reads r) (c_woken r).

Definition cons_lock : lens cons_ bool := Lens c_lock (fun f s => s <| c_lock ::= f |>).
Definition uart_tx_lock : lens cons_ bool := Lens tx_lock (fun f s => s <| tx_lock ::= f |>).
Definition c_wake (c : cchan) : M cons_ unit := modify (fun s => s <| c_woken ::= cons c |>).

Section console.
Abbreviation K := (M cons_).
(** [wait] is the fuel for one wait for the transmitter; [procdump] is the
    routine of proc.c. *)
Context (lsr : nat -> Z) (wait : nat) (procdump : K unit).

(** ** uart.c *)

(** [ReadReg(LSR)] and [WriteReg(THR, c)] *)
Definition read_lsr : K Z := fun s => Ok (lsr (reads s)) (s <| reads := S (reads s) |>).
Definition write_thr (c : Z) : K unit := modify (fun s => s <| thr ::= fun o => o ++ [u8 c] |>).

Fixpoint uartstart_loop (fuel : nat) : K unit :=
  match fuel with
  | O => no_fuel
  | S fuel' =>
      s ← gets id;
      if tx_w s =? tx_r s then mret tt else
      l ← read_lsr;
      if Z.land l LSR_TX_IDLE =? 0 then mret tt else
      s ← gets id;
      let c := tx_buf s (tx_r s mod UART_TX_BUF_SIZE) in
      modify (fun s => s <| tx_r := u64 (tx_r s + 1) |>);;
      c_wake ChOutput;;
      write_thr c;;
      uartstart_loop fuel'
  end.
Definition uartstart : K unit := uartstart_loop (S (Z.to_nat UART_TX_BUF_SIZE)).

(** [true]: the byte has been queued; [false]: asleep, waiting for space. *)
Definition uartputc (c : Z) : K bool :=
  acquire_spin uart_tx_lock;;
  s ← gets id;
  if negb (panicked s =? 0) then spin else
  if tx_w s =? u64 (tx_r s + UART_TX_BUF_SIZE) then
    release_spin uart_tx_lock;;
    mret false
  else
    modify (fun s => s <| tx_buf ::= fun b => upd b (tx_w s mod UART_TX_BUF_SIZE) c |>);;
    modify (fun s => s <| tx_w := u64 (tx_w s + 1) |>);;
    uartstart;;
    release_spin uart_tx_lock;;
    mret true.

Fixpoint wait_idle (fuel : nat) : K unit :=
  match fuel with
  | O => no_fuel
  | S fuel' => l ← read_lsr; if Z.land l LSR_TX_IDLE =? 0 then wait_idle fuel' else mret tt
  end.

Definition uartputc_sync (c : Z) : K unit :=
  s ← gets id;
  if negb (panicked s =? 0) then spin else
  wait_idle wait;;
  write_thr c.

Definition uartgetc : K Z := fun s =>
  match rx s with
  | [] => Ok (-1) s
  | c :: rest => Ok c (s <| rx := rest |>)
  end.

(** ** console.c *)

Definition consputc (c : Z) : K unit :=
  if c =? BACKSPACE then uartputc_sync 8;; uartputc_sync 32;; uartputc_sync 8
  else uartputc_sync c.

(** The loop of "kill line". *)
Fixpoint kill_line (fuel : nat) : K unit :=
  match fuel with
  | O => no_fuel
  | S fuel' =>
      s ← gets id;
      if negb (c_e s =? c_w s) && negb (cbuf s (u32 (c_e s - 1) mod INPUT_BUF) =? 10) then
        modify (fun s => s <| c_e := u32 (c_e s - 1) |>);;
        consputc BACKSPACE;;
        kill_line fuel'
      else mret tt
  end.

Definition store_char (c : Z) : K unit :=
  let c := if c =? 13 then 10 else c in
  consputc c;;
  modify (fun s => s <| cbuf ::= fun b => upd b (c_e s mod INPUT_BUF) (u8 c) |>);;
  modify (fun s => s <| c_e := u32 (c_e s + 1) |>);;
  s ← gets id;
  when ((c =? 10) || (c =? Ctl 68) || (c_e s =? u32 (c_r s + INPUT_BUF))) (
    modify (fun s => s <| c_w := c_e s |>);;
    c_wake ChInput).

Definition consoleintr (c : Z) : K unit :=
  acquire_spin cons_lock;;
  s ← gets id;
  (if c =? Ctl 80 then procdump
   else if c =? Ctl 85 then kill_line (S (Z.to_nat INPUT_BUF))
   else if (c =? Ctl 72) || (c =? 127) then
     when (negb (c_e s =? c_w s)) (
       modify (fun s => s <| c_e := u32 (c_e s - 1) |>);;
       consputc BACKSPACE)
   else
     when (negb (c =? 0) && (u32 (c_e s - c_r s) <? INPUT_BUF)) (store_char c));;
  release_spin cons_lock.

Fixpoint uartintr_input (fuel : nat) : K unit :=
  match fuel with
  | O => no_fuel
  | S fuel' =>
      c ← uartgetc;
      if c =? -1 then mret tt else
      consoleintr c;;
      uartintr_input fuel'
  end.

Definition uartintr : K unit :=
  s ← gets id;
  uartintr_input (S (length (rx s)));;
  acquire_spin uart_tx_lock;;
  uartstart;;
  release_spin uart_tx_lock.

(** How a piece of a read or write ends: with a result, or asleep. *)
Inductive c_ends := Done (r : Z) | Sleeping (n : Z).

(** [consolewrite] from byte [i] on; [src a] is what [either_copyin] finds at
    [a].  Asleep at [i]: byte [i] is waiting in [uartputc]. *)
Fixpoint consolewrite_loop (src : Z -> option Z) (addr n : Z) (fuel : nat) (i : Z) : K c_ends :=
  match fuel with
  | O => no_fuel
  | S fuel' =>
      if i <? n then
        match src (addr + i) with
        | None => mret (Done i)
        | Some c =>
            b ← uartputc c;
            match b with
            | true => consolewrite_loop src addr n fuel' (i + 1)
            | false => mret (Sleeping i)
            end
        end
      else mret (Done i)
  end.
Definition consolewrite (src : Z -> option Z) (addr n : Z) : K c_ends :=
  consolewrite_loop src addr n (S (Z.to_nat n)) 0.
(** Woken in [uartputc] with the byte [c] of position [i]. *)
Definition consolewrite_resume (src : Z -> option Z) (addr n c i : Z) : K c_ends :=
  b ← uartputc c;
  match b with
  | true => consolewrite_loop src addr n (S (Z.to_nat (n - (i + 1)))) (i + 1)
  | false => mret (Sleeping i)
  end.

(** [consoleread], holding the lock, with [n] of [target] bytes to go; [dst k]:
    does [either_copyout] of the [k]-th byte succeed?  The list is the bytes
    taken for the user, in order. *)
Fixpoint consoleread_loop (killed : bool) (dst : Z -> bool) (target : Z) (fuel : nat) (n : Z) (got : list Z)
    : K (c_ends * list Z) :=
  match fuel with
  | O => no_fuel
  | S fuel' =>
      if 0 <? n then
        s ← gets id;
        if c_r s =? c_w s then
          if killed then release_spin cons_lock;; mret (Done (-1), got)
          else release_spin cons_lock;; mret (Sleeping n, got)
        else
          let c := cbuf s (c_r s mod INPUT_BUF) in
          modify (fun s => s <| c_r := u32 (c_r s + 1) |>);;
          if c =? Ctl 68 then
            when (n <? target) (modify (fun s => s <| c_r := u32 (c_r s - 1) |>));;
            release_spin cons_lock;;
            mret (Done (target - n), got)
          else if negb (dst (target - n)) then
            release_spin cons_lock;;
            mret (Done (target - n), got)
          else if c =? 10 then
            release_spin cons_lock;;
            mret (Done (target - (n - 1)), got ++ [c])
          else consoleread_loop killed dst target fuel' (n - 1) (got ++ [c])
      else
        release_spin cons_lock;;
        mret (Done (target - n), got)
  end.

(** The first piece has [n = target]; a later one goes on where the sleep left. *)
Definition consoleread_seg (killed : bool) (dst : Z -> bool) (target n : Z) : K (c_ends * list Z) :=
  acquire_spin cons_lock;;
  consoleread_loop killed dst target (S (Z.to_nat n)) n [].
End console.

(** ** The line editor, abstractly *)

(** Lines that can be read, and the line being edited. *)
Record editor := Editor { lines : list Z; editing : list Z }.

Definition edit_char (c : Z) (a : editor) : editor :=
  if c =? Ctl 80 then a
  else if c =? Ctl 85 then Editor (lines a) []
  else if (c =? Ctl 72) || (c =? 127) then Editor (lines a) (take (length (editing a) - 1) (editing a))
  else if (c =? 0) || (Z.of_nat (length (lines a ++ editing a)) =? INPUT_BUF) then a
  else
    let c := if c =? 13 then 10 else c in
    let e := editing a ++ [c] in
    if (c =? 10) || (c =? Ctl 68) || (Z.of_nat (length (lines a ++ e)) =? INPUT_BUF)
    then Editor (lines a ++ e) [] else Editor (lines a) e.

(** What the terminal shows for it. *)
Definition rub : list Z := [8; 32; 8].
Definition echo_char (c : Z) (a : editor) : list Z :=
  if c =? Ctl 80 then []
  else if c =? Ctl 85 then concat (replicate (length (editing a)) rub)
  else if (c =? Ctl 72) || (c =? 127) then (if decide (editing a = []) then [] else rub)
  else if (c =? 0) || (Z.of_nat (length (lines a ++ editing a)) =? INPUT_BUF) then []
  else [if c =? 13 then 10 else c].

(** Taking bytes for a read of [n] more bytes: those taken, what is left, and
    whether the read is over. *)
Fixpoint take_line (k : nat) (first : bool) (ls : list Z) : list Z * list Z * bool :=
  match k with
  | O => ([], ls, true)
  | S k' =>
      match ls with
      | [] => ([], [], false)
      | c :: ls' =>
          if c =? Ctl 68 then ([], if first then ls' else ls, true)
          else if c =? 10 then ([c], ls', true)
          else let '(got, rest, over) := take_line k' false ls' in (c :: got, rest, over)
      end
  end.

(** ** The code implements the editor *)
Section refine.
Context (lsr : nat -> Z) (wait : nat) (procdump : M cons_ unit).

(** The transmitter becomes idle within [wait] reads of its status. *)
Definition becomes_idle : Prop :=
  forall k, ∃ j, (j < wait)%nat ∧ Z.land (lsr (k + j)) LSR_TX_IDLE ≠ 0.

(** Only output happened: [o] was sent. *)
Definition sent (s : cons_) (o : list Z) (s' : cons_) : Prop :=
  ∃ n, s' = s <| reads := n |> <| thr := thr s ++ o |>.

(** [procdump] prints the process table and changes nothing else here. *)
Definition procdump_prints : Prop :=
  forall s, panicked s = 0 -> ∃ o s', procdump s = Ok tt s' ∧ sent s o s'.

Record cons_rep (s : cons_) (a : editor) : Prop := {
  cr_ring : ring INPUT_BUF (2^32) (cbuf s) (c_r s) (lines a ++ editing a);
  cr_w : c_w s = ring_end (2^32) (c_r s) (lines a);
  cr_e : c_e s = ring_end (2^32) (c_r s) (lines a ++ editing a);
  cr_line : 10 ∉ editing a;
  cr_panicked : panicked s = 0
}.

Context (Hidle : becomes_idle) (Hdump : procdump_prints).

Lemma input_sizes : 0 < INPUT_BUF ∧ INPUT_BUF < 2^32 ∧ (INPUT_BUF | 2^32).
Proof. split; [done|]. split; [done|]. by exists (2^25). Qed.

Lemma sent_trans s1 o1 s2 o2 s3 : sent s1 o1 s2 -> sent s2 o2 s3 -> sent s1 (o1 ++ o2) s3.
Proof. intros [n1 ->] [n2 ->]. exists n2. unfold setter; simpl. by rewrite app_assoc. Qed.

Lemma sent_rep s o s' a : sent s o s' -> cons_rep s a -> cons_rep s' a.
Proof. intros [n ->] []. by split. Qed.

Lemma wait_idle_ok s fuel :
  (∃ j, (j < fuel)%nat ∧ Z.land (lsr (reads s + j)) LSR_TX_IDLE ≠ 0) ->
  ∃ n, wait_idle lsr fuel s = Ok tt (s <| reads := n |>).
Proof.
  revert s. induction fuel as [|fuel IH]; intros s (j & Hj & Hl); [lia|].
  cbn [wait_idle]. unfold read_lsr, mbind, M_bind. destruct (Z.land (lsr (reads s)) LSR_TX_IDLE =? 0) eqn:He.
  - destruct j as [|j]; [rewrite Nat.add_0_r in Hl; lia|].
    destruct (IH (s <| reads := S (reads s) |>)) as [n Hn]; [exists j; split; [lia|]; by rewrite Nat.add_succ_r in Hl|].
    exists n. rewrite Hn. done.
  - by exists (S (reads s)).
Qed.

Lemma uartputc_sync_ok c s : panicked s = 0 -> ∃ s', uartputc_sync lsr wait c s = Ok tt s' ∧ sent s [u8 c] s'.
Proof.
  intros Hp. unfold uartputc_sync. rewrite (bind_Ok (gets id) _ s s s eq_refl), Hp. simpl.
  destruct (wait_idle_ok s wait (Hidle (reads s))) as [n Hn]. rewrite (bind_Ok _ _ _ _ _ Hn).
  eexists. split; [done|]. by exists n.
Qed.

Lemma consputc_back s : panicked s = 0 -> ∃ s', consputc lsr wait BACKSPACE s = Ok tt s' ∧ sent s rub s'.
Proof.
  intros Hp. unfold consputc. change (BACKSPACE =? BACKSPACE) with true. cbv iota.
  destruct (uartputc_sync_ok 8 s Hp) as (s1 & H1 & S1). rewrite (bind_Ok _ _ _ _ _ H1).
  destruct (uartputc_sync_ok 32 s1) as (s2 & H2 & S2); [by destruct S1 as [? ->]|]. rewrite (bind_Ok _ _ _ _ _ H2).
  destruct (uartputc_sync_ok 8 s2) as (s3 & H3 & S3); [by destruct S1 as [? ->], S2 as [? ->]|]. exists s3.
  split; [exact H3|]. exact (sent_trans _ _ _ _ _ (sent_trans _ _ _ _ _ S1 S2) S3).
Qed.

Lemma consputc_char c s : panicked s = 0 -> 0 <= c < 256 -> ∃ s', consputc lsr wait c s = Ok tt s' ∧ sent s [c] s'.
Proof.
  intros Hp Hc. unfold consputc, BACKSPACE. assert ((c =? 256) = false) as -> by lia.
  destruct (uartputc_sync_ok c s Hp) as (s' & H1 & H2). exists s'. split; [done|].
  unfold u8 in H2. by rewrite Z.mod_small in H2 by lia.
Qed.

Lemma nothing_edited s a : cons_rep s a -> (c_e s =? c_w s) = bool_decide (editing a = []).
Proof.
  intros [(Hr & Hl & _) Hw He _ _]. rewrite He, Hw. unfold ring_end. rewrite length_app, Nat2Z.inj_add in *.
  destruct (editing a) as [|x e] eqn:Hed.
  - rewrite bool_decide_eq_true_2 by done. simpl. rewrite Nat2Z.inj_0, Z.add_0_r. lia.
  - rewrite bool_decide_eq_false_2 by done. apply Z.eqb_neq. intros Heq.
    destruct input_sizes as (? & ? & _). simpl in Hl. apply (wrap_inj INPUT_BUF) in Heq; simpl in *; lia.
Qed.

Lemma space_used s a : cons_rep s a -> u32 (c_e s - c_r s) = Z.of_nat (length (lines a ++ editing a)).
Proof.
  intros [(Hr & Hl & _) Hw He _ _]. rewrite He. unfold ring_end, u32. rewrite Zminus_mod_idemp_l.
  unfold INPUT_BUF in Hl. rewrite Z.mod_small; lia.
Qed.

(** Erasing the last character. *)
Lemma erase_rep s ls e x :
  cons_rep s (Editor ls (e ++ [x])) ->
  cons_rep (s <| c_e := u32 (c_e s - 1) |>) (Editor ls e) ∧ cbuf s (u32 (c_e s - 1) mod INPUT_BUF) = x ∧ x ≠ 10.
Proof.
  intros [Hr Hw He Hn Hp]. simpl in *. rewrite app_assoc in Hr, He. destruct input_sizes as (S1 & S2 & S3).
  destruct (ring_drop INPUT_BUF (2^32) S3 _ _ _ _ Hr) as (R1 & R2 & R3). rewrite <- He in R2.
  split; [split; simpl; try done|].
  - intros Hin. apply Hn, elem_of_app. auto.
  - unfold u32. rewrite <- R2. split; [exact R3|]. intros ->. apply Hn, elem_of_app. right. by apply list_elem_of_singleton.
Qed.

Lemma sent_edit s o s' x : sent s o s' -> sent (s <| c_e := x |>) o (s' <| c_e := x |>) ∧ c_w s' = c_w s.
Proof. intros [n ->]. split; [|done]. by exists n. Qed.

Lemma kill_line_ok fuel s ls e :
  cons_rep s (Editor ls e) -> (length e < fuel)%nat ->
  ∃ s', kill_line lsr wait fuel s = Ok tt s' ∧ sent (s <| c_e := c_w s |>) (concat (replicate (length e) rub)) s' ∧
    cons_rep s' (Editor ls []).
Proof.
  revert s e. induction fuel as [|fuel IH]; intros s e Hrep Hf; [lia|].
  cbn [kill_line]. rewrite (bind_Ok (gets id) _ s s s eq_refl), (nothing_edited _ _ Hrep). simpl.
  destruct (decide (e = [])) as [->|Hne].
  - rewrite bool_decide_eq_true_2 by done. simpl. pose proof (nothing_edited _ _ Hrep) as He.
    rewrite bool_decide_eq_true_2 in He by done. apply Z.eqb_eq in He.
    exists s. split; [done|]. split; [|done]. exists (reads s). rewrite app_nil_r.
    destruct s; unfold setter; simpl in *; by subst.
  - destruct e as [|x e _] using rev_ind; [done|]. rewrite bool_decide_eq_false_2 by done. simpl.
    destruct (erase_rep _ _ _ _ Hrep) as (Hrep' & Hx & Hn). rewrite Hx. assert ((x =? 10) = false) as -> by lia. simpl.
    set (s1 := s <| c_e := u32 (c_e s - 1) |>) in *.
    rewrite (bind_Ok (modify (fun s => s <| c_e := u32 (c_e s - 1) |>)) _ s tt s1 eq_refl).
    destruct (consputc_back s1) as (s2 & H2 & S2); [apply Hrep'|]. rewrite (bind_Ok _ _ _ _ _ H2).
    rewrite length_app in *. simpl in Hf.
    destruct (IH s2 e (sent_rep _ _ _ _ S2 Hrep') ltac:(lia)) as (s' & Hrun & Hs & Hr). exists s'.
    split; [exact Hrun|]. split; [|exact Hr]. destruct (sent_edit _ _ _ (c_w s2) S2) as [He Hw].
    rewrite Hw in He, Hs. cbn [length]. rewrite Nat.add_1_r. exact (sent_trans _ _ _ _ _ He Hs).
Qed.

(** What an interrupt for one character leaves. *)
Record typed (s : cons_) (a : editor) (c : Z) (s' : cons_) : Prop := {
  ty_rep : cons_rep s' (edit_char c a);
  ty_lock : c_lock s' = c_lock s;
  ty_echo : c ≠ Ctl 80 -> thr s' = thr s ++ echo_char c a;
  ty_wake : if decide (lines (edit_char c a) = lines a) then c_woken s' = c_woken s
            else c_woken s' = ChInput :: c_woken s;
  ty_tx : tx_lock s' = tx_lock s ∧ tx_buf s' = tx_buf s ∧ tx_w s' = tx_w s ∧ tx_r s' = tx_r s ∧ rx s' = rx s
}.

Lemma store_char_ok s a c0 :
  cons_rep s a -> 0 <= c0 < 256 -> Z.of_nat (length (lines a ++ editing a)) < INPUT_BUF ->
  let c := if c0 =? 13 then 10 else c0 in let e := editing a ++ [c] in
  let commit := (c =? 10) || (c =? Ctl 68) || (Z.of_nat (length (lines a ++ e)) =? INPUT_BUF) in
  ∃ n, store_char lsr wait c0 s =
    Ok tt (s <| reads := n |> <| thr := thr s ++ [c] |> <| cbuf := upd (cbuf s) (c_e s mod INPUT_BUF) c |>
             <| c_e := u32 (c_e s + 1) |> <| c_w := if commit then u32 (c_e s + 1) else c_w s |>
             <| c_woken := (if commit then [ChInput] else []) ++ c_woken s |>) ∧
    ring INPUT_BUF (2^32) (upd (cbuf s) (c_e s mod INPUT_BUF) c) (c_r s) (lines a ++ e) ∧
    u32 (c_e s + 1) = ring_end (2^32) (c_r s) (lines a ++ e).
Proof.
  intros Hrep Hc Hl c' e commit. assert (Hc' : 0 <= c' < 256) by (unfold c'; destruct (c0 =? 13); lia).
  destruct input_sizes as (S1 & S2 & S3).
  destruct (ring_push INPUT_BUF (2^32) S1 S2 S3 _ _ _ c' (cr_ring _ _ Hrep) Hl) as [R1 R2].
  rewrite <- (cr_e _ _ Hrep) in R1, R2. rewrite <- app_assoc in R1, R2. fold e in R1, R2.
  destruct (consputc_char c' s (cr_panicked _ _ Hrep) Hc') as (s1 & H1 & n & ->).
  exists n. split; [|split; [exact R1|unfold u32; by rewrite R2]].
  unfold store_char. fold c'. rewrite (bind_Ok _ _ _ _ _ H1).
  unfold modify, gets, mbind, M_bind, when, c_wake, u8; simpl. rewrite (Z.mod_small c') by lia.
  assert ((u32 (c_e s + 1) =? u32 (c_r s + INPUT_BUF)) = (Z.of_nat (length (lines a ++ e)) =? INPUT_BUF)) as ->.
  { unfold u32 at 1. rewrite <- R2. by apply (ring_full INPUT_BUF (2^32)) in R1. }
  fold commit. destruct commit; done.
Qed.

Lemma typed_store s a c :
  cons_rep s a -> 0 <= c < 256 -> c ≠ Ctl 80 -> c ≠ Ctl 85 -> c ≠ Ctl 72 -> c ≠ 127 -> c ≠ 0 ->
  Z.of_nat (length (lines a ++ editing a)) < INPUT_BUF ->
  ∃ s', store_char lsr wait c s = Ok tt s' ∧ typed s a c s'.
Proof.
  intros Hrep Hc N1 N2 N3 N4 N5 Hl. destruct (store_char_ok s a c Hrep Hc Hl) as (n & Hrun & Hring & Hend).
  set (c' := if c =? 13 then 10 else c) in *. set (e := editing a ++ [c']) in *.
  set (commit := (c' =? 10) || (c' =? Ctl 68) || (Z.of_nat (length (lines a ++ e)) =? INPUT_BUF)) in *.
  assert (Hedit : edit_char c a = if commit then Editor (lines a ++ e) [] else Editor (lines a) e).
  { unfold edit_char. rewrite !(proj2 (Z.eqb_neq _ _)) by (done || lia). simpl. done. }
  assert (Hecho : echo_char c a = [c']).
  { unfold echo_char. rewrite !(proj2 (Z.eqb_neq _ _)) by (done || lia). done. }
  eexists. split; [exact Hrun|]. split; [|done|by rewrite Hecho| |done].
  - rewrite Hedit. destruct Hrep as [A1 A2 A3 A4 A5]. destruct commit eqn:Hcm; split; simpl; rewrite ?app_nil_r; try done.
    + apply not_elem_of_nil.
    + intros [Hin|Hin%list_elem_of_singleton]%elem_of_app; [done|]. unfold commit in Hcm. rewrite <- Hin in Hcm. done.
  - rewrite Hedit. destruct commit; simpl; [|by rewrite decide_True].
    rewrite decide_False; [done|]. intros He. apply (f_equal length) in He. unfold e in He. rewrite !length_app in He.
    simpl in He. lia.
Qed.

Lemma typed_dump s a c : cons_rep s a -> c = Ctl 80 -> ∃ s', procdump s = Ok tt s' ∧ typed s a c s'.
Proof.
  intros Hrep ->. assert (He : edit_char (Ctl 80) a = a) by done.
  destruct (Hdump s (cr_panicked _ _ Hrep)) as (o & s2 & Hrun & n & ->). eexists. split; [exact Hrun|].
  split; rewrite ?He, ?decide_True by done; try done. destruct Hrep; by split.
Qed.

Lemma typed_kill s a c : cons_rep s a -> c = Ctl 85 ->
  ∃ s', kill_line lsr wait (S (Z.to_nat INPUT_BUF)) s = Ok tt s' ∧ typed s a c s'.
Proof.
  intros Hrep ->. destruct a as [ls e]. assert (Hlen : (length e < S (Z.to_nat INPUT_BUF))%nat).
  { destruct (cr_ring _ _ Hrep) as (_ & Hl & _). simpl in Hl. rewrite length_app in Hl. lia. }
  destruct (kill_line_ok _ s ls e Hrep Hlen) as (s' & Hrun & [n ->] & Hr). eexists. split; [exact Hrun|].
  split; try done. by rewrite decide_True.
Qed.

Lemma typed_erase s a c : cons_rep s a -> c ≠ Ctl 80 -> c ≠ Ctl 85 -> (c =? Ctl 72) || (c =? 127) = true ->
  ∃ s', when (negb (c_e s =? c_w s)) (
      modify (fun s => s <| c_e := u32 (c_e s - 1) |>);; consputc lsr wait BACKSPACE) s = Ok tt s' ∧ typed s a c s'.
Proof.
  intros Hrep H80%Z.eqb_neq H85%Z.eqb_neq H72. rewrite (nothing_edited _ _ Hrep). destruct a as [ls e]. simpl.
  destruct e as [|x e _] using rev_ind.
  - assert (Hed : edit_char c (Editor ls []) = Editor ls []) by (unfold edit_char; by rewrite H80, H85, H72).
    exists s. split; [done|]. split; rewrite ?Hed, ?decide_True by done; try done.
    intros _. unfold echo_char. rewrite H80, H85, H72. simpl. by rewrite app_nil_r.
  - assert (Hed : edit_char c (Editor ls (e ++ [x])) = Editor ls e).
    { unfold edit_char. rewrite H80, H85, H72. simpl. rewrite length_app. simpl. by rewrite Nat.add_sub, take_app_length. }
    rewrite bool_decide_eq_false_2 by (by destruct e). simpl.
    destruct (erase_rep _ _ _ _ Hrep) as (Hr & _). set (s3 := s <| c_e := u32 (c_e s - 1) |>) in *.
    rewrite (bind_Ok (modify (fun s => s <| c_e := u32 (c_e s - 1) |>)) _ s tt s3 eq_refl).
    destruct (consputc_back s3 (cr_panicked _ _ Hr)) as (s2 & Hrun & n & ->). eexists. split; [exact Hrun|].
    split; rewrite ?Hed, ?decide_True by done; try done; [destruct Hr; by split|].
    intros _. unfold echo_char. rewrite H80, H85, H72, decide_False; [done|by destruct e].
Qed.

Lemma typed_full s a c : cons_rep s a -> c ≠ Ctl 80 -> c ≠ Ctl 85 -> (c =? Ctl 72) || (c =? 127) = false ->
  (c =? 0) || (Z.of_nat (length (lines a ++ editing a)) =? INPUT_BUF) = true -> typed s a c s.
Proof.
  intros Hrep H80%Z.eqb_neq H85%Z.eqb_neq H72 Hst.
  assert (Hed : edit_char c a = a) by (unfold edit_char; by rewrite H80, H85, H72, Hst).
  split; rewrite ?Hed, ?decide_True by done; try done.
  intros _. unfold echo_char. by rewrite H80, H85, H72, Hst, app_nil_r.
Qed.

(** C32: The console driver implements the line editor.  For every character the
    UART delivers, [consoleintr] turns a console that represents an editor state
    into one that represents the state after that character, echoes what the
    terminal should show, wakes the readers exactly when a line (or an end of
    file, or a full buffer) has become readable, and leaves the output side
    alone. *)
Theorem console_editor s a c :
  cons_rep s a -> c_lock s = false -> 0 <= c < 256 ->
  ∃ s', consoleintr lsr wait procdump c s = Ok tt s' ∧ typed s a c s'.
Proof.
  intros Hrep Hlk Hc.
  cut (∃ s2, (if c =? Ctl 80 then procdump
    else if c =? Ctl 85 then kill_line lsr wait (S (Z.to_nat INPUT_BUF))
    else if (c =? Ctl 72) || (c =? 127) then
      when (negb (c_e s =? c_w s)) (
        modify (fun s => s <| c_e := u32 (c_e s - 1) |>);;
        consputc lsr wait BACKSPACE)
    else when (negb (c =? 0) && (u32 (c_e s - c_r s) <? INPUT_BUF)) (store_char lsr wait c)) (s <| c_lock := true |>)
    = Ok tt s2 ∧ typed (s <| c_lock := true |>) a c s2).
  { intros (s2 & Hrun & [T1 T2 T3 T4 T5]). exists (s2 <| c_lock := false |>). split.
    - unfold consoleintr.
      assert (Ha : acquire_spin cons_lock s = Ok tt (s <| c_lock := true |>)) by (unfold acquire_spin; simpl; by rewrite Hlk).
      rewrite (bind_Ok _ _ _ _ _ Ha), (bind_Ok (gets id) _ _ (s <| c_lock := true |>) (s <| c_lock := true |>) eq_refl).
      etrans; [apply (bind_Ok _ _ _ _ _ Hrun)|]. unfold release_spin. simpl. by rewrite T2.
    - split; try done. destruct T1. by split. }
  set (s1 := s <| c_lock := true |>). assert (Hrep1 : cons_rep s1 a) by (destruct Hrep; by split).
  change (c_e s) with (c_e s1). change (c_w s) with (c_w s1). change (c_r s) with (c_r s1). clearbody s1. clear s Hrep Hlk.
  destruct (c =? Ctl 80) eqn:H80; [apply typed_dump; [done|lia]|].
  destruct (c =? Ctl 85) eqn:H85; [apply typed_kill; [done|lia]|].
  destruct ((c =? Ctl 72) || (c =? 127)) eqn:H72; [apply typed_erase; [done|lia|lia|done]|].
  rewrite (space_used _ _ Hrep1). destruct (cr_ring _ _ Hrep1) as (_ & Hl & _).
  destruct (negb (c =? 0) && (Z.of_nat (length (lines a ++ editing a)) <? INPUT_BUF)) eqn:Hst; simpl.
  - apply typed_store; try done; unfold Ctl in *; lia.
  - exists s1. split; [done|]. apply typed_full; [done|lia|lia|done|lia].
Qed.

(** ** Reading lines *)

Lemma nothing_to_read s a : cons_rep s a -> (c_r s =? c_w s) = bool_decide (lines a = []).
Proof.
  intros [(Hr & Hl & Hx) Hw _ _ _]. rewrite Hw. destruct input_sizes as (S1 & S2 & S3).
  apply (ring_empty INPUT_BUF (2^32) S2 (cbuf s)). split; [done|]. rewrite length_app in Hl. split; [lia|].
  intros j x Hj. apply Hx. by apply lookup_app_l_Some.
Qed.

Lemma read_rep s x ls e :
  cons_rep s (Editor (x :: ls) e) ->
  cbuf s (c_r s mod INPUT_BUF) = x ∧ cons_rep (s <| c_r := u32 (c_r s + 1) |>) (Editor ls e) ∧
  u32 (u32 (c_r s + 1) - 1) = c_r s.
Proof.
  intros [Hr Hw He Hn Hp]. simpl in *. destruct input_sizes as (S1 & S2 & S3).
  assert (Hr' : ring INPUT_BUF (2^32) (cbuf s) (c_r s) (x :: ls)).
  { destruct Hr as (R1 & R2 & R3). split; [done|]. simpl in *. rewrite length_app in R2. split; [lia|].
    intros j y Hj. apply R3. destruct j; [done|]. simpl in *. by apply lookup_app_l_Some. }
  destruct (ring_pop INPUT_BUF (2^32) S1 S2 S3 _ _ _ _ Hr) as (P1 & P2 & P3).
  destruct (ring_pop INPUT_BUF (2^32) S1 S2 S3 _ _ _ _ Hr') as (_ & _ & Q3).
  split; [done|]. split.
  - split; simpl; unfold u32; try done; congruence.
  - unfold u32. rewrite Zminus_mod_idemp_l. replace (c_r s + 1 - 1) with (c_r s) by lia.
    destruct Hr as (? & _). by apply Z.mod_small.
Qed.

Lemma leave_cons {A} (r : A) s : c_lock s = true -> (release_spin cons_lock;; mret r) s = Ok r (s <| c_lock := false |>).
Proof. intros Hl. unfold release_spin, mbind, M_bind, mret, M_ret; simpl. by rewrite Hl. Qed.

Lemma consoleread_loop_ok killed dst target fuel n got s ls e :
  cons_rep s (Editor ls e) -> c_lock s = true -> (forall k, dst k = true) -> 0 <= n <= target -> (Z.to_nat n < fuel)%nat ->
  let '(got', rest, over) := take_line (Z.to_nat n) (n =? target) ls in
  let n' := n - Z.of_nat (length got') in
  ∃ s', consoleread_loop killed dst target fuel n got s =
      Ok (if over then Done (target - n') else if killed then Done (-1) else Sleeping n', got ++ got') s' ∧
    cons_rep s' (Editor rest e) ∧ c_lock s' = false ∧ thr s' = thr s ∧ c_woken s' = c_woken s.
Proof.
  revert n got s ls. induction fuel as [|fuel IH]; intros n got s ls Hrep Hlk Hdst Hn Hf; [lia|].
  assert (Hunl : forall a, cons_rep s a -> cons_rep (s <| c_lock := false |>) a) by (intros a' []; by split).
  cbn [consoleread_loop]. destruct (0 <? n) eqn:H0.
  2:{ replace n with 0 in * by lia. simpl. eexists. rewrite app_nil_r. split; [by apply leave_cons|]. auto. }
  replace (Z.to_nat n) with (S (Z.to_nat (n - 1))) by lia. cbn [take_line].
  rewrite (bind_Ok (gets id) _ s s s eq_refl), (nothing_to_read _ _ Hrep). cbn [lines]. destruct ls as [|c ls].
  { rewrite bool_decide_eq_true_2 by done. cbn [length]. rewrite Nat2Z.inj_0, Z.sub_0_r, app_nil_r.
    destruct killed; eexists; (split; [by apply leave_cons|]); auto. }
  rewrite bool_decide_eq_false_2 by done. destruct (read_rep _ _ _ _ Hrep) as (-> & Hr & Hback).
  set (s1 := s <| c_r := u32 (c_r s + 1) |>) in *.
  rewrite (bind_Ok (modify (fun s => s <| c_r := u32 (c_r s + 1) |>)) _ s tt s1 eq_refl), Hdst. cbn [negb].
  assert (Hunl1 : forall a, cons_rep s1 a -> cons_rep (s1 <| c_lock := false |>) a) by (intros a' []; by split).
  destruct (c =? Ctl 68).
  { cbn [length]. rewrite Nat2Z.inj_0, Z.sub_0_r, app_nil_r. destruct (n =? target) eqn:Ht.
    - assert ((n <? target) = false) as -> by lia. simpl. eexists. split; [by apply leave_cons|]. auto.
    - assert ((n <? target) = true) as -> by lia. cbn [when].
      rewrite (bind_Ok (modify (fun s => s <| c_r := u32 (c_r s - 1) |>)) _ s1 tt s).
      + eexists. split; [by apply leave_cons|]. auto.
      + unfold modify, s1, setter; simpl. rewrite Hback. by destruct s. }
  destruct (c =? 10).
  { simpl. eexists. split; [by apply leave_cons|]. auto. }
  pose proof (IH (n - 1) (got ++ [c]) s1 ls Hr Hlk Hdst ltac:(lia) ltac:(lia)) as H.
  assert ((n - 1 =? target) = false) as Hne by lia. rewrite Hne in H.
  destruct (take_line (Z.to_nat (n - 1)) false ls) as [[got' rest] over].
  cbn [length]. replace (n - Z.of_nat (S (length got'))) with (n - 1 - Z.of_nat (length got')) by lia.
  rewrite <- app_assoc in H. exact H.
Qed.

(** C33: A read from the console gets lines.  With [n] of [target] bytes still
    wanted, and every copy to the reader's memory succeeding, it takes bytes of the readable lines in order, up to a newline, an
    end-of-file mark or [n] bytes; the mark itself is consumed when it is the
    first thing the call finds and left for the next call otherwise.  If the
    lines run out first, the call goes to sleep with what it has (or returns -1
    if the process has been killed).  What is being edited is not touched. *)
Theorem consoleread_lines killed dst target n s a :
  cons_rep s a -> c_lock s = false -> (forall k, dst k = true) -> 0 <= n <= target ->
  let '(got, rest, over) := take_line (Z.to_nat n) (n =? target) (lines a) in
  let n' := n - Z.of_nat (length got) in
  ∃ s', consoleread_seg killed dst target n s =
      Ok (if over then Done (target - n') else if killed then Done (-1) else Sleeping n', got) s' ∧
    cons_rep s' (Editor rest (editing a)) ∧ c_lock s' = false.
Proof.
  intros Hrep Hlk Hdst Hn. unfold consoleread_seg.
  assert (Ha : acquire_spin cons_lock s = Ok tt (s <| c_lock := true |>)) by (unfold acquire_spin; simpl; by rewrite Hlk).
  rewrite (bind_Ok _ _ _ _ _ Ha). destruct a as [ls e].
  assert (Hrep' : cons_rep (s <| c_lock := true |>) (Editor ls e)) by (destruct Hrep; by split).
  pose proof (consoleread_loop_ok killed dst target (S (Z.to_nat n)) n [] _ ls e Hrep' eq_refl Hdst Hn ltac:(lia)) as H.
  cbn [lines editing]. destruct (take_line _ _ ls) as [[got rest] over]. destruct H as (s' & H1 & H2 & H3 & _). eauto.
Qed.
End refine.

(** ** The transmit queue *)
Section transmit.
Context (lsr : nat -> Z).

Record tx_rep (s : cons_) (xs : list Z) : Prop := {
  xr_ring : ring UART_TX_BUF_SIZE (2^64) (tx_buf s) (tx_r s) xs;
  xr_end : tx_w s = ring_end (2^64) (tx_r s) xs;
  xr_bytes : forall x, x ∈ xs -> 0 <= x < 256
}.

Lemma tx_sizes : 0 < UART_TX_BUF_SIZE ∧ UART_TX_BUF_SIZE < 2^64 ∧ (UART_TX_BUF_SIZE | 2^64).
Proof. split; [done|]. split; [done|]. by exists (2^59). Qed.

(** [s'] after the first [sent_] bytes of the queue have gone to the device. *)
Record drained (s : cons_) (sent_ rest : list Z) (s' : cons_) : Prop := {
  dr_rep : tx_rep s' rest;
  dr_thr : thr s' = thr s ++ sent_;
  dr_lock : tx_lock s' = tx_lock s;
  dr_panicked : panicked s' = panicked s;
  dr_wake : if decide (sent_ = []) then c_woken s' = c_woken s else ∃ n, c_woken s' = replicate (S n) ChOutput ++ c_woken s;
  dr_input : c_lock s' = c_lock s ∧ cbuf s' = cbuf s ∧ c_r s' = c_r s ∧ c_w s' = c_w s ∧ c_e s' = c_e s ∧ rx s' = rx s
}.

Lemma uartstart_loop_ok fuel s xs :
  tx_rep s xs -> (length xs < fuel)%nat ->
  ∃ sent_ rest s', uartstart_loop lsr fuel s = Ok tt s' ∧ xs = sent_ ++ rest ∧ drained s sent_ rest s' ∧
    (rest = [] ∨ ∃ k, (reads s <= k)%nat ∧ Z.land (lsr k) LSR_TX_IDLE = 0).
Proof.
  revert s xs. induction fuel as [|fuel IH]; intros s xs Hrep Hf; [lia|].
  destruct tx_sizes as (S1 & S2 & S3). cbn [uartstart_loop]. rewrite (bind_Ok (gets id) _ s s s eq_refl).
  assert (Hemp : (tx_w s =? tx_r s) = bool_decide (xs = [])).
  { rewrite (xr_end _ _ Hrep), Z.eqb_sym. by apply (ring_empty UART_TX_BUF_SIZE (2^64) S2 (tx_buf s)), Hrep. }
  rewrite Hemp. destruct xs as [|x xs].
  { exists [], [], s. split; [done|]. split; [done|]. split; [|by left]. split; try done. by rewrite app_nil_r. }
  rewrite bool_decide_eq_false_2 by done. set (s1 := s <| reads := S (reads s) |>).
  rewrite (bind_Ok (read_lsr lsr) _ s (lsr (reads s)) s1 eq_refl).
  destruct (Z.land (lsr (reads s)) LSR_TX_IDLE =? 0) eqn:Hl.
  { exists [], (x :: xs), s1. split; [done|]. split; [done|]. split; [|right; exists (reads s); split; [done|lia]].
    split; try done; [by destruct Hrep|by rewrite app_nil_r]. }
  rewrite (bind_Ok (gets id) _ s1 s1 s1 eq_refl).
  destruct (ring_pop UART_TX_BUF_SIZE (2^64) S1 S2 S3 _ _ _ _ (xr_ring _ _ Hrep)) as (P1 & P2 & P3).
  change (tx_buf s1 (tx_r s1 mod UART_TX_BUF_SIZE)) with (tx_buf s (tx_r s mod UART_TX_BUF_SIZE)). rewrite P1.
  assert (Hx : u8 x = x) by (apply Z.mod_small, (xr_bytes _ _ Hrep), elem_of_cons; auto).
  set (s2 := s1 <| tx_r := u64 (tx_r s1 + 1) |> <| c_woken ::= cons ChOutput |> <| thr ::= fun o => o ++ [u8 x] |>).
  assert (Hrep2 : tx_rep s2 xs).
  { split; simpl; unfold u64; [done|by rewrite P3, (xr_end _ _ Hrep)|]. intros y Hy. apply (xr_bytes _ _ Hrep), elem_of_cons; auto. }
  destruct (IH s2 xs Hrep2 ltac:(simpl in Hf; lia)) as (sent_ & rest & s' & Hrun & -> & [D1 D2 D3 D4 D5 D6] & Hend).
  exists (x :: sent_), rest, s'. split; [exact Hrun|]. split; [done|]. split.
  - split; try done.
    + rewrite D2. simpl. rewrite Hx, <- app_assoc. done.
    + rewrite decide_False by done. destruct (decide (sent_ = [])) as [_|_]; [exists 0%nat; exact D5|].
      destruct D5 as [n D5]. exists (S n). rewrite D5.
      change (replicate (S (S n)) ChOutput) with (ChOutput :: replicate (S n) ChOutput).
      by rewrite replicate_cons_app, <- app_assoc.
  - destruct Hend as [?|(k & Hk & ?)]; [by left|right]. exists k. split; [simpl in Hk; lia|done].
Qed.

(** The transmit queue.  [uartputc] goes to sleep exactly when 32 bytes are
    waiting; otherwise it adds its byte at the end, and bytes go from the front of
    the queue to the device, in order, until the queue is empty or the
    transmitter is busy.  Whenever bytes go out the waiting writers are woken. *)
Theorem uartputc_spec s xs c :
  tx_rep s xs -> tx_lock s = false -> panicked s = 0 -> 0 <= c < 256 ->
  if Z.of_nat (length xs) =? UART_TX_BUF_SIZE then uartputc lsr c s = Ok false s
  else ∃ sent_ rest s', uartputc lsr c s = Ok true s' ∧ xs ++ [c] = sent_ ++ rest ∧ drained s sent_ rest s' ∧
    (rest = [] ∨ ∃ k, Z.land (lsr k) LSR_TX_IDLE = 0).
Proof.
  intros Hrep Hlk Hp Hc. destruct tx_sizes as (S1 & S2 & S3). unfold uartputc.
  assert (Ha : acquire_spin uart_tx_lock s = Ok tt (s <| tx_lock := true |>)) by (unfold acquire_spin; simpl; by rewrite Hlk).
  rewrite (bind_Ok _ _ _ _ _ Ha). set (s1 := s <| tx_lock := true |>).
  rewrite (bind_Ok (gets id) _ s1 s1 s1 eq_refl). change (panicked s1) with (panicked s). rewrite Hp. cbn [negb]. change (0 =? 0) with true. cbn [negb].
  assert (Hfull : (tx_w s1 =? u64 (tx_r s1 + UART_TX_BUF_SIZE)) = (Z.of_nat (length xs) =? UART_TX_BUF_SIZE)).
  { simpl. rewrite (xr_end _ _ Hrep). by apply (ring_full UART_TX_BUF_SIZE (2^64) S1 S2 (tx_buf s)), Hrep. }
  rewrite Hfull. destruct (Z.of_nat (length xs) =? UART_TX_BUF_SIZE) eqn:Hl.
  { unfold release_spin, mbind, M_bind, mret, M_ret. simpl. by destruct s; unfold setter; simpl in *; subst. }
  assert (Hl' : Z.of_nat (length xs) < UART_TX_BUF_SIZE) by (destruct (xr_ring _ _ Hrep) as (_ & ? & _); lia).
  destruct (ring_push UART_TX_BUF_SIZE (2^64) S1 S2 S3 _ _ _ c (xr_ring _ _ Hrep) Hl') as [R1 R2].
  set (s2 := s1 <| tx_buf ::= fun b => upd b (tx_w s1 mod UART_TX_BUF_SIZE) c |> <| tx_w := u64 (tx_w s1 + 1) |>).
  assert (Hrep2 : tx_rep s2 (xs ++ [c])).
  { rewrite <- (xr_end _ _ Hrep) in R1, R2. split; [exact R1|simpl; unfold u64; by rewrite R2|].
    intros y [Hy|Hy%list_elem_of_singleton]%elem_of_app; [by apply (xr_bytes _ _ Hrep)|by subst]. }
  destruct (uartstart_loop_ok (S (Z.to_nat UART_TX_BUF_SIZE)) s2 (xs ++ [c]) Hrep2) as (sent_ & rest & s3 & Hrun & He & Hd & Hend).
  { rewrite length_app. simpl. lia. }
  exists sent_, rest, (s3 <| tx_lock := false |>). destruct Hd as [D1 D2 D3 D4 D5 D6]. split; [|split; [exact He|]].
  - change ((uartstart lsr;; release_spin uart_tx_lock;; mret true) s2 = Ok true (s3 <| tx_lock := false |>)).
    rewrite (bind_Ok _ _ _ _ _ Hrun). unfold release_spin, mbind, M_bind, mret, M_ret. simpl. by rewrite D3.
  - split; [|destruct Hend as [?|(k & _ & ?)]; eauto]. split; try done. destruct D1; by split.
Qed.
End transmit.

(** ** Witnesses: an idle UART, and a console that has just been initialized *)
Definition cons_new : cons_ := Cons false (fun _ => 0) 0 0 0 false (fun _ => 0) 0 0 0 [] [] 0 [].
Definition always_idle (_ : nat) : Z := LSR_TX_IDLE.

Lemma always_idle_ok : becomes_idle always_idle 1.
Proof. intros k. exists 0%nat. split; [lia|]. vm_compute. done. Qed.
Lemma no_dump : procdump_prints (mret tt).
Proof. intros s _. exists [], s. split; [done|]. exists (reads s). rewrite app_nil_r. by destruct s. Qed.
Lemma cons_new_rep : cons_rep cons_new (Editor [] []).
Proof. split; simpl; try done; first [by apply ring_nil | apply not_elem_of_nil]. Qed.

Lemma console_editor_witness :
  ∃ s', consoleintr always_idle 1 (mret tt) 97 cons_new = Ok tt s' ∧ typed cons_new (Editor [] []) 97 s'.
Proof.
  apply (console_editor always_idle 1 (mret tt) always_idle_ok no_dump cons_new (Editor [] []) 97 cons_new_rep); [reflexivity|lia].
Defined.

(** Two lines are readable and a byte is being edited; the counters are about to wrap. *)
Definition two_typed : list Z := [104; 105; 10; 97; 10; 120].
Definition cons_typed : cons_ :=
  cons_new <| cbuf := fun i => nth (Z.to_nat ((i + 1) mod INPUT_BUF)) two_typed 0 |> <| c_r := 2^32 - 1 |> <| c_w := 4 |> <| c_e := 5 |>.
Lemma cons_typed_rep : cons_rep cons_typed (Editor [104; 105; 10; 97; 10] [120]).
Proof.
  split; [|reflexivity|reflexivity|intros H%list_elem_of_singleton; lia|reflexivity].
  split; [split; [vm_compute; discriminate|reflexivity]|]. split; [vm_compute; discriminate|].
  intros j x Hj. change ([104; 105; 10; 97; 10] ++ [120]) with two_typed in Hj.
  assert (Hlt : (j < 6)%nat) by (by apply lookup_lt_Some in Hj).
  do 6 (destruct j as [|j]; [injection Hj as <-; reflexivity|]). lia.
Qed.
Lemma consoleread_lines_witness :
  ∃ s', consoleread_seg false (fun _ => true) 10 10 cons_typed = Ok (Done 3, [104; 105; 10]) s' ∧
    cons_rep s' (Editor [97; 10] [120]) ∧ c_lock s' = false.
Proof.
  exact (consoleread_lines false (fun _ => true) 10 10 cons_typed (Editor [104; 105; 10; 97; 10] [120]) cons_typed_rep eq_refl
    (fun _ => eq_refl) ltac:(lia)).
Defined.

Lemma uartputc_spec_witness :
  ∃ sent_ rest s', uartputc always_idle 97 cons_new = Ok true s' ∧ [97] = sent_ ++ rest ∧
    drained cons_new sent_ rest s' ∧ (rest = [] ∨ ∃ k, Z.land (always_idle k) LSR_TX_IDLE = 0).
Proof.
  apply (uartputc_spec always_idle cons_new [] 97); [|reflexivity|reflexivity|lia].
  split; [by apply ring_nil|reflexivity|]. intros x Hx. by apply not_elem_of_nil in Hx.
Defined.
