(* ===== verification/Kalloc.v ===== *)
(** * Kalloc: the page allocator, kernel/kalloc.c

    The free list is threaded through the free pages themselves: the first word
    of a free page is the address of the next one.  [kmem_ok] says which pages
    are on it; [kalloc] and [kfree] are specified by what they do to that list
    and by the bytes they leave alone. *)

From stdpp Require Import relations.
From S2P Require Import Prelude KState SleepLock MemC.

(** * physical memory and kernel/kalloc.c

    Physical memory is a function from addresses to bytes; 64-bit words are
    stored least significant byte first.  The allocator threads its free list
    through the first word of each free page. *)

(** ** Words *)
Fixpoint ld (n : nat) (m : mem) (a : Z) : Z :=
  match n with
  | O => 0
  | S n' => m a + 256 * ld n' m (a + 1)
  end.
Fixpoint st (n : nat) (m : mem) (a v : Z) : mem :=
  match n with
  | O => m
  | S n' => st n' (upd m a (u8 v)) (a + 1) (v / 256)
  end.
Definition ld64 (m : mem) (a : Z) : Z := ld 8 m a.
Definition st64 (m : mem) (a v : Z) : mem := st 8 m a v.

Lemma st_other n m a v b : b < a ∨ a + Z.of_nat n <= b -> st n m a v b = m b.
Proof.
  revert m a v. induction n as [|n IH]; intros m a v Hb; simpl; [done|].
  rewrite IH by lia. apply upd_ne. lia.
Qed.

Lemma ld_ext n m m' a : (forall b, a <= b < a + Z.of_nat n -> m b = m' b) -> ld n m a = ld n m' a.
Proof.
  revert a. induction n as [|n IH]; intros a Hb; simpl; [done|].
  rewrite (Hb a), (IH (a + 1)) by (intros; try apply Hb; lia). done.
Qed.

Lemma ld_st n m a v : ld n (st n m a v) a = v mod 256 ^ Z.of_nat n.
Proof.
  revert m a v. induction n as [|n IH]; intros m a v; simpl; [by rewrite Z.mod_1_r|].
  rewrite st_other, upd_eq, IH by lia. unfold u8.
  replace (Z.of_nat (S n)) with (1 + Z.of_nat n) by lia. rewrite Z.pow_add_r, Z.pow_1_r by lia.
  change (2^8) with 256. rewrite Z.rem_mul_r by lia. done.
Qed.

Lemma ld64_st64 m a v : ld64 (st64 m a v) a = u64 v.
Proof. unfold ld64, st64. by rewrite ld_st. Qed.

Lemma ld64_other m a v b : b + 8 <= a ∨ a + 8 <= b -> ld64 (st64 m a v) b = ld64 m b.
Proof. intros Hb. apply ld_ext. intros x Hx. apply st_other. lia. Qed.

Lemma ld_bytes n m a : (forall b, 0 <= m b < 256) -> 0 <= ld n m a < 256 ^ Z.of_nat n.
Proof.
  intros Hb. revert a. induction n as [|n IH]; intros a; simpl; [lia|].
  specialize (IH (a + 1)). specialize (Hb a).
  replace (Z.of_nat (S n)) with (1 + Z.of_nat n) by lia. rewrite Z.pow_add_r, Z.pow_1_r by lia. lia.
Qed.

Lemma ld_zero n m a : (forall b, a <= b < a + Z.of_nat n -> m b = 0) -> ld n m a = 0.
Proof.
  revert a. induction n as [|n IH]; intros a Hb; simpl; [done|].
  rewrite (Hb a), (IH (a + 1)) by (intros; try apply Hb; lia). lia.
Qed.

Lemma ld64_zero m a : (forall b, a <= b < a + 8 -> m b = 0) -> ld64 m a = 0.
Proof. intros Hb. by apply ld_zero. Qed.

(** Case analysis on the comparisons of the goal. *)
Ltac cases_cmp :=
  repeat match goal with
  | |- context [?x <=? ?y] => destruct (Z.leb_spec x y)
  | |- context [?x <? ?y] => destruct (Z.ltb_spec x y)
  | |- context [?x =? ?y] => destruct (Z.eqb_spec x y)
  end; simpl; try lia; try done.

(** [memset] at once. *)
Lemma memset_loop_eq k i dst c m a :
  memset_loop k i dst c m a =
  if (dst + i <=? a) && (a <? dst + i + Z.of_nat k) then u8 c else m a.
Proof.
  revert i m. induction k as [|k IH]; intros i m; cbn [memset_loop].
  - rewrite Nat2Z.inj_0. cases_cmp.
  - rewrite IH, Nat2Z.inj_succ. destruct (decide (a = dst + i)) as [->|Hne].
    + rewrite upd_eq. cases_cmp.
    + rewrite upd_ne by done. cases_cmp.
Qed.

Lemma memset_eq dst c n m a :
  memset dst c n m a = if (dst <=? a) && (a <? dst + n) then u8 c else m a.
Proof.
  unfold memset. rewrite memset_loop_eq, Z.add_0_r. destruct (decide (0 <= n)); [by rewrite Z2Nat.id|].
  rewrite Z2Nat.nonpos, Nat2Z.inj_0 by lia. cases_cmp.
Qed.

(** ** memlayout.h and riscv.h *)
Definition KERNBASE : Z := 0x80000000.
Definition PHYSTOP : Z := KERNBASE + 128 * 1024 * 1024.

(** On 64-bit values: [(x + PGSIZE-1) & ~(PGSIZE-1)] and [a & ~(PGSIZE-1)] *)
Definition PGROUNDUP (sz : Z) : Z := Z.land (u64 (sz + PGSIZE - 1)) (Z.lnot (PGSIZE - 1)).
Definition PGROUNDDOWN (a : Z) : Z := Z.land a (Z.lnot (PGSIZE - 1)).

(** [struct kmem], and the physical memory it hands out. *)
Record kmem := Kmem { km_lock : bool; freelist : Z; ram : mem }.
#[export] Instance kmem_eta : Eta kmem := fun s => Kmem (km_lock s) (freelist s) (ram s).
Definition kmem_lk : lens kmem bool := Lens km_lock (fun f s => s <| km_lock ::= f |>).

(** [r->next], for [struct run *r]. *)
Definition run_next (m : mem) (r : Z) : Z := ld64 m r.

Section kalloc.
(** [end], the first address after the kernel (kernel.ld). *)
Context (kend : Z).

Definition kfree (pa : Z) : M kmem unit :=
  if negb (pa mod PGSIZE =? 0) || (pa <? kend) || (PHYSTOP <=? pa) then panic "kfree" else
  modify (fun s => s <| ram ::= memset pa 1 PGSIZE |>);;
  acquire_spin kmem_lk;;
  modify (fun s => s <| ram ::= fun m => st64 m pa (freelist s) |>);;
  modify (fun s => s <| freelist := pa |>);;
  release_spin kmem_lk.

Definition kalloc : M kmem Z :=
  acquire_spin kmem_lk;;
  r ← gets freelist;
  when (negb (r =? 0)) (modify (fun s => s <| freelist := run_next (ram s) r |>));;
  release_spin kmem_lk;;
  when (negb (r =? 0)) (modify (fun s => s <| ram ::= memset r 5 PGSIZE |>));;
  mret r.

Fixpoint freerange_loop (fuel : nat) (p pa_end : Z) : M kmem unit :=
  match fuel with
  | O => no_fuel
  | S f =>
      if p + PGSIZE <=? pa_end then kfree p;; freerange_loop f (p + PGSIZE) pa_end
      else mret tt
  end.
Definition freerange (fuel : nat) (pa_start pa_end : Z) : M kmem unit :=
  freerange_loop fuel (PGROUNDUP pa_start) pa_end.

Definition kinit (fuel : nat) : M kmem unit :=
  modify (fun s => s <| km_lock := false |>);;
  freerange fuel kend PHYSTOP.
End kalloc.

(** ** Pages *)
Definition page_ok (kend p : Z) : Prop := p mod PGSIZE = 0 ∧ kend <= p < PHYSTOP.
Definition in_page (p a : Z) : Prop := p <= a < p + PGSIZE.
Definition same_except (ps : list Z) (m m' : mem) : Prop :=
  forall a, (forall p, p ∈ ps -> ~ in_page p a) -> m' a = m a.

Lemma pages_apart p q : p mod PGSIZE = 0 -> q mod PGSIZE = 0 -> p ≠ q -> p + PGSIZE <= q ∨ q + PGSIZE <= p.
Proof. unfold PGSIZE. intros Hp Hq Hne. Z.div_mod_to_equations. lia. Qed.

Lemma same_refl ps m : same_except ps m m.
Proof. by intros a _. Qed.
Lemma same_mono ps qs m m' : ps ⊆ qs -> same_except ps m m' -> same_except qs m m'.
Proof. intros Hs Hm a Ha. apply Hm. intros p Hp. apply Ha. by apply Hs. Qed.
Lemma same_one p ps m m' : p ∈ ps -> same_except [p] m m' -> same_except ps m m'.
Proof. intros Hp. apply same_mono. by intros x ->%list_elem_of_singleton. Qed.
Lemma same_trans ps m1 m2 m3 : same_except ps m1 m2 -> same_except ps m2 m3 -> same_except ps m1 m3.
Proof. intros H1 H2 a Ha. by rewrite H2, H1. Qed.
Lemma same_page ps m m' q a :
  same_except ps m m' -> q mod PGSIZE = 0 -> Forall (fun p => p mod PGSIZE = 0) ps -> q ∉ ps ->
  in_page q a -> m' a = m a.
Proof.
  intros Hs Hq Hps Hnin Ha. apply Hs. intros p Hp Hin.
  rewrite Forall_forall in Hps. specialize (Hps p Hp).
  assert (p ≠ q) by (intros ->; done). unfold in_page in *. pose proof (pages_apart p q Hps Hq). lia.
Qed.

Lemma same_memset p c m : same_except [p] m (memset p c PGSIZE m).
Proof.
  intros a Ha. rewrite memset_eq. specialize (Ha p (list_elem_of_here _ _)).
  unfold in_page in Ha. cases_cmp.
Qed.
Lemma same_st64 p b v m : in_page p b -> in_page p (b + 7) -> same_except [p] m (st64 m b v).
Proof.
  intros Hb Hb' a Ha. specialize (Ha p (list_elem_of_here _ _)). apply st_other.
  unfold in_page in *. lia.
Qed.
Lemma ld64_page ps m m' q a :
  same_except ps m m' -> q mod PGSIZE = 0 -> Forall (fun p => p mod PGSIZE = 0) ps -> q ∉ ps ->
  in_page q a -> in_page q (a + 7) -> ld64 m' a = ld64 m a.
Proof.
  intros Hs Hq Hps Hnin Ha Ha'. apply ld_ext. intros b Hb. unfold in_page in *.
  eapply same_page; eauto. unfold in_page. lia.
Qed.

(** ** The free list *)
Fixpoint chain (m : mem) (r : Z) (ps : list Z) : Prop :=
  match ps with
  | [] => r = 0
  | p :: ps' => r = p ∧ chain m (run_next m p) ps'
  end.
Record kmem_ok (kend : Z) (s : kmem) (ps : list Z) : Prop := {
  ko_lock : km_lock s = false;
  ko_chain : chain (ram s) (freelist s) ps;
  ko_nodup : NoDup ps;
  ko_pages : Forall (page_ok kend) ps
}.

Lemma chain_same m m' r ps qs :
  same_except qs m m' -> Forall (fun p => p mod PGSIZE = 0) (ps ++ qs) -> (forall p, p ∈ ps -> p ∉ qs) ->
  chain m r ps -> chain m' r ps.
Proof.
  intros Hs Hal Hd. apply Forall_app in Hal as [Hps Hqs].
  revert r Hps Hd. induction ps as [|p ps IH]; intros r Hps Hd; simpl; [done|]. intros [-> Hc]. split; [done|].
  apply Forall_cons in Hps as [Hp Hps]. unfold run_next in *.
  rewrite (ld64_page qs m m' p) by (done || (apply Hd; left) || (unfold in_page, PGSIZE; lia)).
  apply IH; [done| |done]. intros q Hq. apply Hd. by right.
Qed.

Lemma pages_aligned kend ps : Forall (page_ok kend) ps -> Forall (fun p => p mod PGSIZE = 0) ps.
Proof. intros H. eapply Forall_impl; [exact H|]. by intros p []. Qed.

Section spec.
Context (kend : Z) (Hkend : 0 < kend).

Lemma page_word p : page_ok kend p -> u64 p = p ∧ p ≠ 0.
Proof using Hkend. intros [_ Hp]. unfold u64, PHYSTOP, KERNBASE in *. rewrite Z.mod_small; lia. Qed.

Lemma page_guard p :
  page_ok kend p -> negb (p mod PGSIZE =? 0) || (p <? kend) || (PHYSTOP <=? p) = false.
Proof. intros [-> Hp]. cases_cmp. Qed.

Lemma kfree_ok s ps p :
  kmem_ok kend s ps -> page_ok kend p -> p ∉ ps ->
  exists s', kfree kend p s = Ok tt s' ∧ kmem_ok kend s' (p :: ps) ∧ same_except [p] (ram s) (ram s').
Proof using Hkend.
  intros [Hl Hc Hn Hps] Hp Hnin. destruct s as [l fl m]. simpl in *. subst l.
  unfold kfree. rewrite page_guard by done. eexists. split; [reflexivity|].
  assert (Hs : same_except [p] m (st64 (memset p 1 PGSIZE m) p fl)).
  { eapply same_trans; [apply same_memset|]. apply same_st64; unfold in_page, PGSIZE; lia. }
  split; [|exact Hs]. split; simpl; [done| |by constructor|by constructor].
  split; [done|]. unfold run_next. rewrite ld64_st64.
  assert (u64 fl = fl) as ->.
  { destruct ps as [|q ps]; simpl in Hc; [by subst|]. destruct Hc as [-> _].
    apply Forall_cons in Hps as [Hq _]. by apply page_word. }
  eapply chain_same; [exact Hs| | |exact Hc].
  - apply Forall_app. split; [by eapply pages_aligned|]. constructor; [by destruct Hp|done].
  - intros q Hq ->%list_elem_of_singleton. done.
Qed.

Lemma kfree_bad s p : ~ page_ok kend p -> kfree kend p s = Panic "kfree".
Proof.
  intros Hp. unfold kfree.
  assert (negb (p mod PGSIZE =? 0) || (p <? kend) || (PHYSTOP <=? p) = true) as ->; [|done].
  apply not_false_iff_true. intros H. apply Hp. unfold page_ok.
  apply orb_false_iff in H as [[H1%negb_false_iff H2]%orb_false_iff H3]. lia.
Qed.

Definition filled (m : mem) (p c : Z) : Prop := forall a, in_page p a -> m a = c.

Lemma kalloc_ok s p ps :
  kmem_ok kend s (p :: ps) ->
  exists s', kalloc s = Ok p s' ∧ kmem_ok kend s' ps ∧ page_ok kend p ∧ (p ∉ ps)
    ∧ same_except [p] (ram s) (ram s') ∧ filled (ram s') p 5.
Proof using Hkend.
  intros [Hl Hc Hn Hps]. destruct s as [l fl m]. simpl in *. subst l. destruct Hc as [-> Hc].
  apply NoDup_cons in Hn as [Hnin Hn]. apply Forall_cons in Hps as [Hp Hps].
  destruct (page_word p Hp) as [_ Hp0]. unfold kalloc. simpl.
  eexists. split.
  { rewrite (bind_Ok _ _ _ tt (Kmem true p m)) by done. rewrite (bind_Ok _ _ _ p (Kmem true p m)) by done.
    assert ((p =? 0) = false) as -> by lia. reflexivity. }
  assert (Hs := same_memset p 5 m).
  split_and!; [| done | done | exact Hs |].
  - split; simpl; [done| |done|done]. eapply chain_same; [exact Hs| | |exact Hc].
    + apply Forall_app. split; [by eapply pages_aligned|]. constructor; [by destruct Hp|done].
    + intros q Hq ->%list_elem_of_singleton. done.
  - intros a Ha. simpl. rewrite memset_eq. unfold in_page in Ha. cases_cmp.
Qed.

Lemma kalloc_empty s : kmem_ok kend s [] -> kalloc s = Ok 0 s.
Proof. intros [Hl Hc _ _]. destruct s as [l fl m]. simpl in *. by subst. Qed.

(** ** Booting *)
Lemma PGROUNDDOWN_eq a : PGROUNDDOWN a = a / PGSIZE * PGSIZE.
Proof.
  unfold PGROUNDDOWN, PGSIZE. rewrite <- Z.ldiff_land. change (4096 - 1) with (Z.ones 12).
  rewrite Z.ldiff_ones_r, Z.shiftl_mul_pow2, Z.shiftr_div_pow2 by lia. done.
Qed.
Lemma PGROUNDUP_eq a : 0 <= a <= 2 ^ 63 -> PGROUNDUP a = (a + PGSIZE - 1) / PGSIZE * PGSIZE.
Proof.
  intros Ha. change (PGROUNDUP a) with (PGROUNDDOWN (u64 (a + PGSIZE - 1))). rewrite PGROUNDDOWN_eq.
  unfold u64, PGSIZE. by rewrite Z.mod_small by lia.
Qed.

(** The pages of [[p, p + n * PGSIZE)], last first. *)
Fixpoint pages_from (n : nat) (p : Z) : list Z :=
  match n with
  | O => []
  | S n' => pages_from n' (p + PGSIZE) ++ [p]
  end.

Lemma in_pages_from n p q : p mod PGSIZE = 0 ->
  q ∈ pages_from n p <-> q mod PGSIZE = 0 ∧ p <= q < p + Z.of_nat n * PGSIZE.
Proof.
  revert p. induction n as [|n IH]; intros p Hp; cbn [pages_from].
  - split; [by intros ?%elem_of_nil|]. intros []. lia.
  - rewrite elem_of_app, list_elem_of_singleton, IH, Nat2Z.inj_succ.
    2:{ unfold PGSIZE in *. Z.div_mod_to_equations. lia. }
    split.
    + intros [[Hq ?]| ->]; split; unfold PGSIZE in *; try done; lia.
    + intros [Hq ?]. destruct (decide (q = p)) as [->|Hne]; [by right|left].
      split; [done|]. pose proof (pages_apart p q Hp Hq ltac:(done)). unfold PGSIZE in *. lia.
Qed.

Lemma freerange_loop_ok n p fuel s ps :
  (n < fuel)%nat -> kmem_ok kend s ps -> p mod PGSIZE = 0 -> kend <= p ->
  p + Z.of_nat n * PGSIZE <= PHYSTOP < p + (Z.of_nat n + 1) * PGSIZE ->
  (forall q, q ∈ ps -> q < p) ->
  exists s', freerange_loop kend fuel p PHYSTOP s = Ok tt s' ∧ kmem_ok kend s' (pages_from n p ++ ps).
Proof using Hkend.
  revert p fuel s ps. induction n as [|n IH]; intros p [|fuel] s ps Hf Hok Hal Hend Hn Hlt; try lia; cbn [freerange_loop].
  - destruct (Z.leb_spec (p + PGSIZE) PHYSTOP); [lia|]. by exists s.
  - destruct (Z.leb_spec (p + PGSIZE) PHYSTOP); [|unfold PGSIZE in *; lia].
    destruct (kfree_ok s ps p Hok) as (s1 & H1 & Hok1 & _).
    { unfold PGSIZE in *. split; [done|lia]. } { intros Hin%Hlt. lia. }
    rewrite (bind_Ok _ _ _ _ _ H1).
    destruct (IH (p + PGSIZE) fuel s1 (p :: ps)) as (s2 & H2 & Hok2); try done; try lia.
    + unfold PGSIZE in *. Z.div_mod_to_equations. lia.
    + intros q [-> | Hq]%elem_of_cons; [unfold PGSIZE; lia|]. apply Hlt in Hq. unfold PGSIZE; lia.
    + exists s2. split; [done|]. cbn [pages_from]. by rewrite <- app_assoc.
Qed.

(** Every whole page between the kernel and the top of memory. *)
Definition all_pages : list Z :=
  pages_from (Z.to_nat ((PHYSTOP - PGROUNDUP kend) / PGSIZE)) (PGROUNDUP kend).

Lemma kinit_ok s fuel :
  kend <= PHYSTOP - PGSIZE -> freelist s = 0 -> (Z.to_nat ((PHYSTOP - kend) / PGSIZE) < fuel)%nat ->
  exists s', kinit kend fuel s = Ok tt s' ∧ kmem_ok kend s' all_pages.
Proof using Hkend.
  intros He Hz Hf. unfold kinit, freerange, all_pages.
  assert (Hk : kend <= PHYSTOP) by (unfold PGSIZE in *; lia).
  rewrite PGROUNDUP_eq by (unfold PHYSTOP, KERNBASE in *; lia).
  set (p := (kend + PGSIZE - 1) / PGSIZE * PGSIZE).
  assert (Hp : p mod PGSIZE = 0 ∧ kend <= p < kend + PGSIZE).
  { unfold p, PGSIZE. split; [apply Z.mod_mul; lia|]. Z.div_mod_to_equations. lia. }
  clearbody p. rewrite (bind_Ok (modify (fun s => s <| km_lock := false |>)) _ s tt (s <| km_lock := false |>) eq_refl).
  destruct (freerange_loop_ok (Z.to_nat ((PHYSTOP - p) / PGSIZE)) p fuel (s <| km_lock := false |>) [])
    as (s' & H1 & H2).
  - eapply Nat.le_lt_trans; [|exact Hf]. apply Z2Nat.inj_le; unfold PGSIZE in *; try (apply Z.div_pos; lia).
    apply Z.div_le_mono; lia.
  - split; simpl; [done|by rewrite Hz|constructor|constructor].
  - apply Hp.
  - lia.
  - unfold PGSIZE in *. rewrite Z2Nat.id by (apply Z.div_pos; lia). Z.div_mod_to_equations. lia.
  - by intros q ?%elem_of_nil.
  - rewrite app_nil_r in H2. by exists s'.
Qed.
End spec.

(** ** Clients of the allocator

    [held] are the pages handed out: a client takes pages, gives back pages it
    holds, and writes to pages it holds. *)
Inductive kstep (kend : Z) : kmem * list Z -> kmem * list Z -> Prop :=
  | kstep_alloc s held p s' : kalloc s = Ok p s' -> p ≠ 0 -> kstep kend (s, held) (s', p :: held)
  | kstep_none s held s' : kalloc s = Ok 0 s' -> kstep kend (s, held) (s', held)
  | kstep_free s held p held' s' :
      held ≡ₚ p :: held' -> kfree kend p s = Ok tt s' -> kstep kend (s, held) (s', held')
  | kstep_write s held m' :
      same_except held (ram s) m' -> kstep kend (s, held) (s <| ram := m' |>, held).

(** Free and held pages together are all pages, each once. *)
Definition split_ok (kend : Z) (sh : kmem * list Z) : Prop :=
  exists ps, kmem_ok kend sh.1 ps ∧ ps ++ sh.2 ≡ₚ all_pages kend.

Section clients.
Context (kend : Z) (Hkend : 0 < kend <= PHYSTOP - PGSIZE).

Lemma all_pages_spec p :
  p ∈ all_pages kend <-> p mod PGSIZE = 0 ∧ kend <= p <= PHYSTOP - PGSIZE.
Proof using Hkend.
  unfold all_pages. assert (0 <= kend <= 2 ^ 63) by (unfold PHYSTOP, KERNBASE, PGSIZE in *; lia).
  assert (H12 : PHYSTOP mod PGSIZE = 0) by done.
  assert (Hr : PGROUNDUP kend mod PGSIZE = 0 ∧ kend <= PGROUNDUP kend < kend + PGSIZE).
  { rewrite PGROUNDUP_eq by done. unfold PGSIZE. split; [apply Z.mod_mul; lia|]. Z.div_mod_to_equations. lia. }
  rewrite in_pages_from by apply Hr. destruct Hr as [Hr Hr'].
  pose proof Hkend as Hk. revert Hr Hr' Hk H12. generalize (PGROUNDUP kend) PHYSTOP. unfold PGSIZE.
  intros r t Hr Hr' Hk Ht.
  rewrite Z2Nat.id by (apply Z.div_pos; Z.div_mod_to_equations; lia).
  split; intros [Hp ?]; (split; [done|]); Z.div_mod_to_equations; lia.
Qed.

Lemma all_pages_nodup : NoDup (all_pages kend).
Proof using Hkend.
  unfold all_pages. generalize (Z.to_nat ((PHYSTOP - PGROUNDUP kend) / PGSIZE)). generalize (PGROUNDUP kend).
  assert (Hge : forall n p q, q ∈ pages_from n p -> p <= q).
  { induction n as [|n IH]; intros p q; cbn [pages_from]; [by intros ?%elem_of_nil|].
    intros [Hq%IH | ->%list_elem_of_singleton]%elem_of_app; unfold PGSIZE in *; lia. }
  intros p n. revert p. induction n as [|n IH]; intros p; cbn [pages_from]; [constructor|].
  apply NoDup_app. split_and!; [apply IH| |apply NoDup_singleton].
  intros q Hq%Hge ->%list_elem_of_singleton. unfold PGSIZE in *; lia.
Qed.

Lemma split_pages (sh : kmem * list Z) : split_ok kend sh -> NoDup sh.2 ∧ (forall p, p ∈ sh.2 -> page_ok kend p).
Proof using Hkend.
  intros (ps & _ & Hall). assert (Hn := all_pages_nodup). rewrite <- Hall in Hn.
  apply NoDup_app in Hn as (_ & _ & Hn). split; [done|]. intros p Hp.
  assert (p ∈ all_pages kend) as [? ?]%all_pages_spec by (rewrite <- Hall; apply elem_of_app; by right).
  unfold PGSIZE in *. split; [done|lia].
Qed.

Lemma split_free (held ps : list Z) p : ps ++ held ≡ₚ all_pages kend -> p ∈ held -> p ∉ ps.
Proof using Hkend.
  intros Hall Hp Hin. assert (Hn := all_pages_nodup). rewrite <- Hall in Hn.
  apply NoDup_app in Hn as (_ & Hn & _). by apply (Hn p).
Qed.

Lemma kstep_split sh sh' : kstep kend sh sh' -> split_ok kend sh -> split_ok kend sh'.
Proof using Hkend.
  intros Hstep Hsplit. pose proof (split_pages _ Hsplit) as [_ Hheld]. destruct Hsplit as (ps & Hok & Hall).
  destruct Hstep as [s held p s' Hk Hp|s held s' Hk|s held p held' s' Heq Hk|s held m' Hs]; simpl in *.
  - destruct ps as [|q ps]; [rewrite (kalloc_empty kend s Hok) in Hk; by simplify_eq|].
    destruct (kalloc_ok kend ltac:(lia) s q ps Hok) as (s1 & H1 & Hok1 & _).
    rewrite H1 in Hk. simplify_eq. exists ps. split; [done|]. simpl. rewrite <- Hall. symmetry. apply Permutation_middle.
  - destruct ps as [|q ps]; [rewrite (kalloc_empty kend s Hok) in Hk; simplify_eq; by exists []|].
    destruct (kalloc_ok kend ltac:(lia) s q ps Hok) as (s1 & H1 & _ & [_ Hq] & _). rewrite H1 in Hk. simplify_eq. lia.
  - assert (p ∈ held) by (rewrite Heq; left).
    destruct (kfree_ok kend ltac:(lia) s ps p Hok) as (s1 & H1 & Hok1 & _).
    { by apply Hheld. } { eapply (split_free held); done. }
    rewrite H1 in Hk. simplify_eq. exists (p :: ps). split; [done|]. simpl. rewrite <- Hall, Heq.
    apply Permutation_middle.
  - exists ps. split; [|done]. destruct Hok as [Hl Hc Hn Hps]. split; simpl; try done.
    eapply chain_same; [exact Hs| | |exact Hc].
    + apply Forall_app. split; [by eapply pages_aligned|]. apply (pages_aligned kend), Forall_forall. apply Hheld.
    + intros p Hp Hp'. by eapply (split_free held).
Qed.

Lemma kstep_run sh sh' : rtc (kstep kend) sh sh' -> split_ok kend sh -> split_ok kend sh'.
Proof using Hkend. induction 1; eauto using kstep_split. Qed.
End clients.

(** C24: After [kinit], whatever its clients do, the allocator neither hands out
    a page twice nor loses one: the pages held are distinct whole pages of RAM
    above the kernel; the next [kalloc] returns 0 only if every page is held,
    and otherwise a page nobody holds, changing no byte of any other page; and
    every held page can be freed, again without touching any other page. *)
Theorem kalloc_reachable kend fuel s0 s1 s held :
  0 < kend <= PHYSTOP - PGSIZE -> freelist s0 = 0 -> (Z.to_nat ((PHYSTOP - kend) / PGSIZE) < fuel)%nat ->
  kinit kend fuel s0 = Ok tt s1 -> rtc (kstep kend) (s1, []) (s, held) ->
  NoDup held
  ∧ (forall p, p ∈ held -> p mod PGSIZE = 0 ∧ kend <= p <= PHYSTOP - PGSIZE)
  ∧ (exists p s', kalloc s = Ok p s'
       ∧ (p = 0 -> held ≡ₚ all_pages kend)
       ∧ (p ≠ 0 -> p ∈ all_pages kend ∧ (p ∉ held) ∧ same_except [p] (ram s) (ram s')))
  ∧ (forall p, p ∈ held -> exists s', kfree kend p s = Ok tt s' ∧ same_except [p] (ram s) (ram s')).
Proof.
  intros Hk Hz Hf Hi Hrun.
  destruct (kinit_ok kend ltac:(lia) s0 fuel ltac:(lia) Hz Hf) as (s1' & Hi' & Hok1).
  rewrite Hi' in Hi. simplify_eq.
  assert (Hs : split_ok kend (s, held)).
  { eapply kstep_run; [done|exact Hrun|]. exists (all_pages kend). split; [done|]. by rewrite app_nil_r. }
  pose proof (split_pages kend Hk _ Hs) as [Hn Hp]. destruct Hs as (ps & Hok & Hall). simpl in *.
  assert (Hin : forall p, p ∈ held -> p ∈ all_pages kend) by (intros p H; rewrite <- Hall; apply elem_of_app; by right).
  split_and!; [done| | |].
  - intros p Hh. by apply all_pages_spec, Hin.
  - destruct ps as [|q ps].
    + exists 0, s. split_and!; [by eapply kalloc_empty|intros _; done|done].
    + destruct (kalloc_ok kend ltac:(lia) s q ps Hok) as (s' & H1 & _ & [_ Hq] & _ & Hsame & _).
      exists q, s'. split_and!; [done|lia|]. intros _. split_and!; [rewrite <- Hall; left| |done].
      intros Hh. eapply (split_free kend Hk held); [exact Hall|exact Hh|left].
  - intros p Hh. destruct (kfree_ok kend ltac:(lia) s ps p Hok) as (s' & H1 & _ & H2); eauto.
    by eapply (split_free kend Hk held).
Qed.

Lemma kalloc_reachable_witness :
  exists s1 s p, kinit (PHYSTOP - 3 * PGSIZE) 4 (Kmem true 0 (fun _ => 0)) = Ok tt s1
    ∧ rtc (kstep (PHYSTOP - 3 * PGSIZE)) (s1, []) (s, [p]) ∧ NoDup [p].
Proof.
  destruct (kinit_ok (PHYSTOP - 3 * PGSIZE) ltac:(done) (Kmem true 0 (fun _ => 0)) 4) as (s1 & H1 & Hok);
    [done|done|vm_compute; lia|].
  change (all_pages (PHYSTOP - 3 * PGSIZE)) with [PHYSTOP - PGSIZE; PHYSTOP - 2 * PGSIZE; PHYSTOP - 3 * PGSIZE] in Hok.
  destruct (kalloc_ok (PHYSTOP - 3 * PGSIZE) ltac:(done) _ _ _ Hok) as (s2 & H2 & _).
  assert (Hr : rtc (kstep (PHYSTOP - 3 * PGSIZE)) (s1, []) (s2, [PHYSTOP - PGSIZE])).
  { apply rtc_once. by apply kstep_alloc. }
  exists s1, s2, (PHYSTOP - PGSIZE). split; [exact H1|]. split; [exact Hr|].
  assert (Hk : 0 < PHYSTOP - 3 * PGSIZE <= PHYSTOP - PGSIZE) by done.
  assert (Hf : (Z.to_nat ((PHYSTOP - (PHYSTOP - 3 * PGSIZE)) / PGSIZE) < 4)%nat) by (vm_compute; lia).
  exact (proj1 (kalloc_reachable (PHYSTOP - 3 * PGSIZE) 4 (Kmem true 0 (fun _ => 0)) s1 s2 [PHYSTOP - PGSIZE] Hk eq_refl Hf H1 Hr)).
Defined.
