(* ===== verification/Vm.v ===== *)
(** * Vm: page tables and user memory, kernel/vm.c

    Page tables live in physical memory: a table is a page of 512 words, and
    every function reads and writes them there.  The loops share one [fuel]; the
    theorems about them say how much is enough. *)

From S2P Require Import Prelude KState SleepLock MemC Kalloc.

(** ** riscv.h *)
Definition PGSHIFT : Z := 12.
Definition PTE_V : Z := Z.shiftl 1 0.
Definition PTE_U : Z := Z.shiftl 1 4.
Definition PA2PTE (pa : Z) : Z := u64 (Z.shiftl (Z.shiftr pa 12) 10).
Definition PTE2PA (pte : Z) : Z := u64 (Z.shiftl (Z.shiftr pte 10) 12).
Definition PTE_FLAGS (pte : Z) : Z := Z.land pte 0x3FF.
Definition PXMASK : Z := 0x1FF.
Definition PXSHIFT (level : Z) : Z := PGSHIFT + 9 * level.
Definition PX (level va : Z) : Z := Z.land (Z.shiftr va (PXSHIFT level)) PXMASK.

(** [&pagetable[i]] *)
Definition pte_addr (pagetable i : Z) : Z := pagetable + 8 * i.

(** [*pte], and [*pte = v] *)
Definition load (pte : Z) : M kmem Z := gets (fun s => ld64 (ram s) pte).
Definition store (pte v : Z) : M kmem unit := modify (fun s => s <| ram ::= fun m => st64 m pte v |>).
Definition has (bits pte : Z) : bool := negb (Z.land pte bits =? 0).

(** Bytes written through a pointer that [kalloc] returned: a null pointer
    faults. *)
Definition memset_ptr (p c n : Z) : M kmem unit :=
  if p =? 0 then out_of_bounds else modify (fun s => s <| ram ::= memset p c n |>).

Section vm.
Context (kend : Z) (fuel : nat).
Abbreviation K := (M kmem).

(** The loop of [walk] from [level] down. *)
Fixpoint walk_loop (level : nat) (pagetable va : Z) (alloc : bool) : K Z :=
  match level with
  | O => mret (pte_addr pagetable (PX 0 va))
  | S level' =>
      let pte := pte_addr pagetable (PX (Z.of_nat level) va) in
      v ← load pte;
      if has PTE_V v then walk_loop level' (PTE2PA v) va alloc
      else if negb alloc then mret 0 else
      pagetable' ← kalloc;
      if pagetable' =? 0 then mret 0 else
      memset_ptr pagetable' 0 PGSIZE;;
      store pte (Z.lor (PA2PTE pagetable') PTE_V);;
      walk_loop level' pagetable' va alloc
  end.
Definition walk (pagetable va : Z) (alloc : bool) : K Z :=
  if MAXVA <=? va then panic "walk" else walk_loop 2 pagetable va alloc.

Definition walkaddr (pagetable va : Z) : K Z :=
  if MAXVA <=? va then mret 0 else
  pte ← walk pagetable va false;
  if pte =? 0 then mret 0 else
  v ← load pte;
  if Z.land v PTE_V =? 0 then mret 0 else
  if Z.land v PTE_U =? 0 then mret 0 else
  mret (PTE2PA v).

Fixpoint mappages_loop (k : nat) (pagetable a last pa perm : Z) : K Z :=
  match k with
  | O => no_fuel
  | S k' =>
      pte ← walk pagetable a true;
      if pte =? 0 then mret (-1) else
      v ← load pte;
      if has PTE_V v then panic "mappages: remap" else
      store pte (Z.lor (Z.lor (PA2PTE pa) perm) PTE_V);;
      if a =? last then mret 0 else
      mappages_loop k' pagetable (u64 (a + PGSIZE)) last (u64 (pa + PGSIZE)) perm
  end.
Definition mappages (pagetable va size pa perm : Z) : K Z :=
  if size =? 0 then panic "mappages: size" else
  mappages_loop fuel pagetable (PGROUNDDOWN va) (PGROUNDDOWN (u64 (va + size - 1))) pa perm.

Definition kvmmap (kpgtbl va pa sz perm : Z) : K unit :=
  r ← mappages kpgtbl va sz pa perm;
  when (negb (r =? 0)) (panic "kvmmap").

Fixpoint uvmunmap_loop (k : nat) (pagetable a lim : Z) (do_free : bool) : K unit :=
  match k with
  | O => no_fuel
  | S k' =>
      if negb (a <? lim) then mret tt else
      pte ← walk pagetable a false;
      if pte =? 0 then panic "uvmunmap: walk" else
      v ← load pte;
      if Z.land v PTE_V =? 0 then panic "uvmunmap: not mapped" else
      if PTE_FLAGS v =? PTE_V then panic "uvmunmap: not a leaf" else
      when do_free (kfree kend (PTE2PA v));;
      store pte 0;;
      uvmunmap_loop k' pagetable (u64 (a + PGSIZE)) lim do_free
  end.
Definition uvmunmap (pagetable va npages : Z) (do_free : bool) : K unit :=
  if negb (va mod PGSIZE =? 0) then panic "uvmunmap: not aligned" else
  uvmunmap_loop fuel pagetable va (u64 (va + npages * PGSIZE)) do_free.

Definition uvmcreate : K Z :=
  pagetable ← kalloc;
  if pagetable =? 0 then mret 0 else
  memset_ptr pagetable 0 PGSIZE;;
  mret pagetable.

(** [src] is the address of the code, [sz] its size. *)
Definition uvminit (pagetable src sz : Z) : K unit :=
  if PGSIZE <=? sz then panic "inituvm: more than a page" else
  mem ← kalloc;
  memset_ptr mem 0 PGSIZE;;
  _ ← mappages pagetable 0 PGSIZE mem (Z.lor (Z.lor (Z.lor PTE_W PTE_R) PTE_X) PTE_U);
  modify (fun s => s <| ram ::= memmove mem src sz |>).

(** The [int npages] is converted back to [uint64] for the call. *)
Definition uvmdealloc (pagetable oldsz newsz : Z) : K Z :=
  if oldsz <=? newsz then mret oldsz else
  when (PGROUNDUP newsz <? PGROUNDUP oldsz)
    (uvmunmap pagetable (PGROUNDUP newsz)
       (u64 (i32 ((PGROUNDUP oldsz - PGROUNDUP newsz) / PGSIZE))) true);;
  mret newsz.

Fixpoint uvmalloc_loop (k : nat) (pagetable a oldsz newsz : Z) : K Z :=
  match k with
  | O => no_fuel
  | S k' =>
      if negb (a <? newsz) then mret newsz else
      mem ← kalloc;
      if mem =? 0 then
        _ ← uvmdealloc pagetable a oldsz;
        mret 0
      else
      memset_ptr mem 0 PGSIZE;;
      r ← mappages pagetable a PGSIZE mem (Z.lor (Z.lor (Z.lor PTE_W PTE_X) PTE_R) PTE_U);
      if negb (r =? 0) then
        kfree kend mem;;
        _ ← uvmdealloc pagetable a oldsz;
        mret 0
      else uvmalloc_loop k' pagetable (u64 (a + PGSIZE)) oldsz newsz
  end.
Definition uvmalloc (pagetable oldsz newsz : Z) : K Z :=
  if newsz <? oldsz then mret oldsz else
  uvmalloc_loop fuel pagetable (PGROUNDUP oldsz) (PGROUNDUP oldsz) newsz.

Fixpoint freewalk (depth : nat) (pagetable : Z) : K unit :=
  match depth with
  | O => no_fuel
  | S depth' =>
      for_each (seqZ 0 512) (fun i =>
        pte ← load (pte_addr pagetable i);
        if has PTE_V pte && (Z.land pte (Z.lor (Z.lor PTE_R PTE_W) PTE_X) =? 0) then
          freewalk depth' (PTE2PA pte);;
          store (pte_addr pagetable i) 0
        else when (has PTE_V pte) (panic "freewalk: leaf"));;
      kfree kend pagetable
  end.

Definition uvmfree (pagetable sz : Z) : K unit :=
  when (0 <? sz) (uvmunmap pagetable 0 (PGROUNDUP sz / PGSIZE) true);;
  freewalk fuel pagetable.

(** The body of the loop; [false] is [goto err]. *)
Definition uvmcopy_page (old new i : Z) : K bool :=
  pte ← walk old i false;
  if pte =? 0 then panic "uvmcopy: pte should exist" else
  v ← load pte;
  if Z.land v PTE_V =? 0 then panic "uvmcopy: page not present" else
  mem ← kalloc;
  if mem =? 0 then mret false else
  modify (fun s => s <| ram ::= memmove mem (PTE2PA v) PGSIZE |>);;
  r ← mappages new i PGSIZE mem (PTE_FLAGS v);
  if negb (r =? 0) then kfree kend mem;; mret false else mret true.
Fixpoint uvmcopy_loop (k : nat) (old new i sz : Z) : K Z :=
  match k with
  | O => no_fuel
  | S k' =>
      if negb (i <? sz) then mret 0 else
      ok ← uvmcopy_page old new i;
      match ok with
      | true => uvmcopy_loop k' old new (u64 (i + PGSIZE)) sz
      | false =>
          uvmunmap new 0 (i / PGSIZE) true;;
          mret (-1)
      end
  end.
Definition uvmcopy (old new sz : Z) : K Z := uvmcopy_loop fuel old new 0 sz.

Definition uvmclear (pagetable va : Z) : K unit :=
  pte ← walk pagetable va false;
  if pte =? 0 then panic "uvmclear" else
  v ← load pte;
  store pte (Z.land v (Z.lnot PTE_U)).

(** The kernel's memory is mapped one to one, so the kernel addresses [src] and
    [dst] below are physical addresses. *)
Fixpoint copyout_loop (k : nat) (pagetable dstva src len : Z) : K Z :=
  match k with
  | O => no_fuel
  | S k' =>
      if negb (0 <? len) then mret 0 else
      let va0 := PGROUNDDOWN dstva in
      pa0 ← walkaddr pagetable va0;
      if pa0 =? 0 then mret (-1) else
      let n := let n := PGSIZE - (dstva - va0) in if len <? n then len else n in
      modify (fun s => s <| ram ::= memmove (pa0 + (dstva - va0)) src n |>);;
      copyout_loop k' pagetable (va0 + PGSIZE) (src + n) (len - n)
  end.
Definition copyout (pagetable dstva src len : Z) : K Z := copyout_loop fuel pagetable dstva src len.

Fixpoint copyin_loop (k : nat) (pagetable dst srcva len : Z) : K Z :=
  match k with
  | O => no_fuel
  | S k' =>
      if negb (0 <? len) then mret 0 else
      let va0 := PGROUNDDOWN srcva in
      pa0 ← walkaddr pagetable va0;
      if pa0 =? 0 then mret (-1) else
      let n := let n := PGSIZE - (srcva - va0) in if len <? n then len else n in
      modify (fun s => s <| ram ::= memmove dst (pa0 + (srcva - va0)) n |>);;
      copyin_loop k' pagetable (dst + n) (va0 + PGSIZE) (len - n)
  end.
Definition copyin (pagetable dst srcva len : Z) : K Z := copyin_loop fuel pagetable dst srcva len.

(** The inner loop of [copyinstr]: [got_null], [dst] and the memory. *)
Fixpoint copyinstr_bytes (n : nat) (p dst : Z) (m : mem) : bool * Z * mem :=
  match n with
  | O => (false, dst, m)
  | S n' =>
      if m p =? 0 then (true, dst, upd m dst 0)
      else copyinstr_bytes n' (p + 1) (dst + 1) (upd m dst (m p))
  end.
Fixpoint copyinstr_loop (k : nat) (pagetable dst srcva max : Z) : K Z :=
  match k with
  | O => no_fuel
  | S k' =>
      if negb (0 <? max) then mret (-1) else
      let va0 := PGROUNDDOWN srcva in
      pa0 ← walkaddr pagetable va0;
      if pa0 =? 0 then mret (-1) else
      let n := let n := PGSIZE - (srcva - va0) in if max <? n then max else n in
      m ← gets ram;
      match copyinstr_bytes (Z.to_nat n) (pa0 + (srcva - va0)) dst m with
      | (got_null, dst', m') =>
          modify (fun s => s <| ram := m' |>);;
          if got_null then mret 0
          else copyinstr_loop k' pagetable dst' (va0 + PGSIZE) (max - n)
      end
  end.
Definition copyinstr (pagetable dst srcva max : Z) : K Z := copyinstr_loop fuel pagetable dst srcva max.
End vm.
