(* ===== verification/VmRep.v ===== *)
(** * VmRep: what a page table in memory represents

    The table pages of a page table, indexed by the path that leads to them from
    the root ([[]] the root, [[i2]] and [[i2; i1]] the lower levels), and the
    leaf entry of every virtual page.  [walk] finds the entry, and in allocating
    mode adds the missing tables, taking pages off the free list. *)

From stdpp Require Import gmap.
From S2P Require Import Prelude KState SleepLock MemC Kalloc Vm.

#[local] Opaque memset memmove st64 ld64.

(** ** Entries *)
Lemma lor_low a f : 0 <= f < 1024 -> Z.lor (a * 1024) f = a * 1024 + f.
Proof.
  intros Hf. rewrite <- Z.add_lor_land.
  assert (Z.land (a * 1024) f = 0) as ->; [|lia].
  change 1024 with (2 ^ 10). rewrite <- Z.shiftl_mul_pow2 by lia. apply Z.bits_inj'. intros k Hk.
  rewrite Z.land_spec, Z.bits_0. destruct (decide (k < 10)).
  - by rewrite Z.shiftl_spec_low.
  - rewrite (Z.bits_above_log2 f), andb_false_r; [done|lia|].
    destruct (decide (f = 0)) as [->|]; [simpl; lia|].
    apply Z.log2_lt_pow2; [lia|]. apply Z.lt_le_trans with (2 ^ 10); [lia|]. apply Z.pow_le_mono_r; lia.
Qed.

Definition frame_ok (p : Z) : Prop := p mod PGSIZE = 0 ∧ 0 <= p < 2 ^ 56.

Lemma page_frame kend p : 0 < kend -> page_ok kend p -> frame_ok p.
Proof. intros Hk [Hal Hp]. unfold PHYSTOP, KERNBASE in Hp. split; [done|lia]. Qed.

Lemma PA2PTE_eq p : frame_ok p -> PA2PTE p = p / 4096 * 1024.
Proof.
  intros [Hal Hp]. unfold PA2PTE, u64. rewrite Z.shiftl_mul_pow2, Z.shiftr_div_pow2 by lia.
  change (2 ^ 12) with 4096. change (2 ^ 10) with 1024. apply Z.mod_small. Z.div_mod_to_equations. lia.
Qed.

Lemma PTE_word p f : frame_ok p -> 0 <= f < 1024 -> Z.lor (PA2PTE p) f = p / 4096 * 1024 + f.
Proof. intros Hp Hf. by rewrite PA2PTE_eq, lor_low. Qed.

Lemma PTE_u64 p f : frame_ok p -> 0 <= f < 1024 -> u64 (Z.lor (PA2PTE p) f) = Z.lor (PA2PTE p) f.
Proof.
  intros Hp Hf. rewrite PTE_word by done. destruct Hp as [_ Hp]. unfold u64. apply Z.mod_small.
  Z.div_mod_to_equations. lia.
Qed.

Lemma PTE2PA_PTE p f : frame_ok p -> 0 <= f < 1024 -> PTE2PA (Z.lor (PA2PTE p) f) = p.
Proof.
  intros Hp Hf. rewrite PTE_word by done. destruct Hp as [Hal Hp]. unfold PTE2PA, PGSIZE, u64 in *.
  rewrite Z.shiftl_mul_pow2, Z.shiftr_div_pow2 by lia. change (2 ^ 12) with 4096. change (2 ^ 10) with 1024.
  rewrite Z.div_add_l by lia. rewrite (Z.div_small f) by lia. rewrite Z.mod_small; Z.div_mod_to_equations; lia.
Qed.

Lemma PTE_low p f b : frame_ok p -> 0 <= f < 1024 -> 0 <= b < 1024 -> Z.land (Z.lor (PA2PTE p) f) b = Z.land f b.
Proof.
  intros Hp Hf Hb. rewrite Z.land_lor_distr_l. rewrite PA2PTE_eq by done.
  assert (Z.land (p / 4096 * 1024) b = 0) as ->; [|done].
  pose proof (Z.add_lor_land (p / 4096 * 1024) b). rewrite lor_low in H by done. lia.
Qed.

Lemma PTE_FLAGS_PTE p f : frame_ok p -> 0 <= f < 1024 -> PTE_FLAGS (Z.lor (PA2PTE p) f) = f.
Proof.
  intros Hp Hf. unfold PTE_FLAGS. rewrite PTE_low by (done || lia). change 1023 with (Z.ones 10).
  rewrite Z.land_ones by lia. by apply Z.mod_small.
Qed.

(** ** Indices *)
Definition vpn (i2 i1 i0 : Z) : Z := (i2 * 512 + i1) * 512 + i0.

Lemma PX_eq level va : 0 <= level -> PX level va = va / 2 ^ (12 + 9 * level) mod 512.
Proof.
  intros Hl. unfold PX, PXMASK, PXSHIFT, PGSHIFT. rewrite Z.shiftr_div_pow2 by lia. change 511 with (Z.ones 9).
  by rewrite Z.land_ones by lia.
Qed.
Lemma PX_range level va : 0 <= level -> 0 <= PX level va < 512.
Proof. intros. rewrite PX_eq by done. apply Z.mod_pos_bound. lia. Qed.
Lemma PX_vpn va : 0 <= va < MAXVA -> vpn (PX 2 va) (PX 1 va) (PX 0 va) = va / PGSIZE.
Proof.
  intros Hva. rewrite !PX_eq by lia. unfold vpn, PGSIZE. change MAXVA with 274877906944 in Hva.
  change (2 ^ (12 + 9 * 2)) with (4096 * (512 * 512)). change (2 ^ (12 + 9 * 1)) with (4096 * 512).
  change (2 ^ (12 + 9 * 0)) with 4096. rewrite <- !Z.div_div by lia.
  set (q := va / 4096). assert (0 <= q < 67108864) by (unfold q; Z.div_mod_to_equations; lia). clearbody q.
  Z.div_mod_to_equations. lia.
Qed.
Lemma vpn_inj i2 i1 i0 j2 j1 j0 :
  0 <= i1 < 512 -> 0 <= i0 < 512 -> 0 <= j1 < 512 -> 0 <= j0 < 512 ->
  vpn i2 i1 i0 = vpn j2 j1 j0 -> i2 = j2 ∧ i1 = j1 ∧ i0 = j0.
Proof. unfold vpn. lia. Qed.

(** ** Tables *)
Abbreviation tables := (gmap (list Z) Z).
Definition dir_entry (o : option Z) : Z :=
  match o with Some t => Z.lor (PA2PTE t) PTE_V | None => 0 end.
Definition tab_pages (tabs : tables) : list Z := (map_to_list tabs).*2.

(** The tables [tabs] in the memory [m], below the table at [base]. *)
Record forest (kend : Z) (m : mem) (base : list Z) (tabs : tables) (leaf : Z -> Z) : Prop := {
  fo_inj : forall p q t, tabs !! p = Some t -> tabs !! q = Some t -> p = q;
  fo_page : forall p t, tabs !! p = Some t -> page_ok kend t;
  fo_path : forall p i t, tabs !! (p ++ [i]) = Some t ->
    0 <= i < 512 ∧ (length p < 2)%nat ∧ (p ++ [i] = base ∨ is_Some (tabs !! p));
  fo_dir : forall p t i, tabs !! p = Some t -> (length p < 2)%nat -> 0 <= i < 512 ->
    ld64 m (pte_addr t i) = dir_entry (tabs !! (p ++ [i]));
  fo_leaf : forall i2 i1 i0 t, tabs !! [i2; i1] = Some t -> 0 <= i0 < 512 ->
    ld64 m (pte_addr t i0) = leaf (vpn i2 i1 i0)
}.

(** A page table with its root; an entry whose table is missing is 0. *)
Record vm_ok (kend : Z) (s : kmem) (fs : list Z) (root : Z) (tabs : tables) (leaf : Z -> Z) : Prop := {
  vo_kmem : kmem_ok kend s fs;
  vo_forest : forest kend (ram s) [] tabs leaf;
  vo_root : tabs !! [] = Some root;
  vo_none : forall i2 i1 i0, 0 <= i2 < 512 -> 0 <= i1 < 512 -> 0 <= i0 < 512 ->
    tabs !! [i2; i1] = None -> leaf (vpn i2 i1 i0) = 0;
  vo_free : forall p t, tabs !! p = Some t -> t ∉ fs
}.

Lemma in_tab_pages tabs t : t ∈ tab_pages tabs <-> exists p, tabs !! p = Some t.
Proof.
  unfold tab_pages. rewrite list_elem_of_fmap. split.
  - intros ([p t'] & -> & H%elem_of_map_to_list). by exists p.
  - intros [p H]. exists (p, t). split; [done|]. by apply elem_of_map_to_list.
Qed.

Lemma pte_in_page t i : 0 <= i < 512 -> in_page t (pte_addr t i) ∧ in_page t (pte_addr t i + 7).
Proof. unfold in_page, pte_addr, PGSIZE. lia. Qed.

Lemma pte_apart t t' i i' :
  t mod PGSIZE = 0 -> t' mod PGSIZE = 0 -> 0 <= i < 512 -> 0 <= i' < 512 -> (t, i) ≠ (t', i') ->
  pte_addr t i + 8 <= pte_addr t' i' ∨ pte_addr t' i' + 8 <= pte_addr t i.
Proof.
  intros Ht Ht' Hi Hi' Hne. unfold pte_addr. destruct (decide (t = t')) as [->|Hn].
  - assert (i ≠ i') by congruence. lia.
  - pose proof (pages_apart t t' Ht Ht' Hn). unfold PGSIZE in *. lia.
Qed.

Section rep.
Context (kend : Z) (Hkend : 0 < kend).

Lemma forest_aligned m base tabs leaf :
  forest kend m base tabs leaf -> Forall (fun t => t mod PGSIZE = 0) (tab_pages tabs).
Proof.
  intros Hf. apply Forall_forall. intros t [p Hp]%in_tab_pages. by apply (fo_page _ _ _ _ _ Hf) in Hp as [].
Qed.

(** Memory outside the tables does not matter. *)
Lemma forest_same m m' base tabs leaf ps :
  same_except ps m m' -> Forall (fun p => p mod PGSIZE = 0) ps -> (forall p t, tabs !! p = Some t -> t ∉ ps) ->
  forest kend m base tabs leaf -> forest kend m' base tabs leaf.
Proof.
  intros Hs Hal Hd [Hinj Hpg Hpath Hdir Hleaf]. split; [done|done|done| |].
  - intros p t i Hp Hlen Hi. rewrite <- (Hdir p t i) by done. destruct (pte_in_page t i Hi).
    destruct (Hpg p t Hp). eapply ld64_page; eauto.
  - intros i2 i1 i0 t Hp Hi. rewrite <- (Hleaf i2 i1 i0 t) by done. destruct (pte_in_page t i0 Hi).
    destruct (Hpg _ t Hp). eapply ld64_page; eauto.
Qed.

Lemma dir_some t :
  page_ok kend t -> has PTE_V (dir_entry (Some t)) = true ∧ PTE2PA (dir_entry (Some t)) = t.
Proof using Hkend.
  intros Ht. pose proof (page_frame kend t Hkend Ht) as Ht'. unfold has, dir_entry. change PTE_V with 1.
  rewrite PTE_low, PTE2PA_PTE by (done || lia). done.
Qed.

(** One level of [walk]. *)
Lemma walk_step m base tabs leaf s level p t va alloc :
  forest kend m base tabs leaf -> ram s = m -> tabs !! p = Some t -> (length p < 2)%nat ->
  walk_loop (S level) t va alloc s =
  match tabs !! (p ++ [PX (Z.of_nat (S level)) va]) with
  | Some t' => walk_loop level t' va alloc s
  | None =>
      if negb alloc then Ok 0 s else
      (pagetable' ← kalloc;
       if pagetable' =? 0 then mret 0 else
       memset_ptr pagetable' 0 PGSIZE;;
       store (pte_addr t (PX (Z.of_nat (S level)) va)) (Z.lor (PA2PTE pagetable') PTE_V);;
       walk_loop level pagetable' va alloc) s
  end.
Proof using Hkend.
  intros Hf <- Hp Hlen. cbn [walk_loop]. set (i := PX (Z.of_nat (S level)) va).
  rewrite (bind_Ok (load (pte_addr t i)) _ s (ld64 (ram s) (pte_addr t i)) s eq_refl).
  rewrite (fo_dir _ _ _ _ _ Hf p t i Hp Hlen) by (apply PX_range; lia).
  destruct (tabs !! (p ++ [i])) as [t'|] eqn:Ht'.
  - apply (fo_page _ _ _ _ _ Hf), dir_some in Ht' as [-> ->]. done.
  - change (has PTE_V (dir_entry None)) with false. by destruct alloc.
Qed.

Definition table_of (tabs : tables) (va : Z) : option Z := tabs !! [PX 2 va; PX 1 va].
Definition entry_of (tabs : tables) (va : Z) : Z :=
  match table_of tabs va with Some t => pte_addr t (PX 0 va) | None => 0 end.

Lemma walk_lookup s fs root tabs leaf va :
  vm_ok kend s fs root tabs leaf -> va < MAXVA -> walk root va false s = Ok (entry_of tabs va) s.
Proof using Hkend.
  intros [_ Hf Hr _ _] Hva. unfold walk, entry_of, table_of. destruct (Z.leb_spec MAXVA va); [lia|].
  rewrite (walk_step _ _ _ _ s 1 [] root va false Hf eq_refl Hr) by (simpl; lia). simpl app.
  destruct (tabs !! [PX (Z.of_nat 2) va]) as [t1|] eqn:H1.
  - rewrite (walk_step _ _ _ _ s 0 _ t1 va false Hf eq_refl H1) by (simpl; lia). simpl app.
    change (Z.of_nat 2) with 2. change (Z.of_nat 1) with 1. by destruct (tabs !! [PX 2 va; PX 1 va]).
  - change (Z.of_nat 2) with 2 in H1. destruct (tabs !! [PX 2 va; PX 1 va]) as [t0|] eqn:H0; [|done].
    apply (fo_path _ _ _ _ _ Hf [_]) in H0 as (_ & _ & [He|[? ?]]); simpl in *; congruence.
Qed.

(** The entry itself. *)
Lemma entry_load s fs root tabs leaf va t :
  vm_ok kend s fs root tabs leaf -> 0 <= va < MAXVA -> table_of tabs va = Some t ->
  ld64 (ram s) (entry_of tabs va) = leaf (va / PGSIZE) ∧ entry_of tabs va ≠ 0.
Proof using Hkend.
  intros [_ Hf _ _ _] Hva Ht. unfold entry_of. rewrite Ht. unfold table_of in Ht.
  rewrite (fo_leaf _ _ _ _ _ Hf _ _ _ _ Ht) by (apply PX_range; lia). rewrite PX_vpn by done. split; [done|].
  apply (fo_page _ _ _ _ _ Hf) in Ht as [_ ?]. pose proof (PX_range 0 va ltac:(lia)). unfold pte_addr. lia.
Qed.
Lemma entry_none s fs root tabs leaf va :
  vm_ok kend s fs root tabs leaf -> 0 <= va < MAXVA -> table_of tabs va = None ->
  leaf (va / PGSIZE) = 0 ∧ entry_of tabs va = 0.
Proof.
  intros Hv Hva Ht. unfold entry_of. rewrite Ht. split; [|done]. rewrite <- PX_vpn by done.
  apply (vo_none _ _ _ _ _ _ Hv); [apply PX_range; lia..|done].
Qed.

(** ** Adding a table *)
Lemma dir_u64 t : page_ok kend t -> u64 (dir_entry (Some t)) = dir_entry (Some t).
Proof using Hkend. intros Ht. apply PTE_u64; [by apply (page_frame kend)|done]. Qed.

Lemma filled_zero m q i : filled m q 0 -> 0 <= i < 512 -> ld64 m (pte_addr q i) = 0.
Proof.
  intros Hz Hi. apply ld64_zero. intros b Hb. apply Hz. unfold pte_addr, in_page, PGSIZE in *. lia.
Qed.

Section add_table.
Context (m m1 : mem) (tabs : tables) (leaf : Z -> Z) (p : list Z) (t i q : Z).
Hypothesis (Hf : forest kend m [] tabs leaf).
Hypothesis (Hp : tabs !! p = Some t) (Hlen : (length p < 2)%nat) (Hi : 0 <= i < 512).
Hypothesis (Hnew : tabs !! (p ++ [i]) = None) (Hq : page_ok kend q).
Hypothesis (Hqnew : forall p' t', tabs !! p' = Some t' -> t' ≠ q).
Hypothesis (Hm1 : same_except [q] m m1) (Hz : filled m1 q 0).
Hypothesis (Hleaf0 : forall i2 i1 i0, p ++ [i] = [i2; i1] -> 0 <= i0 < 512 -> leaf (vpn i2 i1 i0) = 0).

Let m2 := st64 m1 (pte_addr t i) (dir_entry (Some q)).

Lemma add_forest1 : forest kend m1 [] tabs leaf.
Proof using Hf Hm1 Hq Hqnew.
  eapply forest_same; [exact Hm1| | |exact Hf].
  - constructor; [by destruct Hq|done].
  - intros p' t' H' ->%list_elem_of_singleton. by apply (Hqnew p' q).
Qed.

Lemma add_word t' j : t' mod PGSIZE = 0 -> 0 <= j < 512 -> (t', j) ≠ (t, i) ->
  ld64 m2 (pte_addr t' j) = ld64 m1 (pte_addr t' j).
Proof using Hf Hi Hp.
  intros Ht' Hj Hne. apply ld64_other. destruct (fo_page _ _ _ _ _ Hf p t Hp).
  apply pte_apart; try done. 
Qed.

Lemma add_new_words j : 0 <= j < 512 -> ld64 m2 (pte_addr q j) = 0.
Proof using Hf Hi Hm1 Hp Hq Hqnew Hz.
  intros Hj. destruct Hq. rewrite add_word; [by apply filled_zero|done|done|].
  intros [= -> _]. by apply (Hqnew p t).
Qed.

Lemma add_below j : tabs !! ((p ++ [i]) ++ [j]) = None.
Proof using Hf Hnew.
  destruct (tabs !! ((p ++ [i]) ++ [j])) eqn:H; [|done].
  apply (fo_path _ _ _ _ _ Hf) in H as (_ & _ & [H|[x H]]); [|congruence].
  by apply app_eq_nil in H as [_ ?].
Qed.

Lemma add_dir p' t' j :
  <[p ++ [i] := q]> tabs !! p' = Some t' -> (length p' < 2)%nat -> 0 <= j < 512 ->
  ld64 m2 (pte_addr t' j) = dir_entry (<[p ++ [i] := q]> tabs !! (p' ++ [j])).
Proof using Hf Hi Hkend Hlen Hm1 Hnew Hp Hq Hqnew Hz.
  intros H' Hlen' Hj. destruct (decide (p' = p ++ [i])) as [->|Hne].
  - rewrite lookup_insert_eq in H'. injection H' as <-. rewrite add_new_words by done.
    rewrite lookup_insert_ne, add_below; [done|]. intros E%(f_equal length). rewrite !length_app in E. simpl in E. lia.
  - rewrite lookup_insert_ne in H' by done. destruct (fo_page _ _ _ _ _ Hf p' t' H').
    destruct (decide ((t', j) = (t, i))) as [[= -> ->]|Hne'].
    + assert (p' = p) as -> by by eapply (fo_inj _ _ _ _ _ Hf).
      unfold m2. by rewrite ld64_st64, lookup_insert_eq, dir_u64.
    + rewrite add_word by done. rewrite (fo_dir _ _ _ _ _ add_forest1 p' t' j) by done.
      rewrite lookup_insert_ne; [done|]. intros [<- <-]%app_inj_tail. apply Hne'. congruence.
Qed.

Lemma add_leaf i2 i1 i0 t' :
  <[p ++ [i] := q]> tabs !! [i2; i1] = Some t' -> 0 <= i0 < 512 ->
  ld64 m2 (pte_addr t' i0) = leaf (vpn i2 i1 i0).
Proof using Hf Hi Hleaf0 Hlen Hm1 Hnew Hp Hq Hqnew Hz.
  intros H' Hi0. destruct (decide ([i2; i1] = p ++ [i])) as [E|Hne].
  - rewrite E, lookup_insert_eq in H'. injection H' as <-. rewrite add_new_words by done. by rewrite Hleaf0.
  - rewrite lookup_insert_ne in H' by done. destruct (fo_page _ _ _ _ _ Hf _ t' H').
    rewrite add_word; [by apply (fo_leaf _ _ _ _ _ add_forest1)|done|done|].
    intros [= -> _]. pose proof (fo_inj _ _ _ _ _ Hf _ _ _ Hp H') as ->. simpl in Hlen. lia.
Qed.

Lemma add_forest : forest kend m2 [] (<[p ++ [i] := q]> tabs) leaf.
Proof using Hf Hi Hkend Hleaf0 Hlen Hm1 Hnew Hp Hq Hqnew Hz.
  split; [| | |exact add_dir|exact add_leaf].
  - intros p1 p2 t' [[<- <-]|[Hn1 H1]]%lookup_insert_Some [[<- E]|[Hn2 H2]]%lookup_insert_Some; [done| | |].
    + by destruct (Hqnew p2 q H2).
    + subst. by destruct (Hqnew p1 t' H1).
    + by eapply (fo_inj _ _ _ _ _ Hf).
  - intros p' t' [[<- <-]|[_ H1]]%lookup_insert_Some; [done|]. by eapply (fo_page _ _ _ _ _ Hf).
  - intros p' j t' [[E <-]|[_ H1]]%lookup_insert_Some.
    + apply app_inj_tail in E as [<- <-]. split; [done|]. split; [done|]. right. apply lookup_insert_is_Some'. right. by exists t.
    + apply (fo_path _ _ _ _ _ Hf) in H1 as (? & ? & Hor). split; [done|]. split; [done|].
      destruct Hor; [by left|right]. apply lookup_insert_is_Some'. by right.
Qed.
End add_table.

(** Pages are neither made nor lost. *)
Definition accounted (fs : list Z) (tabs : tables) (fs' : list Z) (tabs' : tables) : Prop :=
  fs' ++ tab_pages tabs' ≡ₚ fs ++ tab_pages tabs.

Lemma tab_pages_insert tabs p q : tabs !! p = None -> tab_pages (<[p := q]> tabs) ≡ₚ q :: tab_pages tabs.
Proof. intros H. unfold tab_pages. by rewrite map_to_list_insert. Qed.

(** [walk] in allocating mode: the entry's table now exists, or memory is
    exhausted; the mappings are as before, and no other memory is touched. *)
Definition walk_post (s : kmem) (fs : list Z) (root : Z) (tabs : tables) (leaf : Z -> Z) (va r : Z) (s' : kmem)
    (fs' : list Z) (tabs' : tables) : Prop :=
  vm_ok kend s' fs' root tabs' leaf ∧ tabs ⊆ tabs' ∧ accounted fs tabs fs' tabs'
  ∧ same_except (tab_pages tabs') (ram s) (ram s')
  ∧ (r = 0 ∧ fs' = [] ∧ (length fs <= 1)%nat
     ∨ (exists t, table_of tabs' va = Some t) ∧ r = entry_of tabs' va ∧ (length fs <= 2 + length fs')%nat).

Lemma kmem_same s s' fs ps :
  same_except ps (ram s) (ram s') -> km_lock s' = km_lock s -> freelist s' = freelist s ->
  Forall (fun p => p mod PGSIZE = 0) ps -> (forall p, p ∈ fs -> p ∉ ps) ->
  kmem_ok kend s fs -> kmem_ok kend s' fs.
Proof.
  intros Hs Hl Hfl Hal Hd [H1 H2 H3 H4]. split; [congruence| |done|done]. rewrite Hfl.
  eapply chain_same; [exact Hs| |done|done]. apply Forall_app. split; [by eapply pages_aligned|done].
Qed.

Lemma vm_page s fs root tabs leaf p t : vm_ok kend s fs root tabs leaf -> tabs !! p = Some t -> page_ok kend t.
Proof. intros H. apply (fo_page _ _ _ _ _ (vo_forest _ _ _ _ _ _ H)). Qed.

(** A new table is allocated, cleared and linked. *)
Lemma vm_add_table s q fs root tabs leaf p t i (rest : Z -> M kmem Z) :
  vm_ok kend s (q :: fs) root tabs leaf -> tabs !! p = Some t -> (length p < 2)%nat -> 0 <= i < 512 ->
  tabs !! (p ++ [i]) = None ->
  (forall i2 i1 i0, p ++ [i] = [i2; i1] -> 0 <= i0 < 512 -> leaf (vpn i2 i1 i0) = 0) ->
  exists s', (pagetable' ← kalloc;
      if pagetable' =? 0 then mret 0 else
      memset_ptr pagetable' 0 PGSIZE;;
      store (pte_addr t i) (Z.lor (PA2PTE pagetable') PTE_V);;
      rest pagetable') s = rest q s'
    ∧ vm_ok kend s' fs root (<[p ++ [i] := q]> tabs) leaf
    ∧ same_except [q; t] (ram s) (ram s').
Proof using Hkend.
  intros Hv Hp Hlen Hi Hnew Hl0. destruct (kalloc_ok kend Hkend s q fs (vo_kmem _ _ _ _ _ _ Hv))
    as (s1 & H1 & Hok1 & Hq & Hqfs & Hs1 & _).
  assert (Hqnew : forall p' t', tabs !! p' = Some t' -> t' ≠ q).
  { intros p' t' H' ->. apply (vo_free _ _ _ _ _ _ Hv p' q H'). left. }
  pose proof (vm_page _ _ _ _ _ _ _ Hv Hp) as Ht.
  set (s2 := s1 <| ram ::= memset q 0 PGSIZE |>). set (m1 := ram s2).
  set (s3 := s2 <| ram ::= fun m => st64 m (pte_addr t i) (dir_entry (Some q)) |>).
  assert (Hm1 : same_except [q] (ram s) m1) by (eapply same_trans; [exact Hs1|apply same_memset]).
  assert (Hz : filled m1 q 0).
  { intros a Ha. change (memset q 0 PGSIZE (ram s1) a = 0). rewrite memset_eq. unfold in_page in Ha. cases_cmp. }
  assert (Hs3 : same_except [q; t] (ram s1) (ram s3)).
  { eapply same_trans; [exact (same_one q _ _ _ (list_elem_of_here _ _) (same_memset q 0 (ram s1)))|].
    destruct (pte_in_page t i Hi) as [Ha Hb]. change (ram s3) with (st64 m1 (pte_addr t i) (dir_entry (Some q))).
    apply (same_one t); [right; left|]. by apply same_st64. }
  exists s3. split; [|split].
  - rewrite (bind_Ok _ _ _ _ _ H1). destruct (page_word kend Hkend q Hq) as [_ Hq0].
    assert (Hq1 : (q =? 0) = false) by lia.
    assert (Hms : memset_ptr q 0 PGSIZE s1 = Ok tt s2) by (unfold memset_ptr; rewrite Hq1; reflexivity).
    rewrite Hq1, (bind_Ok _ _ _ _ _ Hms). reflexivity.
  - split.
    + eapply (kmem_same s1 s3); [exact Hs3|done|done| | |done].
      * constructor; [by destruct Hq|]. constructor; [by destruct Ht|done].
      * intros f Hf [-> |[-> |[]%elem_of_nil]%elem_of_cons]%elem_of_cons; [done|].
        apply (vo_free _ _ _ _ _ _ Hv p t Hp). by right.
    + apply (add_forest (ram s) m1); try done. apply (vo_forest _ _ _ _ _ _ Hv).
    + rewrite lookup_insert_ne by by intros [? ?]%app_eq_nil. apply (vo_root _ _ _ _ _ _ Hv).
    + intros i2 i1 i0 Hi2 Hi1 Hi0 [H' _]%lookup_insert_None. by apply (vo_none _ _ _ _ _ _ Hv).
    + intros p' t' [[_ <-]|[_ H']]%lookup_insert_Some; [done|]. intros Hin.
      apply (vo_free _ _ _ _ _ _ Hv p' t' H'). by right.
  - eapply same_trans; [|exact Hs3]. apply (same_one q), Hs1. left.
Qed.

Lemma step_none s fs root tabs leaf p i :
  vm_ok kend s fs root tabs leaf -> (length p < 2)%nat -> 0 <= i < 512 -> tabs !! (p ++ [i]) = None ->
  (forall j, j ∈ p -> 0 <= j < 512) ->
  forall i2 i1 i0, p ++ [i] = [i2; i1] -> 0 <= i0 < 512 -> leaf (vpn i2 i1 i0) = 0.
Proof.
  intros Hv Hlen Hi Hn Hp i2 i1 i0 E Hi0. rewrite E in Hn.
  destruct p as [|j [|? ?]]; simplify_eq/=; try lia.
  apply (vo_none _ _ _ _ _ _ Hv); try done. apply Hp. left.
Qed.

(** One level, in allocating mode: go on in the existing or new table, or give up. *)
Lemma walk_down s fs root tabs leaf level p t va :
  vm_ok kend s fs root tabs leaf -> tabs !! p = Some t -> (length p < 2)%nat -> (forall j, j ∈ p -> 0 <= j < 512) ->
  let i := PX (Z.of_nat (S level)) va in
  exists s' fs' tabs', vm_ok kend s' fs' root tabs' leaf ∧ tabs ⊆ tabs' ∧ accounted fs tabs fs' tabs'
  ∧ same_except (tab_pages tabs') (ram s) (ram s')
  ∧ (walk_loop (S level) t va true s = Ok 0 s' ∧ fs' = [] ∧ fs = []
     ∨ (length fs <= 1 + length fs')%nat
       ∧ exists t', tabs' !! (p ++ [i]) = Some t' ∧ walk_loop (S level) t va true s = walk_loop level t' va true s').
Proof using Hkend.
  intros Hv Hp Hlen Hpi i. rewrite (walk_step _ _ _ _ s level p t va true (vo_forest _ _ _ _ _ _ Hv) eq_refl Hp Hlen).
  fold i. assert (Hi : 0 <= i < 512) by (apply PX_range; lia).
  destruct (tabs !! (p ++ [i])) as [t'|] eqn:Ht'.
  { exists s, fs, tabs. split_and!; [done|reflexivity|by unfold accounted|apply same_refl|]. right. split; [lia|]. by exists t'. }
  simpl negb. cbv iota. destruct fs as [|q fs].
  - exists s, [], tabs. split_and!; [done|reflexivity|by unfold accounted|apply same_refl|]. left. split; [|done].
    by rewrite (bind_Ok _ _ _ _ _ (kalloc_empty kend s (vo_kmem _ _ _ _ _ _ Hv))).
  - destruct (vm_add_table s q fs root tabs leaf p t i (fun q => walk_loop level q va true)) as (s' & H1 & H2 & H3);
      try done; [by eapply step_none|].
    exists s', fs, (<[p ++ [i] := q]> tabs). split_and!.
    + done.
    + by apply insert_subseteq.
    + unfold accounted. rewrite tab_pages_insert by done. by rewrite <- Permutation_middle.
    + eapply same_mono, H3. rewrite tab_pages_insert by done.
      intros x [-> |[-> |[]%elem_of_nil]%elem_of_cons]%elem_of_cons; [left|right]. apply in_tab_pages. by exists p.
    + right. split; [simpl; lia|]. exists q. split; [apply lookup_insert_eq|exact H1].
Qed.

Lemma tab_pages_mono tabs tabs' : tabs ⊆ tabs' -> tab_pages tabs ⊆ tab_pages tabs'.
Proof. intros H t [p Hp]%in_tab_pages. apply in_tab_pages. exists p. by eapply lookup_weaken. Qed.

Lemma walk_alloc s fs root tabs leaf va :
  vm_ok kend s fs root tabs leaf -> va < MAXVA ->
  exists r s' fs' tabs', walk root va true s = Ok r s' ∧ walk_post s fs root tabs leaf va r s' fs' tabs'.
Proof using Hkend.
  intros Hv Hva. unfold walk. destruct (Z.leb_spec MAXVA va); [lia|].
  destruct (walk_down s fs root tabs leaf 1 [] root va Hv (vo_root _ _ _ _ _ _ Hv)) as
    (s1 & fs1 & tabs1 & Hv1 & Hsub1 & Hac1 & Hs1 & Hcase); [simpl; lia|by intros ? ?%elem_of_nil|].
  destruct Hcase as [(Hw & -> & ->)|(Hc1 & t1 & Ht1 & Hw)]; rewrite Hw.
  { exists 0, s1, [], tabs1. split; [done|]. split_and!; auto. }
  destruct (walk_down s1 fs1 root tabs1 leaf 0 _ t1 va Hv1 Ht1) as
    (s2 & fs2 & tabs2 & Hv2 & Hsub2 & Hac2 & Hs2 & Hcase).
  { simpl. lia. } { intros j ->%list_elem_of_singleton. apply PX_range. lia. }
  assert (tabs ⊆ tabs2) by by transitivity tabs1. assert (accounted fs tabs fs2 tabs2) by (unfold accounted in *; by rewrite Hac2).
  assert (same_except (tab_pages tabs2) (ram s) (ram s2)).
  { eapply same_trans; [|exact Hs2]. eapply same_mono, Hs1. by apply tab_pages_mono. }
  destruct Hcase as [(Hw2 & -> & ->)|(Hc2 & t0 & Ht0 & Hw2)]; rewrite Hw2.
  { exists 0, s2, [], tabs2. split; [done|]. split_and!; auto. }
  exists (pte_addr t0 (PX 0 va)), s2, fs2, tabs2. split; [done|]. split_and!; [done..|].
  right. unfold entry_of, table_of. simpl in Ht0. change (Z.of_nat 2) with 2 in Ht0. change (Z.of_nat 1) with 1 in Ht0.
  rewrite Ht0. split_and!; [by exists t0|done|lia].
Qed.

(** ** Writing an entry *)
Lemma set_leaf s fs root tabs leaf va t v :
  vm_ok kend s fs root tabs leaf -> 0 <= va < MAXVA -> table_of tabs va = Some t -> u64 v = v ->
  exists s', store (entry_of tabs va) v s = Ok tt s'
    ∧ vm_ok kend s' fs root tabs (upd leaf (va / PGSIZE) v)
    ∧ same_except (tab_pages tabs) (ram s) (ram s').
Proof using Hkend.
  intros Hv Hva Ht Hvw. eexists. split; [reflexivity|]. simpl.
  assert (He : entry_of tabs va = pte_addr t (PX 0 va)) by (unfold entry_of; by rewrite Ht). rewrite He.
  assert (Hpx : forall l, 0 <= l -> 0 <= PX l va < 512) by (intros; by apply PX_range).
  pose proof (vo_forest _ _ _ _ _ _ Hv) as Hf. unfold table_of in Ht. destruct (pte_in_page t (PX 0 va)) as [Ha Hb]; [by apply Hpx|].
  assert (Hs : same_except (tab_pages tabs) (ram s) (st64 (ram s) (pte_addr t (PX 0 va)) v)).
  { apply (same_one t); [apply in_tab_pages; by eexists|]. by apply same_st64. }
  split; [|exact Hs]. split.
  - eapply kmem_same; [exact Hs|done|done|by eapply forest_aligned| |apply Hv].
    intros p Hp [q Hq]%in_tab_pages. by apply (vo_free _ _ _ _ _ _ Hv q p Hq).
  - destruct Hf as [Hinj Hpg Hpath Hdir Hleaf]. split; [done|done|done| |]; simpl.
    + intros p t' i Hp Hlen Hi. rewrite ld64_other; [by apply Hdir|]. destruct (Hpg _ _ Hp), (Hpg _ _ Ht).
      apply pte_apart; try done; [by apply Hpx|]. intros [= -> _].
      pose proof (Hinj _ _ _ Hp Ht) as ->. simpl in Hlen. lia.
    + intros i2 i1 i0 t' Hp Hi. rewrite <- PX_vpn by done.
      destruct (decide ((t', i0) = (t, PX 0 va))) as [[= -> ->]|Hne].
      * pose proof (Hinj _ _ _ Hp Ht) as [= -> ->]. by rewrite ld64_st64, upd_eq.
      * destruct (Hpg _ _ Hp), (Hpg _ _ Ht). rewrite ld64_other by (apply pte_apart; try done; by apply Hpx).
        rewrite (Hleaf i2 i1 i0) by done. rewrite upd_ne; [done|]. destruct (Hpath [i2] i1 t' Hp) as [? _].
        intros (-> & -> & ->)%vpn_inj; try done; try (by apply Hpx). congruence.
  - apply Hv.
  - intros i2 i1 i0 H2 H1 H0 Hn. rewrite <- PX_vpn by done. rewrite upd_ne; [by apply (vo_none _ _ _ _ _ _ Hv)|].
    intros (-> & -> & ->)%vpn_inj; try done; try (by apply Hpx). congruence.
  - apply Hv.
Qed.
End rep.
