(* ===== verification/VmMap.v ===== *)
(** * VmMap: mapping and unmapping pages

    [mappages] and [uvmunmap] as functions on the leaf entries of a page table,
    and the user address spaces that [uvmalloc] and [uvmdealloc] grow and
    shrink. *)

From stdpp Require Import gmap.
From S2P Require Import Prelude KState SleepLock MemC Kalloc Vm VmRep.

#[local] Opaque memset memmove st64 ld64.

(** ** Mapping a range *)
Definition mk_pte (pa perm : Z) : Z := Z.lor (Z.lor (PA2PTE pa) perm) PTE_V.
Fixpoint map_range (leaf : Z -> Z) (v : Z) (n : nat) (pa perm : Z) : Z -> Z :=
  match n with
  | O => leaf
  | S n' => map_range (upd leaf v (mk_pte pa perm)) (v + 1) n' (pa + PGSIZE) perm
  end.

Lemma map_range_eq leaf v n pa perm j :
  map_range leaf v n pa perm j =
  if (v <=? j) && (j <? v + Z.of_nat n) then mk_pte (pa + (j - v) * PGSIZE) perm else leaf j.
Proof.
  revert leaf v pa. induction n as [|n IH]; intros leaf v pa; cbn [map_range].
  - rewrite Nat2Z.inj_0. cases_cmp.
  - rewrite IH, Nat2Z.inj_succ. destruct (decide (j = v)) as [->|Hne].
    + rewrite upd_eq, Z.sub_diag, Z.mul_0_l, Z.add_0_r. cases_cmp.
    + rewrite upd_ne by done.
      replace (pa + PGSIZE + (j - (v + 1)) * PGSIZE) with (pa + (j - v) * PGSIZE) by ring. cases_cmp.
Qed.

Lemma mk_pte_lor pa perm : mk_pte pa perm = Z.lor (PA2PTE pa) (Z.lor perm PTE_V).
Proof. unfold mk_pte. by rewrite Z.lor_assoc. Qed.

Lemma lor_small a b n : 0 <= n -> 0 <= a < 2 ^ n -> 0 <= b < 2 ^ n -> 0 <= Z.lor a b < 2 ^ n.
Proof.
  intros Hn Ha Hb. assert (0 <= Z.lor a b) by (apply Z.lor_nonneg; lia). split; [done|].
  destruct (decide (Z.lor a b = 0)) as [->|]; [lia|]. apply Z.log2_lt_pow2; [lia|].
  rewrite Z.log2_lor by lia. apply Z.max_lub_lt.
  - destruct (decide (a = 0)) as [->|]; [|apply Z.log2_lt_pow2; lia]. simpl.
    destruct (decide (n = 0)) as [->|]; [|lia]. change (2 ^ 0) with 1 in *. assert (b = 0) by lia. subst. done.
  - destruct (decide (b = 0)) as [->|]; [|apply Z.log2_lt_pow2; lia]. simpl.
    destruct (decide (n = 0)) as [->|]; [|lia]. change (2 ^ 0) with 1 in *. assert (a = 0) by lia. subst. done.
Qed.

Lemma perm_flags perm : 0 <= perm < 1024 -> 0 <= Z.lor perm PTE_V < 1024.
Proof. intros. apply (lor_small perm PTE_V 10); [lia|done|done]. Qed.

Lemma mk_pte_u64 pa perm : frame_ok pa -> 0 <= perm < 1024 -> u64 (mk_pte pa perm) = mk_pte pa perm.
Proof. intros. rewrite mk_pte_lor. apply PTE_u64; [done|]. by apply perm_flags. Qed.

Lemma page_va v : 0 <= v < MAXVA / PGSIZE -> 0 <= v * PGSIZE < MAXVA.
Proof. intros Hv. change MAXVA with (MAXVA / PGSIZE * PGSIZE). unfold PGSIZE in *. lia. Qed.

Lemma next_page v : 0 <= v < MAXVA / PGSIZE -> u64 (v * PGSIZE + PGSIZE) = (v + 1) * PGSIZE.
Proof.
  intros Hv%page_va. assert (MAXVA < 2 ^ 63) by done. unfold u64, PGSIZE in *. rewrite Z.mod_small; lia.
Qed.

Section map.
Context (kend : Z) (Hkend : 0 < kend).

(** Everything a call that only maps or unmaps leaves behind. *)
Definition vm_post (s : kmem) (fs : list Z) (root : Z) (tabs : tables) (s' : kmem)
    (fs' : list Z) (tabs' : tables) (leaf' : Z -> Z) : Prop :=
  vm_ok kend s' fs' root tabs' leaf' ∧ tabs ⊆ tabs' ∧ accounted fs tabs fs' tabs'
  ∧ same_except (tab_pages tabs') (ram s) (ram s').

Lemma vm_post_refl s fs root tabs leaf : vm_ok kend s fs root tabs leaf -> vm_post s fs root tabs s fs tabs leaf.
Proof. intros. split_and!; [done|reflexivity|by unfold accounted|apply same_refl]. Qed.
Lemma vm_post_trans s1 fs1 root tabs1 s2 fs2 tabs2 leaf2 s3 fs3 tabs3 leaf3 :
  vm_post s1 fs1 root tabs1 s2 fs2 tabs2 leaf2 -> vm_post s2 fs2 root tabs2 s3 fs3 tabs3 leaf3 ->
  vm_post s1 fs1 root tabs1 s3 fs3 tabs3 leaf3.
Proof.
  intros (_ & Hs & Ha & Hm) (Hv & Hs' & Ha' & Hm'). split_and!; [done|by etrans| |].
  - unfold accounted in *. by rewrite Ha'.
  - eapply same_trans; [|exact Hm']. eapply same_mono, Hm. by apply tab_pages_mono.
Qed.

(** One iteration of [mappages]: the walk, then the store. *)
Lemma map_one s fs root tabs leaf a pa perm :
  vm_ok kend s fs root tabs leaf -> 0 <= a < MAXVA -> has PTE_V (leaf (a / PGSIZE)) = false ->
  frame_ok pa -> 0 <= perm < 1024 ->
  exists r s1 fs' tabs', walk root a true s = Ok r s1
  ∧ (r = 0 ∧ fs' = [] ∧ (length fs <= 1)%nat ∧ vm_post s fs root tabs s1 fs' tabs' leaf
     ∨ (length fs <= 2 + length fs')%nat ∧ r ≠ 0 ∧ ld64 (ram s1) r = leaf (a / PGSIZE)
       ∧ exists s', store r (mk_pte pa perm) s1 = Ok tt s'
         ∧ vm_post s fs root tabs s' fs' tabs' (upd leaf (a / PGSIZE) (mk_pte pa perm))).
Proof using Hkend.
  intros Hv Ha Hn Hpa Hperm.
  destruct (walk_alloc kend Hkend s fs root tabs leaf a Hv ltac:(lia)) as (r & s1 & fs' & tabs' & Hw & Hv1 & Hsub & Hac & Hsame & Hr).
  exists r, s1, fs', tabs'. split; [done|]. destruct Hr as [(-> & -> & Hc)|([t Ht] & -> & Hc)]; [left; by split_and!|right]. split; [done|].
  destruct (entry_load kend Hkend s1 fs' root tabs' leaf a t Hv1 Ha Ht) as [Hld Hne]. split; [done|]. split; [done|].
  destruct (set_leaf kend Hkend s1 fs' root tabs' leaf a t (mk_pte pa perm) Hv1 Ha Ht) as (s' & Hst & Hv2 & Hs2);
    [by apply mk_pte_u64|].
  exists s'. split; [done|]. split_and!; [done|done|done|]. by eapply same_trans.
Qed.

Lemma mappages_loop_ok n : forall k s fs root tabs leaf v pa perm,
  (n < k)%nat -> vm_ok kend s fs root tabs leaf -> 0 <= v -> (v + Z.of_nat n) * PGSIZE < MAXVA ->
  (forall j, v <= j <= v + Z.of_nat n -> has PTE_V (leaf j) = false) ->
  frame_ok pa -> pa + Z.of_nat n * PGSIZE < 2 ^ 56 -> 0 <= perm < 1024 ->
  exists r s' fs' tabs' d,
    mappages_loop k root (v * PGSIZE) ((v + Z.of_nat n) * PGSIZE) pa perm s = Ok r s'
    ∧ vm_post s fs root tabs s' fs' tabs' (map_range leaf v d pa perm)
    ∧ (r = 0 ∧ d = S n ∧ (length fs <= 2 * S n + length fs')%nat
       ∨ r = -1 ∧ (d <= n)%nat ∧ fs' = [] ∧ (length fs < 2 * S n)%nat).
Proof using Hkend.
  induction n as [|n IH]; intros [|k] s fs root tabs leaf v pa perm Hk Hv Hv0 Hmax Hnone Hpa Htop Hperm; try lia; cbn [mappages_loop].
  all: assert (Ha : 0 <= v * PGSIZE < MAXVA) by (unfold PGSIZE in *; lia).
  all: assert (Hdiv : v * PGSIZE / PGSIZE = v) by (apply Z.div_mul; done).
  all: destruct (map_one s fs root tabs leaf (v * PGSIZE) pa perm Hv Ha) as (r & s1 & fs1 & tabs1 & Hw & Hcase);
    [rewrite Hdiv; apply Hnone; lia|done|done|].
  all: rewrite Hdiv in Hcase; rewrite (bind_Ok _ _ _ _ _ Hw).
  all: destruct Hcase as [(-> & -> & Hc & Hpost)|(Hc & Hr & Hld & s2 & Hst & Hpost)];
    [exists (-1), s1, [], tabs1, 0%nat; split; [done|]; split; [done|right; split_and!; [done|lia|done|lia]]|].
  all: assert ((r =? 0) = false) as -> by lia.
  all: rewrite (bind_Ok (load r) _ s1 _ s1 eq_refl), Hld, Hnone by lia.
  all: change (Z.lor (Z.lor (PA2PTE pa) perm) PTE_V) with (mk_pte pa perm); rewrite (bind_Ok _ _ _ _ _ Hst).
  - rewrite Z.add_0_r, Z.eqb_refl. exists 0, s2, fs1, tabs1, 1%nat. split; [done|]. split; [done|]. left. split_and!; [done|done|lia].
  - assert ((v * PGSIZE =? (v + Z.of_nat (S n)) * PGSIZE) = false) as -> by (apply Z.eqb_neq; unfold PGSIZE; lia).
    assert (Hmx : MAXVA < 2 ^ 64) by done.
    assert (u64 (v * PGSIZE + PGSIZE) = (v + 1) * PGSIZE) as ->.
    { unfold u64, PGSIZE in *. rewrite Z.mod_small; lia. }
    assert (u64 (pa + PGSIZE) = pa + PGSIZE) as ->.
    { destruct Hpa. unfold u64, PGSIZE in *. rewrite Z.mod_small; lia. }
    replace (v + Z.of_nat (S n)) with ((v + 1) + Z.of_nat n) by lia.
    destruct (IH k s2 fs1 root tabs1 (upd leaf v (mk_pte pa perm)) (v + 1) (pa + PGSIZE) perm)
      as (r' & s3 & fs3 & tabs3 & d & Hrun & Hpost3 & Hr3); try done; try lia.
    + apply Hpost.
    + intros j Hj. rewrite upd_ne by lia. apply Hnone. lia.
    + destruct Hpa as [Hal ?]. unfold frame_ok, PGSIZE in *. split; [|lia]. Z.div_mod_to_equations. lia.
    + exists r', s3, fs3, tabs3, (S d). split; [done|]. split; [by eapply vm_post_trans|].
      destruct Hr3 as [(-> & -> & ?)|(-> & ? & -> & ?)]; [left; split_and!; [done|done|lia]|right; split_and!; [done|lia|done|lia]].
Qed.

(** [mappages] on the pages that [[va, va + size)] touches. *)
Lemma mappages_ok fuel s fs root tabs leaf va size pa perm :
  let v := va / PGSIZE in let n := Z.to_nat ((va + size - 1) / PGSIZE - v) in
  (n < fuel)%nat -> vm_ok kend s fs root tabs leaf -> 0 <= va -> 0 < size -> va + size <= MAXVA ->
  (forall j, v <= j <= v + Z.of_nat n -> has PTE_V (leaf j) = false) ->
  frame_ok pa -> pa + Z.of_nat n * PGSIZE < 2 ^ 56 -> 0 <= perm < 1024 ->
  exists r s' fs' tabs' d, mappages fuel root va size pa perm s = Ok r s'
    ∧ vm_post s fs root tabs s' fs' tabs' (map_range leaf v d pa perm)
    ∧ (r = 0 ∧ d = S n ∧ (length fs <= 2 * S n + length fs')%nat
       ∨ r = -1 ∧ (d <= n)%nat ∧ fs' = [] ∧ (length fs < 2 * S n)%nat).
Proof using Hkend.
  intros v n Hf Hv Hva Hsz Hmax Hnone Hpa Htop Hperm. unfold mappages.
  assert ((size =? 0) = false) as -> by lia. rewrite !PGROUNDDOWN_eq.
  assert (Hmx : MAXVA < 2 ^ 64) by done. unfold u64. rewrite (Z.mod_small (va + size - 1)) by lia. fold v.
  assert (Hle : v <= (va + size - 1) / PGSIZE) by (apply Z.div_le_mono; unfold PGSIZE; lia).
  replace ((va + size - 1) / PGSIZE) with (v + Z.of_nat n) by (unfold n; lia).
  apply mappages_loop_ok; try done.
  - apply Z.div_pos; [lia|done].
  - unfold n. rewrite Z2Nat.id by lia. unfold v, PGSIZE in *. Z.div_mod_to_equations. lia.
Qed.

(** One page, as almost every caller uses it. *)
Lemma mappages_page fuel s fs root tabs leaf v pa perm :
  (0 < fuel)%nat -> vm_ok kend s fs root tabs leaf -> 0 <= v < MAXVA / PGSIZE ->
  has PTE_V (leaf v) = false -> frame_ok pa -> 0 <= perm < 1024 ->
  exists r s' fs' tabs', mappages fuel root (v * PGSIZE) PGSIZE pa perm s = Ok r s'
    ∧ (r = 0 ∧ (length fs <= 2 + length fs')%nat ∧ vm_post s fs root tabs s' fs' tabs' (upd leaf v (mk_pte pa perm))
       ∨ r = -1 ∧ fs' = [] ∧ (length fs <= 1)%nat ∧ vm_post s fs root tabs s' fs' tabs' leaf).
Proof using Hkend.
  intros Hf Hv Hrange Hnone Hpa Hperm.
  assert (H1 : v * PGSIZE / PGSIZE = v) by by apply Z.div_mul.
  assert (H2 : (v * PGSIZE + PGSIZE - 1) / PGSIZE = v) by (unfold PGSIZE; Z.div_mod_to_equations; lia).
  assert (HM : MAXVA = MAXVA / PGSIZE * PGSIZE) by done.
  pose proof (mappages_ok fuel s fs root tabs leaf (v * PGSIZE) PGSIZE pa perm) as H. cbv zeta in H.
  rewrite H1, H2, Z.sub_diag in H. change (Z.to_nat 0) with 0%nat in H.
  destruct H as (r & s' & fs' & tabs' & d & Hrun & Hpost & Hr); try done.
  - unfold PGSIZE in *. lia.
  - rewrite HM. unfold PGSIZE in *. lia.
  - intros j Hj. by replace j with v by lia.
  - destruct Hpa. lia.
  - exists r, s', fs', tabs'. split; [done|]. destruct Hr as [(-> & -> & ?)|(-> & ? & -> & ?)]; [left|right].
    + by split_and!.
    + assert (d = 0%nat) as -> by lia. split_and!; [done|done|lia|done].
Qed.

(** ** Unmapping *)
Fixpoint clear_range (leaf : Z -> Z) (v : Z) (n : nat) : Z -> Z :=
  match n with
  | O => leaf
  | S n' => clear_range (upd leaf v 0) (v + 1) n'
  end.
Lemma clear_range_eq leaf v n j :
  clear_range leaf v n j = if (v <=? j) && (j <? v + Z.of_nat n) then 0 else leaf j.
Proof.
  revert leaf v. induction n as [|n IH]; intros leaf v; cbn [clear_range].
  - rewrite Nat2Z.inj_0. cases_cmp.
  - rewrite IH, Nat2Z.inj_succ. destruct (decide (j = v)) as [->|Hne]; [rewrite upd_eq|rewrite upd_ne by done]; cases_cmp.
Qed.

(** The flags of a leaf entry. *)
Definition leaf_flags (f : Z) : Prop := 0 <= f < 1024 ∧ Z.land f PTE_V ≠ 0 ∧ f ≠ PTE_V.
Definition maps (leaf : Z -> Z) (v u : Z) : Prop := exists f, leaf_flags f ∧ leaf v = Z.lor (PA2PTE u) f.

Lemma maps_entry leaf v u : frame_ok u -> maps leaf v u ->
  PTE2PA (leaf v) = u ∧ (Z.land (leaf v) PTE_V =? 0) = false ∧ (PTE_FLAGS (leaf v) =? PTE_V) = false.
Proof.
  intros Hu (f & (Hf & HV & Hne) & ->). rewrite PTE2PA_PTE, PTE_FLAGS_PTE, PTE_low by (done || split; done).
  split_and!; [done|lia|lia].
Qed.

Lemma maps_table s fs root tabs leaf v u :
  vm_ok kend s fs root tabs leaf -> 0 <= v < MAXVA / PGSIZE -> frame_ok u -> maps leaf v u ->
  exists t, table_of tabs (v * PGSIZE) = Some t.
Proof.
  intros Hv Hr Hu Hm. destruct (table_of tabs (v * PGSIZE)) as [t|] eqn:Ht; [by exists t|].
  pose proof (page_va v Hr) as Hva.
  destruct (entry_none kend s fs root tabs leaf _ Hv Hva Ht) as [H0 _].
  rewrite Z.div_mul in H0 by done. destruct (maps_entry leaf v u Hu Hm) as (_ & H1 & _). by rewrite H0 in H1.
Qed.

(** One iteration of [uvmunmap], up to the free. *)
Lemma unmap_walk s fs root tabs leaf v u :
  vm_ok kend s fs root tabs leaf -> 0 <= v < MAXVA / PGSIZE -> frame_ok u -> maps leaf v u ->
  walk root (v * PGSIZE) false s = Ok (entry_of tabs (v * PGSIZE)) s
  ∧ (entry_of tabs (v * PGSIZE) =? 0) = false
  ∧ ld64 (ram s) (entry_of tabs (v * PGSIZE)) = leaf v.
Proof using Hkend.
  intros Hv Hr Hu Hm. destruct (maps_table s fs root tabs leaf v u Hv Hr Hu Hm) as [t Ht].
  pose proof (page_va v Hr) as Hva.
  destruct (entry_load kend Hkend s fs root tabs leaf _ t Hv Hva Ht) as [H1 H2]. rewrite Z.div_mul in H1 by done.
  split; [by eapply walk_lookup; [done|done|lia]|]. split; [lia|done].
Qed.

Lemma unmap_store s fs root tabs leaf v u :
  vm_ok kend s fs root tabs leaf -> 0 <= v < MAXVA / PGSIZE -> frame_ok u -> maps leaf v u ->
  exists s', store (entry_of tabs (v * PGSIZE)) 0 s = Ok tt s'
    ∧ vm_ok kend s' fs root tabs (upd leaf v 0) ∧ same_except (tab_pages tabs) (ram s) (ram s').
Proof using Hkend.
  intros Hv Hr Hu Hm. destruct (maps_table s fs root tabs leaf v u Hv Hr Hu Hm) as [t Ht].
  pose proof (page_va v Hr) as Hva.
  destruct (set_leaf kend Hkend s fs root tabs leaf (v * PGSIZE) t 0 Hv Hva Ht) as (s' & H1 & H2 & H3); [done|].
  rewrite Z.div_mul in H2 by done. by exists s'.
Qed.

Lemma vm_kfree s fs root tabs leaf u :
  vm_ok kend s fs root tabs leaf -> page_ok kend u -> u ∉ fs -> u ∉ tab_pages tabs ->
  exists s', kfree kend u s = Ok tt s' ∧ vm_ok kend s' (u :: fs) root tabs leaf ∧ same_except [u] (ram s) (ram s').
Proof using Hkend.
  intros Hv Hu Hfs Htabs. destruct (kfree_ok kend Hkend s fs u (vo_kmem _ _ _ _ _ _ Hv) Hu Hfs) as (s' & H1 & H2 & H3).
  exists s'. split; [done|]. split; [|done].
  assert (Hne : forall p t, tabs !! p = Some t -> t ∉ [u]).
  { intros p t Hp ->%list_elem_of_singleton. apply Htabs, in_tab_pages. by exists p. }
  split; [done| |apply Hv|apply Hv|].
  - eapply forest_same; [exact H3| |exact Hne|apply Hv]. constructor; [apply Hu|done].
  - intros p t Hp [-> | Hin]%elem_of_cons; [eapply Hne; [exact Hp|left]|]. by eapply (vo_free _ _ _ _ _ _ Hv).
Qed.

Lemma uvmunmap_loop_free ups : forall k s fs root tabs leaf v,
  (length ups < k)%nat -> vm_ok kend s fs root tabs leaf -> 0 <= v -> v + Z.of_nat (length ups) <= MAXVA / PGSIZE ->
  NoDup ups -> Forall (page_ok kend) ups -> (forall u, u ∈ ups -> (u ∉ fs) ∧ (u ∉ tab_pages tabs)) ->
  (forall j u, ups !! j = Some u -> maps leaf (v + Z.of_nat j) u) ->
  exists s', uvmunmap_loop kend k root (v * PGSIZE) ((v + Z.of_nat (length ups)) * PGSIZE) true s = Ok tt s'
    ∧ vm_ok kend s' (reverse ups ++ fs) root tabs (clear_range leaf v (length ups))
    ∧ same_except (ups ++ tab_pages tabs) (ram s) (ram s').
Proof using Hkend.
  induction ups as [|u ups IH]; intros [|k] s fs root tabs leaf v Hk Hv Hv0 Hmax Hnd Hpg Hap Hm; simpl in Hk; try lia; cbn [uvmunmap_loop].
  { simpl length. rewrite Z.add_0_r, Z.ltb_irrefl. exists s. split; [done|]. split; [done|apply same_refl]. }
  apply NoDup_cons in Hnd as [Hnin Hnd]. apply Forall_cons in Hpg as [Hu Hpg]. cbn [length] in *. rewrite Nat2Z.inj_succ in *.
  assert (Hr : 0 <= v < MAXVA / PGSIZE) by lia.
  pose proof (page_frame kend u Hkend Hu) as Hfr. pose proof (Hm 0%nat u eq_refl) as Hm0. simpl in Hm0. rewrite Z.add_0_r in Hm0.
  destruct (unmap_walk s fs root tabs leaf v u Hv Hr Hfr Hm0) as (Hw & He & Hld).
  assert (negb (v * PGSIZE <? (v + Z.succ (Z.of_nat (length ups))) * PGSIZE) = false) as ->.
  { apply negb_false_iff, Z.ltb_lt. unfold PGSIZE. lia. }
  rewrite (bind_Ok _ _ _ _ _ Hw), He, (bind_Ok (load _) _ s _ s eq_refl), Hld.
  destruct (maps_entry leaf v u Hfr Hm0) as (-> & -> & ->). destruct (Hap u) as [Hufs Hut]; [left|].
  destruct (vm_kfree s fs root tabs leaf u Hv Hu Hufs Hut) as (s1 & Hk1 & Hv1 & Hs1). rewrite (bind_Ok (when true _) _ _ _ _ Hk1).
  destruct (unmap_store s1 _ root tabs leaf v u Hv1 Hr Hfr Hm0) as (s2 & Hst & Hv2 & Hs2). rewrite (bind_Ok _ _ _ _ _ Hst).
  rewrite next_page by done. replace (v + Z.succ (Z.of_nat (length ups))) with (v + 1 + Z.of_nat (length ups)) by lia.
  destruct (IH k s2 (u :: fs) root tabs (upd leaf v 0) (v + 1)) as (s3 & Hrun & Hv3 & Hs3); try done; try lia.
  - intros x Hx. destruct (Hap x) as [Hx1 Hx2]; [by right|]. split; [|done]. intros [-> | ?]%elem_of_cons; done.
  - intros j x Hj. pose proof (Hm (S j) x Hj) as (f & Hf & E). exists f. split; [done|].
    rewrite upd_ne by lia. rewrite <- E. f_equal. lia.
  - exists s3. split; [exact Hrun|]. split.
    + rewrite reverse_cons, <- app_assoc. exact Hv3.
    + eapply same_trans; [apply (same_one u), Hs1; left|].
      eapply same_trans; [eapply same_mono, Hs2; intros x ?; apply elem_of_app; by right|].
      eapply same_mono, Hs3. by intros x ?; right.
Qed.

Lemma uvmunmap_loop_keep us : forall k s fs root tabs leaf v,
  (length us < k)%nat -> vm_ok kend s fs root tabs leaf -> 0 <= v -> v + Z.of_nat (length us) <= MAXVA / PGSIZE ->
  Forall frame_ok us -> (forall j u, us !! j = Some u -> maps leaf (v + Z.of_nat j) u) ->
  exists s', uvmunmap_loop kend k root (v * PGSIZE) ((v + Z.of_nat (length us)) * PGSIZE) false s = Ok tt s'
    ∧ vm_ok kend s' fs root tabs (clear_range leaf v (length us))
    ∧ same_except (tab_pages tabs) (ram s) (ram s').
Proof using Hkend.
  induction us as [|u us IH]; intros [|k] s fs root tabs leaf v Hk Hv Hv0 Hmax Hpg Hm; simpl in Hk; try lia; cbn [uvmunmap_loop].
  { simpl length. rewrite Z.add_0_r, Z.ltb_irrefl. exists s. split; [done|]. split; [done|apply same_refl]. }
  apply Forall_cons in Hpg as [Hfr Hpg]. cbn [length] in *. rewrite Nat2Z.inj_succ in *.
  assert (Hr : 0 <= v < MAXVA / PGSIZE) by lia.
  pose proof (Hm 0%nat u eq_refl) as Hm0. simpl in Hm0. rewrite Z.add_0_r in Hm0.
  destruct (unmap_walk s fs root tabs leaf v u Hv Hr Hfr Hm0) as (Hw & He & Hld).
  assert (negb (v * PGSIZE <? (v + Z.succ (Z.of_nat (length us))) * PGSIZE) = false) as ->.
  { apply negb_false_iff, Z.ltb_lt. unfold PGSIZE. lia. }
  rewrite (bind_Ok _ _ _ _ _ Hw), He, (bind_Ok (load _) _ s _ s eq_refl), Hld.
  destruct (maps_entry leaf v u Hfr Hm0) as (-> & -> & ->).
  rewrite (bind_Ok (when false _) _ s tt s eq_refl).
  destruct (unmap_store s _ root tabs leaf v u Hv Hr Hfr Hm0) as (s2 & Hst & Hv2 & Hs2). rewrite (bind_Ok _ _ _ _ _ Hst).
  rewrite next_page by done. replace (v + Z.succ (Z.of_nat (length us))) with (v + 1 + Z.of_nat (length us)) by lia.
  destruct (IH k s2 fs root tabs (upd leaf v 0) (v + 1)) as (s3 & Hrun & Hv3 & Hs3); try done; try lia.
  - intros j x Hj. pose proof (Hm (S j) x Hj) as (f & Hf & E). exists f. split; [done|].
    rewrite upd_ne by lia. rewrite <- E. f_equal. lia.
  - exists s3. split; [exact Hrun|]. split; [exact Hv3|]. by eapply same_trans.
Qed.
End map.
