(* ===== verification/VmUser.v ===== *)
(** * VmUser: user address spaces

    A user address space is a list of physical pages mapped from virtual address
    0 up.  [uvmalloc] appends zeroed pages, [uvmdealloc] removes pages from the
    end and returns them to the allocator, [uvmcopy] duplicates the space page by
    page. *)

From stdpp Require Import gmap.
From S2P Require Import Prelude KState SleepLock MemC Kalloc Vm VmRep VmMap.

#[local] Opaque memset memmove st64 ld64.

(** The first virtual page a process does not grow into. *)
Definition user_top : Z := TRAPFRAME / PGSIZE.

Record uspace (kend : Z) (s : kmem) (fs : list Z) (root : Z) (tabs : tables) (leaf : Z -> Z) (ups : list Z) : Prop := {
  us_vm : vm_ok kend s fs root tabs leaf;
  us_maps : forall j u, ups !! j = Some u -> maps leaf (Z.of_nat j) u;
  us_unmapped : forall v, Z.of_nat (length ups) <= v < user_top -> leaf v = 0;
  us_size : Z.of_nat (length ups) <= user_top;
  us_pages : Forall (page_ok kend) ups;
  us_nodup : NoDup (ups ++ fs ++ tab_pages tabs)
}.

Definition npages (sz : Z) : nat := Z.to_nat (PGROUNDUP sz / PGSIZE).

Lemma PGROUNDUP_npages sz : 0 <= sz <= MAXVA -> PGROUNDUP sz = Z.of_nat (npages sz) * PGSIZE.
Proof.
  intros Hsz. unfold npages. assert (MAXVA < 2 ^ 63) by done. rewrite PGROUNDUP_eq by lia.
  rewrite Z.div_mul by done. rewrite Z2Nat.id; [done|]. apply Z.div_pos; unfold PGSIZE; lia.
Qed.
Lemma npages_le sz n : 0 <= sz -> sz <= n * PGSIZE -> n * PGSIZE <= MAXVA -> Z.of_nat (npages sz) <= n.
Proof.
  intros H0 H1 H2. unfold npages. assert (MAXVA < 2 ^ 63) by done. rewrite PGROUNDUP_eq by lia.
  rewrite Z.div_mul by done. unfold PGSIZE in *. Z.div_mod_to_equations. lia.
Qed.
Lemma npages_page n : 0 <= n * PGSIZE <= MAXVA -> npages (n * PGSIZE) = Z.to_nat n.
Proof.
  intros Hn. unfold npages. assert (MAXVA < 2 ^ 63) by done. rewrite PGROUNDUP_eq by lia.
  rewrite Z.div_mul by done. f_equal. unfold PGSIZE in *. Z.div_mod_to_equations. lia.
Qed.
Lemma npages_lt sz n : 0 <= sz <= MAXVA -> n * PGSIZE < sz <-> n < Z.of_nat (npages sz).
Proof.
  intros H0. unfold npages. assert (MAXVA < 2 ^ 63) by done. rewrite PGROUNDUP_eq by lia.
  rewrite Z.div_mul by done. unfold PGSIZE in *. Z.div_mod_to_equations. lia.
Qed.

Lemma user_top_le : user_top <= MAXVA / PGSIZE.
Proof. done. Qed.

Section user.
Context (kend : Z) (Hkend : 0 < kend) (fuel : nat).

Lemma us_apart s fs root tabs leaf ups u :
  uspace kend s fs root tabs leaf ups -> u ∈ ups -> (u ∉ fs) ∧ (u ∉ tab_pages tabs).
Proof.
  intros Hu Hin. pose proof (us_nodup _ _ _ _ _ _ _ Hu) as Hn.
  apply NoDup_app in Hn as (_ & Hn & _). specialize (Hn u Hin). rewrite elem_of_app in Hn. tauto.
Qed.

(** ** Shrinking *)
Lemma uspace_cut s fs root tabs leaf ups n :
  (n <= length ups)%nat -> (length ups - n < fuel)%nat -> uspace kend s fs root tabs leaf ups ->
  exists s', uvmunmap kend fuel root (Z.of_nat n * PGSIZE) (Z.of_nat (length ups - n)) true s = Ok tt s'
    ∧ uspace kend s' (reverse (drop n ups) ++ fs) root tabs (clear_range leaf (Z.of_nat n) (length ups - n)) (take n ups)
    ∧ same_except (drop n ups ++ tab_pages tabs) (ram s) (ram s').
Proof using Hkend.
  intros Hn Hf Hu. pose proof user_top_le as Htop. pose proof (us_size _ _ _ _ _ _ _ Hu) as Hsz.
  pose proof (us_nodup _ _ _ _ _ _ _ Hu) as Hnd. pose proof (us_pages _ _ _ _ _ _ _ Hu) as Hpg.
  rewrite <- (take_drop n ups) in Hnd, Hpg. rewrite <- app_assoc in Hnd.
  apply NoDup_app in Hnd as (Hnd1 & Hnd2 & Hnd3). pose proof Hnd3 as (Hnd4 & _)%NoDup_app. apply Forall_app in Hpg as [Hpg1 Hpg2].
  assert (Hlen : length (drop n ups) = (length ups - n)%nat) by by rewrite length_drop.
  destruct (uvmunmap_loop_free kend Hkend (drop n ups) fuel s fs root tabs leaf (Z.of_nat n)) as (s' & Hrun & Hv & Hs);
    try done; try lia; try apply Hu.
  { intros u Hin. apply (us_apart s fs root tabs leaf ups u Hu). rewrite <- (take_drop n ups). apply elem_of_app. by right. }
  { intros j u Hj. rewrite lookup_drop in Hj. apply (us_maps _ _ _ _ _ _ _ Hu) in Hj. by rewrite Nat2Z.inj_add in Hj. }
  rewrite Hlen in *. exists s'. split; [|split; [|done]].
  - unfold uvmunmap. rewrite Z.mod_mul by done. simpl negb. cbv iota.
    assert (u64 (Z.of_nat n * PGSIZE + Z.of_nat (length ups - n) * PGSIZE) = (Z.of_nat n + Z.of_nat (length ups - n)) * PGSIZE) as ->; [|done].
    rewrite <- Z.mul_add_distr_r. assert (MAXVA / PGSIZE * PGSIZE < 2 ^ 64) by done. unfold u64. rewrite Z.mod_small; [done|].
    unfold PGSIZE in *. lia.
  - split; [done| | | |done|].
    + intros j u [Hj Hlt]%lookup_take_Some. destruct (us_maps _ _ _ _ _ _ _ Hu j u Hj) as (f & Hfl & E).
      exists f. split; [done|]. rewrite clear_range_eq, E. cases_cmp.
    + intros v Hv'. rewrite length_take in Hv'. rewrite clear_range_eq.
      destruct (decide (v < Z.of_nat (length ups))); [cases_cmp|]. rewrite (us_unmapped _ _ _ _ _ _ _ Hu) by lia. cases_cmp.
    + rewrite length_take. lia.
    + apply NoDup_app. split; [done|]. rewrite <- app_assoc. setoid_rewrite reverse_Permutation. done.
Qed.

Lemma npages_mono a b : 0 <= a <= b -> b <= MAXVA -> (npages a <= npages b)%nat.
Proof.
  intros. apply Nat2Z.inj_le. apply npages_le; [lia| |].
  - rewrite <- PGROUNDUP_npages by lia. assert (MAXVA < 2 ^ 63) by done. rewrite PGROUNDUP_eq by lia. unfold PGSIZE.
    Z.div_mod_to_equations. lia.
  - rewrite <- PGROUNDUP_npages by lia. assert (MAXVA < 2 ^ 63) by done. rewrite PGROUNDUP_eq by lia.
    assert (MAXVA mod PGSIZE = 0) by done. unfold PGSIZE in *. Z.div_mod_to_equations. lia.
Qed.

Lemma uvmdealloc_ok s fs root tabs leaf ups oldsz newsz :
  0 <= newsz -> 0 <= oldsz <= TRAPFRAME -> length ups = npages oldsz -> (length ups < fuel)%nat ->
  uspace kend s fs root tabs leaf ups ->
  let n := npages (Z.min oldsz newsz) in
  exists s', uvmdealloc kend fuel root oldsz newsz s = Ok (Z.min oldsz newsz) s'
    ∧ uspace kend s' (reverse (drop n ups) ++ fs) root tabs (clear_range leaf (Z.of_nat n) (length ups - n)) (take n ups)
    ∧ same_except (drop n ups ++ tab_pages tabs) (ram s) (ram s').
Proof using Hkend.
  intros Hnew Hold Hlen Hf Hu n. unfold uvmdealloc. assert (HT : TRAPFRAME <= MAXVA) by done.
  destruct (Z.leb_spec oldsz newsz) as [Hle|Hlt].
  { unfold n. rewrite Z.min_l by done. rewrite <- Hlen, drop_all, take_ge, Nat.sub_diag by done.
    exists s. split; [done|]. split; [done|apply same_refl]. }
  unfold n in *. rewrite Z.min_r by lia. clear n. set (n := npages newsz).
  assert (Hn : (n <= length ups)%nat) by (rewrite Hlen; apply npages_mono; lia).
  rewrite !PGROUNDUP_npages by lia. rewrite <- Hlen. fold n.
  assert (Hq : (Z.of_nat (length ups) * PGSIZE - Z.of_nat n * PGSIZE) / PGSIZE = Z.of_nat (length ups - n)).
  { rewrite <- Z.mul_sub_distr_r, Z.div_mul by done. lia. } rewrite Hq.
  assert (u64 (i32 (Z.of_nat (length ups - n))) = Z.of_nat (length ups - n)) as ->.
  { pose proof (us_size _ _ _ _ _ _ _ Hu). assert (user_top < 2 ^ 31) by done. unfold u64, i32.
    rewrite (Z.mod_small (_ + _)) by lia. rewrite Z.mod_small; lia. }
  destruct (uspace_cut s fs root tabs leaf ups n Hn ltac:(lia) Hu) as (s' & Hrun & Hu' & Hs).
  destruct (Z.ltb_spec (Z.of_nat n * PGSIZE) (Z.of_nat (length ups) * PGSIZE)) as [Hc|Hc].
  - exists s'. split; [|done]. by rewrite (bind_Ok (when true _) _ _ _ _ Hrun).
  - assert (n = length ups) as -> by (unfold PGSIZE in *; lia).
    rewrite drop_all, take_ge, Nat.sub_diag by done. exists s. split; [done|]. split; [done|apply same_refl].
Qed.

(** ** Growing *)
Lemma uspace_same s s' fs root tabs leaf ups ps :
  same_except ps (ram s) (ram s') -> km_lock s' = km_lock s -> freelist s' = freelist s ->
  Forall (fun p => p mod PGSIZE = 0) ps -> (forall p, p ∈ fs ++ tab_pages tabs -> p ∉ ps) ->
  uspace kend s fs root tabs leaf ups -> uspace kend s' fs root tabs leaf ups.
Proof.
  intros Hs Hl Hfl Hal Hd [Hv H2 H3 H4 H5 H6]. split; try done. destruct Hv as [Hk Hfo Hr Hn Hfr]. split; try done.
  - eapply kmem_same; try done. intros p Hp. apply Hd, elem_of_app. by left.
  - eapply forest_same; try done. intros p t Hp. apply Hd, elem_of_app. right. apply in_tab_pages. by exists p.
Qed.

Lemma uspace_kalloc s q fs root tabs leaf ups :
  uspace kend s (q :: fs) root tabs leaf ups ->
  exists s', kalloc s = Ok q s' ∧ uspace kend s' fs root tabs leaf ups ∧ page_ok kend q
    ∧ (q ∉ ups ++ fs ++ tab_pages tabs) ∧ same_except [q] (ram s) (ram s').
Proof using Hkend.
  intros Hu. pose proof Hu as [Hv H2 H3 H4 H5 H6].
  destruct (kalloc_ok kend Hkend s q fs (vo_kmem _ _ _ _ _ _ Hv)) as (s' & H1 & Hok & Hq & Hnin & Hs & _).
  assert (Hp : ups ++ (q :: fs) ++ tab_pages tabs ≡ₚ q :: ups ++ fs ++ tab_pages tabs).
  { simpl. by rewrite <- Permutation_middle. } rewrite Hp in H6. apply NoDup_cons in H6 as [Hq' H6].
  exists s'. split_and!; try done. split; try done. destruct Hv as [Hk Hfo Hr Hn Hfr]. split; try done.
  - eapply forest_same; try done; [constructor; [apply Hq|done]|].
    intros p t Ht ->%list_elem_of_singleton. apply (Hfr p q Ht). left.
  - intros p t Ht Hin. apply (Hfr p t Ht). by right.
Qed.

Lemma accounted_in fs tabs fs' tabs' : accounted fs tabs fs' tabs' -> tab_pages tabs' ⊆ fs ++ tab_pages tabs.
Proof. intros Ha x Hx. rewrite <- Ha. apply elem_of_app. by right. Qed.

(** A prepared page [q] is mapped at the end of the space. *)
Lemma uspace_grow s fs root tabs leaf ups q perm :
  (0 < fuel)%nat -> uspace kend s fs root tabs leaf ups -> Z.of_nat (length ups) < user_top ->
  page_ok kend q -> q ∉ ups ++ fs ++ tab_pages tabs -> 0 <= perm < 1024 -> leaf_flags (Z.lor perm PTE_V) ->
  exists r s' fs' tabs', mappages fuel root (Z.of_nat (length ups) * PGSIZE) PGSIZE q perm s = Ok r s'
    ∧ same_except (tab_pages tabs') (ram s) (ram s') ∧ accounted fs tabs fs' tabs' ∧ tabs ⊆ tabs'
    ∧ (r = 0 ∧ (length fs <= 2 + length fs')%nat
         ∧ uspace kend s' fs' root tabs' (upd leaf (Z.of_nat (length ups)) (mk_pte q perm)) (ups ++ [q])
       ∨ r = -1 ∧ fs' = [] ∧ (length fs <= 1)%nat ∧ uspace kend s' fs' root tabs' leaf ups).
Proof using Hkend.
  intros Hf [Hv H2 H3 H4 H5 H6] Hlt Hq Hqn Hperm Hfl. pose proof user_top_le.
  destruct (mappages_page kend Hkend fuel s fs root tabs leaf (Z.of_nat (length ups)) q perm) as (r & s' & fs' & tabs' & Hrun & Hcase);
    try done; [lia|by rewrite H3 by lia|by apply (page_frame kend)|].
  exists r, s', fs', tabs'. split; [done|].
  destruct Hcase as [(-> & Hc & Hv' & Hsub & Hac & Hs)|(-> & -> & Hc & Hv' & Hsub & Hac & Hs)]; split; [done| |done|];
    (split; [done|]); (split; [done|]); [left|right]; split; [done|split; [done|]|done|].
  2:{ split; [done|]. split; [done|]. split; try done. unfold accounted in Hac. by rewrite Hac. }
  split; [done| | | | |].
  - intros j u [Hj|[Hge Hj]]%lookup_app_Some.
    + destruct (H2 j u Hj) as (f & Hff & E). exists f. split; [done|]. apply lookup_lt_Some in Hj. by rewrite upd_ne by lia.
    + apply list_lookup_singleton_Some in Hj as [Hj <-]. replace j with (length ups) by lia. rewrite mk_pte_lor.
      exists (Z.lor perm PTE_V). by rewrite upd_eq.
  - intros v Hv''. rewrite length_app in Hv''. simpl in Hv''. rewrite upd_ne by lia. apply H3. lia.
  - rewrite length_app. simpl. lia.
  - apply Forall_app. split; [done|]. by constructor.
  - unfold accounted in Hac. rewrite Hac. rewrite <- app_assoc. simpl. rewrite <- Permutation_middle. by apply NoDup_cons.
Qed.

(** What a memory operation does to an address space: [new] pages are appended,
    taken from the free list, the entries below are kept, and no memory outside
    the free pages and the tables changes. *)
Record grown (s : kmem) (fs : list Z) (root : Z) (tabs : tables) (leaf : Z -> Z) (ups new : list Z)
    (s' : kmem) (fs' : list Z) (tabs' : tables) (leaf' : Z -> Z) : Prop := {
  gr_space : uspace kend s' fs' root tabs' leaf' (ups ++ new);
  gr_pages : new ++ fs' ++ tab_pages tabs' ≡ₚ fs ++ tab_pages tabs;
  gr_tabs : tabs ⊆ tabs';
  gr_same : same_except (fs ++ tab_pages tabs) (ram s) (ram s');
  gr_leaf : forall v, v < Z.of_nat (length ups) ∨ Z.of_nat (length (ups ++ new)) <= v -> leaf' v = leaf v
}.

Lemma grown_nil s fs root tabs leaf ups :
  uspace kend s fs root tabs leaf ups -> grown s fs root tabs leaf ups [] s fs tabs leaf.
Proof. intros Hu. split; [by rewrite app_nil_r|done|reflexivity|apply same_refl|done]. Qed.

Lemma grown_trans s1 fs1 root tabs1 leaf1 ups new s2 fs2 tabs2 leaf2 new' s3 fs3 tabs3 leaf3 :
  grown s1 fs1 root tabs1 leaf1 ups new s2 fs2 tabs2 leaf2 ->
  grown s2 fs2 root tabs2 leaf2 (ups ++ new) new' s3 fs3 tabs3 leaf3 ->
  grown s1 fs1 root tabs1 leaf1 ups (new ++ new') s3 fs3 tabs3 leaf3.
Proof.
  intros [A1 A2 A5 A3 A4] [B1 B2 B5 B3 B4]. split.
  - by rewrite app_assoc.
  - rewrite <- A2, <- B2. by rewrite <- app_assoc.
  - by etrans.
  - eapply same_trans; [exact A3|]. eapply same_mono, B3. intros x Hx. rewrite <- A2. apply elem_of_app. by right.
  - intros v Hv. rewrite app_assoc, !length_app in *. rewrite B4, A4; [done|lia|lia].
Qed.

Lemma grown_fewer s fs root tabs leaf ups new s' fs' tabs' leaf' :
  grown s fs root tabs leaf ups new s' fs' tabs' leaf' -> (length new + length fs' <= length fs)%nat.
Proof.
  intros [_ Hp Hsub _ _]. apply Permutation_length in Hp. rewrite !length_app in Hp.
  apply map_subseteq_size in Hsub. unfold tab_pages in Hp. rewrite !length_fmap, !length_map_to_list in Hp. lia.
Qed.

Lemma filled_same m m' ps q c :
  filled m q c -> same_except ps m m' -> q mod PGSIZE = 0 -> Forall (fun p => p mod PGSIZE = 0) ps -> q ∉ ps ->
  filled m' q c.
Proof. intros Hf Hs Hq Hps Hn a Ha. rewrite (same_page ps m m' q a) by done. by apply Hf. Qed.

Lemma uspace_aligned s fs root tabs leaf ups :
  uspace kend s fs root tabs leaf ups -> Forall (fun p => p mod PGSIZE = 0) (fs ++ tab_pages tabs).
Proof.
  intros [Hv _ _ _ _ _]. apply Forall_app. split.
  - eapply pages_aligned, (ko_pages _ _ _ (vo_kmem _ _ _ _ _ _ Hv)).
  - eapply forest_aligned, (vo_forest _ _ _ _ _ _ Hv).
Qed.

(** One new page: allocated, filled by [fill], mapped; or everything is as
    before, except for tables and with no page left but this one. *)
Lemma uspace_add s q fs root tabs leaf ups perm (fill : mem -> mem) :
  (0 < fuel)%nat -> uspace kend s (q :: fs) root tabs leaf ups -> Z.of_nat (length ups) < user_top ->
  (forall m, same_except [q] m (fill m)) -> 0 <= perm < 1024 -> leaf_flags (Z.lor perm PTE_V) ->
  exists s1 r s2 fs2 tabs2, kalloc s = Ok q s1 ∧ q ≠ 0 ∧ same_except [q] (ram s) (ram s1)
  ∧ mappages fuel root (Z.of_nat (length ups) * PGSIZE) PGSIZE q perm (s1 <| ram ::= fill |>) = Ok r s2
  ∧ (r = 0 ∧ (length fs <= 2 + length fs2)%nat ∧ grown s (q :: fs) root tabs leaf ups [q] s2 fs2 tabs2
             (upd leaf (Z.of_nat (length ups)) (mk_pte q perm))
         ∧ (forall a, in_page q a -> ram s2 a = fill (ram s1) a)
     ∨ r = -1 ∧ (length fs <= 1)%nat ∧ exists s3, kfree kend q s2 = Ok tt s3 ∧ grown s (q :: fs) root tabs leaf ups [] s3 [q] tabs2 leaf).
Proof using Hkend.
  intros Hf Hu Hlt Hfill Hperm Hfl. destruct (uspace_kalloc s q fs root tabs leaf ups Hu) as (s1 & H1 & Hu1 & Hq & Hqn & Hs1).
  set (s1' := s1 <| ram ::= fill |>). assert (Hs1' : same_except [q] (ram s1) (ram s1')) by apply Hfill.
  assert (Hqal : Forall (fun p => p mod PGSIZE = 0) [q]) by (constructor; [apply Hq|done]).
  assert (Hu1' : uspace kend s1' fs root tabs leaf ups).
  { eapply uspace_same; [exact Hs1'|done|done|done| |exact Hu1].
    intros p Hp ->%list_elem_of_singleton. apply Hqn, elem_of_app. by right. }
  destruct (uspace_grow s1' fs root tabs leaf ups q perm Hf Hu1' Hlt Hq Hqn Hperm Hfl) as (r & s2 & fs2 & tabs2 & Hm & Hs2 & Hac & Hsub & Hcase).
  exists s1, r, s2, fs2, tabs2. split; [done|]. split; [by apply (page_word kend Hkend)|]. split; [done|]. split; [done|].
  assert (Hin : tab_pages tabs2 ⊆ fs ++ tab_pages tabs) by by eapply accounted_in.
  assert (Hqt : q ∉ tab_pages tabs2) by (intros ?%Hin; apply Hqn, elem_of_app; by right).
  assert (Hsame : same_except ((q :: fs) ++ tab_pages tabs) (ram s) (ram s2)).
  { eapply same_trans; [apply (same_one q), Hs1; left|]. eapply same_trans; [apply (same_one q), Hs1'; left|].
    eapply same_mono, Hs2. intros x Hx. right. by apply Hin. }
  destruct Hcase as [(-> & Hc & Hu2)|(-> & -> & Hc & Hu2)]; [left|right]; (split; [done|]); (split; [done|]).
  - split; [split|].
    + done.
    + simpl. by rewrite Hac.
    + done.
    + done.
    + intros v Hv. rewrite length_app in Hv. simpl in Hv. by rewrite upd_ne by lia.
    + intros a Ha. rewrite (same_page _ _ _ q a Hs2); try done; [apply Hq|].
      eapply Forall_app, uspace_aligned, Hu2.
  - destruct (vm_kfree kend Hkend s2 [] root tabs2 leaf q (us_vm _ _ _ _ _ _ _ Hu2) Hq) as (s3 & Hk & Hv3 & Hs3);
      [by intros ?%elem_of_nil|done|].
    exists s3. split; [done|]. destruct Hu2 as [Hv2 A2 A3 A4 A5 A6]. split.
    + rewrite app_nil_r. split; try done. simpl. rewrite <- Permutation_middle. apply NoDup_cons. split; [|done].
      intros [Hin'|?]%elem_of_app; [apply Hqn, elem_of_app; by left|done].
    + simpl. apply Permutation_cons; [done|]. exact Hac.
    + done.
    + eapply same_trans; [exact Hsame|]. apply (same_one q), Hs3. left.
    + done.
Qed.

Definition RWXU : Z := Z.lor (Z.lor (Z.lor PTE_W PTE_X) PTE_R) PTE_U.

Lemma take_app_len (ups new : list Z) : take (length ups) (ups ++ new) = ups.
Proof. by rewrite take_app_length. Qed.
Lemma drop_app_len (ups new : list Z) : drop (length ups) (ups ++ new) = new.
Proof. by rewrite drop_app_length. Qed.

(** Giving back what was grown. *)
Lemma grown_cut s fs root tabs leaf ups new s1 fs1 tabs1 leaf1 s2 :
  uspace kend s fs root tabs leaf ups -> grown s fs root tabs leaf ups new s1 fs1 tabs1 leaf1 ->
  let leaf2 := clear_range leaf1 (Z.of_nat (length ups)) (length (ups ++ new) - length ups) in
  uspace kend s2 (reverse new ++ fs1) root tabs1 leaf2 ups ->
  same_except (new ++ tab_pages tabs1) (ram s1) (ram s2) ->
  grown s fs root tabs leaf ups [] s2 (reverse new ++ fs1) tabs1 leaf2 ∧ (forall v, leaf2 v = leaf v).
Proof.
  intros Hu [G1 G2 G5 G3 G4] leaf2 Hu2 Hs2. pose proof (us_size _ _ _ _ _ _ _ G1) as Hsz.
  assert (Hleaf : forall v, leaf2 v = leaf v).
  { intros v. unfold leaf2. rewrite clear_range_eq, length_app, Nat.add_comm, Nat.add_sub.
    rewrite length_app in *. destruct (decide (Z.of_nat (length ups) <= v < Z.of_nat (length ups) + Z.of_nat (length new))).
    - rewrite (us_unmapped _ _ _ _ _ _ _ Hu v) by lia. cases_cmp.
    - rewrite G4 by lia. cases_cmp. }
  split; [|exact Hleaf]. split; [by rewrite app_nil_r| |done| |].
  - simpl. rewrite reverse_Permutation, <- app_assoc. exact G2.
  - eapply same_trans; [exact G3|]. eapply same_mono, Hs2. intros x Hx. rewrite <- G2. apply elem_of_app in Hx as [Hx|Hx];
      rewrite !elem_of_app; auto.
  - intros v _. apply Hleaf.
Qed.

Lemma grown_undo s fs root tabs leaf ups new s1 fs1 tabs1 leaf1 :
  (length (ups ++ new) < fuel)%nat ->
  uspace kend s fs root tabs leaf ups -> grown s fs root tabs leaf ups new s1 fs1 tabs1 leaf1 ->
  exists r s2 leaf2, uvmdealloc kend fuel root (Z.of_nat (length (ups ++ new)) * PGSIZE) (Z.of_nat (length ups) * PGSIZE) s1 = Ok r s2
    ∧ grown s fs root tabs leaf ups [] s2 (reverse new ++ fs1) tabs1 leaf2 ∧ (forall v, leaf2 v = leaf v).
Proof using Hkend.
  intros Hf Hu Hg. pose proof (gr_space _ _ _ _ _ _ _ _ _ _ _ Hg) as G1. pose proof (us_size _ _ _ _ _ _ _ G1) as Hsz.
  assert (Hb : Z.of_nat (length (ups ++ new)) * PGSIZE <= TRAPFRAME).
  { change TRAPFRAME with (user_top * PGSIZE). unfold PGSIZE. lia. }
  assert (TRAPFRAME <= MAXVA) by done.
  assert (Hle : Z.of_nat (length ups) <= Z.of_nat (length (ups ++ new))) by (rewrite length_app; lia).
  assert (Hle' : Z.of_nat (length ups) * PGSIZE <= Z.of_nat (length (ups ++ new)) * PGSIZE) by (unfold PGSIZE; lia).
  assert (H0 : 0 <= Z.of_nat (length ups) * PGSIZE) by (unfold PGSIZE; lia).
  destruct (uvmdealloc_ok s1 fs1 root tabs1 leaf1 (ups ++ new)
     (Z.of_nat (length (ups ++ new)) * PGSIZE) (Z.of_nat (length ups) * PGSIZE)) as (s2 & Hrun & Hu2 & Hs2);
    try done; [lia|rewrite npages_page by lia; by rewrite Nat2Z.id|].
  rewrite Z.min_r in * by lia. rewrite npages_page, Nat2Z.id in * by lia. rewrite take_app_len, drop_app_len in *.
  eexists _, s2, _. split; [exact Hrun|]. by eapply grown_cut.
Qed.

(** The pages added are zeroed, writable user pages. *)
Definition zeroed (s' : kmem) (leaf' : Z -> Z) (n : nat) (new : list Z) : Prop :=
  forall j q, new !! j = Some q -> filled (ram s') q 0 ∧ leaf' (Z.of_nat (n + j)) = mk_pte q RWXU.

Lemma zeroed_app s fs root tabs leaf ups new s1 fs1 tabs1 leaf1 new' s2 fs2 tabs2 leaf2 :
  grown s fs root tabs leaf ups new s1 fs1 tabs1 leaf1 -> zeroed s1 leaf1 (length ups) new ->
  grown s1 fs1 root tabs1 leaf1 (ups ++ new) new' s2 fs2 tabs2 leaf2 -> zeroed s2 leaf2 (length (ups ++ new)) new' ->
  zeroed s2 leaf2 (length ups) (new ++ new').
Proof.
  intros G1 Z1 G2 Z2 j q [Hj|[Hge Hj]]%lookup_app_Some.
  - destruct (Z1 j q Hj) as [H1 H2]. pose proof (lookup_lt_Some _ _ _ Hj).
    assert (Hin : q ∈ ups ++ new) by (apply elem_of_app; right; by eapply list_elem_of_lookup_2).
    pose proof (gr_space _ _ _ _ _ _ _ _ _ _ _ G1) as Hu.
    destruct (us_apart _ _ _ _ _ _ q Hu Hin). split.
    + eapply filled_same; [exact H1|exact (gr_same _ _ _ _ _ _ _ _ _ _ _ G2)| |by eapply uspace_aligned|].
      * pose proof (us_pages _ _ _ _ _ _ _ Hu) as Hpg. rewrite Forall_forall in Hpg. by apply Hpg.
      * rewrite elem_of_app. tauto.
    + rewrite (gr_leaf _ _ _ _ _ _ _ _ _ _ _ G2); [done|]. rewrite length_app. lia.
  - destruct (Z2 _ q Hj) as [H1 H2]. split; [done|]. rewrite <- H2. f_equal. rewrite length_app. lia.
Qed.


(** The two outcomes of growing to [want] pages. *)
Definition alloc_post (s0 : kmem) (fs0 : list Z) (root : Z) (tabs0 : tables) (leaf0 : Z -> Z) (ups : list Z)
    (want : nat) (newsz r : Z) (s' : kmem) : Prop :=
  exists fs' tabs' leaf',
    r = newsz ∧ (exists new, grown s0 fs0 root tabs0 leaf0 ups new s' fs' tabs' leaf'
       ∧ zeroed s' leaf' (length ups) new ∧ length (ups ++ new) = want
       ∧ (length fs0 <= 3 * length new + length fs')%nat)
    ∨ r = 0 ∧ grown s0 fs0 root tabs0 leaf0 ups [] s' fs' tabs' leaf' ∧ (forall v, leaf' v = leaf0 v)
      ∧ (length fs0 < 3 * (want - length ups))%nat.

Lemma uvmalloc_fail s0 fs0 root tabs0 leaf0 ups new s fs tabs leaf want newsz :
  (length (ups ++ new) < fuel)%nat -> uspace kend s0 fs0 root tabs0 leaf0 ups ->
  grown s0 fs0 root tabs0 leaf0 ups new s fs tabs leaf -> (length fs0 < 3 * (want - length ups))%nat ->
  exists s', (_ ← uvmdealloc kend fuel root (Z.of_nat (length (ups ++ new)) * PGSIZE) (Z.of_nat (length ups) * PGSIZE); mret 0) s = Ok 0 s'
    ∧ alloc_post s0 fs0 root tabs0 leaf0 ups want newsz 0 s'.
Proof using Hkend.
  intros Hf Hu Hg Hc. destruct (grown_undo s0 fs0 root tabs0 leaf0 ups new s fs tabs leaf Hf Hu Hg) as (r & s2 & leaf2 & Hd & Hg2 & Hl2).
  exists s2. rewrite (bind_Ok _ _ _ _ _ Hd). split; [done|]. eexists _, _, leaf2. right. by split_and!.
Qed.

(** The size may be anything if there is less memory than address space. *)
Definition pages_for (n : Z) : Z := (n + PGSIZE - 1) / PGSIZE.
Lemma pages_for_lt newsz n : n * PGSIZE < newsz <-> n < pages_for newsz.
Proof. unfold pages_for, PGSIZE. Z.div_mod_to_equations. lia. Qed.
Lemma pages_for_npages newsz : 0 <= newsz <= MAXVA -> Z.to_nat (pages_for newsz) = npages newsz.
Proof.
  intros Hn. unfold npages. assert (MAXVA < 2 ^ 63) by done. rewrite PGROUNDUP_eq by lia. by rewrite Z.div_mul by done.
Qed.

Lemma uvmalloc_loop_ok s0 fs0 root tabs0 leaf0 ups newsz : forall k s fs tabs leaf new,
  (length fs < k)%nat -> (length (ups ++ new) + length fs < fuel)%nat ->
  newsz <= TRAPFRAME ∨ Z.of_nat (length (ups ++ new) + length fs) <= user_top ->
  Z.of_nat (length (ups ++ new)) <= pages_for newsz -> uspace kend s0 fs0 root tabs0 leaf0 ups ->
  grown s0 fs0 root tabs0 leaf0 ups new s fs tabs leaf -> zeroed s leaf (length ups) new ->
  (length fs0 <= 3 * length new + length fs)%nat ->
  exists r s',
    uvmalloc_loop kend fuel k root (Z.of_nat (length (ups ++ new)) * PGSIZE) (Z.of_nat (length ups) * PGSIZE) newsz s = Ok r s'
    ∧ alloc_post s0 fs0 root tabs0 leaf0 ups (Z.to_nat (pages_for newsz)) newsz r s'.
Proof using Hkend.
  induction k as [|k IH]; intros s fs tabs leaf new Hk Hf Htop Hn Hu0 Hg Hz Hc; [lia|]. cbn [uvmalloc_loop].
  pose proof (pages_for_lt newsz (Z.of_nat (length (ups ++ new)))) as Hpl.
  destruct (Z.ltb_spec (Z.of_nat (length (ups ++ new)) * PGSIZE) newsz) as [Hlt|Hge]; cbn [negb].
  2:{ exists newsz, s. split; [done|]. exists fs, tabs, leaf. left. split; [done|]. exists new. split_and!; [done|done|lia|done]. }
  apply Hpl in Hlt as Hw. assert (Hwant : (length (ups ++ new) < Z.to_nat (pages_for newsz))%nat) by lia.
  pose proof (gr_space _ _ _ _ _ _ _ _ _ _ _ Hg) as Hu. rewrite length_app in Hwant. destruct fs as [|q fs].
  { rewrite (bind_Ok _ _ _ _ _ (kalloc_empty kend s (vo_kmem _ _ _ _ _ _ (us_vm _ _ _ _ _ _ _ Hu)))).
    change (0 =? 0) with true. cbv iota.
    destruct (uvmalloc_fail s0 fs0 root tabs0 leaf0 ups new s [] tabs leaf (Z.to_nat (pages_for newsz)) newsz) as (s' & H1 & H2); try done.
    - lia. - simpl in Hc. lia. - by exists 0, s'. }
  assert (Hroom : Z.of_nat (length (ups ++ new)) < user_top).
  { change TRAPFRAME with (user_top * PGSIZE) in Htop. cbn [length] in Htop. unfold PGSIZE in *. lia. }
  destruct (uspace_add s q fs root tabs leaf (ups ++ new) RWXU (memset q 0 PGSIZE)) as
    (s1 & r & s2 & fs2 & tabs2 & H1 & Hq0 & Hs1 & Hm & Hcase); [lia|done|done|apply same_memset|done|done|].
  rewrite (bind_Ok _ _ _ _ _ H1). assert (Hqb : (q =? 0) = false) by lia. rewrite Hqb.
  assert (Hms : memset_ptr q 0 PGSIZE s1 = Ok tt (s1 <| ram ::= memset q 0 PGSIZE |>)) by (unfold memset_ptr; rewrite Hqb; reflexivity).
  rewrite (bind_Ok _ _ _ _ _ Hms), (bind_Ok _ _ _ _ _ Hm). simpl in Hc.
  destruct Hcase as [(-> & Hc2 & Hg2 & Hbytes)|(-> & Hc2 & s3 & Hk3 & Hg3)]; cbn [negb].
  - assert (Hz2 : zeroed s2 (upd leaf (Z.of_nat (length (ups ++ new))) (mk_pte q RWXU)) (length (ups ++ new)) [q]).
    { intros j x Hj. apply list_lookup_singleton_Some in Hj as [-> <-]. split.
      - intros a Ha. rewrite Hbytes by done. rewrite memset_eq. unfold in_page in Ha. cases_cmp.
      - by rewrite Nat.add_0_r, upd_eq. }
    pose proof (zeroed_app _ _ _ _ _ _ _ _ _ _ _ _ _ _ _ _ Hg Hz Hg2 Hz2) as Hz'.
    pose proof (grown_trans _ _ _ _ _ _ _ _ _ _ _ _ _ _ _ _ Hg Hg2) as Hg'.
    rewrite next_page by (pose proof user_top_le; lia).
    replace (Z.of_nat (length (ups ++ new)) + 1) with (Z.of_nat (length (ups ++ new ++ [q]))) by (rewrite !length_app; simpl; lia).
    pose proof (grown_fewer _ _ _ _ _ _ _ _ _ _ _ Hg2) as Hlen.
    apply (IH s2 fs2 tabs2 (upd leaf (Z.of_nat (length (ups ++ new))) (mk_pte q RWXU)) (new ++ [q])); try done; rewrite ?length_app in *; simpl in *; lia.
  - change (negb (-1 =? 0)) with true. cbv iota. rewrite (bind_Ok _ _ _ _ _ Hk3).
    pose proof (grown_trans _ _ _ _ _ _ _ _ _ _ _ _ _ _ _ _ Hg Hg3) as Hg'. rewrite app_nil_r in Hg'.
    destruct (uvmalloc_fail s0 fs0 root tabs0 leaf0 ups new s3 [q] tabs2 leaf (Z.to_nat (pages_for newsz)) newsz) as (s' & H2 & H3); try done.
    + lia. + lia. + by exists 0, s'.
Qed.

Lemma uvmalloc_ok s fs root tabs leaf ups oldsz newsz :
  uspace kend s fs root tabs leaf ups -> 0 <= oldsz <= newsz -> oldsz <= TRAPFRAME -> length ups = npages oldsz ->
  newsz <= TRAPFRAME ∨ Z.of_nat (length ups + length fs) <= user_top -> (length ups + length fs < fuel)%nat ->
  exists r s', uvmalloc kend fuel root oldsz newsz s = Ok r s'
    ∧ alloc_post s fs root tabs leaf ups (Z.to_nat (pages_for newsz)) newsz r s'.
Proof using Hkend.
  intros Hu Hsz Hold Hlen Htop Hf. assert (HT : TRAPFRAME <= MAXVA) by done. unfold uvmalloc.
  assert ((newsz <? oldsz) = false) as -> by lia. rewrite PGROUNDUP_npages, <- Hlen by lia.
  destruct (uvmalloc_loop_ok s fs root tabs leaf ups newsz fuel s fs tabs leaf []) as (r & s' & Hrun & Hpost);
    rewrite ?app_nil_r; try done; [lia| |by apply grown_nil|].
  - rewrite Hlen, <- (pages_for_npages oldsz) by lia. unfold pages_for, PGSIZE. Z.div_mod_to_equations. lia.
  - rewrite app_nil_r in Hrun. by exists r, s'.
Qed.
End user.
