(* ===== verification/VmCopy.v ===== *)
(** * VmCopy: copying address spaces, and copying to and from them

    [uvmcopy] gives the child a page for every page of the parent, with the same
    bytes and the same permissions; [copyout], [copyin] and [copyinstr] move bytes
    between the kernel and the virtual addresses of a process. *)

From stdpp Require Import gmap.
From S2P Require Import Prelude KState SleepLock MemC Kalloc Vm VmRep VmMap VmUser.

#[local] Opaque memset memmove st64 ld64.

Lemma lor_V f : Z.land f PTE_V ≠ 0 -> Z.lor f PTE_V = f.
Proof.
  change PTE_V with 1. intros Hf. pose proof (Z.add_lor_land f 1) as H.
  assert (Z.land f 1 = 1); [|lia]. change 1 with (Z.ones 1) in Hf |- *. rewrite Z.land_ones in Hf |- * by lia.
  pose proof (Z.mod_pos_bound f (2 ^ 1)). change (2 ^ 1) with 2 in *. change (Z.ones 1) with 1. lia.
Qed.

Section copy.
Context (kend : Z) (Hkend : 0 < kend) (fuel : nat).

(** Another space in the same memory is not affected by pages changing hands
    outside it. *)
Lemma uspace_other s fs s' fs' root tabs leaf ups ps :
  uspace kend s fs root tabs leaf ups -> kmem_ok kend s' fs' -> same_except ps (ram s) (ram s') ->
  Forall (fun p => p mod PGSIZE = 0) ps -> (forall p, p ∈ tab_pages tabs -> p ∉ ps) ->
  fs' ⊆ ps -> (forall p, p ∈ ups ++ tab_pages tabs -> p ∉ fs') ->
  uspace kend s' fs' root tabs leaf ups.
Proof.
  intros [[Hk Hfo Hr Hn Hfr] H2 H3 H4 H5 H6] Hk' Hs Hal Hd Hfs Hd'. split; try done.
  - split; try done.
    + eapply forest_same; try done. intros p t Hp. apply Hd, in_tab_pages. by exists p.
    + intros p t Hp. apply Hd', elem_of_app. right. apply in_tab_pages. by exists p.
  - apply NoDup_app in H6 as (N1 & N2 & (_ & _ & N3)%NoDup_app). apply NoDup_app. split; [done|]. split.
    + intros x Hx [Hx'|Hx']%elem_of_app; [eapply Hd'; [apply elem_of_app; by left|done]|].
      apply (N2 x Hx), elem_of_app. by right.
    + apply NoDup_app. split_and!; [apply Hk'| |done]. intros x Hx Hx'. eapply Hd'; [apply elem_of_app; by right|done].
Qed.

(** The parent's entry for one of its pages. *)
Lemma parent_entry s fs root tabs leaf ups j u (rest : Z -> M kmem bool) :
  uspace kend s fs root tabs leaf ups -> ups !! j = Some u ->
  exists f, leaf_flags f ∧ leaf (Z.of_nat j) = Z.lor (PA2PTE u) f
  ∧ (pte ← walk root (Z.of_nat j * PGSIZE) false;
     if pte =? 0 then panic "uvmcopy: pte should exist" else
     v ← load pte;
     if Z.land v PTE_V =? 0 then panic "uvmcopy: page not present" else rest v) s = rest (Z.lor (PA2PTE u) f) s.
Proof using Hkend.
  intros Hu Hj. pose proof (us_size _ _ _ _ _ _ _ Hu). pose proof (lookup_lt_Some _ _ _ Hj). pose proof user_top_le.
  destruct (us_maps _ _ _ _ _ _ _ Hu j u Hj) as (f & Hf & E). exists f. split; [done|]. split; [done|].
  assert (Hfr : frame_ok u).
  { apply (page_frame kend); [done|]. pose proof (us_pages _ _ _ _ _ _ _ Hu) as Hpg. rewrite Forall_forall in Hpg.
    apply Hpg. by eapply list_elem_of_lookup_2. }
  destruct (unmap_walk kend Hkend s fs root tabs leaf (Z.of_nat j) u (us_vm _ _ _ _ _ _ _ Hu)) as (Hw & He & Hld);
    [lia|done|by exists f|].
  rewrite (bind_Ok _ _ _ _ _ Hw), He, (bind_Ok (load _) _ s _ s eq_refl), Hld, E.
  destruct (maps_entry leaf (Z.of_nat j) u Hfr) as (_ & H' & _); [by exists f|]. rewrite E in H'. by rewrite H'.
Qed.

(** ** uvmcopy: [oroot] is the parent, [root] the child's page table, empty so far *)
Section uvmcopy.
Context (s0 : kmem) (fs0 : list Z) (oroot : Z) (otabs : tables) (oleaf : Z -> Z) (oups : list Z).
Context (root : Z) (tabs0 : tables) (leaf0 : Z -> Z).
Hypothesis (Hparent : uspace kend s0 fs0 oroot otabs oleaf oups).
Hypothesis (Hchild : uspace kend s0 fs0 root tabs0 leaf0 []).
Hypothesis (Hapart : forall p, p ∈ oups ++ tab_pages otabs -> p ∉ tab_pages tabs0).

(** The child's pages [new] have the bytes and permissions of the parent's. *)
Definition pages_copied (s : kmem) (leaf : Z -> Z) (new : list Z) : Prop :=
  forall j u q, oups !! j = Some u -> new !! j = Some q ->
    (forall off, 0 <= off < PGSIZE -> ram s (q + off) = ram s0 (u + off))
    ∧ exists f, leaf_flags f ∧ oleaf (Z.of_nat j) = Z.lor (PA2PTE u) f ∧ leaf (Z.of_nat j) = Z.lor (PA2PTE q) f.

Lemma parent_apart p : p ∈ oups ++ tab_pages otabs -> p ∉ fs0 ++ tab_pages tabs0.
Proof using Hparent Hapart.
  intros Hp [Hin|Hin]%elem_of_app; [|by eapply Hapart].
  pose proof (us_nodup _ _ _ _ _ _ _ Hparent) as (N1 & N2 & (_ & N3 & _)%NoDup_app)%NoDup_app.
  apply elem_of_app in Hp as [Hp|Hp].
  - apply (N2 p Hp), elem_of_app. by left.
  - by apply (N3 p Hin).
Qed.

Lemma parent_later new s fs tabs leaf :
  grown kend s0 fs0 root tabs0 leaf0 [] new s fs tabs leaf -> uspace kend s fs oroot otabs oleaf oups.
Proof using Hparent Hchild Hapart.
  intros [G1 G2 G5 G3 G4].
  assert (Hfs : fs ⊆ fs0 ++ tab_pages tabs0) by (intros x Hx; rewrite <- G2; rewrite !elem_of_app; auto).
  eapply uspace_other; [exact Hparent|apply G1|exact G3|by eapply uspace_aligned| |exact Hfs|].
  - intros p Hp. apply parent_apart, elem_of_app. by right.
  - intros p Hp Hin%Hfs. by apply (parent_apart p).
Qed.

Lemma parent_bytes s u off :
  same_except (fs0 ++ tab_pages tabs0) (ram s0) (ram s) -> u ∈ oups -> 0 <= off < PGSIZE ->
  ram s (u + off) = ram s0 (u + off).
Proof using Hparent Hchild Hapart.
  intros Hs Hu Hoff. apply (same_page (fs0 ++ tab_pages tabs0) _ _ u); [done| |by eapply uspace_aligned| |].
  - pose proof (us_pages _ _ _ _ _ _ _ Hparent) as Hpg. rewrite Forall_forall in Hpg. by apply Hpg.
  - apply parent_apart, elem_of_app. by left.
  - unfold in_page. lia.
Qed.

Lemma pages_copied_app new s fs tabs leaf q s' fs' tabs' leaf' u f :
  grown kend s0 fs0 root tabs0 leaf0 [] new s fs tabs leaf -> pages_copied s leaf new ->
  grown kend s fs root tabs leaf new [q] s' fs' tabs' leaf' -> oups !! length new = Some u ->
  (forall off, 0 <= off < PGSIZE -> ram s' (q + off) = ram s0 (u + off)) ->
  leaf_flags f -> oleaf (Z.of_nat (length new)) = Z.lor (PA2PTE u) f ->
  leaf' (Z.of_nat (length new)) = Z.lor (PA2PTE q) f -> pages_copied s' leaf' (new ++ [q]).
Proof.
  intros G1 C1 G2 Hu Hb Hf Ho Hl j x y Hx [Hy|[Hge Hy]]%lookup_app_Some.
  - destruct (C1 j x y Hx Hy) as (HB & g & Hg & E1 & E2). pose proof (lookup_lt_Some _ _ _ Hy) as Hlt.
    pose proof (gr_space _ _ _ _ _ _ _ _ _ _ _ _ G1) as Hus. simpl in Hus.
    assert (Hin : y ∈ new) by by eapply list_elem_of_lookup_2. destruct (us_apart _ _ _ _ _ _ _ y Hus Hin). split.
    + intros off Hoff. rewrite <- HB by done. apply (same_page (fs ++ tab_pages tabs) _ _ y).
      * apply G2. * pose proof (us_pages _ _ _ _ _ _ _ Hus) as Hpg. rewrite Forall_forall in Hpg. by apply Hpg.
      * by eapply uspace_aligned. * rewrite elem_of_app. tauto. * unfold in_page. lia.
    + exists g. split_and!; try done. rewrite (gr_leaf _ _ _ _ _ _ _ _ _ _ _ _ G2); [done|]. lia.
  - apply list_lookup_singleton_Some in Hy as [Hy <-]. replace j with (length new) in * by lia. simplify_eq. split; [done|].
    by exists f.
Qed.

Lemma memmove_same q u m : same_except [q] m (memmove q u PGSIZE m).
Proof.
  intros a Ha. rewrite memmove_copied by done. unfold copied. specialize (Ha q (list_elem_of_here _ _)).
  unfold in_page in Ha. cases_cmp.
Qed.

Lemma uvmcopy_page_ok new s fs tabs leaf u :
  (0 < fuel)%nat -> grown kend s0 fs0 root tabs0 leaf0 [] new s fs tabs leaf -> pages_copied s leaf new ->
  oups !! length new = Some u ->
  exists ok s', uvmcopy_page kend fuel oroot root (Z.of_nat (length new) * PGSIZE) s = Ok ok s'
  ∧ match ok with
    | true => exists q fs' tabs' leaf', (length fs <= 3 + length fs')%nat
        ∧ grown kend s fs root tabs leaf new [q] s' fs' tabs' leaf' ∧ pages_copied s' leaf' (new ++ [q])
    | false => exists fs' tabs', (length fs <= 2)%nat ∧ grown kend s fs root tabs leaf new [] s' fs' tabs' leaf
    end.
Proof using Hkend Hparent Hchild Hapart.
  intros Hf Hg Hc Hj. pose proof (parent_later new s fs tabs leaf Hg) as Hp. pose proof (gr_space _ _ _ _ _ _ _ _ _ _ _ _ Hg) as Hu. simpl in Hu.
  unfold uvmcopy_page. edestruct (parent_entry s fs oroot otabs oleaf oups (length new) u) as (f & Hff & Eo & Hw); [exact Hp|exact Hj|].
  rewrite Hw. clear Hw. assert (Hup : page_ok kend u).
  { pose proof (us_pages _ _ _ _ _ _ _ Hparent) as Hpg. rewrite Forall_forall in Hpg. apply Hpg. by eapply list_elem_of_lookup_2. }
  pose proof (page_frame kend u Hkend Hup) as Hfr. destruct fs as [|q fs].
  { rewrite (bind_Ok _ _ _ _ _ (kalloc_empty kend s (vo_kmem _ _ _ _ _ _ (us_vm _ _ _ _ _ _ _ Hu)))).
    exists false, s. split; [done|]. exists [], tabs. split; [simpl; lia|]. by apply grown_nil. }
  rewrite PTE2PA_PTE, PTE_FLAGS_PTE by (done || apply Hff).
  pose proof (us_size _ _ _ _ _ _ _ Hp) as Hsz. pose proof (lookup_lt_Some _ _ _ Hj) as Hlt.
  assert (Hflor : Z.lor f PTE_V = f) by (apply lor_V, Hff).
  destruct (uspace_add kend Hkend fuel s q fs root tabs leaf new f (memmove q u PGSIZE)) as
    (s1 & r & s2 & fs2 & tabs2 & H1 & Hq0 & Hs1 & Hm & Hcase); [done|done|lia|intros; apply memmove_same|apply Hff|by rewrite Hflor|].
  rewrite (bind_Ok _ _ _ _ _ H1). assert (Hqb : (q =? 0) = false) by lia. rewrite Hqb.
  rewrite (bind_Ok (modify _) _ s1 tt _ eq_refl), (bind_Ok _ _ _ _ _ Hm).
  destruct Hcase as [(-> & Hc2 & Hg2 & Hbytes)|(-> & Hc2 & s3 & Hk3 & Hg3)].
  - exists true, s2. split; [done|]. exists q, fs2, tabs2, (upd leaf (Z.of_nat (length new)) (mk_pte q f)). split; [simpl; lia|]. split; [exact Hg2|].
    eapply pages_copied_app; [exact Hg|exact Hc|exact Hg2|exact Hj| |exact Hff|exact Eo|by rewrite upd_eq, mk_pte_lor, Hflor].
    intros off Hoff. rewrite Hbytes by (unfold in_page; lia). rewrite memmove_copied by done. unfold copied.
    assert ((q <=? q + off) && (q + off <? q + PGSIZE) = true) as ->.
    { apply andb_true_iff. split; [apply Z.leb_le|apply Z.ltb_lt]; lia. }
    replace (u + (q + off - q)) with (u + off) by lia.
    assert (Hin : u ∈ oups) by by eapply list_elem_of_lookup_2.
    rewrite (same_page [q] (ram s) (ram s1) u); [|done|apply Hup| | |unfold in_page; lia].
    + eapply parent_bytes; [apply Hg|done|done].
    + constructor; [|done]. pose proof (uspace_aligned _ _ _ _ _ _ _ Hu) as [[Hal _]%Forall_cons _]%Forall_app. done.
    + intros ->%list_elem_of_singleton. destruct (us_apart _ _ _ _ _ _ _ q Hp Hin) as [Hn _]. apply Hn. left.
  - change (negb (-1 =? 0)) with true. cbv iota. rewrite (bind_Ok _ _ _ _ _ Hk3). exists false, s3. split; [done|].
    exists [q], tabs2. split; [simpl; lia|done].
Qed.

(** Success: the child has a copy of every page.  Failure: it is empty again,
    and every page is back. *)
Definition copy_post (want : nat) (r : Z) (s' : kmem) : Prop :=
  exists fs' tabs' leaf',
    r = 0 ∧ (exists new, grown kend s0 fs0 root tabs0 leaf0 [] new s' fs' tabs' leaf'
       ∧ length new = want ∧ pages_copied s' leaf' new)
    ∨ r = -1 ∧ grown kend s0 fs0 root tabs0 leaf0 [] [] s' fs' tabs' leaf' ∧ (forall v, leaf' v = leaf0 v)
      ∧ (length fs0 < 3 * want)%nat.

Lemma uvmcopy_fail new s fs tabs leaf want :
  (length new < fuel)%nat -> grown kend s0 fs0 root tabs0 leaf0 [] new s fs tabs leaf -> (length fs0 < 3 * want)%nat ->
  exists s', (uvmunmap kend fuel root 0 (Z.of_nat (length new) * PGSIZE / PGSIZE) true;; mret (-1)) s = Ok (-1) s'
    ∧ copy_post want (-1) s'.
Proof using Hkend Hchild.
  intros Hf Hg Hw. pose proof (gr_space _ _ _ _ _ _ _ _ _ _ _ _ Hg) as Hu. simpl in Hu. rewrite Z.div_mul by done.
  destruct (uspace_cut kend Hkend fuel s fs root tabs leaf new 0) as (s' & Hrun & Hu' & Hs'); [lia|lia|done|].
  rewrite Nat.sub_0_r in *. change (Z.of_nat 0 * PGSIZE) with 0 in Hrun. exists s'.
  rewrite (bind_Ok _ _ _ _ _ Hrun). split; [done|]. rewrite take_0, drop_0 in *.
  destruct (grown_cut kend s0 fs0 root tabs0 leaf0 [] new s fs tabs leaf s') as [Hg' Hl']; [done|done| |done|].
  { simpl. by rewrite Nat.sub_0_r. }
  eexists _, _, _. right. split_and!; [done|exact Hg'|exact Hl'|done].
Qed.

Lemma uvmcopy_loop_ok sz : forall k s fs tabs leaf new,
  (length fs < k)%nat -> (length new + length fs < fuel)%nat -> 0 <= sz <= TRAPFRAME -> npages sz = length oups ->
  (length new <= length oups)%nat -> grown kend s0 fs0 root tabs0 leaf0 [] new s fs tabs leaf -> pages_copied s leaf new ->
  (length fs0 <= 3 * length new + length fs)%nat ->
  exists r s', uvmcopy_loop kend fuel k oroot root (Z.of_nat (length new) * PGSIZE) sz s = Ok r s'
    ∧ copy_post (length oups) r s'.
Proof using Hkend Hparent Hchild Hapart.
  induction k as [|k IH]; intros s fs tabs leaf new Hk Hf Hsz Hn Hle Hg Hc Hcost; [lia|]. cbn [uvmcopy_loop].
  assert (HT : TRAPFRAME <= MAXVA) by done.
  destruct (Z.ltb_spec (Z.of_nat (length new) * PGSIZE) sz) as [Hlt|Hge]; cbn [negb].
  2:{ exists 0, s. split; [done|]. exists fs, tabs, leaf. left. split; [done|]. exists new. split_and!; [done| |done].
      apply Nat.le_antisymm; [done|]. rewrite <- Hn. apply Nat2Z.inj_le, Z.nlt_ge. rewrite <- npages_lt by lia. lia. }
  apply npages_lt in Hlt; [|lia]. rewrite Hn in Hlt.
  destruct (lookup_lt_is_Some_2 oups (length new) ltac:(lia)) as [u Hu].
  destruct (uvmcopy_page_ok new s fs tabs leaf u ltac:(lia) Hg Hc Hu) as (ok & s1 & Hrun & Hcase).
  rewrite (bind_Ok _ _ _ _ _ Hrun). destruct ok.
  - destruct Hcase as (q & fs1 & tabs1 & leaf1 & Hc1 & Hg1 & Hcp1).
    pose proof (grown_fewer _ _ _ _ _ _ _ _ _ _ _ _ Hg1) as Hfew. simpl in Hfew.
    pose proof (us_size _ _ _ _ _ _ _ Hparent). rewrite next_page by (pose proof user_top_le; lia).
    replace (Z.of_nat (length new) + 1) with (Z.of_nat (length (new ++ [q]))) by (rewrite length_app; simpl; lia).
    apply (IH s1 fs1 tabs1 leaf1 (new ++ [q])); try done; rewrite ?length_app; simpl; try lia.
    exact (grown_trans _ _ _ _ _ _ _ _ _ _ _ _ _ _ _ _ _ Hg Hg1).
  - destruct Hcase as (fs1 & tabs1 & Hc1 & Hg1).
    pose proof (grown_trans _ _ _ _ _ _ [] new _ _ _ _ [] _ _ _ _ Hg Hg1) as Hg'. rewrite app_nil_r in Hg'.
    destruct (uvmcopy_fail new s1 fs1 tabs1 leaf (length oups)) as (s' & H1 & H2); [lia|done|lia|]. by exists (-1), s'.
Qed.
End uvmcopy.

(** ** Virtual addresses *)

(** The physical address a user access to [va] reaches. *)
Definition uaccess (leaf : Z -> Z) (va : Z) : option Z :=
  let v := leaf (va / PGSIZE) in
  if (0 <=? va) && (va <? MAXVA) && has PTE_V v && has PTE_U v then Some (PTE2PA v + va mod PGSIZE) else None.

(** Nothing above the user pages is accessible to the user. *)
Definition user_only (leaf : Z -> Z) (ups : list Z) : Prop :=
  forall v, Z.of_nat (length ups) <= v < MAXVA / PGSIZE -> has PTE_U (leaf v) = false.

Lemma uaccess_user s fs root tabs leaf ups va a :
  uspace kend s fs root tabs leaf ups -> user_only leaf ups -> uaccess leaf va = Some a ->
  exists j u, ups !! j = Some u ∧ va / PGSIZE = Z.of_nat j ∧ a = u + va mod PGSIZE ∧ PTE2PA (leaf (va / PGSIZE)) = u.
Proof using Hkend.
  intros Hu Ho. unfold uaccess. destruct (_ && _) eqn:E; [|done]. intros [= <-].
  apply andb_true_iff in E as [[[E1 E2]%andb_true_iff E3]%andb_true_iff E4].
  assert (Hv : 0 <= va / PGSIZE < MAXVA / PGSIZE).
  { assert (MAXVA mod PGSIZE = 0) by done. unfold PGSIZE in *. Z.div_mod_to_equations. lia. }
  destruct (decide (va / PGSIZE < Z.of_nat (length ups))) as [Hlt|Hge].
  - destruct (lookup_lt_is_Some_2 ups (Z.to_nat (va / PGSIZE)) ltac:(lia)) as [u Hj].
    destruct (us_maps _ _ _ _ _ _ _ Hu _ _ Hj) as (f & Hf & El). rewrite Z2Nat.id in El by lia.
    assert (Hpa : PTE2PA (leaf (va / PGSIZE)) = u).
    { rewrite El. apply PTE2PA_PTE; [|apply Hf]. apply (page_frame kend); [done|].
      pose proof (us_pages _ _ _ _ _ _ _ Hu) as Hpg. rewrite Forall_forall in Hpg. apply Hpg. by eapply list_elem_of_lookup_2. }
    exists (Z.to_nat (va / PGSIZE)), u. rewrite Hpa, Z2Nat.id by lia. done.
  - rewrite Ho in E4 by lia. done.
Qed.

Lemma walkaddr_ok s fs root tabs leaf va :
  vm_ok kend s fs root tabs leaf -> 0 <= va -> va mod PGSIZE = 0 ->
  walkaddr root va s = Ok (match uaccess leaf va with Some a => a | None => 0 end) s.
Proof using Hkend.
  intros Hv H0 Hal. unfold walkaddr, uaccess. destruct (Z.leb_spec MAXVA va) as [Hm|Hm].
  { assert ((va <? MAXVA) = false) as -> by lia. by rewrite andb_false_r. }
  assert ((0 <=? va) && (va <? MAXVA) = true) as -> by (apply andb_true_iff; lia).
  rewrite (bind_Ok _ _ _ _ _ (walk_lookup kend Hkend s fs root tabs leaf va Hv Hm)).
  destruct (table_of tabs va) as [t|] eqn:Ht.
  - destruct (entry_load kend Hkend s fs root tabs leaf va t Hv ltac:(lia) Ht) as [Hld Hne].
    assert ((entry_of tabs va =? 0) = false) as -> by lia.
    rewrite (bind_Ok (load _) _ s _ s eq_refl), Hld. unfold has.
    destruct (Z.land (leaf (va / PGSIZE)) PTE_V =? 0); [done|]. destruct (Z.land (leaf (va / PGSIZE)) PTE_U =? 0); [done|].
    simpl. by rewrite Hal, Z.add_0_r.
  - destruct (entry_none kend s fs root tabs leaf va Hv ltac:(lia) Ht) as [-> ->]. done.
Qed.

(** Within one page. *)
Lemma uaccess_page leaf va x :
  0 <= va -> PGROUNDDOWN va <= x < PGROUNDDOWN va + PGSIZE ->
  uaccess leaf x = (fun pa0 => pa0 + (x - PGROUNDDOWN va)) <$> uaccess leaf (PGROUNDDOWN va).
Proof.
  intros Hva. rewrite PGROUNDDOWN_eq. intros Hx. unfold uaccess.
  assert (Hdiv : x / PGSIZE = va / PGSIZE) by (unfold PGSIZE in *; Z.div_mod_to_equations; lia).
  assert (Hmod : x mod PGSIZE = x - va / PGSIZE * PGSIZE) by (unfold PGSIZE in *; Z.div_mod_to_equations; lia).
  assert (0 <= va / PGSIZE) by (apply Z.div_pos; [lia|done]).
  rewrite Z.div_mul, Z.mod_mul, Hdiv, Hmod, Z.add_0_r by done.
  assert ((0 <=? x) && (x <? MAXVA) = (0 <=? va / PGSIZE * PGSIZE) && (va / PGSIZE * PGSIZE <? MAXVA)) as ->.
  { assert (MAXVA mod PGSIZE = 0) by done. apply eq_true_iff_eq. rewrite !andb_true_iff, !Z.leb_le, !Z.ltb_lt.
    unfold PGSIZE in *. Z.div_mod_to_equations. lia. }
  by destruct (_ && _).
Qed.

Section bytes.
Context (fs : list Z) (root : Z) (tabs : tables) (leaf : Z -> Z) (ups : list Z).
Hypothesis (Honly : user_only leaf ups).
Abbreviation us := (fun s => uspace kend s fs root tabs leaf ups).

Lemma uaccess_in s va a : us s -> uaccess leaf va = Some a -> exists u, u ∈ ups ∧ in_page u a ∧ u mod PGSIZE = 0 ∧ a ≠ 0.
Proof using Hkend Honly.
  intros Hu (j & u & Hj & _ & -> & _)%(uaccess_user s fs root tabs leaf ups va a Hu Honly).
  assert (Hin : u ∈ ups) by by eapply list_elem_of_lookup_2.
  pose proof (us_pages _ _ _ _ _ _ _ Hu) as Hpg. rewrite Forall_forall in Hpg. destruct (Hpg u Hin) as [Hal Hr].
  pose proof (Z.mod_pos_bound va PGSIZE ltac:(done)). exists u. unfold in_page. split_and!; [done|lia|lia|done|lia].
Qed.

Lemma uaccess_inj s va va' a : us s -> uaccess leaf va = Some a -> uaccess leaf va' = Some a -> va = va'.
Proof using Hkend Honly.
  intros Hu (j & u & Hj & Hd & Ha & _)%(uaccess_user s fs root tabs leaf ups va a Hu Honly)
    (j' & u' & Hj' & Hd' & Ha' & _)%(uaccess_user s fs root tabs leaf ups va' a Hu Honly).
  pose proof (us_pages _ _ _ _ _ _ _ Hu) as Hpg. rewrite Forall_forall in Hpg.
  destruct (Hpg u) as [Hal _]; [by eapply list_elem_of_lookup_2|]. destruct (Hpg u') as [Hal' _]; [by eapply list_elem_of_lookup_2|].
  pose proof (Z.mod_pos_bound va PGSIZE ltac:(done)). pose proof (Z.mod_pos_bound va' PGSIZE ltac:(done)).
  destruct (decide (u = u')) as [->|Hne]; [|pose proof (pages_apart u u' Hal Hal' Hne); lia].
  pose proof (us_nodup _ _ _ _ _ _ _ Hu) as (Hn & _)%NoDup_app.
  assert (j = j') as -> by by eapply (NoDup_lookup ups). 
  rewrite (Z.div_mod va PGSIZE), (Z.div_mod va' PGSIZE) by done. lia.
Qed.

Lemma us_write s m' : us s -> same_except ups (ram s) m' -> us (s <| ram := m' |>).
Proof.
  intros Hu Hs. eapply uspace_same; [exact Hs|done|done| | |exact Hu].
  - eapply pages_aligned, us_pages, Hu.
  - intros p Hp Hin. destruct (us_apart _ _ _ _ _ _ _ p Hu Hin). apply elem_of_app in Hp. tauto.
Qed.

(** The size of the chunk that lies in the page of [va]. *)
Definition chunk (va len : Z) : Z :=
  let n := PGSIZE - (va - PGROUNDDOWN va) in if len <? n then len else n.
Lemma chunk_spec va len : 0 <= va -> 0 < len ->
  0 < chunk va len <= len ∧ PGROUNDDOWN va <= va ∧ va + chunk va len <= PGROUNDDOWN va + PGSIZE
  ∧ (chunk va len = len ∨ va + chunk va len = PGROUNDDOWN va + PGSIZE).
Proof.
  intros Hva Hlen. unfold chunk. rewrite PGROUNDDOWN_eq.
  destruct (Z.ltb_spec len (PGSIZE - (va - va / PGSIZE * PGSIZE))); unfold PGSIZE in *; Z.div_mod_to_equations; lia.
Qed.
Lemma chunk_access va len pa0 i :
  0 <= va -> 0 < len -> uaccess leaf (PGROUNDDOWN va) = Some pa0 -> 0 <= i < chunk va len ->
  uaccess leaf (va + i) = Some (pa0 + (va - PGROUNDDOWN va) + i).
Proof.
  intros Hva Hlen Hpa Hi. pose proof (chunk_spec va len Hva Hlen).
  rewrite (uaccess_page leaf va (va + i)), Hpa by lia. simpl. f_equal. lia.
Qed.

Lemma memmove_in d x n m i : 0 <= i < n -> memmove d x n m (d + i) = m (x + i).
Proof.
  intros Hi. rewrite memmove_copied by lia. unfold copied. replace (d + i - d) with i by lia. cases_cmp.
Qed.
Lemma memmove_out d x n m a : 0 <= n -> (forall i, 0 <= i < n -> a ≠ d + i) -> memmove d x n m a = m a.
Proof.
  intros Hn Ha. rewrite memmove_copied by lia. unfold copied.
  destruct (Z.leb_spec d a), (Z.ltb_spec a (d + n)); simpl; try done.
  exfalso. apply (Ha (a - d)); lia.
Qed.

Lemma walkaddr_page s va : us s -> 0 <= va ->
  walkaddr root (PGROUNDDOWN va) s = Ok (match uaccess leaf (PGROUNDDOWN va) with Some a => a | None => 0 end) s.
Proof using Hkend.
  intros Hu Hva. eapply walkaddr_ok; [apply Hu| |]; rewrite PGROUNDDOWN_eq.
  - unfold PGSIZE. Z.div_mod_to_equations. lia.
  - by apply Z.mod_mul.
Qed.

(** What [copyout] promises: all bytes arrive, or some address is not accessible;
    nothing else is written. *)
Definition copyout_post (s : kmem) (dstva src len r : Z) (s' : kmem) : Prop :=
  us s'
  ∧ (r = 0 ∧ (forall i, 0 <= i < len -> exists a, uaccess leaf (dstva + i) = Some a ∧ ram s' a = ram s (src + i))
     ∨ r = -1 ∧ exists i, 0 <= i < len ∧ uaccess leaf (dstva + i) = None)
  ∧ (forall a, (forall i, 0 <= i < len -> uaccess leaf (dstva + i) ≠ Some a) -> ram s' a = ram s a).

Lemma copyout_chunk s dstva src len pa0 r s' :
  us s -> 0 <= dstva -> 0 < len -> uaccess leaf (PGROUNDDOWN dstva) = Some pa0 ->
  (forall i u, 0 <= i < len -> u ∈ ups -> ~ in_page u (src + i)) ->
  let n := chunk dstva len in
  us (s <| ram ::= memmove (pa0 + (dstva - PGROUNDDOWN dstva)) src n |>)
  ∧ (copyout_post (s <| ram ::= memmove (pa0 + (dstva - PGROUNDDOWN dstva)) src n |>)
       (PGROUNDDOWN dstva + PGSIZE) (src + n) (len - n) r s' -> copyout_post s dstva src len r s').
Proof using Hkend Honly.
  intros Hu Hva Hlen Hpa Hsrc n. pose proof (chunk_spec dstva len Hva Hlen) as (Hn & Hlo & Hhi & Hcase). fold n in Hn, Hhi, Hcase.
  pose proof (fun i => chunk_access dstva len pa0 i Hva Hlen Hpa) as Hacc. fold n in Hacc.
  set (d := pa0 + (dstva - PGROUNDDOWN dstva)) in *. set (s1 := s <| ram ::= memmove d src n |>).
  assert (Hm1 : forall a, ram s1 a = memmove d src n (ram s) a) by done.
  assert (Hu1 : us s1).
  { apply us_write; [done|]. intros a Ha. apply memmove_out; [lia|]. intros i Hi ->.
    destruct (uaccess_in s (dstva + i) (d + i) Hu (Hacc i Hi)) as (u & Hin & Hp & _). by apply (Ha u). }
  assert (Hnext : 0 < len - n -> PGROUNDDOWN dstva + PGSIZE = dstva + n) by lia.
  split; [exact Hu1|]. intros (Hu' & Hr & Hfr). split; [exact Hu'|]. split.
  - destruct Hr as [[-> Hb]|[-> (i & Hi & Hna)]]; [left|right]; (split; [done|]).
    + intros i Hi. destruct (decide (i < n)) as [Hlt|Hge].
      * exists (d + i). split; [apply Hacc; lia|]. rewrite Hfr, Hm1, memmove_in; [done|lia|].
        intros i' Hi' E. rewrite Hnext in E by lia.
        pose proof (uaccess_inj s _ _ _ Hu E (Hacc i ltac:(lia))). lia.
      * destruct (Hb (i - n) ltac:(lia)) as (a & Ha & Hv). rewrite Hnext in Ha by lia.
        exists a. split; [by replace (dstva + i) with (dstva + n + (i - n)) by lia|]. rewrite Hv, Hm1.
        replace (src + n + (i - n)) with (src + i) by lia. apply memmove_out; [lia|]. intros j Hj E.
        destruct (uaccess_in s (dstva + j) (d + j) Hu (Hacc j Hj)) as (u & Hin & Hp & _).
        apply (Hsrc i u Hi Hin). by rewrite E.
    + exists (n + i). split; [lia|]. rewrite Hnext in Hna by lia. by rewrite Z.add_assoc.
  - intros a Ha. rewrite Hfr, Hm1; [apply memmove_out; [lia|]|].
    + intros i Hi ->. apply (Ha i); [lia|]. by apply Hacc.
    + intros i Hi. rewrite Hnext by lia. rewrite <- Z.add_assoc. apply Ha. lia.
Qed.

Lemma copyout_loop_ok : forall k s dstva src len,
  us s -> 0 <= dstva -> 0 <= len < Z.of_nat k -> (forall i u, 0 <= i < len -> u ∈ ups -> ~ in_page u (src + i)) ->
  exists r s', copyout_loop k root dstva src len s = Ok r s' ∧ copyout_post s dstva src len r s'.
Proof using Hkend Honly.
  induction k as [|k IH]; intros s dstva src len Hu Hva Hlen Hsrc; [lia|]. cbn [copyout_loop].
  destruct (Z.ltb_spec 0 len) as [Hpos|Hz]; cbn [negb].
  2:{ exists 0, s. split; [done|]. split; [done|]. split; [left; split; [done|intros; lia]|done]. }
  pose proof (chunk_spec dstva len Hva Hpos) as (Hn & Hlo & Hhi & Hcase).
  rewrite (bind_Ok _ _ _ _ _ (walkaddr_page s dstva Hu Hva)).
  destruct (uaccess leaf (PGROUNDDOWN dstva)) as [pa0|] eqn:Hpa.
  - destruct (uaccess_in s _ _ Hu Hpa) as (u & _ & _ & _ & Hne). assert ((pa0 =? 0) = false) as -> by lia.
    rewrite (bind_Ok (modify _) _ s tt _ eq_refl). fold (chunk dstva len).
    destruct (copyout_chunk s dstva src len pa0 0 s Hu Hva Hpos Hpa Hsrc) as [Hu1 _].
    edestruct IH as (r & s' & Hrun & Hpost); [exact Hu1| | | |].
    4:{ exists r, s'. split; [exact Hrun|]. by eapply copyout_chunk. }
    + lia.
    + lia.
    + intros i x Hi Hx. rewrite <- Z.add_assoc. apply Hsrc; [lia|done].
  - exists (-1), s. split; [done|]. split; [done|]. split; [|done]. right. split; [done|]. exists 0. split; [lia|].
    rewrite (uaccess_page leaf dstva), Hpa by lia. done.
Qed.

(** ** copyin *)

(** A kernel buffer: [len] bytes outside the allocator's pages, the tables and the
    user pages. *)
Definition kbuf (dst len : Z) : Prop :=
  forall i p, 0 <= i < len -> p ∈ ups ++ fs ++ tab_pages tabs -> ~ in_page p (dst + i).
Lemma kbuf_tail dst len n : kbuf dst len -> 0 <= n -> kbuf (dst + n) (len - n).
Proof. intros H Hn i p Hi Hp. rewrite <- Z.add_assoc. apply H; [lia|done]. Qed.

Lemma us_buf s m' dst len :
  us s -> kbuf dst len -> (forall a, (forall i, 0 <= i < len -> a ≠ dst + i) -> m' a = ram s a) -> us (s <| ram := m' |>).
Proof.
  intros Hu Hb Hm. set (ps := (fun p => p / PGSIZE * PGSIZE) <$> ((fun i => dst + i) <$> seqZ 0 len)).
  assert (Hps : forall p, p ∈ ps -> exists i, 0 <= i < len ∧ in_page p (dst + i) ∧ p mod PGSIZE = 0).
  { intros p (x & -> & (i & -> & Hi%elem_of_seqZ)%list_elem_of_fmap)%list_elem_of_fmap. exists i. split; [lia|].
    unfold in_page, PGSIZE. split; [|apply Z.mod_mul; lia]. Z.div_mod_to_equations. lia. }
  eapply (uspace_same kend s _ fs root tabs leaf ups ps); [|done|done| | |exact Hu].
  - intros a Ha. apply Hm. intros i Hi ->. apply (Ha ((dst + i) / PGSIZE * PGSIZE)).
    + apply list_elem_of_fmap. exists (dst + i). split; [done|]. apply list_elem_of_fmap. exists i. split; [done|].
      apply elem_of_seqZ. lia.
    + unfold in_page, PGSIZE. Z.div_mod_to_equations. lia.
  - apply Forall_forall. intros p Hp. by destruct (Hps p Hp) as (? & _ & _ & ?).
  - intros p Hp Hin. destruct (Hps p Hin) as (i & Hi & Hpage & _). apply (Hb i p Hi); [apply elem_of_app; by right|done].
Qed.

Definition copyin_post (s : kmem) (dst srcva len r : Z) (s' : kmem) : Prop :=
  us s'
  ∧ (r = 0 ∧ (forall i, 0 <= i < len -> exists a, uaccess leaf (srcva + i) = Some a ∧ ram s' (dst + i) = ram s a)
     ∨ r = -1 ∧ exists i, 0 <= i < len ∧ uaccess leaf (srcva + i) = None)
  ∧ (forall a, (forall i, 0 <= i < len -> a ≠ dst + i) -> ram s' a = ram s a).

Lemma kbuf_apart s dst len va a i : us s -> kbuf dst len -> uaccess leaf va = Some a -> 0 <= i < len -> a ≠ dst + i.
Proof using Hkend Honly.
  intros Hu Hb Ha Hi ->. destruct (uaccess_in s va _ Hu Ha) as (u & Hin & Hp & _).
  apply (Hb i u Hi); [apply elem_of_app; by left|done].
Qed.

Lemma copyin_chunk s dst srcva len pa0 r s' :
  us s -> 0 <= srcva -> 0 < len -> uaccess leaf (PGROUNDDOWN srcva) = Some pa0 -> kbuf dst len ->
  let n := chunk srcva len in
  us (s <| ram ::= memmove dst (pa0 + (srcva - PGROUNDDOWN srcva)) n |>)
  ∧ (copyin_post (s <| ram ::= memmove dst (pa0 + (srcva - PGROUNDDOWN srcva)) n |>)
       (dst + n) (PGROUNDDOWN srcva + PGSIZE) (len - n) r s' -> copyin_post s dst srcva len r s').
Proof using Hkend Honly.
  intros Hu Hva Hlen Hpa Hb n. pose proof (chunk_spec srcva len Hva Hlen) as (Hn & Hlo & Hhi & Hcase). fold n in Hn, Hhi, Hcase.
  pose proof (fun i => chunk_access srcva len pa0 i Hva Hlen Hpa) as Hacc. fold n in Hacc.
  set (d := pa0 + (srcva - PGROUNDDOWN srcva)) in *. set (s1 := s <| ram ::= memmove dst d n |>).
  assert (Hm1 : forall a, ram s1 a = memmove dst d n (ram s) a) by done.
  assert (Hu1 : us s1).
  { apply (us_buf s _ dst len Hu Hb). intros a Ha. apply memmove_out; [lia|]. intros i Hi. apply Ha. lia. }
  assert (Hnext : 0 < len - n -> PGROUNDDOWN srcva + PGSIZE = srcva + n) by lia.
  split; [exact Hu1|]. intros (Hu' & Hr & Hfr). split; [exact Hu'|]. split.
  - destruct Hr as [[-> Hby]|[-> (i & Hi & Hna)]]; [left|right]; (split; [done|]).
    + intros i Hi. destruct (decide (i < n)) as [Hlt|Hge].
      * exists (d + i). split; [apply Hacc; lia|]. rewrite Hfr, Hm1, memmove_in; [done|lia|]. intros; lia.
      * destruct (Hby (i - n) ltac:(lia)) as (a & Ha & Hv). rewrite Hnext in Ha by lia.
        replace (srcva + n + (i - n)) with (srcva + i) in Ha by lia. exists a. split; [done|].
        replace (dst + i) with (dst + n + (i - n)) by lia. rewrite Hv, Hm1. apply memmove_out; [lia|].
        intros j Hj. eapply kbuf_apart; [exact Hu|exact Hb|exact Ha|lia].
    + exists (n + i). split; [lia|]. rewrite Hnext in Hna by lia. by rewrite Z.add_assoc.
  - intros a Ha. rewrite Hfr, Hm1; [apply memmove_out; [lia|]|].
    + intros i Hi. apply Ha. lia.
    + intros i Hi. rewrite <- Z.add_assoc. apply Ha. lia.
Qed.

Lemma copyin_loop_ok : forall k s dst srcva len,
  us s -> 0 <= srcva -> 0 <= len < Z.of_nat k -> kbuf dst len ->
  exists r s', copyin_loop k root dst srcva len s = Ok r s' ∧ copyin_post s dst srcva len r s'.
Proof using Hkend Honly.
  induction k as [|k IH]; intros s dst srcva len Hu Hva Hlen Hb; [lia|]. cbn [copyin_loop].
  destruct (Z.ltb_spec 0 len) as [Hpos|Hz]; cbn [negb].
  2:{ exists 0, s. split; [done|]. split; [done|]. split; [left; split; [done|intros; lia]|done]. }
  pose proof (chunk_spec srcva len Hva Hpos) as (Hn & Hlo & Hhi & Hcase).
  rewrite (bind_Ok _ _ _ _ _ (walkaddr_page s srcva Hu Hva)).
  destruct (uaccess leaf (PGROUNDDOWN srcva)) as [pa0|] eqn:Hpa.
  - destruct (uaccess_in s _ _ Hu Hpa) as (u & _ & _ & _ & Hne). assert ((pa0 =? 0) = false) as -> by lia.
    rewrite (bind_Ok (modify _) _ s tt _ eq_refl). fold (chunk srcva len).
    destruct (copyin_chunk s dst srcva len pa0 0 s Hu Hva Hpos Hpa Hb) as [Hu1 _].
    edestruct IH as (r & s' & Hrun & Hpost); [exact Hu1| | | |].
    4:{ exists r, s'. split; [exact Hrun|]. by eapply copyin_chunk. }
    + lia.
    + lia.
    + apply kbuf_tail; [done|lia].
  - exists (-1), s. split; [done|]. split; [done|]. split; [|done]. right. split; [done|]. exists 0. split; [lia|].
    rewrite (uaccess_page leaf srcva), Hpa by lia. done.
Qed.

(** ** copyinstr *)

(** Bytes [0 .. k) of a string at [p] are not 0, and are now at [dst]. *)
Definition moved (m m' : mem) (p dst k : Z) : Prop :=
  forall i, 0 <= i < k -> m (p + i) ≠ 0 ∧ m' (dst + i) = m (p + i).

Lemma copyinstr_bytes_ok n : forall p dst m,
  (forall i j, 0 <= i < Z.of_nat n -> 0 <= j < Z.of_nat n -> p + i ≠ dst + j) ->
  exists got dst' m', copyinstr_bytes n p dst m = (got, dst', m')
  ∧ (forall a, (forall i, 0 <= i < Z.of_nat n -> a ≠ dst + i) -> m' a = m a)
  ∧ match got with
    | true => exists k, 0 <= k < Z.of_nat n ∧ moved m m' p dst k ∧ m (p + k) = 0 ∧ m' (dst + k) = 0
    | false => dst' = dst + Z.of_nat n ∧ moved m m' p dst (Z.of_nat n)
    end.
Proof.
  induction n as [|n IH]; intros p dst m Hd; cbn [copyinstr_bytes].
  { exists false, dst, m. split; [done|]. split; [done|]. split; [simpl; lia|]. intros i Hi. lia. }
  rewrite Nat2Z.inj_succ in *. destruct (Z.eqb_spec (m p) 0) as [Hz|Hnz].
  - exists true, dst, (upd m dst 0). split; [done|]. split.
    + intros a Ha. apply upd_ne. specialize (Ha 0). lia.
    + exists 0. rewrite !Z.add_0_r, upd_eq. split_and!; [lia|lia| |done|done]. intros i Hi. lia.
  - destruct (IH (p + 1) (dst + 1) (upd m dst (m p))) as (got & dst' & m' & Hrun & Hfr & Hpost).
    { intros i j Hi Hj. specialize (Hd (i + 1) (j + 1)). lia. }
    assert (Hsrc : forall i, 0 <= i < Z.succ (Z.of_nat n) -> upd m dst (m p) (p + i) = m (p + i)).
    { intros i Hi. apply upd_ne. specialize (Hd i 0). lia. }
    assert (Hmv : forall k, k <= Z.of_nat n -> moved (upd m dst (m p)) m' (p + 1) (dst + 1) k -> moved m m' p dst (k + 1)).
    { intros k Hk Hmv i Hi. destruct (decide (i = 0)) as [->|].
      - rewrite !Z.add_0_r. split; [done|]. rewrite Hfr by (intros; lia). by rewrite upd_eq.
      - destruct (Hmv (i - 1) ltac:(lia)) as [H1 H2]. replace (p + 1 + (i - 1)) with (p + i) in * by lia.
        replace (dst + 1 + (i - 1)) with (dst + i) in * by lia. by rewrite Hsrc in * by lia. }
    exists got, dst', m'. split; [done|]. split.
    + intros a Ha. rewrite Hfr by (intros i Hi; specialize (Ha (i + 1)); lia). apply upd_ne. specialize (Ha 0). lia.
    + destruct got.
      * destruct Hpost as (k & Hk & H1 & H2 & H3). exists (k + 1). split; [lia|]. split; [apply Hmv; [lia|done]|].
        replace (p + (k + 1)) with (p + 1 + k) by lia. replace (dst + (k + 1)) with (dst + 1 + k) by lia. split; [|done].
        rewrite <- H2. replace (p + 1 + k) with (p + (k + 1)) by lia. symmetry. apply Hsrc. lia.
      * destruct Hpost as [-> Hm']. split; [lia|]. replace (Z.succ (Z.of_nat n)) with (Z.of_nat n + 1) by lia. apply Hmv; [lia|done].
Qed.

(** Bytes [0 .. k) of the user string at [srcva] are accessible, not 0, and copied. *)
Definition ustring (s s' : kmem) (dst srcva k : Z) : Prop :=
  forall i, 0 <= i < k -> exists a, uaccess leaf (srcva + i) = Some a ∧ ram s a ≠ 0 ∧ ram s' (dst + i) = ram s a.
Definition copyinstr_post (s : kmem) (dst srcva max r : Z) (s' : kmem) : Prop :=
  us s'
  ∧ (forall a, (forall i, 0 <= i < max -> a ≠ dst + i) -> ram s' a = ram s a)
  ∧ (exists k, 0 <= k <= max ∧ ustring s s' dst srcva k
     ∧ (r = 0 ∧ k < max ∧ (exists a, uaccess leaf (srcva + k) = Some a ∧ ram s a = 0) ∧ ram s' (dst + k) = 0
        ∨ r = -1 ∧ (k = max ∨ uaccess leaf (srcva + k) = None))).

(** The rest of the string follows a chunk without a 0. *)
Lemma copyinstr_next s s1 s' dst srcva max n r :
  us s -> 0 < n <= max -> kbuf dst max ->
  (forall i, 0 <= i < n -> exists a, uaccess leaf (srcva + i) = Some a ∧ ram s a ≠ 0 ∧ ram s1 (dst + i) = ram s a) ->
  (forall a, (forall i, 0 <= i < n -> a ≠ dst + i) -> ram s1 a = ram s a) ->
  copyinstr_post s1 (dst + n) (srcva + n) (max - n) r s' -> copyinstr_post s dst srcva max r s'.
Proof using Hkend Honly.
  intros Hu Hn Hb Hch Hfr1 (Hu' & Hfr & k & Hk & Hstr & Hr).
  assert (Hbyte : forall a i, uaccess leaf (srcva + i) = Some a -> ram s1 a = ram s a).
  { intros a i Ha. apply Hfr1. intros j Hj. eapply kbuf_apart; [exact Hu|exact Hb|exact Ha|lia]. }
  split; [done|]. split.
  - intros a Ha. rewrite Hfr, Hfr1; [done| |].
    + intros i Hi. apply Ha. lia. + intros i Hi. rewrite <- Z.add_assoc. apply Ha. lia.
  - exists (n + k). split; [lia|]. rewrite <- !Z.add_assoc in Hr. split.
    + intros i Hi. destruct (decide (i < n)) as [Hlt|Hge].
      * destruct (Hch i ltac:(lia)) as (a & H1 & H2 & H3). exists a. split_and!; try done. rewrite Hfr by (intros; lia). done.
      * destruct (Hstr (i - n) ltac:(lia)) as (a & H1 & H2 & H3). replace (srcva + n + (i - n)) with (srcva + i) in * by lia.
        replace (dst + n + (i - n)) with (dst + i) in * by lia. rewrite (Hbyte a i H1) in *. by exists a.
    + destruct Hr as [(-> & ? & (a & H1 & H2) & H3)|(-> & [->|H1])]; [left|right|right].
      * split_and!; [done|lia| |done]. exists a. split; [done|]. by rewrite <- (Hbyte a (n + k)).
      * split; [done|]. left. lia.
      * split; [done|]. by right.
Qed.

Lemma copyinstr_loop_ok : forall k s dst srcva max,
  us s -> 0 <= srcva -> 0 <= max < Z.of_nat k -> kbuf dst max ->
  exists r s', copyinstr_loop k root dst srcva max s = Ok r s' ∧ copyinstr_post s dst srcva max r s'.
Proof using Hkend Honly.
  induction k as [|k IH]; intros s dst srcva max Hu Hva Hmax Hb; [lia|]. cbn [copyinstr_loop].
  destruct (Z.ltb_spec 0 max) as [Hpos|Hz]; cbn [negb].
  2:{ exists (-1), s. split; [done|]. split; [done|]. split; [done|]. exists 0. split; [lia|]. split; [intros i Hi; lia|].
      right. split; [done|]. left. lia. }
  pose proof (chunk_spec srcva max Hva Hpos) as (Hn & Hlo & Hhi & Hcase).
  rewrite (bind_Ok _ _ _ _ _ (walkaddr_page s srcva Hu Hva)).
  destruct (uaccess leaf (PGROUNDDOWN srcva)) as [pa0|] eqn:Hpa.
  2:{ exists (-1), s. split; [done|]. split; [done|]. split; [done|]. exists 0. split; [lia|]. split; [intros i Hi; lia|].
      right. split; [done|]. right. rewrite (uaccess_page leaf srcva), Hpa by lia. done. }
  destruct (uaccess_in s _ _ Hu Hpa) as (u & _ & _ & _ & Hne). assert ((pa0 =? 0) = false) as -> by lia.
  rewrite (bind_Ok (gets ram) _ s (ram s) s eq_refl). fold (chunk srcva max). set (n := chunk srcva max) in *.
  pose proof (fun i => chunk_access srcva max pa0 i Hva Hpos Hpa) as Hacc. fold n in Hacc.
  set (p := pa0 + (srcva - PGROUNDDOWN srcva)) in *.
  destruct (copyinstr_bytes_ok (Z.to_nat n) p dst (ram s)) as (got & dst' & m' & -> & Hfr & Hpost).
  { rewrite Z2Nat.id by lia. intros i j Hi Hj. eapply kbuf_apart; [exact Hu|exact Hb|by apply Hacc|lia]. }
  rewrite Z2Nat.id in * by lia. rewrite (bind_Ok (modify _) _ s tt _ eq_refl).
  assert (Hu1 : us (s <| ram := m' |>)).
  { apply (us_buf s m' dst max Hu Hb). intros a Ha. apply Hfr. intros i Hi. apply Ha. lia. }
  assert (Hstr : forall k', k' <= n -> moved (ram s) m' p dst k' -> ustring s (s <| ram := m' |>) dst srcva k').
  { intros k' Hk' Hmv i Hi. destruct (Hmv i Hi). exists (p + i). split; [apply Hacc; lia|done]. }
  destruct got.
  - exists 0, (s <| ram := m' |>). split; [done|]. split; [exact Hu1|]. split; [intros a Ha; apply Hfr; intros i Hi; apply Ha; lia|].
    destruct Hpost as (j & Hj & Hmv & Hz & Hz'). exists j. split; [lia|]. split; [apply Hstr; [lia|done]|]. left.
    split_and!; [done|lia| |done]. exists (p + j). split; [by apply Hacc|done].
  - destruct Hpost as [-> Hmv]. assert (Hnext : 0 < max - n -> PGROUNDDOWN srcva + PGSIZE = srcva + n) by lia.
    destruct (IH (s <| ram := m' |>) (dst + n) (PGROUNDDOWN srcva + PGSIZE) (max - n)) as (r & s' & Hrun & Hp);
      [done|lia|lia|apply kbuf_tail; [done|lia]|].
    exists r, s'. split; [exact Hrun|]. eapply (copyinstr_next s (s <| ram := m' |>) s' dst srcva max n); try done.
    + apply (Hstr n); [lia|done].
    + destruct (decide (0 < max - n)) as [Hp0|Hp0]; [by rewrite <- Hnext|].
      destruct Hp as (A1 & A2 & j & Hj & _ & Hr). split; [done|]. split; [done|]. exists j. split; [done|].
      split; [intros i Hi; lia|]. destruct Hr as [(-> & ? & _)|(-> & Hr)]; [lia|]. right. split; [done|]. left. lia.
Qed.
End bytes.
End copy.
