(* ===== verification/VmFree.v ===== *)
(** * VmFree: freeing a page table

    [freewalk] returns every table page of a page table without leaf mappings to
    the allocator: the subtree below each entry is freed, then the entry cleared,
    and last the table itself. *)

From stdpp Require Import gmap.
From S2P Require Import Prelude KState SleepLock MemC Kalloc Vm VmRep VmMap VmUser.

#[local] Opaque memset memmove st64 ld64.

Section free.
Context (kend : Z) (Hkend : 0 < kend).

(** The tables under [q], and the others. *)
Definition under (q : list Z) (tabs : tables) : tables := filter (fun kv => q `prefix_of` kv.1) tabs.
Definition beside (q : list Z) (tabs : tables) : tables := filter (fun kv => ¬ q `prefix_of` kv.1) tabs.
Definition rooted (p : list Z) (tabs : tables) : Prop := forall q t, tabs !! q = Some t -> p `prefix_of` q.

Lemma under_Some q tabs p t : under q tabs !! p = Some t <-> tabs !! p = Some t ∧ q `prefix_of` p.
Proof. unfold under. by rewrite map_lookup_filter_Some. Qed.
Lemma beside_Some q tabs p t : beside q tabs !! p = Some t <-> tabs !! p = Some t ∧ ¬ q `prefix_of` p.
Proof. unfold beside. by rewrite map_lookup_filter_Some. Qed.
Lemma under_lookup q tabs p : q `prefix_of` p -> under q tabs !! p = tabs !! p.
Proof. intros Hp. apply option_eq. intros t. rewrite under_Some. tauto. Qed.
Lemma beside_lookup q tabs p : ¬ q `prefix_of` p -> beside q tabs !! p = tabs !! p.
Proof. intros Hp. apply option_eq. intros t. rewrite beside_Some. tauto. Qed.

Lemma prefix_snoc (q p : list Z) j : q `prefix_of` p ++ [j] -> q = p ++ [j] ∨ q `prefix_of` p.
Proof.
  intros [k Hk]. destruct k as [|x k _] using rev_ind.
  - left. by rewrite app_nil_r in Hk.
  - right. rewrite app_assoc in Hk. apply app_inj_tail in Hk as [-> _]. by exists k.
Qed.
Lemma prefix_snoc_self (p : list Z) i : ¬ p ++ [i] `prefix_of` p.
Proof. intros H%prefix_length. rewrite length_app in H. simpl in H. lia. Qed.

Lemma tab_pages_nodup m base tabs leaf : forest kend m base tabs leaf -> NoDup (tab_pages tabs).
Proof.
  intros Hf. unfold tab_pages. apply NoDup_fmap_2_strong; [|apply NoDup_map_to_list].
  intros [p t] [p' t'] H%elem_of_map_to_list H'%elem_of_map_to_list [= ->].
  f_equal. by eapply (fo_inj _ _ _ _ _ Hf).
Qed.

Section entry.
Context (m : mem) (p : list Z) (tabs : tables) (leaf : Z -> Z) (t i : Z).
Hypothesis (Hf : forest kend m p tabs leaf) (Ht : tabs !! p = Some t) (Hi : 0 <= i < 512).
Abbreviation q := (p ++ [i]).

Lemma under_forest : forest kend m q (under q tabs) leaf.
Proof using Hf Ht.
  destruct Hf as [Hinj Hpg Hpath Hdir Hleaf]. split.
  - intros p1 p2 x [H1 _]%under_Some [H2 _]%under_Some. by eapply Hinj.
  - intros p1 x [H1 _]%under_Some. by eapply Hpg.
  - intros p1 j x [H1 Hpre]%under_Some. destruct (Hpath p1 j x H1) as (Hj & Hlen & Hor). split; [done|]. split; [done|].
    apply prefix_snoc in Hpre as [<- | Hpre]; [by left|right]. destruct Hor as [<- | [y Hy]].
    + exfalso. apply (prefix_snoc_self (p1 ++ [j]) i). etrans; [exact Hpre|]. by exists [j].
    + exists y. by rewrite under_lookup.
  - intros p1 x j [H1 Hpre]%under_Some Hlen Hj. rewrite under_lookup; [by apply Hdir|].
    etrans; [exact Hpre|]. by exists [j].
  - intros i2 i1 i0 x [H1 _]%under_Some. by apply Hleaf.
Qed.

Lemma split_pages_perm : tab_pages tabs ≡ₚ tab_pages (under q tabs) ++ tab_pages (beside q tabs).
Proof using Hf Ht.
  apply NoDup_Permutation.
  - by eapply tab_pages_nodup.
  - apply NoDup_app. split_and!; [eapply tab_pages_nodup, under_forest| |].
    + intros x [p1 [H1 Hp]%under_Some]%in_tab_pages [p2 [H2 Hn]%beside_Some]%in_tab_pages.
      by rewrite (fo_inj _ _ _ _ _ Hf _ _ _ H1 H2) in Hp.
    + unfold tab_pages. apply NoDup_fmap_2_strong; [|apply NoDup_map_to_list].
      intros [p1 t1] [p2 t2] [H1 _]%elem_of_map_to_list%beside_Some [H2 _]%elem_of_map_to_list%beside_Some [= ->].
      f_equal. by eapply (fo_inj _ _ _ _ _ Hf).
  - intros x. rewrite elem_of_app, !in_tab_pages. split.
    + intros [p1 H1]. destruct (decide (q `prefix_of` p1)).
      * left. exists p1. by apply under_Some. * right. exists p1. by apply beside_Some.
    + intros [[p1 [H1 _]%under_Some]|[p1 [H1 _]%beside_Some]]; by exists p1.
Qed.

(** The subtree is gone and its entry cleared. *)
Lemma beside_forest m' :
  (length p < 2)%nat -> rooted p tabs -> same_except (tab_pages (under q tabs)) m m' ->
  forest kend (st64 m' (pte_addr t i) 0) p (beside q tabs) leaf.
Proof using Hf Ht Hi.
  intros Hlen Hroot Hs. pose proof Hf as [Hinj Hpg Hpath Hdir Hleaf].
  assert (Hal : Forall (fun x => x mod PGSIZE = 0) (tab_pages (under q tabs))) by eapply forest_aligned, under_forest.
  assert (Hout : forall p1 x, beside q tabs !! p1 = Some x -> x ∉ tab_pages (under q tabs)).
  { intros p1 x [H1 Hn]%beside_Some [p2 [H2 Hp]%under_Some]%in_tab_pages. by rewrite (Hinj _ _ _ H1 H2) in Hn. }
  assert (Hword : forall p1 x j, beside q tabs !! p1 = Some x -> 0 <= j < 512 -> (x, j) ≠ (t, i) ->
    ld64 (st64 m' (pte_addr t i) 0) (pte_addr x j) = ld64 m (pte_addr x j)).
  { intros p1 x j H1 Hj Hne. pose proof (Hout _ _ H1). apply beside_Some in H1 as [H1 _]. destruct (Hpg _ _ H1), (Hpg _ _ Ht).
    rewrite ld64_other by (apply pte_apart; done). destruct (pte_in_page x j Hj). by apply (ld64_page (tab_pages (under q tabs)) m m' x). }
  split.
  - intros p1 p2 x [H1 _]%beside_Some [H2 _]%beside_Some. by eapply Hinj.
  - intros p1 x [H1 _]%beside_Some. by eapply Hpg.
  - intros p1 j x [H1 Hn]%beside_Some. destruct (Hpath p1 j x H1) as (Hj & Hl & Hor). split; [done|]. split; [done|].
    destruct Hor as [?|[y Hy]]; [by left|right]. exists y. rewrite beside_lookup; [done|].
    intros Hp. apply Hn. etrans; [exact Hp|]. by exists [j].
  - intros p1 x j H1 Hl Hj. destruct (decide ((x, j) = (t, i))) as [[= -> ->]|Hne].
    + apply beside_Some in H1 as [H1 _]. rewrite (Hinj _ _ _ H1 Ht), ld64_st64.
      destruct (beside q tabs !! q) eqn:E; [|done]. by apply beside_Some in E as [_ []].
    + rewrite (Hword p1 x j H1 Hj Hne). apply beside_Some in H1 as [H1 Hn]. rewrite (Hdir p1 x j H1 Hl Hj).
      rewrite beside_lookup; [done|]. intros [E|E]%prefix_snoc; [|done].
      apply app_inj_tail in E as [-> ->]. apply Hne. congruence.
  - intros i2 i1 i0 x H1 Hi0. rewrite (Hword _ x i0 H1 Hi0); [apply beside_Some in H1 as [H1 _]; by apply Hleaf|].
    intros [= -> _]. apply beside_Some in H1 as [H1 _]. pose proof (Hinj _ _ _ H1 Ht) as <-. simpl in Hlen. lia.
Qed.
End entry.

(** No entry of a bottom table maps a page. *)
Definition no_leaves (tabs : tables) (leaf : Z -> Z) : Prop :=
  forall i2 i1 i0 t, tabs !! [i2; i1] = Some t -> 0 <= i0 < 512 -> has PTE_V (leaf (vpn i2 i1 i0)) = false.

(** The state while the tables [tabs] wait to be freed. *)
Record freeing (s : kmem) (fs : list Z) (p : list Z) (tabs : tables) (leaf : Z -> Z) (t : Z) : Prop := {
  fr_kmem : kmem_ok kend s fs;
  fr_forest : forest kend (ram s) p tabs leaf;
  fr_top : tabs !! p = Some t;
  fr_rooted : rooted p tabs;
  fr_len : (length p <= 2)%nat;
  fr_apart : forall x, x ∈ tab_pages tabs -> x ∉ fs;
  fr_leaves : no_leaves tabs leaf
}.

Definition freewalk_ok (depth : nat) : Prop := forall s fs p tabs leaf t,
  freeing s fs p tabs leaf t -> (3 <= length p + depth)%nat ->
  exists s' fs', freewalk kend depth t s = Ok tt s' ∧ kmem_ok kend s' fs'
    ∧ fs' ≡ₚ fs ++ tab_pages tabs ∧ same_except (tab_pages tabs) (ram s) (ram s').

Definition freewalk_body (depth : nat) (pagetable i : Z) : M kmem unit :=
  pte ← load (pte_addr pagetable i);
  if has PTE_V pte && (Z.land pte (Z.lor (Z.lor PTE_R PTE_W) PTE_X) =? 0) then
    freewalk kend depth (PTE2PA pte);;
    store (pte_addr pagetable i) 0
  else when (has PTE_V pte) (panic "freewalk: leaf").

(** The subtree below an entry, and what is left once it is freed. *)
Lemma freeing_under s fs p tabs leaf t i c :
  freeing s fs p tabs leaf t -> (length p < 2)%nat -> tabs !! (p ++ [i]) = Some c ->
  freeing s fs (p ++ [i]) (under (p ++ [i]) tabs) leaf c.
Proof.
  intros [Hk Hf Ht Hroot Hlen Hap Hl] Hlt Hc.
  split; [done|by eapply under_forest|by apply under_Some| |rewrite length_app; simpl; lia| |].
  - by intros q x [_ Hq]%under_Some.
  - intros x Hx. apply Hap. rewrite (split_pages_perm (ram s) p tabs leaf t i Hf Ht), elem_of_app. by left.
  - intros i2 i1 i0 x [H1 _]%under_Some. by eapply Hl.
Qed.

Lemma freeing_beside s fs p tabs leaf t i s1 fs1 :
  freeing s fs p tabs leaf t -> (length p < 2)%nat -> 0 <= i < 512 -> kmem_ok kend s1 fs1 ->
  fs1 ≡ₚ fs ++ tab_pages (under (p ++ [i]) tabs) -> same_except (tab_pages (under (p ++ [i]) tabs)) (ram s) (ram s1) ->
  freeing (s1 <| ram ::= fun m => st64 m (pte_addr t i) 0 |>) fs1 p (beside (p ++ [i]) tabs) leaf t.
Proof.
  intros [Hk Hf Ht Hroot Hlen Hap Hl] Hlt Hi Hk1 Hp1 Hs1. destruct (pte_in_page t i Hi) as [Ha Hb].
  assert (Hnin : t ∉ tab_pages (under (p ++ [i]) tabs)).
  { intros [q [Hq Hpre]%under_Some]%in_tab_pages. pose proof (fo_inj _ _ _ _ _ Hf _ _ _ Hq Ht) as ->. by apply prefix_snoc_self in Hpre. }
  assert (Htin : t ∈ tab_pages tabs) by (apply in_tab_pages; by exists p).
  pose proof (split_pages_perm (ram s) p tabs leaf t i Hf Ht) as Hsp. split.
  - eapply kmem_same; [exact (same_st64 t (pte_addr t i) 0 (ram s1) Ha Hb)|done|done|constructor; [by eapply (fo_page _ _ _ _ _ Hf)|done]| |done].
    intros x Hx ->%list_elem_of_singleton. rewrite Hp1, elem_of_app in Hx. destruct Hx as [Hx|Hx]; [by apply (Hap t)|done].
  - by eapply beside_forest.
  - apply beside_Some. split; [done|]. apply prefix_snoc_self.
  - intros q x [Hq _]%beside_Some. by eapply Hroot.
  - done.
  - intros x Hx. rewrite Hp1, elem_of_app. intros [Hin|Hin]; [by apply (Hap x); [rewrite Hsp, elem_of_app; right|]|].
    pose proof (tab_pages_nodup _ _ _ _ Hf) as Hnd. rewrite Hsp in Hnd. apply NoDup_app in Hnd as (_ & Hnd & _). by apply (Hnd x).
  - intros i2 i1 i0 x [H1 _]%beside_Some. by eapply Hl.
Qed.

(** One entry. *)
Lemma freewalk_entry depth s fs p tabs leaf t i :
  freewalk_ok depth -> freeing s fs p tabs leaf t -> (3 <= length p + S depth)%nat -> 0 <= i < 512 ->
  exists s' fs' tabs', freewalk_body depth t i s = Ok tt s' ∧ freeing s' fs' p tabs' leaf t
    ∧ fs' ++ tab_pages tabs' ≡ₚ fs ++ tab_pages tabs ∧ same_except (tab_pages tabs) (ram s) (ram s')
    ∧ tabs' ⊆ tabs ∧ tabs' !! (p ++ [i]) = None.
Proof using Hkend.
  intros IH Hfree Hd Hi. pose proof Hfree as [Hk Hf Ht Hroot Hlen Hap Hl]. unfold freewalk_body.
  rewrite (bind_Ok (load _) _ s _ s eq_refl).
  destruct (decide (length p < 2)%nat) as [Hlt|Hge].
  - rewrite (fo_dir _ _ _ _ _ Hf p t i Ht Hlt Hi). destruct (tabs !! (p ++ [i])) as [c|] eqn:Hc.
    2:{ exists s, fs, tabs. split; [done|]. split; [done|]. split_and!; [done|apply same_refl|reflexivity|done]. }
    pose proof (fo_page _ _ _ _ _ Hf _ _ Hc) as Hcp. destruct (dir_some kend Hkend c Hcp) as [HV Hpa]. rewrite HV, Hpa.
    assert ((Z.land (dir_entry (Some c)) (Z.lor (Z.lor PTE_R PTE_W) PTE_X) =? 0) = true) as ->.
    { simpl. rewrite PTE_low; [done|by apply (page_frame kend)|done|done]. }
    cbn [andb]. pose proof (split_pages_perm (ram s) p tabs leaf t i Hf Ht) as Hsp.
    destruct (IH s fs (p ++ [i]) (under (p ++ [i]) tabs) leaf c) as (s1 & fs1 & Hrun & Hk1 & Hp1 & Hs1).
    { by eapply freeing_under. } { rewrite length_app. simpl. lia. }
    rewrite (bind_Ok _ _ _ _ _ Hrun). eexists _, fs1, (beside (p ++ [i]) tabs). split; [reflexivity|].
    destruct (pte_in_page t i Hi) as [Ha Hb]. split; [by eapply freeing_beside|]. split_and!.
    + rewrite Hp1, Hsp. by rewrite app_assoc.
    + eapply same_trans; [eapply same_mono, Hs1; intros x Hx; rewrite Hsp, elem_of_app; by left|].
      apply (same_one t); [apply in_tab_pages; by exists p|]. exact (same_st64 t (pte_addr t i) 0 (ram s1) Ha Hb).
    + apply map_filter_subseteq.
    + destruct (beside _ _ !! _) eqn:E; [|done]. by apply beside_Some in E as [_ []].
  - destruct p as [|i2 [|i1 [|? ?]]]; simpl in Hge, Hlen; try lia.
    rewrite (fo_leaf _ _ _ _ _ Hf i2 i1 i t Ht Hi), (Hl i2 i1 i t Ht Hi). simpl.
    exists s, fs, tabs. split; [done|]. split; [done|]. split_and!; [done|apply same_refl|reflexivity|].
    destruct (tabs !! [i2; i1; i]) eqn:E; [|done]. apply (fo_path _ _ _ _ _ Hf [i2; i1]) in E as (_ & E & _). simpl in E. lia.
Qed.

Lemma freewalk_entries depth idx : forall s fs p tabs leaf t,
  freewalk_ok depth -> freeing s fs p tabs leaf t -> (3 <= length p + S depth)%nat -> (forall i, i ∈ idx -> 0 <= i < 512) ->
  exists s' fs' tabs', for_each idx (freewalk_body depth t) s = Ok tt s' ∧ freeing s' fs' p tabs' leaf t
    ∧ fs' ++ tab_pages tabs' ≡ₚ fs ++ tab_pages tabs ∧ same_except (tab_pages tabs) (ram s) (ram s')
    ∧ tabs' ⊆ tabs ∧ (forall i, i ∈ idx -> tabs' !! (p ++ [i]) = None).
Proof using Hkend.
  induction idx as [|i idx IHis]; intros s fs p tabs leaf t IH Hfree Hd His; cbn [for_each].
  { exists s, fs, tabs. split; [done|]. split; [done|]. split_and!; [done|apply same_refl|reflexivity|by intros ? ?%elem_of_nil]. }
  destruct (freewalk_entry depth s fs p tabs leaf t i IH Hfree Hd) as (s1 & fs1 & tabs1 & Hrun1 & Hf1 & Hp1 & Hs1 & Hsub1 & Hn1); [apply His; left|].
  rewrite (bind_Ok _ _ _ _ _ Hrun1).
  destruct (IHis s1 fs1 p tabs1 leaf t IH Hf1 Hd) as (s2 & fs2 & tabs2 & Hrun2 & Hf2 & Hp2 & Hs2 & Hsub2 & Hn2);
    [intros j Hj; apply His; by right|].
  exists s2, fs2, tabs2. split; [done|]. split; [done|]. split_and!.
  - by rewrite Hp2.
  - eapply same_trans; [exact Hs1|]. eapply same_mono, Hs2. by apply tab_pages_mono.
  - by etrans.
  - intros j [-> | Hj]%elem_of_cons; [|by apply Hn2]. by eapply lookup_weaken_None.
Qed.

(** Without children only the table itself is left. *)
Lemma freeing_alone s fs p tabs leaf t :
  freeing s fs p tabs leaf t -> (forall i, 0 <= i < 512 -> tabs !! (p ++ [i]) = None) -> tab_pages tabs = [t].
Proof.
  intros [_ Hf Ht Hroot _ _ _] Hn.
  assert (Hall : forall q x, tabs !! q = Some x -> q = p).
  { induction q as [|j q IHq] using rev_ind; intros x Hq.
    - apply Hroot in Hq as [k Hk]. by symmetry in Hk; apply app_eq_nil in Hk as [-> _].
    - destruct (fo_path _ _ _ _ _ Hf q j x Hq) as (Hj & _ & [?|[y Hy]]); [done|].
      rewrite (IHq y Hy) in *. by rewrite Hn in Hq. }
  assert (tabs = {[p := t]}) as ->; [|unfold tab_pages; by rewrite map_to_list_singleton].
  apply map_eq. intros q. destruct (decide (q = p)) as [->|Hne]; [by rewrite lookup_singleton_eq|].
  rewrite lookup_singleton_ne by done. destruct (tabs !! q) eqn:E; [|done]. by apply Hall in E.
Qed.

Lemma freewalk_all depth : freewalk_ok depth.
Proof using Hkend.
  induction depth as [|depth IH]; intros s fs p tabs leaf t Hfree Hd.
  { pose proof (fr_len _ _ _ _ _ _ Hfree). lia. }
  change (freewalk kend (S depth) t) with (for_each (seqZ 0 512) (freewalk_body depth t);; kfree kend t).
  destruct (freewalk_entries depth (seqZ 0 512) s fs p tabs leaf t IH Hfree Hd) as (s1 & fs1 & tabs1 & Hrun & Hf1 & Hp1 & Hs1 & _ & Hn1).
  { intros i Hi%elem_of_seqZ. lia. }
  pose proof (freeing_alone s1 fs1 p tabs1 leaf t Hf1) as Hone. rewrite Hone in Hp1; [|intros i Hi; apply Hn1, elem_of_seqZ; lia].
  rewrite (bind_Ok _ _ _ _ _ Hrun).
  assert (Htin : t ∈ tab_pages tabs1) by (apply in_tab_pages; exists p; apply Hf1).
  destruct (kfree_ok kend Hkend s1 fs1 t (fr_kmem _ _ _ _ _ _ Hf1)) as (s2 & Hk2 & Hok2 & Hs2).
  { eapply (fo_page _ _ _ _ _ (fr_forest _ _ _ _ _ _ Hf1)), (fr_top _ _ _ _ _ _ Hf1). }
  { by apply (fr_apart _ _ _ _ _ _ Hf1). }
  exists s2, (t :: fs1). split; [done|]. split; [done|]. split; [rewrite <- Hp1; by rewrite Permutation_app_comm|].
  eapply same_trans; [exact Hs1|]. apply (same_one t), Hs2. apply in_tab_pages. exists p. apply (fr_top _ _ _ _ _ _ Hfree).
Qed.

Lemma uvmfree_ok fuel s fs root tabs leaf ups sz :
  uspace kend s fs root tabs leaf ups -> 0 <= sz <= TRAPFRAME -> length ups = npages sz ->
  (forall v, user_top <= v < 512 * 512 * 512 -> leaf v = 0) -> (length ups < fuel)%nat -> (3 <= fuel)%nat ->
  exists s' fs', uvmfree kend fuel root sz s = Ok tt s' ∧ kmem_ok kend s' fs'
    ∧ fs' ≡ₚ ups ++ fs ++ tab_pages tabs ∧ same_except (ups ++ tab_pages tabs) (ram s) (ram s').
Proof using Hkend.
  intros Hu Hsz Hlen Htop Hf H3. unfold uvmfree.
  assert (HT : TRAPFRAME <= MAXVA) by done.
  destruct (uspace_cut kend Hkend fuel s fs root tabs leaf ups 0) as (s1 & Hrun & Hu1 & Hs1); [lia|lia|done|].
  rewrite drop_0, take_0, Nat.sub_0_r in *. change (Z.of_nat 0 * PGSIZE) with 0 in Hrun.
  assert (Hfirst : exists s1' fs1', when (0 <? sz) (uvmunmap kend fuel root 0 (PGROUNDUP sz / PGSIZE) true) s = Ok tt s1'
    ∧ uspace kend s1' fs1' root tabs (clear_range leaf 0 (length ups)) [] ∧ fs1' ≡ₚ ups ++ fs
    ∧ same_except (ups ++ tab_pages tabs) (ram s) (ram s1')).
  { rewrite PGROUNDUP_npages by lia. rewrite Z.div_mul, <- Hlen by done. destruct (Z.ltb_spec 0 sz).
    - exists s1, (reverse ups ++ fs). split_and!; [exact Hrun|exact Hu1|by rewrite reverse_Permutation|exact Hs1].
    - assert (sz = 0) as -> by lia. assert (length ups = 0%nat) as H0 by (rewrite Hlen; done). apply nil_length_inv in H0 as ->.
      exists s, fs. split_and!; [done|done|done|apply same_refl]. }
  destruct Hfirst as (s2 & fs2 & Hw & Hu2 & Hp2 & Hs2). rewrite (bind_Ok _ _ _ _ _ Hw).
  destruct Hu2 as [[Hk2 Hf2 Hr2 Hn2 Hfr2] _ U3 _ _ _].
  destruct (freewalk_all fuel s2 fs2 [] tabs (clear_range leaf 0 (length ups)) root) as (s3 & fs3 & Hr3 & Hk3 & Hp3 & Hs3).
  - split; [done|done|done| |simpl; lia| |].
    + intros q t _. apply prefix_nil.
    + intros x [p Hp]%in_tab_pages. by eapply Hfr2.
    + intros i2 i1 i0 t Ht Hi0. destruct (fo_path _ _ _ _ _ Hf2 [i2] i1 t Ht) as (Hi1 & _ & [|[t1 Ht1]]); [done|].
      destruct (fo_path _ _ _ _ _ Hf2 [] i2 t1 Ht1) as (Hi2 & _ & _).
      assert (Hz : clear_range leaf 0 (length ups) (vpn i2 i1 i0) = 0); [|by rewrite Hz].
      rewrite clear_range_eq. simpl. destruct (decide (vpn i2 i1 i0 < user_top)) as [Hlt|Hge].
      * pose proof (U3 (vpn i2 i1 i0) ltac:(unfold vpn in *; simpl; lia)) as Hz. by rewrite clear_range_eq in Hz.
      * rewrite Htop by (unfold vpn in *; lia). by destruct (_ && _).
  - simpl. lia.
  - exists s3, fs3. split; [done|]. split; [done|]. split; [rewrite Hp3, Hp2; by rewrite <- app_assoc|].
    eapply same_trans; [exact Hs2|]. eapply same_mono, Hs3. intros x Hx. apply elem_of_app. by right.
Qed.
End free.
