(* ===== verification/VmProps.v ===== *)
(** * VmProps: what kernel/vm.c guarantees

    Growing and shrinking an address space, duplicating it, freeing it, and
    moving data across the user boundary. *)

From stdpp Require Import gmap.
From S2P Require Import Prelude KState SleepLock MemC Kalloc Vm VmRep VmMap VmUser VmCopy VmFree.

#[local] Opaque memset memmove st64 ld64.

(** ** An empty page table *)
Lemma single_path (p : list Z) i t : ({[ [] := t ]} : tables) !! (p ++ [i]) = None.
Proof. apply lookup_singleton_ne. by intros [? ?]%eq_sym%app_eq_nil. Qed.

Lemma uvmcreate_ok kend s q fs : 0 < kend -> kmem_ok kend s (q :: fs) ->
  exists s', uvmcreate s = Ok q s' ∧ uspace kend s' fs q {[ [] := q ]} (fun _ => 0) []
    ∧ same_except [q] (ram s) (ram s').
Proof.
  intros Hkend Hk. destruct (kalloc_ok kend Hkend s q fs Hk) as (s1 & H1 & Hok1 & Hq & Hnin & Hs1 & _).
  destruct (page_word kend Hkend q Hq) as [_ Hq0]. set (s2 := s1 <| ram ::= memset q 0 PGSIZE |>).
  assert (Hs2 : same_except [q] (ram s1) (ram s2)) by exact (same_memset q 0 (ram s1)).
  assert (Hqb : (q =? 0) = false) by lia.
  assert (Hms : memset_ptr q 0 PGSIZE s1 = Ok tt s2) by (unfold memset_ptr; rewrite Hqb; reflexivity).
  exists s2. split; [|split].
  - unfold uvmcreate. by rewrite (bind_Ok _ _ _ _ _ H1), Hqb, (bind_Ok _ _ _ _ _ Hms).
  - assert (Hqa : Forall (fun p => p mod PGSIZE = 0) [q]) by (constructor; [apply Hq|done]).
    split; [split| |done| |constructor|].
    + eapply kmem_same; [exact Hs2|done|done|exact Hqa| |exact Hok1]. by intros p Hp ->%list_elem_of_singleton.
    + split.
      * intros p1 p2 t [<- _]%lookup_singleton_Some [<- _]%lookup_singleton_Some. done.
      * intros p t [_ <-]%lookup_singleton_Some. done.
      * intros p i t. by rewrite single_path.
      * intros p t i [<- <-]%lookup_singleton_Some _ Hi. rewrite single_path. apply filled_zero; [|done].
        intros a Ha. change (memset q 0 PGSIZE (ram s1) a = 0). rewrite memset_eq. unfold in_page in Ha. cases_cmp.
      * intros i2 i1 i0 t [? _]%lookup_singleton_Some. done.
    + apply lookup_singleton_eq.
    + done.
    + intros p t [_ <-]%lookup_singleton_Some. done.
    + done.
    + done.
    + unfold tab_pages. rewrite map_to_list_singleton. simpl. apply NoDup_app. split_and!; [apply Hok1| |apply NoDup_singleton].
      by intros x Hx ->%list_elem_of_singleton.
  - eapply same_trans; [exact Hs1|exact Hs2].
Qed.

(** [mappages] enters exactly the translations asked for.  Unless a page of
    the range is mapped already (a panic), it returns 0 with the entry of every page
    that [[va, va+size)] touches pointing to the consecutive physical pages from
    [pa] on with [perm], or -1 having run out of memory with a proper prefix of them
    entered; every other entry, every page not a table of this page table, and the
    number of pages in use or free are as before. *)
Theorem mappages_spec kend fuel s fs root tabs leaf va size pa perm :
  0 < kend -> vm_ok kend s fs root tabs leaf -> 0 <= va -> 0 < size -> va + size <= MAXVA ->
  frame_ok pa -> pa + size + PGSIZE < 2 ^ 56 -> 0 <= perm < 1024 ->
  let v := va / PGSIZE in let n := Z.to_nat ((va + size - 1) / PGSIZE - v) in
  (n < fuel)%nat -> (forall j, v <= j <= v + Z.of_nat n -> has PTE_V (leaf j) = false) ->
  exists r s' fs' tabs' leaf' d, mappages fuel root va size pa perm s = Ok r s'
    ∧ (r = 0 ∧ d = S n ∨ r = -1 ∧ (d <= n)%nat ∧ fs' = [] ∧ (length fs < 2 * S n)%nat)
    ∧ vm_ok kend s' fs' root tabs' leaf'
    ∧ (forall j, leaf' j = if (v <=? j) && (j <? v + Z.of_nat d)
                           then Z.lor (Z.lor (PA2PTE (pa + (j - v) * PGSIZE)) perm) PTE_V else leaf j)
    ∧ tabs ⊆ tabs' ∧ fs' ++ tab_pages tabs' ≡ₚ fs ++ tab_pages tabs
    ∧ same_except (tab_pages tabs') (ram s) (ram s').
Proof.
  intros Hkend Hv Hva Hsz Hmax Hpa Htop Hperm v n Hf Hnone.
  assert (Hn : Z.of_nat n * PGSIZE <= size + PGSIZE).
  { unfold n, v, PGSIZE in *. rewrite Z2Nat.id; Z.div_mod_to_equations; lia. }
  destruct (mappages_ok kend Hkend fuel s fs root tabs leaf va size pa perm Hf Hv Hva Hsz Hmax Hnone Hpa ltac:(fold v n; lia) Hperm)
    as (r & s' & fs' & tabs' & d & Hrun & (Hv' & Hsub & Hac & Hs) & Hr).
  exists r, s', fs', tabs', (map_range leaf v d pa perm), d. split; [done|]. split; [|split; [exact Hv'|]].
  - destruct Hr as [(-> & -> & _)|(-> & ? & -> & ?)]; [by left|right]. by split_and!.
  - split_and!; [|done|done|done]. intros j. apply map_range_eq.
Qed.

(** C26: [uvmalloc] grows a process to exactly [newsz], or leaves it as it was.  On
    success the new pages are distinct free pages, filled with zeros and mapped
    user-readable, writable and executable at the end of the space; on failure (0)
    every mapping is as before and no page is lost, and failure means there were fewer
    than three free pages for each page asked for.  In both cases no byte outside the
    formerly free pages and the page table's own tables changes. *)
Theorem uvmalloc_spec kend fuel s fs root tabs leaf ups oldsz newsz :
  0 < kend -> uspace kend s fs root tabs leaf ups -> 0 <= oldsz <= newsz -> newsz <= TRAPFRAME ->
  length ups = npages oldsz -> (length ups + length fs < fuel)%nat ->
  exists r s' fs' tabs' leaf' new, uvmalloc kend fuel root oldsz newsz s = Ok r s'
    ∧ uspace kend s' fs' root tabs' leaf' (ups ++ new)
    ∧ new ++ fs' ++ tab_pages tabs' ≡ₚ fs ++ tab_pages tabs
    ∧ same_except (fs ++ tab_pages tabs) (ram s) (ram s')
    ∧ (r = newsz ∧ length (ups ++ new) = npages newsz
       ∧ (forall j q, new !! j = Some q -> filled (ram s') q 0 ∧ leaf' (Z.of_nat (length ups + j)) = mk_pte q RWXU)
       ∨ r = 0 ∧ new = [] ∧ (forall v, leaf' v = leaf v) ∧ (length fs < 3 * (npages newsz - npages oldsz))%nat).
Proof.
  intros Hkend Hu Hsz Htop Hlen Hf. assert (HT : TRAPFRAME <= MAXVA) by done.
  destruct (uvmalloc_ok kend Hkend fuel s fs root tabs leaf ups oldsz newsz) as (r & s' & Hrun & fs' & tabs' & leaf' & Hpost); [done|lia|lia|done|by left|lia|].
  rewrite pages_for_npages in Hpost by lia.
  destruct Hpost as [(-> & new & [G1 G2 _ G3 G4] & Hz & Hl & _)|(-> & [G1 G2 _ G3 G4] & Hl & Hc)].
  - exists newsz, s', fs', tabs', leaf', new. split_and!; try done. by left.
  - rewrite Hlen in Hc. exists 0, s', fs', tabs', leaf', []. split_and!; try done. right. by split_and!.
Qed.

(** Distinct pages of physical memory: there are 128 MB of it. *)
Lemma pages_limit kend ps : KERNBASE <= kend -> NoDup ps -> Forall (page_ok kend) ps -> Z.of_nat (length ps) * PGSIZE <= PHYSTOP - KERNBASE.
Proof.
  intros Hk Hn Hp. rewrite Forall_forall in Hp.
  assert (Hdiv : forall p, p ∈ ps -> p = p / PGSIZE * PGSIZE).
  { intros p Hin. destruct (Hp p Hin) as [Hm _]. pose proof (Z.div_mod p PGSIZE ltac:(done)). lia. }
  assert (Hlen : (length ((fun p : Z => (p / PGSIZE)%Z) <$> ps) <= length (seqZ (KERNBASE / PGSIZE)%Z ((PHYSTOP - KERNBASE) / PGSIZE)%Z))%nat).
  { apply submseteq_length, NoDup_submseteq.
    - apply NoDup_fmap_2_strong; [|done]. intros x y Hx Hy E. by rewrite (Hdiv x Hx), (Hdiv y Hy), E.
    - intros x (p & -> & Hin)%list_elem_of_fmap. apply elem_of_seqZ. destruct (Hp p Hin) as [_ Hr]. pose proof (Hdiv p Hin) as E.
      change (KERNBASE / PGSIZE) with 524288. change ((PHYSTOP - KERNBASE) / PGSIZE) with 32768.
      set (d := p / PGSIZE) in *. clearbody d. unfold PHYSTOP, KERNBASE, PGSIZE in *. lia. }
  rewrite length_fmap, length_seqZ in Hlen. change ((PHYSTOP - KERNBASE) / PGSIZE) with 32768 in Hlen. unfold PHYSTOP, KERNBASE, PGSIZE. lia.
Qed.

(** No process grows beyond the physical memory. *)
Theorem uvmalloc_limit kend fuel s fs root tabs leaf ups oldsz newsz s' :
  KERNBASE <= kend -> uspace kend s fs root tabs leaf ups -> 0 <= oldsz <= newsz -> newsz <= TRAPFRAME ->
  length ups = npages oldsz -> (length ups + length fs < fuel)%nat ->
  uvmalloc kend fuel root oldsz newsz s = Ok newsz s' -> newsz <= PHYSTOP - KERNBASE.
Proof.
  intros Hk Hu Hsz Htop Hlen Hf Hrun. assert (HT : TRAPFRAME <= MAXVA) by done. assert (Hkend : 0 < kend) by (unfold KERNBASE in Hk; lia).
  destruct (uvmalloc_ok kend Hkend fuel s fs root tabs leaf ups oldsz newsz) as (r & s2 & Hrun2 & fs' & tabs' & leaf' & Hpost); [done|lia|lia|done|by left|lia|].
  rewrite Hrun in Hrun2. injection Hrun2 as <- <-. rewrite pages_for_npages in Hpost by lia.
  destruct Hpost as [(_ & new & [G1 G2 _ G3 G4] & _ & Hl & _)|(-> & _)]; [|done].
  pose proof (pages_limit kend (ups ++ new) Hk) as Hlim. pose proof (us_nodup _ _ _ _ _ _ _ G1) as (Hnd & _)%NoDup_app.
  specialize (Hlim Hnd (us_pages _ _ _ _ _ _ _ G1)). rewrite Hl in Hlim. pose proof (npages_lt newsz (Z.of_nat (npages newsz)) ltac:(lia)). lia.
Qed.

(** [uvmdealloc] shrinks a process to [newsz]: the pages beyond it go back to
    the free list, each once, their entries are cleared, the remaining pages keep their
    entries and their contents, and the call returns the new size (the old one if it
    was not larger). *)
Theorem uvmdealloc_spec kend fuel s fs root tabs leaf ups oldsz newsz :
  0 < kend -> uspace kend s fs root tabs leaf ups -> 0 <= newsz -> 0 <= oldsz <= TRAPFRAME ->
  length ups = npages oldsz -> (length ups < fuel)%nat ->
  let n := npages (Z.min oldsz newsz) in
  exists s' leaf', uvmdealloc kend fuel root oldsz newsz s = Ok (Z.min oldsz newsz) s'
    ∧ uspace kend s' (reverse (drop n ups) ++ fs) root tabs leaf' (take n ups)
    ∧ (forall v, leaf' v = if (Z.of_nat n <=? v) && (v <? Z.of_nat (length ups)) then 0 else leaf v)
    ∧ same_except (drop n ups ++ tab_pages tabs) (ram s) (ram s').
Proof.
  intros Hkend Hu Hn Ho Hlen Hf n.
  destruct (uvmdealloc_ok kend Hkend fuel s fs root tabs leaf ups oldsz newsz Hn Ho Hlen Hf Hu) as (s' & Hrun & Hu' & Hs).
  exists s', (clear_range leaf (Z.of_nat n) (length ups - n)). split; [exact Hrun|]. split; [exact Hu'|]. split; [|exact Hs]. intros v. rewrite clear_range_eq. fold n.
  assert (HT : TRAPFRAME <= MAXVA) by done.
  assert (n <= length ups)%nat by (rewrite Hlen; apply npages_mono; lia).
  by replace (Z.of_nat n + Z.of_nat (length ups - n)) with (Z.of_nat (length ups)) by lia.
Qed.

(** C25: [uvmcopy] gives the child a faithful copy of the parent: for every page of
    the parent a fresh page with the same bytes, mapped at the same address with the
    same permissions.  If memory runs out (fewer than three free pages for each page of
    the parent) it returns -1 with the child's mappings as they were: the user pages it
    had taken are free again, while page-table pages that [walk] allocated stay in the
    child's page table, for its owner to free.  In both cases every page is free, or
    a page of the child, or a table of the child, and the parent's pages, tables and
    mappings are untouched. *)
Theorem uvmcopy_spec kend fuel s fs oroot otabs oleaf oups root tabs leaf sz :
  0 < kend -> uspace kend s fs oroot otabs oleaf oups -> uspace kend s fs root tabs leaf [] ->
  (forall p, p ∈ oups ++ tab_pages otabs -> p ∉ tab_pages tabs) ->
  0 <= sz <= TRAPFRAME -> npages sz = length oups -> (length fs < fuel)%nat ->
  exists r s' fs' tabs' leaf' new, uvmcopy kend fuel oroot root sz s = Ok r s'
    ∧ uspace kend s' fs' root tabs' leaf' new ∧ uspace kend s' fs' oroot otabs oleaf oups
    ∧ new ++ fs' ++ tab_pages tabs' ≡ₚ fs ++ tab_pages tabs
    ∧ same_except (fs ++ tab_pages tabs) (ram s) (ram s')
    ∧ (r = 0 ∧ length new = length oups
       ∧ (forall j u q, oups !! j = Some u -> new !! j = Some q ->
            (forall off, 0 <= off < PGSIZE -> ram s' (q + off) = ram s' (u + off))
            ∧ PTE_FLAGS (leaf' (Z.of_nat j)) = PTE_FLAGS (oleaf (Z.of_nat j)) ∧ PTE2PA (leaf' (Z.of_nat j)) = q)
       ∨ r = -1 ∧ new = [] ∧ (forall v, leaf' v = leaf v) ∧ (length fs < 3 * length oups)%nat).
Proof.
  intros Hkend Hp Hc Hap Hsz Hn Hf. unfold uvmcopy.
  destruct (uvmcopy_loop_ok kend Hkend fuel s fs oroot otabs oleaf oups root tabs leaf Hp Hc Hap sz fuel s fs tabs leaf [])
    as (r & s' & Hrun & fs' & tabs' & leaf' & Hpost); [lia|simpl; lia|done|done|simpl; lia|by apply grown_nil|by intros j u q|simpl; lia|].
  destruct Hpost as [(-> & new & Hg & Hl & Hcp)|(-> & Hg & Hl & Hcost)]; pose proof Hg as [G1 G2 _ G3 G4]; simpl in G1.
  - exists 0, s', fs', tabs', leaf', new. pose proof (parent_later kend s fs oroot otabs oleaf oups root tabs leaf Hp Hc Hap _ _ _ _ _ Hg) as Hp'.
    split_and!; try done. left. split_and!; [done|done|]. intros j u q Hu Hq. destruct (Hcp j u q Hu Hq) as (Hb & f & Hfl & E1 & E2).
    assert (Hin : u ∈ oups) by by eapply list_elem_of_lookup_2.
    assert (Hup : frame_ok u).
    { apply (page_frame kend); [done|]. pose proof (us_pages _ _ _ _ _ _ _ Hp) as Hpg. rewrite Forall_forall in Hpg. by apply Hpg. }
    assert (Hqp : frame_ok q).
    { apply (page_frame kend); [done|]. pose proof (us_pages _ _ _ _ _ _ _ G1) as Hpg. rewrite Forall_forall in Hpg.
      apply Hpg. by eapply list_elem_of_lookup_2. }
    rewrite E1, E2, !PTE_FLAGS_PTE, PTE2PA_PTE by (done || apply Hfl). split; [|done]. intros off Hoff. rewrite Hb by done.
    symmetry. by eapply (parent_bytes kend s fs oroot otabs oleaf oups root tabs leaf).
  - exists (-1), s', fs', tabs', leaf', []. pose proof (parent_later kend s fs oroot otabs oleaf oups root tabs leaf Hp Hc Hap _ _ _ _ _ Hg) as Hp'.
    split_and!; try done. right. by split_and!.
Qed.

(** [uvmfree] of a process's page table (its trampoline and trapframe already
    unmapped) returns all of it: every user page and every page-table page is on the
    free list afterwards, together with what was there, and no other page is touched. *)
Theorem uvmfree_spec kend fuel s fs root tabs leaf ups sz :
  0 < kend -> uspace kend s fs root tabs leaf ups -> 0 <= sz <= TRAPFRAME -> length ups = npages sz ->
  (forall v, user_top <= v < 512 * 512 * 512 -> leaf v = 0) -> (length ups < fuel)%nat -> (3 <= fuel)%nat ->
  exists s' fs', uvmfree kend fuel root sz s = Ok tt s' ∧ kmem_ok kend s' fs'
    ∧ fs' ≡ₚ ups ++ fs ++ tab_pages tabs ∧ same_except (ups ++ tab_pages tabs) (ram s) (ram s').
Proof.
  intros Hkend Hu Hsz Hlen Htop Hf H3. by eapply uvmfree_ok.
Qed.

(** C27: What [copyout] writes to user memory, [copyin] reads back.  If every address
    of the range is mapped for the user, both return 0, the destination buffer ends
    up with the bytes of the source, and apart from it only the bytes of the range
    itself change; if some address is not, both return -1. *)
Theorem copyout_copyin kend fuel s fs root tabs leaf ups va src dst len :
  0 < kend -> uspace kend s fs root tabs leaf ups -> user_only leaf ups -> 0 <= va -> 0 <= len < Z.of_nat fuel ->
  kbuf fs tabs ups src len -> kbuf fs tabs ups dst len ->
  exists r s1 s2, copyout fuel root va src len s = Ok r s1 ∧ copyin fuel root dst va len s1 = Ok r s2
    ∧ uspace kend s2 fs root tabs leaf ups
    ∧ (r = 0 ∧ (forall i, 0 <= i < len -> ram s2 (dst + i) = ram s (src + i))
             ∧ (forall i, 0 <= i < len -> exists a, uaccess leaf (va + i) = Some a ∧ ram s2 a = ram s (src + i))
       ∨ r = -1 ∧ (exists i, 0 <= i < len ∧ uaccess leaf (va + i) = None))
    ∧ (forall a, (forall i, 0 <= i < len -> a ≠ dst + i ∧ uaccess leaf (va + i) ≠ Some a) -> ram s2 a = ram s a).
Proof.
  intros Hkend Hu Ho Hva Hlen Hsrc Hdst.
  destruct (copyout_loop_ok kend Hkend fs root tabs leaf ups Ho fuel s va src len Hu Hva Hlen) as (r1 & s1 & Hr1 & Hu1 & Hc1 & Hf1).
  { intros i u Hi Hin. apply Hsrc; [done|]. apply elem_of_app. by left. }
  destruct (copyin_loop_ok kend Hkend fs root tabs leaf ups Ho fuel s1 dst va len Hu1 Hva Hlen Hdst) as (r2 & s2 & Hr2 & Hu2 & Hc2 & Hf2).
  assert (r2 = r1) as ->.
  { destruct Hc1 as [[-> H1]|[-> (i & Hi & H1)]], Hc2 as [[-> H2]|[-> (j & Hj & H2)]]; try done.
    - destruct (H1 j Hj) as (a & Ha & _). congruence. - destruct (H2 i Hi) as (a & Ha & _). congruence. }
  exists r1, s1, s2. split; [exact Hr1|]. split; [exact Hr2|]. split; [exact Hu2|]. split.
  - destruct Hc1 as [[-> H1]|[-> H1]]; [left|by right]. split; [done|].
    destruct Hc2 as [[_ H2]|[? _]]; [|done]. split.
    + intros i Hi. destruct (H1 i Hi) as (a & Ha & E1), (H2 i Hi) as (a' & Ha' & E2). congruence.
    + intros i Hi. destruct (H1 i Hi) as (a & Ha & E1). exists a. split; [done|]. rewrite Hf2; [done|].
      intros j Hj. by eapply (kbuf_apart kend Hkend fs root tabs leaf ups Ho s).
  - intros a Ha. rewrite Hf2, Hf1; [done| |]; intros i Hi; by apply (Ha i).
Qed.

(** [copyinstr] copies the user string up to and including its terminating 0
    and returns 0 exactly when the string ends within [max] accessible bytes; it returns
    -1 if it meets an inaccessible address or [max] bytes without a 0.  It never writes
    outside the [max] bytes of the destination. *)
Theorem copyinstr_spec kend fuel s fs root tabs leaf ups dst srcva max :
  0 < kend -> uspace kend s fs root tabs leaf ups -> user_only leaf ups -> 0 <= srcva -> 0 <= max < Z.of_nat fuel ->
  kbuf fs tabs ups dst max ->
  exists r s' k, copyinstr fuel root dst srcva max s = Ok r s' ∧ uspace kend s' fs root tabs leaf ups
    ∧ 0 <= k <= max
    ∧ (forall i, 0 <= i < k -> exists a, uaccess leaf (srcva + i) = Some a ∧ ram s a ≠ 0 ∧ ram s' (dst + i) = ram s a)
    ∧ (r = 0 ∧ k < max ∧ (exists a, uaccess leaf (srcva + k) = Some a ∧ ram s a = 0) ∧ ram s' (dst + k) = 0
       ∨ r = -1 ∧ (k = max ∨ uaccess leaf (srcva + k) = None))
    ∧ (forall a, (forall i, 0 <= i < max -> a ≠ dst + i) -> ram s' a = ram s a).
Proof.
  intros Hkend Hu Ho Hva Hmax Hdst.
  destruct (copyinstr_loop_ok kend Hkend fs root tabs leaf ups Ho fuel s dst srcva max Hu Hva Hmax Hdst)
    as (r & s' & Hrun & Hu' & Hfr & k & Hk & Hstr & Hr).
  exists r, s', k. split_and!; try done; lia.
Qed.

(** ** A small machine: nine pages, a process with one page *)
Definition kend9 : Z := PHYSTOP - 9 * PGSIZE.
Definition one_leaf (q : Z) : Z -> Z := upd (fun _ => 0) 0 (mk_pte q RWXU).

Lemma small_boot : exists s fs root, uspace kend9 s fs root {[ [] := root ]} (fun _ => 0) [] ∧ length fs = 8%nat.
Proof.
  destruct (kinit_ok kend9 ltac:(done) (Kmem true 0 (fun _ => 0)) 10) as (s1 & _ & Hok); [done|done|vm_compute; lia|].
  assert (Hlen : length (all_pages kend9) = 9%nat) by done.
  destruct (all_pages kend9) as [|q fs]; [done|].
  destruct (uvmcreate_ok kend9 s1 q fs ltac:(done) Hok) as (s2 & _ & Hu & _). exists s2, fs, q. split; [done|]. by injection Hlen.
Qed.

Lemma small_process : exists s fs root tabs q, uspace kend9 s fs root tabs (one_leaf q) [q] ∧ (5 <= length fs <= 8)%nat.
Proof.
  destruct small_boot as (s & fs & root & Hu & Hlen). destruct fs as [|q fs]; [done|]. simpl in Hlen.
  destruct (uspace_add kend9 ltac:(done) 10 s q fs root {[ [] := root ]} (fun _ => 0) [] RWXU (memset q 0 PGSIZE)) as
    (s1 & r & s2 & fs2 & tabs2 & _ & _ & _ & _ & [(_ & Hc & Hg & _)|(_ & Hc & _)]); [lia|done|done|apply same_memset|done|done| |lia].
  pose proof (grown_fewer _ _ _ _ _ _ _ _ _ _ _ _ Hg) as Hfew. simpl in Hfew.
  exists s2, fs2, root, tabs2, q. split; [apply Hg|lia].
Qed.

Lemma one_leaf_top q v : v ≠ 0 -> one_leaf q v = 0.
Proof. intros. unfold one_leaf. by rewrite upd_ne. Qed.
Lemma one_user_only q : user_only (one_leaf q) [q].
Proof. intros v Hv. rewrite one_leaf_top; [done|]. simpl in Hv. lia. Qed.

Lemma kbuf_low kend s fs root tabs leaf ups dst len :
  uspace kend s fs root tabs leaf ups -> dst + len <= kend -> kbuf fs tabs ups dst len.
Proof.
  intros Hu Hlow i p Hi Hp [Hin _]. assert (Hge : kend <= p); [|lia].
  apply elem_of_app in Hp as [Hp|[Hp|[q Hp]%in_tab_pages]%elem_of_app].
  - pose proof (us_pages _ _ _ _ _ _ _ Hu) as H. rewrite Forall_forall in H. apply (H p Hp).
  - pose proof (ko_pages _ _ _ (vo_kmem _ _ _ _ _ _ (us_vm _ _ _ _ _ _ _ Hu))) as H. rewrite Forall_forall in H. apply (H p Hp).
  - apply (fo_page _ _ _ _ _ (vo_forest _ _ _ _ _ _ (us_vm _ _ _ _ _ _ _ Hu)) q p Hp).
Qed.

Lemma mappages_spec_witness : exists s root r s', mappages 10 root 0 5000 0x10000000 6 s = Ok r s'.
Proof.
  destruct small_boot as (s & fs & root & Hu & Hlen).
  destruct (mappages_spec kend9 10 s fs root _ _ 0 5000 0x10000000 6 ltac:(done) (us_vm _ _ _ _ _ _ _ Hu)) as
    (r & s' & _ & _ & _ & _ & Hrun & _); try done; [vm_compute; lia|].
  exists s, root, r, s'. exact Hrun.
Defined.

Lemma uvmalloc_spec_witness : exists s root s', uvmalloc kend9 10 root 0 5000 s = Ok 5000 s'.
Proof.
  destruct small_boot as (s & fs & root & Hu & Hlen).
  destruct (uvmalloc_spec kend9 10 s fs root _ _ [] 0 5000 ltac:(done) Hu) as (r & s' & fs' & tabs' & leaf' & new & Hrun & _ & _ & _ & Hr);
    [lia|done|done|simpl; lia|].
  exists s, root, s'. destruct Hr as [(-> & _)|(_ & _ & _ & Hc)]; [exact Hrun|]. exfalso.
  change (npages 5000) with 2%nat in Hc. change (npages 0) with 0%nat in Hc. lia.
Defined.

Lemma uvmdealloc_spec_witness : exists s root s', uvmdealloc kend9 10 root PGSIZE 0 s = Ok 0 s'.
Proof.
  destruct small_process as (s & fs & root & tabs & q & Hu & Hlen).
  destruct (uvmdealloc_spec kend9 10 s fs root tabs _ [q] PGSIZE 0 ltac:(done) Hu) as (s' & leaf' & Hrun & _);
    [lia|done|done|simpl; lia|].
  exists s, root, s'. exact Hrun.
Defined.

Lemma uvmcopy_spec_witness : exists s oroot root s', uvmcopy kend9 10 oroot root PGSIZE s = Ok 0 s'.
Proof.
  destruct small_process as (s & fs & oroot & tabs & q & Hu & Hlen). destruct fs as [|c fs]; [simpl in Hlen; lia|]. simpl in Hlen.
  destruct (uvmcreate_ok kend9 s c fs ltac:(done) (vo_kmem _ _ _ _ _ _ (us_vm _ _ _ _ _ _ _ Hu))) as (s1 & _ & Hc & Hs1).
  pose proof (us_nodup _ _ _ _ _ _ _ Hu) as (N1 & N2 & (N3 & N4 & N5)%NoDup_app)%NoDup_app. apply NoDup_cons in N3 as [N3 N3'].
  assert (Hcq : forall p, p ∈ [q] ++ tab_pages tabs -> p ≠ c ∧ p ∉ fs).
  { intros p [Hp|Hp]%elem_of_app; (split; [intros ->|intros Hf]).
    - apply (N2 c Hp), elem_of_app. left. left. - apply (N2 p Hp), elem_of_app. left. by right.
    - by apply (N4 c); [left|]. - by apply (N4 p); [right|]. }
  assert (Hp : uspace kend9 s1 fs oroot tabs (one_leaf q) [q]).
  { eapply (uspace_other kend9 s (c :: fs) s1 fs oroot tabs _ [q] (c :: fs)); [exact Hu|apply Hc|apply (same_one c), Hs1; left| | | |].
    - eapply pages_aligned, (ko_pages _ _ _ (vo_kmem _ _ _ _ _ _ (us_vm _ _ _ _ _ _ _ Hu))).
    - intros p Hp Hf. destruct (Hcq p) as [Hn1 Hn2]; [apply elem_of_app; by right|]. by apply elem_of_cons in Hf as [? | ?].
    - intros x Hx. by right.
    - intros p Hp. by apply Hcq. }
  destruct (uvmcopy_spec kend9 10 s1 fs oroot tabs (one_leaf q) [q] c {[ [] := c ]} (fun _ => 0) PGSIZE ltac:(done) Hp Hc) as
    (r & s' & fs' & tabs' & leaf' & new & Hrun & _ & _ & _ & _ & Hr); [|done|done|lia|].
  { intros p Hin. unfold tab_pages at 1. rewrite map_to_list_singleton. intros ->%list_elem_of_singleton. by destruct (Hcq c Hin). }
  exists s1, oroot, c, s'. destruct Hr as [(-> & _)|(_ & _ & _ & Hcost)]; [exact Hrun|]. simpl in Hcost. lia.
Defined.

Lemma uvmfree_spec_witness : exists s root s', uvmfree kend9 10 root PGSIZE s = Ok tt s'.
Proof.
  destruct small_process as (s & fs & root & tabs & q & Hu & Hlen).
  destruct (uvmfree_spec kend9 10 s fs root tabs _ [q] PGSIZE ltac:(done) Hu) as (s' & fs' & Hrun & _); [done|done| |simpl; lia|lia|].
  - intros v Hv. apply one_leaf_top. intros ->. assert (user_top <= 0) by lia. done.
  - exists s, root, s'. exact Hrun.
Defined.

Lemma copyout_copyin_witness : exists s root r s1 s2,
  copyout 10 root 4090 0x1000 9 s = Ok r s1 ∧ copyin 10 root 0x2000 4090 9 s1 = Ok r s2.
Proof.
  destruct small_process as (s & fs & root & tabs & q & Hu & Hlen).
  destruct (copyout_copyin kend9 10 s fs root tabs _ [q] 4090 0x1000 0x2000 9 ltac:(done) Hu (one_user_only q)) as
    (r & s1 & s2 & H1 & H2 & _); [lia|lia|eapply kbuf_low; [exact Hu|done]|eapply kbuf_low; [exact Hu|done]|].
  exists s, root, r, s1, s2. split; [exact H1|exact H2].
Defined.

Lemma copyinstr_spec_witness : exists s root r s', copyinstr 10 root 0x2000 4090 9 s = Ok r s'.
Proof.
  destruct small_process as (s & fs & root & tabs & q & Hu & Hlen).
  destruct (copyinstr_spec kend9 10 s fs root tabs _ [q] 0x2000 4090 9 ltac:(done) Hu (one_user_only q)) as
    (r & s' & k & H1 & _); [lia|lia|eapply kbuf_low; [exact Hu|done]|].
  exists s, root, r, s'. exact H1.
Defined.
