(* ===== verification/ProcVm.v ===== *)
(** * ProcVm: the process code on the real memory subsystem

    proc.c reaches kalloc.c and vm.c through the class [KEnv]; here the class is
    instantiated with the models of those two files, so that the page table
    routines of proc.c run on real page tables.  The file system stays abstract: its
    state is [F].  Kernel objects that proc.c passes by address ([initcode],
    [np->xstate]) are put at their address [kobj] first. *)

From stdpp Require Import gmap.
From S2P Require Import Prelude KState Spinlock ProcList ProcAbs Proc ProcInv ProcFork.
From S2P Require Import SleepLock MemC Kalloc Vm VmRep VmMap VmUser VmCopy VmFree VmProps.

#[local] Opaque memset memmove st64 ld64.

Section env.
Context {F : Type} (kend : Z) (fuel : nat) (blncflg : bool) (tramp forkret_at kobj : Z).
Context (fs_filedup fs_idup : Z -> callee F Z) (fs_namei : list Z -> callee F Z)
  (fs_fileclose fs_iput : Z -> waker F unit) (fs_begin_op fs_end_op : waker F unit).

(** A memory routine, and a file system routine, as callees of proc.c. *)
Definition on_mem {A} (f : M kmem A) : callee (kmem * F) A := fun e =>
  match f e.1 with Ok v m => Some (v, (m, e.2)) | _ => None end.
Definition on_fs {A} (f : callee F A) : callee (kmem * F) A := fun e =>
  match f e.2 with Some (v, x) => Some (v, (e.1, x)) | None => None end.
Definition on_fs_wake {A} (f : waker F A) : waker (kmem * F) A := fun e =>
  match f e.2 with Some (v, w, x) => Some (v, w, (e.1, x)) | None => None end.

Fixpoint put_bytes (bs : list Z) (a : Z) (m : mem) : mem :=
  match bs with
  | [] => m
  | b :: bs' => put_bytes bs' (a + 1) (upd m a (u8 b))
  end.
Definition put_obj (bs : list Z) : M kmem unit := modify (fun s => s <| ram ::= put_bytes bs kobj |>).

(** Offsets in [struct trapframe], and its size. *)
Definition tf_offset (r : tf_reg) : Z := match r with tf_epc => 24 | tf_sp => 48 | tf_a0 => 112 end.
Definition tf_size : Z := 288.

#[local] Instance vm_env : KEnv (kmem * F) := {|
  BLNCFLG := blncflg;
  trampoline := tramp;
  forkret_addr := forkret_at;
  Proc.kalloc := on_mem Kalloc.kalloc;
  Proc.kfree pa := on_mem (Kalloc.kfree kend pa);
  Proc.kvmmap kpgtbl va pa sz perm := on_mem (Vm.kvmmap fuel kpgtbl va pa sz perm);
  Proc.uvmcreate := on_mem Vm.uvmcreate;
  Proc.mappages pt va size pa perm := on_mem (Vm.mappages fuel pt va size pa perm);
  Proc.uvmunmap pt va n do_free := on_mem (Vm.uvmunmap kend fuel pt va n do_free);
  Proc.uvmfree pt sz := on_mem (Vm.uvmfree kend fuel pt sz);
  Proc.uvminit pt code := on_mem (put_obj code;; Vm.uvminit fuel pt kobj (Z.of_nat (length code)));
  Proc.uvmcopy old new sz := on_mem (Vm.uvmcopy kend fuel old new sz);
  Proc.uvmalloc pt oldsz newsz := on_mem (Vm.uvmalloc kend fuel pt oldsz newsz);
  Proc.uvmdealloc pt oldsz newsz := on_mem (Vm.uvmdealloc kend fuel pt oldsz newsz);
  Proc.copyout pt va bs := on_mem (put_obj bs;; Vm.copyout fuel pt va kobj (Z.of_nat (length bs)));
  tf_store tf r v := on_mem (store (tf + tf_offset r) v);
  tf_copy dst src := on_mem (modify (fun s => s <| ram ::= memmove dst src tf_size |>));
  filedup f := on_fs (fs_filedup f);
  idup ip := on_fs (fs_idup ip);
  namei path := on_fs (fs_namei path);
  fileclose f := on_fs_wake (fs_fileclose f);
  iput ip := on_fs_wake (fs_iput ip);
  begin_op := on_fs_wake fs_begin_op;
  end_op := on_fs_wake fs_end_op
|}.

(** ** kvmmake, kvminit *)
Definition UART0 : Z := 0x10000000.
Definition VIRTIO0 : Z := 0x10001000.
Definition PLIC : Z := 0x0c000000.

(** [etext] is set by kernel.ld to the end of the kernel code. *)
Definition kvmmake (etext : Z) : M (kstate (kmem * F)) Z :=
  kpgtbl ← call Proc.kalloc;
  call (on_mem (memset_ptr kpgtbl 0 PGSIZE));;
  call (Proc.kvmmap kpgtbl UART0 UART0 PGSIZE (Z.lor PTE_R PTE_W));;
  call (Proc.kvmmap kpgtbl VIRTIO0 VIRTIO0 PGSIZE (Z.lor PTE_R PTE_W));;
  call (Proc.kvmmap kpgtbl PLIC PLIC 0x400000 (Z.lor PTE_R PTE_W));;
  call (Proc.kvmmap kpgtbl KERNBASE KERNBASE (etext - KERNBASE) (Z.lor PTE_R PTE_X));;
  call (Proc.kvmmap kpgtbl etext etext (PHYSTOP - etext) (Z.lor PTE_R PTE_W));;
  call (Proc.kvmmap kpgtbl TRAMPOLINE tramp PGSIZE (Z.lor PTE_R PTE_X));;
  proc_mapstacks kpgtbl;;
  mret kpgtbl.

(** ** Page tables of processes *)
Context (Hkend : 0 < kend).
Abbreviation mem_of s := (env (kcore s)).1.
Abbreviation with_mem s m := (s <| kcore ::= fun c => c <| env := (m, (env c).2) |> |>).

Lemma call_mem {A B} (f : M kmem A) v m (s : kstate (kmem * F)) (k : A -> M (kstate (kmem * F)) B) :
  f (mem_of s) = Ok v m -> (call (on_mem f) ≫= k) s = k v (with_mem s m).
Proof.
  intros Hf. apply bind_Ok. unfold call, on_mem. rewrite Hf. by destruct s as [[] ?].
Qed.

Lemma uspace_top s fs root tabs leaf ups s' fs' tabs' v pte :
  uspace kend s fs root tabs leaf ups -> vm_post kend s fs root tabs s' fs' tabs' (upd leaf v pte) -> user_top <= v ->
  uspace kend s' fs' root tabs' (upd leaf v pte) ups.
Proof.
  intros [Hv H2 H3 H4 H5 H6] (Hv' & Hsub & Hac & _) Htop. split; [done| | |done|done|].
  - intros j u Hj. pose proof (lookup_lt_Some _ _ _ Hj). destruct (H2 j u Hj) as (f & Hf & E). exists f. by rewrite upd_ne by lia.
  - intros x Hx. rewrite upd_ne by lia. by apply H3.
  - unfold accounted in Hac. by rewrite Hac.
Qed.

Lemma unmap_top s fs root tabs leaf ups v u :
  uspace kend s fs root tabs leaf ups -> user_top <= v < MAXVA / PGSIZE -> frame_ok u -> maps leaf v u -> (1 < fuel)%nat ->
  exists s', Vm.uvmunmap kend fuel root (v * PGSIZE) 1 false s = Ok tt s'
    ∧ uspace kend s' fs root tabs (upd leaf v 0) ups ∧ same_except (tab_pages tabs) (ram s) (ram s').
Proof using Hkend.
  intros Hu Hv Hfr Hm Hf. assert (Hv0 : 0 <= v < MAXVA / PGSIZE) by (assert (0 <= user_top) by done; lia).
  destruct (uvmunmap_loop_keep kend Hkend [u] fuel s fs root tabs leaf v) as (s' & Hrun & Hv' & Hs);
    [simpl; lia|apply Hu|lia|simpl; lia|by constructor| |].
  { intros [|j] x Hj; [|done]. injection Hj as <-. by rewrite Z.add_0_r. }
  exists s'. split; [|split; [|done]].
  - unfold Vm.uvmunmap. rewrite Z.mod_mul by done. cbn [negb Z.eqb].
    replace (v * PGSIZE + 1 * PGSIZE) with (v * PGSIZE + PGSIZE) by ring. rewrite next_page by done. exact Hrun.
  - eapply (uspace_top s fs root tabs leaf ups); [done| |lia]. split_and!; [exact Hv'|reflexivity|by unfold accounted|exact Hs].
Qed.

(** A fresh page table: nothing but the two pages shared with the kernel. *)
Definition proc_leaf (tf : Z) : Z -> Z :=
  upd (upd (fun _ => 0) (TRAMPOLINE / PGSIZE) (mk_pte tramp (Z.lor PTE_R PTE_X)))
      (TRAPFRAME / PGSIZE) (mk_pte tf (Z.lor PTE_R PTE_W)).

Lemma free_empty s fs root tabs leaf :
  uspace kend s fs root tabs leaf [] -> (forall v, leaf v = 0) -> (3 <= fuel)%nat ->
  exists s' fs', Vm.uvmfree kend fuel root 0 s = Ok tt s' ∧ kmem_ok kend s' fs' ∧ fs' ≡ₚ fs ++ tab_pages tabs
    ∧ same_except (tab_pages tabs) (ram s) (ram s').
Proof using Hkend.
  intros Hu Hl Hf. destruct (uvmfree_ok kend Hkend fuel s fs root tabs leaf [] 0) as (s' & fs' & H1 & H2 & H3 & H4);
    [done|done|done|done|simpl; lia|done|]. by exists s', fs'.
Qed.

Lemma get_proc_mem (s : kstate (kmem * F)) m i : proc_index_ok i = true ->
  get_proc i (with_mem s m) = Ok (procs (kcore s) i) (with_mem s m).
Proof. intros Hi. unfold get_proc. by rewrite Hi. Qed.

(** The error path after the second mapping: unmap the trampoline, free the table. *)
Lemma pagetable_undo s fs root tabs :
  uspace kend s fs root tabs (upd (fun _ => 0) (TRAMPOLINE / PGSIZE) (mk_pte tramp (Z.lor PTE_R PTE_X))) [] ->
  frame_ok tramp -> (3 <= fuel)%nat ->
  exists s1 s2 fs', Vm.uvmunmap kend fuel root TRAMPOLINE 1 false s = Ok tt s1
    ∧ Vm.uvmfree kend fuel root 0 s1 = Ok tt s2 ∧ kmem_ok kend s2 fs' ∧ fs' ≡ₚ fs ++ tab_pages tabs
    ∧ same_except (tab_pages tabs) (ram s) (ram s2).
Proof using Hkend.
  intros Hu Htr Hf. destruct (unmap_top s fs root tabs _ [] (TRAMPOLINE / PGSIZE) tramp Hu) as (s1 & H1 & Hu1 & Hs1); [done|done| |lia|].
  { exists (Z.lor (Z.lor PTE_R PTE_X) PTE_V). split; [by split_and!|]. by rewrite upd_eq, mk_pte_lor. }
  destruct (free_empty s1 fs root tabs _ Hu1) as (s2 & fs' & H2 & Hk2 & Hp2 & Hs2); [|done|].
  { intros v. destruct (decide (v = TRAMPOLINE / PGSIZE)) as [->|]; [by rewrite upd_eq|by rewrite !upd_ne]. }
  exists s1, s2, fs'. change (TRAMPOLINE / PGSIZE * PGSIZE) with TRAMPOLINE in H1. split_and!; try done. by eapply same_trans.
Qed.

Lemma call_mem2 {A B} (f : M kmem A) v m0 m (s : kstate (kmem * F)) (k : A -> M (kstate (kmem * F)) B) :
  f m0 = Ok v m -> (call (on_mem f) ≫= k) (with_mem s m0) = k v (with_mem s m).
Proof. intros Hf. exact (call_mem f v m (with_mem s m0) k Hf). Qed.

(** [proc_pagetable], run on the real allocator and page tables, returns a page
    table that maps exactly the trampoline page (readable, executable) and the
    process's trapframe page (readable, writable), neither accessible to the user; if
    memory runs out at any point it returns 0 and every page it had taken is free
    again.  It changes nothing in the kernel but memory. *)
Theorem proc_pagetable_spec i (s : kstate (kmem * F)) fs :
  proc_index_ok i = true -> kmem_ok kend (mem_of s) fs -> (3 <= fuel)%nat ->
  frame_ok tramp -> frame_ok (trapframe (procs (kcore s) i)) ->
  exists r m', proc_pagetable i s = Ok r (with_mem s m')
    ∧ (r ≠ 0 ∧ (exists fs' tabs', uspace kend m' fs' r tabs' (proc_leaf (trapframe (procs (kcore s) i))) []
               ∧ fs' ++ tab_pages tabs' ≡ₚ fs ∧ (length fs <= 5 + length fs')%nat)
       ∨ r = 0 ∧ (exists fs', kmem_ok kend m' fs' ∧ fs' ≡ₚ fs) ∧ (length fs < 5)%nat)
    ∧ same_except fs (ram (mem_of s)) (ram m').
Proof using Hkend.
  intros Hi Hk Hf Htr Htf. set (tf := trapframe (procs (kcore s) i)) in *. unfold proc_pagetable. destruct fs as [|q fs].
  { exists 0, (mem_of s). split; [|split; [right; split; [done|]; split; [by exists []|simpl; lia]|apply same_refl]].
    rewrite (call_mem Vm.uvmcreate 0 (mem_of s) s); [done|]. unfold Vm.uvmcreate.
    by rewrite (bind_Ok _ _ _ _ _ (kalloc_empty kend _ Hk)). }
  destruct (uvmcreate_ok kend (mem_of s) q fs Hkend Hk) as (m1 & Hc & Hu1 & Hs1). rewrite (call_mem _ _ _ _ _ Hc).
  assert (Hq : (q =? 0) = false).
  { pose proof (ko_pages _ _ _ Hk) as [[_ ?] _]%Forall_cons. lia. } rewrite Hq.
  assert (Ht0 : fs ++ tab_pages {[ [] := q ]} ≡ₚ q :: fs).
  { unfold tab_pages. rewrite map_to_list_singleton. by rewrite Permutation_app_comm. }
  assert (Hin : forall fs' tabs', fs' ++ tab_pages tabs' ≡ₚ q :: fs -> tab_pages tabs' ⊆ q :: fs).
  { intros fs' tabs' Hp x Hx. rewrite <- Hp. apply elem_of_app. by right. }
  apply (same_mono _ (q :: fs)) in Hs1; [|intros x; rewrite !elem_of_cons; set_solver].
  destruct (mappages_page kend Hkend fuel m1 fs q {[ [] := q ]} (fun _ => 0) (TRAMPOLINE / PGSIZE) tramp (Z.lor PTE_R PTE_X))
    as (r1 & m2 & fs2 & tabs2 & Hm2 & Hcase2); [lia|apply Hu1|done|done|done|done|].
  change (TRAMPOLINE / PGSIZE * PGSIZE) with TRAMPOLINE in Hm2. rewrite (call_mem2 (Vm.mappages fuel q TRAMPOLINE PGSIZE tramp (Z.lor PTE_R PTE_X)) r1 m1 m2 s _ Hm2).
  assert (Hs2 : same_except (q :: fs) (ram (mem_of s)) (ram m2)).
  { eapply same_trans; [exact Hs1|]. destruct Hcase2 as [(_ & _ & _ & _ & Hac & Hs)|(_ & _ & _ & _ & _ & Hac & Hs)];
      (eapply same_mono; [|exact Hs]; apply (Hin fs2)); unfold accounted in Hac; by rewrite Hac. }
  destruct Hcase2 as [(-> & Hc2 & Hp2)|(-> & -> & Hc2 & Hp2)].
  2:{ change (-1 <? 0) with true. cbv iota. pose proof Hp2 as (Hv2 & _ & Hac2 & _). unfold accounted in Hac2.
      destruct (free_empty m2 [] q tabs2 (fun _ => 0)) as (m3 & fs3 & H3 & Hk3 & Hp3 & Hs3); [|done|done|].
      { destruct Hu1 as [_ U2 U3 U4 U5 U6]. split; try done. by rewrite Hac2. }
      rewrite (call_mem2 (Vm.uvmfree kend fuel q 0) tt m2 m3 s _ H3). exists 0, m3. split; [done|]. split.
      - right. split; [done|]. split; [|simpl; lia]. exists fs3. split; [done|]. by rewrite Hp3, Hac2.
      - eapply same_trans; [exact Hs2|]. eapply same_mono; [|exact Hs3]. apply (Hin []). by rewrite Hac2. }
  change (0 <? 0) with false. cbv iota. rewrite (bind_Ok _ _ _ _ _ (get_proc_mem s m2 i Hi)). fold tf.
  pose proof (uspace_top _ _ _ _ _ _ _ _ _ _ _ Hu1 Hp2 ltac:(done)) as Hu2. destruct Hp2 as (_ & _ & Hac2 & _). unfold accounted in Hac2.
  destruct (mappages_page kend Hkend fuel m2 fs2 q tabs2 _ (TRAPFRAME / PGSIZE) tf (Z.lor PTE_R PTE_W) ltac:(lia) (us_vm _ _ _ _ _ _ _ Hu2))
    as (r2 & m3 & fs3 & tabs3 & Hm3 & Hcase3); [done|done|done|done|].
  change (TRAPFRAME / PGSIZE * PGSIZE) with TRAPFRAME in Hm3. rewrite (call_mem2 (Vm.mappages fuel q TRAPFRAME PGSIZE tf (Z.lor PTE_R PTE_W)) r2 m2 m3 s _ Hm3).
  assert (Hs3 : same_except (q :: fs) (ram (mem_of s)) (ram m3)).
  { eapply same_trans; [exact Hs2|]. destruct Hcase3 as [(_ & _ & _ & _ & Hac & Hs)|(_ & _ & _ & _ & _ & Hac & Hs)];
      (eapply same_mono; [|exact Hs]; apply (Hin fs3)); unfold accounted in Hac; by rewrite Hac, Hac2. }
  destruct Hcase3 as [(-> & Hc3 & Hp3)|(-> & -> & Hc3 & Hp3)]; pose proof Hp3 as (Hv3 & _ & Hac3 & _); unfold accounted in Hac3.
  - change (0 <? 0) with false. cbv iota. exists q, m3. split; [done|]. split; [|done]. left. split; [lia|]. exists fs3, tabs3.
    split; [by eapply uspace_top|]. split; [by rewrite Hac3, Hac2|simpl; lia].
  - change (-1 <? 0) with true. cbv iota.
    destruct (pagetable_undo m3 [] q tabs3) as (m4 & m5 & fs5 & H4 & H5 & Hk5 & Hp5 & Hs5); [|done|done|].
    { destruct Hu2 as [_ U2 U3 U4 U5 U6]. split; try done. by rewrite Hac3. }
    rewrite (call_mem2 (Vm.uvmunmap kend fuel q TRAMPOLINE 1 false) tt m3 m4 s _ H4).
    rewrite (call_mem2 (Vm.uvmfree kend fuel q 0) tt m4 m5 s _ H5).
    exists 0, m5. split; [done|]. split.
    + right. split; [done|]. split; [|simpl; lia]. exists fs5. split; [done|]. by rewrite Hp5, Hac3, Hac2.
    + eapply same_trans; [exact Hs3|]. eapply same_mono; [|exact Hs5]. apply (Hin []). by rewrite Hac3, Hac2.
Qed.

(** [proc_freepagetable] gives back everything a process's page table owns: the
    user pages and all page-table pages are on the free list afterwards, while the
    trampoline and the trapframe page are only unmapped.  Nothing in the kernel but
    memory changes. *)
Theorem proc_freepagetable_spec pagetable sz (s : kstate (kmem * F)) fs tabs leaf ups u1 u2 :
  uspace kend (mem_of s) fs pagetable tabs leaf ups -> 0 <= sz <= TRAPFRAME -> length ups = npages sz ->
  frame_ok u1 -> maps leaf (TRAMPOLINE / PGSIZE) u1 -> frame_ok u2 -> maps leaf (TRAPFRAME / PGSIZE) u2 ->
  (forall v, user_top <= v < 512 * 512 * 512 -> v ≠ TRAMPOLINE / PGSIZE -> v ≠ TRAPFRAME / PGSIZE -> leaf v = 0) ->
  (length ups < fuel)%nat -> (3 <= fuel)%nat ->
  exists m' fs', proc_freepagetable pagetable sz s = Ok tt (with_mem s m') ∧ kmem_ok kend m' fs'
    ∧ fs' ≡ₚ ups ++ fs ++ tab_pages tabs ∧ same_except (ups ++ tab_pages tabs) (ram (mem_of s)) (ram m').
Proof using Hkend.
  intros Hu Hsz Hlen Hf1 Hm1 Hf2 Hm2 Htop Hf H3. unfold proc_freepagetable.
  destruct (unmap_top (mem_of s) fs pagetable tabs leaf ups (TRAMPOLINE / PGSIZE) u1 Hu) as (s1 & H1 & Hu1 & Hs1); [done|done|done|lia|].
  assert (Hm2' : maps (upd leaf (TRAMPOLINE / PGSIZE) 0) (TRAPFRAME / PGSIZE) u2).
  { destruct Hm2 as (f & ? & E). exists f. by rewrite upd_ne by done. }
  destruct (unmap_top s1 fs pagetable tabs _ ups (TRAPFRAME / PGSIZE) u2 Hu1) as (s2 & H2 & Hu2 & Hs2); [done|done|done|lia|].
  destruct (uvmfree_ok kend Hkend fuel s2 fs pagetable tabs _ ups sz Hu2) as (s3 & fs3 & H3' & Hk3 & Hp3 & Hs3); try done.
  { intros v Hv. destruct (decide (v = TRAPFRAME / PGSIZE)) as [->|]; [by rewrite upd_eq|].
    destruct (decide (v = TRAMPOLINE / PGSIZE)) as [->|]; [by rewrite upd_ne, upd_eq|]. rewrite !upd_ne by done. by apply Htop. }
  change (TRAMPOLINE / PGSIZE * PGSIZE) with TRAMPOLINE in H1. change (TRAPFRAME / PGSIZE * PGSIZE) with TRAPFRAME in H2.
  exists s3, fs3. split_and!; [|done|done|].
  - rewrite (call_mem (Vm.uvmunmap kend fuel pagetable TRAMPOLINE 1 false) tt s1 s _ H1).
    rewrite (call_mem2 (Vm.uvmunmap kend fuel pagetable TRAPFRAME 1 false) tt s1 s2 s _ H2).
    transitivity ((call (on_mem (Vm.uvmfree kend fuel pagetable sz)) ≫= mret) (with_mem s s2)).
    + unfold mbind at 1, M_bind. by destruct (call _ _).
    + by rewrite (call_mem2 (Vm.uvmfree kend fuel pagetable sz) tt s2 s3 s _ H3').
  - assert (Hw : forall m m', same_except (tab_pages tabs) m m' -> same_except (ups ++ tab_pages tabs) m m').
    { intros m m'. apply same_mono. intros x Hx. apply elem_of_app. by right. }
    eapply same_trans; [apply Hw, Hs1|]. eapply same_trans; [apply Hw, Hs2|exact Hs3].
Qed.
(** ** The memory that fork needs *)
Lemma succeeds_mem {A} (f : M kmem A) (ok : A -> Prop) v m m' x (k : A -> kmem * F -> Prop) :
  f m = Ok v m' -> ok v -> k v (m', x) -> succeeds (on_mem f) ok (m, x) k.
Proof. intros Hf Hok Hk v' e'. unfold on_mem. cbn. rewrite Hf. by intros [= <- <-]. Qed.

(** The pages of a page table under construction all come from the list [fs]. *)
Definition from_list (fs : list Z) (m m' : kmem) (fs' : list Z) (tabs' : tables) : Prop :=
  fs' ⊆ fs ∧ tab_pages tabs' ⊆ fs ∧ same_except fs (ram m) (ram m').

Lemma from_list_map fs m m1 fs1 tabs1 root m2 fs2 tabs2 leaf :
  from_list fs m m1 fs1 tabs1 -> vm_post kend m1 fs1 root tabs1 m2 fs2 tabs2 leaf -> from_list fs m m2 fs2 tabs2.
Proof.
  intros (H1 & H2 & H3) (_ & _ & Hac & Hs). unfold accounted in Hac.
  assert (Hin : fs2 ++ tab_pages tabs2 ⊆ fs) by (intros x Hx; rewrite Hac in Hx; set_solver).
  split_and!; [set_solver|set_solver|]. eapply same_trans; [exact H3|]. eapply same_mono; [|exact Hs]. set_solver.
Qed.

(** The page table of a new process, built from five free pages. *)
Lemma pagetable_memory_vm tf m x fs (k : Z -> kmem * F -> Prop) :
  kmem_ok kend m fs -> frame_ok tramp -> frame_ok tf -> (0 < fuel)%nat -> (5 <= length fs)%nat ->
  (forall pt m' fs' tabs', uspace kend m' fs' pt tabs' (proc_leaf tf) [] -> from_list fs m m' fs' tabs' ->
     (length fs <= 5 + length fs')%nat -> k pt (m', x)) ->
  pagetable_memory tf (m, x) k.
Proof using Hkend.
  intros Hk Htr Htf Hf Hlen HQ. destruct fs as [|q fs]; [simpl in Hlen; lia|]. simpl in Hlen.
  destruct (uvmcreate_ok kend m q fs Hkend Hk) as (m1 & Hc & Hu1 & Hs1).
  eapply succeeds_mem; [exact Hc|pose proof (ko_pages _ _ _ Hk) as [[_ ?] _]%Forall_cons; lia|].
  assert (Hl1 : from_list (q :: fs) m m1 fs {[ [] := q ]}).
  { unfold from_list, tab_pages. rewrite map_to_list_singleton. split_and!; [set_solver|set_solver|].
    eapply same_mono; [|exact Hs1]. set_solver. }
  destruct (mappages_page kend Hkend fuel m1 fs q {[ [] := q ]} (fun _ => 0) (TRAMPOLINE / PGSIZE) tramp (Z.lor PTE_R PTE_X))
    as (r1 & m2 & fs2 & tabs2 & Hm2 & [(-> & Hc2 & Hp2)|(_ & _ & Hc2 & _)]); [done|apply Hu1|done|done|done|done| |lia].
  eapply succeeds_mem; [exact Hm2|done|].
  pose proof (uspace_top _ _ _ _ _ _ _ _ _ _ _ Hu1 Hp2 ltac:(done)) as Hu2. pose proof (from_list_map _ _ _ _ _ _ _ _ _ _ Hl1 Hp2) as Hl2.
  destruct (mappages_page kend Hkend fuel m2 fs2 q tabs2 _ (TRAPFRAME / PGSIZE) tf (Z.lor PTE_R PTE_W) Hf (us_vm _ _ _ _ _ _ _ Hu2))
    as (r2 & m3 & fs3 & tabs3 & Hm3 & [(-> & Hc3 & Hp3)|(_ & _ & Hc3 & _)]); [done|done|done|done| |lia].
  eapply succeeds_mem; [exact Hm3|done|].
  apply (HQ q m3 fs3 tabs3); [by eapply uspace_top|by eapply from_list_map|simpl; lia].
Qed.

(** On the real allocator [fork] has the memory it needs as soon as there are six
    free pages and three for each page of the parent. *)
Theorem fork_memory_vm parent m x fs otabs oleaf oups :
  uspace kend m fs (pagetable parent) otabs oleaf oups -> 0 <= sz parent <= TRAPFRAME -> npages (sz parent) = length oups ->
  frame_ok tramp -> (length fs < fuel)%nat -> (6 + 3 * length oups <= length fs)%nat -> fork_memory parent (m, x).
Proof using Hkend.
  intros Hu Hsz Hn Htr Hf Hlen. pose proof (us_nodup _ _ _ _ _ _ _ Hu) as Hnd. pose proof (uspace_aligned _ _ _ _ _ _ _ Hu) as Hal.
  apply Forall_app in Hal as [Hal _]. destruct fs as [|tf fs]; [simpl in Hlen; lia|]. simpl in Hlen, Hf.
  destruct (kalloc_ok kend Hkend m tf fs (vo_kmem _ _ _ _ _ _ (us_vm _ _ _ _ _ _ _ Hu))) as (m1 & H1 & Hk1 & Htf & _ & Hs1 & _).
  eapply succeeds_mem; [exact H1|apply (page_word kend Hkend tf Htf)|].
  apply (pagetable_memory_vm tf m1 x fs); [done|done|by apply (page_frame kend)|lia|lia|].
  intros pt m' fs' tabs' Hc (Hl1 & Hl2 & Hl3) Hlen'.
  assert (Hap : forall p, p ∈ oups ++ tab_pages otabs -> p ∉ tf :: fs).
  { intros p Hp Hin. apply NoDup_app in Hnd as (_ & N2 & (_ & N3 & _)%NoDup_app).
    apply elem_of_app in Hp as [Hp|Hp]; [by apply (N2 p Hp), elem_of_app; left|by apply (N3 p Hin)]. }
  assert (Hp' : uspace kend m' fs' (pagetable parent) otabs oleaf oups).
  { eapply (uspace_other kend m (tf :: fs) m' fs' _ _ _ _ (tf :: fs)); [done|apply Hc| |done| | |].
    - eapply same_trans; (eapply same_mono; [|done]); set_solver.
    - intros p Hp. apply Hap, elem_of_app. by right.
    - set_solver.
    - intros p Hp Hin. apply (Hap p Hp). set_solver. }
  assert (Hle : (length fs' <= length fs)%nat).
  { apply submseteq_length, NoDup_submseteq; [apply (ko_nodup _ _ _ (vo_kmem _ _ _ _ _ _ (us_vm _ _ _ _ _ _ _ Hc)))|done]. }
  destruct (uvmcopy_loop_ok kend Hkend fuel m' fs' (pagetable parent) otabs oleaf oups pt tabs' (proc_leaf tf) Hp' Hc ltac:(set_solver) (sz parent) fuel m' fs' tabs' (proc_leaf tf) [])
    as (r & m2 & Hrun & fs2 & tabs2 & leaf2 & Hr); [lia|simpl; lia|done|done|simpl; lia|by apply grown_nil|by intros j u q|simpl; lia|].
  eapply succeeds_mem; [exact Hrun| |done]. destruct Hr as [(-> & _)|(_ & _ & _ & ?)]; lia.
Qed.
End env.

(** ** Witnesses: the nine-page machine, with no file system *)
Section witness.
Abbreviation none1 := (fun (_ : Z) (_ : unit) => None).
Definition env9 : KEnv (kmem * unit) :=
  vm_env kend9 10 false 0 0 0 none1 none1 (fun _ _ => None) none1 none1 (fun _ => None) (fun _ => None).
Definition kstate9 (m : kmem) : kstate (kmem * unit) := KState (boot_core (m, tt)) boot_sync.

Lemma proc_pagetable_spec_witness : exists m r m',
  @proc_pagetable _ env9 3 (kstate9 m) = Ok r (kstate9 m').
Proof.
  destruct small_boot as (m & fs & root & Hu & Hlen).
  destruct (proc_pagetable_spec kend9 10 false 0 0 0 none1 none1 (fun _ _ => None) none1 none1 (fun _ => None) (fun _ => None)
    ltac:(done) 3 (kstate9 m) fs ltac:(done) (vo_kmem _ _ _ _ _ _ (us_vm _ _ _ _ _ _ _ Hu)) ltac:(lia) ltac:(done) ltac:(done))
    as (r & m' & Hrun & _).
  exists m, r, m'. exact Hrun.
Defined.

Lemma small_pagetable : exists m fs root tabs leaf, uspace kend9 m fs root tabs leaf []
  ∧ maps leaf (TRAMPOLINE / PGSIZE) 0 ∧ maps leaf (TRAPFRAME / PGSIZE) 0
  ∧ forall v, v ≠ TRAMPOLINE / PGSIZE -> v ≠ TRAPFRAME / PGSIZE -> leaf v = 0.
Proof.
  destruct small_boot as (m & fs & root & Hu & Hlen).
  destruct (mappages_page kend9 ltac:(done) 10 m fs root _ _ (TRAMPOLINE / PGSIZE) 0 10 ltac:(lia) (us_vm _ _ _ _ _ _ _ Hu))
    as (r1 & m1 & fs1 & tabs1 & _ & [(_ & Hc1 & Hp1)|(_ & _ & Hc1 & _)]); [done..| |lia].
  pose proof (uspace_top kend9 _ _ _ _ _ _ _ _ _ _ _ Hu Hp1 ltac:(done)) as Hu1.
  destruct (mappages_page kend9 ltac:(done) 10 m1 fs1 root tabs1 _ (TRAPFRAME / PGSIZE) 0 6 ltac:(lia) (us_vm _ _ _ _ _ _ _ Hu1))
    as (r2 & m2 & fs2 & tabs2 & _ & [(_ & Hc2 & Hp2)|(_ & _ & Hc2 & _)]); [done..| |lia].
  pose proof (uspace_top kend9 _ _ _ _ _ _ _ _ _ _ _ Hu1 Hp2 ltac:(done)) as Hu2.
  eexists m2, fs2, root, tabs2, _. split; [exact Hu2|]. split_and!.
  - exists 11. by split.
  - exists 7. by split.
  - intros v Hv1 Hv2. by rewrite !upd_ne.
Qed.

Lemma proc_freepagetable_spec_witness : exists m root m',
  @proc_freepagetable _ env9 root 0 (kstate9 m) = Ok tt (kstate9 m').
Proof.
  destruct small_pagetable as (m & fs & root & tabs & leaf & Hu & Hm1 & Hm2 & Htop).
  destruct (proc_freepagetable_spec kend9 10 false 0 0 0 none1 none1 (fun _ _ => None) none1 none1 (fun _ => None) (fun _ => None)
    ltac:(done) root 0 (kstate9 m) fs tabs leaf [] 0 0 Hu) as (m' & fs' & Hrun & _);
    [done|done|done|exact Hm1|done|exact Hm2|by intros v _ ? ?; apply Htop|simpl; lia|lia|].
  exists m, root, m'. exact Hrun.
Defined.
End witness.
