(* ===== verification/Sh.v ===== *)
(** * Sh: the command parser of the shell, user/sh.c

    The line is an array of bytes; pointers into it are indices.  Commands are nodes
    on a heap, as [malloc] gives them out: [parseexec] goes on filling in the
    arguments of a node that is already below the redirections it returns, so the
    nodes are kept in a store and not as values.  [malloc] is taken to succeed.
    Printing a message and leaving with [exit(1)] is [Panic], with all that is printed
    but the last newline.

    Character constants are written as their codes: 38 ampersand, 40 and 41
    parentheses, 43 plus, 59 semicolon, 60 and 62 less and greater, 97 the letter a,
    124 the bar. *)

From S2P Require Import Prelude Bytes.
From S2P Require Export Fcntl.

Definition MAXARGS : Z := 10.

(** [struct execcmd], [redircmd], [pipecmd], [listcmd], [backcmd]; 0 in an array of
    pointers is [None]. *)
Inductive node :=
| EXEC (argv eargv : list (option Z))
| REDIR (cmd : nat) (file efile mode fd : Z)
| PIPE (left right : nat)
| LIST (left right : nat)
| BACK (cmd : nat).

Record sh := Sh { line : list Z; ps : Z; heap : list node }.
#[export] Instance sh_eta : Eta sh := fun r => Sh (line r) (ps r) (heap r).

(** ** Constructors *)
Definition malloc (n : node) : M sh nat := fun s => Ok (length (heap s)) (s <| heap ::= fun h => h ++ [n] |>).
Definition execcmd : M sh nat := malloc (EXEC (replicate (Z.to_nat MAXARGS) None) (replicate (Z.to_nat MAXARGS) None)).
Definition redircmd (subcmd : nat) (file efile mode fd : Z) : M sh nat := malloc (REDIR subcmd file efile mode fd).
Definition pipecmd (left right : nat) : M sh nat := malloc (PIPE left right).
Definition listcmd (left right : nat) : M sh nat := malloc (LIST left right).
Definition backcmd (subcmd : nat) : M sh nat := malloc (BACK subcmd).

(** ** Tokens *)
Definition whitespace : list Z := [32; 9; 13; 10; 11].
Definition symbols : list Z := [60; 124; 62; 38; 59; 40; 41].

(** [strchr(s, c)] is not 0, for a string constant [s]. *)
Fixpoint strchr (s : list Z) (c : Z) : bool :=
  match s with
  | [] => false
  | x :: s' => if x =? c then true else strchr s' c
  end.

#[global] Arguments strchr : simpl never.

(** [while(s < es && ...) s++] *)
Fixpoint skip_ws (k : nat) (bs : list Z) (s es : Z) : Z :=
  match k with
  | O => s
  | S k' => if (s <? es) && strchr whitespace (byte_at bs s) then skip_ws k' bs (s + 1) es else s
  end.
Fixpoint skip_word (k : nat) (bs : list Z) (s es : Z) : Z :=
  match k with
  | O => s
  | S k' =>
      if (s <? es) && negb (strchr whitespace (byte_at bs s)) && negb (strchr symbols (byte_at bs s))
      then skip_word k' bs (s + 1) es else s
  end.
Definition blanks (bs : list Z) (s es : Z) : Z := skip_ws (Z.to_nat (es - s)) bs s es.

(** The token at [s]: its kind, where it starts and ends, and what follows. *)
Definition token_at (bs : list Z) (s es : Z) : Z * Z * Z * Z :=
  let q := blanks bs s es in
  let c := byte_at bs q in
  let '(ret, eq) :=
    if c =? 0 then (c, q)
    else if strchr [124; 40; 41; 59; 38; 60] c then (c, q + 1)
    else if c =? 62 then if byte_at bs (q + 1) =? 62 then (43, q + 2) else (c, q + 1)
    else (97, skip_word (Z.to_nat (es - q)) bs q es) in
  (ret, q, eq, blanks bs eq es).
Definition gettoken (es : Z) : M sh (Z * Z * Z) := fun st =>
  let '(ret, q, eq, s) := token_at (line st) (ps st) es in
  Ok (ret, q, eq) (st <| ps := s |>).

Definition peek (es : Z) (toks : list Z) : M sh bool := fun st =>
  let s := blanks (line st) (ps st) es in
  let c := byte_at (line st) s in
  Ok (negb (c =? 0) && strchr toks c) (st <| ps := s |>).

(** ** Parsing *)
Fixpoint parseredirs (k : nat) (es : Z) (cmd : nat) : M sh nat :=
  match k with
  | O => no_fuel
  | S k' =>
      b ← peek es [60; 62];
      if negb b then mret cmd else
      t ← gettoken es;
      t' ← gettoken es;
      let '(tok, _, _) := t in
      let '(r, q, eq) := t' in
      if negb (r =? 97) then panic "missing file for redirection" else
      cmd ← (if tok =? 60 then redircmd cmd q eq O_RDONLY 0
             else if tok =? 62 then redircmd cmd q eq (Z.lor (Z.lor O_WRONLY O_CREATE) O_TRUNC) 1
             else if tok =? 43 then redircmd cmd q eq (Z.lor O_WRONLY O_CREATE) 1
             else mret cmd);
      parseredirs k' es cmd
  end.

(** [cmd->argv[i] = q; cmd->eargv[i] = eq] *)
Definition set_arg (cmd : nat) (i : Z) (q eq : option Z) : M sh unit := fun st =>
  match heap st !! cmd with
  | Some (EXEC argv eargv) =>
      if (0 <=? i) && (i <? MAXARGS)
      then Ok tt (st <| heap ::= <[cmd := EXEC (<[Z.to_nat i := q]> argv) (<[Z.to_nat i := eq]> eargv)]> |>)
      else OutOfBounds
  | _ => OutOfBounds
  end.

(** The loop of [parseexec]: the command and the number of arguments. *)
Fixpoint parseargs (k : nat) (es : Z) (cmd ret : nat) (argc : Z) : M sh (nat * Z) :=
  match k with
  | O => no_fuel
  | S k' =>
      b ← peek es [124; 41; 38; 59];
      if (b : bool) then mret (ret, argc) else
      t ← gettoken es;
      let '(tok, q, eq) := t in
      if tok =? 0 then mret (ret, argc) else
      if negb (tok =? 97) then panic "syntax" else
      set_arg cmd argc (Some q) (Some eq);;
      if MAXARGS <=? argc + 1 then panic "too many args" else
      ret ← parseredirs k' es ret;
      parseargs k' es cmd ret (argc + 1)
  end.

(** [while(peek(ps, es, "&"))] in [parseline] *)
Fixpoint parsebacks (k : nat) (es : Z) (cmd : nat) : M sh nat :=
  match k with
  | O => no_fuel
  | S k' =>
      b ← peek es [38];
      if negb b then mret cmd else
      gettoken es;;
      cmd ← backcmd cmd;
      parsebacks k' es cmd
  end.

Fixpoint parseline (k : nat) (es : Z) : M sh nat :=
  match k with
  | O => no_fuel
  | S k' =>
      cmd ← parsepipe k' es;
      cmd ← parsebacks k' es cmd;
      b ← peek es [59];
      if (b : bool) then
        gettoken es;;
        right ← parseline k' es;
        listcmd cmd right
      else mret cmd
  end
with parsepipe (k : nat) (es : Z) : M sh nat :=
  match k with
  | O => no_fuel
  | S k' =>
      cmd ← parseexec k' es;
      b ← peek es [124];
      if (b : bool) then
        gettoken es;;
        right ← parsepipe k' es;
        pipecmd cmd right
      else mret cmd
  end
with parseexec (k : nat) (es : Z) : M sh nat :=
  match k with
  | O => no_fuel
  | S k' =>
      b ← peek es [40];
      if (b : bool) then parseblock k' es else
      cmd ← execcmd;
      ret ← parseredirs k' es cmd;
      ra ← parseargs k' es cmd ret 0;
      set_arg cmd ra.2 None None;;
      mret ra.1
  end
with parseblock (k : nat) (es : Z) : M sh nat :=
  match k with
  | O => no_fuel
  | S k' =>
      b ← peek es [40];
      if negb b then panic "parseblock" else
      gettoken es;;
      cmd ← parseline k' es;
      b ← peek es [41];
      if negb b then panic "syntax - missing )" else
      gettoken es;;
      parseredirs k' es cmd
  end.

(** ** Terminating the strings *)
Definition end_at (p : option Z) : M sh unit := fun st =>
  match p with
  | Some i =>
      if (0 <=? i) && (i <? Z.of_nat (length (line st))) then Ok tt (st <| line ::= fun l => put_byte l i 0 |>) else OutOfBounds
  | None => OutOfBounds
  end.
(** [for(i=0; ecmd->argv[i]; i++)] *)
Fixpoint nul_args (argv eargv : list (option Z)) : M sh unit :=
  match argv, eargv with
  | None :: _, _ => mret tt
  | Some _ :: argv', e :: eargv' => end_at e;; nul_args argv' eargv'
  | _, _ => out_of_bounds
  end.

Fixpoint nulterminate (k : nat) (cmd : nat) : M sh unit :=
  match k with
  | O => no_fuel
  | S k' =>
      h ← gets heap;
      match h !! cmd with
      | Some (EXEC argv eargv) => nul_args argv eargv
      | Some (REDIR c _ efile _ _) => nulterminate k' c;; end_at (Some efile)
      | Some (PIPE l r) => nulterminate k' l;; nulterminate k' r
      | Some (LIST l r) => nulterminate k' l;; nulterminate k' r
      | Some (BACK c) => nulterminate k' c
      | None => out_of_bounds
      end
  end.

(** The length of the string at the start of the line. *)
Fixpoint strlen_line (bs : list Z) : Z :=
  match bs with
  | [] => 0
  | c :: bs' => if c =? 0 then 0 else 1 + strlen_line bs'
  end.

(** The string at the start of [l]. *)
Fixpoint cstring (l : list Z) : list Z :=
  match l with
  | [] => []
  | c :: l' => if c =? 0 then [] else c :: cstring l'
  end.
Definition string_at (l : list Z) (q : Z) : list Z := cstring (drop (Z.to_nat q) l).

(** What is printed about the end of a line, [s] on, that belongs to no command. *)
Definition of_bytes (l : list Z) : string :=
  String.string_of_list_ascii ((fun c => Ascii.ascii_of_nat (Z.to_nat c)) <$> l).
Definition leftovers (l : list Z) (s : Z) : string :=
  String.append "leftovers: " (String.append (of_bytes (string_at l s ++ [10])) "syntax").

Definition parsecmd : M sh nat :=
  l ← gets line;
  let es := strlen_line l in
  cmd ← parseline (Z.to_nat (4 * es) + 4) es;
  peek es [];;
  s ← gets ps;
  if negb (s =? es) then
    l ← gets line;
    panic (leftovers l s)
  else
  h ← gets heap;
  nulterminate (S (length h)) cmd;;
  mret cmd.
