(* ===== verification/ShLex.v ===== *)
(** * ShLex: tokens of the shell

    [gettoken] and [peek] walk over the tokens of the line: every position of the line
    has its sequence of tokens, [peek] tells whether the first one is in a set and
    [gettoken] takes it off. *)

From S2P Require Import Prelude Bytes Sh.

Inductive token := Word (w : list Z) | Sym (c : Z) | Append.

(** What [gettoken] returns for a token. *)
Definition code (t : token) : Z := match t with Word _ => 97 | Sym c => c | Append => 43 end.
(** A byte of a word. *)
Definition wordc (c : Z) : bool := negb (c =? 0) && negb (strchr whitespace c) && negb (strchr symbols c).

Lemma strchr_spec s c : strchr s c = true <-> c ∈ s.
Proof.
  induction s as [|x s IH]; [split; [done|by intros ?%elem_of_nil]|]. change (strchr (x :: s) c) with (if x =? c then true else strchr s c). rewrite elem_of_cons, <- IH.
  destruct (Z.eqb_spec x c) as [->|]; [tauto|]. split; [auto|]. intros [->|]; [done|done].
Qed.

Section lex.
Context (bs : list Z) (es : Z).
Abbreviation at_ i := (byte_at bs i).

Lemma skip_ws_spec k s : 0 <= s <= es -> es - s <= Z.of_nat k ->
  s <= skip_ws k bs s es <= es ∧ (skip_ws k bs s es < es -> strchr whitespace (at_ (skip_ws k bs s es)) = false).
Proof.
  revert s. induction k as [|k IH]; intros s Hs Hk; simpl; [split; [lia|intros; exfalso; lia]|].
  destruct (Z.ltb_spec s es); simpl; [|split; [lia|intros; exfalso; lia]]. destruct (strchr whitespace (at_ s)) eqn:E; [|split; [lia|done]].
  destruct (IH (s + 1)) as [H1 H2]; [lia|lia|]. split; [lia|done].
Qed.
Lemma blanks_spec s : 0 <= s <= es ->
  s <= blanks bs s es <= es ∧ (blanks bs s es < es -> strchr whitespace (at_ (blanks bs s es)) = false).
Proof. intros Hs. apply skip_ws_spec; lia. Qed.
Lemma blanks_stop s : (s < es -> strchr whitespace (at_ s) = false) -> blanks bs s es = s.
Proof.
  intros Hs. unfold blanks. destruct (Z.to_nat (es - s)) as [|k] eqn:E; [done|]. simpl.
  destruct (Z.ltb_spec s es); simpl; [|done]. by rewrite Hs.
Qed.
Lemma blanks_idem s : 0 <= s <= es -> blanks bs (blanks bs s es) es = blanks bs s es.
Proof. intros Hs. apply blanks_stop. by apply blanks_spec. Qed.

Lemma skip_word_spec k s : 0 <= s <= es -> es - s <= Z.of_nat k ->
  (forall i, 0 <= i < es -> at_ i ≠ 0) -> at_ es = 0 ->
  let e := skip_word k bs s es in s <= e <= es ∧ (forall i, s <= i < e -> wordc (at_ i) = true) ∧ wordc (at_ e) = false.
Proof.
  intros Hs Hk Hnz Hz. revert s Hs Hk. induction k as [|k IH]; intros s Hs Hk; simpl.
  - split; [lia|]. split; [intros; exfalso; lia|]. replace s with es by lia. by rewrite Hz.
  - destruct (Z.ltb_spec s es); simpl.
    + destruct (negb (strchr whitespace (at_ s)) && negb (strchr symbols (at_ s))) eqn:E.
      * destruct (IH (s + 1)) as (H1 & H2 & H3); [lia|lia|]. split; [lia|]. split; [|done].
        intros i Hi. destruct (decide (i = s)) as [->|]; [|apply H2; lia]. unfold wordc. rewrite <- andb_assoc, E.
        by rewrite (proj2 (Z.eqb_neq _ _) (Hnz s ltac:(lia))).
      * split; [lia|]. split; [intros; exfalso; lia|]. unfold wordc. rewrite <- andb_assoc, E. by rewrite andb_false_r.
    + split; [lia|]. split; [intros; exfalso; lia|]. replace s with es by lia. by rewrite Hz.
Qed.

(** A word lies between [q] and [eq]. *)
Definition extent (q eq : Z) : Prop :=
  0 <= q < eq ∧ eq <= es ∧ (forall i, q <= i < eq -> wordc (at_ i) = true) ∧ wordc (at_ eq) = false.
Definition word_at (q eq : Z) : list Z := byte_at bs <$> seqZ q (eq - q).
Definition text_ok (t : token) (q eq : Z) : Prop :=
  match t with
  | Word w => extent q eq ∧ word_at q eq = w
  | Sym c => c ∈ symbols
  | Append => True
  end.

(** The tokens from position [s] on. *)
Inductive lexes : Z -> list token -> Prop :=
| lex_end s : 0 <= s <= es -> blanks bs s es = es -> lexes s []
| lex_cons s t ts q eq s' :
    0 <= s <= es -> token_at bs s es = (code t, q, eq, s') -> at_ q ≠ 0 -> strchr symbols (at_ q) = match t with Word _ => false | _ => true end ->
    (forall c, t = Sym c -> at_ q = c) -> (t = Append -> at_ q = 62) ->
    text_ok t q eq -> q < s' -> lexes s' ts -> lexes s (t :: ts).

Context (Hnz : forall i, 0 <= i < es -> at_ i ≠ 0) (Hz : at_ es = 0).

(** Every position has its tokens. *)
Lemma lexes_step s : 0 <= s <= es -> blanks bs s es = es ∨ ∃ t q eq s', token_at bs s es = (code t, q, eq, s') ∧
  s < s' ∧ s' <= es ∧ forall ts, lexes s' ts -> lexes s (t :: ts).
Proof using Hnz Hz.
  intros Hs. destruct (blanks_spec s Hs) as [Hq Hw]. destruct (decide (blanks bs s es = es)) as [|Hne]; [by left|right].
  set (q := blanks bs s es) in *. specialize (Hw ltac:(lia)). assert (Hc : at_ q ≠ 0) by (apply Hnz; lia).
  unfold token_at. fold q. assert ((at_ q =? 0) = false) as -> by lia.
  destruct (strchr [124; 40; 41; 59; 38; 60] (at_ q)) eqn:E1.
  - assert (Hin : strchr symbols (at_ q) = true).
    { rewrite strchr_spec in *. revert E1. unfold symbols. rewrite !elem_of_cons. tauto. }
    destruct (blanks_spec (q + 1)) as [Hb _]; [lia|]. exists (Sym (at_ q)), q, (q + 1), (blanks bs (q + 1) es).
    split; [done|]. split; [lia|]. split; [lia|]. intros ts Hts. eapply (lex_cons s _ ts q); [..|exact Hts]; try done; [..|lia].
    + unfold token_at. fold q. assert ((at_ q =? 0) = false) as -> by lia. by rewrite E1.
    + by intros c [= <-].
    + by apply strchr_spec.
  - destruct (Z.eqb_spec (at_ q) 62) as [E2|E2].
    + destruct (Z.eqb_spec (at_ (q + 1)) 62) as [E3|E3].
      * assert (q + 1 ≠ es) by (intros E; rewrite E, Hz in E3; done). destruct (blanks_spec (q + 2)) as [Hb _]; [lia|].
        exists Append, q, (q + 2), (blanks bs (q + 2) es). split; [done|]. split; [lia|]. split; [lia|].
        intros ts Hts. eapply (lex_cons s _ ts q); [..|exact Hts]; try done; [..|lia].
        -- unfold token_at. fold q. assert ((at_ q =? 0) = false) as -> by lia. by rewrite E1, E2, E3.
        -- by rewrite E2.
      * destruct (blanks_spec (q + 1)) as [Hb _]; [lia|].
        exists (Sym 62), q, (q + 1), (blanks bs (q + 1) es). rewrite E2. split; [done|]. split; [lia|]. split; [lia|].
        intros ts Hts. eapply (lex_cons s _ ts q); [..|exact Hts]; try done; [..|lia].
        -- unfold token_at. fold q. assert ((at_ q =? 0) = false) as -> by lia. rewrite E1, E2. simpl. by rewrite (proj2 (Z.eqb_neq _ _) E3).
        -- by rewrite E2.
        -- by intros c [= <-].
        -- apply strchr_spec. done.
    + assert (Hns : strchr symbols (at_ q) = false).
      { destruct (strchr symbols (at_ q)) eqn:E; [|done]. apply strchr_spec in E. apply not_true_iff_false in E1. rewrite strchr_spec in E1.
        unfold symbols in E. rewrite !elem_of_cons in *. tauto. }
      destruct (skip_word_spec (Z.to_nat (es - q)) q ltac:(lia) ltac:(lia) Hnz Hz) as (H1 & H2 & H3). set (e := skip_word _ bs q es) in *.
      assert (Hqe : q < e). { destruct (decide (e = q)) as [Ee|]; [|lia]. rewrite Ee in H3. unfold wordc in H3. rewrite Hw, Hns in H3. simpl in H3.
        rewrite !andb_true_r in H3. lia. }
      destruct (blanks_spec e) as [Hb _]; [lia|]. exists (Word (word_at q e)), q, e, (blanks bs e es). split; [done|]. split; [lia|]. split; [lia|].
      intros ts Hts. eapply (lex_cons s _ ts q); [..|exact Hts]; try done; [..|lia].
      * unfold token_at. fold q. assert ((at_ q =? 0) = false) as -> by lia. rewrite E1. by rewrite (proj2 (Z.eqb_neq _ _) E2).
      * split; [|done]. split_and!; [lia|lia|lia|done|done].
Qed.

Lemma lexes_total s : 0 <= s <= es -> ∃ ts, lexes s ts ∧ Z.of_nat (length ts) <= es - s.
Proof using Hnz Hz.
  remember (Z.to_nat (es - s)) as n eqn:Hn. revert s Hn. induction n as [n IH] using lt_wf_ind. intros s Hn Hs.
  destruct (lexes_step s Hs) as [Hb|(t & q & eq & s' & _ & H1 & H2 & H3)].
  - exists []. split; [by apply lex_end|]. simpl. lia.
  - destruct (IH (Z.to_nat (es - s')) ltac:(lia) s' eq_refl ltac:(lia)) as (ts & Hts & Hl).
    exists (t :: ts). split; [by apply H3|]. simpl length. lia.
Qed.
Lemma lexes_range s ts : lexes s ts -> 0 <= s <= es.
Proof. by destruct 1. Qed.

Lemma token_at_q s ret q eq s' : token_at bs s es = (ret, q, eq, s') -> q = blanks bs s es.
Proof. unfold token_at. intros H. repeat case_match; congruence. Qed.
Lemma token_at_blanks s : 0 <= s <= es -> token_at bs (blanks bs s es) es = token_at bs s es.
Proof. intros Hs. unfold token_at. by rewrite blanks_idem. Qed.

(** The first token is one of the symbols [toks]. *)
Definition head_in (toks : list Z) (ts : list token) : bool :=
  match ts with
  | Sym c :: _ => strchr toks c
  | Append :: _ => strchr toks 62
  | _ => false
  end.

Lemma lexes_blanks s ts : lexes s ts -> lexes (blanks bs s es) ts.
Proof.
  intros Hl. pose proof (lexes_range _ _ Hl) as Hs. destruct (blanks_spec s Hs) as [Hb _]. destruct Hl as [s _ He|s t ts q eq s' _ Ht].
  - apply lex_end; [lia|]. by rewrite blanks_idem.
  - eapply lex_cons; try done; [lia|]. by rewrite token_at_blanks.
Qed.
Lemma peek_lexes toks s ts :
  lexes s ts -> (forall c, c ∈ toks -> c ∈ symbols) ->
  negb (at_ (blanks bs s es) =? 0) && strchr toks (at_ (blanks bs s es)) = head_in toks ts.
Proof using Hz.
  intros Hl Hsub. destruct Hl as [s _ ->|s t ts q eq s' _ Ht Hne Hsym Hc Ha]; [by rewrite Hz|].
  apply token_at_q in Ht as <-. rewrite (proj2 (Z.eqb_neq _ _) Hne). simpl. destruct t as [w|c|]; simpl.
  - destruct (strchr toks (at_ q)) eqn:E; [|done]. apply strchr_spec, Hsub, strchr_spec in E. congruence.
  - by rewrite (Hc c).
  - by rewrite Ha.
Qed.
Lemma token_nil s ret q eq s' : lexes s [] -> token_at bs s es = (ret, q, eq, s') -> ret = 0 ∧ lexes s' [].
Proof using Hz.
  inversion 1 as [s0 Hs Hb|]; subst. unfold token_at. rewrite Hb, Hz. simpl. intros [= <- <- <- <-]. split; [done|].
  assert (blanks bs es es = es) as -> by (apply blanks_stop; lia). apply lex_end; [lia|apply blanks_stop; lia].
Qed.
Lemma token_cons s t ts ret q eq s' :
  lexes s (t :: ts) -> token_at bs s es = (ret, q, eq, s') -> ret = code t ∧ text_ok t q eq ∧ lexes s' ts ∧ s < s'.
Proof.
  inversion 1 as [|s0 t0 ts0 q0 eq0 s0' Hs Ht Hne Hsym Hc Ha Hx Hlt Hts]; subst. rewrite Ht. intros [= <- <- <- <-].
  split; [done|]. split; [done|]. split; [done|]. apply token_at_q in Ht. destruct (blanks_spec s Hs). lia.
Qed.
End lex.
