(* ===== verification/ShParse.v ===== *)
(** * ShParse: the grammar of the shell

    A reference parser on token sequences, with commands as values, and the theorem
    that the parser of sh.c follows it: it builds the command the reference parser
    finds, and reports an error where the reference parser fails. *)

From S2P Require Import Prelude Bytes Sh ShLex.

(** ** Commands and the reference parser *)
Inductive cmd :=
| Exec (args : list (list Z))
| Redir (c : cmd) (file : list Z) (mode fd : Z)
| Pipe (left right : cmd)
| Lst (left right : cmd)
| Back (c : cmd).

Inductive res (A : Type) := Done (a : A) (ts : list token) | Err | Fuel.
Arguments Done {A} a ts.
Arguments Err {A}.
Arguments Fuel {A}.
Definition rbind {A B} (r : res A) (f : A -> list token -> res B) : res B :=
  match r with Done a ts => f a ts | Err => Err | Fuel => Fuel end.

(** A redirection: the file, the mode to open it with and the descriptor. *)
Definition redir : Type := list Z * Z * Z.
Definition redir_of (t : token) (w : list Z) : redir :=
  match t with
  | Sym c => if c =? 60 then (w, O_RDONLY, 0) else (w, Z.lor (Z.lor O_WRONLY O_CREATE) O_TRUNC, 1)
  | _ => (w, Z.lor O_WRONLY O_CREATE, 1)
  end.
(** Redirections around a command, the outermost first. *)
Fixpoint wrap (rds : list redir) (c : cmd) : cmd :=
  match rds with
  | [] => c
  | (w, m, d) :: rds' => Redir (wrap rds' c) w m d
  end.

Fixpoint r_redirs (k : nat) (rds : list redir) (ts : list token) : res (list redir) :=
  match k with
  | O => Fuel
  | S k' =>
      if head_in [60; 62] ts then
        match ts with
        | t :: Word w :: ts' => r_redirs k' (redir_of t w :: rds) ts'
        | _ => Err
        end
      else Done rds ts
  end.
Fixpoint r_args (k : nat) (args : list (list Z)) (rds : list redir) (ts : list token) : res (list (list Z) * list redir) :=
  match k with
  | O => Fuel
  | S k' =>
      if head_in [124; 41; 38; 59] ts then Done (args, rds) ts else
      match ts with
      | [] => Done (args, rds) []
      | Word w :: ts' =>
          if MAXARGS <=? Z.of_nat (length args) + 1 then Err else
          rbind (r_redirs k' rds ts') (fun rds => r_args k' (args ++ [w]) rds)
      | _ => Err
      end
  end.
Fixpoint r_backs (k : nat) (c : cmd) (ts : list token) : res cmd :=
  match k with
  | O => Fuel
  | S k' => if head_in [38] ts then r_backs k' (Back c) (tail ts) else Done c ts
  end.
Fixpoint r_line (k : nat) (ts : list token) : res cmd :=
  match k with
  | O => Fuel
  | S k' =>
      rbind (r_pipe k' ts) (fun c ts =>
      rbind (r_backs k' c ts) (fun c ts =>
      if head_in [59] ts then rbind (r_line k' (tail ts)) (fun c' ts => Done (Lst c c') ts) else Done c ts))
  end
with r_pipe (k : nat) (ts : list token) : res cmd :=
  match k with
  | O => Fuel
  | S k' =>
      rbind (r_exec k' ts) (fun c ts =>
      if head_in [124] ts then rbind (r_pipe k' (tail ts)) (fun c' ts => Done (Pipe c c') ts) else Done c ts)
  end
with r_exec (k : nat) (ts : list token) : res cmd :=
  match k with
  | O => Fuel
  | S k' =>
      if head_in [40] ts then r_block k' ts else
      rbind (r_redirs k' [] ts) (fun rds ts =>
      rbind (r_args k' [] rds ts) (fun ar ts => Done (wrap ar.2 (Exec ar.1)) ts))
  end
with r_block (k : nat) (ts : list token) : res cmd :=
  match k with
  | O => Fuel
  | S k' =>
      if head_in [40] ts then
        rbind (r_line k' (tail ts)) (fun c ts =>
        if head_in [41] ts then rbind (r_redirs k' [] (tail ts)) (fun rds ts => Done (wrap rds c) ts) else Err)
      else Err
  end.

(** ** Commands on the heap *)

(** A command with the positions of its strings in the line. *)
Inductive pcmd :=
| PExec (qs : list (Z * Z))
| PRedir (c : pcmd) (q eq mode fd : Z)
| PPipe (left right : pcmd)
| PList (left right : pcmd)
| PBack (c : pcmd).
Definition exec_node (qs : list (Z * Z)) : node :=
  EXEC ((Some ∘ fst <$> qs) ++ replicate (Z.to_nat MAXARGS - length qs) None)
       ((Some ∘ snd <$> qs) ++ replicate (Z.to_nat MAXARGS - length qs) None).
(** Children are older than their parents. *)
Fixpoint tree (h : list node) (p : nat) (c : pcmd) : Prop :=
  match c with
  | PExec qs => h !! p = Some (exec_node qs) ∧ (length qs < Z.to_nat MAXARGS)%nat
  | PRedir c q eq m d => ∃ p', h !! p = Some (REDIR p' q eq m d) ∧ (p' < p)%nat ∧ tree h p' c
  | PPipe l r => ∃ pl pr, h !! p = Some (PIPE pl pr) ∧ (pl < p)%nat ∧ (pr < p)%nat ∧ tree h pl l ∧ tree h pr r
  | PList l r => ∃ pl pr, h !! p = Some (LIST pl pr) ∧ (pl < p)%nat ∧ (pr < p)%nat ∧ tree h pl l ∧ tree h pr r
  | PBack c => ∃ p', h !! p = Some (BACK p') ∧ (p' < p)%nat ∧ tree h p' c
  end.
(** Its strings, and the command once they are read. *)
Fixpoint spots (c : pcmd) : list (Z * Z) :=
  match c with
  | PExec qs => qs
  | PRedir c q eq _ _ => spots c ++ [(q, eq)]
  | PPipe l r | PList l r => spots l ++ spots r
  | PBack c => spots c
  end.
Fixpoint reads (rd : Z -> Z -> list Z) (c : pcmd) : cmd :=
  match c with
  | PExec qs => Exec ((fun qe => rd qe.1 qe.2) <$> qs)
  | PRedir c q eq m d => Redir (reads rd c) (rd q eq) m d
  | PPipe l r => Pipe (reads rd l) (reads rd r)
  | PList l r => Lst (reads rd l) (reads rd r)
  | PBack c => Back (reads rd c)
  end.

(** The heap has grown. *)
Definition grown (h h' : list node) : Prop := forall p n, h !! p = Some n -> h' !! p = Some n.
Lemma grown_refl h : grown h h.
Proof. by intros p n. Qed.
Lemma heap_grown_trans h1 h2 h3 : grown h1 h2 -> grown h2 h3 -> grown h1 h3.
Proof. intros H1 H2 p n Hp. auto. Qed.
Lemma grown_snoc h n : grown h (h ++ [n]).
Proof. intros p n' Hp. apply lookup_app_l_Some. done. Qed.
Lemma tree_grown h h' p c : grown h h' -> tree h p c -> tree h' p c.
Proof.
  intros Hg. revert p. induction c as [qs|c IH q eq m d|l IHl r IHr|l IHl r IHr|c IH]; intros p; simpl.
  - intros [H1 H2]. split; [by apply Hg|done].
  - intros (p' & H1 & Hp & H2). exists p'. split; [by apply Hg|auto].
  - intros (pl & pr & H1 & Hl & Hr & H2 & H3). exists pl, pr. split; [by apply Hg|auto].
  - intros (pl & pr & H1 & Hl & Hr & H2 & H3). exists pl, pr. split; [by apply Hg|auto].
  - intros (p' & H1 & Hp & H2). exists p'. split; [by apply Hg|auto].
Qed.

Lemma tree_lt h p c : tree h p c -> (p < length h)%nat.
Proof. destruct c; simpl; intros H; apply lookup_lt_is_Some_1; firstorder eauto. Qed.

(** The pointer [p] leads to [e] through redirections. *)
Fixpoint redirs_to (h : list node) (p : nat) (rds : list (Z * Z * Z * Z)) (e : nat) : Prop :=
  match rds with
  | [] => p = e
  | (q, eq, m, d) :: rds' => ∃ p', h !! p = Some (REDIR p' q eq m d) ∧ (p' < p)%nat ∧ redirs_to h p' rds' e
  end.
Fixpoint pwrap (rds : list (Z * Z * Z * Z)) (c : pcmd) : pcmd :=
  match rds with
  | [] => c
  | (q, eq, m, d) :: rds' => PRedir (pwrap rds' c) q eq m d
  end.
Lemma redirs_tree h p rds e c : redirs_to h p rds e -> tree h e c -> tree h p (pwrap rds c).
Proof.
  intros Hr Ht. revert p Hr. induction rds as [|[[[q eq] m] d] rds IH]; intros p Hr; simpl in *; [by subst|].
  destruct Hr as (p' & H1 & Hp & H2). eauto.
Qed.
Lemma redirs_grown h h' p rds e : grown h h' -> redirs_to h p rds e -> redirs_to h' p rds e.
Proof.
  intros Hg. revert p. induction rds as [|[[[q eq] m] d] rds IH]; intros p; simpl; [done|]. intros (p' & H1 & Hp & H2). exists p'. split; [by apply Hg|auto].
Qed.
(** Filling in the command at [e] does not touch the redirections. *)
Lemma redirs_exec h p rds e n av ev :
  h !! e = Some (EXEC av ev) -> redirs_to h p rds e -> redirs_to (<[e := n]> h) p rds e.
Proof.
  intros He. revert p. induction rds as [|[[[q eq] m] d] rds IH]; intros p; simpl; [done|]. intros (p' & H1 & Hp & H2).
  exists p'. split; [|auto]. rewrite list_lookup_insert_ne; [done|]. intros ->. congruence.
Qed.

(** A set of symbols given by its elements. *)
Ltac in_symbols := let c := fresh "c" in intros c; unfold symbols; rewrite !elem_of_cons; tauto.

(** ** The parser follows the reference parser *)
Section sim.
Context (bs : list Z) (es : Z).
Context (Hnz : forall i, 0 <= i < es -> byte_at bs i ≠ 0) (Hz : byte_at bs es = 0).
Abbreviation lexes := (ShLex.lexes bs es).
Abbreviation extent := (ShLex.extent bs es).
Abbreviation word := (ShLex.word_at bs).

(** [m] does what [r] says. *)
Definition sim {A B} (m : M sh A) (st : sh) (r : res B) (R : A -> B -> sh -> Prop) : Prop :=
  match r with
  | Done b ts => ∃ a st', m st = Ok a st' ∧ line st' = bs ∧ lexes (ps st') ts ∧ R a b st'
  | Err => ∃ msg, m st = Panic msg
  | Fuel => m st = NoFuel
  end.

Lemma sim_bind {A A' B B'} (m : M sh A) (k : A -> M sh A') st (r : res B) (f : B -> list token -> res B') R R' :
  sim m st r R ->
  (forall a b ts st', line st' = bs -> lexes (ps st') ts -> R a b st' -> sim (k a) st' (f b ts) R') ->
  sim (m ≫= k) st (rbind r f) R'.
Proof.
  intros Hm Hk. destruct r as [b ts| |]; simpl in *.
  - destruct Hm as (a & st' & Hm & Hl & Ht & HR). specialize (Hk a b ts st' Hl Ht HR). unfold sim in *.
    destruct (f b ts); rewrite (bind_Ok _ _ _ _ _ Hm); exact Hk.
  - destruct Hm as [msg Hm]. exists msg. unfold mbind, M_bind. by rewrite Hm.
  - unfold mbind, M_bind. by rewrite Hm.
Qed.
Lemma sim_done {A B} (a : A) (b : B) ts st (R : A -> B -> sh -> Prop) :
  line st = bs -> lexes (ps st) ts -> R a b st -> sim (mret a) st (Done b ts) R.
Proof. intros H1 H2 H3. by exists a, st. Qed.
Lemma sim_mono {A B} (m : M sh A) st (r : res B) (R R' : A -> B -> sh -> Prop) :
  sim m st r R -> (forall a b st', R a b st' -> R' a b st') -> sim m st r R'.
Proof. intros Hm HR. destruct r as [b ts| |]; [|done|done]. destruct Hm as (a & st' & H1 & H2 & H3 & H4). exists a, st'. auto. Qed.

Lemma sim_map {A B B'} (m : M sh A) st (r : res B) (g : B -> B') (R : A -> B -> sh -> Prop) (R' : A -> B' -> sh -> Prop) :
  sim m st r R -> (forall a b st', R a b st' -> R' a (g b) st') -> sim m st (rbind r (fun b ts => Done (g b) ts)) R'.
Proof. intros Hm HR. destruct r as [b ts| |]; [|done|done]. destruct Hm as (a & st' & H1 & H2 & H3 & H4). exists a, st'. auto. Qed.

(** Steps that do not touch the tokens. *)
Lemma sim_peek {A B} toks (k : bool -> M sh A) st ts (r : res B) R :
  line st = bs -> lexes (ps st) ts -> (forall c, c ∈ toks -> c ∈ symbols) ->
  (forall st', line st' = bs -> lexes (ps st') ts -> heap st' = heap st -> sim (k (head_in toks ts)) st' r R) ->
  sim (b ← peek es toks; k b) st r R.
Proof using Hz.
  intros Hl Ht Hsub Hk. assert (Hp : peek es toks st = Ok (head_in toks ts) (st <| ps := blanks bs (ps st) es |>)).
  { unfold peek. rewrite Hl. by rewrite <- (peek_lexes bs es Hz toks (ps st) ts Ht Hsub). }
  set (st' := st <| ps := blanks bs (ps st) es |>) in *. specialize (Hk st' Hl (lexes_blanks _ _ _ _ Ht) eq_refl).
  unfold sim in *. destruct r; rewrite (bind_Ok _ _ _ _ _ Hp); exact Hk.
Qed.
(** Taking the first token, or meeting the end. *)
Lemma sim_token {A B} (k : Z * Z * Z -> M sh A) st t ts (r : res B) R :
  line st = bs -> lexes (ps st) (t :: ts) ->
  (forall q eq st', line st' = bs -> lexes (ps st') ts -> heap st' = heap st -> text_ok bs es t q eq -> sim (k (code t, q, eq)) st' r R) ->
  sim (x ← gettoken es; k x) st r R.
Proof.
  intros Hl Ht Hk. destruct (token_at bs (ps st) es) as [[[ret q] eq] s'] eqn:E.
  destruct (token_cons _ _ _ _ _ _ _ _ _ Ht E) as (-> & Hx & Hts & _).
  assert (Hg : gettoken es st = Ok (code t, q, eq) (st <| ps := s' |>)) by (unfold gettoken; rewrite Hl, E; done).
  set (st' := st <| ps := s' |>) in *. specialize (Hk q eq st' Hl Hts eq_refl Hx). unfold sim in *. destruct r; rewrite (bind_Ok _ _ _ _ _ Hg); exact Hk.
Qed.
Lemma sim_end {A B} (k : Z * Z * Z -> M sh A) st (r : res B) R :
  line st = bs -> lexes (ps st) [] ->
  (forall q eq st', line st' = bs -> lexes (ps st') [] -> heap st' = heap st -> sim (k (0, q, eq)) st' r R) ->
  sim (x ← gettoken es; k x) st r R.
Proof using Hz.
  intros Hl Ht Hk. destruct (token_at bs (ps st) es) as [[[ret q] eq] s'] eqn:E.
  destruct (token_nil bs es Hz _ _ _ _ _ Ht E) as (-> & Hts).
  assert (Hg : gettoken es st = Ok (0, q, eq) (st <| ps := s' |>)) by (unfold gettoken; rewrite Hl, E; done).
  set (st' := st <| ps := s' |>) in *. specialize (Hk q eq st' Hl Hts eq_refl). unfold sim in *. destruct r; rewrite (bind_Ok _ _ _ _ _ Hg); exact Hk.
Qed.
Lemma sim_malloc {A B} n (k : nat -> M sh A) st (r : res B) R :
  sim (k (length (heap st))) (st <| heap ::= fun h => h ++ [n] |>) r R -> sim (p ← malloc n; k p) st r R.
Proof. intros Hk. unfold sim in *. destruct r; rewrite (bind_Ok (malloc n) _ st _ _ eq_refl); exact Hk. Qed.

(** Positions of redirections and what they stand for. *)
Definition redir_at (r : Z * Z * Z * Z) : redir := let '(q, eq, m, d) := r in (word q eq, m, d).
Definition redir_ok (r : Z * Z * Z * Z) : Prop := let '(q, eq, _, _) := r in extent q eq.
Definition redirs_post (h0 : list node) (e p : nat) (rds : list redir) (st : sh) : Prop :=
  grown h0 (heap st) ∧ (p < length (heap st))%nat ∧ ∃ prds, redirs_to (heap st) p prds e ∧ Forall redir_ok prds ∧ redir_at <$> prds = rds.

Lemma head_lt_gt ts : head_in [60; 62] ts = true -> ∃ t ts', ts = t :: ts' ∧ (t = Sym 60 ∨ t = Sym 62 ∨ t = Append).
Proof.
  destruct ts as [|[w|c|] ts]; try done; simpl; intros H; [|by eauto 7].
  apply strchr_spec in H. rewrite !elem_of_cons, elem_of_nil in H. destruct H as [-> |[-> |[]]]; eauto 7.
Qed.

Lemma sim_redirs k e p rds ts st :
  line st = bs -> lexes (ps st) ts -> redirs_post (heap st) e p rds st ->
  sim (parseredirs k es p) st (r_redirs k rds ts) (redirs_post (heap st) e).
Proof using Hz.
  revert p rds ts st. induction k as [|k IH]; intros p rds ts st Hl Ht Hp; [done|]. cbn [parseredirs r_redirs].
  apply (sim_peek _ _ _ ts); [done|done|in_symbols|]. intros st1 Hl1 Ht1 Hh1.
  destruct (head_in [60; 62] ts) eqn:Eh; cbn [negb].
  2:{ apply sim_done; [done|done|]. unfold redirs_post in *. by rewrite Hh1. }
  destruct (head_lt_gt ts Eh) as (t & ts' & -> & Hc). apply (sim_token _ _ t ts'); [done|done|]. intros q0 eq0 st2 Hl2 Ht2 Hh2 _.
  destruct ts' as [|[w|c|] ts''].
  - apply sim_end; [done|done|]. intros q eq st3 Hl3 Ht3 Hh3. by eexists.
  - apply (sim_token _ _ (Word w) ts''); [done|done|]. intros q eq st3 Hl3 Ht3 Hh3 [Hx Hw]. cbn [code negb].
    set (r := (q, eq, (redir_of t w).1.2, (redir_of t w).2)).
    assert (Hr : sim (parseredirs k es (length (heap st3))) (st3 <| heap ::= fun h => h ++ [REDIR p q eq (redir_of t w).1.2 (redir_of t w).2] |>)
      (r_redirs k (redir_of t w :: rds) ts'') (redirs_post (heap st) e)).
    { eapply sim_mono.
      - apply IH; [done|done|]. destruct Hp as (_ & Hlt & prds & H1 & H2 & H3). split; [apply grown_refl|].
        split; [simpl; rewrite length_app; simpl; lia|]. exists (r :: prds). simpl heap.
        rewrite Hh3, Hh2, Hh1. split; [|split].
        + exists p. split; [rewrite lookup_app_r, Nat.sub_diag by lia; done|]. split; [done|]. eapply redirs_grown, H1. apply grown_snoc.
        + by apply Forall_cons.
        + rewrite fmap_cons, H3. f_equal. unfold r, redir_at. rewrite Hw. destruct t as [|c|]; simpl; [done|by destruct (c =? 60)|done].
      - intros a b st' [Hg Hrest]. split; [|done]. eapply heap_grown_trans, Hg. simpl. rewrite Hh3, Hh2, Hh1. apply grown_snoc. }
    destruct Hc as [-> |[-> | ->]]; apply sim_malloc; exact Hr.
  - apply (sim_token _ _ (Sym c) ts''); [done|done|]. intros q eq st3 Hl3 Ht3 Hh3 Hx. cbn [code].
    assert ((c =? 97) = false) as ->; [|by eexists]. apply Z.eqb_neq. intros ->. simpl in Hx.
    unfold symbols in Hx. rewrite !elem_of_cons, elem_of_nil in Hx. lia.
  - apply (sim_token _ _ Append ts''); [done|done|]. intros q eq st3 Hl3 Ht3 Hh3 Hx. by eexists.
Qed.

(** ** Arguments *)
Definition spots_ok (qs : list (Z * Z)) : Prop := Forall (fun s => extent s.1 s.2) qs.
Definition words (qs : list (Z * Z)) : list (list Z) := (fun s => word s.1 s.2) <$> qs.
Definition args_post (h0 : list node) (e : nat) (ra : nat * Z) (ar : list (list Z) * list redir) (st : sh) : Prop :=
  grown h0 (heap st) ∧ ∃ qs, heap st !! e = Some (exec_node qs) ∧ ra.2 = Z.of_nat (length qs) ∧ ra.2 < MAXARGS ∧
    spots_ok qs ∧ words qs = ar.1 ∧ redirs_post (heap st) e ra.1 ar.2 st.

Lemma insert_fill {A} (xs : list A) n (y z : A) : (0 < n)%nat -> <[length xs := y]> (xs ++ replicate n z) = (xs ++ [y]) ++ replicate (n - 1) z.
Proof. intros Hn. rewrite insert_app_r_alt, Nat.sub_diag by lia. destruct n; [lia|]. simpl. rewrite Nat.sub_0_r, <- app_assoc. done. Qed.
Lemma set_arg_next st e qs q eq :
  heap st !! e = Some (exec_node qs) -> Z.of_nat (length qs) < MAXARGS ->
  set_arg e (Z.of_nat (length qs)) (Some q) (Some eq) st = Ok tt (st <| heap ::= <[e := exec_node (qs ++ [(q, eq)])]> |>).
Proof.
  intros He Hq. unfold set_arg. rewrite He. unfold exec_node at 1.
  assert ((0 <=? Z.of_nat (length qs)) && (Z.of_nat (length qs) <? MAXARGS) = true) as -> by (apply andb_true_intro; split; lia).
  do 2 f_equal. unfold exec_node. rewrite Nat2Z.id, length_app, !fmap_app. simpl length.
  replace (Z.to_nat MAXARGS - (length qs + 1))%nat with (Z.to_nat MAXARGS - length qs - 1)%nat by lia.
  assert (Hf : forall f : Z * Z -> option Z, length (f <$> qs) = length qs) by (intros; apply length_fmap).
  rewrite <- (Hf (Some ∘ fst)) at 1. rewrite insert_fill by (unfold MAXARGS in *; lia).
  rewrite <- (Hf (Some ∘ snd)) at 2. rewrite insert_fill by (unfold MAXARGS in *; lia). done.
Qed.
Lemma set_arg_end st e qs :
  heap st !! e = Some (exec_node qs) -> Z.of_nat (length qs) < MAXARGS ->
  ∃ st', set_arg e (Z.of_nat (length qs)) None None st = Ok tt st' ∧ line st' = line st ∧ ps st' = ps st ∧ heap st' = heap st.
Proof.
  intros He Hq. unfold set_arg. rewrite He. unfold exec_node at 1.
  assert ((0 <=? Z.of_nat (length qs)) && (Z.of_nat (length qs) <? MAXARGS) = true) as -> by (apply andb_true_intro; split; lia).
  eexists. split; [reflexivity|]. split; [done|]. split; [done|]. simpl. rewrite Nat2Z.id. apply list_insert_id. rewrite He. unfold exec_node.
  do 2 f_equal; symmetry; apply list_insert_id; rewrite lookup_app_r by (rewrite length_fmap; lia);
    rewrite length_fmap, Nat.sub_diag; apply lookup_replicate_2; unfold MAXARGS in *; lia.
Qed.

Lemma grown_set h0 h e n : grown h0 h -> h0 !! e = None -> grown h0 (<[e := n]> h).
Proof. intros Hg He p n' Hp. rewrite list_lookup_insert_ne; [by apply Hg|]. intros ->. congruence. Qed.

Lemma sim_args k h0 e ret argc args rds ts st :
  line st = bs -> lexes (ps st) ts -> h0 !! e = None -> args_post h0 e (ret, argc) (args, rds) st ->
  sim (parseargs k es e ret argc) st (r_args k args rds ts) (args_post h0 e).
Proof using Hz.
  revert ret argc args rds ts st. induction k as [|k IH]; intros ret argc args rds ts st Hl Ht He Hp; [done|]. cbn [parseargs r_args].
  apply (sim_peek _ _ _ ts); [done|done|in_symbols|]. intros st1 Hl1 Ht1 Hh1.
  assert (Hp1 : args_post h0 e (ret, argc) (args, rds) st1) by (unfold args_post, redirs_post in *; by rewrite Hh1).
  clear Hp. destruct (head_in [124; 41; 38; 59] ts) eqn:Eh; [by apply sim_done|].
  destruct ts as [|[w|c|] ts].
  - apply sim_end; [done|done|]. intros q eq st2 Hl2 Ht2 Hh2. cbn. apply sim_done; [done|done|].
    unfold args_post, redirs_post in *. by rewrite Hh2.
  - apply (sim_token _ _ (Word w) ts); [done|done|]. intros q eq st2 Hl2 Ht2 Hh2 [Hx Hw]. cbn [code negb].
    change (97 =? 0) with false. change (97 =? 97) with true. cbn [negb].
    destruct Hp1 as (Hg & qs & H1 & H2 & H3 & H4 & H5 & H6 & Hlt6 & prds & H7 & H8 & H9). simpl in H2, H3, H5, H7, H9, Hlt6. rewrite <- Hh2 in *. subst argc.
    pose proof (set_arg_next st2 e qs q eq H1 H3) as Hs. set (st3 := st2 <| heap ::= _ |>) in Hs.
    assert (Hlen : length args = length qs) by (rewrite <- H5; apply length_fmap).
    assert (Hlt : (e < length (heap st2))%nat) by (by apply lookup_lt_Some in H1).
    replace (Z.of_nat (length args)) with (Z.of_nat (length qs)) by congruence.
    unfold sim. destruct (MAXARGS <=? Z.of_nat (length qs) + 1) eqn:Em.
    { exists "too many args"%string. by rewrite (bind_Ok _ _ _ _ _ Hs). }
    assert (Hsim : sim (ret0 ← parseredirs k es ret; parseargs k es e ret0 (Z.of_nat (length qs) + 1)) st3
      (rbind (r_redirs k rds ts) (fun rds => r_args k (args ++ [w]) rds)) (args_post h0 e)).
    { eapply sim_bind; [apply (sim_redirs k e ret rds ts st3)|].
      - done.
      - done.
      - split; [apply grown_refl|]. split; [unfold st3; simpl; by rewrite length_insert|]. exists prds. split; [|done]. unfold st3. simpl. by eapply redirs_exec.
      - intros ret' rds' ts' st4 Hl4 Ht4 [Hg4 Hr4]. apply IH; [done|done|done|]. split; [|exists (qs ++ [(q, eq)]); split_and!].
        + eapply heap_grown_trans, Hg4. unfold st3. simpl. by apply grown_set.
        + apply Hg4. unfold st3. simpl. by rewrite list_lookup_insert_eq.
        + simpl. rewrite length_app. simpl. lia.
        + simpl. lia.
        + apply Forall_app. split; [done|]. by apply Forall_singleton.
        + simpl. unfold words in *. rewrite fmap_app, H5. simpl. by rewrite Hw.
        + split; [apply grown_refl|exact Hr4]. }
    unfold sim in Hsim. destruct (rbind _ _); rewrite (bind_Ok _ _ _ _ _ Hs); exact Hsim.
  - apply (sim_token _ _ (Sym c) ts); [done|done|]. intros q eq st2 Hl2 Ht2 Hh2 Hx. cbn [code]. simpl in Hx.
    assert ((c =? 0) = false ∧ (c =? 97) = false) as [-> ->]; [|by eexists].
    split; apply Z.eqb_neq; intros ->; unfold symbols in Hx; rewrite !elem_of_cons, elem_of_nil in Hx; lia.
  - apply (sim_token _ _ Append ts); [done|done|]. intros q eq st2 Hl2 Ht2 Hh2 Hx. by eexists.
Qed.

(** ** Commands *)
Definition node_post (h0 : list node) (p : nat) (c : cmd) (st : sh) : Prop :=
  grown h0 (heap st) ∧ ∃ pc, tree (heap st) p pc ∧ spots_ok (spots pc) ∧ reads word pc = c.

Lemma head_one c ts : head_in [c] ts = true -> c ≠ 62 -> ∃ ts', ts = Sym c :: ts'.
Proof.
  destruct ts as [|[w|c'|] ts]; try done; simpl; intros H Hc; apply strchr_spec in H; rewrite elem_of_cons, elem_of_nil in H.
  - destruct H as [->|[]]. eauto.
  - destruct H as [<-|[]]. done.
Qed.
Lemma node_same h0 p c st st' : heap st' = heap st -> node_post h0 p c st -> node_post h0 p c st'.
Proof. intros Hh. unfold node_post. by rewrite Hh. Qed.
(** One more node above commands that are on the heap. *)
Lemma node_malloc h0 st n c pc :
  grown h0 (heap st) -> tree (heap st ++ [n]) (length (heap st)) pc -> spots_ok (spots pc) -> reads word pc = c ->
  node_post h0 (length (heap st)) c (st <| heap ::= fun h => h ++ [n] |>).
Proof. intros Hg Ht Hs Hr. split; [eapply heap_grown_trans; [exact Hg|apply grown_snoc]|]. eauto. Qed.

Lemma spots_pwrap prds pc : Forall redir_ok prds -> spots_ok (spots pc) -> spots_ok (spots (pwrap prds pc)).
Proof.
  intros Hp Hs. induction Hp as [|[[[q eq] m] d] prds Hr Hp IH]; simpl; [done|]. apply Forall_app. split; [done|]. by apply Forall_singleton.
Qed.
Lemma reads_pwrap prds pc : reads word (pwrap prds pc) = wrap (redir_at <$> prds) (reads word pc).
Proof. induction prds as [|[[[q eq] m] d] prds IH]; simpl; [done|]. by rewrite IH. Qed.
Lemma node_redirs h0 st e p c rds :
  node_post h0 e c st -> redirs_post (heap st) e p rds st -> node_post h0 p (wrap rds c) st.
Proof.
  intros [Hg (pc & H1 & H2 & H3)] (_ & _ & prds & H4 & H5 & H6). split; [done|]. exists (pwrap prds pc). split; [by eapply redirs_tree|].
  split; [by apply spots_pwrap|]. by rewrite reads_pwrap, H3, H6.
Qed.

Lemma sim_backs k h0 p c ts st :
  line st = bs -> lexes (ps st) ts -> node_post h0 p c st -> sim (parsebacks k es p) st (r_backs k c ts) (node_post h0).
Proof using Hz.
  revert p c ts st. induction k as [|k IH]; intros p c ts st Hl Ht Hp; [done|]. cbn [parsebacks r_backs].
  apply (sim_peek _ _ _ ts); [done|done|in_symbols|]. intros st1 Hl1 Ht1 Hh1. apply (node_same _ _ _ _ _ Hh1) in Hp.
  destruct (head_in [38] ts) eqn:Eh; cbn [negb]; [|by apply sim_done].
  destruct (head_one 38 ts Eh) as [ts' ->]; [done|]. apply (sim_token _ _ (Sym 38) ts'); [done|done|].
  intros q eq st2 Hl2 Ht2 Hh2 _. apply (node_same _ _ _ _ _ Hh2) in Hp. apply sim_malloc, IH; [done|done|].
  destruct Hp as [Hg (pc & H1 & H2 & H3)]. apply (node_malloc _ _ _ _ (PBack pc)); [done| |done|simpl; by rewrite H3].
  exists p. split; [rewrite lookup_app_r, Nat.sub_diag by lia; done|]. split; [by eapply tree_lt|]. eapply tree_grown, H1. apply grown_snoc.
Qed.

(** Joining two commands. *)
Lemma sim_join h0 (mk : nat -> nat -> node) (pj : pcmd -> pcmd -> pcmd) (j : cmd -> cmd -> cmd) c c' p p' ts st :
  (forall h p pl pr l r, h !! p = Some (mk pl pr) -> (pl < p)%nat -> (pr < p)%nat -> tree h pl l -> tree h pr r -> tree h p (pj l r)) ->
  (forall l r, spots (pj l r) = spots l ++ spots r) -> (forall l r, reads word (pj l r) = j (reads word l) (reads word r)) ->
  line st = bs -> lexes (ps st) ts -> (∃ h1, node_post h0 p c (Sh bs 0 h1) ∧ grown h1 (heap st)) -> node_post h0 p' c' st ->
  sim (malloc (mk p p')) st (Done (j c c') ts) (node_post h0).
Proof.
  intros Hmk Hsp Hrd Hl Ht (h1 & [Hg (pc & H1 & H2 & H3)] & Hg1) [Hg' (pc' & H1' & H2' & H3')]. simpl in *.
  eexists _, _. split; [reflexivity|]. split; [done|]. split; [done|]. apply (node_malloc _ _ _ _ (pj pc pc')); [done| | |by rewrite Hrd, H3, H3'].
  - apply (Hmk _ _ p p'); [rewrite lookup_app_r, Nat.sub_diag by lia; done|exact (tree_lt _ _ _ (tree_grown _ _ _ _ Hg1 H1))|by eapply tree_lt| |].
    + eapply tree_grown; [|exact H1]. eapply heap_grown_trans; [exact Hg1|apply grown_snoc].
    + eapply tree_grown; [apply grown_snoc|exact H1'].
  - rewrite Hsp. by apply Forall_app.
Qed.

Definition parser_ok (parse : M sh nat) (r : list token -> res cmd) : Prop :=
  forall ts st, line st = bs -> lexes (ps st) ts -> sim parse st (r ts) (node_post (heap st)).

(** An operand that follows a symbol [c]. *)
Lemma sim_right {A} h0 c (parse : M sh nat) (k : nat -> M sh A) (r : list token -> res cmd) ts (f : cmd -> list token -> res cmd) p cl R st :
  parser_ok parse r -> line st = bs -> lexes (ps st) (Sym c :: ts) -> node_post h0 p cl st ->
  (forall p' c' ts' st', line st' = bs -> lexes (ps st') ts' -> (∃ h1, node_post h0 p cl (Sh bs 0 h1) ∧ grown h1 (heap st')) ->
     node_post h0 p' c' st' -> sim (k p') st' (f c' ts') R) ->
  sim (gettoken es;; p' ← parse; k p') st (rbind (r ts) f) R.
Proof.
  intros Hok Hl Ht Hp Hk. apply (sim_token _ _ (Sym c) ts); [done|done|]. intros q eq st1 Hl1 Ht1 Hh1 _.
  eapply sim_bind; [by apply Hok|]. intros p' c' ts' st' Hl' Ht' [Hg' Hpc]. rewrite Hh1 in Hg'. apply Hk; [done|done| |].
  - exists (heap st). split; [|done]. exact Hp.
  - split; [|done]. eapply heap_grown_trans, Hg'. apply Hp.
Qed.

Lemma parsers_ok k : parser_ok (parseline k es) (r_line k) ∧ parser_ok (parsepipe k es) (r_pipe k) ∧
  parser_ok (parseexec k es) (r_exec k) ∧ parser_ok (parseblock k es) (r_block k).
Proof using Hz.
  induction k as [|k (IHl & IHp & IHe & IHb)]; [by split_and!|]. split_and!; intros ts st Hl Ht.
  - cbn [parseline r_line]. eapply sim_bind; [by apply IHp|]. intros p c ts1 st1 Hl1 Ht1 Hp1.
    eapply sim_bind; [by apply sim_backs|]. clear p c ts1 st1 Hl1 Ht1 Hp1. intros p c ts1 st1 Hl1 Ht1 Hp1.
    apply (sim_peek _ _ _ ts1); [done|done|in_symbols|]. intros st2 Hl2 Ht2 Hh2. apply (node_same _ _ _ _ _ Hh2) in Hp1.
    destruct (head_in [59] ts1) eqn:Eh; [|by apply sim_done]. destruct (head_one 59 ts1 Eh) as [ts' ->]; [done|]. cbn [tail].
    eapply sim_right; [exact IHl|done|exact Ht2|exact Hp1|]. intros p' c' ts2 st3 Hl3 Ht3 Hold Hp3.
    apply (sim_join _ LIST PList Lst); try done. intros h x pl pr l r H1 H2 H3 H4 H5. simpl. eauto 9.
  - cbn [parsepipe r_pipe]. eapply sim_bind; [by apply IHe|]. intros p c ts1 st1 Hl1 Ht1 Hp1.
    apply (sim_peek _ _ _ ts1); [done|done|in_symbols|]. intros st2 Hl2 Ht2 Hh2. apply (node_same _ _ _ _ _ Hh2) in Hp1.
    destruct (head_in [124] ts1) eqn:Eh; [|by apply sim_done]. destruct (head_one 124 ts1 Eh) as [ts' ->]; [done|]. cbn [tail].
    eapply sim_right; [exact IHp|done|exact Ht2|exact Hp1|]. intros p' c' ts2 st3 Hl3 Ht3 Hold Hp3.
    apply (sim_join _ PIPE PPipe Pipe); try done. intros h x pl pr l r H1 H2 H3 H4 H5. simpl. eauto 9.
  - cbn [parseexec r_exec]. apply (sim_peek _ _ _ ts); [done|done|in_symbols|]. intros st1 Hl1 Ht1 Hh1.
    destruct (head_in [40] ts) eqn:Eh; [rewrite <- Hh1; by apply IHb|].
    apply sim_malloc. set (e := length (heap st1)). set (st2 := st1 <| heap ::= _ |>).
    assert (He : heap st !! e = None) by (rewrite <- Hh1; apply lookup_ge_None_2; unfold e; lia).
    assert (Hn : heap st2 !! e = Some (exec_node [])) by (unfold st2; simpl; rewrite lookup_app_r, Nat.sub_diag by (unfold e; lia); done).
    assert (Hg2 : grown (heap st) (heap st2)) by (unfold st2; simpl; rewrite Hh1; apply grown_snoc).
    eapply sim_bind; [apply (sim_redirs k e e [] ts st2); [done|done|]|].
    { split; [apply grown_refl|]. split; [by eapply lookup_lt_Some|]. exists []. split_and!; done. }
    intros ret rds ts1 st3 Hl3 Ht3 [Hg3 Hr3]. eapply sim_bind; [apply (sim_args k (heap st) e ret 0 [] rds ts1 st3); [done|done|done|]|].
    { split; [by eapply heap_grown_trans|]. exists []. split_and!; try done; [by apply Hg3|by apply Forall_nil|]. split; [apply grown_refl|exact Hr3]. }
    intros [ret' argc] [args rds'] ts2 st4 Hl4 Ht4 (Hg4 & qs & H1 & H2 & H3 & H4 & H5 & H6). simpl in *. subst argc.
    destruct (set_arg_end st4 e qs H1 H3) as (st5 & Hs & Hl5 & Hp5 & Hh5). rewrite <- Hl5 in Hl4. rewrite <- Hp5 in Ht4.
    unfold sim. rewrite (bind_Ok _ _ _ _ _ Hs). apply (sim_done ret' (wrap rds' (Exec args)) ts2 st5); [done|done|].
    apply (node_redirs _ _ e); [|unfold redirs_post in *; by rewrite Hh5]. split; [by rewrite Hh5|]. exists (PExec qs).
    split; [rewrite Hh5; split; [done|unfold MAXARGS in *; lia]|]. split; [done|]. simpl. f_equal. exact H5.
  - cbn [parseblock r_block]. apply (sim_peek _ _ _ ts); [done|done|in_symbols|]. intros st1 Hl1 Ht1 Hh1.
    destruct (head_in [40] ts) eqn:Eh; cbn [negb]; [|by eexists]. destruct (head_one 40 ts Eh) as [ts' ->]; [done|]. cbn [tail].
    apply (sim_token _ _ (Sym 40) ts'); [done|done|]. intros q eq st2 Hl2 Ht2 Hh2 _. eapply sim_bind; [by apply IHl|].
    intros p c ts1 st3 Hl3 Ht3 Hp3. rewrite Hh2, Hh1 in Hp3.
    apply (sim_peek _ _ _ ts1); [done|done|in_symbols|]. intros st4 Hl4 Ht4 Hh4. apply (node_same _ _ _ _ _ Hh4) in Hp3.
    destruct (head_in [41] ts1) eqn:Eh'; cbn [negb]; [|by eexists]. destruct (head_one 41 ts1 Eh') as [ts2 ->]; [done|]. cbn [tail].
    apply (sim_token _ _ (Sym 41) ts2); [done|done|]. intros q' eq' st5 Hl5 Ht5 Hh5 _. apply (node_same _ _ _ _ _ Hh5) in Hp3.
    eapply sim_map; [apply (sim_redirs k p p [] ts2 st5); [done|done|]|].
    { split; [apply grown_refl|]. split; [destruct Hp3 as [_ (pc & H1 & _)]; by eapply tree_lt|]. exists []. split_and!; done. }
    intros p' rds st6 [Hg6 Hr6]. destruct Hp3 as [Hg (pc & H1 & H2 & H3)]. apply (node_redirs _ _ p); [|split; [apply grown_refl|exact Hr6]].
    split; [by eapply heap_grown_trans|]. exists pc. split; [by eapply tree_grown|done].
Qed.
End sim.
