(* ===== verification/ShProps.v ===== *)
(** * ShProps: the parser of the shell ends on every line, and parses what is printed *)

From S2P Require Import Prelude Bytes Sh ShLex ShParse.

(** ** The reference parser ends *)
Definition fits {A} (r : res A) (n : nat) : Prop :=
  match r with Done _ ts => (length ts <= n)%nat | Err => True | Fuel => False end.
Lemma fits_bind {A B} (r : res A) (f : A -> list token -> res B) n m :
  fits r n -> (forall a ts, (length ts <= n)%nat -> fits (f a ts) m) -> fits (rbind r f) m.
Proof. destruct r; simpl; auto. Qed.
Lemma fits_done {A} (a : A) ts n : (length ts <= n)%nat -> fits (Done a ts) n.
Proof. done. Qed.
Lemma head_tail toks ts : head_in toks ts = true -> (S (length (tail ts)) = length ts)%nat.
Proof. by destruct ts. Qed.

Lemma r_redirs_fits k rds ts n : (length ts < k)%nat -> (length ts <= n)%nat -> fits (r_redirs k rds ts) n.
Proof.
  revert rds ts. induction k as [|k IH]; intros rds ts Hk Hn; [lia|]. cbn [r_redirs].
  destruct (head_in _ ts); [|done]. destruct ts as [|t [|[w|c|] ts]]; try done. apply IH; simpl in *; lia.
Qed.
Lemma r_args_fits k args rds ts n : (length ts < k)%nat -> (length ts <= n)%nat -> fits (r_args k args rds ts) n.
Proof.
  revert args rds ts. induction k as [|k IH]; intros args rds ts Hk Hn; [lia|]. cbn [r_args].
  destruct (head_in _ ts); [done|]. destruct ts as [|[w|c|] ts]; try done. destruct (_ <=? _); [done|]. simpl in *.
  eapply fits_bind; [apply (r_redirs_fits k rds ts (length ts)); lia|]. intros rds' ts' Hl. apply IH; lia.
Qed.
Lemma r_backs_fits k c ts n : (length ts < k)%nat -> (length ts <= n)%nat -> fits (r_backs k c ts) n.
Proof.
  revert c ts. induction k as [|k IH]; intros c ts Hk Hn; [lia|]. cbn [r_backs].
  destruct (head_in _ ts) eqn:E; [|done]. apply head_tail in E. apply IH; lia.
Qed.

Lemma parsers_fit k : forall ts n, (length ts <= n)%nat ->
  ((4 * length ts + 4 <= k)%nat -> fits (r_line k ts) n) ∧ ((4 * length ts + 3 <= k)%nat -> fits (r_pipe k ts) n) ∧
  ((4 * length ts + 2 <= k)%nat -> fits (r_exec k ts) n) ∧ ((4 * length ts + 1 <= k)%nat -> fits (r_block k ts) n).
Proof.
  induction k as [|k IH]; intros ts n Hn; [split_and!; lia|]. split_and!; intros Hk.
  - cbn [r_line]. eapply fits_bind; [apply (IH ts (length ts)); lia|]. intros c ts1 H1.
    eapply fits_bind; [apply (r_backs_fits k c ts1 (length ts)); lia|]. clear c ts1 H1. intros c ts1 H1.
    destruct (head_in _ ts1) eqn:E; [|apply fits_done; lia]. apply head_tail in E.
    eapply fits_bind; [apply (IH (tail ts1) n); lia|]. intros c' ts2 H2. done.
  - cbn [r_pipe]. eapply fits_bind; [apply (IH ts (length ts)); lia|]. intros c ts1 H1.
    destruct (head_in _ ts1) eqn:E; [|apply fits_done; lia]. apply head_tail in E.
    eapply fits_bind; [apply (IH (tail ts1) n); lia|]. intros c' ts2 H2. done.
  - cbn [r_exec]. destruct (head_in [40] ts); [apply (IH ts n); lia|].
    eapply fits_bind; [apply (r_redirs_fits k [] ts (length ts)); lia|]. intros rds ts1 H1.
    eapply fits_bind; [apply (r_args_fits k [] rds ts1 n); lia|]. intros [a r] ts2 H2. done.
  - cbn [r_block]. destruct (head_in [40] ts) eqn:E; [|done]. apply head_tail in E.
    eapply fits_bind; [apply (IH (tail ts) (length ts)); lia|]. intros c ts1 H1. destruct (head_in [41] ts1) eqn:E1; [|done]. apply head_tail in E1.
    eapply fits_bind; [apply (r_redirs_fits k [] (tail ts1) n); lia|]. intros rds ts2 H2. done.
Qed.

(** ** The strings after [nulterminate] *)
Definition nul_at (l : list Z) (e : Z) : list Z := put_byte l e 0.
Definition nuls (qs : list (Z * Z)) (l : list Z) : list Z := foldl nul_at l (snd <$> qs).

Lemma nuls_app qs qs' l : nuls (qs ++ qs') l = nuls qs' (nuls qs l).
Proof. unfold nuls. by rewrite fmap_app, foldl_app. Qed.
Lemma length_nuls qs l : length (nuls qs l) = length l.
Proof. revert l. induction qs as [|[q e] qs IH]; intros l; [done|]. unfold nuls in *. simpl. rewrite IH. apply length_put_byte. Qed.

Definition ends_in_line (qs : list (Z * Z)) (l : list Z) : Prop := Forall (fun qe => 0 <= qe.2 < Z.of_nat (length l)) qs.

Lemma ends_same qs l l' : length l' = length l -> ends_in_line qs l -> ends_in_line qs l'.
Proof. unfold ends_in_line. by intros ->. Qed.

Lemma end_at_ok e st : 0 <= e < Z.of_nat (length (line st)) -> end_at (Some e) st = Ok tt (st <| line := nul_at (line st) e |>).
Proof. intros He. unfold end_at. by assert ((0 <=? e) && (e <? Z.of_nat (length (line st))) = true) as -> by (apply andb_true_intro; split; lia). Qed.
Lemma nul_args_ok qs n st : (0 < n)%nat -> ends_in_line qs (line st) ->
  nul_args ((Some ∘ fst <$> qs) ++ replicate n None) ((Some ∘ snd <$> qs) ++ replicate n None) st = Ok tt (st <| line := nuls qs (line st) |>).
Proof.
  intros Hn. revert st. induction qs as [|[q e] qs IH]; intros st Hq; simpl.
  - destruct n; [lia|]. simpl. by destruct st.
  - apply Forall_cons in Hq as [He Hq]. simpl in He. rewrite (bind_Ok _ _ _ _ _ (end_at_ok e st He)). rewrite IH; [done|].
    eapply ends_same, Hq. apply length_put_byte.
Qed.

Lemma nulterminate_ok k p c st :
  tree (heap st) p c -> (p < k)%nat -> ends_in_line (spots c) (line st) ->
  nulterminate k p st = Ok tt (st <| line := nuls (spots c) (line st) |>).
Proof.
  revert p c st. induction k as [|k IH]; intros p c st Ht Hk He; [lia|]. cbn [nulterminate]. rewrite (bind_Ok (gets heap) _ st _ st eq_refl).
  destruct c as [qs|c q eq m d|l r|l r|c]; simpl in Ht.
  - destruct Ht as [-> Hl]. apply nul_args_ok; [lia|done].
  - destruct Ht as (p' & -> & Hp & Ht). apply Forall_app in He as [He1 He2]. rewrite Forall_singleton in He2. simpl in He2.
    rewrite (bind_Ok _ _ _ _ _ (IH p' c st Ht ltac:(lia) He1)). rewrite end_at_ok; [simpl spots; by rewrite nuls_app|].
    assert (Hn : length (nuls (spots c) (line st)) = length (line st)) by apply length_nuls. rewrite <- Hn in He2. exact He2.
  - destruct Ht as (pl & pr & -> & Hl & Hr & H1 & H2). apply Forall_app in He as [He1 He2].
    rewrite (bind_Ok _ _ _ _ _ (IH pl l st H1 ltac:(lia) He1)). rewrite (IH pr r); [simpl spots; by rewrite nuls_app|exact H2|lia|].
    eapply ends_same, He2. apply length_nuls.
  - destruct Ht as (pl & pr & -> & Hl & Hr & H1 & H2). apply Forall_app in He as [He1 He2].
    rewrite (bind_Ok _ _ _ _ _ (IH pl l st H1 ltac:(lia) He1)). rewrite (IH pr r); [simpl spots; by rewrite nuls_app|exact H2|lia|].
    eapply ends_same, He2. apply length_nuls.
  - destruct Ht as (p' & -> & Hp & Ht). apply (IH p' c); [exact Ht|lia|exact He].
Qed.

Lemma string_at_step l q : 0 <= q < Z.of_nat (length l) ->
  string_at l q = if byte_at l q =? 0 then [] else byte_at l q :: string_at l (q + 1).
Proof.
  intros Hq. unfold string_at, byte_at. assert ((0 <=? q) = true) as -> by lia.
  destruct (lookup_lt_is_Some_2 l (Z.to_nat q)) as [c Hc]; [lia|]. rewrite Hc, (drop_S _ _ _ Hc). simpl.
  by replace (Z.to_nat (q + 1)) with (S (Z.to_nat q)) by lia.
Qed.
Lemma string_at_word bs l q eq :
  0 <= q <= eq -> eq < Z.of_nat (length l) -> byte_at l eq = 0 ->
  (forall i, q <= i < eq -> byte_at l i = byte_at bs i ∧ byte_at bs i ≠ 0) -> string_at l q = word_at bs q eq.
Proof.
  intros Hq Hl Hz Hw. unfold word_at. remember (Z.to_nat (eq - q)) as n eqn:Hn. revert q Hq Hw Hn.
  induction n as [|n IH]; intros q Hq Hw Hn; rewrite string_at_step by lia.
  - assert (q = eq) as -> by lia. rewrite Hz, seqZ_nil by lia. done.
  - destruct (Hw q ltac:(lia)) as [-> Hne]. rewrite (proj2 (Z.eqb_neq _ _) Hne), seqZ_cons by lia. simpl. f_equal.
    rewrite (IH (q + 1)); [|lia|intros; apply Hw; lia|lia]. do 2 f_equal; lia.
Qed.
Lemma byte_nuls qs l i :
  (i ∉ (snd <$> qs) -> byte_at (nuls qs l) i = byte_at l i) ∧
  (i ∈ (snd <$> qs) ∨ byte_at l i = 0 -> 0 <= i < Z.of_nat (length l) -> byte_at (nuls qs l) i = 0).
Proof.
  unfold nuls. revert l. induction qs as [|[q e] qs IH]; intros l; simpl.
  - split; [done|]. intros [[]%elem_of_nil|]; done.
  - destruct (IH (nul_at l e)) as [IH1 IH2]. split.
    + intros [Hi Hq]%not_elem_of_cons. etrans; [exact (IH1 Hq)|]. apply byte_put_ne. congruence.
    + rewrite elem_of_cons. intros Hi Hl. unfold nul_at in *. apply IH2; [|by rewrite length_put_byte].
      destruct (decide (i = e)) as [->|]; [right; by rewrite byte_put_eq|]. rewrite byte_put_ne by congruence. tauto.
Qed.

(** Ending the words of a line does not cut a word short. *)
Lemma nuls_word bs es qs q eq :
  es < Z.of_nat (length bs) -> Forall (fun s => extent bs es s.1 s.2) qs -> (q, eq) ∈ qs -> string_at (nuls qs bs) q = word_at bs q eq.
Proof.
  intros Hes Hqs Hin. pose proof (proj1 (Forall_forall _ _) Hqs _ Hin) as (H1 & H2 & H3 & H4). simpl in *.
  apply string_at_word; [lia|rewrite length_nuls; lia| |].
  - apply byte_nuls; [left|lia]. by apply (list_elem_of_fmap_2 snd _ (q, eq)).
  - intros i Hi. specialize (H3 i Hi). split; [|intros E; by rewrite E in H3]. apply byte_nuls. intros (s & -> & Hs)%list_elem_of_fmap_1.
    pose proof (proj1 (Forall_forall _ _) Hqs _ Hs) as (_ & _ & _ & H5). congruence.
Qed.

(** The command at a pointer, as [runcmd] reads it. *)
Fixpoint args_of (argv : list (option Z)) : list Z :=
  match argv with Some q :: argv' => q :: args_of argv' | _ => [] end.
Fixpoint command (k : nat) (h : list node) (l : list Z) (p : nat) : option cmd :=
  match k with
  | O => None
  | S k' =>
      match h !! p with
      | Some (EXEC argv _) => Some (Exec (string_at l <$> args_of argv))
      | Some (REDIR c q _ m d) => (fun c => Redir c (string_at l q) m d) <$> command k' h l c
      | Some (PIPE a b) => c ← command k' h l a; c' ← command k' h l b; Some (Pipe c c')
      | Some (LIST a b) => c ← command k' h l a; c' ← command k' h l b; Some (Lst c c')
      | Some (BACK c) => Back <$> command k' h l c
      | None => None
      end
  end.
Definition command_at (st : sh) (p : nat) : option cmd := command (S p) (heap st) (line st) p.

Lemma args_of_exec (qs : list (Z * Z)) n : args_of ((Some ∘ fst <$> qs) ++ replicate n None) = fst <$> qs.
Proof. induction qs as [|[q e] qs IH]; simpl; [by destruct n|]. f_equal. exact IH. Qed.
Lemma command_tree k h l p c : tree h p c -> (p < k)%nat -> command k h l p = Some (reads (fun q _ => string_at l q) c).
Proof.
  revert p c. induction k as [|k IH]; intros p c Ht Hk; [lia|]. cbn [command]. destruct c as [qs|c q eq m d|a b|a b|c]; simpl in Ht.
  - destruct Ht as [-> _]. unfold exec_node. by rewrite args_of_exec, <- list_fmap_compose.
  - destruct Ht as (p' & -> & Hp & Ht). by rewrite (IH p' c Ht) by lia.
  - destruct Ht as (pl & pr & -> & Hl & Hr & H1 & H2). by rewrite (IH pl a H1), (IH pr b H2) by lia.
  - destruct Ht as (pl & pr & -> & Hl & Hr & H1 & H2). by rewrite (IH pl a H1), (IH pr b H2) by lia.
  - destruct Ht as (p' & -> & Hp & Ht). by rewrite (IH p' c Ht) by lia.
Qed.
Lemma reads_ext rd rd' c : (forall q eq, (q, eq) ∈ spots c -> rd q eq = rd' q eq) -> reads rd c = reads rd' c.
Proof.
  induction c as [qs|c IH q eq m d|a IHa b IHb|a IHa b IHb|c IH]; simpl; intros H.
  - f_equal. apply list_fmap_ext. intros i [q eq] Hi. apply H. by eapply list_elem_of_lookup_2.
  - rewrite IH, H; [done| |]; intros; [set_solver|]. apply H. set_solver.
  - rewrite IHa, IHb; [done| |]; intros; apply H; set_solver.
  - rewrite IHa, IHb; [done| |]; intros; apply H; set_solver.
  - by rewrite IH.
Qed.

(** ** [parsecmd] *)
Lemma strlen_line_spec bs : let es := strlen_line bs in
  0 <= es <= Z.of_nat (length bs) ∧ (forall i, 0 <= i < es -> byte_at bs i ≠ 0) ∧ byte_at bs es = 0.
Proof.
  induction bs as [|c bs (IH1 & IH2 & IH3)]; simpl; [split_and!; [lia|lia|lia|done]|]. cbv zeta in *.
  assert (Hs : forall i, 0 <= i -> byte_at (c :: bs) (1 + i) = byte_at bs i).
  { intros i Hi. unfold byte_at. assert ((0 <=? 1 + i) = true ∧ (0 <=? i) = true) as [-> ->] by lia. by replace (Z.to_nat (1 + i)) with (S (Z.to_nat i)) by lia. }
  destruct (Z.eqb_spec c 0) as [->|Hc]; [split_and!; [lia|lia|lia|done]|]. split; [lia|]. split; [|rewrite Hs by lia; done].
  intros i Hi. destruct (decide (i = 0)) as [->|]; [done|]. replace i with (1 + (i - 1)) by lia. rewrite Hs by lia. apply IH2. lia.
Qed.

(** The line is a string: it has its NUL byte. *)
Definition terminated (bs : list Z) : Prop := strlen_line bs < Z.of_nat (length bs).
Definition parse_fuel (bs : list Z) : nat := (Z.to_nat (4 * strlen_line bs) + 4)%nat.

(** What [parsecmd] does, by the reference parser. *)
Definition parsed (bs : list Z) (r : res cmd) : Prop :=
  match r with
  | Done c [] => ∃ p st', parsecmd (Sh bs 0 []) = Ok p st' ∧ command_at st' p = Some c
  | Done _ _ | Err => ∃ msg, parsecmd (Sh bs 0 []) = Panic msg
  | Fuel => parsecmd (Sh bs 0 []) = NoFuel
  end.

Lemma finish_ok bs es p c st :
  es < Z.of_nat (length bs) -> line st = bs -> node_post bs es [] p c st ->
  ∃ st', (nulterminate (S (length (heap st))) p;; mret p) st = Ok p st' ∧ command_at st' p = Some c.
Proof.
  intros Hes Hl [_ (pc & Ht & Hs & Hr)]. pose proof (tree_lt _ _ _ Ht) as Hlt.
  assert (He : ends_in_line (spots pc) (line st)).
  { eapply Forall_impl; [exact Hs|]. intros [q e] (H1 & H2 & _). simpl in *. rewrite Hl. lia. }
  eexists. split; [by rewrite (bind_Ok _ _ _ _ _ (nulterminate_ok (S (length (heap st))) p pc st Ht ltac:(lia) He))|].
  unfold command_at. rewrite (command_tree _ _ _ _ pc Ht) by lia. f_equal. rewrite <- Hr. apply reads_ext. intros q e Hin.
  simpl line. rewrite Hl. by eapply nuls_word.
Qed.

Lemma parsecmd_parsed bs ts :
  terminated bs -> lexes bs (strlen_line bs) 0 ts -> parsed bs (r_line (parse_fuel bs) ts).
Proof.
  intros Hterm Hts. destruct (strlen_line_spec bs) as (Hes & Hnz & Hz). set (es := strlen_line bs) in *.
  pose proof (proj1 (parsers_ok bs es Hz (parse_fuel bs)) ts (Sh bs 0 []) eq_refl Hts) as Hsim. unfold sim in Hsim.
  assert (Hstep : parsecmd (Sh bs 0 []) = (cmd ← parseline (parse_fuel bs) es; peek es [];; s ← gets ps;
    if negb (s =? es) then l ← gets line; panic (leftovers l s) else h ← gets heap; nulterminate (S (length h)) cmd;; mret cmd) (Sh bs 0 [])) by done.
  unfold parsed. rewrite Hstep. destruct (r_line _ ts) as [c ts'| |] eqn:Er.
  - destruct Hsim as (p & st & Hp & Hl & Ht & Hn). rewrite (bind_Ok _ _ _ _ _ Hp).
    set (st1 := st <| ps := blanks bs (ps st) es |>).
    assert (Hpk : peek es [] st = Ok false st1) by (unfold peek; rewrite Hl; by rewrite andb_false_r).
    rewrite (bind_Ok _ _ _ _ _ Hpk), (bind_Ok (gets ps) _ st1 _ st1 eq_refl). change (ps st1) with (blanks bs (ps st) es).
    destruct ts' as [|t ts'].
    + assert (blanks bs (ps st) es = es) as -> by (by inversion Ht). rewrite Z.eqb_refl. cbn [negb].
      rewrite (bind_Ok (gets heap) _ st1 _ st1 eq_refl). destruct (finish_ok bs es p c st1 Hterm Hl Hn) as (st' & H1 & H2). eauto.
    + assert ((blanks bs (ps st) es =? es) = false) as ->; [|by eexists].
      apply Z.eqb_neq. inversion Ht as [|s0 t0 ts0 q eq s' Hs Htok Hne]; subst. apply token_at_q in Htok as ->. intros E. rewrite E in Hne. done.
  - destruct Hsim as [msg Hm]. exists msg. unfold mbind at 1, M_bind at 1. by rewrite Hm.
  - unfold mbind at 1, M_bind at 1. by rewrite Hsim.
Qed.

(** C37: On every NUL-terminated line [parsecmd] returns: either with a command whose
    nodes and strings can all be read, or with a message of the shell (a syntax
    error, too many arguments or a missing file name).  It never loops, follows a bad
    pointer or writes outside the line and the argument arrays. *)
Theorem parsecmd_total (bs : list Z) :
  terminated bs ->
  (∃ p st' c, parsecmd (Sh bs 0 []) = Ok p st' ∧ command_at st' p = Some c) ∨
  (∃ msg, parsecmd (Sh bs 0 []) = Panic msg).
Proof.
  intros Hterm. destruct (strlen_line_spec bs) as (Hes & Hnz & Hz).
  destruct (lexes_total bs (strlen_line bs) Hnz Hz 0) as (ts & Hts & Hlen); [lia|].
  pose proof (parsecmd_parsed bs ts Hterm Hts) as Hp.
  pose proof (proj1 (parsers_fit (parse_fuel bs) ts (length ts) ltac:(lia)) ltac:(unfold parse_fuel; lia)) as Hf.
  destruct (r_line _ ts) as [c [|t ts']| |]; simpl in Hp; [left|by right|by right|done].
  destruct Hp as (p & st' & H1 & H2). eauto.
Qed.
Lemma parsecmd_total_witness :
  (∃ p st' c, parsecmd (Sh [97; 62; 98; 0] 0 []) = Ok p st' ∧ command_at st' p = Some c) ∨
  (∃ msg, parsecmd (Sh [97; 62; 98; 0] 0 []) = Panic msg).
Proof. apply (parsecmd_total [97; 62; 98; 0]). vm_compute. reflexivity. Defined.
