(* ===== verification/ShPrint.v ===== *)
(** * ShPrint: printing commands

    A printer for commands, with parentheses where the grammar of the shell needs
    them, and the theorem that [parsecmd] of sh.c reads back what is printed. *)

From S2P Require Import Prelude Bytes Sh ShLex ShParse ShProps.

(** ** The printer *)
Definition paren (b : bool) (ts : list token) : list token := if b then Sym 40 :: ts ++ [Sym 41] else ts.
Definition redir_token (mode : Z) : token :=
  if mode =? O_RDONLY then Sym 60 else if mode =? Z.lor O_WRONLY O_CREATE then Append else Sym 62.
(** Where a command may stand: 0 in a pipe, 1 before an ampersand, 2 before a
    semicolon, 3 on a line. *)
Fixpoint print (lvl : nat) (c : cmd) : list token :=
  match c with
  | Exec args => Word <$> args
  | Redir c w m _ => print 0 c ++ [redir_token m; Word w]
  | Pipe l r => paren (Nat.ltb lvl 1) (print 0 l ++ Sym 124 :: print 1 r)
  | Back c => paren (Nat.ltb lvl 2) (print 2 c ++ [Sym 38])
  | Lst l r => paren (Nat.ltb lvl 3) (print 2 l ++ Sym 59 :: print 3 r)
  end.
Definition text (t : token) : list Z := match t with Word w => w | Sym c => [c] | Append => [62; 62] end.
Definition render (ts : list token) : list Z := concat ((fun t => text t ++ [32]) <$> ts).

(** Commands that can be written down. *)
Definition good_word (w : list Z) : bool := negb (Nat.eqb (length w) 0) && forallb wordc w.
Definition good_redir (m d : Z) : bool :=
  ((m =? O_RDONLY) && (d =? 0)) || ((m =? Z.lor O_WRONLY O_CREATE) && (d =? 1)) ||
  ((m =? Z.lor (Z.lor O_WRONLY O_CREATE) O_TRUNC) && (d =? 1)).
Fixpoint good (c : cmd) : bool :=
  match c with
  | Exec args => Nat.ltb (length args) (Z.to_nat MAXARGS) && forallb good_word args
  | Redir c w m d => good c && good_word w && good_redir m d
  | Pipe l r | Lst l r => good l && good r
  | Back c => good c
  end.

Definition rtoks (rds : list redir) : list token := concat ((fun r => [redir_token r.1.2; Word r.1.1]) <$> rds).
Definition redir_fine (r : redir) : Prop := redir_of (redir_token r.1.2) r.1.1 = r.
Definition no_redir (ts : list token) : Prop := head_in [60; 62] ts = false.

Lemma redir_token_head m ts : head_in [60; 62] (redir_token m :: ts) = true.
Proof. unfold redir_token. by repeat case_match. Qed.
Lemma redir_token_ok w m d : good_redir m d = true -> redir_fine (w, m, d).
Proof.
  unfold good_redir, redir_fine. intros H. apply orb_true_iff in H as [[H|H]%orb_true_iff|H]; apply andb_true_iff in H as [->%Z.eqb_eq ->%Z.eqb_eq]; done.
Qed.

Lemma r_redirs_print k rds0 rds ts :
  (length rds < k)%nat -> no_redir ts -> Forall redir_fine rds -> r_redirs k rds0 (rtoks rds ++ ts) = Done (rev rds ++ rds0) ts.
Proof.
  intros Hk Ht Hr. revert k rds0 Hk. induction Hr as [|[[w m] d] rds Hr _ IH]; intros k rds0 Hk; (destruct k as [|k]; [simpl in Hk; lia|]); cbn [r_redirs].
  - simpl. by rewrite Ht.
  - change (rtoks ((w, m, d) :: rds) ++ ts) with (redir_token m :: Word w :: (rtoks rds ++ ts)). rewrite redir_token_head.
    rewrite IH by (simpl in Hk; lia). red in Hr. simpl in Hr. rewrite Hr. simpl. by rewrite <- app_assoc.
Qed.

(** What may follow a simple command. *)
Definition stops (ts : list token) : bool := match ts with [] => true | _ => head_in [124; 41; 38; 59] ts end.
Lemma stops_no_redir ts : stops ts = true -> no_redir ts ∧ head_in [40] ts = false.
Proof.
  destruct ts as [|[w|c|] ts]; try done. simpl. intros H%strchr_spec. rewrite !elem_of_cons, elem_of_nil in H. unfold no_redir. simpl.
  destruct H as [-> |[-> |[-> |[-> |[]]]]]; done.
Qed.

Lemma r_args_stop k args rds ts : (0 < k)%nat -> stops ts = true -> r_args k args rds ts = Done (args, rds) ts.
Proof. intros Hk Hs. destruct k; [lia|]. cbn [r_args]. destruct ts as [|t ts]; [done|]. by rewrite (Hs : head_in _ (t :: ts) = true). Qed.
Lemma r_args_print k args0 rds0 args rds ts :
  (length args + length rds + 1 < k)%nat -> (args = [] -> rds = []) -> stops ts = true -> Forall redir_fine rds ->
  Z.of_nat (length args0 + length args) < MAXARGS ->
  r_args k args0 rds0 ((Word <$> args) ++ rtoks rds ++ ts) = Done (args0 ++ args, rev rds ++ rds0) ts.
Proof.
  intros Hk Hnil Hs Hr. revert k args0 Hk Hnil. induction args as [|w args IH]; intros k args0 Hk Hnil Hl.
  - rewrite Hnil by done. rewrite app_nil_r. apply r_args_stop; [simpl in Hk; lia|done].
  - destruct k as [|k]; [simpl in Hk; lia|]. simpl in Hk, Hl. cbn [r_args fmap list_fmap app head_in].
    assert ((MAXARGS <=? Z.of_nat (length args0) + 1) = false) as -> by lia. pose proof (proj1 (stops_no_redir ts Hs)) as Hn.
    destruct args as [|w' args].
    + simpl app. rewrite r_redirs_print by (done || simpl in Hk; lia). cbn [rbind]. apply r_args_stop; [lia|done].
    + destruct k as [|k]; [lia|]. set (k1 := S k) in *.
      assert (r_redirs k1 rds0 ((Word <$> w' :: args) ++ rtoks rds ++ ts) = Done rds0 ((Word <$> w' :: args) ++ rtoks rds ++ ts)) as -> by done.
      cbn [rbind]. rewrite IH; [by rewrite <- app_assoc|simpl in Hk |- *; lia|done|rewrite length_app; simpl in Hl |- *; lia].
Qed.

(** ** The reference parser reads back what is printed *)
Fixpoint backs (n : nat) (c : cmd) : cmd := match n with O => c | S n' => backs n' (Back c) end.
Definition amps (n : nat) : list token := replicate n (Sym 38).
Definition not_in (toks : list Z) (ts : list token) : Prop := stops ts = true ∧ head_in toks ts = false.

Definition in_exec (c : cmd) : Prop := forall k rds ts,
  stops ts = true -> Forall redir_fine rds -> let us := print 0 c ++ rtoks rds ++ ts in
  (4 * length us + 2 <= k)%nat -> r_exec k us = Done (wrap (rev rds) c) ts.
Definition in_pipe (c : cmd) : Prop := forall k ts,
  not_in [124] ts -> let us := print 1 c ++ ts in (4 * length us + 3 <= k)%nat -> r_pipe k us = Done c ts.
Definition in_list (c : cmd) : Prop := forall k n ts,
  not_in [124; 38] ts -> let us := print 2 c ++ amps n ++ ts in (4 * length us + 3 <= k)%nat ->
  rbind (r_pipe k us) (r_backs k) = Done (backs n c) ts.
Definition in_line (c : cmd) : Prop := forall k ts,
  not_in [124; 38; 59] ts -> let us := print 3 c ++ ts in (4 * length us + 4 <= k)%nat -> r_line k us = Done c ts.

Ltac sub_toks := let c := fresh in intros c; rewrite ?elem_of_cons, ?elem_of_nil; tauto.
Ltac lens := repeat (rewrite length_app in * || cbn [length app] in * ); lia.

Lemma length_rtoks rds : length (rtoks rds) = (2 * length rds)%nat.
Proof. induction rds as [|r rds IH]; [done|]. change (rtoks (r :: rds)) with (redir_token r.1.2 :: Word r.1.1 :: rtoks rds). cbn [length]. rewrite IH. lia. Qed.
Lemma r_backs_print k c n ts : head_in [38] ts = false -> (n < k)%nat -> r_backs k c (amps n ++ ts) = Done (backs n c) ts.
Proof.
  intros Ht. revert k c. induction n as [|n IH]; intros k c Hk; (destruct k as [|k]; [lia|]); cbn [r_backs].
  - simpl. by rewrite Ht.
  - assert (head_in [38] (amps (S n) ++ ts) = true) as -> by done. apply IH. lia.
Qed.
Lemma head_sub toks toks' ts : (forall c, c ∈ toks' -> c ∈ toks) -> head_in toks ts = false -> head_in toks' ts = false.
Proof.
  intros Hs. destruct ts as [|[w|c|] ts]; [done|done| |]; simpl; intros H; apply not_true_iff_false; intros E%strchr_spec%Hs%strchr_spec; congruence.
Qed.
Lemma stops_amps n ts : stops ts = true -> head_in [124] ts = false -> not_in [124] (amps n ++ ts).
Proof. intros H1 H2. by destruct n. Qed.

Lemma exec_in_exec args : Z.of_nat (length args) < MAXARGS -> in_exec (Exec args).
Proof.
  intros Hl k rds ts Hs Hr us Hk. subst us. destruct (stops_no_redir ts Hs) as [Hn H40]. destruct k as [|k]; [lia|]. cbn [r_exec print] in *.
  rewrite !length_app, length_rtoks, length_fmap in Hk. destruct args as [|w args].
  - simpl app. assert (head_in [40] (rtoks rds ++ ts) = false) as ->.
    { destruct rds as [|[[w m] d] rds]; [exact H40|]. change (head_in [40] [redir_token m] = false). unfold redir_token. by repeat case_match. }
    simpl in Hk. rewrite r_redirs_print by (done || lia). cbn [rbind]. rewrite r_args_stop by (done || lia). simpl. by rewrite app_nil_r.
  - set (us := (Word <$> w :: args) ++ rtoks rds ++ ts). assert (head_in [40] us = false) as -> by done.
    assert (r_redirs k [] us = Done [] us) as -> by (destruct k; [lia|done]). cbn [rbind].
    unfold us. rewrite r_args_print by (done || simpl in *; lia). simpl. by rewrite app_nil_r.
Qed.
Lemma redir_in_exec c w m d : redir_fine (w, m, d) -> in_exec c -> in_exec (Redir c w m d).
Proof.
  intros Hf Hc k rds ts Hs Hr us Hk. subst us. cbn [print] in *. rewrite <- app_assoc in *.
  change ([redir_token m; Word w] ++ rtoks rds ++ ts) with (rtoks ((w, m, d) :: rds) ++ ts) in *.
  rewrite Hc; [|done|by apply Forall_cons|done]. f_equal. simpl rev.
  clear. induction (rev rds) as [|[[w' m'] d'] l IH]; simpl; [done|]. by rewrite IH.
Qed.
(** A command in parentheses. *)
Lemma paren_in_exec c : print 0 c = paren true (print 3 c) -> in_line c -> in_exec c.
Proof.
  intros Hp Hc k rds ts Hs Hr us Hk. subst us. rewrite Hp in *. unfold paren in *. destruct k as [|[|k]]; [lia|lia|]. cbn [r_exec r_block].
  set (us := print 3 c ++ Sym 41 :: (rtoks rds ++ ts)).
  assert (Hu : (Sym 40 :: print 3 c ++ [Sym 41]) ++ rtoks rds ++ ts = Sym 40 :: us) by (unfold us; simpl; by rewrite <- app_assoc).
  rewrite Hu in *. assert (head_in [40] (Sym 40 :: us) = true) as -> by done. cbn [tail]. unfold us in *.
  rewrite Hc by (done || lens). cbn [rbind tail].
  assert (head_in [41] (Sym 41 :: (rtoks rds ++ ts)) = true) as -> by done.
  destruct (stops_no_redir ts Hs) as [Hn _]. pose proof (length_rtoks rds).
  rewrite r_redirs_print by (done || lens). cbn [rbind]. by rewrite app_nil_r.
Qed.

Lemma exec_in_pipe c : print 1 c = print 0 c -> in_exec c -> in_pipe c.
Proof.
  intros Hp Hc k ts [Hs Hn] us Hk. subst us. rewrite Hp in *. destruct k as [|k]; [lia|]. cbn [r_pipe].
  pose proof (Hc k [] ts Hs (Forall_nil_2 _)) as He. simpl in He. rewrite He by lia. cbn [rbind]. by rewrite Hn.
Qed.
Lemma pipe_in_pipe l r : in_exec l -> in_pipe r -> in_pipe (Pipe l r).
Proof.
  intros Hl Hr k ts Hn us Hk. subst us. cbn [print paren Nat.ltb Nat.leb] in *. rewrite <- app_assoc in *. cbn [app] in *.
  destruct k as [|k]; [lia|]. cbn [r_pipe]. pose proof (Hl k [] (Sym 124 :: print 1 r ++ ts) eq_refl (Forall_nil_2 _)) as He.
  simpl in He. rewrite He by lens. cbn [rbind tail]. assert (head_in [124] (Sym 124 :: print 1 r ++ ts) = true) as -> by done.
  by rewrite Hr by (done || lens).
Qed.
Lemma pipe_in_list c : print 2 c = print 1 c -> in_pipe c -> in_list c.
Proof.
  intros Hp Hc k n ts [Hs Hn] us Hk. subst us. rewrite Hp in *. rewrite Hc; [|apply stops_amps; [done|]; by eapply head_sub, Hn; sub_toks|done].
  cbn [rbind]. apply r_backs_print; [by eapply head_sub, Hn; sub_toks|]. unfold amps in Hk. rewrite !length_app, length_replicate in Hk. lia.
Qed.
Lemma back_in_list c : in_list c -> in_list (Back c).
Proof.
  intros Hc k n ts Hn us Hk. subst us. cbn [print paren Nat.ltb Nat.leb] in *. rewrite <- app_assoc in *.
  change ([Sym 38] ++ amps n ++ ts) with (amps (S n) ++ ts) in *. by rewrite Hc.
Qed.
Lemma list_in_line c : print 3 c = print 2 c -> in_list c -> in_line c.
Proof.
  intros Hp Hc k ts [Hs Hn] us Hk. subst us. rewrite Hp in *. destruct k as [|k]; [lia|]. cbn [r_line].
  pose proof (Hc k 0%nat ts) as He. simpl in He. specialize (He (conj Hs (head_sub [124; 38; 59] [124; 38] _ ltac:(sub_toks) Hn)) ltac:(lia)).
  destruct (r_pipe k _) as [c' ts'| |]; [|done|done]. simpl in *. rewrite He. cbn [rbind].
  by rewrite (head_sub [124; 38; 59] [59] _ ltac:(sub_toks) Hn).
Qed.
Lemma lst_in_line l r : in_list l -> in_line r -> in_line (Lst l r).
Proof.
  intros Hl Hr k ts Hn us Hk. subst us. cbn [print paren Nat.ltb Nat.leb] in *. rewrite <- app_assoc in *. cbn [app] in *.
  destruct k as [|k]; [lia|]. cbn [r_line]. pose proof (Hl k 0%nat (Sym 59 :: print 3 r ++ ts) (conj eq_refl eq_refl)) as He. simpl in He.
  specialize (He ltac:(lens)). destruct (r_pipe k _) as [c' ts'| |]; [|done|done]. simpl in *. rewrite He. cbn [rbind tail].
  assert (head_in [59] (Sym 59 :: print 3 r ++ ts) = true) as -> by done. by rewrite Hr by (done || lens).
Qed.

Lemma print_levels c : good c = true -> in_exec c ∧ in_pipe c ∧ in_list c ∧ in_line c.
Proof.
  induction c as [args|c IH w m d|l IHl r IHr|l IHl r IHr|c IH]; cbn [good]; intros Hg.
  - apply andb_true_iff in Hg as [Hg _]. assert (H0 : in_exec (Exec args)) by (apply exec_in_exec; apply Nat.ltb_lt in Hg; lia).
    assert (H1 := exec_in_pipe (Exec args) eq_refl H0). assert (H2 := pipe_in_list (Exec args) eq_refl H1). exact (conj H0 (conj H1 (conj H2 (list_in_line (Exec args) eq_refl H2)))).
  - apply andb_true_iff in Hg as [[Hg _]%andb_true_iff Hr]. set (c' := Redir c w m d).
    assert (H0 : in_exec c') by (apply redir_in_exec; [by apply redir_token_ok|by apply IH]).
    assert (H1 := exec_in_pipe c' eq_refl H0). assert (H2 := pipe_in_list c' eq_refl H1). exact (conj H0 (conj H1 (conj H2 (list_in_line c' eq_refl H2)))).
  - apply andb_true_iff in Hg as [Hl Hr]. set (c' := Pipe l r). assert (H1 : in_pipe c') by (apply pipe_in_pipe; [by apply IHl|by apply IHr]).
    assert (H2 := pipe_in_list c' eq_refl H1). assert (H3 := list_in_line c' eq_refl H2). exact (conj (paren_in_exec c' eq_refl H3) (conj H1 (conj H2 H3))).
  - apply andb_true_iff in Hg as [Hl Hr]. set (c' := Lst l r). assert (H3 : in_line c') by (apply lst_in_line; [by apply IHl|by apply IHr]).
    assert (H0 := paren_in_exec c' eq_refl H3). assert (H1 := exec_in_pipe c' eq_refl H0). exact (conj H0 (conj H1 (conj (pipe_in_list c' eq_refl H1) H3))).
  - set (c' := Back c). assert (H2 : in_list c') by (apply back_in_list, IH, Hg).
    assert (H3 := list_in_line c' eq_refl H2). assert (H0 := paren_in_exec c' eq_refl H3). exact (conj H0 (conj (exec_in_pipe c' eq_refl H0) (conj H2 H3))).
Qed.

(** ** The text of a printed command has the tokens it was printed from *)
Definition good_token (t : token) : bool :=
  match t with Word w => good_word w | Sym c => strchr symbols c | Append => true end.

Lemma byte_app_r l l' i : 0 <= i -> byte_at (l ++ l') (Z.of_nat (length l) + i) = byte_at l' i.
Proof.
  intros Hi. unfold byte_at. assert ((0 <=? Z.of_nat (length l) + i) = true ∧ (0 <=? i) = true) as [-> ->] by (split; apply Z.leb_le; lia).
  rewrite lookup_app_r by lia. do 2 f_equal. lia.
Qed.
Lemma byte_app_l l l' i : 0 <= i < Z.of_nat (length l) -> byte_at (l ++ l') i = byte_at l i.
Proof. intros Hi. unfold byte_at. assert ((0 <=? i) = true) as -> by lia. by rewrite lookup_app_l by lia. Qed.
Lemma byte_in l i : 0 <= i < Z.of_nat (length l) -> byte_at l i ∈ l.
Proof.
  intros Hi. unfold byte_at. assert ((0 <=? i) = true) as -> by lia. destruct (lookup_lt_is_Some_2 l (Z.to_nat i)) as [c Hc]; [lia|].
  rewrite Hc. by eapply list_elem_of_lookup_2.
Qed.

(** The bytes of a token are no spaces and no NULs. *)
Lemma text_bytes t c : good_token t = true -> c ∈ text t -> c ≠ 0 ∧ strchr whitespace c = false.
Proof.
  destruct t as [w|c'|]; simpl; intros Hg Hc.
  - apply andb_true_iff in Hg as [_ Hg]. rewrite forallb_forall in Hg. specialize (Hg c (proj1 (list_elem_of_In _ _) Hc)). unfold wordc in Hg.
    apply andb_true_iff in Hg as [[H1 H2]%andb_true_iff _]. apply negb_true_iff in H1, H2. split; [lia|done].
  - apply list_elem_of_singleton in Hc as ->. apply strchr_spec in Hg. unfold symbols in Hg. rewrite !elem_of_cons, elem_of_nil in Hg.
    destruct Hg as [-> |[-> |[-> |[-> |[-> |[-> |[-> |[]]]]]]]]; done.
  - rewrite !elem_of_cons, elem_of_nil in Hc. destruct Hc as [-> |[-> |[]]]; done.
Qed.
Lemma text_nonempty t : good_token t = true -> (0 < length (text t))%nat.
Proof. destruct t as [w|c|]; simpl; [|lia|lia]. intros [H _]%andb_true_iff. apply negb_true_iff, Nat.eqb_neq in H. lia. Qed.
Lemma render_bytes ts c : Forall (fun t => good_token t = true) ts -> c ∈ render ts -> c ≠ 0.
Proof.
  intros Hg. induction Hg as [|t ts Ht _ IH]; [by intros ?%elem_of_nil|].
  change (render (t :: ts)) with ((text t ++ [32]) ++ render ts). rewrite !elem_of_app, list_elem_of_singleton.
  intros [[Hc| ->]|Hc]; [by eapply text_bytes|done|auto].
Qed.
Lemma render_chars ts c : Forall (fun t => good_token t = true) ts -> c ∈ render ts -> c ≠ 0 ∧ c ≠ 10 ∧ c ≠ 13.
Proof.
  intros Hg. induction Hg as [|t ts Ht _ IH]; [by intros ?%elem_of_nil|].
  change (render (t :: ts)) with ((text t ++ [32]) ++ render ts). rewrite !elem_of_app, list_elem_of_singleton.
  intros [[Hc| ->]|Hc]; [|done|auto]. destruct (text_bytes t c Ht Hc) as [H1 H2]. split; [done|]. split; intros ->; done.
Qed.
(** Blanks after a token. *)
Lemma blanks_step bs es p : 0 <= p < es -> strchr whitespace (byte_at bs p) = true -> blanks bs p es = blanks bs (p + 1) es.
Proof.
  intros Hp Hw. unfold blanks at 1. destruct (Z.to_nat (es - p)) as [|k] eqn:E; [lia|]. cbn [skip_ws]. rewrite Hw. assert ((p <? es) = true) as -> by lia.
  cbn [andb]. cbv iota. unfold blanks. f_equal. lia.
Qed.
Lemma blanks_all bs es p : 0 <= p <= es -> (forall i, p <= i < es -> strchr whitespace (byte_at bs i) = true) -> blanks bs p es = es.
Proof.
  intros Hp Hw. remember (Z.to_nat (es - p)) as n eqn:Hn. revert p Hp Hw Hn. induction n as [|n IH]; intros p Hp Hw Hn.
  - assert (p = es) as -> by lia. apply blanks_stop. lia.
  - rewrite blanks_step by (try apply Hw; lia). apply IH; [lia|intros; apply Hw; lia|lia].
Qed.
Lemma lexes_skip bs es p ts : lexes bs es p ts -> lexes bs es (blanks bs p es) ts.
Proof.
  intros Hl. inversion Hl as [? Hp Hb|? t ts' q eq s' Hp Ht]; subst; (pose proof (blanks_spec bs es p Hp) as [Hr _]).
  - apply lex_end; [lia|]. by rewrite blanks_idem.
  - eapply lex_cons; try done; [lia|]. rewrite <- Ht. unfold token_at. by rewrite blanks_idem.
Qed.

(** A token in a line: it starts at [s], and a space follows. *)
Record placed (bs : list Z) (es s : Z) (t : token) : Prop := Placed {
  pl_range : 0 <= s ∧ s + Z.of_nat (length (text t)) < es;
  pl_text : forall i, 0 <= i < Z.of_nat (length (text t)) -> byte_at bs (s + i) = byte_at (text t) i;
  pl_space : byte_at bs (s + Z.of_nat (length (text t))) = 32 }.

Lemma placed_render pre t ts rest es :
  Forall (fun t => good_token t = true) (t :: ts) -> Z.of_nat (length pre + length (render (t :: ts))) <= es ->
  placed (pre ++ render (t :: ts) ++ rest) es (Z.of_nat (length pre)) t.
Proof.
  intros [Ht Hts]%Forall_cons. change (render (t :: ts)) with ((text t ++ [32]) ++ render ts). intros Hes.
  assert (Hb : forall i, 0 <= i -> byte_at (pre ++ ((text t ++ [32]) ++ render ts) ++ rest) (Z.of_nat (length pre) + i) =
    byte_at (text t ++ [32] ++ render ts ++ rest) i) by (intros i Hi; rewrite byte_app_r, <- !app_assoc by done; done).
  set (bs := pre ++ _) in *. rewrite !length_app in Hes. cbn [length] in Hes. split; [lia| |].
  - intros i Hi. rewrite Hb by lia. by apply byte_app_l.
  - rewrite Hb, <- (Z.add_0_r (Z.of_nat (length (text t)))) by lia. by rewrite byte_app_r.
Qed.

Lemma placed_first bs es s t : placed bs es s t -> good_token t = true ->
  byte_at bs s = byte_at (text t) 0 ∧ byte_at bs s ≠ 0 ∧ blanks bs s es = s.
Proof.
  intros [Hr Ht _] Hg. pose proof (text_nonempty t Hg). specialize (Ht 0 ltac:(lia)). rewrite Z.add_0_r in Ht. rewrite Ht.
  destruct (text_bytes t (byte_at (text t) 0) Hg) as [H1 H2]; [apply byte_in; lia|]. split; [done|]. split; [done|].
  apply blanks_stop. by rewrite Ht.
Qed.
Lemma placed_word bs es s w :
  (forall i, 0 <= i < es -> byte_at bs i ≠ 0) -> byte_at bs es = 0 -> placed bs es s (Word w) -> good_word w = true ->
  let e := s + Z.of_nat (length w) in
  skip_word (Z.to_nat (es - s)) bs s es = e ∧ extent bs es s e ∧ word_at bs s e = w.
Proof.
  intros Hnz Hz [Hr Ht H32] Hg. simpl in *. pose proof (text_nonempty (Word w) Hg) as Hlen. simpl in Hlen. set (n := Z.of_nat (length w)) in *.
  assert (Hw : forall i, s <= i < s + n -> wordc (byte_at bs i) = true).
  { intros i Hi. replace i with (s + (i - s)) by lia. rewrite Ht by lia. apply andb_true_iff in Hg as [_ Hg]. rewrite forallb_forall in Hg.
    apply Hg, list_elem_of_In, byte_in. lia. }
  assert (Hx : extent bs es s (s + n)) by (split_and!; [lia|lia|lia|done|by rewrite H32]).
  destruct (skip_word_spec bs es (Z.to_nat (es - s)) s ltac:(lia) ltac:(lia) Hnz Hz) as (H1 & H2 & H3). split; [|split; [done|]].
  - set (e := skip_word _ bs s es) in *. destruct (Z.lt_total e (s + n)) as [Hlt|[?|Hgt]]; [|done|].
    + by rewrite Hw in H3 by lia.
    + specialize (H2 (s + n) ltac:(lia)). by rewrite H32 in H2.
  - unfold word_at. apply list_eq_same_length with (length w); [done|rewrite length_fmap, length_seqZ; lia|].
    intros i x y Hi Hx1 Hy. apply list_lookup_fmap_Some in Hx1 as (j & -> & (-> & Hj)%lookup_seqZ). rewrite Ht by lia.
    unfold byte_at. assert ((0 <=? Z.of_nat i) = true) as -> by lia. by rewrite Nat2Z.id, Hy.
Qed.

Lemma placed_token bs es s t :
  (forall i, 0 <= i < es -> byte_at bs i ≠ 0) -> byte_at bs es = 0 -> placed bs es s t -> good_token t = true ->
  token_at bs s es = (code t, s, s + Z.of_nat (length (text t)), blanks bs (s + Z.of_nat (length (text t))) es).
Proof.
  intros Hnz Hz Hp Hg. destruct (placed_first _ _ _ _ Hp Hg) as (Hc & Hne & Hb). unfold token_at. rewrite Hb.
  rewrite (proj2 (Z.eqb_neq _ _) Hne). destruct t as [w|c|].
  - destruct (placed_word _ _ _ _ Hnz Hz Hp Hg) as (He & (Hx1 & _ & Hx & _) & _). rewrite He.
    specialize (Hx s ltac:(lia)). apply andb_true_iff in Hx as [_ Hx]. apply negb_true_iff, not_true_iff_false in Hx. rewrite strchr_spec in Hx.
    assert (strchr [124; 40; 41; 59; 38; 60] (byte_at bs s) = false) as ->.
    { apply not_true_iff_false. rewrite strchr_spec. intros Hin. apply Hx. unfold symbols. rewrite !elem_of_cons in *. tauto. }
    assert ((byte_at bs s =? 62) = false) as ->; [|done].
    apply Z.eqb_neq. intros E. apply Hx. rewrite E. by apply strchr_spec.
  - change (byte_at (text (Sym c)) 0) with c in Hc. rewrite Hc. pose proof (pl_space _ _ _ _ Hp) as H32.
    simpl in *. change (Z.of_nat 1) with 1 in *. apply strchr_spec in Hg. unfold symbols in Hg. rewrite !elem_of_cons, elem_of_nil in Hg.
    destruct Hg as [-> |[-> |[-> |[-> |[-> |[-> |[-> |[]]]]]]]]; rewrite ?H32; reflexivity.
  - change (byte_at (text Append) 0) with 62 in Hc. rewrite Hc. pose proof (pl_text _ _ _ _ Hp 1 ltac:(simpl; lia)) as H1.
    simpl in *. change (Z.of_nat 2) with 2 in *. rewrite H1. reflexivity.
Qed.
Lemma placed_lexes bs es s t ts :
  (forall i, 0 <= i < es -> byte_at bs i ≠ 0) -> byte_at bs es = 0 -> placed bs es s t -> good_token t = true ->
  lexes bs es (s + Z.of_nat (length (text t)) + 1) ts -> lexes bs es s (t :: ts).
Proof.
  intros Hnz Hz Hp Hg Hts%lexes_skip. destruct (placed_first _ _ _ _ Hp Hg) as (Hc & Hne & _). pose proof (pl_range _ _ _ _ Hp) as Hr. pose proof (pl_space _ _ _ _ Hp) as H32.
  pose proof (text_nonempty t Hg). rewrite <- blanks_step in Hts by (rewrite ?H32; (done || lia)).
  pose proof (blanks_spec bs es (s + Z.of_nat (length (text t))) ltac:(lia)) as [Hbl _].
  eapply (lex_cons _ _ s t ts s); [lia|by apply placed_token|done| | | | |lia|exact Hts].
  - destruct t as [w|c|]; [|by rewrite Hc|by rewrite Hc]. destruct (placed_word _ _ _ _ Hnz Hz Hp Hg) as (_ & (Hx1 & _ & Hx & _) & _).
    specialize (Hx s ltac:(lia)). apply andb_true_iff in Hx as [_ Hx]. by apply negb_true_iff in Hx.
  - by intros c ->.
  - by intros ->.
  - destruct t as [w|c|]; [|by apply strchr_spec|done]. by apply placed_word.
Qed.

(** Tokens, and the blanks at the end of the line. *)
Definition blank (c : Z) : Prop := c ≠ 0 ∧ strchr whitespace c = true.
Lemma lexes_render pre ts tl rest :
  Forall (fun t => good_token t = true) ts -> (forall c, c ∈ pre -> c ≠ 0) -> Forall blank tl ->
  lexes (pre ++ render ts ++ tl ++ 0 :: rest) (Z.of_nat (length pre + length (render ts) + length tl)) (Z.of_nat (length pre)) ts.
Proof.
  intros Hg Hpre Htl. revert pre Hpre. induction ts as [|t ts IH]; intros pre Hpre.
  - apply lex_end; [simpl; lia|]. simpl. rewrite Nat.add_0_r. apply blanks_all; [lia|]. intros i Hi.
    replace i with (Z.of_nat (length pre) + (i - Z.of_nat (length pre))) by lia. rewrite byte_app_r, byte_app_l by lia. rewrite Forall_forall in Htl. apply Htl, byte_in. lia.
  - pose proof (placed_render pre t ts (tl ++ 0 :: rest) (Z.of_nat (length pre + length (render (t :: ts)) + length tl)) Hg ltac:(lia)) as Hp. pose proof Hg as [Ht Hts]%Forall_cons.
    set (pre' := pre ++ text t ++ [32]).
    assert (Hbs : pre ++ render (t :: ts) ++ tl ++ 0 :: rest = pre' ++ render ts ++ tl ++ 0 :: rest) by (unfold pre'; change (render (t :: ts)) with ((text t ++ [32]) ++ render ts); by rewrite <- !app_assoc).
    assert (Hes : (length pre + length (render (t :: ts)))%nat = (length pre' + length (render ts))%nat)
      by (change (render (t :: ts)) with ((text t ++ [32]) ++ render ts); unfold pre'; rewrite !length_app; lia).
    apply placed_lexes; [| |done|done|].
    + intros i Hi. rewrite !app_assoc, byte_app_l by (rewrite !length_app; lia).
      pose proof (byte_in ((pre ++ render (t :: ts)) ++ tl) i ltac:(rewrite !length_app; lia)) as Hin. apply elem_of_app in Hin as [[Hin|Hin]%elem_of_app|Hin]; [auto|exact (render_bytes _ _ Hg Hin)|].
      rewrite Forall_forall in Htl. by apply Htl.
    + rewrite !app_assoc, <- !length_app, <- (Z.add_0_r (Z.of_nat _)). by rewrite byte_app_r.
    + rewrite Hbs, Hes. replace (Z.of_nat (length pre) + _ + 1) with (Z.of_nat (length pre')) by (unfold pre'; rewrite !length_app; simpl; lia).
      apply IH; [done|]. intros c. unfold pre'. rewrite !elem_of_app, list_elem_of_singleton. intros [Hc|[Hc| ->]]; [auto| |done]. by eapply text_bytes.
Qed.

Lemma print_tokens lvl c : good c = true -> Forall (fun t => good_token t = true) (print lvl c).
Proof.
  assert (Hpar : forall b ts, Forall (fun t => good_token t = true) ts -> Forall (fun t => good_token t = true) (paren b ts)).
  { intros [] ts Hts; [|done]. apply Forall_cons. split; [done|]. apply Forall_app. split; [done|]. by apply Forall_singleton. }
  revert lvl. induction c as [args|c IH w m d|l IHl r IHr|l IHl r IHr|c IH]; intros lvl Hg; cbn [good print] in *.
  - apply andb_true_iff in Hg as [_ Hg]. apply Forall_fmap, Forall_forall. intros w Hw. rewrite forallb_forall in Hg. by apply Hg, list_elem_of_In.
  - apply andb_true_iff in Hg as [[Hg Hw]%andb_true_iff _]. apply Forall_app. split; [by apply IH|]. repeat apply Forall_cons_2; [|done|by apply Forall_nil].
    unfold redir_token. by repeat case_match.
  - apply andb_true_iff in Hg as [Hl Hr]. apply Hpar, Forall_app. split; [by apply IHl|]. apply Forall_cons. split; [done|by apply IHr].
  - apply andb_true_iff in Hg as [Hl Hr]. apply Hpar, Forall_app. split; [by apply IHl|]. apply Forall_cons. split; [done|by apply IHr].
  - apply Hpar, Forall_app. split; [by apply IH|]. by apply Forall_singleton.
Qed.

Lemma strlen_line_app l rest : (forall c, c ∈ l -> c ≠ 0) -> strlen_line (l ++ 0 :: rest) = Z.of_nat (length l).
Proof.
  induction l as [|c l IH]; intros Hl; [done|]. cbn [app strlen_line]. rewrite (proj2 (Z.eqb_neq c 0)) by (apply Hl; set_solver).
  rewrite IH by (intros; apply Hl; set_solver). simpl length. lia.
Qed.
Lemma length_render ts : (length ts <= length (render ts))%nat.
Proof. induction ts as [|t ts IH]; [done|]. change (render (t :: ts)) with ((text t ++ [32]) ++ render ts). rewrite !length_app. simpl. lia. Qed.

(** Parsing a printed line with blanks at its end. *)
Lemma parse_print (c : cmd) (tl rest : list Z) :
  good c = true -> Forall blank tl ->
  ∃ p st', parsecmd (Sh (render (print 3 c) ++ tl ++ 0 :: rest) 0 []) = Ok p st' ∧ command_at st' p = Some c.
Proof.
  intros Hg Htl. set (bs := render (print 3 c) ++ tl ++ 0 :: rest). pose proof (print_tokens 3 c Hg) as Ht.
  assert (Hlen : strlen_line bs = Z.of_nat (length (render (print 3 c)) + length tl)).
  { unfold bs. rewrite app_assoc, strlen_line_app; [by rewrite length_app|]. intros x [Hx|Hx]%elem_of_app; [by eapply render_bytes|]. rewrite Forall_forall in Htl. by apply Htl. }
  assert (Hp : parsed bs (r_line (parse_fuel bs) (print 3 c))).
  { apply parsecmd_parsed; [|rewrite Hlen; apply (lexes_render [] (print 3 c) tl rest Ht); [by intros ? ?%elem_of_nil|done]].
    unfold terminated. rewrite Hlen. unfold bs. rewrite !length_app. simpl. lia. }
  destruct (print_levels c Hg) as (_ & _ & _ & Hline). pose proof (length_render (print 3 c)).
  specialize (Hline (parse_fuel bs) [] (conj eq_refl eq_refl)). cbv zeta in Hline. rewrite app_nil_r in Hline.
  rewrite Hline in Hp by (unfold parse_fuel; rewrite Hlen; lia). exact Hp.
Qed.

(** C35: The parser of the shell reads back what is printed: for every command that can
    be written down (fewer than [MAXARGS] arguments, words without spaces and symbols,
    the three kinds of redirection), the line that its printer makes, with parentheses
    where pipes, lists and background commands are nested, is parsed by [parsecmd]
    into nodes whose strings, after [nulterminate], spell that very command. *)
Theorem parsecmd_print (c : cmd) (rest : list Z) :
  good c = true ->
  ∃ p st', parsecmd (Sh (render (print 3 c) ++ 0 :: rest) 0 []) = Ok p st' ∧ command_at st' p = Some c.
Proof. intros Hg. by apply (parse_print c [] rest). Qed.
Lemma parsecmd_print_witness :
  ∃ p st', parsecmd (Sh (render (print 3 (Lst (Back (Redir (Pipe (Exec [[108; 115]]) (Exec [[119; 99]; [120]])) [102] 513 1)) (Exec [[97]]))) ++ [0]) 0 []) = Ok p st' ∧
    command_at st' p = Some (Lst (Back (Redir (Pipe (Exec [[108; 115]]) (Exec [[119; 99]; [120]])) [102] 513 1)) (Exec [[97]])).
Proof. apply (parsecmd_print (Lst (Back (Redir (Pipe (Exec [[108; 115]]) (Exec [[119; 99]; [120]])) [102] 513 1)) (Exec [[97]])) []). vm_compute. reflexivity. Defined.
