(* ===== verification/Printf.v ===== *)
(** * Printf: formatted output, kernel/printf.c and user/printf.c

    The bytes that reach the console or the file.  A format is the sequence of its
    bytes; an argument is a word or a string, [None] for a null pointer.  [None] as a
    result is what the C code leaves undefined: a store outside the digit buffer, or
    an argument that was not passed.  The lock of the kernel's [printf] does not show in
    the output of a single call. *)

From S2P Require Import Prelude MemC.

(** ** Numbers *)
(** [digits] of the kernel and of the user library. *)
Definition digit (upper : bool) (d : Z) : Z := if d <? 10 then 48 + d else (if upper then 65 else 97) + (d - 10).
Definition printbuf : Z := 16.

(** [do buf[i++] = digits[x % base]; while((x /= base) != 0)]: the buffer. *)
Fixpoint digits_loop (k : nat) (up : bool) (x base : Z) (buf : list Z) : option (list Z) :=
  match k with
  | O => None
  | S k' =>
      if printbuf <=? Z.of_nat (length buf) then None else
      let buf := buf ++ [digit up (x mod base)] in
      let x := x / base in
      if negb (x =? 0) then digits_loop k' up x base buf else Some buf
  end.
(** [x] has at most 32 digits in base 2. *)
Definition int_fuel : nat := 33.
Definition put_sign (neg : bool) (buf : list Z) : option (list Z) :=
  if neg then if printbuf <=? Z.of_nat (length buf) then None else Some (buf ++ [45]) else Some buf.
(** [printint] of the kernel and of the library: the bytes in the order they are printed. *)
Definition k_printint (xx base : Z) (sign : bool) : option (list Z) :=
  let neg := sign && (xx <? 0) in
  let x := if neg then u32 (- xx) else u32 xx in
  buf ← digits_loop int_fuel false x base [];
  buf ← put_sign neg buf;
  Some (rev buf).
Definition u_printint (xx base : Z) (sgn : bool) : option (list Z) :=
  let neg := sgn && (xx <? 0) in
  let x := if neg then u32 (- xx) else u32 xx in
  buf ← digits_loop int_fuel true x base [];
  buf ← put_sign neg buf;
  Some (rev buf).

Fixpoint ptr_loop (k : nat) (up : bool) (x : Z) : list Z :=
  match k with
  | O => []
  | S k' => digit up (Z.shiftr x 60) :: ptr_loop k' up (u64 (Z.shiftl x 4))
  end.
Definition k_printptr (x : Z) : list Z := 48 :: 120 :: ptr_loop 16 false x.
Definition u_printptr (x : Z) : list Z := 48 :: 120 :: ptr_loop 16 true x.

(** ** Formats *)
Inductive arg := AWord (w : Z) | AStr (s : option (list Z)).
Definition null_string : list Z := [40; 110; 117; 108; 108; 41].
Definition va_int (ap : list arg) : option (Z * list arg) :=
  match ap with AWord w :: ap' => Some (i32 w, ap') | _ => None end.
Definition va_uint64 (ap : list arg) : option (Z * list arg) :=
  match ap with AWord w :: ap' => Some (u64 w, ap') | _ => None end.
Definition va_str (ap : list arg) : option (list Z * list arg) :=
  match ap with AStr s :: ap' => Some (default null_string s, ap') | _ => None end.

(** [printf] of the kernel. *)
Fixpoint k_printf (fmt : list Z) (ap : list arg) : option (list Z) :=
  match fmt with
  | [] => Some []
  | c :: fmt' =>
      if negb (c =? 37) then (c ::.) <$> k_printf fmt' ap else
      match fmt' with
      | [] => Some []
      | c :: fmt'' =>
          if c =? 100 then v ← va_int ap; o ← k_printint v.1 10 true; (o ++.) <$> k_printf fmt'' v.2
          else if c =? 120 then v ← va_int ap; o ← k_printint v.1 16 true; (o ++.) <$> k_printf fmt'' v.2
          else if c =? 112 then v ← va_uint64 ap; (k_printptr v.1 ++.) <$> k_printf fmt'' v.2
          else if c =? 115 then v ← va_str ap; (v.1 ++.) <$> k_printf fmt'' v.2
          else if c =? 37 then (37 ::.) <$> k_printf fmt'' ap
          else ([37; c] ++.) <$> k_printf fmt'' ap
      end
  end.

(** [vprintf] of the library; [st] is [state == '%']. *)
Fixpoint vprintf (st : bool) (fmt : list Z) (ap : list arg) : option (list Z) :=
  match fmt with
  | [] => Some []
  | c :: fmt' =>
      if negb st then
        if c =? 37 then vprintf true fmt' ap else (c ::.) <$> vprintf false fmt' ap
      else
        if c =? 100 then v ← va_int ap; o ← u_printint v.1 10 true; (o ++.) <$> vprintf false fmt' v.2
        else if c =? 108 then v ← va_uint64 ap; o ← u_printint (i32 v.1) 10 false; (o ++.) <$> vprintf false fmt' v.2
        else if c =? 120 then v ← va_int ap; o ← u_printint v.1 16 false; (o ++.) <$> vprintf false fmt' v.2
        else if c =? 112 then v ← va_uint64 ap; (u_printptr v.1 ++.) <$> vprintf false fmt' v.2
        else if c =? 115 then v ← va_str ap; (v.1 ++.) <$> vprintf false fmt' v.2
        else if c =? 99 then v ← va_int ap; (u8 v.1 ::.) <$> vprintf false fmt' v.2
        else if c =? 37 then (37 ::.) <$> vprintf false fmt' ap
        else ([37; c] ++.) <$> vprintf false fmt' ap
  end.
Definition u_printf (fmt : list Z) (ap : list arg) : option (list Z) := vprintf false fmt ap.

(** * numbers are printed in full, and read back by atoi *)

(** The number that digits, the lowest first, stand for. *)
Fixpoint value (up : bool) (base : Z) (ds : list Z) : Z :=
  match ds with
  | [] => 0
  | c :: ds' => (if c <? 58 then c - 48 else c - (if up then 65 else 97) + 10) + base * value up base ds'
  end.

Lemma digit_value up d : 0 <= d < 16 -> (if digit up d <? 58 then digit up d - 48 else digit up d - (if up then 65 else 97) + 10) = d.
Proof. intros Hd. unfold digit. destruct (Z.ltb_spec d 10); [|destruct up]; case_match; lia. Qed.

Lemma digits_loop_ok k up base buf n x :
  2 <= base <= 16 -> 0 <= x < base ^ n -> 1 <= n -> n <= Z.of_nat k -> Z.of_nat (length buf) + n <= printbuf ->
  ∃ ds, digits_loop k up x base buf = Some (buf ++ ds) ∧ 1 <= Z.of_nat (length ds) <= n ∧ value up base ds = x ∧
    Forall (fun c => ∃ d, 0 <= d < base ∧ c = digit up d) ds ∧ (last ds = Some 48 -> x = 0 ∧ ds = [48]).
Proof.
  intros Hb. revert n x buf. induction k as [|k IH]; intros n x buf Hx Hn Hk Hl; [lia|]. cbn [digits_loop].
  assert ((printbuf <=? Z.of_nat (length buf)) = false) as -> by lia. pose proof (Z.mod_pos_bound x base ltac:(lia)) as Hm.
  assert (Hd : ∃ d, 0 <= d < base ∧ digit up (x mod base) = digit up d) by (eexists; split; [exact Hm|done]).
  pose proof (Z_div_mod_eq_full x base) as Hdm. destruct (Z.eqb_spec (x / base) 0) as [E|E]; cbn [negb].
  - eexists [_]. split; [done|]. split; [simpl; lia|]. rewrite E in Hdm. cbn [value last]. rewrite digit_value by lia.
    split; [lia|]. split; [by apply Forall_singleton|]. intros [= H0]. rewrite H0. split; [|done]. unfold digit in H0. destruct up; destruct (Z.ltb_spec (x mod base) 10); lia.
  - assert (Hn1 : n ≠ 1). { intros ->. rewrite Z.pow_1_r in Hx. rewrite Z.div_small in E by lia. done. }
    assert (Hx1 : 0 <= x / base < base ^ (n - 1)).
    { split; [apply Z.div_pos; lia|]. apply Z.div_lt_upper_bound; [lia|]. rewrite <- Z.pow_succ_r by lia. replace (Z.succ (n - 1)) with n by lia. lia. }
    destruct (IH (n - 1) (x / base) (buf ++ [digit up (x mod base)])) as (ds & H1 & H2 & H3 & H4 & H5); [done|lia|lia|rewrite length_app; simpl; lia|].
    exists (digit up (x mod base) :: ds). rewrite H1, <- app_assoc. split; [done|]. split; [simpl length; lia|]. cbn [value]. rewrite digit_value, H3 by lia.
    split; [lia|]. split; [by apply Forall_cons|]. destruct ds as [|d ds]; [simpl in H2; lia|]. cbn [last] in H5 |- *. intros H0. by destruct (H5 H0).
Qed.
Lemma digits_int up base x : base = 10 ∨ base = 16 -> 0 <= x < 2 ^ 32 ->
  ∃ ds, digits_loop int_fuel up x base [] = Some ds ∧ 1 <= Z.of_nat (length ds) <= 10 ∧ value up base ds = x ∧
    Forall (fun c => ∃ d, 0 <= d < base ∧ c = digit up d) ds ∧ (last ds = Some 48 -> x = 0 ∧ ds = [48]).
Proof.
  intros Hb Hx. apply (digits_loop_ok int_fuel up base [] 10 x); [lia| |lia|done|done]. destruct Hb as [-> | ->]; lia.
Qed.

(** What a reader makes of printed digits with a sign. *)
Definition read_int (up : bool) (base : Z) (out : list Z) : Z :=
  match out with
  | c :: out' => if c =? 45 then - value up base (rev out') else value up base (rev out)
  | [] => 0
  end.

Lemma read_digits up base ds : base = 10 ∨ base = 16 -> (1 <= length ds)%nat -> Forall (fun c => ∃ d, 0 <= d < base ∧ c = digit up d) ds ->
  read_int up base (rev ds) = value up base ds ∧ read_int up base (rev (ds ++ [45])) = - value up base ds.
Proof.
  intros Hb Hl Hd. split.
  - unfold read_int. destruct (rev ds) as [|c out] eqn:E; [apply (f_equal length) in E; rewrite length_rev in E; simpl in E; lia|].
    assert (Hin : c ∈ ds) by (apply list_elem_of_In, in_rev; rewrite E; by left). rewrite Forall_forall in Hd. destruct (Hd c Hin) as (d & Hd1 & ->).
    assert ((digit up d =? 45) = false) as -> by (unfold digit; destruct up; destruct (Z.ltb_spec d 10); lia). by rewrite <- E, rev_involutive.
  - rewrite rev_app_distr. cbn [rev app read_int]. change (45 =? 45) with true. cbv iota. by rewrite rev_involutive.
Qed.
Lemma printint_value (up sign : bool) base xx : base = 10 ∨ base = 16 -> - 2 ^ 31 <= xx < 2 ^ 31 ->
  ∃ out, (if up then u_printint else k_printint) xx base sign = Some out ∧ read_int up base out = if sign then xx else u32 xx.
Proof.
  intros Hb Hx. assert (Hp : (if up then u_printint else k_printint) xx base sign =
    (buf ← digits_loop int_fuel up (if sign && (xx <? 0) then u32 (- xx) else u32 xx) base []; buf ← put_sign (sign && (xx <? 0)) buf; Some (rev buf))) by (by destruct up).
  rewrite Hp. clear Hp. destruct (sign && (xx <? 0)) eqn:Es.
  - destruct (digits_int up base (u32 (- xx)) Hb ltac:(apply u32_range)) as (ds & -> & Hl & Hv & Hd & _). cbn [mbind option_bind put_sign].
    assert ((printbuf <=? Z.of_nat (length ds)) = false) as -> by (unfold printbuf; lia). eexists. split; [done|].
    apply andb_true_iff in Es as [-> Es]. destruct (read_digits up base ds Hb ltac:(lia) Hd) as [_ ->]. rewrite Hv, u32_id by lia. lia.
  - destruct (digits_int up base (u32 xx) Hb ltac:(apply u32_range)) as (ds & -> & Hl & Hv & Hd & _). cbn [mbind option_bind put_sign]. eexists. split; [done|].
    destruct (read_digits up base ds Hb ltac:(lia) Hd) as [-> _]. rewrite Hv. destruct sign; [|done]. cbn [andb] in Es. apply u32_id. lia.
Qed.

(** ** Kernel and library *)
Lemma digits_loop_case k x buf : digits_loop k true x 10 buf = digits_loop k false x 10 buf.
Proof.
  revert x buf. induction k as [|k IH]; intros x buf; [done|]. cbn [digits_loop].
  assert (digit true (x mod 10) = digit false (x mod 10)) as ->. { unfold digit. pose proof (Z.mod_pos_bound x 10). destruct (Z.ltb_spec (x mod 10) 10); [done|lia]. }
  by rewrite IH.
Qed.
Lemma printint_case xx sgn : u_printint xx 10 sgn = k_printint xx 10 sgn.
Proof. unfold u_printint, k_printint. by rewrite digits_loop_case. Qed.

(** A format without the sequences that the two treat differently: [%l], [%x], [%p], [%c]. *)
Fixpoint common (st : bool) (fmt : list Z) : bool :=
  match fmt with
  | [] => true
  | c :: fmt' => if st then negb ((c =? 108) || (c =? 120) || (c =? 112) || (c =? 99)) && common false fmt' else common (c =? 37) fmt'
  end.

(** The kernel's [printf], which looks at the byte after a percent sign, and the
    library's, which remembers that it has seen one, print the same bytes for the same
    arguments, and ask for the same arguments, for every format without [%x], [%p],
    [%l] and [%c]: a lone percent sign at the end, a doubled one and an unknown sequence
    included. *)
Theorem printf_equiv fmt ap : common false fmt = true -> u_printf fmt ap = k_printf fmt ap.
Proof.
  unfold u_printf. remember (length fmt) as n eqn:Hn. revert fmt ap Hn. induction n as [n IH] using lt_wf_ind. intros fmt ap Hn Hc.
  assert (IH' : ∀ l ap, (length l < length fmt)%nat -> common false l = true -> vprintf false l ap = k_printf l ap) by (intros l ap' Hl Hcl; apply (IH (length l)); [lia|done|done]).
  destruct fmt as [|c fmt]; [done|]. cbn [common] in Hc. cbn [vprintf k_printf negb]. destruct (c =? 37) eqn:E; cbn [negb]; cbn in IH'.
  2: { by rewrite IH' by (done || lia). }
  destruct fmt as [|d fmt]; [done|]. cbn [common] in Hc. cbn [vprintf negb]. apply andb_true_iff in Hc as [Hd Hc].
  apply negb_true_iff in Hd. rewrite !orb_false_iff in Hd. destruct Hd as [[[-> ->] ->] ->].
  assert (IH2 : ∀ ap, vprintf false fmt ap = k_printf fmt ap) by (intros; apply IH'; [cbn; lia|done]).
  destruct (d =? 100). { destruct (va_int ap) as [[v ap']|]; [|done]. cbn [mbind option_bind fst snd]. by rewrite printint_case, IH2. }
  destruct (d =? 115); [destruct (va_str ap) as [[v ap']|]; [|done]; cbn [mbind option_bind fst snd]|destruct (d =? 37)]; by rewrite IH2.
Qed.

(** ** Reading a number back *)
Definition holds (m : mem) (s : Z) (l : list Z) : Prop := ∀ i c, l !! i = Some c -> m (s + Z.of_nat i) = c.
Definition numeral (n : Z) (l : list Z) : Z := foldl (fun n c => n * 10 + (c - 48)) n l.

Lemma holds_cons m s c l : holds m s (c :: l) -> m s = c ∧ holds m (s + 1) l.
Proof.
  intros H. split; [specialize (H 0%nat c eq_refl); by rewrite Z.add_0_r in H|].
  intros i d Hi. specialize (H (S i) d Hi). rewrite <- H. f_equal. lia.
Qed.
Lemma numeral_ge n l : 0 <= n -> Forall (fun c => 48 <= c <= 57) l -> n <= numeral n l.
Proof. intros Hn Hl. revert n Hn. induction Hl as [|c l Hc Hl IH]; intros n Hn; [simpl; lia|]. cbn [numeral foldl]. specialize (IH (n * 10 + (c - 48)) ltac:(lia)). unfold numeral in IH. lia. Qed.
Lemma atoi_loop_numeral fuel s n m l : Forall (fun c => 48 <= c <= 57) l -> holds m s l -> (48 <=? m (s + Z.of_nat (length l))) && (m (s + Z.of_nat (length l)) <=? 57) = false ->
  0 <= n -> numeral n l < 2 ^ 31 -> (length l < fuel)%nat -> u_atoi_loop fuel s n m = Some (numeral n l).
Proof.
  intros Hl. revert s n fuel. induction Hl as [|c l Hc Hl IH]; intros s n fuel Hm Ht Hn Hb Hf; (destruct fuel as [|fuel]; [simpl in Hf; lia|]); cbn [u_atoi_loop].
  - cbn [length] in Ht. rewrite Z.add_0_r in Ht. by rewrite Ht.
  - apply holds_cons in Hm as [-> Hm]. assert ((48 <=? c) && (c <=? 57) = true) as -> by (apply andb_true_iff; split; apply Z.leb_le; lia).
    cbn [numeral foldl] in Hb |- *. pose proof (numeral_ge (n * 10 + (c - 48)) l ltac:(lia) Hl) as Hg. unfold numeral in Hg.
    rewrite i32_id by lia. replace (n * 10 + c - 48) with (n * 10 + (c - 48)) by lia. apply IH; [done| |lia|done|simpl in Hf; lia].
    cbn [length] in Ht. replace (s + 1 + Z.of_nat (length l)) with (s + Z.of_nat (S (length l))) by lia. done.
Qed.
Lemma numeral_value ds : Forall (fun c => ∃ d, 0 <= d < 10 ∧ c = digit true d) ds -> numeral 0 (rev ds) = value true 10 ds ∧ Forall (fun c => 48 <= c <= 57) (rev ds).
Proof.
  intros Hd. assert (Hr : Forall (fun c => 48 <= c <= 57) ds). { eapply Forall_impl; [exact Hd|]. intros c (d & ? & ->). unfold digit. case_match; lia. }
  split; [|by apply Forall_rev]. clear Hd. induction Hr as [|c ds Hc Hr IH]; [done|]. cbn [rev value]. unfold numeral in *. rewrite foldl_app, IH. cbn [foldl]. case_match; lia.
Qed.

(** The decimal notation of a number that is not negative: digits, at least one, and the
    first is 0 only in the notation of 0 itself. *)
Record decimal (n : Z) (l : list Z) : Prop := {
  dec_some : l ≠ [];
  dec_digits : Forall (fun c => 48 <= c <= 57) l;
  dec_first : head l = Some 48 -> l = [48];
  dec_value : numeral 0 l = n
}.
Lemma digits_decimal x : 0 <= x < 2 ^ 32 -> ∃ ds, digits_loop int_fuel true x 10 [] = Some ds ∧ (length ds <= 10)%nat ∧ decimal x (rev ds).
Proof.
  intros Hx. destruct (digits_int true 10 x ltac:(by left) Hx) as (ds & H1 & H2 & H3 & H4 & H5). exists ds. split; [done|]. split; [lia|].
  destruct (numeral_value ds H4) as [Hn Hf]. split; [|done| |by rewrite Hn].
  - intros E%(f_equal length). rewrite length_rev in E. simpl in E. lia.
  - intros Hh. destruct H5 as [_ ->]; [|done]. rewrite rev_alt in Hh. by rewrite <- head_reverse.
Qed.
(** [atoi] reads a decimal notation, up to a byte that is no digit. *)
Lemma atoi_decimal n l m s : decimal n l -> n < 2 ^ 31 -> holds m s l -> (48 <=? m (s + Z.of_nat (length l))) && (m (s + Z.of_nat (length l)) <=? 57) = false ->
  u_atoi (S (length l)) s m = Some n.
Proof. intros [_ Hd _ Hv] Hn Hm Ht. unfold u_atoi. rewrite <- Hv. apply atoi_loop_numeral; try done; lia. Qed.

(** C38: for every [int] the library's [printf("%d", n)] prints the decimal notation of
    [n], as every reader expects it: a minus sign exactly when [n] is negative (the smallest [int]
    included), then the digits of the absolute value without leading zeros, never more
    bytes than its buffer holds.  [atoi], on memory that holds these
    bytes and then one that is no digit, returns [n] when [n] is not negative, in one step per byte, and 0 when
    it is: it does not read signs. *)
Theorem printf_atoi n : - 2 ^ 31 <= n < 2 ^ 31 ->
  ∃ l, let out := (if n <? 0 then [45] else []) ++ l in
    u_printf [37; 100] [AWord n] = Some out ∧ decimal (Z.abs n) l ∧ (length out <= 11)%nat ∧
    ∀ m s, holds m s out -> (48 <=? m (s + Z.of_nat (length out))) && (m (s + Z.of_nat (length out)) <=? 57) = false ->
      u_atoi (S (length out)) s m = Some (if n <? 0 then 0 else n).
Proof.
  intros Hn. assert (Hp : u_printf [37; 100] [AWord n] = u_printint n 10 true).
  { unfold u_printf. cbn -[u_printint i32]. rewrite i32_id by done. destruct (u_printint n 10 true); [|done]. cbn. by rewrite app_nil_r. }
  rewrite Hp. clear Hp. unfold u_printint. cbn [andb]. destruct (digits_decimal (Z.abs n) ltac:(lia)) as (ds & Hd & Hl & Hdec). exists (rev ds).
  destruct (Z.ltb_spec n 0).
  - rewrite u32_id by lia. replace (- n) with (Z.abs n) by lia. rewrite Hd. cbn [mbind option_bind put_sign].
    assert ((printbuf <=? Z.of_nat (length ds)) = false) as -> by (unfold printbuf; lia). cbn [mbind option_bind]. rewrite rev_app_distr. split; [done|]. split; [done|].
    split; [cbn [app length]; rewrite length_rev; lia|]. intros m s Hm _. apply holds_cons in Hm as [Hm _]. unfold u_atoi. cbn [u_atoi_loop]. by rewrite Hm.
  - rewrite u32_id by lia. replace n with (Z.abs n) at 1 by lia. rewrite Hd. cbn [mbind option_bind put_sign app]. split; [done|]. split; [done|].
    split; [rewrite length_rev; lia|]. intros m s Hm Ht. replace n with (Z.abs n) by lia. apply atoi_decimal; [done|lia|done|done].
Qed.

Lemma printf_equiv_witness : u_printf [97; 37; 100; 37; 37; 37; 122; 37; 115; 37] [AWord (-7); AStr None] = Some [97; 45; 55; 37; 37; 122; 40; 110; 117; 108; 108; 41].
Proof. rewrite printf_equiv by reflexivity. vm_compute. reflexivity. Defined.
Lemma printf_atoi_witness : ∃ l, u_printf [37; 100] [AWord (-407)] = Some (45 :: l) ∧ decimal 407 l ∧
  u_atoi (S (S (length l))) 100 (fun a => nth (Z.to_nat (a - 100)) (45 :: l) 0) = Some 0.
Proof.
  destruct (printf_atoi (-407) ltac:(lia)) as (l & H1 & H2 & _ & H3). exists l. split; [exact H1|]. split; [exact H2|]. apply H3.
  - intros i c Hi. replace (100 + Z.of_nat i - 100) with (Z.of_nat i) by lia. rewrite Nat2Z.id. by apply nth_lookup_Some.
  - vm_compute in H1. injection H1 as <-. reflexivity.
Defined.
Lemma printf_int_min : u_printf [37; 100] [AWord (- 2 ^ 31)] = Some [45; 50; 49; 52; 55; 52; 56; 51; 54; 52; 56].
Proof. vm_compute. reflexivity. Qed.
(** [%x] of a negative number has a sign in the kernel and none in the library. *)
Lemma printf_hex_differs : k_printf [37; 120] [AWord (-1)] = Some [45; 49] ∧ u_printf [37; 120] [AWord (-1)] = Some (repeat 70 8).
Proof. vm_compute. by split. Qed.
