(* ===== verification/Virtio.v ===== *)
(** * Virtio: kernel/virtio_disk.c and kernel/virtio.h

    The driver's side of the virtio queue: descriptors, the two rings, and the
    bookkeeping of requests in flight.  [virtio_disk_rw] and [virtio_disk_intr] hold
    [vdisk_lock] except while they sleep; the device works whenever it likes.  A call
    is therefore cut into the pieces between which something else may happen: where
    it sleeps, and at the memory barriers, after which the device may look.

    Two registers of the device tell the other side that there is something to do, and
    are part of the state: a store to QUEUE_NOTIFY makes the device look at the
    available ring, and bit 0 of INTERRUPT_STATUS says that it has put something into
    the used ring.  The device interrupts when the bit becomes set; as long as the
    driver has not cleared it with INTERRUPT_ACK there is no further interrupt.

    Where the code stores the address of an object the model stores which object
    it is: [AOps i] for [&disk.ops[i]], [AStatus i] for [&disk.info[i].status],
    [AData b] for the data of buffer [b]. *)

From S2P Require Import Prelude SleepLock.

(** ** virtio.h *)
Definition VIRTIO_MMIO_MAGIC_VALUE : Z := 0x000.
Definition VIRTIO_MMIO_VERSION : Z := 0x004.
Definition VIRTIO_MMIO_DEVICE_ID : Z := 0x008.
Definition VIRTIO_MMIO_VENDOR_ID : Z := 0x00c.
Definition VIRTIO_MMIO_DEVICE_FEATURES : Z := 0x010.
Definition VIRTIO_MMIO_DRIVER_FEATURES : Z := 0x020.
Definition VIRTIO_MMIO_GUEST_PAGE_SIZE : Z := 0x028.
Definition VIRTIO_MMIO_QUEUE_SEL : Z := 0x030.
Definition VIRTIO_MMIO_QUEUE_NUM_MAX : Z := 0x034.
Definition VIRTIO_MMIO_QUEUE_NUM : Z := 0x038.
Definition VIRTIO_MMIO_QUEUE_PFN : Z := 0x040.
Definition VIRTIO_MMIO_QUEUE_NOTIFY : Z := 0x050.
Definition VIRTIO_MMIO_INTERRUPT_STATUS : Z := 0x060.
Definition VIRTIO_MMIO_INTERRUPT_ACK : Z := 0x064.
Definition VIRTIO_MMIO_STATUS : Z := 0x070.
Definition VIRTIO_CONFIG_S_ACKNOWLEDGE : Z := 1.
Definition VIRTIO_CONFIG_S_DRIVER : Z := 2.
Definition VIRTIO_CONFIG_S_DRIVER_OK : Z := 4.
Definition VIRTIO_CONFIG_S_FEATURES_OK : Z := 8.
Definition VIRTIO_BLK_F_RO : Z := 5.
Definition VIRTIO_BLK_F_SCSI : Z := 7.
Definition VIRTIO_BLK_F_CONFIG_WCE : Z := 11.
Definition VIRTIO_BLK_F_MQ : Z := 12.
Definition VIRTIO_F_ANY_LAYOUT : Z := 27.
Definition VIRTIO_RING_F_INDIRECT_DESC : Z := 28.
Definition VIRTIO_RING_F_EVENT_IDX : Z := 29.
Definition NUM : Z := 8.
Definition VRING_DESC_F_NEXT : Z := 1.
Definition VRING_DESC_F_WRITE : Z := 2.
Definition VIRTIO_BLK_T_IN : Z := 0.
Definition VIRTIO_BLK_T_OUT : Z := 1.

Inductive dma_addr := ANull | AOps (i : Z) | AData (b : Z) | AStatus (i : Z).
Record virtq_desc := VirtqDesc { addr : dma_addr; len : Z; flags : Z; next : Z }.
Record virtio_blk_req := VirtioBlkReq { type : Z; reserved : Z; sector : Z }.

(** The fields of [struct buf] that the driver uses; [BSIZE] is 1024. *)
Record vbuf := VBuf { vblockno : Z; vdata : list Z; bdisk : Z }.
#[export] Instance vbuf_eta : Eta vbuf := fun r => VBuf (vblockno r) (vdata r) (bdisk r).
Definition block_size : Z := 1024.

(** Sleep channels: [&disk.free[0]] and a buffer. *)
Inductive vchan := ChFree | ChBuf (b : Z).
#[export] Instance vchan_eq_dec : EqDecision vchan.
Proof. solve_decision. Defined.

Record disk := Disk {
  desc : Z -> virtq_desc;
  avail_idx : Z;
  avail_ring : Z -> Z;
  dused_idx : Z;                    (* disk.used->idx *)
  dused_ring : Z -> Z;              (* disk.used->ring[].id *)
  dfree : Z -> Z;
  used_idx : Z;
  info_b : Z -> option Z;
  info_status : Z -> Z;
  ops : Z -> virtio_blk_req;
  vdisk_lock : bool;
  vbufs : Z -> vbuf;
  asleep : Z -> option vchan;       (* where a process sleeps *)
  notified : bool;                  (* QUEUE_NOTIFY was written, and the device has not found the ring empty since *)
  isr : Z;                          (* INTERRUPT_STATUS *)
  irq : bool                        (* an interrupt has been raised that no hart has taken *)
}.
#[export] Instance disk_eta : Eta disk := fun r =>
  Disk (desc r) (avail_idx r) (avail_ring r) (dused_idx r) (dused_ring r) (dfree r) (used_idx r) (info_b r) (info_status r)
    (ops r) (vdisk_lock r) (vbufs r) (asleep r) (notified r) (isr r) (irq r).

Definition vlock : lens disk bool := Lens vdisk_lock (fun f s => s <| vdisk_lock ::= f |>).
(** [wakeup] of proc.c, and the part of [sleep] that runs before the process is switched out. *)
Definition vwakeup (c : vchan) : M disk unit :=
  modify (fun s => s <| asleep ::= fun f p => if decide (f p = Some c) then None else f p |>).
Definition vsleep (p : Z) (c : vchan) : M disk unit :=
  release_spin vlock;;
  modify (fun s => s <| asleep ::= fun f => upd f p (Some c) |>).

(** ** Set-up *)
Definition null_desc : virtq_desc := VirtqDesc ANull 0 0 0.
Definition drop_feature (features k : Z) : Z := Z.land features (u64 (Z.lnot (Z.shiftl 1 k))).
(** [reg] is what the device's registers read as; the result is the stores to them, in
    order.  [pages] is the address of [disk.pages]. *)
Definition virtio_disk_init (reg : Z -> Z) (pages : Z) : M disk (list (Z * Z)) :=
  modify (fun s => s <| vdisk_lock := false |>);;
  if negb (reg VIRTIO_MMIO_MAGIC_VALUE =? 0x74726976) || negb (reg VIRTIO_MMIO_VERSION =? 1) ||
     negb (reg VIRTIO_MMIO_DEVICE_ID =? 2) || negb (reg VIRTIO_MMIO_VENDOR_ID =? 0x554d4551)
  then panic "could not find virtio disk" else
  let st1 := Z.lor 0 VIRTIO_CONFIG_S_ACKNOWLEDGE in
  let st2 := Z.lor st1 VIRTIO_CONFIG_S_DRIVER in
  let features := reg VIRTIO_MMIO_DEVICE_FEATURES in
  let features := foldl drop_feature features
    [VIRTIO_BLK_F_RO; VIRTIO_BLK_F_SCSI; VIRTIO_BLK_F_CONFIG_WCE; VIRTIO_BLK_F_MQ; VIRTIO_F_ANY_LAYOUT;
     VIRTIO_RING_F_EVENT_IDX; VIRTIO_RING_F_INDIRECT_DESC] in
  let st3 := Z.lor st2 VIRTIO_CONFIG_S_FEATURES_OK in
  let st4 := Z.lor st3 VIRTIO_CONFIG_S_DRIVER_OK in
  let max := reg VIRTIO_MMIO_QUEUE_NUM_MAX in
  if max =? 0 then panic "virtio disk has no queue 0" else
  if max <? NUM then panic "virtio disk max queue too short" else
  modify (fun s => s <| desc := fun _ => null_desc |> <| avail_idx := 0 |> <| avail_ring := fun _ => 0 |>
    <| dused_idx := 0 |> <| dused_ring := fun _ => 0 |>);;
  for_each (seqZ 0 NUM) (fun i => modify (fun s => s <| dfree ::= fun f => upd f i 1 |>));;
  mret [(VIRTIO_MMIO_STATUS, st1); (VIRTIO_MMIO_STATUS, st2); (VIRTIO_MMIO_DRIVER_FEATURES, u32 features);
        (VIRTIO_MMIO_STATUS, st3); (VIRTIO_MMIO_STATUS, st4); (VIRTIO_MMIO_GUEST_PAGE_SIZE, 4096);
        (VIRTIO_MMIO_QUEUE_SEL, 0); (VIRTIO_MMIO_QUEUE_NUM, NUM); (VIRTIO_MMIO_QUEUE_PFN, u32 (Z.shiftr pages 12))].

(** ** Descriptors *)
Definition alloc_desc : M disk Z :=
  r ← for_return (seqZ 0 NUM) (fun i =>
    s ← gets id;
    if negb (dfree s i =? 0) then
      modify (fun s => s <| dfree ::= fun f => upd f i 0 |>);;
      mret (Some i)
    else mret None);
  mret (default (-1) r).

Definition free_desc (i : Z) : M disk unit :=
  if NUM <=? i then panic "free_desc 1" else
  if i <? 0 then out_of_bounds else
  s ← gets id;
  if negb (dfree s i =? 0) then panic "free_desc 2" else
  modify (fun s => s <| desc ::= fun f => upd f i null_desc |>);;
  modify (fun s => s <| dfree ::= fun f => upd f i 1 |>);;
  vwakeup ChFree.

(** A chain has at most [NUM] descriptors. *)
Fixpoint free_chain_loop (fuel : nat) (i : Z) : M disk unit :=
  match fuel with
  | O => no_fuel
  | S fuel' =>
      d ← gets (fun s => desc s i);
      free_desc i;;
      if negb (Z.land (flags d) VRING_DESC_F_NEXT =? 0) then free_chain_loop fuel' (next d) else mret tt
  end.
Definition free_chain (i : Z) : M disk unit := free_chain_loop (Z.to_nat NUM) i.

Fixpoint alloc3_loop (n : nat) (idx : list Z) : M disk (option (list Z)) :=
  match n with
  | O => mret (Some idx)
  | S n' =>
      i ← alloc_desc;
      if i <? 0 then
        for_each idx free_desc;;
        mret None
      else alloc3_loop n' (idx ++ [i])
  end.
Definition alloc3_desc : M disk (option (list Z)) := alloc3_loop 3 [].

(** ** Requests *)
Definition set_desc (i : Z) (d : virtq_desc) : M disk unit := modify (fun s => s <| desc ::= fun f => upd f i d |>).
Definition sector_of (b : vbuf) : Z := u32 (vblockno b * (block_size / 512)).

Definition format_request (b : Z) (write : bool) (sec i0 i1 i2 : Z) : M disk unit :=
  modify (fun s => s <| ops ::= fun f => upd f i0 (VirtioBlkReq (if write then VIRTIO_BLK_T_OUT else VIRTIO_BLK_T_IN) 0 sec) |>);;
  set_desc i0 (VirtqDesc (AOps i0) 16 VRING_DESC_F_NEXT i1);;
  set_desc i1 (VirtqDesc (AData b) block_size (Z.lor (if write then 0 else VRING_DESC_F_WRITE) VRING_DESC_F_NEXT) i2);;
  modify (fun s => s <| info_status ::= fun f => upd f i0 0xff |>);;
  set_desc i2 (VirtqDesc (AStatus i0) 1 VRING_DESC_F_WRITE 0);;
  modify (fun s => s <| vbufs ::= fun f => upd f b ((f b) <| bdisk := 1 |>) |>);;
  modify (fun s => s <| info_b ::= fun f => upd f i0 (Some b) |>);;
  modify (fun s => s <| avail_ring ::= fun f => upd f (avail_idx s mod NUM) i0 |>).

(** [virtio_disk_rw] by process [p], up to the first barrier: [None] when it went to
    sleep for lack of descriptors, and then it starts here again. *)
Definition rw_alloc (p b : Z) (write : bool) (sec : Z) : M disk (option (Z * Z * Z)) :=
  acquire_spin vlock;;
  r ← alloc3_desc;
  match r with
  | Some [i0; i1; i2] =>
      format_request b write sec i0 i1 i2;;
      mret (Some (i0, i1, i2))
  | _ =>
      vsleep p ChFree;;
      mret None
  end.
(** The loop that waits for [virtio_disk_intr], with the lock held, and the end of the
    call; [false] when it went to sleep. *)
Definition rw_wait (p b i0 : Z) : M disk bool :=
  s ← gets id;
  if bdisk (vbufs s b) =? 1 then
    vsleep p (ChBuf b);;
    mret false
  else
    modify (fun s => s <| info_b ::= fun f => upd f i0 None |>);;
    free_chain i0;;
    release_spin vlock;;
    mret true.
(** Between the barriers. *)
Definition rw_publish : M disk unit := modify (fun s => s <| avail_idx := u16 (avail_idx s + 1) |>).
(** A store to a register, as far as the device acts on it. *)
Definition write_reg (r v : Z) : M disk unit :=
  if r =? VIRTIO_MMIO_QUEUE_NOTIFY then modify (fun s => s <| notified := true |>)
  else if r =? VIRTIO_MMIO_INTERRUPT_ACK then modify (fun s => s <| isr ::= fun x => Z.land x (Z.lnot v) |>)
  else mret tt.
(** From the second barrier: the store to QUEUE_NOTIFY, and the wait. *)
Definition rw_notify (p b i0 : Z) : M disk bool :=
  write_reg VIRTIO_MMIO_QUEUE_NOTIFY 0;;
  rw_wait p b i0.
(** After it was woken. *)
Definition rw_again (p b i0 : Z) : M disk bool :=
  acquire_spin vlock;;
  rw_wait p b i0.

(** ** Interrupts *)
(** Up to the barrier: the interrupt is acknowledged. *)
Definition intr_enter : M disk unit :=
  acquire_spin vlock;;
  s ← gets id;
  write_reg VIRTIO_MMIO_INTERRUPT_ACK (Z.land (isr s) 3).
(** One round of the loop; [false] when the loop has ended and the lock is released. *)
Definition intr_round : M disk bool :=
  s ← gets id;
  if used_idx s =? dused_idx s then
    release_spin vlock;;
    mret false
  else
    let id := dused_ring s (used_idx s mod NUM) in
    if (id <? 0) || (NUM <=? id) then out_of_bounds else
    if negb (info_status s id =? 0) then panic "virtio_disk_intr status" else
    match info_b s id with
    | None => out_of_bounds
    | Some b =>
        modify (fun s => s <| vbufs ::= fun f => upd f b ((f b) <| bdisk := 0 |>) |>);;
        vwakeup (ChBuf b);;
        modify (fun s => s <| used_idx := u16 (used_idx s + 1) |>);;
        mret true
    end.
Fixpoint intr_loop (fuel : nat) : M disk unit :=
  match fuel with
  | O => no_fuel
  | S fuel' => more ← intr_round; if (more : bool) then intr_loop fuel' else mret tt
  end.
(** The whole handler; the used ring holds at most [NUM] entries when the device is quiet. *)
Definition virtio_disk_intr : M disk unit :=
  intr_enter;;
  intr_loop (S (Z.to_nat NUM)).
