(* ===== verification/VirtioSys.v ===== *)
(** * VirtioSys: the driver, its callers and the device

    The device is a parameter: [Device] says what the virtio specification (section 2.6
    for the queue, 5.2 for block requests) makes the driver rely on.  The step
    relation interleaves processes that call [virtio_disk_rw], the interrupt
    handler and the device; [astep] is the disk that the callers see, where a
    request is carried out at once at some moment between its call and its return. *)

From S2P Require Import Prelude SleepLock Virtio.

(** ** What the device reads and writes *)
Definition read_bytes (f : Z -> Z) (a n : Z) : list Z := f <$> seqZ a n.
Definition write_bytes (f : Z -> Z) (a : Z) (l : list Z) : Z -> Z :=
  fun x => if (a <=? x) && (x <? a + Z.of_nat (length l)) then nth (Z.to_nat (x - a)) l 0 else f x.

Record request := Request { rq_write : bool; rq_sector : Z; rq_len : Z; rq_buf : Z; rq_status : Z }.
Definition has (fl bit : Z) : bool := negb (Z.land fl bit =? 0).
(** The request of a chain: a header the device reads, a buffer it reads or writes as
    the header says, and a status byte it writes. *)
Definition request_at (s : disk) (h : Z) : option request :=
  let d0 := desc s h in
  let d1 := desc s (next d0) in
  let d2 := desc s (next d1) in
  match addr d0, addr d1, addr d2 with
  | AOps i, AData b, AStatus j =>
      let r := ops s i in
      let write := type r =? VIRTIO_BLK_T_OUT in
      if has (flags d0) VRING_DESC_F_NEXT && negb (has (flags d0) VRING_DESC_F_WRITE) && (len d0 =? 16) &&
         has (flags d1) VRING_DESC_F_NEXT && Bool.eqb (has (flags d1) VRING_DESC_F_WRITE) (negb write) &&
         negb (has (flags d2) VRING_DESC_F_NEXT) && has (flags d2) VRING_DESC_F_WRITE && (len d2 =? 1) &&
         (write || (type r =? VIRTIO_BLK_T_IN))
      then Some (Request write (sector r) (len d1) b j)
      else None
  | _, _, _ => None
  end.

Definition put_data (b : Z) (l : list Z) (s : disk) : disk := s <| vbufs ::= fun f => upd f b ((f b) <| vdata := l |>) |>.
Definition put_status (j st : Z) (s : disk) : disk := s <| info_status ::= fun f => upd f j st |>.
Definition push_used (h : Z) (s : disk) : disk :=
  s <| dused_ring ::= fun f => upd f (dused_idx s mod NUM) h |> <| dused_idx := u16 (dused_idx s + 1) |>.

(** The outcome of a transfer: [p'] and [l'] are the medium and the buffer afterwards.  With
    status 0 it is what was asked for; otherwise the target may hold anything. *)
Definition transferred (r : request) (st : Z) (p : Z -> Z) (l : list Z) (p' : Z -> Z) (l' : list Z) : Prop :=
  let a := 512 * rq_sector r in
  if rq_write r then
    l' = l ∧ ∃ w, length w = length (take (Z.to_nat (rq_len r)) l) ∧ p' = write_bytes p a w ∧ (st = 0 -> w = take (Z.to_nat (rq_len r)) l)
  else
    p' = p ∧ length l' = length l ∧ (st = 0 -> l' = read_bytes p a (rq_len r) ++ drop (Z.to_nat (rq_len r)) l).

Class Device (D : Type) := {
  medium : D -> Z -> Z;             (* the bytes of the disk *)
  last_avail : D -> Z;              (* how far the device has looked in the available ring *)
  pending : D -> list Z;            (* the chains it has taken and not finished *)
  dev_step : D -> disk -> D -> disk -> Prop
}.

(** The device sets bit 0 of INTERRUPT_STATUS, and interrupts if it was not set. *)
Definition raise (s : disk) : disk :=
  s <| irq := if isr s =? 0 then true else irq s |> <| isr ::= fun x => Z.lor x 1 |>.

(** The device takes the next available chain; it may look there at any time. *)
Definition took `{Device D} (d : D) (s : disk) (d' : D) (s' : disk) : Prop :=
  last_avail d ≠ avail_idx s ∧ s' = s ∧ medium d' = medium d ∧
  last_avail d' = u16 (last_avail d + 1) ∧ pending d' = pending d ++ [avail_ring s (last_avail d mod NUM)].
(** It finishes a chain, in any order, puts it into the used ring and tells the driver. *)
Definition finished `{Device D} (d : D) (s : disk) (d' : D) (s' : disk) : Prop :=
  ∃ h r st l', pending d ≡ₚ h :: pending d' ∧ last_avail d' = last_avail d ∧ request_at s h = Some r ∧ 0 <= st < 256 ∧
    transferred r st (medium d) (vdata (vbufs s (rq_buf r))) (medium d') l' ∧
    s' = raise (push_used h (put_status (rq_status r) st (put_data (rq_buf r) l' s))).
(** Having found no chain that it has not taken it rests, until it is notified again. *)
Definition rested `{Device D} (d : D) (s : disk) (d' : D) (s' : disk) : Prop :=
  last_avail d = avail_idx s ∧ d' = d ∧ s' = s <| notified := false |>.
(** What is available or taken are well-formed chains. *)
Definition readable `{Device D} (d : D) (s : disk) : Prop := ∀ h, h ∈ pending d -> request_at s h ≠ None.

(** The specification of the device, for drivers that give it well-formed chains only. *)
Class DeviceSpec (D : Type) `{Device D} : Prop :=
  device_spec : ∀ d s d' s', readable d s -> dev_step d s d' s' -> took d s d' s' ∨ finished d s d' s' ∨ rested d s d' s'.

(** ** The system *)
Inductive vpc :=
  | VIdle
  | VAlloc (b : Z) (write : bool) (sec : Z)
  | VPublish (b : Z) (write : bool) (i0 i1 i2 : Z)
  (** The chain is in the available ring; [told] says whether the device has been notified. *)
  | VWait (b : Z) (write : bool) (i0 i1 i2 : Z) (told : bool).
Definition pc_buf (c : vpc) : option Z :=
  match c with VIdle => None | VAlloc b _ _ => Some b | VPublish b _ _ _ _ => Some b | VWait b _ _ _ _ _ => Some b end.

Record vconfig (D : Type) := VConfig { dk : disk; dev : D; pcs : Z -> vpc; in_intr : bool }.
Arguments VConfig {D}.
Arguments dk {D}.
Arguments dev {D}.
Arguments pcs {D}.
Arguments in_intr {D}.
#[export] Instance vconfig_eta D : Eta (vconfig D) := fun r => VConfig (dk r) (dev r) (pcs r) (in_intr r).

(** What the callers see of a step. *)
Inductive vlabel :=
  | Tau
  | ECall (p b : Z) (write : bool)
  | EReturn (p b : Z) (data : list Z)
  | EEdit (b n : Z) (data : list Z).

(** A number whose sectors are counted in 32 bits. *)
Definition block_ok (n : Z) : Prop := 0 <= n < 2 ^ 31.

Section system.
Context {D : Type} `{Device D}.
Implicit Types c : vconfig D.

Inductive vstep : vlabel -> vconfig D -> vconfig D -> Prop :=
  (** A process calls with a buffer that it holds the lock of: nobody else has it. *)
  | vs_call c p b w : pcs c p = VIdle -> (∀ q, pc_buf (pcs c q) ≠ Some b) -> block_ok (vblockno (vbufs (dk c) b)) ->
      vstep (ECall p b w) c (c <| pcs ::= fun f => upd f p (VAlloc b w (sector_of (vbufs (dk c) b))) |>)
  (** A buffer that is not part of a request changes. *)
  | vs_edit c b n l : (∀ q, pc_buf (pcs c q) ≠ Some b) -> Z.of_nat (length l) = block_size ->
      vstep (EEdit b n l) c (c <| dk ::= fun s => s <| vbufs ::= fun f => upd f b ((f b) <| vblockno := n |> <| vdata := l |>) |> |>)
  | vs_alloc c p b w sec r s' : pcs c p = VAlloc b w sec -> asleep (dk c) p = None -> rw_alloc p b w sec (dk c) = Ok r s' ->
      vstep Tau c (c <| dk := s' |> <| pcs ::= fun f => match r with Some (i0, i1, i2) => upd f p (VPublish b w i0 i1 i2) | None => f end |>)
  | vs_publish c p b w i0 i1 i2 s' : pcs c p = VPublish b w i0 i1 i2 -> rw_publish (dk c) = Ok tt s' ->
      vstep Tau c (c <| dk := s' |> <| pcs ::= fun f => upd f p (VWait b w i0 i1 i2 false) |>)
  | vs_notify_sleep c p b w i0 i1 i2 s' : pcs c p = VWait b w i0 i1 i2 false -> rw_notify p b i0 (dk c) = Ok false s' ->
      vstep Tau c (c <| dk := s' |> <| pcs ::= fun f => upd f p (VWait b w i0 i1 i2 true) |>)
  | vs_notify_done c p b w i0 i1 i2 s' : pcs c p = VWait b w i0 i1 i2 false -> rw_notify p b i0 (dk c) = Ok true s' ->
      vstep (EReturn p b (vdata (vbufs s' b))) c (c <| dk := s' |> <| pcs ::= fun f => upd f p VIdle |>)
  | vs_again_sleep c p b w i0 i1 i2 s' : pcs c p = VWait b w i0 i1 i2 true -> asleep (dk c) p = None -> rw_again p b i0 (dk c) = Ok false s' ->
      vstep Tau c (c <| dk := s' |>)
  | vs_again_done c p b w i0 i1 i2 s' : pcs c p = VWait b w i0 i1 i2 true -> asleep (dk c) p = None -> rw_again p b i0 (dk c) = Ok true s' ->
      vstep (EReturn p b (vdata (vbufs s' b))) c (c <| dk := s' |> <| pcs ::= fun f => upd f p VIdle |>)
  (** A hart takes the interrupt, if there is one, and enters the handler. *)
  | vs_intr c s' : in_intr c = false -> intr_enter ((dk c) <| irq := false |>) = Ok tt s' ->
      vstep Tau c (c <| dk := s' |> <| in_intr := true |>)
  | vs_intr_round c more s' : in_intr c = true -> intr_round (dk c) = Ok more s' ->
      vstep Tau c (c <| dk := s' |> <| in_intr := more |>)
  | vs_dev c d' s' : dev_step (dev c) (dk c) d' s' ->
      vstep Tau c (c <| dk := s' |> <| dev := d' |>).

(** The labels of a run, without [Tau]. *)
Inductive vrun : vconfig D -> list vlabel -> vconfig D -> Prop :=
  | vrun_nil c : vrun c [] c
  | vrun_tau c tr c' c'' : vrun c tr c' -> vstep Tau c' c'' -> vrun c tr c''
  | vrun_step c tr c' l c'' : vrun c tr c' -> vstep l c' c'' -> l ≠ Tau -> vrun c (tr ++ [l]) c''.
End system.

(** ** The disk the callers see *)
Inductive phase := Pending | Done | Failed.
Record aconfig := AConfig { ablock : Z -> list Z; abuf : Z -> Z * list Z; areq : Z -> option (Z * bool * phase) }.
#[export] Instance aconfig_eta : Eta aconfig := fun r => AConfig (ablock r) (abuf r) (areq r).
Definition req_buf (r : option (Z * bool * phase)) : option Z := match r with Some (b, _, _) => Some b | None => None end.

Inductive astep : vlabel -> aconfig -> aconfig -> Prop :=
  | as_call a p b w : areq a p = None -> (∀ q, req_buf (areq a q) ≠ Some b) -> block_ok (abuf a b).1 ->
      astep (ECall p b w) a (a <| areq ::= fun f => upd f p (Some (b, w, Pending)) |>)
  | as_edit a b n l : (∀ q, req_buf (areq a q) ≠ Some b) -> astep (EEdit b n l) a (a <| abuf ::= fun f => upd f b (n, l) |>)
  (** All of a request at once. *)
  | as_write a p b : areq a p = Some (b, true, Pending) ->
      astep Tau a (a <| ablock ::= fun f => upd f (abuf a b).1 (abuf a b).2 |> <| areq ::= fun f => upd f p (Some (b, true, Done)) |>)
  | as_read a p b : areq a p = Some (b, false, Pending) ->
      astep Tau a (a <| abuf ::= fun f => upd f b ((f b).1, ablock a (f b).1) |> <| areq ::= fun f => upd f p (Some (b, false, Done)) |>)
  (** A request that the device reports as failed: its target is lost, and it never returns. *)
  | as_write_fail a p b l : areq a p = Some (b, true, Pending) -> Z.of_nat (length l) = block_size ->
      astep Tau a (a <| ablock ::= fun f => upd f (abuf a b).1 l |> <| areq ::= fun f => upd f p (Some (b, true, Failed)) |>)
  | as_read_fail a p b l : areq a p = Some (b, false, Pending) -> Z.of_nat (length l) = block_size ->
      astep Tau a (a <| abuf ::= fun f => upd f b ((f b).1, l) |> <| areq ::= fun f => upd f p (Some (b, false, Failed)) |>)
  | as_return a p b w : areq a p = Some (b, w, Done) ->
      astep (EReturn p b (abuf a b).2) a (a <| areq ::= fun f => upd f p None |>).

Inductive arun : aconfig -> list vlabel -> aconfig -> Prop :=
  | arun_nil a : arun a [] a
  | arun_tau a tr a' a'' : arun a tr a' -> astep Tau a' a'' -> arun a tr a''
  | arun_step a tr a' l a'' : arun a tr a' -> astep l a' a'' -> l ≠ Tau -> arun a (tr ++ [l]) a''.
