(* ===== verification/VirtioInv.v ===== *)
(** * VirtioInv: the invariant of driver and device, kept by every step *)

From S2P Require Import Prelude SleepLock Virtio VirtioSys.

(** * the driver's routines, and the relation to the disk the callers see *)

(** ** Rings of free-running 16-bit indices *)
Definition queue (ring : Z -> Z) (from to : Z) (l : list Z) : Prop :=
  0 <= from < 2 ^ 16 ∧ to = u16 (from + Z.of_nat (length l)) ∧
  ∀ k h, l !! k = Some h -> ring ((from + Z.of_nat k) mod NUM) = h.

Lemma u16_mod z : u16 z mod NUM = z mod NUM.
Proof. unfold u16, NUM. apply Z.mod_mod_divide. by exists (2 ^ 13). Qed.
Lemma u16_range z : 0 <= u16 z < 2 ^ 16.
Proof. apply Z.mod_pos_bound. lia. Qed.
Lemma u16_add a b : u16 (u16 a + b) = u16 (a + b).
Proof. unfold u16. by rewrite Z.add_mod_idemp_l. Qed.
Lemma mod_slot x k n : 0 <= k < n -> n <= NUM -> (x + k) mod NUM = (x + n) mod NUM -> n = k + NUM ∨ False.
Proof. unfold NUM. intros. pose proof (Z_div_mod_eq_full (x + k) 8). pose proof (Z_div_mod_eq_full (x + n) 8). lia. Qed.
Lemma queue_write ring from to l h : queue ring from to l -> Z.of_nat (length l) < NUM -> queue (upd ring (to mod NUM) h) from to l.
Proof.
  intros (Hf & -> & Hr) Hl. split; [done|]. split; [done|]. intros k x Hk. rewrite upd_ne; [by apply Hr|]. rewrite u16_mod. intros E.
  pose proof (lookup_lt_Some _ _ _ Hk). apply mod_slot in E; lia.
Qed.
Lemma queue_bump ring from to l : queue ring from to l -> queue ring from (u16 (to + 1)) (l ++ [ring (to mod NUM)]).
Proof.
  intros (Hf & -> & Hr). split; [done|]. split; [rewrite u16_add, length_app; simpl length; f_equal; lia|].
  intros k x Hk. apply lookup_app_Some in Hk as [Hk|[Hk1 Hk2]]; [by apply Hr|]. apply list_lookup_singleton_Some in Hk2 as [Hk2 <-].
  rewrite u16_mod. f_equal. f_equal. lia.
Qed.
Lemma queue_pop ring from to h l : queue ring from to (h :: l) -> ring (from mod NUM) = h ∧ queue ring (u16 (from + 1)) to l.
Proof.
  intros (Hf & -> & Hr). split; [specialize (Hr 0%nat h eq_refl); by rewrite Z.add_0_r in Hr|]. split; [apply u16_range|].
  split; [rewrite u16_add; f_equal; simpl length; lia|]. intros k x Hk. rewrite <- (Hr (S k) x Hk).
  rewrite <- Z.add_mod_idemp_l, u16_mod, Z.add_mod_idemp_l by (unfold NUM; lia). do 2 f_equal. lia.
Qed.
Lemma queue_empty ring from to l : queue ring from to l -> Z.of_nat (length l) <= NUM -> from = to <-> l = [].
Proof.
  intros (Hf & -> & _) Hl. unfold u16, NUM in *. split; [|intros ->; simpl; rewrite Z.add_0_r, Z.mod_small by lia; done].
  destruct l as [|x l]; [done|]. intros E. exfalso. simpl length in *. pose proof (Z_div_mod_eq_full (from + Z.of_nat (S (length l))) (2 ^ 16)). lia.
Qed.
Lemma heads_bound l : NoDup l -> (∀ h, h ∈ l -> 0 <= h < NUM) -> Z.of_nat (length l) <= NUM.
Proof.
  intros Hn Hr. assert (Hs : l ⊆+ seqZ 0 NUM). { apply NoDup_submseteq; [done|]. intros x Hx. apply elem_of_seqZ. specialize (Hr x Hx). lia. }
  apply submseteq_length in Hs. rewrite length_seqZ in Hs. unfold NUM in *. lia.
Qed.

(** ** Descriptors *)
Definition slot (i : Z) : Prop := 0 <= i < NUM.
Definition wake_free (f : Z -> option vchan) : Z -> option vchan := fun p => if decide (f p = Some ChFree) then None else f p.
Definition free1 (i : Z) (s : disk) : disk :=
  s <| desc ::= fun f => upd f i null_desc |> <| dfree ::= fun f => upd f i 1 |> <| asleep ::= wake_free |>.
Definition take1 (i : Z) (s : disk) : disk := s <| dfree ::= fun f => upd f i 0 |>.
(** Fewer than three descriptors are free. *)
Definition few (f : Z -> Z) : Prop := ∀ i j k, slot i -> slot j -> slot k -> NoDup [i; j; k] -> f i = 0 ∨ f j = 0 ∨ f k = 0.

Lemma free_desc_ok i s : slot i -> dfree s i = 0 -> free_desc i s = Ok tt (free1 i s).
Proof.
  intros Hi Hf. unfold free_desc. assert ((NUM <=? i) = false) as -> by (unfold slot in Hi; lia).
  assert ((i <? 0) = false) as -> by (unfold slot in Hi; lia). unfold mbind, M_bind, gets. cbn [id]. by rewrite Hf.
Qed.
Lemma alloc_desc_ok s :
  (∃ i, slot i ∧ dfree s i ≠ 0 ∧ alloc_desc s = Ok i (take1 i s)) ∨ ((∀ i, slot i -> dfree s i = 0) ∧ alloc_desc s = Ok (-1) s).
Proof.
  unfold alloc_desc. set (body := fun i => _ : M disk (option Z)).
  assert (HF : ∀ l, (∀ i, i ∈ l -> slot i) -> (∃ i, slot i ∧ dfree s i ≠ 0 ∧ for_return l body s = Ok (Some i) (take1 i s)) ∨
    ((∀ i, i ∈ l -> dfree s i = 0) ∧ for_return l body s = Ok None s)).
  { induction l as [|i l IH]; intros Hl; [right; split; [intros i Hi; by apply elem_of_nil in Hi|done]|]. cbn [for_return].
    destruct (decide (dfree s i = 0)) as [E|E].
    - assert (Hb : body i s = Ok None s). { unfold body, mbind, M_bind, gets. cbn [id]. by rewrite E. }
      rewrite (bind_Ok _ _ _ _ _ Hb). destruct IH as [(j & H1 & H2 & H3)|[H1 H2]]; [intros j Hj; apply Hl; by right|left; by exists j|].
      right. split; [|done]. intros j [->|Hj]%elem_of_cons; auto.
    - assert (Hb : body i s = Ok (Some i) (take1 i s)).
      { unfold body, mbind, M_bind, gets. cbn [id]. destruct (Z.eqb_spec (dfree s i) 0); [done|]. reflexivity. }
      rewrite (bind_Ok _ _ _ _ _ Hb). left. exists i. split; [apply Hl; by left|]. by split. }
  destruct (HF (seqZ 0 NUM)) as [(i & H1 & H2 & H3)|[H1 H2]].
  - intros i Hi%elem_of_seqZ. unfold slot. lia.
  - left. exists i. split; [done|]. split; [done|]. by rewrite (bind_Ok _ _ _ _ _ H3).
  - right. split; [intros i Hi; apply H1, elem_of_seqZ; unfold slot in Hi; lia|]. by rewrite (bind_Ok _ _ _ _ _ H2).
Qed.

(** The state after descriptors were taken and given back. *)
Record calm (s s' : disk) : Prop := {
  calm_desc : ∀ i, slot i -> dfree s i = 0 -> desc s' i = desc s i;
  calm_free : ∀ i, slot i -> dfree s' i = 0 <-> dfree s i = 0;
  calm_asleep : asleep s' = asleep s ∨ asleep s' = wake_free (asleep s);
  calm_rest : s' = s <| desc := desc s' |> <| dfree := dfree s' |> <| asleep := asleep s' |> }.
Lemma calm_refl s : calm s s.
Proof. split; [done|done|by left|by destruct s]. Qed.
(** Descriptors that are taken while they are free and given back. *)
Lemma calm_undo s i t : dfree s i ≠ 0 -> calm (take1 i s) t -> dfree t i = 0 -> calm s (free1 i t).
Proof.
  intros Hi [H1 H2 H3 H4] Ht. split.
  - intros k Hk Hf. assert (k ≠ i) by congruence. cbn. rewrite upd_ne by done. apply H1; [done|]. cbn. by rewrite upd_ne.
  - intros k Hk. cbn. specialize (H2 k Hk). cbn in H2. unfold upd in *. case_decide; [subst; split; [done|congruence]|done].
  - right. cbn. destruct H3 as [-> | ->]; cbn; [done|]. apply functional_extensionality. intros p. unfold wake_free. by repeat case_decide.
  - rewrite H4. destruct s. reflexivity.
Qed.
Lemma take1_comm i j s : j ≠ i -> take1 j (take1 i s) = take1 i (take1 j s).
Proof. intros. destruct s. unfold take1, setter. cbn. f_equal. apply upd_comm. congruence. Qed.
Lemma alloc3_ok s :
  (∃ i j k, slot i ∧ slot j ∧ slot k ∧ NoDup [i; j; k] ∧ dfree s i ≠ 0 ∧ dfree s j ≠ 0 ∧ dfree s k ≠ 0 ∧
    alloc3_desc s = Ok (Some [i; j; k]) (take1 k (take1 j (take1 i s)))) ∨
  (∃ s', few (dfree s) ∧ calm s s' ∧ alloc3_desc s = Ok None s').
Proof.
  unfold alloc3_desc. cbn [alloc3_loop]. destruct (alloc_desc_ok s) as [(i & Hi & Fi & Ei)|[Ha Ea]].
  2: { right. exists s. split; [intros ??? ? _ _ _; auto|]. split; [apply calm_refl|]. by rewrite (bind_Ok _ _ _ _ _ Ea). }
  rewrite (bind_Ok _ _ _ _ _ Ei). assert ((i <? 0) = false) as -> by (unfold slot in Hi; lia).
  destruct (alloc_desc_ok (take1 i s)) as [(j & Hj & Fj & Ej)|[Ha Ea]].
  2: { right. exists (free1 i (take1 i s)). assert (Ht : dfree (take1 i s) i = 0) by apply upd_eq. split; [|split].
    - intros x y z Hx Hy Hz Hn%NoDup_cons. pose proof (Ha x Hx) as Hax. pose proof (Ha y Hy) as Hay. cbn in Hax, Hay. unfold upd in *. repeat case_decide; set_solver.
    - by apply calm_undo; [|apply calm_refl|].
    - rewrite (bind_Ok _ _ _ _ _ Ea). cbn [app]. change (-1 <? 0) with true. cbv iota. cbn [for_each]. unfold mbind, M_bind. by rewrite free_desc_ok. }
  rewrite (bind_Ok _ _ _ _ _ Ej). assert ((j <? 0) = false) as -> by (unfold slot in Hj; lia). cbn in Fj.
  assert (Hij : j ≠ i) by (intros ->; by rewrite upd_eq in Fj). rewrite upd_ne in Fj by done.
  destruct (alloc_desc_ok (take1 j (take1 i s))) as [(k & Hk & Fk & Ek)|[Ha Ea]].
  - left. rewrite (bind_Ok _ _ _ _ _ Ek). assert ((k <? 0) = false) as -> by (unfold slot in Hk; lia). cbn in Fk.
    assert (Hkj : k ≠ j) by (intros ->; by rewrite upd_eq in Fk). rewrite upd_ne in Fk by done.
    assert (Hki : k ≠ i) by (intros ->; by rewrite upd_eq in Fk). rewrite upd_ne in Fk by done.
    exists i, j, k. repeat (split; [done|]). split; [|done]. apply NoDup_cons; split; [set_solver|]. apply NoDup_cons; split; [set_solver|]. apply NoDup_singleton.
  - right. set (t := take1 j (take1 i s)) in *. assert (Ti : dfree t i = 0) by (cbn; rewrite upd_ne by done; apply upd_eq). assert (Tj : dfree t j = 0) by apply upd_eq.
    exists (free1 j (free1 i t)). split; [|split].
    + intros x y z Hx Hy Hz Hn. pose proof (Ha x Hx) as Hax. pose proof (Ha y Hy) as Hay. pose proof (Ha z Hz) as Haz. cbn in Hax, Hay, Haz.
      apply NoDup_cons in Hn as [Hn1 [Hn2 _]%NoDup_cons]. unfold upd in *. repeat case_decide; set_solver.
    + apply calm_undo; [done| |cbn; by rewrite upd_ne by done]. apply calm_undo; [cbn; by rewrite upd_ne| |done].
      rewrite <- take1_comm by done. apply calm_refl.
    + rewrite (bind_Ok _ _ _ _ _ Ea). cbn [app]. change (-1 <? 0) with true. cbv iota. cbn [for_each]. unfold mbind, M_bind.
      rewrite free_desc_ok by done. rewrite free_desc_ok; [done|done|cbn; by rewrite upd_ne].
Qed.

(** ** Chains *)
Definition fmt_desc1 (w : bool) : Z := Z.lor (if w then 0 else VRING_DESC_F_WRITE) VRING_DESC_F_NEXT.
Record formatted (s : disk) (b : Z) (w : bool) (i0 i1 i2 : Z) : Prop := {
  fm_0 : desc s i0 = VirtqDesc (AOps i0) 16 VRING_DESC_F_NEXT i1;
  fm_1 : desc s i1 = VirtqDesc (AData b) block_size (fmt_desc1 w) i2;
  fm_2 : desc s i2 = VirtqDesc (AStatus i0) 1 VRING_DESC_F_WRITE 0;
  fm_ops : ops s i0 = VirtioBlkReq (if w then VIRTIO_BLK_T_OUT else VIRTIO_BLK_T_IN) 0 (sector_of (vbufs s b));
  fm_info : info_b s i0 = Some b }.

(** The device reads back the request that was formatted. *)
Lemma formatted_request s b w i0 i1 i2 : formatted s b w i0 i1 i2 ->
  request_at s i0 = Some (Request w (sector_of (vbufs s b)) block_size b i0).
Proof. intros [H0 H1 H2 H3 _]. unfold request_at. rewrite H0. cbn [next addr]. rewrite H1. cbn [next addr]. rewrite H2. cbn [addr]. rewrite H3. by destruct w. Qed.

Lemma free_chain_step k i s : slot i -> dfree s i = 0 ->
  free_chain_loop (S k) i s = if negb (Z.land (flags (desc s i)) VRING_DESC_F_NEXT =? 0) then free_chain_loop k (next (desc s i)) (free1 i s) else Ok tt (free1 i s).
Proof. intros Hi Hf. cbn [free_chain_loop]. unfold mbind, M_bind, gets. rewrite free_desc_ok by done. by destruct (negb _). Qed.
Lemma free_chain_ok s b w i0 i1 i2 : formatted s b w i0 i1 i2 -> NoDup [i0; i1; i2] -> slot i0 -> slot i1 -> slot i2 ->
  dfree s i0 = 0 -> dfree s i1 = 0 -> dfree s i2 = 0 -> ∀ x, free_chain i0 (s <| info_b ::= x |>) = Ok tt (free1 i2 (free1 i1 (free1 i0 (s <| info_b ::= x |>)))).
Proof.
  intros [H0 H1 H2 _ _] Hn S0 S1 S2 F0 F1 F2 x. apply NoDup_cons in Hn as [Hn1 [Hn2 _]%NoDup_cons].
  assert (i1 ≠ i0 ∧ i2 ≠ i0 ∧ i2 ≠ i1) as (N1 & N2 & N3) by set_solver. set (t := s <| info_b ::= x |>).
  assert (D1 : desc (free1 i0 t) i1 = desc s i1) by (cbn; by rewrite upd_ne).
  assert (D2 : desc (free1 i1 (free1 i0 t)) i2 = desc s i2) by (cbn; by rewrite !upd_ne).
  unfold free_chain. change (Z.to_nat NUM) with 8%nat. rewrite free_chain_step by done.
  change (desc t i0) with (desc s i0). rewrite H0. cbn [flags next]. change (negb (Z.land VRING_DESC_F_NEXT VRING_DESC_F_NEXT =? 0)) with true. cbv iota.
  rewrite free_chain_step by (done || (cbn; by rewrite upd_ne)). rewrite D1, H1. cbn [flags next].
  assert (negb (Z.land (fmt_desc1 w) VRING_DESC_F_NEXT =? 0) = true) as -> by (by destruct w). cbv iota.
  rewrite free_chain_step by (done || (cbn; by rewrite !upd_ne)). rewrite D2, H2. reflexivity.
Qed.

(** ** What a process's place in the code says about the state *)
Definition chain_idx (x : vpc) : list Z :=
  match x with VPublish _ _ i j k => [i; j; k] | VWait _ _ i j k _ => [i; j; k] | _ => [] end.
Definition own_chain (s : disk) (b : Z) (w : bool) (i j k : Z) : Prop :=
  formatted s b w i j k ∧ NoDup [i; j; k] ∧ ∀ n, n ∈ [i; j; k] -> slot n ∧ dfree s n = 0.
Definition place_ok (s : disk) (x : vpc) : Prop :=
  match x with
  | VIdle => True
  | VAlloc b w sec => sec = sector_of (vbufs s b)
  | VPublish b w i j k => own_chain s b w i j k ∧ bdisk (vbufs s b) = 1 ∧ avail_ring s (avail_idx s mod NUM) = i
  | VWait b w i j k told => own_chain s b w i j k ∧ (told = true ∧ bdisk (vbufs s b) = 0 ∨ bdisk (vbufs s b) = 1)
  end.
(** The caller is between the barriers or has not notified the device yet: it holds the lock. *)
Definition is_notify (x : vpc) : Prop := match x with VPublish _ _ _ _ _ | VWait _ _ _ _ _ false => True | _ => False end.
(** The request with head [h] is somewhere between the driver's two ends of the queue. *)
Definition queued (s : disk) (h : Z) (x : vpc) : Prop :=
  match x with VWait b _ i _ _ _ => i = h ∧ bdisk (vbufs s b) = 1 | _ => False end.
Definition sleep_ok (s : disk) (x : vpc) (o : option vchan) : Prop :=
  match o with
  | None => True
  | Some c =>
      match x with
      | VAlloc _ _ _ => c = ChFree ∧ few (dfree s)
      | VWait b _ _ _ _ told => c = ChBuf b ∧ bdisk (vbufs s b) = 1 ∧ told = true
      | _ => False
      end
  end.
Definition phase_of (U : list Z) (s : disk) (b i : Z) : phase :=
  if bdisk (vbufs s b) =? 0 then Done
  else if decide (i ∈ U) then (if info_status s i =? 0 then Done else Failed)
  else Pending.
Definition req_of (U : list Z) (s : disk) (x : vpc) : option (Z * bool * phase) :=
  match x with
  | VIdle => None
  | VAlloc b w _ => Some (b, w, Pending)
  | VPublish b w _ _ _ => Some (b, w, Pending)
  | VWait b w i _ _ _ => Some (b, w, phase_of U s b i)
  end.

(** [A] are the chains the device has not taken yet, [U] those it has finished and the
    interrupt handler has not seen. *)
Record vrel `{Device D} (A U : list Z) (s : disk) (d : D) (pc : Z -> vpc) (ii : bool) (a : aconfig) : Prop := {
  r_place : ∀ p, place_ok s (pc p);
  r_disj : ∀ p q i, p ≠ q -> i ∈ chain_idx (pc p) -> i ∉ chain_idx (pc q);
  r_leak : ∀ i, slot i -> dfree s i = 0 -> ∃ p, i ∈ chain_idx (pc p);
  r_share : ∀ p q b, pc_buf (pc p) = Some b -> pc_buf (pc q) = Some b -> p = q;
  r_valid : ∀ p b, pc_buf (pc p) = Some b -> block_ok (vblockno (vbufs s b));
  r_avail : queue (avail_ring s) (last_avail d) (avail_idx s) A;
  r_used : queue (dused_ring s) (used_idx s) (dused_idx s) U;
  r_nodup : NoDup (A ++ pending d ++ U);
  r_queued : ∀ h, h ∈ A ++ pending d ++ U <-> ∃ p, queued s h (pc p);
  r_lock : vdisk_lock s = true <-> ii = true ∨ ∃ p, is_notify (pc p);
  r_mutex : ∀ p q, is_notify (pc p) -> ii = false ∧ (is_notify (pc q) -> p = q);
  r_sleep : ∀ p, sleep_ok s (pc p) (asleep s p);
  r_len : ∀ b, Z.of_nat (length (vdata (vbufs s b))) = block_size;
  r_block : ∀ n, block_ok n -> ablock a n = read_bytes (medium d) (block_size * n) block_size;
  r_buf : ∀ b, abuf a b = (vblockno (vbufs s b), vdata (vbufs s b));
  r_req : ∀ p, areq a p = req_of U s (pc p)
}.

Section rel.
Context `{Device D}.
Implicit Types (A U : list Z) (s : disk) (d : D) (pc : Z -> vpc).

Lemma r_heads A U s d pc ii a h : vrel A U s d pc ii a -> h ∈ A ++ pending d ++ U -> slot h.
Proof.
  intros R [p Hp]%(r_queued _ _ _ _ _ _ _ R). pose proof (r_place _ _ _ _ _ _ _ R p) as Hc. destruct (pc p); try done.
  destruct Hp as [<- _]. destruct Hc as [(_ & _ & Hs) _]. apply Hs. by left.
Qed.
Lemma r_bound A U s d pc ii a : vrel A U s d pc ii a -> Z.of_nat (length (A ++ pending d ++ U)) <= NUM.
Proof. intros R. apply heads_bound; [apply R|]. intros h Hh. by eapply r_heads in Hh. Qed.
(** A chain being submitted is not in the queue yet, so there is room for it. *)
Lemma r_room A U s d pc ii a p b w i j k : vrel A U s d pc ii a -> pc p = VPublish b w i j k -> i ∉ A ++ pending d ++ U ∧ Z.of_nat (length (A ++ pending d ++ U)) < NUM.
Proof.
  intros R Hp. pose proof (r_place _ _ _ _ _ _ _ R p) as Hc. rewrite Hp in Hc. destruct Hc as [(_ & _ & Hs) _].
  assert (Hi : i ∉ A ++ pending d ++ U).
  { intros [q Hq]%(r_queued _ _ _ _ _ _ _ R). destruct (pc q) eqn:E; try done. destruct Hq as [-> _].
    eapply (r_disj _ _ _ _ _ _ _ R p q i); [intros ->; congruence|rewrite Hp; by left|rewrite E; by left]. }
  split; [done|]. assert (Z.of_nat (length (i :: A ++ pending d ++ U)) <= NUM); [|simpl in *; lia].
  apply heads_bound; [apply NoDup_cons; split; [done|apply R]|]. intros h [->|Hh]%elem_of_cons; [apply Hs; by left|by eapply r_heads in Hh].
Qed.

(** Taking and giving back descriptors matters to nobody. *)
Lemma rel_calm A U s s' d pc ii a : vrel A U s d pc ii a -> calm s s' -> vrel A U s' d pc ii a.
Proof.
  intros R [C1 C2 C3 C4]. set (x := desc s') in *. set (y := dfree s') in *. set (z := asleep s') in *. clearbody x y z. subst s'.
  assert (Hch : ∀ b w i j k, own_chain s b w i j k -> own_chain (s <| desc := x |> <| dfree := y |> <| asleep := z |>) b w i j k).
  { intros b w i j k ([F0 F1 F2 F3 F4] & Hn & Hs). split; [|split; [done|]].
    - split; cbn; [rewrite C1|rewrite C1|rewrite C1|done|done]; try done; apply Hs; set_solver.
    - intros n Hin. cbn. destruct (Hs n Hin). split; [done|]. by apply C2. }
  destruct R. split; try done.
  - intros p. specialize (r_place0 p). destruct (pc p); cbn in *; try done; naive_solver.
  - intros i Hi Hf. cbn in Hf. apply r_leak0; [done|]. by apply C2.
  - intros p. specialize (r_sleep0 p). cbn. assert (Hfew : few (dfree s) -> few y).
    { intros Hfew i j k Hi Hj Hk Hn. rewrite (C2 i Hi), (C2 j Hj), (C2 k Hk). by apply Hfew. }
    destruct C3 as [-> | ->]; unfold wake_free; [|case_decide; [done|]]; destruct (asleep s p) as [ch|]; try done; destruct (pc p); cbn in *; naive_solver.
Qed.

Lemma own_chain_frame s s' b w i j k : own_chain s b w i j k -> (∀ n, n ∈ [i; j; k] -> desc s' n = desc s n ∧ dfree s' n = dfree s n) ->
  ops s' i = ops s i -> info_b s' i = info_b s i -> vblockno (vbufs s' b) = vblockno (vbufs s b) -> own_chain s' b w i j k.
Proof.
  intros ([F0 F1 F2 F3 F4] & Hn & Hs) Hd Ho Hi Hv. split; [|split; [done|]].
  - split; [destruct (Hd i) as [-> _]|destruct (Hd j) as [-> _]|destruct (Hd k) as [-> _]|rewrite Ho; unfold sector_of; by rewrite Hv|by rewrite Hi]; first [done|set_solver].
  - intros n Hin. destruct (Hs n Hin). destruct (Hd n Hin) as [_ ->]. done.
Qed.

Lemma rel_call A U s d pc ii a p b w : vrel A U s d pc ii a -> pc p = VIdle -> (∀ q, pc_buf (pc q) ≠ Some b) -> block_ok (vblockno (vbufs s b)) ->
  vrel A U s d (upd pc p (VAlloc b w (sector_of (vbufs s b)))) ii (a <| areq ::= fun f => upd f p (Some (b, w, Pending)) |>).
Proof.
  intros R Hp Hb Hok. destruct R. split; try done.
  - intros q. unfold upd. case_decide; [done|apply r_place0].
  - intros q r i. unfold upd. repeat case_decide; subst; try (intros _ Hi; by apply elem_of_nil in Hi); try (intros _ _; apply not_elem_of_nil). apply r_disj0.
  - intros i Hi Hf. destruct (r_leak0 i Hi Hf) as [q Hq]. exists q. rewrite upd_ne; [done|]. intros ->. rewrite Hp in Hq. by apply elem_of_nil in Hq.
  - intros q r b'. unfold upd. repeat case_decide; cbn; subst; intros Hx Hy; simplify_eq; try done; [by apply Hb in Hy|by apply Hb in Hx|by eapply r_share0].
  - intros q b'. unfold upd. case_decide; cbn; [by intros [= <-]|apply r_valid0].
  - intros h. rewrite r_queued0. split; intros [q Hq]; exists q; (destruct (decide (q = p)) as [->|]; [|by rewrite upd_ne in *]); [by rewrite Hp in Hq|by rewrite upd_eq in Hq].
  - rewrite r_lock0. split; (intros [?|[q Hq]]; [by left|right; exists q]); (destruct (decide (q = p)) as [->|]; [|by rewrite upd_ne in *]); [by rewrite Hp in Hq|by rewrite upd_eq in Hq].
  - intros q r. unfold upd. repeat case_decide; subst; cbn; try done; [|apply r_mutex0]. intros Hq. split; [by apply (r_mutex0 q q)|done].
  - intros q. specialize (r_sleep0 q). unfold upd. case_decide; [subst|done]. rewrite Hp in r_sleep0. by destruct (asleep s p).
  - intros q. cbn. unfold upd. case_decide; [by subst|done].
Qed.
Lemma rel_edit A U s d pc ii a b n l : vrel A U s d pc ii a -> (∀ q, pc_buf (pc q) ≠ Some b) -> Z.of_nat (length l) = block_size ->
  vrel A U (s <| vbufs ::= fun f => upd f b ((f b) <| vblockno := n |> <| vdata := l |>) |>) d pc ii (a <| abuf ::= fun f => upd f b (n, l) |>).
Proof.
  intros R Hb Hl. assert (Hbd : ∀ x, bdisk (upd (vbufs s) b ((vbufs s b) <| vblockno := n |> <| vdata := l |>) x) = bdisk (vbufs s x)) by (intros x; unfold upd; by case_decide; subst).
  assert (Hne : ∀ q x, pc_buf (pc q) = Some x -> upd (vbufs s) b ((vbufs s b) <| vblockno := n |> <| vdata := l |>) x = vbufs s x).
  { intros q x Hx. apply upd_ne. intros ->. by apply Hb in Hx. }
  destruct R. split; try done.
  - intros q. specialize (r_place0 q). pose proof (Hne q) as Hq. destruct (pc q); cbn in *; rewrite ?Hbd; try done.
    + by rewrite (Hq b0).
    + destruct r_place0 as [Hc ?]. split; [|done]. eapply own_chain_frame; try done. cbn. by rewrite (Hq b0).
    + destruct r_place0 as [Hc ?]. split; [|done]. eapply own_chain_frame; try done. cbn. by rewrite (Hq b0).
  - intros q x Hx. cbn. rewrite (Hne q x Hx). by eapply r_valid0.
  - intros h. rewrite r_queued0. split; intros [q Hq]; exists q; destruct (pc q); cbn in *; by rewrite ?Hbd in *.
  - intros q. specialize (r_sleep0 q). cbn. destruct (asleep s q); [|done]. destruct (pc q); cbn in *; by rewrite ?Hbd.
  - intros x. cbn. unfold upd. by case_decide.
  - intros x. cbn. unfold upd. by case_decide.
  - intros q. cbn. rewrite r_req0. destruct (pc q); cbn; try done. unfold phase_of. cbn. by rewrite Hbd.
Qed.

Lemma place_frame s s' x : desc s' = desc s -> dfree s' = dfree s -> ops s' = ops s -> info_b s' = info_b s ->
  vbufs s' = vbufs s -> avail_ring s' = avail_ring s -> avail_idx s' = avail_idx s -> place_ok s x -> place_ok s' x.
Proof.
  intros Hd Hf Ho Hi Hb Hr Hx. assert (Hc : ∀ b w i j k, own_chain s b w i j k -> own_chain s' b w i j k).
  { intros b w i j k Hc. eapply own_chain_frame; [done| |congruence..]. intros n _. split; congruence. }
  destruct x; cbn; rewrite ?Hb, ?Hr, ?Hx; naive_solver.
Qed.
Lemma rel_sleep A U s d pc ii a p ch : vrel A U s d pc ii a -> sleep_ok s (pc p) (Some ch) ->
  vrel A U (s <| asleep ::= fun f => upd f p (Some ch) |>) d pc ii a.
Proof.
  intros R Hs. destruct R. split; try done.
  - intros q. apply (place_frame s); [done..|apply r_place0].
  - intros q. specialize (r_sleep0 q). cbn -[upd sleep_ok]. destruct (decide (q = p)) as [->|]; [by rewrite upd_eq|by rewrite upd_ne].
Qed.

(** The state after three free descriptors were made into a request. *)
Definition submitted (b : Z) (w : bool) (i j k : Z) (s : disk) : disk :=
  s <| dfree ::= fun f => upd (upd (upd f i 0) j 0) k 0 |>
    <| ops ::= fun f => upd f i (VirtioBlkReq (if w then VIRTIO_BLK_T_OUT else VIRTIO_BLK_T_IN) 0 (sector_of (vbufs s b))) |>
    <| desc ::= fun f => upd (upd (upd f i (VirtqDesc (AOps i) 16 VRING_DESC_F_NEXT j)) j (VirtqDesc (AData b) block_size (fmt_desc1 w) k)) k
         (VirtqDesc (AStatus i) 1 VRING_DESC_F_WRITE 0) |>
    <| info_status ::= fun f => upd f i 0xff |>
    <| vbufs ::= fun f => upd f b ((f b) <| bdisk := 1 |>) |>
    <| info_b ::= fun f => upd f i (Some b) |>
    <| avail_ring ::= fun f => upd f (avail_idx s mod NUM) i |>
    <| vdisk_lock := true |>.

Lemma rw_alloc_ok p b w s : vdisk_lock s = false ->
  (∃ i j k, slot i ∧ slot j ∧ slot k ∧ NoDup [i; j; k] ∧ dfree s i ≠ 0 ∧ dfree s j ≠ 0 ∧ dfree s k ≠ 0 ∧
    rw_alloc p b w (sector_of (vbufs s b)) s = Ok (Some (i, j, k)) (submitted b w i j k s)) ∨
  (∃ s', few (dfree s) ∧ calm s s' ∧ ∀ sec, rw_alloc p b w sec s = Ok None (s' <| asleep ::= fun f => upd f p (Some ChFree) |>)).
Proof.
  intros Hl. assert (Ha : acquire_spin vlock s = Ok tt (s <| vdisk_lock := true |>)). { unfold acquire_spin. cbn. by rewrite Hl. }
  destruct (alloc3_ok (s <| vdisk_lock := true |>)) as [(i & j & k & Hi & Hj & Hk & Hn & Fi & Fj & Fk & E)|(s' & Hf & [C1 C2 C3 C4] & E)].
  - left. exists i, j, k. do 7 (split; [done|]). unfold rw_alloc. rewrite (bind_Ok _ _ _ _ _ Ha), (bind_Ok _ _ _ _ _ E). reflexivity.
  - right. exists (s' <| vdisk_lock := false |>). split; [done|]. split.
    + split; [done|done|done|]. rewrite C4. destruct s. cbn in Hl. subst. reflexivity.
    + intros sec. unfold rw_alloc. rewrite (bind_Ok _ _ _ _ _ Ha), (bind_Ok _ _ _ _ _ E).
      assert (Hr : vsleep p ChFree s' = Ok tt (s' <| vdisk_lock := false |> <| asleep ::= fun f => upd f p (Some ChFree) |>)).
      { unfold vsleep, mbind, M_bind, release_spin. cbn. rewrite C4. reflexivity. }
      by rewrite (bind_Ok _ _ _ _ _ Hr).
Qed.

Lemma chain_busy A U s d pc ii a q n : vrel A U s d pc ii a -> n ∈ chain_idx (pc q) -> slot n ∧ dfree s n = 0.
Proof.
  intros R Hn. pose proof (r_place _ _ _ _ _ _ _ R q) as Hp. destruct (pc q); try (by apply elem_of_nil in Hn); destruct Hp as [(_ & _ & Hs) _]; by apply Hs.
Qed.
Lemma head_busy A U s d pc ii a h : vrel A U s d pc ii a -> h ∈ A ++ pending d ++ U -> dfree s h = 0.
Proof.
  intros R [q Hq]%(r_queued _ _ _ _ _ _ _ R). eapply (chain_busy _ _ _ _ _ _ _ q); [done|].
  destruct (pc q); try done. destruct Hq as [-> _]. by left.
Qed.
(** A free descriptor leaves room in the queue. *)
Lemma free_room A U s d pc ii a i : vrel A U s d pc ii a -> slot i -> dfree s i ≠ 0 -> Z.of_nat (length (A ++ pending d ++ U)) < NUM.
Proof.
  intros R Hi Hf. assert (Z.of_nat (length (i :: A ++ pending d ++ U)) <= NUM); [|simpl in *; lia].
  apply heads_bound; [apply NoDup_cons; split; [|apply R]; by intros Hh%(head_busy _ _ _ _ _ _ _ _ R)|].
  intros h [->|Hh]%elem_of_cons; [done|by eapply r_heads in Hh].
Qed.
Lemma few_upd f i : few f -> few (upd f i 0).
Proof. intros Hf x y z Hx Hy Hz Hn. destruct (Hf x y z Hx Hy Hz Hn) as [?|[?|?]]; unfold upd; repeat case_decide; auto. Qed.

Section alloc.
Context (A U : list Z) (s : disk) (d : D) (pc : Z -> vpc) (ii : bool) (a : aconfig) (p b : Z) (w : bool) (sec i j k : Z).
Context (R : vrel A U s d pc ii a) (Hl : vdisk_lock s = false) (Hp : pc p = VAlloc b w sec) (Hs : asleep s p = None).
Context (Hi : slot i) (Hj : slot j) (Hk : slot k) (Hn : NoDup [i; j; k]) (Fi : dfree s i ≠ 0) (Fj : dfree s j ≠ 0) (Fk : dfree s k ≠ 0).
Let t := submitted b w i j k s.
Let pc' := upd pc p (VPublish b w i j k).

Lemma alloc_other_buf q x : q ≠ p -> pc_buf (pc q) = Some x -> vbufs t x = vbufs s x.
Proof. intros Hq Hx. apply upd_ne. intros ->. apply Hq, (r_share _ _ _ _ _ _ _ R _ _ b); [done|by rewrite Hp]. Qed.
Lemma alloc_other_idx q n : n ∈ chain_idx (pc q) -> n ≠ i ∧ n ≠ j ∧ n ≠ k.
Proof. intros Hin. destruct (chain_busy _ _ _ _ _ _ _ _ _ R Hin) as [_ Hf]. split_and!; congruence. Qed.
Lemma alloc_not_locked q : ¬ is_notify (pc q).
Proof. intros Hq. assert (vdisk_lock s = true); [|congruence]. apply R. right. by exists q. Qed.
Lemma alloc_buf_same x : vblockno (vbufs t x) = vblockno (vbufs s x) ∧ vdata (vbufs t x) = vdata (vbufs s x).
Proof. cbn. unfold upd. by case_decide; subst. Qed.

Lemma alloc_own : own_chain t b w i j k.
Proof.
  assert (j ≠ i ∧ k ≠ i ∧ k ≠ j) as (N1 & N2 & N3). { apply NoDup_cons in Hn as [Hn1 [Hn2 _]%NoDup_cons]. set_solver. }
  split; [|split; [done|]].
  - split; cbn; rewrite ?upd_eq; try done; [by rewrite !upd_ne, upd_eq by congruence|by rewrite upd_ne, upd_eq by congruence].
  - intros n Hin. apply elem_of_cons in Hin as [->|[->|[->|Hin%elem_of_nil]%elem_of_cons]%elem_of_cons]; try done; split; try done; cbn; unfold upd; repeat case_decide; done.
Qed.
Lemma alloc_frame q b' w' i' j' k' : q ≠ p -> pc_buf (pc q) = Some b' -> chain_idx (pc q) = [i'; j'; k'] -> own_chain s b' w' i' j' k' -> own_chain t b' w' i' j' k'.
Proof.
  intros Hq Hb Hc Ho. eapply own_chain_frame; [done| | | |].
  - intros n Hin. rewrite <- Hc in Hin. apply alloc_other_idx in Hin as (N1 & N2 & N3). cbn. by rewrite !upd_ne.
  - cbn. rewrite upd_ne; [done|]. apply (alloc_other_idx q). rewrite Hc. by left.
  - cbn. rewrite upd_ne; [done|]. apply (alloc_other_idx q). rewrite Hc. by left.
  - by rewrite (alloc_other_buf q).
Qed.
Lemma rel_alloc : vrel A U t d pc' ii a.
Proof.
  pose proof alloc_own as Hown. pose proof alloc_frame as Hfr. pose proof alloc_other_buf as Hob. pose proof alloc_other_idx as Hoi.
  pose proof alloc_not_locked as Hnl. pose proof alloc_buf_same as Hbs. pose proof (free_room _ _ _ _ _ _ _ _ R Hi Fi) as Hroom. rewrite length_app in Hroom.
  destruct R. split; try done.
  - intros q. unfold pc'. destruct (decide (q = p)) as [->|Hq]; [rewrite upd_eq|rewrite upd_ne by done].
    + split; [done|]. cbn. rewrite !upd_eq. done.
    + specialize (r_place0 q). specialize (Hob q). specialize (Hfr q). destruct (pc q) eqn:E; [done| | |].
      * cbn -[t] in *. by rewrite Hob.
      * exfalso. apply (Hnl q). by rewrite E.
      * cbn -[t] in *. rewrite Hob by done. destruct r_place0. split; [by eapply Hfr|done].
  - intros q r n Hqr. unfold pc'. destruct (decide (q = p)) as [->|Hq], (decide (r = p)) as [->|Hr]; rewrite ?upd_eq, ?upd_ne by done; [done| | |by apply r_disj0].
    + intros Hin Hin'. apply Hoi in Hin'. set_solver.
    + intros Hin%Hoi. set_solver.
  - intros n Hsn Hf. unfold pc'. destruct (decide (n ∈ [i; j; k])) as [Hin|Hin]; [exists p; by rewrite upd_eq|].
    cbn in Hf. rewrite !upd_ne in Hf by set_solver. destruct (r_leak0 n Hsn Hf) as [q Hq]. exists q. rewrite upd_ne; [done|]. intros ->. rewrite Hp in Hq. by apply elem_of_nil in Hq.
  - intros q r x. unfold pc'. assert (Hb : ∀ y, pc_buf (upd pc p (VPublish b w i j k) y) = pc_buf (pc y)) by (intros y; unfold upd; case_decide; [subst; by rewrite Hp|done]).
    rewrite !Hb. apply r_share0.
  - intros q x. destruct (Hbs x) as [-> _]. unfold pc', upd. case_decide; [subst|apply r_valid0]. intros [= <-]. apply (r_valid0 p). by rewrite Hp.
  - cbn. apply queue_write; [done|lia].
  - intros h. rewrite r_queued0. unfold pc'. split; intros [q Hq]; exists q; (destruct (decide (q = p)) as [->|Hne]; [|rewrite upd_ne in * by done]);
      [by rewrite Hp in Hq| |by rewrite upd_eq in Hq|]; specialize (Hob q); destruct (pc q); try done; cbn -[t] in *; specialize (Hob _ Hne eq_refl); [by rewrite Hob|by rewrite Hob in Hq].
  - split; [intros _; right; exists p; unfold pc'; by rewrite upd_eq|done].
  - intros q r. unfold pc'. assert (Hii : ii = false). { destruct ii; [|done]. rewrite (proj2 r_lock0) in Hl; [done|by left]. }
    intros Hq. split; [done|]. destruct (decide (q = p)) as [->|Hqp], (decide (r = p)) as [->|Hrp]; rewrite ?upd_ne in * by done; try done; [by intros ?%Hnl|by apply Hnl in Hq|by apply Hnl in Hq].
  - intros q. specialize (r_sleep0 q). specialize (Hob q). unfold pc'. change (asleep t q) with (asleep s q).
    destruct (decide (q = p)) as [->|Hqp]; [by rewrite Hs|rewrite upd_ne by done]. destruct (asleep s q); [|done].
    destruct (pc q); try done; cbn -[t] in *; [|by rewrite Hob]. split; [apply r_sleep0|]. change (dfree t) with (upd (upd (upd (dfree s) i 0) j 0) k 0). apply few_upd, few_upd, few_upd, r_sleep0.
  - intros x. by destruct (Hbs x) as [_ ->].
  - intros x. rewrite r_buf0. by destruct (Hbs x) as [-> ->].
  - intros q. rewrite r_req0. specialize (Hob q). specialize (Hoi q). unfold pc'. destruct (decide (q = p)) as [->|Hqp]; [by rewrite upd_eq, Hp|rewrite upd_ne by done].
    destruct (pc q); try done; cbn -[t] in *. unfold phase_of. rewrite Hob by done.
    assert (info_status t i0 = info_status s i0) as ->; [|done]. cbn. rewrite upd_ne; [done|]. apply Hoi. by left.
Qed.
End alloc.
End rel.
