(* ===== verification/VirtioStep.v ===== *)
(** * VirtioStep: requests are submitted, finished, acknowledged and retired *)

From S2P Require Import Prelude SleepLock Virtio VirtioSys VirtioInv.

Section step.
Context `{Device D}.
Implicit Types (A U : list Z) (s : disk) (d : D) (pc : Z -> vpc).

Lemma not_locked A U s d pc ii a : vrel A U s d pc ii a -> vdisk_lock s = false -> ii = false ∧ ∀ q, ¬ is_notify (pc q).
Proof.
  intros R Hl. split; [destruct ii; [|done]; rewrite (proj2 (r_lock _ _ _ _ _ _ _ R)) in Hl; [done|by left]|].
  intros q Hq. rewrite (proj2 (r_lock _ _ _ _ _ _ _ R)) in Hl; [done|]. right. by exists q.
Qed.
Lemma wait_same A U s d pc ii a p q b b' w w' i i' j j' k k' n n' : vrel A U s d pc ii a -> pc p = VWait b w i j k n -> pc q = VWait b' w' i' j' k' n' -> b = b' ∨ i = i' -> p = q.
Proof.
  intros R Hp Hq [-> | ->]; [apply (r_share _ _ _ _ _ _ _ R _ _ b'); [by rewrite Hp|by rewrite Hq]|].
  destruct (decide (p = q)) as [|Hne]; [done|]. exfalso. apply (r_disj _ _ _ _ _ _ _ R p q i' Hne); [rewrite Hp|rewrite Hq]; by left.
Qed.

(** ** Submission *)
Definition published (s : disk) : disk := s <| avail_idx := u16 (avail_idx s + 1) |>.
Lemma rel_publish A U s d pc ii a p b w i j k : vrel A U s d pc ii a -> pc p = VPublish b w i j k ->
  vrel (A ++ [i]) U (published s) d (upd pc p (VWait b w i j k false)) ii a.
Proof.
  intros R Hp. destruct (r_room _ _ _ _ _ _ _ _ _ _ _ _ _ R Hp) as [Hi Hroom]. pose proof R as R'. destruct R.
  pose proof (r_place p) as Hpl. rewrite Hp in Hpl. destruct Hpl as (Hown & Hbd & Hring).
  assert (Hnot : ∀ q, q ≠ p -> ¬ is_notify (pc q)). { intros q Hq Hn. apply Hq. apply (r_mutex q p Hn). by rewrite Hp. }
  assert (Hidx : ∀ q, chain_idx (upd pc p (VWait b w i j k false) q) = chain_idx (pc q)) by (intros q; unfold upd; case_decide; [subst; by rewrite Hp|done]).
  assert (Hbuf : ∀ q, pc_buf (upd pc p (VWait b w i j k false) q) = pc_buf (pc q)) by (intros q; unfold upd; case_decide; [subst; by rewrite Hp|done]).
  assert (His : ∀ q, is_notify (upd pc p (VWait b w i j k false) q) <-> is_notify (pc q)) by (intros q; unfold upd; case_decide; [subst; by rewrite Hp|done]).
  split; try done.
  - intros q. destruct (decide (q = p)) as [->|Hq]; [rewrite upd_eq|rewrite upd_ne by done].
    + split; [by apply (own_chain_frame s)|by right].
    + specialize (r_place q). specialize (Hnot q Hq). destruct (pc q); cbn in *; try done. destruct r_place. split; [by apply (own_chain_frame s)|done].
  - intros q r n. rewrite !Hidx. apply r_disj.
  - intros n Hn Hf. destruct (r_leak n Hn Hf) as [q Hq]. exists q. by rewrite Hidx.
  - intros q r x. rewrite !Hbuf. apply r_share.
  - intros q x. rewrite Hbuf. apply r_valid.
  - cbn. rewrite <- Hring. by apply queue_bump.
  - rewrite <- app_assoc. apply NoDup_app. apply NoDup_app in r_nodup as (N1 & N2 & N3). split; [done|]. split; [intros x Hx [->|Hx']%elem_of_cons; [set_solver|by apply (N2 x)]|].
    apply NoDup_cons. split; [set_solver|done].
  - intros h. assert (Heq : h ∈ (A ++ [i]) ++ pending d ++ U <-> h = i ∨ h ∈ A ++ pending d ++ U) by set_solver. rewrite Heq, r_queued. split.
    + intros [->|[q Hq]]; [exists p; by rewrite upd_eq|]. exists q. rewrite upd_ne; [done|]. intros ->. by rewrite Hp in Hq.
    + intros [q Hq]. destruct (decide (q = p)) as [->|Hqp]; [rewrite upd_eq in Hq; left; symmetry; apply Hq|rewrite upd_ne in Hq by done; right; by exists q].
  - cbn -[is_notify]. rewrite r_lock. by setoid_rewrite His.
  - intros q r. rewrite !His. apply r_mutex.
  - intros q. specialize (r_sleep q). change (asleep (published s) q) with (asleep s q).
    destruct (decide (q = p)) as [->|Hqp]; [rewrite upd_eq|by rewrite upd_ne by done]. rewrite Hp in r_sleep. by destruct (asleep s p).
  - intros q. rewrite r_req. destruct (decide (q = p)) as [->|Hqp]; [rewrite upd_eq, Hp|by rewrite upd_ne by done].
    cbn. unfold phase_of. cbn. rewrite Hbd. change (1 =? 0) with false. cbv iota. rewrite decide_False; [done|]. set_solver.
Qed.

Definition kicked (p b : Z) (s : disk) : disk :=
  s <| notified := true |> <| vdisk_lock := false |> <| asleep ::= fun f => upd f p (Some (ChBuf b)) |>.
Lemma rw_notify_ok A U s d pc ii a p b w i j k : vrel A U s d pc ii a -> pc p = VWait b w i j k false -> rw_notify p b i s = Ok false (kicked p b s).
Proof.
  intros R Hp. pose proof (r_place _ _ _ _ _ _ _ R p) as Hpl. rewrite Hp in Hpl. destruct Hpl as (_ & [[? _]|Hb]); [done|].
  assert (Hl : vdisk_lock s = true) by (apply R; right; exists p; by rewrite Hp).
  unfold rw_notify. assert (Hw : write_reg VIRTIO_MMIO_QUEUE_NOTIFY 0 s = Ok tt (s <| notified := true |>)) by reflexivity.
  rewrite (bind_Ok _ _ _ _ _ Hw). unfold rw_wait, vsleep, release_spin, modify, gets, mbind, M_bind. cbn. rewrite Hb. change (1 =? 1) with true. cbn. rewrite Hl. reflexivity.
Qed.
Lemma rel_notify A U s d pc ii a p b w i j k : vrel A U s d pc ii a -> pc p = VWait b w i j k false ->
  vrel A U (kicked p b s) d (upd pc p (VWait b w i j k true)) ii a.
Proof.
  intros R Hp. pose proof R as R'. destruct R. pose proof (r_place p) as Hpl. rewrite Hp in Hpl. destruct Hpl as (Hown & [[? _]|Hbd]); [done|].
  assert (Hnot : ∀ q, ¬ is_notify (upd pc p (VWait b w i j k true) q)).
  { intros q. destruct (decide (q = p)) as [->|Hq]; [rewrite upd_eq; by intros []|rewrite upd_ne by done]. intros Hn. apply Hq. apply (r_mutex q p Hn). by rewrite Hp. }
  assert (Hidx : ∀ q, chain_idx (upd pc p (VWait b w i j k true) q) = chain_idx (pc q)) by (intros q; unfold upd; case_decide; [subst; by rewrite Hp|done]).
  assert (Hbuf : ∀ q, pc_buf (upd pc p (VWait b w i j k true) q) = pc_buf (pc q)) by (intros q; unfold upd; case_decide; [subst; by rewrite Hp|done]).
  split; try done.
  - intros q. destruct (decide (q = p)) as [->|Hq]; [rewrite upd_eq; split; [by apply (own_chain_frame s)|by right]|rewrite upd_ne by done].
    apply (place_frame s); [done..|apply r_place].
  - intros q r n. rewrite !Hidx. apply r_disj.
  - intros n Hn Hf. destruct (r_leak n Hn Hf) as [q Hq]. exists q. by rewrite Hidx.
  - intros q r x. rewrite !Hbuf. apply r_share.
  - intros q x. rewrite Hbuf. apply r_valid.
  - intros h. rewrite r_queued. split; intros [q Hq]; exists q; (destruct (decide (q = p)) as [->|]; [rewrite upd_eq in *; by rewrite Hp in *|by rewrite upd_ne in *]).
  - split; [done|]. destruct (r_mutex p p) as [-> _]; [by rewrite Hp|]. intros [?|[q Hq]]; [done|]. by apply Hnot in Hq.
  - intros q r Hq. by apply Hnot in Hq.
  - intros q. specialize (r_sleep q). change (asleep (kicked p b s) q) with (upd (asleep s) p (Some (ChBuf b)) q).
    destruct (decide (q = p)) as [->|Hqp]; [rewrite !upd_eq; done|rewrite !upd_ne by done]. done.
  - intros q. rewrite r_req. destruct (decide (q = p)) as [->|Hqp]; [by rewrite upd_eq, Hp|by rewrite upd_ne by done].
Qed.

(** ** Waiting and return *)
Lemma lock_acquire s : vdisk_lock s = false -> acquire_spin vlock s = Ok tt (s <| vdisk_lock := true |>).
Proof. intros Hl. unfold acquire_spin. cbn. by rewrite Hl. Qed.
Lemma lock_again s : vdisk_lock s = false -> s <| vdisk_lock := true |> <| vdisk_lock := false |> = s.
Proof. intros Hl. destruct s. cbn in Hl. by subst. Qed.
Lemma rw_again_sleep p b i s : vdisk_lock s = false -> bdisk (vbufs s b) = 1 -> rw_again p b i s = Ok false (s <| asleep ::= fun f => upd f p (Some (ChBuf b)) |>).
Proof.
  intros Hl Hb. unfold rw_again. rewrite (bind_Ok _ _ _ _ _ (lock_acquire _ Hl)).
  unfold rw_wait, vsleep, release_spin, modify, gets, mbind, M_bind. cbn. rewrite Hb. change (1 =? 1) with true. cbn. by rewrite lock_again.
Qed.

Definition retired (i j k : Z) (s : disk) : disk :=
  s <| desc ::= fun f => upd (upd (upd f i null_desc) j null_desc) k null_desc |>
    <| dfree ::= fun f => upd (upd (upd f i 1) j 1) k 1 |>
    <| asleep ::= wake_free |> <| info_b ::= fun f => upd f i None |>.
Lemma disk_ext s t : desc s = desc t -> avail_idx s = avail_idx t -> avail_ring s = avail_ring t -> dused_idx s = dused_idx t -> dused_ring s = dused_ring t ->
  dfree s = dfree t -> used_idx s = used_idx t -> info_b s = info_b t -> info_status s = info_status t -> ops s = ops t -> vdisk_lock s = vdisk_lock t ->
  vbufs s = vbufs t -> asleep s = asleep t -> notified s = notified t -> isr s = isr t -> irq s = irq t -> s = t.
Proof. destruct s, t. cbn. by intros -> -> -> -> -> -> -> -> -> -> -> -> -> -> -> ->. Qed.
Lemma wake_free_idem f : wake_free (wake_free f) = wake_free f.
Proof. apply functional_extensionality. intros x. unfold wake_free. by repeat case_decide. Qed.
Lemma rw_again_done p b w i j k s : vdisk_lock s = false -> bdisk (vbufs s b) = 0 -> own_chain s b w i j k -> rw_again p b i s = Ok true (retired i j k s).
Proof.
  intros Hl Hb (Hf & Hn & Hs). unfold rw_again. rewrite (bind_Ok _ _ _ _ _ (lock_acquire _ Hl)).
  set (t := s <| vdisk_lock := true |>). assert (Hf' : formatted t b w i j k) by (by destruct Hf).
  unfold rw_wait. rewrite (bind_Ok (gets id) _ t t t eq_refl). change (vbufs t b) with (vbufs s b). rewrite Hb. change (0 =? 1) with false. cbv iota.
  rewrite (bind_Ok (modify (fun s => s <| info_b ::= fun f => upd f i None |>)) _ t tt (t <| info_b ::= fun f => upd f i None |>) eq_refl).
  rewrite (bind_Ok _ _ _ _ _ (free_chain_ok t b w i j k Hf' Hn ltac:(apply Hs; set_solver) ltac:(apply Hs; set_solver) ltac:(apply Hs; set_solver)
    ltac:(apply Hs; set_solver) ltac:(apply Hs; set_solver) ltac:(apply Hs; set_solver) _)). 
  set (u := free1 k _). assert (Hu : release_spin vlock u = Ok tt (u <| vdisk_lock := false |>)) by reflexivity. rewrite (bind_Ok _ _ _ _ _ Hu).
  unfold mret, M_ret. f_equal. apply disk_ext; try reflexivity; [by rewrite <- Hl|]. change (wake_free (wake_free (wake_free (asleep s))) = wake_free (asleep s)). by rewrite !wake_free_idem.
Qed.
Lemma rel_retire A U s d pc ii a p b w i j k : vrel A U s d pc ii a -> pc p = VWait b w i j k true -> bdisk (vbufs s b) = 0 -> asleep s p = None ->
  vrel A U (retired i j k s) d (upd pc p VIdle) ii (a <| areq ::= fun f => upd f p None |>).
Proof.
  intros R Hp Hb Hsl. pose proof R as R'. destruct R. set (t := retired i j k s).
  assert (Hoi : ∀ q n, q ≠ p -> n ∈ chain_idx (pc q) -> n ≠ i ∧ n ≠ j ∧ n ≠ k).
  { intros q n Hq Hin. assert (Hnin : n ∉ chain_idx (pc p)) by (by apply (r_disj q p)). rewrite Hp in Hnin. set_solver. }
  assert (Hfr : ∀ q b' w' i' j' k', q ≠ p -> chain_idx (pc q) = [i'; j'; k'] -> own_chain s b' w' i' j' k' -> own_chain t b' w' i' j' k').
  { intros q b' w' i' j' k' Hq Hc Ho. eapply own_chain_frame; [done| |done| |done].
    - intros n Hin. rewrite <- Hc in Hin. apply Hoi in Hin as (? & ? & ?); [|done]. cbn. by rewrite !upd_ne.
    - cbn. rewrite upd_ne; [done|]. apply (Hoi q); [done|]. rewrite Hc. by left. }
  assert (Hpc : ∀ q, q ≠ p -> upd pc p VIdle q = pc q) by (intros; by apply upd_ne).
  split; try done.
  - intros q. destruct (decide (q = p)) as [->|Hq]; [by rewrite upd_eq|rewrite Hpc by done]. specialize (r_place q). specialize (Hfr q). destruct (pc q); cbn -[t] in *; try done.
    + destruct r_place as (? & ? & ?). split; [by apply Hfr|done].
    + destruct r_place as (? & ?). split; [by apply Hfr|done].
  - intros q r n Hqr. destruct (decide (q = p)) as [->|Hq], (decide (r = p)) as [->|Hr]; rewrite ?upd_eq, ?Hpc by done; try (intros Hin; by apply elem_of_nil in Hin); [|by apply r_disj].
    intros _. apply not_elem_of_nil.
  - intros n Hn Hf. cbn in Hf. assert (Hnin : n ∉ [i; j; k]). { intros Hin. unfold upd in Hf. repeat case_decide; set_solver. }
    rewrite !upd_ne in Hf by set_solver. destruct (r_leak n Hn Hf) as [q Hq]. exists q. rewrite Hpc; [done|]. intros ->. by rewrite Hp in Hq.
  - intros q r x. unfold upd. repeat case_decide; try done. apply r_share.
  - intros q x. unfold upd. case_decide; [done|]. apply r_valid.
  - intros h. rewrite r_queued. split; intros [q Hq]; exists q; (destruct (decide (q = p)) as [->|]; [|by rewrite Hpc in *]).
    + rewrite Hp in Hq. destruct Hq. congruence.
    + by rewrite upd_eq in Hq.
  - cbn -[is_notify]. rewrite r_lock. split; (intros [?|[q Hq]]; [by left|right; exists q]); (destruct (decide (q = p)) as [->|]; [|by rewrite Hpc in *]); [by rewrite Hp in Hq|by rewrite upd_eq in Hq].
  - intros q r. unfold upd. repeat case_decide; try done; [|apply r_mutex]. intros Hq. split; [by apply (r_mutex q q)|done].
  - intros q. specialize (r_sleep q). change (asleep t q) with (wake_free (asleep s) q). unfold wake_free. case_decide; [done|].
    destruct (decide (q = p)) as [->|Hq]; [by rewrite Hsl|rewrite Hpc by done]. destruct (asleep s q); [|done]. destruct (pc q); cbn in *; naive_solver.
  - intros q. cbn -[req_of]. unfold upd. case_decide; [done|]. by rewrite r_req.
Qed.

(** ** Interrupts *)
Lemma rel_intr A U s d pc ii a ii' v x : vrel A U s d pc ii a -> (∀ q, ¬ is_notify (pc q)) -> vrel A U (s <| irq := x |> <| vdisk_lock := ii' |> <| isr := v |>) d pc ii' a.
Proof.
  intros R Hn. destruct R. split; try done.
  - intros q. apply (place_frame s); [done..|apply r_place].
  - cbn. split; [by left|]. intros [?|[q ?%Hn]]; done.
  - intros q r Hq. by apply Hn in Hq.
Qed.
(** The request of a head, and the process that waits for it. *)
Lemma queued_owner A U s d pc ii a h : vrel A U s d pc ii a -> h ∈ A ++ pending d ++ U ->
  ∃ p b w j k n, pc p = VWait b w h j k n ∧ bdisk (vbufs s b) = 1 ∧ own_chain s b w h j k.
Proof.
  intros R Hh. apply (r_queued _ _ _ _ _ _ _ R) in Hh as [p Hq]. pose proof (r_place _ _ _ _ _ _ _ R p) as Hp. destruct (pc p) as [| | |b w i j k n] eqn:E; try done.
  destruct Hq as [-> Hb]. destruct Hp as [Hp _]. exists p. by eexists _, _, _, _, _.
Qed.

Definition acknowledged (b : Z) (s : disk) : disk :=
  s <| vbufs ::= fun f => upd f b ((f b) <| bdisk := 0 |>) |>
    <| asleep ::= fun f p => if decide (f p = Some (ChBuf b)) then None else f p |> <| used_idx := u16 (used_idx s + 1) |>.
Lemma intr_round_ok A U s d pc ii a : vrel A U s d pc ii a -> vdisk_lock s = true ->
  (U = [] ∧ intr_round s = Ok false (s <| vdisk_lock := false |>)) ∨
  ∃ h U' p b w j k n, U = h :: U' ∧ pc p = VWait b w h j k n ∧ bdisk (vbufs s b) = 1 ∧
    ((info_status s h = 0 ∧ intr_round s = Ok true (acknowledged b s)) ∨ (info_status s h ≠ 0 ∧ intr_round s = Panic "virtio_disk_intr status")).
Proof.
  intros R Hl. pose proof (r_used _ _ _ _ _ _ _ R) as Hu. pose proof (r_bound _ _ _ _ _ _ _ R) as Hbd. rewrite !length_app in Hbd.
  assert (He := queue_empty _ _ _ _ Hu ltac:(lia)). unfold intr_round. rewrite (bind_Ok (gets id) _ s s s eq_refl).
  destruct (Z.eqb_spec (used_idx s) (dused_idx s)) as [E|E].
  - left. split; [by apply He|]. assert (Hr : release_spin vlock s = Ok tt (s <| vdisk_lock := false |>)) by (unfold release_spin; cbn; by rewrite Hl).
    rewrite (bind_Ok _ _ _ _ _ Hr). reflexivity.
  - right. destruct U as [|h U]; [by destruct E; apply He|]. apply queue_pop in Hu as [Hh _]. rewrite Hh.
    assert (Hin : h ∈ A ++ pending d ++ h :: U) by set_solver. pose proof (r_heads _ _ _ _ _ _ _ _ R Hin) as Hsl.
    destruct (queued_owner _ _ _ _ _ _ _ _ R Hin) as (p & b & w & j & k & n & Hp & Hb & Hown). exists h, U, p, b, w, j, k, n. do 3 (split; [done|]).
    assert ((h <? 0) || (NUM <=? h) = false) as -> by (unfold slot in Hsl; apply orb_false_iff; lia). destruct Hown as ([_ _ _ _ Hi] & _).
    destruct (Z.eqb_spec (info_status s h) 0); [left|by right]. split; [done|]. cbn [negb]. cbv iota. by rewrite Hi.
Qed.
Lemma rel_ack A U s d pc ii a h p b w j k : vrel A (h :: U) s d pc ii a -> pc p = VWait b w h j k true -> bdisk (vbufs s b) = 1 -> info_status s h = 0 ->
  vrel A U (acknowledged b s) d pc ii a.
Proof.
  intros R Hp Hb Hst. set (t := acknowledged b s). pose proof R as R'. destruct R.
  assert (Hob : ∀ q x, q ≠ p -> pc_buf (pc q) = Some x -> vbufs t x = vbufs s x). { intros q x Hq Hx. apply upd_ne. intros ->. apply Hq, (r_share _ _ b); [done|by rewrite Hp]. }
  assert (Hbs : ∀ x, vblockno (vbufs t x) = vblockno (vbufs s x) ∧ vdata (vbufs t x) = vdata (vbufs s x)) by (intros x; cbn; unfold upd; by case_decide; subst).
  assert (Hbp : bdisk (vbufs t b) = 0) by (cbn; by rewrite upd_eq).
  assert (Hfr : ∀ b' w' i' j' k', own_chain s b' w' i' j' k' -> own_chain t b' w' i' j' k') by (intros b' w' i' j' k' Ho; eapply own_chain_frame; [done|done|done|done|apply Hbs]).
  assert (Hh : h ∉ A ++ pending d ++ U). { apply NoDup_app in r_nodup as (_ & N2 & (_ & N4 & [N5 _]%NoDup_cons)%NoDup_app). intros [Hx|[Hx|Hx]%elem_of_app]%elem_of_app; [apply (N2 h)|apply (N4 h)|]; set_solver. }
  split; try done.
  - intros q. specialize (r_place q). destruct (decide (q = p)) as [->|Hq]; [rewrite Hp in *; split; [by apply Hfr, r_place|by left]|].
    specialize (Hob q). destruct (pc q); cbn -[t] in *; try done; rewrite (Hob _ Hq eq_refl); naive_solver.
  - intros q x Hx. destruct (Hbs x) as [-> _]. by eapply r_valid.
  - by apply queue_pop in r_used as [_ ?].
  - assert (Hperm : A ++ pending d ++ h :: U ≡ₚ h :: A ++ pending d ++ U) by solve_Permutation. rewrite Hperm in r_nodup. by apply NoDup_cons in r_nodup as [_ ?].
  - intros x. assert (Hx : x ∈ A ++ pending d ++ U <-> x ≠ h ∧ x ∈ A ++ pending d ++ h :: U) by (destruct (decide (x = h)); set_solver). rewrite Hx, r_queued. split.
    + intros [Hne [q Hq]]. exists q. destruct (decide (q = p)) as [->|Hqp]; [rewrite Hp in Hq; destruct Hq; congruence|]. specialize (Hob q).
      destruct (pc q); try done. cbn -[t] in *. by rewrite (Hob _ Hqp eq_refl).
    + intros [q Hq]. destruct (decide (q = p)) as [->|Hqp]; [rewrite Hp in Hq; destruct Hq; congruence|]. specialize (Hob q).
      destruct (pc q) eqn:E; try done. cbn -[t] in *. rewrite (Hob _ Hqp eq_refl) in Hq. split; [|exists q; by rewrite E]. intros ->. destruct Hq as [-> _].
      apply Hqp. by eapply (wait_same _ _ _ _ _ _ _ q p); [| | |right].
  - intros q. specialize (r_sleep q). change (asleep t q) with (if decide (asleep s q = Some (ChBuf b)) then None else asleep s q). case_decide as Hd; [done|].
    destruct (asleep s q) as [ch|]; [|done]. destruct (decide (q = p)) as [->|Hq]; [rewrite Hp in r_sleep; destruct r_sleep; congruence|].
    specialize (Hob q). destruct (pc q); try done. cbn -[t] in *. by rewrite (Hob _ Hq eq_refl).
  - intros x. by destruct (Hbs x) as [_ ->].
  - intros x. rewrite r_buf. by destruct (Hbs x) as [-> ->].
  - intros q. rewrite r_req. destruct (decide (q = p)) as [->|Hq].
    + rewrite Hp. cbn -[t]. unfold phase_of. rewrite Hb, Hbp. change (1 =? 0) with false. cbv iota. rewrite decide_True by (by left). by rewrite Hst.
    + specialize (Hob q). destruct (pc q) as [| | |b' w' i' j' k' n'] eqn:E; try done. cbn -[t] in *. unfold phase_of. rewrite (Hob _ Hq eq_refl).
      assert (i' ≠ h) by (intros ->; apply Hq; by eapply (wait_same _ _ _ _ _ _ _ q p); [| | |right]).
      change (info_status t i') with (info_status s i'). destruct (decide (i' ∈ h :: U)), (decide (i' ∈ U)); try done; set_solver.
Qed.

(** ** The device *)
Lemma rel_took A U s d d' s' pc ii a : vrel A U s d pc ii a -> took d s d' s' -> ∃ A', vrel A' U s' d' pc ii a.
Proof.
  intros R (Hne & -> & Hm & Hla & Hpe). pose proof (r_bound _ _ _ _ _ _ _ R) as Hbd. rewrite !length_app in Hbd. destruct R.
  assert (He := queue_empty _ _ _ _ r_avail ltac:(lia)). destruct A as [|h A]; [by destruct Hne; apply He|]. apply queue_pop in r_avail as [Hh Hq].
  exists A. rewrite Hh in Hpe. assert (Hperm : A ++ pending d' ++ U ≡ₚ (h :: A) ++ pending d ++ U) by (rewrite Hpe; solve_Permutation).
  split; try done.
  - by rewrite Hla.
  - by rewrite Hperm.
  - intros x. rewrite Hperm. apply r_queued.
  - by rewrite Hm.
Qed.

Lemma rel_rest A U s d pc ii a n : vrel A U s d pc ii a -> vrel A U (s <| notified := n |>) d pc ii a.
Proof. intros R. destruct R. split; try done. intros q. apply (place_frame s); [done..|apply r_place]. Qed.

Lemma rel_finish A U s d d' pc ii a a' h p b w j k n l st : vrel A U s d pc ii a -> pending d ≡ₚ h :: pending d' -> last_avail d' = last_avail d ->
  pc p = VWait b w h j k n -> bdisk (vbufs s b) = 1 -> Z.of_nat (length l) = block_size ->
  (∀ m, block_ok m -> ablock a' m = read_bytes (medium d') (block_size * m) block_size) ->
  abuf a' = upd (abuf a) b ((abuf a b).1, l) -> areq a' = upd (areq a) p (Some (b, w, if st =? 0 then Done else Failed)) ->
  vrel A (U ++ [h]) (raise (push_used h (put_status h st (put_data b l s)))) d' pc ii a'.
Proof.
  intros R Hpe Hla Hp Hb Hl Hblk Hbuf Hreq. pose proof (r_bound _ _ _ _ _ _ _ R) as Hbd. rewrite !length_app, (Permutation_length Hpe) in Hbd. simpl length in Hbd.
  pose proof R as R'. destruct R. set (t := raise (push_used h (put_status h st (put_data b l s)))).
  assert (Hperm : A ++ pending d' ++ U ++ [h] ≡ₚ A ++ pending d ++ U) by (rewrite Hpe; solve_Permutation).
  assert (Hbs : ∀ x, vblockno (vbufs t x) = vblockno (vbufs s x) ∧ bdisk (vbufs t x) = bdisk (vbufs s x)) by (intros x; cbn; unfold upd; by case_decide; subst).
  assert (Hfr : ∀ b' w' i' j' k', own_chain s b' w' i' j' k' -> own_chain t b' w' i' j' k') by (intros b' w' i' j' k' Ho; eapply own_chain_frame; [done|done|done|done|apply Hbs]).
  assert (HU : h ∉ U). { rewrite <- Hperm in r_nodup. apply NoDup_app in r_nodup as (_ & _ & (_ & _ & (_ & N & _)%NoDup_app)%NoDup_app). intros Hin. apply (N h Hin). by left. }
  split; try done.
  - intros q. specialize (r_place q). destruct (pc q); cbn -[t] in *; try done.
    + unfold sector_of in *. by destruct (Hbs b0) as [-> _].
    + destruct (Hbs b0) as [_ ->]. naive_solver.
    + destruct (Hbs b0) as [_ ->]. naive_solver.
  - intros q x Hx. destruct (Hbs x) as [-> _]. by eapply r_valid.
  - by rewrite Hla.
  - change (queue (upd (dused_ring s) (dused_idx s mod NUM) h) (used_idx s) (u16 (dused_idx s + 1)) (U ++ [h])).
    rewrite <- (upd_eq (dused_ring s) (dused_idx s mod NUM) h) at 2. apply queue_bump, queue_write; [done|lia].
  - by rewrite Hperm.
  - intros x. rewrite Hperm, r_queued. split; intros [q Hq]; exists q; destruct (pc q); try done; cbn -[t] in *; destruct (Hbs b0) as [_ E]; by rewrite E in *.
  - intros q. specialize (r_sleep q). change (asleep t q) with (asleep s q). destruct (asleep s q); [|done]. destruct (pc q); try done. cbn -[t] in *. by destruct (Hbs b0) as [_ ->].
  - intros x. cbn. unfold upd. by case_decide.
  - intros x. rewrite Hbuf. cbn. unfold upd. case_decide; [subst; by rewrite r_buf|by rewrite r_buf].
  - intros q. rewrite Hreq. destruct (decide (q = p)) as [->|Hq]; [rewrite upd_eq, Hp|rewrite upd_ne by done].
    + cbn -[t]. unfold phase_of. destruct (Hbs b) as [_ ->]. rewrite Hb. change (1 =? 0) with false. cbv iota. rewrite decide_True by set_solver.
      change (info_status t h) with (upd (info_status s) h st h). by rewrite upd_eq.
    + rewrite r_req. destruct (pc q) as [| | |b' w' i' j' k' n'] eqn:E; try done. cbn -[t]. unfold phase_of. destruct (Hbs b') as [_ ->].
      assert (i' ≠ h) by (intros ->; apply Hq; by eapply (wait_same _ _ _ _ _ _ _ q p); [| | |right]).
      change (info_status t i') with (upd (info_status s) h st i'). rewrite upd_ne by done. destruct (decide (i' ∈ U ++ [h])), (decide (i' ∈ U)); try done; set_solver.
Qed.

Lemma read_write f n m l : Z.of_nat (length l) = block_size ->
  read_bytes (write_bytes f (block_size * m) l) (block_size * n) block_size = if decide (n = m) then l else read_bytes f (block_size * n) block_size.
Proof.
  intros Hl. unfold read_bytes, write_bytes. rewrite Hl. case_decide as Hn.
  - subst. apply list_eq. intros i. rewrite list_lookup_fmap. destruct (decide (Z.of_nat i < block_size)) as [Hi|Hi].
    + rewrite lookup_seqZ_lt by lia. cbn [fmap option_fmap option_map]. assert ((block_size * m <=? block_size * m + Z.of_nat i) && (block_size * m + Z.of_nat i <? block_size * m + block_size) = true) as -> by (apply andb_true_iff; split; [apply Z.leb_le|apply Z.ltb_lt]; lia).
      replace (Z.to_nat _) with i by lia. symmetry. destruct (lookup_lt_is_Some_2 l i) as [x Hx]; [lia|]. rewrite Hx. f_equal. symmetry. by apply nth_lookup_Some.
    + rewrite lookup_seqZ_ge by lia. symmetry. apply lookup_ge_None_2. lia.
  - apply list_fmap_ext. intros i x Hx. apply lookup_seqZ in Hx as [-> Hx]. unfold block_size in *.
    destruct ((1024 * m <=? 1024 * n + Z.of_nat i) && (1024 * n + Z.of_nat i <? 1024 * m + 1024)) eqn:E; [|done]. apply andb_true_iff in E as [E1%Z.leb_le E2%Z.ltb_lt]. lia.
Qed.
End step.
