(* ===== verification/VirtioProps.v ===== *)
(** * VirtioProps: what the disk driver promises *)

From S2P Require Import Prelude SleepLock Virtio VirtioSys VirtioInv VirtioStep.

Section sim.
Context `{DeviceSpec D}.
Implicit Types (A U : list Z) (s : disk) (d : D) (pc : Z -> vpc).

(** The transfer of a request is one step of the abstract disk. *)
Lemma finish_step A U s d d' s' pc ii a : vrel A U s d pc ii a -> finished d s d' s' -> ∃ a' U', astep Tau a a' ∧ vrel A U' s' d' pc ii a'.
Proof.
  intros R (h & r & st & l' & Hpe & Hla & Hr & Hst & Ht & ->). assert (Hin : h ∈ A ++ pending d ++ U) by (rewrite Hpe; set_solver).
  destruct (queued_owner _ _ _ _ _ _ _ _ R Hin) as (p & b & w & j & k & told & Hp & Hb & Hown).
  rewrite (formatted_request s b w h j k) in Hr by apply Hown. injection Hr as <-. cbn [rq_write rq_sector rq_len rq_buf rq_status] in *.
  pose proof (r_len _ _ _ _ _ _ _ R b) as Hlen. pose proof (r_valid _ _ _ _ _ _ _ R p b ltac:(by rewrite Hp)) as Hok.
  assert (Hsec : 512 * sector_of (vbufs s b) = block_size * vblockno (vbufs s b)).
  { unfold sector_of, block_size, block_ok in *. change (1024 / 512) with 2. rewrite u32_id by lia. lia. }
  assert (HU : h ∉ U). { pose proof (r_nodup _ _ _ _ _ _ _ R) as Hn. rewrite Hpe in Hn. apply NoDup_app in Hn as (_ & _ & (_ & N & _)%NoDup_app). intros Hx. apply (N h); [by left|done]. }
  assert (Hreq : areq a p = Some (b, w, Pending)). { rewrite (r_req _ _ _ _ _ _ _ R), Hp. cbn. unfold phase_of. rewrite Hb. change (1 =? 0) with false. cbv iota. by rewrite decide_False. }
  assert (Hbuf := r_buf _ _ _ _ _ _ _ R b). set (lb := vdata (vbufs s b)) in *. unfold transferred in Ht. cbn [rq_write rq_sector rq_len] in Ht.
  assert (Htake : take (Z.to_nat block_size) lb = lb) by (apply take_ge; lia). rewrite Htake, Hsec in Ht.
  destruct w.
  - destruct Ht as (-> & x & Hx & Hm & Hst0). exists (a <| ablock ::= fun f => upd f (abuf a b).1 x |> <| areq ::= fun f => upd f p (Some (b, true, if st =? 0 then Done else Failed)) |>), (U ++ [h]). split.
    + destruct (Z.eqb_spec st 0) as [E|E]; [|by apply as_write_fail; [|congruence]]. rewrite (Hst0 E). pose proof (as_write a p b Hreq) as Hw. by rewrite Hbuf in Hw |- *.
    + eapply rel_finish; try done; cbn.
      * intros n Hn. rewrite Hm, Hbuf, read_write by lia. cbn. unfold upd. case_decide; [done|]. by apply R.
      * symmetry. apply upd_same. by rewrite Hbuf.
  - destruct Ht as (Hm & Hx & Hst0). exists (a <| abuf ::= fun f => upd f b ((f b).1, l') |> <| areq ::= fun f => upd f p (Some (b, false, if st =? 0 then Done else Failed)) |>), (U ++ [h]). split.
    + destruct (Z.eqb_spec st 0) as [E|E]; [|by apply as_read_fail; [|lia]]. assert (Hl' : l' = ablock a (abuf a b).1).
      { rewrite (Hst0 E), drop_ge, app_nil_r by lia. by rewrite Hbuf, (r_block _ _ _ _ _ _ _ R). }
      rewrite Hl'. exact (as_read a p b Hreq).
    + eapply rel_finish; try done; cbn; [lia|]. intros n Hn. rewrite Hm. by apply R.
Qed.

Definition crel (c : vconfig D) (a : aconfig) : Prop := ∃ A U, vrel A U (dk c) (dev c) (pcs c) (in_intr c) a.

Lemma req_buf_of U s x : req_buf (req_of U s x) = pc_buf x.
Proof. by destruct x. Qed.
Lemma rel_readable A U s d pc ii a : vrel A U s d pc ii a -> readable d s.
Proof.
  intros R h Hh. destruct (queued_owner _ _ _ _ _ _ _ h R) as (p & b & w & j & k & told & _ & _ & [Hf _]); [set_solver|]. by rewrite (formatted_request _ _ _ _ _ _ Hf).
Qed.
Lemma acquired {B} (m : M disk B) s r s' : (acquire_spin vlock;; m) s = Ok r s' -> vdisk_lock s = false.
Proof. unfold mbind, M_bind, acquire_spin. cbn. by destruct (vdisk_lock s). Qed.

Lemma again_sim c a p b w i j k r s' : crel c a -> pcs c p = VWait b w i j k true -> asleep (dk c) p = None -> rw_again p b i (dk c) = Ok r s' ->
  if r then vdata (vbufs s' b) = (abuf a b).2 ∧ areq a p = Some (b, w, Done) ∧ crel (c <| dk := s' |> <| pcs ::= fun f => upd f p VIdle |>) (a <| areq ::= fun f => upd f p None |>)
  else crel (c <| dk := s' |>) a.
Proof.
  intros (A & U & R) Hp Hs Hr. pose proof (acquired _ _ _ _ Hr) as Hl. pose proof (r_place _ _ _ _ _ _ _ R p) as Hpl. rewrite Hp in Hpl. destruct Hpl as [Hown [[_ Hb]|Hb]].
  - rewrite (rw_again_done _ _ _ _ _ _ _ Hl Hb Hown) in Hr. simplify_eq. split; [by rewrite (r_buf _ _ _ _ _ _ _ R)|]. split.
    + rewrite (r_req _ _ _ _ _ _ _ R), Hp. cbn. unfold phase_of. by rewrite Hb.
    + exists A, U. by eapply rel_retire.
  - rewrite (rw_again_sleep _ _ _ _ Hl Hb) in Hr. simplify_eq. exists A, U. apply rel_sleep; [done|]. cbn. by rewrite Hp.
Qed.
Lemma intr_enter_ok s s' : intr_enter (s <| irq := false |>) = Ok tt s' ->
  vdisk_lock s = false ∧ s' = s <| irq := false |> <| vdisk_lock := true |> <| isr := Z.land (isr s) (Z.lnot (Z.land (isr s) 3)) |>.
Proof.
  unfold intr_enter, mbind, M_bind, acquire_spin. cbn. destruct (vdisk_lock s); [done|]. by intros [= <-].
Qed.
Lemma step_sim l c c' a : crel c a -> vstep l c c' -> ∃ a', (astep l a a' ∨ l = Tau ∧ a' = a) ∧ crel c' a'.
Proof.
  intros Hc Hv. pose proof Hc as (A & U & R). destruct Hv as [c p b w Hp Hq Hok|c b n l Hq Hl|c p b w sec r s' Hp Hs Hr|c p b w i j k s' Hp Hr|c p b w i j k s' Hp Hr|c p b w i j k s' Hp Hr|c p b w i j k s' Hp Hs Hr|c p b w i j k s' Hp Hs Hr|c s' Hi Hr|c more s' Hi Hr|c d' s' Hd].
  - eexists. split; [left; apply as_call|exists A, U; by apply rel_call].
    + by rewrite (r_req _ _ _ _ _ _ _ R), Hp.
    + intros q. by rewrite (r_req _ _ _ _ _ _ _ R), req_buf_of.
    + by rewrite (r_buf _ _ _ _ _ _ _ R).
  - eexists. split; [left; apply as_edit|exists A, U; by apply rel_edit]. intros q. by rewrite (r_req _ _ _ _ _ _ _ R), req_buf_of.
  - exists a. split; [by right|]. pose proof (acquired _ _ _ _ Hr) as Hl. pose proof (r_place _ _ _ _ _ _ _ R p) as Hpl. rewrite Hp in Hpl. cbn in Hpl. subst sec.
    destruct (rw_alloc_ok p b w _ Hl) as [(i & j & k & Hi & Hj & Hk & Hn & Fi & Fj & Fk & E)|(t & Hf & Hcalm & E)]; rewrite E in Hr; simplify_eq.
    + exists A, U. by eapply rel_alloc.
    + exists A, U. apply rel_sleep; [by eapply rel_calm|]. cbn. rewrite Hp. split; [done|]. intros x y z Hx Hy Hz Hn. rewrite !(calm_free _ _ Hcalm) by done. by apply Hf.
  - exists a. split; [by right|]. injection Hr as <-. exists (A ++ [i]), U. by eapply rel_publish.
  - exists a. split; [by right|]. rewrite (rw_notify_ok _ _ _ _ _ _ _ _ _ _ _ _ _ R Hp) in Hr. simplify_eq. exists A, U. by eapply rel_notify.
  - rewrite (rw_notify_ok _ _ _ _ _ _ _ _ _ _ _ _ _ R Hp) in Hr. done.
  - exists a. split; [by right|]. apply (again_sim _ _ _ _ _ _ _ _ _ _ Hc Hp Hs Hr).
  - destruct (again_sim _ _ _ _ _ _ _ _ _ _ Hc Hp Hs Hr) as (E1 & E2 & E3). eexists. split; [|exact E3]. left. rewrite E1. by eapply as_return.
  - exists a. split; [by right|]. exists A, U. destruct (intr_enter_ok _ _ Hr) as [Hl ->].
    apply (rel_intr _ _ _ _ _ (in_intr c)); [done|]. by eapply not_locked.
  - exists a. split; [by right|]. assert (Hl : vdisk_lock (dk c) = true) by (apply R; by left).
    assert (Hnot : ∀ q, ¬ is_notify (pcs c q)) by (intros q Hq; destruct (r_mutex _ _ _ _ _ _ _ R q q Hq); congruence).
    destruct (intr_round_ok _ _ _ _ _ _ _ R Hl) as [[-> E]|(h & U' & p & b & w & j & k & told & -> & Hp & Hb & [[Hst E]|[_ E]])]; rewrite E in Hr; simplify_eq.
    + exists A, []. pose proof (rel_intr _ _ _ _ _ (in_intr c) _ false (isr (dk c)) (irq (dk c)) R Hnot) as R'. cbn. by destruct (dk c).
    + exists A, U'. cbn. rewrite <- Hi. destruct told; [by eapply rel_ack|]. destruct (Hnot p). by rewrite Hp.
  - destruct (device_spec _ _ _ _ (rel_readable _ _ _ _ _ _ _ R) Hd) as [Ht|[Hf|(_ & -> & ->)]].
    + exists a. split; [by right|]. destruct (rel_took _ _ _ _ _ _ _ _ _ R Ht) as [A' R']. by exists A', U.
    + destruct (finish_step _ _ _ _ _ _ _ _ _ R Hf) as (a' & U' & Ha & R'). exists a'. split; [by left|]. by exists A, U'.
    + exists a. split; [by right|]. exists A, U. by apply rel_rest.
Qed.

(** ** Who has been told *)

(** The device knows of every chain that it has not taken, unless the caller is
    still about to notify it; what it has finished has been announced by an interrupt,
    or the handler is at work. *)
Record told (c : vconfig D) : Prop := {
  t_avail : last_avail (dev c) ≠ avail_idx (dk c) -> notified (dk c) = true ∨ ∃ p b w i j k, pcs c p = VWait b w i j k false;
  t_used : used_idx (dk c) ≠ dused_idx (dk c) -> irq (dk c) = true ∨ in_intr c = true;
  t_isr : isr (dk c) = 0 ∨ isr (dk c) = 1 ∧ irq (dk c) = true
}.

(** Steps in which neither the rings nor the registers change. *)
Definition same_bells (s s' : disk) : Prop :=
  avail_idx s' = avail_idx s ∧ notified s' = notified s ∧ used_idx s' = used_idx s ∧ dused_idx s' = dused_idx s ∧ isr s' = isr s ∧ irq s' = irq s.
Lemma told_frame c s' p x : told c -> same_bells (dk c) s' -> (∀ b w i j k, pcs c p ≠ VWait b w i j k false) ->
  told (c <| dk := s' |> <| pcs ::= fun f => upd f p x |>).
Proof.
  intros [T1 T2 T3] (E1 & E2 & E3 & E4 & E5 & E6) Hp. split; cbn; rewrite ?E1, ?E2, ?E3, ?E4, ?E5, ?E6; [|done|done].
  intros Hne. destruct (T1 Hne) as [|(q & b & w & i & j & k & Hq)]; [by left|right]. exists q, b, w, i, j, k. rewrite upd_ne; [done|]. intros ->. by apply Hp in Hq.
Qed.
Lemma told_same c s' p : told c -> same_bells (dk c) s' -> (∀ b w i j k, pcs c p ≠ VWait b w i j k false) -> told (c <| dk := s' |>).
Proof.
  intros Ht Hs Hp. pose proof (told_frame c s' p (pcs c p) Ht Hs Hp) as [T1 T2 T3]. split; [|done|done]. cbn in *. intros Hne. destruct (T1 Hne) as [|(q & Hq)]; [by left|right].
  exists q. by rewrite upd_same in Hq.
Qed.
Lemma calm_bells s s' p ch : calm s s' -> same_bells s (s' <| asleep ::= fun f => upd f p (Some ch) |>).
Proof. intros [_ _ _ E]. rewrite E. by repeat split. Qed.

Lemma round_bells s more s' : intr_round s = Ok more s' ->
  avail_idx s' = avail_idx s ∧ notified s' = notified s ∧ isr s' = isr s ∧ irq s' = irq s ∧ (more = false -> used_idx s' = dused_idx s').
Proof.
  unfold intr_round. rewrite (bind_Ok (gets id) _ s s s eq_refl). destruct (Z.eqb_spec (used_idx s) (dused_idx s)) as [E|E].
  - unfold mbind, M_bind, release_spin. cbn. destruct (vdisk_lock s); [|done]. intros [= <- <-]. by repeat split.
  - cbv zeta. destruct (_ || _); [done|]. destruct (negb _); [done|]. destruct (info_b s _) as [b|]; [|done]. intros [= <- <-]. by repeat split.
Qed.

Lemma step_told l c c' a : crel c a -> told c -> vstep l c c' -> told c'.
Proof.
  intros Hc Ht Hv. pose proof Hc as (A & U & R). pose proof (r_place _ _ _ _ _ _ _ R) as Hpl.
  destruct Hv as [c p b w Hp Hq Hok|c b n l Hq Hl|c p b w sec r s' Hp Hs Hr|c p b w i j k s' Hp Hr|c p b w i j k s' Hp Hr|c p b w i j k s' Hp Hr|c p b w i j k s' Hp Hs Hr|c p b w i j k s' Hp Hs Hr|c s' Hi Hr|c more s' Hi Hr|c d' s' Hd];
    try specialize (Hpl p); try rewrite Hp in Hpl.
  - pose proof (told_frame c (dk c) p (VAlloc b w (sector_of (vbufs (dk c) b))) Ht ltac:(by repeat split) ltac:(intros; by rewrite Hp)). by destruct c.
  - destruct Ht as [T1 T2 T3]. by split.
  - cbn in Hpl. subst sec. pose proof (acquired _ _ _ _ Hr) as Hl.
    destruct (rw_alloc_ok p b w _ Hl) as [(i & j & k & _ & _ & _ & _ & _ & _ & _ & E)|(t & _ & Hcalm & E)]; rewrite E in Hr; simplify_eq.
    + apply told_frame; [done|by repeat split|intros; by rewrite Hp].
    + apply (told_same c _ p); [done|by apply calm_bells|intros; by rewrite Hp].
  - injection Hr as <-. destruct Ht as [T1 T2 T3]. split; [|done|done]. intros _. right. exists p. eexists _, _, _, _, _. apply upd_eq.
  - rewrite (rw_notify_ok _ _ _ _ _ _ _ _ _ _ _ _ _ R Hp) in Hr. simplify_eq. destruct Ht as [T1 T2 T3]. split; [by left|done|done].
  - rewrite (rw_notify_ok _ _ _ _ _ _ _ _ _ _ _ _ _ R Hp) in Hr. done.
  - pose proof (acquired _ _ _ _ Hr) as Hl. destruct Hpl as [Hown [[_ Hb]|Hb]]; [by rewrite (rw_again_done _ _ _ _ _ _ _ Hl Hb Hown) in Hr|].
    rewrite (rw_again_sleep _ _ _ _ Hl Hb) in Hr. simplify_eq. apply (told_same c _ p); [done|by repeat split|intros; by rewrite Hp].
  - pose proof (acquired _ _ _ _ Hr) as Hl. destruct Hpl as [Hown [[_ Hb]|Hb]]; [|by rewrite (rw_again_sleep _ _ _ _ Hl Hb) in Hr].
    rewrite (rw_again_done _ _ _ _ _ _ _ Hl Hb Hown) in Hr. simplify_eq. apply told_frame; [done|by repeat split|intros; by rewrite Hp].
  - destruct (intr_enter_ok _ _ Hr) as [_ ->]. destruct Ht as [T1 T2 T3]. split; [done|by right|]. left. by destruct T3 as [->|[-> _]].
  - destruct (round_bells _ _ _ Hr) as (E1 & E2 & E3 & E4 & E5). destruct Ht as [T1 T2 T3]. split; cbn; rewrite ?E1, ?E2, ?E3, ?E4; [done| |done].
    intros Hne. destruct more; [by right|]. by destruct Hne; apply E5.
  - destruct Ht as [T1 T2 T3]. destruct (device_spec _ _ _ _ (rel_readable _ _ _ _ _ _ _ R) Hd) as [(Hne & -> & _)|[(h & r & st & l' & _ & Hla & _ & _ & _ & ->)|(E & -> & ->)]].
    + split; [|done|done]. intros _. by apply T1.
    + split; cbn; [rewrite Hla; exact T1| |].
      * intros _. left. by destruct T3 as [->|[-> ->]].
      * right. by destruct T3 as [->|[-> ->]].
    + split; [by intros []|done|done].
Qed.
End sim.

(** ** From boot *)
(** The static [struct disk] before [virtio_disk_init], and buffers of [BSIZE] bytes. *)
Definition unused (s : disk) : Prop :=
  used_idx s = 0 ∧ (∀ p, asleep s p = None) ∧ ∀ b, Z.of_nat (length (vdata (vbufs s b))) = block_size.
Definition fresh `{Device D} (d : D) : Prop := last_avail d = 0 ∧ pending d = [].
(** No interrupt has been raised. *)
Definition silent (s : disk) : Prop := isr s = 0.
Record vstart `{Device D} (c : vconfig D) : Prop := {
  vs_init : ∃ reg pages s0 stores, unused s0 ∧ virtio_disk_init reg pages s0 = Ok stores (dk c);
  vs_fresh : fresh (dev c);
  vs_silent : silent (dk c);
  vs_idle : ∀ p, pcs c p = VIdle;
  vs_quiet : in_intr c = false }.
(** What the callers see of a state without requests. *)
Definition seen `{Device D} (c : vconfig D) : aconfig :=
  AConfig (fun n => read_bytes (medium (dev c)) (block_size * n) block_size) (fun b => (vblockno (vbufs (dk c) b), vdata (vbufs (dk c) b))) (fun _ => None).

Lemma init_ok reg pages s0 stores s : virtio_disk_init reg pages s0 = Ok stores s ->
  (∀ i, slot i -> dfree s i = 1) ∧ avail_idx s = 0 ∧ dused_idx s = 0 ∧ vdisk_lock s = false ∧ used_idx s = used_idx s0 ∧ vbufs s = vbufs s0 ∧ asleep s = asleep s0.
Proof.
  unfold virtio_disk_init. unfold mbind, M_bind, modify. destruct (_ || _); [done|]. destruct (_ =? 0); [done|]. destruct (_ <? NUM); [done|].
  cbn. intros [= _ <-]. split; [|done]. intros i Hi. cbn. unfold slot, NUM in Hi. assert (Hc : i = 0 ∨ i = 1 ∨ i = 2 ∨ i = 3 ∨ i = 4 ∨ i = 5 ∨ i = 6 ∨ i = 7) by lia.
  by destruct Hc as [->|[->|[->|[->|[->|[->|[->| ->]]]]]]].
Qed.
Section boot.
Context `{DeviceSpec D}.
Implicit Types c : vconfig D.

Lemma start_rel c : vstart c -> crel c (seen c).
Proof.
  intros [(reg & pages & s0 & stores & (Hu & Hs & Hl) & E) [Hla Hpe] _ Hp Hi]. apply init_ok in E as (Hf & Ha & Hd & Hlk & E1 & E2 & E3).
  exists [], []. assert (Hnone : ∀ (P : vpc -> Prop), ¬ P VIdle -> ¬ ∃ p, P (pcs c p)) by (intros P HP [p Hq]; rewrite Hp in Hq; by apply HP).
  split; try done.
  - intros p. by rewrite Hp.
  - intros p q i _ Hin. rewrite Hp in Hin. by apply elem_of_nil in Hin.
  - intros i Hi' Hz. rewrite Hf in Hz by done. done.
  - intros p q b Hx. by rewrite Hp in Hx.
  - intros p b Hx. by rewrite Hp in Hx.
  - rewrite Hla, Ha. by split.
  - rewrite E1, Hu, Hd. by split.
  - rewrite Hpe. apply NoDup_nil. done.
  - intros h. rewrite Hpe. split; [intros Hx; by apply elem_of_nil in Hx|]. intros Hx. by destruct (Hnone (queued (dk c) h) ltac:(by intros []) Hx).
  - rewrite Hlk, Hi. split; [done|]. intros [?|Hx]; [done|]. by destruct (Hnone is_notify ltac:(by intros []) Hx).
  - intros p q Hx. by rewrite Hp in Hx.
  - intros p. by rewrite E3, Hs.
  - intros b. by rewrite E2.
  - intros p. by rewrite Hp.
Qed.
Lemma start_told c : vstart c -> told c.
Proof.
  intros [(reg & pages & s0 & stores & (Hu & _) & E) [Hla _] Hi _ _]. apply init_ok in E as (_ & Ha & Hd & _ & E1 & _).
  split; [by rewrite Hla, Ha|by rewrite E1, Hu, Hd|by left].
Qed.
Lemma run_sim c0 a0 tr c : crel c0 a0 -> vrun c0 tr c -> ∃ a, arun a0 tr a ∧ crel c a.
Proof.
  intros Hc0 Hr. induction Hr as [c|c tr c' c'' Hr IH Hv|c tr c' l c'' Hr IH Hv Hl].
  - exists a0. split; [constructor|done].
  - destruct (IH Hc0) as (a & Ha & Hc). destruct (step_sim _ _ _ _ Hc Hv) as (a' & [Hs|[_ ->]] & Hc'); [|by exists a].
    exists a'. split; [by eapply arun_tau|done].
  - destruct (IH Hc0) as (a & Ha & Hc). destruct (step_sim _ _ _ _ Hc Hv) as (a' & [Hs|[? _]] & Hc'); [|done].
    exists a'. split; [by eapply arun_step|done].
Qed.
Lemma reach_rel c0 tr c : vstart c0 -> vrun c0 tr c -> ∃ a, arun (seen c0) tr a ∧ crel c a.
Proof. intros Hs Hr. eapply run_sim; [by apply start_rel|done]. Qed.

Lemma reach_told c0 tr c : vstart c0 -> vrun c0 tr c -> told c.
Proof.
  intros Hs Hr. assert (Hd : vrun c0 tr c) by done. induction Hr as [c|c tr c' c'' Hr IH Hv|c tr c' l c'' Hr IH Hv Hl]; [by apply start_told|..];
    destruct (reach_rel _ _ _ Hs Hr) as (a & _ & Hc); eapply step_told; eauto.
Qed.

(** C11: the disk driver with a virtio device implements a disk with atomic blocks.
    Whatever the interleaving of callers, interrupts and device, and in whatever order
    the device finishes requests, the calls and returns that the callers see, with the
    contents of the buffers, are those of a disk on which each request is carried out
    at once between its call and its return; a request that the device reports as
    failed never returns; the medium and the buffers hold what that disk holds. *)
Theorem virtio_refines c0 tr c : vstart c0 -> vrun c0 tr c ->
  ∃ a, arun (seen c0) tr a ∧
    (∀ n, block_ok n -> ablock a n = read_bytes (medium (dev c)) (block_size * n) block_size) ∧
    (∀ b, abuf a b = (vblockno (vbufs (dk c) b), vdata (vbufs (dk c) b))).
Proof. intros Hs Hr. destruct (reach_rel _ _ _ Hs Hr) as (a & Ha & A & U & R). exists a. split; [done|]. split; apply R. Qed.

(** C12: in every state the driver can reach, each of its operations that is not waiting
    for the lock returns: there is no double free of a descriptor, no null buffer, no
    index outside an array.  The only panic is the one for a request that the device
    has finished with a status other than 0. *)
Theorem virtio_no_fault c0 tr c : vstart c0 -> vrun c0 tr c ->
  (∀ p b w sec, pcs c p = VAlloc b w sec -> vdisk_lock (dk c) = false -> ∃ r s', rw_alloc p b w sec (dk c) = Ok r s') ∧
  (∀ p b w i j k, pcs c p = VPublish b w i j k -> ∃ s', rw_publish (dk c) = Ok tt s') ∧
  (∀ p b w i j k, pcs c p = VWait b w i j k false -> ∃ s', rw_notify p b i (dk c) = Ok false s') ∧
  (∀ p b w i j k, pcs c p = VWait b w i j k true -> vdisk_lock (dk c) = false -> ∃ r s', rw_again p b i (dk c) = Ok r s') ∧
  (in_intr c = true -> (∃ r s', intr_round (dk c) = Ok r s') ∨
     (intr_round (dk c) = Panic "virtio_disk_intr status" ∧ used_idx (dk c) ≠ dused_idx (dk c) ∧ info_status (dk c) (dused_ring (dk c) (used_idx (dk c) mod NUM)) ≠ 0)).
Proof.
  intros Hs Hr. destruct (reach_rel _ _ _ Hs Hr) as (a & Ha & A & U & R). pose proof (r_place _ _ _ _ _ _ _ R) as Hpl. split_and!.
  - intros p b w sec Hp Hl. specialize (Hpl p). rewrite Hp in Hpl. cbn in Hpl. subst sec. destruct (rw_alloc_ok p b w _ Hl) as [(i & j & k & _ & _ & _ & _ & _ & _ & _ & E)|(t & _ & _ & E)]; rewrite E; by eexists _, _.
  - intros p b w i j k _. by eexists.
  - intros p b w i j k Hp. rewrite (rw_notify_ok _ _ _ _ _ _ _ _ _ _ _ _ _ R Hp). by eexists.
  - intros p b w i j k Hp Hl. specialize (Hpl p). rewrite Hp in Hpl. destruct Hpl as [Hown [[_ Hb]|Hb]]; [rewrite (rw_again_done _ _ _ _ _ _ _ Hl Hb Hown)|rewrite (rw_again_sleep _ _ _ _ Hl Hb)]; by eexists _, _.
  - intros Hi. assert (Hl : vdisk_lock (dk c) = true) by (apply R; by left).
    destruct (intr_round_ok _ _ _ _ _ _ _ R Hl) as [[-> E]|(h & U' & p & b & w & j & k & n & -> & Hp & Hb & [[Hst E]|[Hst E]])]; [left; by eexists _, _..|right].
    pose proof (r_used _ _ _ _ _ _ _ R) as Hu. pose proof (r_bound _ _ _ _ _ _ _ R) as Hbd. rewrite !length_app in Hbd.
    pose proof (queue_empty _ _ _ _ Hu ltac:(lia)) as He. split; [done|]. split; [by intros [=]%He|]. by destruct (queue_pop _ _ _ _ _ Hu) as [-> _].
Qed.

(** Somebody other than the sleepers has to act, and knows it: the device has been
    notified of a chain it has not taken, or has one to finish; or a finished request
    has been announced by an interrupt that is pending or being handled; or a caller
    is awake. *)
Definition progress c : Prop :=
  last_avail (dev c) ≠ avail_idx (dk c) ∧ notified (dk c) = true ∨ pending (dev c) ≠ [] ∨
  used_idx (dk c) ≠ dused_idx (dk c) ∧ (irq (dk c) = true ∨ in_intr c = true) ∨ ∃ q, pcs c q ≠ VIdle ∧ asleep (dk c) q = None.

Lemma queued_progress c a q b w i j k n : crel c a -> told c -> pcs c q = VWait b w i j k n -> progress c.
Proof.
  intros (A & U & R) [T1 T2 _] Hq. pose proof (r_sleep _ _ _ _ _ _ _ R) as Hsl. pose proof (r_bound _ _ _ _ _ _ _ R) as Hbd. rewrite !length_app in Hbd.
  pose proof (queue_empty _ _ _ _ (r_used _ _ _ _ _ _ _ R) ltac:(lia)) as HU. pose proof (queue_empty _ _ _ _ (r_avail _ _ _ _ _ _ _ R) ltac:(lia)) as HA.
  destruct (asleep (dk c) q) as [ch|] eqn:E; [|right; right; right; exists q; by rewrite Hq].
  pose proof (Hsl q) as Hb. rewrite E, Hq in Hb. destruct Hb as (_ & Hb & _). assert (Hin : i ∈ A ++ pending (dev c) ++ U) by (apply R; exists q; by rewrite Hq).
  destruct A as [|h A].
  - destruct (pending (dev c)) eqn:Ep; [|by right; left; rewrite Ep]. destruct U; [by apply elem_of_nil in Hin|]. right. right. left.
    assert (Hne : used_idx (dk c) ≠ dused_idx (dk c)) by (by rewrite HU). auto.
  - assert (Hne : last_avail (dev c) ≠ avail_idx (dk c)) by (by rewrite HA). destruct (T1 Hne) as [|(p & b' & w' & i' & j' & k' & Hp)]; [by left|].
    right. right. right. exists p. rewrite Hp. split; [done|]. pose proof (Hsl p) as Hsp. rewrite Hp in Hsp. destruct (asleep (dk c) p); [|done]. by destruct Hsp as (_ & _ & ?).
Qed.

(** C13: nobody sleeps in the driver without a reason.  As long as a process sleeps
    there, somebody else has to act and has been told so ([progress]): the device has
    been notified (the store to QUEUE_NOTIFY) of a request that it has not taken, or it
    has one to finish; or a finished request waits for the interrupt handler, which is
    running or has its interrupt pending (it clears INTERRUPT_STATUS, without which
    the device would not interrupt again); or another caller is awake.  And a process
    sleeps for descriptors only while fewer than three are free, for its buffer
    only until the interrupt handler has seen the request finished. *)
Theorem virtio_no_lost_wakeup c0 tr c p ch : vstart c0 -> vrun c0 tr c -> asleep (dk c) p = Some ch ->
  progress c ∧ match ch with ChFree => few (dfree (dk c)) | ChBuf b => bdisk (vbufs (dk c) b) = 1 end.
Proof.
  intros Hs Hr Hp. destruct (reach_rel _ _ _ Hs Hr) as (a & Ha & Hc). pose proof (reach_told _ _ _ Hs Hr) as Ht. pose proof Hc as (A & U & R).
  pose proof (r_sleep _ _ _ _ _ _ _ R) as Hsl. pose proof (Hsl p) as Hslp. rewrite Hp in Hslp. destruct (pcs c p) as [|b w sec| |b w i j k n] eqn:E; try done.
  - destruct Hslp as [-> Hf]. split; [|done]. assert (Hz : ∃ x, slot x ∧ dfree (dk c) x = 0).
    { destruct (Hf 0 1 2) as [Hz|[Hz|Hz]]; try (by unfold slot, NUM); [repeat (apply NoDup_cons; split; [set_solver|]); apply NoDup_nil; done|exists 0|exists 1|exists 2]; by unfold slot, NUM. }
    destruct Hz as (x & Hx & Hz). apply (r_leak _ _ _ _ _ _ _ R) in Hz as [q Hq]; [|done]. destruct (pcs c q) eqn:Eq; try (by apply elem_of_nil in Hq); [|by eapply queued_progress].
    right. right. right. exists q. rewrite Eq. split; [done|]. specialize (Hsl q). rewrite Eq in Hsl. by destruct (asleep (dk c) q).
  - destruct Hslp as (-> & Hb & _). split; [by eapply queued_progress|done].
Qed.
End boot.

(** * a device that meets the specification, and a run with it *)

(** ** A device that handles one request after the other *)
Record simple_dev := SimpleDev { sd_medium : Z -> Z; sd_last : Z; sd_pending : list Z }.
Definition sd_exec (d : simple_dev) (s : disk) : option (simple_dev * disk) :=
  match sd_pending d with
  | [] =>
      if sd_last d =? avail_idx s then if notified s then Some (d, s <| notified := false |>) else None
      else Some (SimpleDev (sd_medium d) (u16 (sd_last d + 1)) [avail_ring s (sd_last d mod NUM)], s)
  | h :: rest =>
      match request_at s h with
      | None => None
      | Some r =>
          let l := vdata (vbufs s (rq_buf r)) in
          let a := 512 * rq_sector r in
          let m := if rq_write r then write_bytes (sd_medium d) a (take (Z.to_nat (rq_len r)) l) else sd_medium d in
          let l' := if rq_write r then l else read_bytes (sd_medium d) a (rq_len r) ++ drop (Z.to_nat (rq_len r)) l in
          if Z.of_nat (length l) <? rq_len r then None
          else Some (SimpleDev m (sd_last d) rest, raise (push_used h (put_status (rq_status r) 0 (put_data (rq_buf r) l' s))))
      end
  end.
#[export] Instance simple_device : Device simple_dev := {
  medium := sd_medium; last_avail := sd_last; pending := sd_pending;
  dev_step d s d' s' := sd_exec d s = Some (d', s') }.
#[export] Instance simple_device_spec : DeviceSpec simple_dev.
Proof.
  intros d s d' s' _ Hd. cbn in Hd. unfold sd_exec in Hd. destruct (sd_pending d) as [|h rest] eqn:Ep.
  - destruct (Z.eqb_spec (sd_last d) (avail_idx s)) as [E|]; [right; right; destruct (notified s); [|done]; by injection Hd as <- <-|left]. injection Hd as <- <-. unfold took. cbn. by rewrite Ep.
  - right. left. destruct (request_at s h) as [r|] eqn:Er; [|done]. destruct (Z.ltb_spec (Z.of_nat (length (vdata (vbufs s (rq_buf r))))) (rq_len r)); [done|].
    injection Hd as <- <-. exists h, r, 0. eexists. cbn. rewrite Ep. split; [done|]. split; [done|]. split; [done|]. split; [lia|]. split; [|done].
    unfold transferred. cbn. destruct (rq_write r).
    + split; [done|]. by eexists.
    + split; [done|]. split; [|done]. rewrite length_app, length_drop. unfold read_bytes. rewrite length_fmap, length_seqZ. lia.
Qed.

(** ** Running the system *)
Inductive action := AcAlloc (p : Z) | AcPublish (p : Z) | AcNotify (p : Z) | AcAgain (p : Z) | AcIntr | AcRound | AcDev.
Definition act (x : action) (c : vconfig simple_dev) : option (vlabel * vconfig simple_dev) :=
  match x with
  | AcAlloc p =>
      match pcs c p, asleep (dk c) p with
      | VAlloc b w sec, None =>
          match rw_alloc p b w sec (dk c) with
          | Ok r s' => Some (Tau, c <| dk := s' |> <| pcs ::= fun f => match r with Some (i0, i1, i2) => upd f p (VPublish b w i0 i1 i2) | None => f end |>)
          | _ => None
          end
      | _, _ => None
      end
  | AcPublish p =>
      match pcs c p with
      | VPublish b w i0 i1 i2 =>
          match rw_publish (dk c) with
          | Ok tt s' => Some (Tau, c <| dk := s' |> <| pcs ::= fun f => upd f p (VWait b w i0 i1 i2 false) |>)
          | _ => None
          end
      | _ => None
      end
  | AcNotify p =>
      match pcs c p with
      | VWait b w i0 i1 i2 false =>
          match rw_notify p b i0 (dk c) with
          | Ok false s' => Some (Tau, c <| dk := s' |> <| pcs ::= fun f => upd f p (VWait b w i0 i1 i2 true) |>)
          | _ => None
          end
      | _ => None
      end
  | AcAgain p =>
      match pcs c p, asleep (dk c) p with
      | VWait b w i0 i1 i2 true, None =>
          match rw_again p b i0 (dk c) with
          | Ok true s' => Some (EReturn p b (vdata (vbufs s' b)), c <| dk := s' |> <| pcs ::= fun f => upd f p VIdle |>)
          | Ok false s' => Some (Tau, c <| dk := s' |>)
          | _ => None
          end
      | _, _ => None
      end
  | AcIntr =>
      if in_intr c then None
      else match intr_enter ((dk c) <| irq := false |>) with Ok tt s' => Some (Tau, c <| dk := s' |> <| in_intr := true |>) | _ => None end
  | AcRound =>
      if in_intr c then match intr_round (dk c) with Ok more s' => Some (Tau, c <| dk := s' |> <| in_intr := more |>) | _ => None end
      else None
  | AcDev => match sd_exec (dev c) (dk c) with Some (d', s') => Some (Tau, c <| dk := s' |> <| dev := d' |>) | None => None end
  end.
Definition visible (l : vlabel) : list vlabel := match l with Tau => [] | _ => [l] end.
Fixpoint acts (xs : list action) (tr : list vlabel) (c : vconfig simple_dev) : option (list vlabel * vconfig simple_dev) :=
  match xs with
  | [] => Some (tr, c)
  | x :: xs' => match act x c with Some (l, c') => acts xs' (tr ++ visible l) c' | None => None end
  end.
Lemma act_step x c l c' : act x c = Some (l, c') -> vstep l c c'.
Proof.
  destruct x; cbn [act]; intros Ha; repeat (case_match; try done); simplify_eq; try (by econstructor).
  - exact (vs_alloc c p b write sec (Some (z0, z1, z)) s H H0 H1).
  - exact (vs_alloc c p b write sec None s H H0 H1).
Qed.
Lemma acts_run xs c0 tr c tr' c' : vrun c0 tr c -> acts xs tr c = Some (tr', c') -> vrun c0 tr' c'.
Proof.
  revert tr c. induction xs as [|x xs IH]; cbn [acts]; intros tr c Hr Ha; [by simplify_eq|].
  destruct (act x c) as [[l c1]|] eqn:E; [|done]. apply act_step in E. eapply IH; [|exact Ha]. destruct l; cbn; [rewrite app_nil_r; by eapply vrun_tau|by eapply vrun_step..].
Qed.

(** ** A write by process 1 and a read by process 2 *)
Definition reg (r : Z) : Z :=
  if r =? VIRTIO_MMIO_MAGIC_VALUE then 0x74726976 else if r =? VIRTIO_MMIO_VERSION then 1
  else if r =? VIRTIO_MMIO_DEVICE_ID then 2 else if r =? VIRTIO_MMIO_VENDOR_ID then 0x554d4551
  else if r =? VIRTIO_MMIO_QUEUE_NUM_MAX then 1024 else 0.
Definition sevens : list Z := replicate (Z.to_nat block_size) 7.
Definition ones : list Z := replicate (Z.to_nat block_size) 1.
Definition disk0 : disk :=
  Disk (fun _ => null_desc) 0 (fun _ => 0) 0 (fun _ => 0) (fun _ => 0) 0 (fun _ => None) (fun _ => 0) (fun _ => VirtioBlkReq 0 0 0) false
    (fun b => VBuf 33 (if b =? 5 then sevens else ones) 0) (fun _ => None) false 0 false.
Definition booted : disk := match virtio_disk_init reg 0x80010000 disk0 with Ok _ s => s | _ => disk0 end.
Definition c0 : vconfig simple_dev := VConfig booted (SimpleDev (fun _ => 0) 0 []) (fun _ => VIdle) false.
Lemma vc0_start : vstart c0.
Proof.
  split; [|done|done|done|done]. eexists reg, 0x80010000, disk0, _. split; [|vm_compute; reflexivity].
  split; [done|]. split; [done|]. intros b. cbn. by destruct (b =? 5).
Qed.
Definition c1 : vconfig simple_dev := c0 <| pcs ::= fun f => upd f 1 (VAlloc 5 true (sector_of (vbufs (dk c0) 5))) |>.
Definition c2 : vconfig simple_dev := c1 <| pcs ::= fun f => upd f 2 (VAlloc 6 false (sector_of (vbufs (dk c1) 6))) |>.
Lemma c2_run : vrun c0 [ECall 1 5 true; ECall 2 6 false] c2.
Proof.
  change [ECall 1 5 true; ECall 2 6 false] with (([] ++ [ECall 1 5 true]) ++ [ECall 2 6 false]).
  eapply vrun_step; [eapply vrun_step; [constructor|apply vs_call|]|apply vs_call|]; try done.
  intros q. cbn. unfold upd. by case_decide.
Qed.
(** Both are submitted, the device carries out both, one interrupt serves both. *)
Definition plan : list action :=
  [AcAlloc 1; AcPublish 1; AcNotify 1; AcAlloc 2; AcPublish 2; AcNotify 2; AcDev; AcDev; AcDev; AcDev; AcDev; AcIntr; AcRound; AcRound; AcRound; AcAgain 2; AcAgain 1].
Definition outcome_trace : list vlabel := [ECall 1 5 true; ECall 2 6 false; EReturn 2 6 sevens; EReturn 1 5 sevens].
Lemma plan_runs : fst <$> acts plan [ECall 1 5 true; ECall 2 6 false] c2 = Some outcome_trace.
Proof. vm_compute. reflexivity. Qed.
Lemma plan_run : ∃ c, vrun c0 outcome_trace c.
Proof.
  pose proof plan_runs as E. destruct (acts plan _ c2) as [[tr c]|] eqn:Ea; [|done]. injection E as ->. exists c. by eapply acts_run; [apply c2_run|].
Qed.
Definition half : list action := [AcAlloc 1; AcPublish 1; AcNotify 1; AcAlloc 2; AcPublish 2; AcNotify 2; AcDev; AcDev; AcIntr].
Lemma half_runs : (fun r => (r.1, in_intr r.2, asleep (dk r.2) 1)) <$> acts half [ECall 1 5 true; ECall 2 6 false] c2 =
  Some ([ECall 1 5 true; ECall 2 6 false], true, Some (ChBuf 5)).
Proof. vm_compute. reflexivity. Qed.

Lemma virtio_refines_witness : ∃ a, arun (seen c0) outcome_trace a.
Proof.
  destruct plan_run as [c Hr]. destruct (virtio_refines c0 outcome_trace c vc0_start Hr) as (a & Ha & _). exists a. exact Ha.
Defined.
Lemma virtio_no_fault_witness : ∃ c : vconfig simple_dev, in_intr c = true ∧ ((∃ r s', intr_round (dk c) = Ok r s') ∨ intr_round (dk c) = Panic "virtio_disk_intr status").
Proof.
  pose proof half_runs as E. destruct (acts half _ c2) as [[tr c]|] eqn:Ea; [|done]. cbn in E. injection E as -> Hi _. exists c. split; [exact Hi|].
  destruct (virtio_no_fault c0 _ c vc0_start (acts_run _ _ _ _ _ _ c2_run Ea)) as (_ & _ & _ & _ & Hx). destruct (Hx Hi) as [?|[? _]]; [left|right]; assumption.
Defined.
Lemma virtio_no_lost_wakeup_witness : ∃ c : vconfig simple_dev, asleep (dk c) 1 = Some (ChBuf 5) ∧ bdisk (vbufs (dk c) 5) = 1.
Proof.
  pose proof half_runs as E. destruct (acts half _ c2) as [[tr c]|] eqn:Ea; [|done]. cbn in E. injection E as -> _ Hs. exists c. split; [exact Hs|].
  exact (proj2 (virtio_no_lost_wakeup c0 _ c 1 (ChBuf 5) vc0_start (acts_run _ _ _ _ _ _ c2_run Ea) Hs)).
Defined.
