(* ===== verification/Umalloc.v ===== *)
(** * Umalloc: user/umalloc.c, the allocator of user programs

    The free blocks are a circular list in the order of their addresses, kept in
    headers of 16 bytes before each block; [base] is a header of its own that is
    always on the list.  Headers are two functions of their address.  [sbrk] is
    sys_sbrk of kernel/sysproc.c with [growproc], in the arithmetic of its types:
    [grows oldsz newsz] says whether [uvmalloc] finds the memory, [ubrk] is the size of
    the process. *)

From S2P Require Import Prelude.

Record uheap := UHeap { hptr : Z -> Z; hsize : Z -> Z; freep : Z; ubrk : Z }.
#[export] Instance uheap_eta : Eta uheap := fun r => UHeap (hptr r) (hsize r) (freep r) (ubrk r).

(** [sizeof(Header)]. *)
Definition hdr : Z := 16.
Definition set_ptr (p v : Z) : M uheap unit := modify (fun s => s <| hptr ::= fun f => upd f p v |>).
Definition set_size (p v : Z) : M uheap unit := modify (fun s => s <| hsize ::= fun f => upd f p (u32 v) |>).

Section umalloc.
Context (base : Z) (grows : Z -> Z -> bool).

(** A list of free blocks of 16 bytes at least is no longer than the process is large. *)
Definition heap_fuel (s : uheap) : nat := S (S (Z.to_nat (ubrk s))).

(** The loop of [free]: the block after which [bp] belongs. *)
Fixpoint free_find (fuel : nat) (bp p : Z) : M uheap Z :=
  match fuel with
  | O => no_fuel
  | S fuel' =>
      s ← gets id;
      if (p <? bp) && (bp <? hptr s p) then mret p
      else if (hptr s p <=? p) && ((p <? bp) || (bp <? hptr s p)) then mret p
      else free_find fuel' bp (hptr s p)
  end.
Definition ufree (ap : Z) : M uheap unit :=
  let bp := ap - hdr in
  s ← gets id;
  p ← free_find (heap_fuel s + heap_fuel s) bp (freep s);
  s ← gets id;
  (if bp + hdr * hsize s bp =? hptr s p then
     set_size bp (hsize s bp + hsize s (hptr s p));;
     s ← gets id;
     set_ptr bp (hptr s (hptr s p))
   else set_ptr bp (hptr s p));;
  s ← gets id;
  (if p + hdr * hsize s p =? bp then
     set_size p (hsize s p + hsize s bp);;
     s ← gets id;
     set_ptr p (hptr s bp)
   else set_ptr p bp);;
  modify (fun s => s <| freep := p |>).

(** What [uvmalloc] and [uvmdealloc] return. *)
Definition uvmalloc_size (oldsz newsz : Z) : Z :=
  if newsz <? oldsz then oldsz else if grows oldsz newsz then newsz else 0.
Definition uvmdealloc_size (oldsz newsz : Z) : Z := if oldsz <=? newsz then oldsz else newsz.
(** [growproc]: the new size of a process of size [sz], or [None] when it fails; [n] is
    an [int], and the local variable [sz] a [uint]. *)
Definition growproc_size (sz n : Z) : option Z :=
  let sz := u32 sz in
  if 0 <? n then
    let sz := u32 (uvmalloc_size sz (u32 (sz + n))) in
    if sz =? 0 then None else Some sz
  else if n <? 0 then Some (u32 (uvmdealloc_size sz (u32 (sz + n))))
  else Some sz.
(** [sys_sbrk]; [addr] is an [int]. *)
Definition sbrk (n : Z) : M uheap Z :=
  s ← gets id;
  let addr := i32 (ubrk s) in
  match growproc_size (ubrk s) n with
  | None => mret (-1)
  | Some sz =>
      modify (fun s => s <| ubrk := sz |>);;
      mret addr
  end.

Definition morecore (nu : Z) : M uheap Z :=
  let nu := if nu <? 4096 then 4096 else nu in
  p ← sbrk (i32 (nu * hdr));
  if p =? -1 then mret 0 else
  set_size p nu;;
  ufree (p + hdr);;
  gets freep.

Fixpoint malloc_loop (fuel : nat) (nunits prevp p : Z) : M uheap Z :=
  match fuel with
  | O => no_fuel
  | S fuel' =>
      s ← gets id;
      if nunits <=? hsize s p then
        q ← (if hsize s p =? nunits then
               set_ptr prevp (hptr s p);;
               mret p
             else
               set_size p (hsize s p - nunits);;
               s ← gets id;
               let q := p + hdr * hsize s p in
               set_size q nunits;;
               mret q);
        modify (fun s => s <| freep := prevp |>);;
        mret (q + hdr)
      else if p =? freep s then
        p ← morecore nunits;
        if p =? 0 then mret 0 else
        s ← gets id;
        malloc_loop fuel' nunits p (hptr s p)
      else malloc_loop fuel' nunits p (hptr s p)
  end.
Definition units (nbytes : Z) : Z := u32 ((nbytes + hdr - 1) / hdr + 1).
Definition malloc (nbytes : Z) : M uheap Z :=
  let nunits := units nbytes in
  s ← gets id;
  (if freep s =? 0 then
     modify (fun s => s <| freep := base |>);;
     set_ptr base base;;
     set_size base 0
   else mret tt);;
  s ← gets id;
  malloc_loop (heap_fuel s + heap_fuel s + heap_fuel s) nunits (freep s) (hptr s (freep s)).
End umalloc.
