(* ===== verification/UmallocInv.v ===== *)
(** * UmallocInv: [free] and [malloc] keep every byte in exactly one block *)

From S2P Require Import Prelude Umalloc.

(** * the free list in memory and the blocks it stands for *)

(** A block: its address and its size in headers. *)
Abbreviation seg := (Z * Z)%type.
Definition seg_end (b : seg) : Z := b.1 + hdr * b.2.
Definition inside (x : Z) (b : seg) : bool := (b.1 <=? x) && (x <? seg_end b).
(** How many of the blocks a byte lies in. *)
Fixpoint cnt (x : Z) (l : list seg) : Z :=
  match l with [] => 0 | b :: l' => (if inside x b then 1 else 0) + cnt x l' end.

Lemma cnt_nonneg x l : 0 <= cnt x l.
Proof. induction l as [|b l IH]; simpl; [lia|]. case_match; lia. Qed.
Lemma cnt_app x l1 l2 : cnt x (l1 ++ l2) = cnt x l1 + cnt x l2.
Proof. induction l1 as [|b l IH]; simpl; lia. Qed.
Lemma cnt_perm x l1 l2 : l1 ≡ₚ l2 -> cnt x l1 = cnt x l2.
Proof. induction 1; simpl; lia. Qed.
Lemma inside_spec x b : inside x b = true <-> b.1 <= x < seg_end b.
Proof. unfold inside. rewrite andb_true_iff, Z.leb_le, Z.ltb_lt. done. Qed.
Lemma cnt_in x l b : b ∈ l -> inside x b = true -> 1 <= cnt x l.
Proof. induction 1; intros Hi; simpl; [rewrite Hi; pose proof (cnt_nonneg x l); lia|]. pose proof (IHlist_elem_of Hi). case_match; lia. Qed.
Lemma cnt_out x l : (∀ b, b ∈ l -> inside x b = false) -> cnt x l = 0.
Proof. induction l as [|b l IH]; intros Hl; simpl; [done|]. rewrite (Hl b) by (by left). rewrite IH; [done|]. intros c Hc. apply Hl. by right. Qed.
(** A block is worth its two parts. *)
Lemma cnt_split x a n m l : 0 <= m <= n -> cnt x ((a, n) :: l) = cnt x ((a, m) :: (a + hdr * m, n - m) :: l).
Proof.
  intros Hm. cbn [cnt]. unfold inside, seg_end, hdr. cbn [fst snd].
  destruct (Z.leb_spec a x), (Z.ltb_spec x (a + 16 * n)), (Z.ltb_spec x (a + 16 * m)), (Z.leb_spec (a + 16 * m) x), (Z.ltb_spec x (a + 16 * m + 16 * (n - m))); cbn [andb]; lia.
Qed.
Lemma cnt_join x a n m l : 0 <= n -> 0 <= m -> cnt x ((a, n) :: (a + hdr * n, m) :: l) = cnt x ((a, n + m) :: l).
Proof. intros. rewrite (cnt_split x a (n + m) n) by lia. by replace (n + m - n) with m by lia. Qed.
(** Blocks that share no byte with others. *)
Lemma cnt_apart l b c r x : l ≡ₚ b :: c :: r -> (∀ x, cnt x l <= 1) -> b.1 <= x < seg_end b -> ¬ c.1 <= x < seg_end c.
Proof.
  intros Hp Hl Hb Hc. specialize (Hl x). rewrite (cnt_perm _ _ _ Hp) in Hl. cbn [cnt] in Hl.
  rewrite (proj2 (inside_spec x b) Hb), (proj2 (inside_spec x c) Hc) in Hl. pose proof (cnt_nonneg x r). lia.
Qed.

(** ** The list *)
Fixpoint linked (h : Z -> Z) (x : Z) (l : list Z) (z : Z) : Prop :=
  match l with [] => h x = z | y :: l' => h x = y ∧ linked h y l' z end.
Lemma linked_app h x l1 y l2 z : linked h x (l1 ++ y :: l2) z <-> linked h x l1 y ∧ linked h y l2 z.
Proof. revert x. induction l1 as [|w l1 IH]; intros x; cbn; [done|]. rewrite IH. tauto. Qed.
Lemma linked_frame h x l z k v : k ∉ x :: l -> linked h x l z -> linked (upd h k v) x l z.
Proof.
  revert x. induction l as [|y l IH]; intros x Hk; cbn; [rewrite upd_ne; [done|set_solver]|].
  rewrite upd_ne by set_solver. intros [-> Hl]. split; [done|]. apply IH; [set_solver|done].
Qed.
(** Redirecting the last pointer. *)
Lemma linked_last h x l z z' k : NoDup (x :: l) -> linked h x l z -> last (x :: l) = Some k -> linked (upd h k z') x l z'.
Proof.
  revert x. induction l as [|y l IH]; intros x Hn Hl Hk.
  - cbn in *. injection Hk as <-. apply upd_eq.
  - rewrite last_cons_cons in Hk. destruct Hl as [Hy Hl]. apply NoDup_cons in Hn as [Hx Hn]. split; [|by apply IH].
    rewrite upd_ne; [done|]. apply last_Some_elem_of in Hk. set_solver.
Qed.
Lemma linked_rotate h b l z : linked h b l b -> z ∈ b :: l -> ∃ l', linked h z l' z ∧ z :: l' ≡ₚ b :: l.
Proof.
  intros Hl [->|Hz]%elem_of_cons; [by exists l|]. apply list_elem_of_split in Hz as (l1 & l2 & ->). apply linked_app in Hl as [H1 H2].
  exists (l2 ++ b :: l1). split; [by apply linked_app|solve_Permutation].
Qed.

(** Blocks in ascending order that do not touch: each starts after [x], the end of the
    one before. *)
Fixpoint asc (x : Z) (F : list seg) : Prop :=
  match F with [] => True | b :: F' => x < b.1 ∧ 1 <= b.2 ∧ asc (seg_end b) F' end.
Lemma asc_weaken x y F : asc x F -> y <= x -> asc y F.
Proof. destruct F as [|b F]; [done|]. cbn. intuition lia. Qed.
Lemma asc_in x F b : asc x F -> b ∈ F -> x < b.1 ∧ 1 <= b.2.
Proof.
  revert x. induction F as [|c F IH]; intros x Ha Hb; [by apply elem_of_nil in Hb|]. destruct Ha as (H1 & H2 & H3).
  apply elem_of_cons in Hb as [->|Hb]; [done|]. destruct (IH _ H3 Hb). unfold seg_end, hdr in *. lia.
Qed.
Lemma asc_app x F1 b F2 : asc x (F1 ++ b :: F2) <-> asc x F1 ∧ (∀ c, c ∈ F1 -> seg_end c < b.1) ∧ x < b.1 ∧ 1 <= b.2 ∧ asc (seg_end b) F2.
Proof.
  revert x. induction F1 as [|c F1 IH]; intros x; cbn [app asc].
  - split; [intros H; split; [done|]; split; [intros c Hc; by apply elem_of_nil in Hc|done]|tauto].
  - rewrite IH. split.
    + intros (H1 & H2 & H3 & H4 & H5 & H6). split; [done|]. split; [intros d [->|Hd]%elem_of_cons; [done|auto]|]. unfold seg_end, hdr in *. split; [lia|done].
    + intros ((H1 & H2 & H3) & H4 & H5 & H6). split; [done|]. split; [done|]. split; [done|]. split; [intros d Hd; apply H4; by right|]. split; [apply H4; by left|done].
Qed.
Lemma asc_nodup x y F : asc x F -> y <= x -> NoDup (y :: F.*1).
Proof.
  revert x y. induction F as [|b F IH]; intros x y Ha Hy; [by apply NoDup_singleton|]. apply NoDup_cons. split.
  - intros (c & -> & Hc)%list_elem_of_fmap. destruct (asc_in _ _ _ Ha Hc). lia.
  - destruct Ha as (H1 & H2 & H3). cbn. eapply IH; [done|]. unfold seg_end, hdr. lia.
Qed.
Lemma asc_split x F z : asc x F -> ∃ F1 F2, F = F1 ++ F2 ∧ (∀ b, b ∈ F1 -> b.1 < z) ∧ (∀ b, b ∈ F2 -> z <= b.1).
Proof.
  revert x. induction F as [|b F IH]; intros x Ha; [exists [], []; split; [done|]; split; intros b Hb; by apply elem_of_nil in Hb|].
  destruct Ha as (H1 & H2 & H3). destruct (Z.lt_ge_cases b.1 z).
  - destruct (IH _ H3) as (F1 & F2 & -> & Ha & Hb). exists (b :: F1), F2. split; [done|]. split; [intros c [->|Hc]%elem_of_cons; auto|done].
  - exists [], (b :: F). split; [done|]. split; [intros c Hc; by apply elem_of_nil in Hc|]. intros c [->|Hc]%elem_of_cons; [done|].
    destruct (asc_in _ _ _ H3 Hc). unfold seg_end, hdr in *. lia.
Qed.
Lemma asc_length x F e : asc x F -> (∀ b, b ∈ F -> seg_end b <= e) -> x <= e -> Z.of_nat (length F) <= e - x.
Proof.
  revert x. induction F as [|b F IH]; intros x Ha He Hx; [simpl; lia|]. destruct Ha as (H1 & H2 & H3).
  specialize (IH _ H3 ltac:(intros c Hc; apply He; by right) ltac:(apply He; by left)). unfold seg_end, hdr in *. simpl length. lia.
Qed.

Section inv.
Context (base : Z).

(** [F] are the free blocks in the order of the list, [A] the blocks in use, [O] the
    stretches of memory obtained from [sbrk]. *)
Record heap_ok (s : uheap) (F A O : list seg) : Prop := {
  h_links : linked (hptr s) base F.*1 base;
  h_freep : freep s ∈ base :: F.*1;
  h_base : hsize s base = 0;
  h_size : ∀ b, b ∈ F ++ A -> hsize s b.1 = b.2;
  h_asc : asc (base + hdr - 1) F;
  h_used : ∀ b, b ∈ A -> base + hdr <= b.1 ∧ 1 <= b.2;
  h_cnt : ∀ x, cnt x (F ++ A) = cnt x O;
  h_once : ∀ x, cnt x O <= 1;
  h_end : ∀ b, b ∈ F ++ A ++ O -> seg_end b <= ubrk s;
  h_lim : 0 < base ∧ base + hdr <= ubrk s < 2 ^ 31 }.

Lemma h_apart s F A O b c r x : heap_ok s F A O -> F ++ A ≡ₚ b :: c :: r -> b.1 <= x < seg_end b -> ¬ c.1 <= x < seg_end c.
Proof. intros Hh Hp. eapply cnt_apart; [done|]. intros y. rewrite (h_cnt _ _ _ _ Hh). apply Hh. Qed.
Lemma h_fuel s F A O : heap_ok s F A O -> (S (length F) < heap_fuel s)%nat.
Proof.
  intros Hh. pose proof (h_lim _ _ _ _ Hh). assert (Z.of_nat (length F) <= ubrk s - (base + hdr - 1)); [|unfold heap_fuel, hdr in *; lia].
  apply (asc_length _ F); [apply Hh| |unfold hdr in *; lia]. intros b Hb. apply Hh. set_solver.
Qed.

(** ** Finding the place of a block *)
Section find.
Context (s : uheap) (bp : Z).
Lemma find_up x F z k : linked (hptr s) x F.*1 z -> asc x F -> x < bp -> (∀ b, b ∈ F -> b.1 < bp) -> bp < z ∨ z <= x ->
  (length F < k)%nat -> ∃ p, last (x :: F.*1) = Some p ∧ free_find k bp x s = Ok p s.
Proof.
  revert x k. induction F as [|b F IH]; intros x k Hl Ha Hx Hb Hz Hk; (destruct k as [|k]; [simpl in Hk; lia|]).
  - exists x. split; [done|]. cbn [linked fmap list_fmap] in Hl. cbn [free_find]. rewrite (bind_Ok (gets id) _ s s s eq_refl). rewrite Hl.
    assert ((x <? bp) = true) as -> by lia. destruct (Z.ltb_spec bp z); [done|]. cbn [andb orb]. assert ((z <=? x) = true) as -> by lia. done.
  - destruct Hl as [H1 H2]. destruct Ha as (A1 & A2 & A3). specialize (Hb b ltac:(by left)) as Hbb.
    destruct (IH b.1 k H2) as (p & Hp & Hf).
    + eapply asc_weaken; [exact A3|unfold seg_end, hdr; lia].
    + done.
    + intros c Hc. apply Hb. by right.
    + destruct Hz; [by left|right]. lia.
    + simpl in Hk. lia.
    + exists p. split; [done|]. cbn [free_find]. rewrite (bind_Ok (gets id) _ s s s eq_refl). rewrite H1.
      assert ((bp <? b.1) = false) as -> by lia. assert ((b.1 <=? x) = false) as -> by lia. rewrite andb_false_r. done.
Qed.
Lemma find_past x F k : linked (hptr s) x F.*1 base -> asc x F -> bp < x -> base < bp -> (length F < k)%nat ->
  free_find k bp x s = free_find (k - S (length F)) bp base s.
Proof.
  revert x k. induction F as [|b F IH]; intros x k Hl Ha Hx Hb Hk; (destruct k as [|k]; [simpl in Hk; lia|]); cbn [free_find]; rewrite (bind_Ok (gets id) _ s s s eq_refl).
  - cbn [linked fmap list_fmap] in Hl. rewrite Hl. assert ((x <? bp) = false) as -> by lia. assert ((bp <? base) = false) as -> by lia. cbn [andb orb length]. rewrite andb_false_r. by replace (S k - 1)%nat with k by lia.
  - destruct Hl as [H1 H2]. destruct Ha as (A1 & A2 & A3). rewrite H1. assert ((x <? bp) = false) as -> by lia. assert ((b.1 <=? x) = false) as -> by lia. cbn [andb].
    rewrite (IH b.1 k H2); [simpl length; by replace (S k - S (S (length F)))%nat with (k - S (length F))%nat by lia|eapply asc_weaken; [exact A3|unfold seg_end, hdr; lia]|lia|done|simpl in Hk; lia].
Qed.
End find.

Lemma find_ok s F1 F2 A O bp : heap_ok s (F1 ++ F2) A O -> base < bp -> (∀ b, b ∈ F1 -> b.1 < bp) -> (∀ b, b ∈ F2 -> bp < b.1) ->
  ∃ p, last (base :: F1.*1) = Some p ∧ free_find (heap_fuel s + heap_fuel s) bp (freep s) s = Ok p s.
Proof.
  intros Hh Hb H1 H2. pose proof (h_fuel _ _ _ _ Hh) as Hk. rewrite length_app in Hk. pose proof (h_links _ _ _ _ Hh) as Hl. rewrite fmap_app in Hl.
  pose proof (h_asc _ _ _ _ Hh) as Ha.
  assert (Hz : ∃ z, linked (hptr s) base F1.*1 z ∧ (bp < z ∨ z <= base)).
  { destruct F2 as [|c F2]; [rewrite app_nil_r in Hl; by exists base; split; [|right]|]. apply linked_app in Hl as [Hl _]. exists c.1. split; [done|left; apply H2; by left]. }
  destruct Hz as (z & Hlz & Hz). assert (Ha1 : asc (base + hdr - 1) F1). { destruct F2; [by rewrite app_nil_r in Ha|by apply asc_app in Ha as [? _]]. }
  assert (Hup : ∀ k, (length F1 < k)%nat -> ∃ p, last (base :: F1.*1) = Some p ∧ free_find k bp base s = Ok p s).
  { intros k Hk'. eapply find_up; try done. eapply asc_weaken; [exact Ha1|unfold hdr; lia]. }
  pose proof (h_freep _ _ _ _ Hh) as Hf. rewrite fmap_app in Hf. apply elem_of_cons in Hf as [->|[Hf|Hf]%elem_of_app]; [apply Hup; lia|..].
  - apply list_elem_of_fmap in Hf as (b & -> & Hin). apply list_elem_of_split in Hin as (G1 & G2 & ->). rewrite fmap_app in Hlz. apply linked_app in Hlz as [_ Hlz]. apply asc_app in Ha1 as (_ & _ & A1 & A2 & A3).
    destruct (find_up s bp b.1 G2 z (heap_fuel s + heap_fuel s) Hlz) as (p & Hp & Hff).
    + eapply asc_weaken; [exact A3|unfold seg_end, hdr; lia].
    + apply H1. set_solver.
    + intros c Hc. apply H1. set_solver.
    + destruct Hz; [by left|right; unfold hdr in *; lia].
    + rewrite length_app in Hk. simpl in Hk. lia.
    + exists p. split; [|done]. rewrite fmap_app, app_comm_cons. change ((b :: G2).*1) with (b.1 :: G2.*1). by rewrite last_app, Hp.
  - apply list_elem_of_fmap in Hf as (b & -> & Hin). pose proof (H2 b Hin). apply list_elem_of_split in Hin as (G1 & G2 & ->).
    rewrite fmap_app, app_assoc in Hl. cbn in Hl. apply linked_app in Hl as [_ Hl]. rewrite app_assoc in Ha. apply asc_app in Ha as (_ & _ & A1 & A2 & A3). rewrite length_app in Hk. simpl in Hk.
    rewrite (find_past s bp b.1 G2); try done; [apply Hup; lia|eapply asc_weaken; [exact A3|unfold seg_end, hdr; lia]|lia].
Qed.

(** ** Joining neighbours *)
Definition join_next (bp p : Z) : M uheap unit :=
  s ← gets id;
  (if bp + hdr * hsize s bp =? hptr s p then
     set_size bp (hsize s bp + hsize s (hptr s p));;
     s ← gets id;
     set_ptr bp (hptr s (hptr s p))
   else set_ptr bp (hptr s p)).
Definition join_prev (bp p : Z) : M uheap unit :=
  s ← gets id;
  (if p + hdr * hsize s p =? bp then
     set_size p (hsize s p + hsize s bp);;
     s ← gets id;
     set_ptr p (hptr s bp)
   else set_ptr p bp).
Lemma ufree_eq ap s p : free_find (heap_fuel s + heap_fuel s) (ap - hdr) (freep s) s = Ok p s ->
  ufree ap s = (join_next (ap - hdr) p;; join_prev (ap - hdr) p;; modify (fun s => s <| freep := p |>)) s.
Proof.
  intros Hf. unfold ufree. rewrite (bind_Ok (gets id) _ s s s eq_refl). cbv zeta. rewrite (bind_Ok _ _ _ _ _ Hf). unfold join_next, join_prev, mbind, M_bind, gets. cbn [id].
  case_match; case_match; reflexivity.
Qed.

Lemma join_next_ok s p bp n F2 : linked (hptr s) p F2.*1 base -> p ≠ bp -> bp ∉ F2.*1 -> hsize s bp = n -> (∀ b, b ∈ F2 -> hsize s b.1 = b.2) -> 1 <= n -> 0 < base < bp ->
  asc (seg_end (bp, n) - 1) F2 -> (∀ b, b ∈ (bp, n) :: F2 -> seg_end b <= ubrk s) -> ubrk s < 2 ^ 31 ->
  ∃ n1 G2 s1, join_next bp p s = Ok tt s1 ∧ linked (hptr s1) bp G2.*1 base ∧ (∀ x, x ≠ bp -> hptr s1 x = hptr s x) ∧ s1 = s <| hptr := hptr s1 |> <| hsize := upd (hsize s) bp n1 |> ∧
    n <= n1 ∧ asc (seg_end (bp, n1)) G2 ∧ (∀ b, b ∈ G2 -> b ∈ F2) ∧ (length G2 <= length F2)%nat ∧ seg_end (bp, n1) <= ubrk s ∧ ∀ x, cnt x ((bp, n1) :: G2) = cnt x ((bp, n) :: F2).
Proof.
  intros Hl Hp Hnb Hn Hs Hn1 Hbase Ha He Hlim. unfold join_next. rewrite (bind_Ok (gets id) _ s s s eq_refl). cbn [id]. rewrite Hn.
  assert (Hno : ∀ z, hptr s p = z -> linked (hptr s) p F2.*1 base -> bp + hdr * n <> z -> asc (seg_end (bp, n)) F2 ->
    ∃ n1 G2 s1, set_ptr bp z s = Ok tt s1 ∧ linked (hptr s1) bp G2.*1 base ∧ (∀ x, x ≠ bp -> hptr s1 x = hptr s x) ∧ s1 = s <| hptr := hptr s1 |> <| hsize := upd (hsize s) bp n1 |> ∧
    n <= n1 ∧ asc (seg_end (bp, n1)) G2 ∧ (∀ b, b ∈ G2 -> b ∈ F2) ∧ (length G2 <= length F2)%nat ∧ seg_end (bp, n1) <= ubrk s ∧ ∀ x, cnt x ((bp, n1) :: G2) = cnt x ((bp, n) :: F2)).
  { intros z Hz _ _ Ha'. exists n, F2, (s <| hptr ::= fun f => upd f bp z |>). split; [done|]. split_and!; try done; [| |destruct s; unfold setter; cbn; f_equal; symmetry; by apply upd_same|apply He; by left].
    - destruct F2 as [|c F2]; cbn in *; [rewrite upd_eq; congruence|]. rewrite upd_eq. destruct Hl as [Hl1 Hl2]. split; [congruence|]. apply linked_frame; [set_solver|done].
    - intros x Hx. cbn. by rewrite upd_ne. }
  destruct F2 as [|c F2]; cbn [fmap list_fmap linked] in Hl.
  - rewrite Hl. assert ((bp + hdr * n =? base) = false) as -> by (unfold hdr; lia). apply Hno; [done|done|unfold hdr; lia|done].
  - destruct Hl as [Hl1 Hl2]. rewrite Hl1. destruct Ha as (A1 & A2 & A3). destruct (Z.eqb_spec (bp + hdr * n) c.1) as [E|E].
    2: { apply Hno; [done|done|done|]. split; [unfold seg_end in *; cbn in *; lia|done]. }
    clear Hno. pose proof (He c ltac:(set_solver)) as Hec. rewrite (Hs c) by (by left). unfold seg_end in Hec.
    set (s1 := s <| hsize ::= fun f => upd f bp (u32 (n + c.2)) |>). rewrite (bind_Ok (set_size bp (n + c.2)) _ s tt s1 eq_refl). rewrite (bind_Ok (gets id) _ s1 s1 s1 eq_refl). cbn [id].
    change (hptr s1) with (hptr s). rewrite Hl1. exists (n + c.2), F2, (s1 <| hptr ::= fun f => upd f bp (hptr s c.1) |>). split; [done|]. split_and!.
    + change (linked (upd (hptr s) bp (hptr s c.1)) bp F2.*1 base). destruct F2 as [|e F2]; cbn in *; rewrite upd_eq; [done|]. destruct Hl2. split; [done|]. apply linked_frame; [set_solver|done].
    + intros x Hx. cbn. by rewrite upd_ne.
    + unfold s1. rewrite u32_id by (unfold hdr in *; lia). destruct s; reflexivity.
    + lia.
    + unfold seg_end in *. cbn in *. replace (bp + hdr * (n + c.2)) with (c.1 + hdr * c.2) by lia. done.
    + set_solver.
    + simpl. lia.
    + unfold seg_end. cbn. lia.
    + intros x. rewrite <- cnt_join by lia. rewrite E. by destruct c.
Qed.

Lemma h_pos s F A O b : heap_ok s F A O -> b ∈ F ++ A -> base + hdr <= b.1 ∧ 1 <= b.2 ∧ seg_end b <= ubrk s.
Proof.
  intros Hh Hb. split; [|split].
  - apply elem_of_app in Hb as [Hb|Hb]; [destruct (asc_in _ _ _ (h_asc _ _ _ _ Hh) Hb); lia|by apply Hh].
  - apply elem_of_app in Hb as [Hb|Hb]; [by eapply asc_in; [apply Hh|]|by apply Hh].
  - apply Hh. set_solver.
Qed.
Lemma h_addr s F A O b c r : heap_ok s F A O -> F ++ A ≡ₚ b :: c :: r -> seg_end b <= c.1 ∨ seg_end c <= b.1.
Proof.
  intros Hh Hp. destruct (h_pos s F A O b Hh) as (B1 & B2 & B3); [rewrite Hp; by left|]. destruct (h_pos s F A O c Hh) as (C1 & C2 & C3); [rewrite Hp; right; by left|].
  pose proof (h_apart s F A O b c r c.1 Hh Hp) as H1. pose proof (h_apart s F A O b c r b.1 Hh Hp) as H2. unfold seg_end, hdr in *. lia.
Qed.
Lemma linked_ext h h' x y l z : linked h x l z -> h' y = h x -> (∀ w, w ∈ l -> h' w = h w) -> linked h' y l z.
Proof.
  revert x y. induction l as [|w l IH]; intros x y Hl Hy Hw; cbn in *; [congruence|]. destruct Hl as [H1 H2]. split; [congruence|].
  eapply IH; [done|apply Hw; by left|]. intros v Hv. apply Hw. by right.
Qed.
Lemma linked_prefix h x l1 l2 z p : linked h x (l1 ++ l2) z -> last (x :: l1) = Some p -> linked h x l1 (h p) ∧ linked h p l2 z.
Proof.
  revert x. induction l1 as [|y l1 IH]; intros x Hl Hp; [cbn in Hp; injection Hp as <-; by split|].
  destruct Hl as [Hy Hl]. rewrite last_cons_cons in Hp. destruct (IH y Hl Hp) as [H1 H2]. by split; [split|].
Qed.
(** The place of a block among the free ones. *)
Lemma place s F A O bp n A' : heap_ok s F A O -> A ≡ₚ (bp, n) :: A' ->
  ∃ F1 F2, F = F1 ++ F2 ∧ (∀ b, b ∈ F1 -> seg_end b <= bp) ∧ (∀ b, b ∈ F2 -> seg_end (bp, n) <= b.1) ∧ asc (seg_end (bp, n) - 1) F2.
Proof.
  intros Hh HA. destruct (asc_split _ F bp (h_asc _ _ _ _ Hh)) as (F1 & F2 & -> & H1 & H2).
  assert (Hin : (bp, n) ∈ (F1 ++ F2) ++ A) by (rewrite HA; set_solver). destruct (h_pos _ _ _ _ _ Hh Hin) as (P1 & P2 & P3). cbn in P1, P2.
  assert (Hx : ∀ b, b ∈ F1 ++ F2 -> seg_end b <= bp ∨ seg_end (bp, n) <= b.1).
  { intros b Hb. pose proof Hb as Hb'. apply list_elem_of_split in Hb' as (G1 & G2 & E). apply (h_addr s _ A O b (bp, n) (G1 ++ G2 ++ A') Hh). rewrite E, HA. solve_Permutation. }
  exists F1, F2. split; [done|]. split; [|split].
  - intros b Hb. destruct (Hx b) as [?|?]; [set_solver|done|]. specialize (H1 b Hb). unfold seg_end, hdr in *. cbn in *. lia.
  - intros b Hb. destruct (Hx b) as [?|?]; [set_solver| |done]. specialize (H2 b Hb). destruct (h_pos _ _ _ _ b Hh); [set_solver|]. unfold seg_end, hdr in *. lia.
  - pose proof (h_asc _ _ _ _ Hh) as Ha. destruct F2 as [|c F2]; [done|]. apply asc_app in Ha as (_ & _ & _ & A2 & A3). split; [|done].
    destruct (Hx c) as [?|?]; [set_solver| |lia]. specialize (H2 c ltac:(by left)). unfold seg_end, hdr in *. lia.
Qed.

Lemma heap_build s s' F F' A A' O : heap_ok s F A O -> linked (hptr s') base F'.*1 base -> asc (base + hdr - 1) F' ->
  (∀ b, b ∈ F' -> hsize s' b.1 = b.2 ∧ seg_end b <= ubrk s) -> (∀ b, b ∈ A' -> b ∈ A ∧ hsize s' b.1 = hsize s b.1) -> hsize s' base = 0 ->
  freep s' ∈ base :: F'.*1 -> ubrk s' = ubrk s -> (∀ x, cnt x (F' ++ A') = cnt x (F ++ A)) -> heap_ok s' F' A' O.
Proof.
  intros [] Hl Ha HF HA Hb Hf Hu Hc. split; rewrite ?Hu; try done.
  - intros b [Hb'|Hb']%elem_of_app; [by apply HF|]. destruct (HA b Hb') as [? ->]. apply h_size0. set_solver.
  - intros b Hb'. by apply h_used0, HA.
  - intros x. by rewrite Hc.
  - intros b [Hb'|[Hb'|Hb']%elem_of_app]%elem_of_app; [by apply HF| |]; apply h_end0; [|set_solver]. destruct (HA b Hb'). set_solver.
Qed.
Lemma join_prev_eq bp p s : (join_prev bp p;; modify (fun s => s <| freep := p |>)) s =
  Ok tt (if p + hdr * hsize s p =? bp then s <| hsize ::= fun f => upd f p (u32 (hsize s p + hsize s bp)) |> <| hptr ::= fun f => upd f p (hptr s bp) |> <| freep := p |>
         else s <| hptr ::= fun f => upd f p bp |> <| freep := p |>).
Proof. unfold join_prev, mbind, M_bind, gets. cbn [id]. destruct (p + hdr * hsize s p =? bp); reflexivity. Qed.
(** The block [bp] leaves [A] for the list, between [F1] and [F2]; it has been joined with its
    successor, if they touch, and stands before [G2]. *)
Record inserting (s s1 : uheap) (F1 F2 G2 A A' O : list seg) (bp n n1 : Z) : Prop := {
  i_heap : heap_ok s (F1 ++ F2) A O;
  i_perm : A ≡ₚ (bp, n) :: A';
  i_below : ∀ b, b ∈ F1 -> seg_end b <= bp;
  i_links : linked (hptr s1) bp G2.*1 base;
  i_same : ∀ x, x ≠ bp -> hptr s1 x = hptr s x;
  i_state : s1 = s <| hptr := hptr s1 |> <| hsize := upd (hsize s) bp n1 |>;
  i_size : 1 <= n <= n1;
  i_asc : asc (seg_end (bp, n1)) G2;
  i_above : ∀ b, b ∈ G2 -> b ∈ F2 ∧ bp < b.1;
  i_end : seg_end (bp, n1) <= ubrk s;
  i_cnt : ∀ x, cnt x ((bp, n1) :: G2) = cnt x ((bp, n) :: F2) }.

Section insert.
Context (s s1 : uheap) (F1 F2 G2 A A' O : list seg) (bp n n1 : Z) (I : inserting s s1 F1 F2 G2 A A' O bp n n1).
Lemma ins_bp : 0 < base ∧ base + hdr <= bp ∧ seg_end (bp, n1) < 2 ^ 31.
Proof.
  destruct I as [Hh HA _ _ _ _ _ _ _ He _]. pose proof (h_lim _ _ _ _ Hh) as (Lb & Lu). split; [done|]. split; [|lia]. apply (h_used _ _ _ _ Hh (bp, n)). rewrite HA. by left.
Qed.
Lemma ins_used b : b ∈ A' -> b ∈ A ∧ b.1 ≠ bp ∧ ∀ c, c ∈ F1 -> b.1 ≠ c.1.
Proof.
  intros Hb. destruct I as [Hh HA _ _ _ _ Hn _ _ _ _]. assert (HbA : b ∈ A) by (rewrite HA; by right). destruct (h_used _ _ _ _ Hh b HbA) as [_ Hb2].
  apply list_elem_of_split in Hb as (B1 & B2 & ->). split; [done|]. split.
  - intros E. destruct (h_addr s _ A O b (bp, n) ((F1 ++ F2) ++ B1 ++ B2) Hh); [rewrite HA; solve_Permutation|..]; unfold seg_end, hdr in *; cbn in *; lia.
  - intros c Hc E. destruct (h_pos _ _ _ _ c Hh) as (_ & Hc2 & _); [set_solver|]. apply list_elem_of_split in Hc as (C1 & C2 & ->).
    destruct (h_addr s _ A O b c (C1 ++ C2 ++ F2 ++ (bp, n) :: B1 ++ B2) Hh); [rewrite HA; solve_Permutation|..]; unfold seg_end, hdr in *; lia.
Qed.
Lemma ins_next b : b ∈ G2 -> hsize s b.1 = b.2 ∧ seg_end b <= ubrk s ∧ bp < b.1.
Proof. intros Hb. destruct I as [Hh _ _ _ _ _ _ _ HG _ _]. destruct (HG b Hb). split_and!; [apply (h_size _ _ _ _ Hh)|apply (h_end _ _ _ _ Hh)|done]; set_solver. Qed.
Lemma ins_prev b : b ∈ F1 -> hsize s b.1 = b.2 ∧ seg_end b <= ubrk s ∧ base < b.1 < bp ∧ 1 <= b.2.
Proof.
  intros Hb. destruct I as [Hh _ HL _ _ _ _ _ _ _ _]. specialize (HL b Hb). destruct (h_pos _ _ _ _ b Hh) as (H1 & H2 & H3); [set_solver|].
  pose proof (h_size _ _ _ _ Hh b ltac:(set_solver)). unfold seg_end, hdr in *. split_and!; try done; lia.
Qed.
Lemma ins_after x : x ∈ bp :: G2.*1 -> bp <= x.
Proof. intros [->|(b & -> & Hb)%list_elem_of_fmap]%elem_of_cons; [done|]. apply ins_next in Hb as (_ & _ & ?). lia. Qed.
Lemma ins_s1 : hsize s1 = upd (hsize s) bp n1 ∧ ubrk s1 = ubrk s.
Proof. by rewrite (i_state _ _ _ _ _ _ _ _ _ _ _ I). Qed.
(** The heap after a list [F'] has taken the place of [F1], [bp] and [G2]. *)
Lemma ins_build s' F' p : linked (hptr s') base F'.*1 base -> asc (base + hdr - 1) F' -> (∀ b, b ∈ F' -> hsize s' b.1 = b.2 ∧ seg_end b <= ubrk s) ->
  (∀ x, x ≠ bp -> x ∉ F1.*1 -> hsize s' x = hsize s x) -> freep s' = p -> p ∈ base :: F'.*1 -> ubrk s' = ubrk s ->
  (∀ x, cnt x F' = cnt x F1 + cnt x ((bp, n1) :: G2)) -> heap_ok s' F' A' O.
Proof.
  intros Hl Ha HF Hs Hp Hpin Hu Hc. pose proof ins_bp as (B0 & B1 & B2). pose proof ins_used as Hused. pose proof ins_prev as Hprev. destruct I as [Hh HA _ _ _ _ _ _ _ _ Hcnt].
  apply (heap_build s _ (F1 ++ F2) _ A); try done.
  - intros b Hb. destruct (Hused b Hb) as (H1 & H2 & H3). split; [done|]. apply Hs; [done|]. intros (c & E & Hc')%list_elem_of_fmap. by apply (H3 c).
  - rewrite Hs; [apply Hh|unfold hdr in *; lia|]. intros (c & E & Hc')%list_elem_of_fmap. destruct (Hprev c Hc') as (_ & _ & ? & _). lia.
  - by rewrite Hp.
  - intros x. rewrite !cnt_app, Hc, Hcnt, (cnt_perm x A _ HA). cbn [cnt]. lia.
Qed.
End insert.
(** What [join_prev] leaves. *)
Definition inserted (s s1 : uheap) (F1 G2 A' O : list seg) (bp n1 p : Z) : Prop :=
  ∃ s' F', (join_prev bp p;; modify (fun s => s <| freep := p |>)) s1 = Ok tt s' ∧ heap_ok s' F' A' O ∧ ubrk s' = ubrk s ∧
    (length F' <= S (length F1 + length G2))%nat ∧ ∃ b, b ∈ F' ∧ n1 <= b.2.

Lemma insert_first s s1 F2 G2 A A' O bp n n1 : inserting s s1 [] F2 G2 A A' O bp n n1 -> inserted s s1 [] G2 A' O bp n1 base.
Proof.
  intros I. pose proof (ins_bp _ _ _ _ _ _ _ _ _ _ _ I) as (B0 & B1 & B2). pose proof (ins_after _ _ _ _ _ _ _ _ _ _ _ I) as Hgt. pose proof (ins_next _ _ _ _ _ _ _ _ _ _ _ I) as Hnext.
  destruct (ins_s1 _ _ _ _ _ _ _ _ _ _ _ I) as [Es2 Eu]. pose proof I as [Hh HA _ Hl3 _ _ Hn Ha3 _ He _]. unfold inserted.
  rewrite join_prev_eq, Es2, upd_ne, (h_base _ _ _ _ Hh) by (unfold hdr in *; lia).
  assert ((base + hdr * 0 =? bp) = false) as -> by (unfold hdr in *; lia). eexists _, ((bp, n1) :: G2). split; [done|]. split; [|split_and!; [done|simpl; lia|by exists (bp, n1); split; [left|]]].
  apply (ins_build _ _ _ _ _ _ _ _ _ _ _ I _ _ base); try done; cbn -[cnt upd asc]; rewrite ?Es2.
  - split; [apply upd_eq|]. apply linked_frame; [|done]. intros Hx%Hgt. unfold hdr in *. lia.
  - split; [cbn; lia|]. split; [cbn; lia|done].
  - intros b [->|Hb]%elem_of_cons; [by rewrite upd_eq|]. destruct (Hnext b Hb) as (H1 & H2 & H3). by rewrite upd_ne by lia.
  - intros x Hx _. by rewrite upd_ne.
  - by left.
Qed.
Lemma insert_later s s1 F1 p m F2 G2 A A' O bp n n1 : inserting s s1 (F1 ++ [(p, m)]) F2 G2 A A' O bp n n1 -> inserted s s1 (F1 ++ [(p, m)]) G2 A' O bp n1 p.
Proof.
  intros I. pose proof (ins_bp _ _ _ _ _ _ _ _ _ _ _ I) as (B0 & B1 & B2). pose proof (ins_after _ _ _ _ _ _ _ _ _ _ _ I) as Hgt. pose proof (ins_next _ _ _ _ _ _ _ _ _ _ _ I) as Hnext.
  destruct (ins_prev _ _ _ _ _ _ _ _ _ _ _ I (p, m)) as (Sp & Ep & Rp & Pm); [set_solver|]. cbn [fst snd] in Sp, Rp, Pm.
  destruct (ins_s1 _ _ _ _ _ _ _ _ _ _ _ I) as [Es2 Eu]. pose proof I as [Hh HA HL Hl3 Hsame _ Hn Ha3 _ He _]. specialize (HL (p, m) ltac:(set_solver)).
  pose proof (h_asc _ _ _ _ Hh) as Ha. rewrite <- app_assoc in Ha. apply asc_app in Ha as (A1 & A2 & A3 & _ & _). cbn in A3.
  pose proof (h_links _ _ _ _ Hh) as Hl. rewrite <- app_assoc, fmap_app in Hl. apply linked_app in Hl as [Hl _]. cbn in Hl.
  assert (Hlt : ∀ x, x ∈ base :: F1.*1 -> x < p). { intros x [->|(c & -> & Hc)%list_elem_of_fmap]%elem_of_cons; [lia|]. specialize (A2 c Hc). destruct (h_pos _ _ _ _ c Hh); [set_solver|]. unfold seg_end, hdr in *. cbn in *. lia. }
  assert (Hsz : ∀ b, b ∈ F1 -> hsize s b.1 = b.2 ∧ seg_end b <= ubrk s ∧ b.1 < p).
  { intros b Hb. split_and!; [apply (h_size _ _ _ _ Hh)|apply (h_end _ _ _ _ Hh)|apply Hlt; right; by apply list_elem_of_fmap_2]; set_solver. }
  assert (Hpre : linked (hptr s1) base F1.*1 p). { eapply linked_ext; [exact Hl|apply Hsame; unfold hdr in *; lia|]. intros w Hw. apply Hsame. specialize (Hlt w ltac:(by right)). lia. }
  unfold inserted. rewrite join_prev_eq, Es2, upd_eq, upd_ne, Sp by lia. unfold seg_end in He, HL, B2. cbn [fst snd] in He, HL, B2. destruct (Z.eqb_spec (p + hdr * m) bp) as [E|E].
  - rewrite u32_id by (unfold hdr in *; lia). eexists _, (F1 ++ (p, m + n1) :: G2). split; [done|]. split; [|split_and!; [done|rewrite !length_app; simpl; lia|exists (p, m + n1); split; [set_solver|cbn; lia]]].
    apply (ins_build _ _ _ _ _ _ _ _ _ _ _ I _ _ p); try done; cbn -[cnt upd asc]; rewrite ?Es2.
    + rewrite fmap_app. apply linked_app. split; [apply linked_frame; [intros Hx%Hlt; cbn in Hx; lia|done]|]. cbn.
      eapply linked_ext; [exact Hl3|apply upd_eq|]. intros w Hw. apply upd_ne. specialize (Hgt w ltac:(by right)). lia.
    + apply asc_app. split_and!; [done|done|done|cbn; lia|]. unfold seg_end in *. cbn in *. by replace (p + hdr * (m + n1)) with (bp + hdr * n1) by lia.
    + intros b [Hb|[->|Hb]%elem_of_cons]%elem_of_app; [|cbn [fst snd]; rewrite upd_eq; unfold seg_end; cbn; split; [done|lia]|].
      * destruct (Hsz b Hb) as (H1 & H2 & H3). by rewrite !upd_ne by lia.
      * destruct (Hnext b Hb) as (H1 & H2 & H3). by rewrite !upd_ne by lia.
    + intros x Hx1 Hx2. rewrite !upd_ne; [done|done|]. intros ->. apply Hx2. rewrite fmap_app. set_solver.
    + rewrite fmap_app. set_solver.
    + intros x. rewrite !cnt_app. cbn [cnt]. pose proof (cnt_join x p m n1 G2 ltac:(lia) ltac:(lia)) as Hj. rewrite E in Hj. cbn [cnt] in Hj. lia.
  - eexists _, (F1 ++ (p, m) :: (bp, n1) :: G2). split; [done|]. split; [|split_and!; [done|rewrite !length_app; simpl; lia|exists (bp, n1); split; [set_solver|cbn; lia]]].
    apply (ins_build _ _ _ _ _ _ _ _ _ _ _ I _ _ p); try done; cbn -[cnt upd asc]; rewrite ?Es2.
    + rewrite fmap_app. apply linked_app. split; [apply linked_frame; [intros Hx%Hlt; cbn in Hx; lia|done]|]. cbn. split; [apply upd_eq|].
      apply linked_frame; [intros Hx%Hgt; lia|done].
    + apply asc_app. split_and!; [done|done|done|cbn; lia|]. split; [unfold seg_end; cbn; lia|]. split; [cbn; lia|done].
    + intros b [Hb|[->|[->|Hb]%elem_of_cons]%elem_of_cons]%elem_of_app; cbn [fst snd].
      * destruct (Hsz b Hb) as (H1 & H2 & H3). by rewrite upd_ne by lia.
      * by rewrite upd_ne by lia.
      * by rewrite upd_eq.
      * destruct (Hnext b Hb) as (H1 & H2 & H3). by rewrite upd_ne by lia.
    + intros x Hx1 Hx2. by rewrite upd_ne.
    + rewrite fmap_app. set_solver.
    + intros x. rewrite !cnt_app. cbn [cnt]. lia.
Qed.
Lemma insert_ok s s1 F1 F2 G2 A A' O bp n n1 p : inserting s s1 F1 F2 G2 A A' O bp n n1 -> last (base :: F1.*1) = Some p -> inserted s s1 F1 G2 A' O bp n1 p.
Proof.
  intros I Hp. destruct F1 as [|[q m] F1 _] using rev_ind; [cbn in Hp; injection Hp as <-; by eapply insert_first|].
  rewrite fmap_app, app_comm_cons in Hp. change ([(q, m)].*1) with [q] in Hp. rewrite last_snoc in Hp. injection Hp as ->. by eapply insert_later.
Qed.
Lemma ufree_ok s F A O bp n A' : heap_ok s F A O -> A ≡ₚ (bp, n) :: A' ->
  ∃ s' F', ufree (bp + hdr) s = Ok tt s' ∧ heap_ok s' F' A' O ∧ ubrk s' = ubrk s ∧ freep s' ≠ 0 ∧ (length F' <= S (length F))%nat ∧ ∃ b, b ∈ F' ∧ n <= b.2.
Proof.
  intros Hh HA. destruct (place _ _ _ _ _ _ _ Hh HA) as (F1 & F2 & -> & L1 & L2 & Ha2).
  assert (Hin : (bp, n) ∈ (F1 ++ F2) ++ A) by (rewrite HA; set_solver). destruct (h_pos _ _ _ _ _ Hh Hin) as (P1 & P2 & P3). cbn in P1, P2.
  pose proof (h_lim _ _ _ _ Hh) as (Lb & Lu). assert (Hpos : ∀ b, b ∈ F1 ++ F2 -> base + hdr <= b.1 ∧ 1 <= b.2 ∧ seg_end b <= ubrk s) by (intros b Hb; apply (h_pos _ _ _ _ _ Hh); set_solver).
  assert (B1 : ∀ b, b ∈ F1 -> b.1 < bp). { intros b Hb. specialize (L1 b Hb). destruct (Hpos b); [set_solver|]. unfold seg_end, hdr in *. lia. }
  assert (B2 : ∀ b, b ∈ F2 -> bp < b.1). { intros b Hb. specialize (L2 b Hb). unfold seg_end, hdr in *. cbn in *. lia. }
  destruct (find_ok _ _ _ _ _ bp Hh) as (p & Hp & Hf); [unfold hdr in *; lia|done|done|]. rewrite (ufree_eq _ _ p); replace (bp + hdr - hdr) with bp by lia; [|done].
  pose proof (h_links _ _ _ _ Hh) as Hl. rewrite fmap_app in Hl. destruct (linked_prefix _ _ _ _ _ _ Hl Hp) as [Hl1 Hl2].
  assert (Hpb : p < bp). { apply last_Some_elem_of in Hp as [->|(b & -> & Hb)%list_elem_of_fmap]%elem_of_cons; [unfold hdr in *; lia|by apply B1]. }
  destruct (join_next_ok s p bp n F2 Hl2) as (n1 & G2 & s1 & E1 & Hl3 & Hfr & Es1 & Hn1 & Ha3 & HG & HGl & He & Hcnt).
  - lia.
  - intros (b & -> & Hb)%list_elem_of_fmap. specialize (B2 b Hb). lia.
  - by apply (h_size _ _ _ _ Hh (bp, n)).
  - intros b Hb. apply (h_size _ _ _ _ Hh). set_solver.
  - done.
  - unfold hdr in *. lia.
  - done.
  - intros b [->|Hb]%elem_of_cons; [done|]. apply Hpos. set_solver.
  - lia.
  - rewrite (bind_Ok _ _ _ _ _ E1).
    destruct (insert_ok s s1 F1 F2 G2 A A' O bp n n1 p) as (s' & F' & E2 & Hh' & Hu & Hlen & b & Hb & Hbn); [|done|].
    + split; try done. intros b Hb. split; [by apply HG|by apply B2, HG].
    + exists s', F'. split; [done|]. split; [done|]. split; [done|]. split.
      * pose proof (h_freep _ _ _ _ Hh') as Hx. apply elem_of_cons in Hx as [->|(c & -> & Hc)%list_elem_of_fmap]; [lia|]. destruct (h_pos _ _ _ _ c Hh'); [set_solver|]. unfold hdr in *. lia.
      * split; [rewrite length_app; lia|]. exists b. split; [done|lia].
Qed.
End inv.
