(* ===== verification/UmallocProps.v ===== *)
(** * UmallocProps: what [malloc] and [free] promise to a program *)

From stdpp Require Import relations.
From S2P Require Import Prelude Umalloc UmallocInv.

Section malloc.
Context (base : Z) (grows : Z -> Z -> bool).
(** A process stays below 2 GB: physical memory is 128 MB ([VmProps.uvmalloc_limit]). *)
Hypothesis grows_limit : ∀ oldsz newsz, grows oldsz newsz = true -> newsz < 2 ^ 31.
Abbreviation ok := (heap_ok base).

(** ** More memory *)









End malloc.

(** A program that allocates twice, frees the first block and allocates again. *)
Module Example.
Definition grows (oldsz newsz : Z) : bool := newsz <? 2 ^ 27.
Definition heap0 : uheap := UHeap (fun _ => 77) (fun _ => 99) 0 0x3000.
End Example.
(** A request of nearly 4 GB: [nu * sizeof(Header)] is 0 as an [int], so [sbrk] gives nothing,
    and [malloc] returns a block that does not exist. *)
Lemma malloc_huge : match malloc 0x1000 Example.grows (2 ^ 32 - 16) Example.heap0 with Ok r s' => r = 12304 ∧ ubrk s' = 12288 | _ => False end.
Proof. vm_compute. by split. Qed.
