(* ===== verification/ShRun.v ===== *)
(** * ShRun: running a command, user/sh.c

    What the shell does is a tree of system calls: each call with what the shell goes on
    to do with its result.  [execute] runs such a tree against a table of file
    descriptors as the kernel keeps it (a new descriptor is the lowest free one), and
    gives the processes that come of it; [denote] says which processes a command
    stands for, and what their standard input, output and error output are.  The lines
    come out of the bytes typed by [getcmd], which uses [memset] and [gets] of MemC on the
    buffer of [main].  What calls that depend on the rest of the system return (whether
    a name can be opened or entered, a process or a pipe made) is a fixed [world]. *)

From S2P Require Import Prelude Bytes MemC Sh ShLex ShParse ShProps ShPrint.

(** ** System calls *)
Inductive prog :=
| SExit (status : Z)
| SClose (fd : Z) (k : prog)
| SOpen (path : list Z) (mode : Z) (k : Z -> prog)
| SDup (fd : Z) (k : Z -> prog)
| SPipe (fail : prog) (k : Z -> Z -> prog)       (* the two descriptors in [p] *)
| SFork (fail child : prog) (k : prog)
| SWait (k : prog)
| SExec (path : list Z) (argv : list (list Z)) (k : prog)
| SChdir (path : list Z) (k : Z -> prog)
| SPrint (fd : Z) (text : list Z) (k : prog).

Definition str (s : string) : list Z := (fun c => Z.of_nat (Ascii.nat_of_ascii c)) <$> String.list_ascii_of_string s.
Definition newline : list Z := [10].

(** [panic] of the shell, and [fork1]. *)
Definition sh_panic (s : string) : prog := SPrint 2 (str s ++ newline) (SExit 1).
Definition fork1 (child k : prog) : prog := SFork (sh_panic "fork") child k.

(** [runcmd]; [l] is the line that the pointers of the nodes point into.  Nodes point to
    nodes that were allocated before them. *)
Fixpoint runcmd (fuel : nat) (h : list node) (l : list Z) (cmd : nat) : prog :=
  match fuel with
  | O => sh_panic "runcmd"
  | S fuel' =>
      match h !! cmd with
      | None => sh_panic "runcmd"
      | Some (EXEC argv _) =>
          match args_of argv with
          | [] => SExit 1
          | q :: _ =>
              SExec (string_at l q) (string_at l <$> args_of argv)
                (SPrint 2 (str "exec " ++ string_at l q ++ str " failed" ++ newline) (SExit 0))
          end
      | Some (REDIR c file _ mode fd) =>
          SClose fd (SOpen (string_at l file) mode (fun r =>
            if r <? 0 then SPrint 2 (str "open " ++ string_at l file ++ str " failed" ++ newline) (SExit 1)
            else runcmd fuel' h l c))
      | Some (LIST c c') => fork1 (runcmd fuel' h l c) (SWait (runcmd fuel' h l c'))
      | Some (PIPE c c') =>
          SPipe (sh_panic "pipe") (fun p0 p1 =>
            fork1 (SClose 1 (SDup p1 (fun _ => SClose p0 (SClose p1 (runcmd fuel' h l c)))))
              (fork1 (SClose 0 (SDup p0 (fun _ => SClose p0 (SClose p1 (runcmd fuel' h l c')))))
                 (SClose p0 (SClose p1 (SWait (SWait (SExit 0)))))))
      | Some (BACK c) => fork1 (runcmd fuel' h l c) (SExit 0)
      end
  end.

(** One round of the loop of [main], with the line [getcmd] has put into [buf]; [k] goes
    on with what is in [buf] then. *)
Definition is_cd (buf : list Z) : bool :=
  (byte_at buf 0 =? 99) && (byte_at buf 1 =? 100) && (byte_at buf 2 =? 32).
Definition main_round (buf : list Z) (k : list Z -> prog) : prog :=
  if is_cd buf then
    let buf := put_byte buf (strlen_line buf - 1) 0 in
    SChdir (string_at buf 3) (fun r =>
      if r <? 0 then SPrint 2 (str "cannot cd " ++ string_at buf 3 ++ newline) (k buf) else k buf)
  else
    fork1
      (match parsecmd (Sh buf 0 []) with
       | Ok cmd st => runcmd (S cmd) (heap st) (line st) cmd
       | Panic msg => sh_panic msg
       | _ => sh_panic "runcmd"
       end)
      (SWait (k buf)).
(** [getcmd], with [buf] and [nbuf] of [main]: [inp] is what the shell can still read from
    its standard input; [k] gets the result, the buffer and what is left of the input. *)
Definition nbuf : Z := 100.
Definition getcmd (buf inp : list Z) (k : Z -> list Z -> list Z -> prog) : prog :=
  SPrint 2 (str "$ ")
    (let '(m, inp') := u_gets 0 nbuf inp (u_memset 0 0 nbuf (byte_at buf)) in
     let buf := m <$> seqZ 0 nbuf in
     k (if byte_at buf 0 =? 0 then -1 else 0) buf inp').
(** The loop of [main]; each line takes at least a byte of the input. *)
Fixpoint main_loop (fuel : nat) (buf inp : list Z) : prog :=
  match fuel with
  | O => SExit 0                                 (* not reached: [main_loop_fuel] *)
  | S fuel' =>
      getcmd buf inp (fun r buf inp' =>
        if 0 <=? r then main_round buf (fun buf => main_loop fuel' buf inp') else SExit 0)
  end.
Fixpoint ensure_fds (fuel : nat) (k : prog) : prog :=
  match fuel with
  | O => k
  | S fuel' =>
      SOpen (str "console") O_RDWR (fun fd =>
        if 0 <=? fd then if 3 <=? fd then SClose fd k else ensure_fds fuel' k else k)
  end.
(** Four descriptors are opened at most; the static [buf] is zero at first. *)
Definition main (inp : list Z) : prog := ensure_fds 4 (main_loop (S (length inp)) (replicate (Z.to_nat nbuf) 0) inp).

(** ** Descriptors *)
(** What a descriptor stands for; a pipe is named after the place in the tree of
    processes where it was made. *)
Inductive obj :=
| OTerminal
| OFile (path : list Z) (mode : Z)
| OPipe (name : list nat) (write_end : bool).
Definition nofile : Z := 16.
Definition fdt : Type := Z -> option obj.
(** As [fdalloc] does: the lowest descriptor that is free. *)
Fixpoint lowest (n : nat) (fd : Z) (t : fdt) : option Z :=
  match n with
  | O => None
  | S n' => match t fd with None => Some fd | Some _ => lowest n' (fd + 1) t end
  end.
Definition free_fd (t : fdt) : option Z := lowest (Z.to_nat nofile) 0 t.

(** What the rest of the system answers: which files can be opened, directories entered
    and whether a pipe or a process can be made at a place. *)
Record world := World { can_open : list Z -> Z -> bool; can_chdir : list Z -> bool; can_pipe : list nat -> bool; can_fork : list nat -> bool }.

(** What becomes of a process: it exits, or becomes a program with descriptors [t] and, if
    that fails, goes on; it makes another process, or waits for one with
    descriptors [t]. *)
Inductive procs :=
| PExit (status : Z)
| PExec (path : list Z) (argv : list (list Z)) (t : fdt) (fails : procs)
| PFork (child rest : procs)
| PWait (t : fdt) (rest : procs)
| PPrint (on : option obj) (text : list Z) (rest : procs)
| PChdir (path : list Z) (rest : procs).

Section execute.
Context (w : world).
Fixpoint execute (p : prog) (name : list nat) (t : fdt) : procs :=
  match p with
  | SExit st => PExit st
  | SClose fd k => execute k name (upd t fd None)
  | SOpen path mode k =>
      match free_fd t with
      | Some fd => if can_open w path mode then execute (k fd) name (upd t fd (Some (OFile path mode))) else execute (k (-1)) name t
      | None => execute (k (-1)) name t
      end
  | SDup fd k =>
      match t fd, free_fd t with
      | Some o, Some fd' => execute (k fd') name (upd t fd' (Some o))
      | _, _ => execute (k (-1)) name t
      end
  | SPipe fail k =>
      match free_fd t with
      | Some p0 =>
          let t0 := upd t p0 (Some (OPipe name false)) in
          match free_fd t0 with
          | Some p1 => if can_pipe w name then execute (k p0 p1) (0%nat :: name) (upd t0 p1 (Some (OPipe name true))) else execute fail name t
          | None => execute fail name t
          end
      | None => execute fail name t
      end
  | SFork fail child k =>
      if can_fork w name then PFork (execute child (1%nat :: name) t) (execute k (2%nat :: name) t)
      else execute fail name t
  | SWait k => PWait t (execute k name t)
  | SExec path argv k => PExec path argv t (execute k name t)
  | SChdir path k => if can_chdir w path then PChdir path (execute (k 0) name t) else execute (k (-1)) name t
  | SPrint fd text k => PPrint (t fd) text (execute k name t)
  end.

(** ** What a command means *)
(** Standard input, output and error output, and nothing else. *)
Definition std (i o e : obj) : fdt := fun fd => if fd =? 0 then Some i else if fd =? 1 then Some o else if fd =? 2 then Some e else None.
Definition complain (e : obj) (text : list Z) (status : Z) : procs := PPrint (Some e) text (PExit status).
Definition forks (name : list nat) (e : obj) (child rest : procs) : procs :=
  if can_fork w name then PFork child rest else complain e (str "fork" ++ newline) 1.
Fixpoint denote (c : cmd) (name : list nat) (i o e : obj) : procs :=
  match c with
  | Exec [] => PExit 1
  | Exec (a :: args) => PExec a (a :: args) (std i o e) (complain e (str "exec " ++ a ++ str " failed" ++ newline) 0)
  | Redir c file mode fd =>
      if can_open w file mode then
        if fd =? 0 then denote c name (OFile file mode) o e else denote c name i (OFile file mode) e
      else complain e (str "open " ++ file ++ str " failed" ++ newline) 1
  | Lst l r => forks name e (denote l (1%nat :: name) i o e) (PWait (std i o e) (denote r (2%nat :: name) i o e))
  | Pipe l r =>
      if can_pipe w name then
        let n := 0%nat :: name in
        forks n e (denote l (1%nat :: n) i (OPipe name true) e)
          (forks (2%nat :: n) e (denote r (1%nat :: 2%nat :: n) (OPipe name false) o e)
             (PWait (std i o e) (PWait (std i o e) (PExit 0))))
      else complain e (str "pipe" ++ newline) 1
  | Back c => forks name e (denote c (1%nat :: name) i o e) (PExit 0)
  end.
End execute.

(** * the processes of a command *)

(** The redirections that the parser makes: of input and of output. *)
Fixpoint std_redirs (c : cmd) : bool :=
  match c with
  | Exec _ => true
  | Redir c _ _ fd => ((fd =? 0) || (fd =? 1)) && std_redirs c
  | Pipe l r => std_redirs l && std_redirs r
  | Lst l r => std_redirs l && std_redirs r
  | Back c => std_redirs c
  end.
Lemma good_std c : good c = true -> std_redirs c = true.
Proof.
  induction c as [args|c IH file mode fd|l IHl r IHr|l IHl r IHr|c IH]; simpl; intros Hg; try done; try (apply andb_true_iff in Hg as [? ?]; by rewrite IHl, IHr); [|by apply IH].
  apply andb_true_iff in Hg as [[Hc _]%andb_true_iff Hr]. rewrite IH by done. rewrite andb_true_r. unfold good_redir in Hr. lia.
Qed.

(** ** Tables *)
Lemma std_ext i o e t : t 0 = Some i -> t 1 = Some o -> t 2 = Some e -> (∀ fd, fd ≠ 0 -> fd ≠ 1 -> fd ≠ 2 -> t fd = None) -> t = std i o e.
Proof.
  intros H0 H1 H2 Hr. apply functional_extensionality. intros fd. unfold std.
  destruct (Z.eqb_spec fd 0) as [->|]; [done|]. destruct (Z.eqb_spec fd 1) as [->|]; [done|]. destruct (Z.eqb_spec fd 2) as [->|]; [done|]. by apply Hr.
Qed.
Lemma std_high i o e fd : fd ≠ 0 -> fd ≠ 1 -> fd ≠ 2 -> std i o e fd = None.
Proof. intros. unfold std. by rewrite !(proj2 (Z.eqb_neq _ _)). Qed.
(** Tables that differ from [std] in computed places. *)
Ltac table := apply std_ext; [done..|]; intros fd ? ? ?; unfold upd; repeat case_decide; subst; try done; by apply std_high.

Section run.
Context (w : world).
Lemma execute_fork child k name t e : t 2 = Some e ->
  execute w (fork1 child k) name t = forks w name e (execute w child (1%nat :: name) t) (execute w k (2%nat :: name) t).
Proof. intros Ht. unfold fork1, forks, sh_panic, complain. cbn [execute]. rewrite Ht. by destruct (can_fork w name). Qed.

Lemma execute_pipe fail k name i o e : execute w (SPipe fail k) name (std i o e) =
  if can_pipe w name then execute w (k 3 4) (0%nat :: name) (upd (upd (std i o e) 3 (Some (OPipe name false))) 4 (Some (OPipe name true)))
  else execute w fail name (std i o e).
Proof. done. Qed.

(** A command runs as the processes it denotes. *)
Lemma runcmd_denote c : ∀ k h l p name i o e, std_redirs c = true -> command k h l p = Some c -> execute w (runcmd k h l p) name (std i o e) = denote w c name i o e.
Proof.
  induction c as [args|c IH file mode fd|cl IHl cr IHr|cl IHl cr IHr|c IH]; intros k h l p name i o e Hs Hc; (destruct k as [|k]; [done|]); cbn [command] in Hc; cbn [runcmd]; destruct (h !! p) as [[argv eargv|c' q eq m d|a b|a b|c']|]; try done;
    try (destruct (command k h l a) as [ca|] eqn:Ea; [|done]; destruct (command k h l b) as [cb|] eqn:Eb; [|done]); try (destruct (command k h l c') as [cc|] eqn:Ec; [|done]); cbn in Hc; simplify_eq; cbn [std_redirs] in Hs; try (apply andb_true_iff in Hs as [Hs1 Hs2]).
  - destruct (args_of argv) as [|q qs]; [done|]. reflexivity.
  - apply orb_true_iff in Hs1 as [->%Z.eqb_eq| ->%Z.eqb_eq].
    + cbn [execute denote]. change (free_fd (upd (std i o e) 0 None)) with (Some 0). destruct (can_open w _ mode); [|done]. change (0 <? 0) with false. change (0 =? 0) with true. cbv iota. rewrite <- (IH k h l c') by done. f_equal. table.
    + cbn [execute denote]. change (free_fd (upd (std i o e) 1 None)) with (Some 1). destruct (can_open w _ mode); [|done]. change (1 <? 0) with false. change (1 =? 0) with false. cbv iota. rewrite <- (IH k h l c') by done. f_equal. table.
  - cbn [denote]. rewrite execute_pipe. destruct (can_pipe w name); [|done]. rewrite (execute_fork _ _ _ _ e) by done. rewrite (execute_fork _ _ _ _ e) by done. f_equal; [|f_equal].
    + cbn [execute]. set (t := upd (upd (upd (std i o e) 3 _) 4 _) 1 None). change (t 4) with (Some (OPipe name true)). change (free_fd t) with (Some 1). rewrite <- (IHl k h l a) by done. f_equal. unfold t. table.
    + cbn [execute]. set (t := upd (upd (upd (std i o e) 3 _) 4 _) 0 None). change (t 3) with (Some (OPipe name false)). change (free_fd t) with (Some 0). rewrite <- (IHr k h l b) by done. f_equal. unfold t. table.
    + cbn [execute]. assert (upd (upd (upd (upd (std i o e) 3 (Some (OPipe name false))) 4 (Some (OPipe name true))) 3 None) 4 None = std i o e) as -> by table. done.
  - cbn [denote]. rewrite (execute_fork _ _ _ _ e), (IHl k h l a) by done. f_equal. cbn [execute]. f_equal. by apply IHr.
  - cbn [denote]. rewrite (execute_fork _ _ _ _ e), (IH k h l c') by done. done.
Qed.

(** ** Sessions *)
Definition console : obj := OFile (str "console") O_RDWR.
Definition console_ok : Prop := can_open w (str "console") O_RDWR = true.
(** The start of [main] opens what is missing of the three descriptors. *)
Lemma ensure_ok k name t : console_ok -> (∀ fd, 3 <= fd -> t fd = None) -> (∀ fd, fd < 0 -> t fd = None) ->
  execute w (ensure_fds 4 k) name t = execute w k name (std (default console (t 0)) (default console (t 1)) (default console (t 2))).
Proof.
  intros Hc Hh Hn. unfold console_ok in Hc.
  assert (Hstep : ∀ n t', execute w (ensure_fds (S n) k) name t' = match free_fd t' with
    | Some fd => if 0 <=? fd then if 3 <=? fd then execute w k name (upd (upd t' fd (Some console)) fd None) else execute w (ensure_fds n k) name (upd t' fd (Some console)) else execute w k name (upd t' fd (Some console))
    | None => execute w k name t' end).
  { intros n t'. cbn [ensure_fds execute]. rewrite Hc. destruct (free_fd t') as [fd|]; [|done]. by destruct (0 <=? fd), (3 <=? fd). }
  assert (Hfin : ∀ t' i o e, t' 0 = Some i -> t' 1 = Some o -> t' 2 = Some e -> (∀ fd, 3 <= fd -> t' fd = None) -> (∀ fd, fd < 0 -> t' fd = None) -> ∀ n, execute w (ensure_fds (S n) k) name t' = execute w k name (std i o e)).
  { intros t' i o e H0 H1 H2 H3 H4 n. assert (t' = std i o e) as -> by (apply std_ext; try done; intros fd ? ? ?; destruct (Z.lt_ge_cases fd 0); [by apply H4|apply H3; lia]).
    rewrite Hstep. change (free_fd (std i o e)) with (Some 3). cbn. f_equal. table. }
  assert (Hlow : ∀ t' fd, (∀ x, 0 <= x < fd -> ∃ o, t' x = Some o) -> t' fd = None -> 0 <= fd < 3 -> free_fd t' = Some fd).
  { intros t' fd Ho Hf Hr. assert (fd = 0 ∨ fd = 1 ∨ fd = 2) as [->|[->| ->]] by lia; unfold free_fd, nofile; change (Z.to_nat 16) with 16%nat; cbn [lowest]; [by rewrite Hf| |].
    - destruct (Ho 0 ltac:(lia)) as [? ->]. change (0 + 1) with 1. by rewrite Hf.
    - destruct (Ho 0 ltac:(lia)) as [? ->]. change (0 + 1) with 1. destruct (Ho 1 ltac:(lia)) as [? ->]. change (1 + 1) with 2. by rewrite Hf. }
  assert (Hfill : ∀ n t' fd, (∀ x, 0 <= x < fd -> ∃ o, t' x = Some o) -> t' fd = None -> 0 <= fd < 3 ->
    execute w (ensure_fds (S n) k) name t' = execute w (ensure_fds n k) name (upd t' fd (Some console))).
  { intros n t' fd Ho Hf Hr. rewrite Hstep, (Hlow t' fd) by done. assert ((0 <=? fd) = true) as -> by lia. assert ((3 <=? fd) = false) as -> by lia. done. }
  assert (Hsee : ∀ (t' : fdt) fd, (∀ x, 0 <= x < fd -> ∃ o, t' x = Some o) <-> (0 < fd -> ∃ o, t' 0 = Some o) ∧ (1 < fd -> ∃ o, t' 1 = Some o) ∧ ∀ x, 1 < x < fd -> ∃ o, t' x = Some o).
  { intros t' fd. split; [intros Hx; split_and!; intros; apply Hx; lia|]. intros (Hx & Hy & Hz) x Hr. assert (x = 0 ∨ x = 1 ∨ 1 < x) as [->|[->|]] by lia; [apply Hx|apply Hy|apply Hz]; lia. }
  destruct (t 0) as [o0|] eqn:E0, (t 1) as [o1|] eqn:E1, (t 2) as [o2|] eqn:E2; cbn [default];
    repeat (rewrite (Hfill _ _ 0) by (try done; try (by unfold upd; repeat case_decide); apply Hsee; unfold upd; repeat case_decide; (split_and!; intros; try lia; eauto)));
    repeat (rewrite (Hfill _ _ 1) by (try done; try (by unfold upd; repeat case_decide); apply Hsee; unfold upd; repeat case_decide; (split_and!; intros; try lia; eauto)));
    repeat (rewrite (Hfill _ _ 2) by (try done; try (by unfold upd; repeat case_decide); apply Hsee; unfold upd; repeat case_decide; (split_and!; intros; try lia; eauto)));
    apply Hfin; try done; try (by unfold upd; repeat case_decide); intros fd Hfd; unfold upd; repeat case_decide; try lia; first [by apply Hh|by apply Hn].
Qed.

(** ** Lines *)

(** What is typed: a command, or [cd] with a directory. *)
Inductive typed := TCmd (c : cmd) | TCd (dir : list Z).
Definition typed_line (t : typed) : list Z :=
  match t with TCmd c => render (print 3 c) | TCd dir => str "cd " ++ dir end.
(** [buf] after [getcmd] has read the line [l]. *)
Definition buffer (l : list Z) : list Z := l ++ [10; 0] ++ replicate (Z.to_nat nbuf - 2 - length l) 0.
(** The line fits into the buffer with its newline and NUL; a command is one that can be
    written down and is not taken for [cd]; a directory has no NUL and no end of line. *)
Definition typable (t : typed) : Prop :=
  Z.of_nat (length (typed_line t)) <= nbuf - 2 ∧
  match t with
  | TCmd c => good c = true ∧ is_cd (buffer (typed_line t)) = false
  | TCd dir => ∀ x, x ∈ dir -> x ≠ 0 ∧ x ≠ 10 ∧ x ≠ 13
  end.
Definition keyboard (ts : list typed) : list Z := concat ((fun t => typed_line t ++ [10]) <$> ts).

(** The memory after [gets] has put a line at [i]. *)
Lemma gets_line l : ∀ k i m rest, (∀ x, x ∈ l -> x ≠ 10 ∧ x ≠ 13) -> (length l < k)%nat ->
  ∃ m', u_gets_loop k i 0 (l ++ 10 :: rest) m = (m', rest) ∧
    ∀ a, m' a = if (i <=? a) && (a <? i + Z.of_nat (length l) + 2) then byte_at (l ++ [10; 0]) (a - i) else m a.
Proof.
  induction l as [|c l IH]; intros k i m rest Hl Hk; (destruct k as [|k]; [simpl in Hk; lia|]); cbn [app u_gets_loop].
  - eexists. split; [reflexivity|]. intros a. change (0 + i) with i. change (0 + (i + 1)) with (i + 1). cbn [length]. change (Z.of_nat 0) with 0.
    destruct (decide (a = i + 1)) as [->|H1]; [rewrite upd_eq|rewrite upd_ne by done].
    + assert ((i <=? i + 1) && (i + 1 <? i + 0 + 2) = true) as -> by lia. by replace (i + 1 - i) with 1 by lia.
    + destruct (decide (a = i)) as [->|H2]; [rewrite upd_eq|rewrite upd_ne by done].
      * assert ((i <=? i) && (i <? i + 0 + 2) = true) as -> by lia. by rewrite Z.sub_diag.
      * by assert ((i <=? a) && (a <? i + 0 + 2) = false) as -> by lia.
  - destruct (Hl c ltac:(by left)) as [H1 H2]. assert ((c =? 10) || (c =? 13) = false) as -> by lia.
    destruct (IH k (i + 1) (upd m (0 + i) c) rest) as (m' & E & Hm); [intros x Hx; apply Hl; by right|simpl in Hk; lia|]. rewrite E. exists m'. split; [done|].
    intros a. rewrite Hm. change (0 + i) with i. unfold upd. cbn [length]. destruct (decide (a = i)) as [->|Hne].
    + assert ((i + 1 <=? i) = false) as -> by lia. rewrite Z.leb_refl. assert ((i <? i + Z.of_nat (S (length l)) + 2) = true) as -> by (apply Z.ltb_lt; lia). by rewrite Z.sub_diag.
    + destruct (Z.leb_spec (i + 1) a) as [Hi|Hi].
      * assert ((i <=? a) = true) as -> by lia. replace (i + 1 + Z.of_nat (length l) + 2) with (i + Z.of_nat (S (length l)) + 2) by lia. destruct (_ <? _); cbn [andb]; [|done].
        unfold byte_at. assert ((0 <=? a - (i + 1)) = true ∧ (0 <=? a - i) = true) as [-> ->] by lia. by replace (Z.to_nat (a - i)) with (S (Z.to_nat (a - (i + 1)))) by lia.
      * assert ((i <=? a) = false) as -> by lia. done.
Qed.

Lemma byte_replicate n i : byte_at (replicate n 0) i = 0.
Proof. unfold byte_at. destruct (0 <=? i); [|done]. destruct (replicate n 0 !! Z.to_nat i) eqn:E; [|done]. by apply lookup_replicate in E as [-> _]. Qed.

Lemma memset_zero k : ∀ i (m : mem) a, m a = 0 ∨ i <= a < i + Z.of_nat k -> memset_loop k i 0 0 m a = 0.
Proof.
  induction k as [|k IH]; intros i m a Ha; [cbn; lia|]. cbn. apply IH. unfold upd. case_decide; [by left|]. lia.
Qed.

Lemma getcmd_line buf l rest k : Z.of_nat (length l) <= nbuf - 2 -> (∀ x, x ∈ l -> x ≠ 0 ∧ x ≠ 10 ∧ x ≠ 13) ->
  getcmd buf (l ++ 10 :: rest) k = SPrint 2 (str "$ ") (k 0 (buffer l) rest).
Proof.
  intros Hlen Hl. unfold getcmd, u_gets. f_equal.
  destruct (gets_line l (Z.to_nat (nbuf - 1)) 0 (u_memset 0 0 nbuf (byte_at buf)) rest) as (m & E & Hm); [intros x Hx; by destruct (Hl x Hx) as (_ & ? & ?)|unfold nbuf in *; lia|].
  rewrite E. assert (Hb : m <$> seqZ 0 nbuf = buffer l).
  { apply list_eq_same_length with (Z.to_nat nbuf); [unfold buffer, nbuf in *; rewrite !length_app, length_replicate; simpl; lia|by rewrite length_fmap, length_seqZ|].
    intros i x y Hi. rewrite list_lookup_fmap. intros (o & Ho & ->)%fmap_Some Hy. apply lookup_seqZ in Ho as [-> Hin]. rewrite Hm.
    assert (Hyb : byte_at (buffer l) (Z.of_nat i) = y) by (unfold byte_at; assert ((0 <=? Z.of_nat i) = true) as -> by lia; by rewrite Nat2Z.id, Hy).
    rewrite <- Hyb. unfold buffer. rewrite app_assoc. rewrite Z.add_0_l, Z.sub_0_r. assert ((0 <=? Z.of_nat i) = true) as -> by lia. cbn [andb].
    assert (Hlen2 : Z.of_nat (length (l ++ [10; 0])) = Z.of_nat (length l) + 2) by (rewrite length_app; simpl; lia).
    destruct (Z.ltb_spec (Z.of_nat i) (0 + Z.of_nat (length l) + 2)).
    - symmetry. apply byte_app_l. lia.
    - replace (Z.of_nat i) with (Z.of_nat (length (l ++ [10; 0])) + (Z.of_nat i - Z.of_nat (length (l ++ [10; 0])))) by lia. rewrite byte_app_r, byte_replicate by lia.
      apply memset_zero. right. unfold nbuf in *. lia. }
  rewrite Hb. assert ((byte_at (buffer l) 0 =? 0) = false) as ->; [|done].
  destruct l as [|c l]; [done|]. cbn. apply Z.eqb_neq. by destruct (Hl c ltac:(by left)).
Qed.

(** At the end of the input [memset]'s zeros are what [getcmd] sees. *)
Lemma getcmd_end buf k : getcmd buf [] k = SPrint 2 (str "$ ") (k (-1) (replicate (Z.to_nat nbuf) 0) []).
Proof. unfold getcmd, u_gets. f_equal. Qed.

(** [gets] takes what it leaves off the front of its input. *)
Lemma gets_rest inp : ∀ k i m, (length (u_gets_loop k i 0 inp m).2 <= length inp)%nat ∧
  (k ≠ 0%nat -> inp ≠ [] -> (length (u_gets_loop k i 0 inp m).2 < length inp)%nat).
Proof.
  induction inp as [|c inp IH]; intros k i m; (destruct k as [|k]; cbn [u_gets_loop]; [by cbn|]); [by cbn|].
  destruct (_ || _); [cbn; lia|]. destruct (IH k (i + 1) (upd m (0 + i) c)) as [H _]. cbn [length]. lia.
Qed.
Lemma main_round_ext buf k k' : (∀ b, k b = k' b) -> main_round buf k = main_round buf k'.
Proof. intros Hk. unfold main_round. by rewrite !Hk. Qed.
Lemma main_loop_fuel n : ∀ buf inp, (length inp < n)%nat -> main_loop n buf inp = main_loop (S (length inp)) buf inp.
Proof.
  induction n as [n IH] using lt_wf_ind. intros buf inp Hn. destruct n as [|n]; [lia|]. cbn [main_loop]. unfold getcmd, u_gets. f_equal.
  destruct inp as [|c inp]; [done|]. pose proof (gets_rest (c :: inp) (Z.to_nat (nbuf - 1)) 0 (u_memset 0 0 nbuf (byte_at buf))) as [_ Hr].
  destruct (u_gets_loop _ _ _ _ _) as [m inp']. cbn [snd] in Hr. specialize (Hr ltac:(done) ltac:(done)). cbn [length] in *.
  destruct (byte_at (m <$> seqZ 0 nbuf) 0 =? 0); [done|]. change (0 <=? 0) with true. cbv iota. apply main_round_ext. intros b.
  rewrite (IH n) by lia. rewrite (IH (S (length inp))) by lia. done.
Qed.

(** What a session is: each command runs as a process of its own that the shell waits for,
    [cd] is done by the shell itself; at the end of the input the shell exits. *)
Fixpoint session (ts : list typed) (name : list nat) (i o e : obj) : procs :=
  PPrint (Some e) (str "$ ")
    (match ts with
     | [] => PExit 0
     | TCmd c :: ts' => forks w name e (denote w c (1%nat :: name) i o e) (PWait (std i o e) (session ts' (2%nat :: name) i o e))
     | TCd dir :: ts' =>
         if can_chdir w dir then PChdir dir (session ts' name i o e)
         else PPrint (Some e) (str "cannot cd " ++ dir ++ newline) (session ts' name i o e)
     end).

Lemma typable_bytes t x : typable t -> x ∈ typed_line t -> x ≠ 0 ∧ x ≠ 10 ∧ x ≠ 13.
Proof.
  intros [_ Ht] Hx. destruct t as [c|dir]; cbn in *.
  - eapply render_chars; [|done]. by apply print_tokens, Ht.
  - rewrite !elem_of_cons in Hx. destruct Hx as [->|[->|[->|Hx]]]; [done..|by apply Ht].
Qed.
Lemma cstring_app l r : (∀ x, x ∈ l -> x ≠ 0) -> cstring (l ++ 0 :: r) = l.
Proof.
  induction l as [|c l IH]; intros Hl; [done|]. cbn. rewrite (proj2 (Z.eqb_neq c 0)) by (apply Hl; by left). f_equal. apply IH. intros x Hx. apply Hl. by right.
Qed.
(** The line of a [cd] without its newline. *)
Lemma cd_buffer dir : (∀ x, x ∈ dir -> x ≠ 0 ∧ x ≠ 10 ∧ x ≠ 13) -> let b := buffer (str "cd " ++ dir) in
  is_cd b = true ∧ string_at (put_byte b (strlen_line b - 1) 0) 3 = dir.
Proof.
  intros Hd b. split; [done|]. unfold b, buffer. set (l := str "cd " ++ dir). set (r := replicate _ 0). change ([10; 0] ++ r) with ([10] ++ 0 :: r). rewrite app_assoc, strlen_line_app.
  - rewrite length_app. cbn [length]. unfold put_byte. assert ((0 <=? Z.of_nat (length l + 1) - 1) = true) as -> by (apply Z.leb_le; lia).
    replace (Z.to_nat (Z.of_nat (length l + 1) - 1)) with (length l + 0)%nat by lia. rewrite <- app_assoc, insert_app_r. cbn [app insert list_insert].
    unfold string_at. change (drop (Z.to_nat 3) (l ++ u8 0 :: 0 :: r)) with (dir ++ 0 :: 0 :: r). apply cstring_app. intros x Hx. by destruct (Hd x Hx).
  - intros x [Hx|Hx%list_elem_of_singleton]%elem_of_app; [|by subst]. unfold l in Hx. apply elem_of_app in Hx as [Hx|Hx]; [|by destruct (Hd x Hx)].
    cbn in Hx. rewrite !elem_of_cons, elem_of_nil in Hx. by destruct Hx as [->|[->|[->|[]]]].
Qed.

Lemma main_loop_session ts name buf i o e n : Forall typable ts -> (length (keyboard ts) < n)%nat ->
  execute w (main_loop n buf (keyboard ts)) name (std i o e) = session ts name i o e.
Proof.
  intros Hts. revert name buf n. induction Hts as [|t ts Ht Hts IH]; intros name buf n Hn; (destruct n as [|n]; [lia|]).
  { cbn [main_loop session keyboard fmap list_fmap concat]. by rewrite getcmd_end. }
  change (keyboard (t :: ts)) with ((typed_line t ++ [10]) ++ keyboard ts) in *. rewrite !length_app in Hn. cbn [length] in Hn. rewrite <- app_assoc. cbn [main_loop session app].
  rewrite getcmd_line by (apply Ht || (intros x Hx; by eapply typable_bytes)). cbn [execute]. f_equal. change (0 <=? 0) with true. cbv iota. pose proof (fun nm b => IH nm b n ltac:(lia)) as IHn. clear IH.
  unfold main_round. destruct t as [c|dir]; destruct Ht as [Hlen Ht].
  - destruct Ht as [Hg Hcd]. rewrite Hcd, (execute_fork _ _ _ _ e) by done. destruct (parse_print c [10] (replicate (Z.to_nat nbuf - 2 - length (typed_line (TCmd c))) 0) Hg) as (p & st & E & Hc); [by apply Forall_singleton|].
    change (buffer (typed_line (TCmd c))) with (render (print 3 c) ++ [10] ++ 0 :: replicate (Z.to_nat nbuf - 2 - length (typed_line (TCmd c))) 0). rewrite E.
    f_equal; [apply runcmd_denote; [by apply good_std|done]|]. cbn [execute]. f_equal. apply IHn.
  - destruct (cd_buffer dir Ht) as [Hcd Hs]. cbn [typed_line]. rewrite Hcd. cbv zeta. rewrite Hs. cbn [execute]. destruct (can_chdir w dir).
    + change (0 <? 0) with false. cbv iota. f_equal. apply IHn.
    + change (-1 <? 0) with true. cbv iota. cbn [execute]. f_equal. apply IHn.
Qed.

(** C36: a session of the shell does what was typed.  The input is a sequence of lines of
    at most 98 bytes and their newlines, each a command as the printer writes it
    (not beginning with "cd ") or [cd] and a directory; then the input ends.  After each
    prompt the shell reads one line; a command is parsed and run by a process of its own,
    for which the shell waits, and [cd] is done by the shell itself.  The programs
    started have exactly the command's standard input, output and error output: a
    redirection replaces one descriptor, a pipe connects the output of its left side
    to the input of its right side, and no other descriptor, in particular no spare end
    of a pipe, is open in a program or in the shell that waits for it.  Files that cannot
    be opened, directories that cannot be entered and failing calls of fork and pipe
    are reported on the error output.  At the end of the input the shell, having
    prompted once more, exits.  At its start it opens the console for those of the
    descriptors 0, 1 and 2 that are not open. *)
Theorem shell_session ts name t : console_ok -> (∀ fd, 3 <= fd -> t fd = None) -> (∀ fd, fd < 0 -> t fd = None) ->
  Forall typable ts ->
  execute w (main (keyboard ts)) name t = session ts name (default console (t 0)) (default console (t 1)) (default console (t 2)).
Proof. intros Hc Hh Hn Hts. unfold main. rewrite ensure_ok by done. apply main_loop_session; [done|lia]. Qed.
End run.

(** What [sh_panic] prints about leftovers is the end of the line, byte for byte. *)
Lemma str_of_bytes l : Forall (fun c => 0 <= c < 256) l -> str (of_bytes l) = l.
Proof.
  unfold str, of_bytes. rewrite String.list_ascii_of_string_of_list_ascii. intros Hl. rewrite <- list_fmap_compose. rewrite <- (list_fmap_id l) at 2.
  apply list_fmap_ext. intros i x Hx. rewrite Forall_lookup in Hl. specialize (Hl i x Hx). cbn. rewrite Ascii.nat_ascii_embedding by lia. lia.
Qed.

Module Session.
(** [ls | wc > f ; a &] and then [cd d], with files that can be opened and forks that succeed. *)
Definition typed : list typed :=
  [TCmd (Lst (Pipe (Exec [[108; 115]]) (Redir (Exec [[119; 99]]) [102] 1537 1)) (Back (Exec [[97]]))); TCd [100]].
Definition w : world := World (fun _ _ => true) (fun _ => true) (fun _ => true) (fun _ => true).
(** A line that a parenthesis ends too early: its end is printed. *)
Lemma leftover_message : parsecmd (Sh (str "a ) b" ++ [10; 0]) 0 []) = Panic (String.append "leftovers: ) b" (String.append (of_bytes [10; 10]) "syntax")).
Proof. vm_compute. reflexivity. Qed.
End Session.
Lemma shell_session_witness :
  execute Session.w (main (keyboard Session.typed)) [] (fun _ => None) = session Session.w Session.typed [] console console console.
Proof.
  apply (shell_session Session.w Session.typed [] (fun _ => None)); [reflexivity|reflexivity|reflexivity|].
  apply Forall_cons. split; [split; [vm_compute; done|split; vm_compute; reflexivity]|].
  apply Forall_cons. split; [split; [vm_compute; done|]|by apply Forall_nil].
  intros x Hx. apply list_elem_of_singleton in Hx. subst. lia.
Defined.
