(* ===== verification/Exec.v ===== *)
(** * Exec: running a program, kernel/exec.c, and sys_exec of kernel/sysfile.c

    [exec] on the process table, the allocator and the page tables of the other
    components.  The file system is reached through the class [Files]; the promises
    [exec] relies on are the class [FilesSpec].  Objects on the kernel stack whose
    address is passed on ([ustack], [path], [uarg]) are at fixed addresses of
    memory; [elf] and [ph] are values.  [p] is [myproc()].

    The file system's wakeups concern other processes and belong to its state. *)

From stdpp Require Import gmap.
From S2P Require Import Prelude KState Spinlock ProcList ProcAbs Proc ProcInv ProcFork Bytes.
From S2P Require Import SleepLock MemC Kalloc Vm VmRep VmMap VmUser VmCopy VmFree VmProps ProcVm.

(** ** elf.h, param.h *)
Definition ELF_MAGIC : Z := 0x464C457F.
Definition ELF_PROG_LOAD : Z := 1.
Definition MAXARG : Z := 32.
Definition MAXPATH : Z := 128.

Record elfhdr := Elfhdr {
  e_magic : Z; e_elf : list Z; e_type : Z; e_machine : Z; e_version : Z; entry : Z; phoff : Z; shoff : Z; e_flags : Z;
  ehsize : Z; phentsize : Z; phnum : Z; shentsize : Z; shnum : Z; shstrndx : Z
}.
Record proghdr := Proghdr {
  ph_type : Z; ph_flags : Z; ph_off : Z; vaddr : Z; paddr : Z; filesz : Z; memsz : Z; ph_align : Z
}.
Definition sizeof_elfhdr : Z := 64.
Definition sizeof_proghdr : Z := 56.
Definition get64 (bs : list Z) (off : Z) : Z := get_le 8 bs off.

(** The structures as they are read from a file. *)
Definition get_elfhdr (b : list Z) : elfhdr :=
  Elfhdr (get32 b 0) (take 12 (drop 4 b)) (get16 b 16) (get16 b 18) (get32 b 20) (get64 b 24) (get64 b 32) (get64 b 40)
    (get32 b 48) (get16 b 52) (get16 b 54) (get16 b 56) (get16 b 58) (get16 b 60) (get16 b 62).
Definition get_proghdr (b : list Z) : proghdr :=
  Proghdr (get32 b 0) (get32 b 4) (get64 b 8) (get64 b 16) (get64 b 24) (get64 b 32) (get64 b 40) (get64 b 48).

(** ** What [exec] calls of the file system

    An inode is a handle, [-1] for 0.  [readi] to a kernel address delivers bytes,
    and returns their number. *)
Class Files (F : Type) := {
  f_begin_op : M F unit;
  f_end_op : M F unit;
  f_namei : list Z -> M F Z;
  f_ilock : Z -> M F unit;
  f_iunlockput : Z -> M F unit;
  f_readi : Z -> Z -> Z -> M F (list Z)
}.

(** The last component of a path: [last] after the loop over [path]. *)
Fixpoint last_elem (last s : list Z) : list Z :=
  match s with
  | [] => last
  | c :: s' => last_elem (if c =? 47 then s' else last) s'
  end.

Section exec.
Context {F : Type} `{!Files F} (kend : Z) (fuel : nat) (blncflg : bool) (tramp forkret_at kobj : Z).
Context (fs_filedup fs_idup : Z -> callee F Z) (fs_namei : list Z -> callee F Z)
  (fs_fileclose fs_iput : Z -> waker F unit) (fs_begin_op fs_end_op : waker F unit).
(** [ustack] of [exec]; [path] and [uarg] of [sys_exec] *)
Context (kustack kpath kuarg : Z).

#[local] Instance exec_env : KEnv (kmem * F) :=
  vm_env kend fuel blncflg tramp forkret_at kobj fs_filedup fs_idup fs_namei fs_fileclose fs_iput fs_begin_op fs_end_op.
Abbreviation K := (M (kstate (kmem * F))).

Definition on_files {A} (f : M F A) : callee (kmem * F) A := fun e =>
  match f e.2 with Ok v x => Some (v, (e.1, x)) | _ => None end.
Definition mcall {A} (f : M kmem A) : K A := call (on_mem f).
Definition fcall {A} (f : M F A) : K A := call (on_files f).

(** [readi(ip, 0, dst, off, n)] *)
Definition readi_to (ip dst off n : Z) : K Z :=
  bs ← fcall (f_readi ip off n);
  mcall (modify (fun s => s <| ram ::= put_bytes bs dst |>));;
  mret (Z.of_nat (length bs)).

(** ** loadseg *)
Fixpoint loadseg_loop (k : nat) (pagetable va ip offset sz i : Z) : K Z :=
  match k with
  | O => no_fuel
  | S k' =>
      if negb (i <? sz) then mret 0 else
      pa ← mcall (walkaddr pagetable (u64 (va + i)));
      if pa =? 0 then panic "loadseg: address should exist" else
      let n := if sz - i <? PGSIZE then sz - i else PGSIZE in
      r ← readi_to ip pa (u32 (offset + i)) n;
      if negb (r =? n) then mret (-1) else
      loadseg_loop k' pagetable va ip offset sz (u32 (i + PGSIZE))
  end.
Definition loadseg (pagetable va ip offset sz : Z) : K Z := loadseg_loop fuel pagetable va ip offset sz 0.

(** ** The loop over the program headers: [false] is [goto bad], with the [sz] at
    that point. *)
Definition load_one (ip pagetable off sz : Z) : K (bool * Z) :=
  bs ← fcall (f_readi ip (u32 off) sizeof_proghdr);
  if negb (Z.of_nat (length bs) =? sizeof_proghdr) then mret (false, sz) else
  let ph := get_proghdr bs in
  if negb (ph_type ph =? ELF_PROG_LOAD) then mret (true, sz) else
  if memsz ph <? filesz ph then mret (false, sz) else
  if u64 (vaddr ph + memsz ph) <? vaddr ph then mret (false, sz) else
  sz1 ← mcall (Vm.uvmalloc kend fuel pagetable sz (u64 (vaddr ph + memsz ph)));
  if sz1 =? 0 then mret (false, sz) else
  if negb (vaddr ph mod PGSIZE =? 0) then mret (false, sz1) else
  r ← loadseg pagetable (vaddr ph) ip (u32 (ph_off ph)) (u32 (filesz ph));
  mret (negb (r <? 0), sz1).
(** [k] headers are left, the next one is at [off]. *)
Fixpoint load_loop (k : nat) (ip pagetable off sz : Z) : K (bool * Z) :=
  match k with
  | O => mret (true, sz)
  | S k' =>
      r ← load_one ip pagetable off sz;
      if negb r.1 then mret r else
      load_loop k' ip pagetable (i32 (off + sizeof_proghdr)) r.2
  end.

(** ** The stack *)
(** [ustack[i] = v] *)
Definition set_ustack (i v : Z) : K unit :=
  if (0 <=? i) && (i <? MAXARG) then mcall (store (kustack + 8 * i) v) else out_of_bounds.
Definition k_strlen (a : Z) : K Z :=
  m ← mcall (gets ram);
  match strlen (Z.to_nat PGSIZE) a m with Some n => mret n | None => no_fuel end.

(** The loop over [argv], from [argc] on: [argc] and [sp] at its end, [None] for
    [goto bad]. *)
Fixpoint push_args (k : nat) (pagetable stackbase : Z) (argv : list Z) (argc sp : Z) : K (option (Z * Z)) :=
  match k with
  | O => no_fuel
  | S k' =>
      match argv !! Z.to_nat argc with
      | None => out_of_bounds
      | Some a =>
          if a =? 0 then mret (Some (argc, sp)) else
          if MAXARG <=? argc then mret None else
          n ← k_strlen a;
          let sp := u64 (sp - (n + 1)) in
          let sp := sp - sp mod 16 in
          if sp <? stackbase then mret None else
          r ← mcall (Vm.copyout fuel pagetable sp a (n + 1));
          if r <? 0 then mret None else
          set_ustack argc sp;;
          push_args k' pagetable stackbase argv (argc + 1) sp
      end
  end.

(** ** exec *)
(** [bad:] *)
Definition exec_bad (pagetable sz : Z) (ip : option Z) : K Z :=
  when (negb (pagetable =? 0)) (proc_freepagetable pagetable sz);;
  match ip with
  | Some ip => fcall (f_iunlockput ip);; fcall f_end_op
  | None => mret tt
  end;;
  mret (-1).

(** Offsets in [struct trapframe] *)
Definition tf_a (n : Z) : Z := 112 + 8 * n.

(** From the registers on: the process becomes the new program. *)
Definition exec_commit (p : Z) (path : list Z) (pagetable sz argc sp : Z) (elf : elfhdr) (oldsz : Z) : K Z :=
  q ← get_proc p;
  mcall (store (trapframe q + tf_a 1) sp);;
  set_proc p (fun q => q <| name ::= fun s => safestrcpy s (last_elem path path ++ [0]) 16 |>);;
  q ← get_proc p;
  let oldpagetable := KState.pagetable q in
  set_proc p (fun q => q <| KState.pagetable := pagetable |>);;
  set_proc p (fun q => q <| KState.sz := sz |>);;
  mcall (store (trapframe q + tf_offset tf_epc) (entry elf));;
  mcall (store (trapframe q + tf_offset tf_sp) sp);;
  proc_freepagetable oldpagetable oldsz;;
  mret argc.

(** From [p = myproc()] on, when the segments are loaded. *)
Definition exec_stack (p : Z) (path argv : list Z) (pagetable : Z) (elf : elfhdr) (sz : Z) : K Z :=
  q ← get_proc p;
  let oldsz := KState.sz q in
  let sz := PGROUNDUP sz in
  sz1 ← mcall (Vm.uvmalloc kend fuel pagetable sz (u64 (sz + 2 * PGSIZE)));
  if sz1 =? 0 then exec_bad pagetable sz None else
  let sz := sz1 in
  mcall (uvmclear pagetable (u64 (sz - 2 * PGSIZE)));;
  let stackbase := u64 (sz - PGSIZE) in
  r ← push_args (S (Z.to_nat MAXARG)) pagetable stackbase argv 0 sz;
  match r with
  | None => exec_bad pagetable sz None
  | Some (argc, sp) =>
      set_ustack argc 0;;
      let sp := u64 (sp - (argc + 1) * 8) in
      let sp := sp - sp mod 16 in
      if sp <? stackbase then exec_bad pagetable sz None else
      r ← mcall (Vm.copyout fuel pagetable sp kustack ((argc + 1) * 8));
      if r <? 0 then exec_bad pagetable sz None else
      exec_commit p path pagetable sz argc sp elf oldsz
  end.

Definition exec (p : Z) (path argv : list Z) : K Z :=
  fcall f_begin_op;;
  ip ← fcall (f_namei path);
  if ip =? -1 then
    fcall f_end_op;;
    mret (-1)
  else
  fcall (f_ilock ip);;
  bs ← fcall (f_readi ip 0 sizeof_elfhdr);
  if negb (Z.of_nat (length bs) =? sizeof_elfhdr) then exec_bad 0 0 (Some ip) else
  let elf := get_elfhdr bs in
  if negb (e_magic elf =? ELF_MAGIC) then exec_bad 0 0 (Some ip) else
  pagetable ← proc_pagetable p;
  if pagetable =? 0 then exec_bad 0 0 (Some ip) else
  r ← load_loop (Z.to_nat (phnum elf)) ip pagetable (i32 (phoff elf)) 0;
  if negb r.1 then exec_bad pagetable r.2 (Some ip) else
  fcall (f_iunlockput ip);;
  fcall f_end_op;;
  exec_stack p path argv pagetable elf r.2.

(** ** sys_exec, and the argument fetching of syscall.c *)
Definition k_fetchaddr (p addr ip : Z) : K Z :=
  q ← get_proc p;
  if (KState.sz q <=? addr) || (KState.sz q <? u64 (addr + 8)) then mret (-1) else
  r ← mcall (copyin fuel (KState.pagetable q) ip addr 8);
  if negb (r =? 0) then mret (-1) else mret 0.

Definition k_fetchstr (p addr buf max : Z) : K Z :=
  q ← get_proc p;
  err ← mcall (copyinstr fuel (KState.pagetable q) buf addr max);
  if err <? 0 then mret err else k_strlen buf.

Definition k_argraw (p n : Z) : K Z :=
  q ← get_proc p;
  if (0 <=? n) && (n <=? 5) then mcall (load (trapframe q + tf_a n)) else panic "argraw".
Definition k_argaddr (p n : Z) : K Z := k_argraw p n.
Definition k_argstr (p n buf max : Z) : K Z :=
  addr ← k_argaddr p n;
  k_fetchstr p addr buf max.

(** The loop that fills [argv]; [false] is [goto bad]. *)
Fixpoint fetch_args (k : nat) (p uargv i : Z) (argv : list Z) : K (bool * list Z) :=
  match k with
  | O => no_fuel
  | S k' =>
      if MAXARG <=? i then mret (false, argv) else
      r ← k_fetchaddr p (u64 (uargv + 8 * i)) kuarg;
      if r <? 0 then mret (false, argv) else
      uarg ← mcall (load kuarg);
      if uarg =? 0 then mret (true, <[Z.to_nat i := 0]> argv) else
      a ← mcall Kalloc.kalloc;
      let argv := <[Z.to_nat i := a]> argv in
      if a =? 0 then mret (false, argv) else
      r ← k_fetchstr p uarg a PGSIZE;
      if r <? 0 then mret (false, argv) else
      fetch_args k' p uargv (i + 1) argv
  end.

(** [for(i = 0; i < NELEM(argv) && argv[i] != 0; i++) kfree(argv[i])] *)
Fixpoint free_args (argv : list Z) : K unit :=
  match argv with
  | [] => mret tt
  | a :: argv' => if a =? 0 then mret tt else mcall (Kalloc.kfree kend a);; free_args argv'
  end.

(** The string at [a], for a callee that takes the path. *)
Fixpoint cstring (k : nat) (m : mem) (a : Z) : list Z :=
  match k with
  | O => []
  | S k' => if m a =? 0 then [] else m a :: cstring k' m (a + 1)
  end.

Definition sys_exec (p : Z) : K Z :=
  r ← k_argstr p 0 kpath MAXPATH;
  if r <? 0 then mret (-1) else
  uargv ← k_argaddr p 1;
  fa ← fetch_args (S (Z.to_nat MAXARG)) p uargv 0 (replicate (Z.to_nat MAXARG) 0);
  if negb fa.1 then
    free_args fa.2;;
    mret (-1)
  else
  m ← mcall (gets ram);
  ret ← exec p (cstring (Z.to_nat MAXPATH) m kpath) fa.2;
  free_args fa.2;;
  mret ret.
End exec.
