(* ===== verification/ExecLoad.v ===== *)
(** * ExecLoad: loading a program into a new page table

    The promises of the file system that [exec] relies on, the image a program
    file describes, as a flat memory, and the proof that the loading loop of [exec]
    builds exactly that image in the pages of the new page table, or fails with every
    page accounted for. *)

From stdpp Require Import gmap.
From S2P Require Import Prelude KState Spinlock ProcList ProcAbs Proc ProcInv ProcFork Bytes.
From S2P Require Import SleepLock MemC Kalloc Vm VmRep VmMap VmUser VmCopy VmFree VmProps ProcVm Exec.

#[local] Opaque memset memmove st64 ld64.

(** ** The interface of the file system *)
(** What [readi] reads from a file with content [c]. *)
Definition file_part (c : list Z) (off n : Z) : list Z :=
  if (off <=? Z.of_nat (length c)) && (off + n <? 2 ^ 32) then take (Z.to_nat n) (drop (Z.to_nat off) c) else [].

(** [ns] is the content of the file at every path; [exec] leaves it alone. *)
Class FilesSpec (F : Type) `{!Files F} := {
  f_idle : F -> (list Z -> option (list Z)) -> Prop;
  f_opened : F -> (list Z -> option (list Z)) -> Prop;
  f_refd : F -> (list Z -> option (list Z)) -> Z -> list Z -> Prop;
  f_locked : F -> (list Z -> option (list Z)) -> Z -> list Z -> Prop;
  begin_op_ok f ns : f_idle f ns -> exists f', f_begin_op f = Ok tt f' ∧ f_opened f' ns;
  end_op_ok f ns : f_opened f ns -> exists f', f_end_op f = Ok tt f' ∧ f_idle f' ns;
  namei_ok f ns path : f_opened f ns -> exists ip f', f_namei path f = Ok ip f'
    ∧ match ns path with Some c => ip ≠ -1 ∧ f_refd f' ns ip c | None => ip = -1 ∧ f_opened f' ns end;
  ilock_ok f ns ip c : f_refd f ns ip c -> exists f', f_ilock ip f = Ok tt f' ∧ f_locked f' ns ip c;
  iunlockput_ok f ns ip c : f_locked f ns ip c -> exists f', f_iunlockput ip f = Ok tt f' ∧ f_opened f' ns;
  readi_ok f ns ip c off n : f_locked f ns ip c -> 0 <= off < 2 ^ 32 -> 0 <= n <= PGSIZE ->
    exists f', f_readi ip off n f = Ok (file_part c off n) f' ∧ f_locked f' ns ip c;
  file_size f ns ip c : f_locked f ns ip c -> Z.of_nat (length c) < 2 ^ 30;
  file_byte f ns ip c b : f_locked f ns ip c -> b ∈ c -> 0 <= b < 256
}.

(** ** The image of a program: its size and its bytes *)
Definition file_slice (c : list Z) (off n : Z) : list Z := take (Z.to_nat n) (drop (Z.to_nat off) c).

(** One program header, at [off] of the file; [None] if it is not acceptable. *)
Definition seg_image (c : list Z) (off sz : Z) (img : mem) : option (Z * mem) :=
  if (off <? 0) || (Z.of_nat (length c) <? off + sizeof_proghdr) then None else
  let ph := get_proghdr (file_slice c off sizeof_proghdr) in
  let top := vaddr ph + memsz ph in
  let n := u32 (filesz ph) in
  if negb (ph_type ph =? ELF_PROG_LOAD) then Some (sz, img) else
  if (memsz ph <? filesz ph) || (2 ^ 64 <=? top) || (Z.max sz top =? 0) || negb (vaddr ph mod PGSIZE =? 0) then None else
  if (0 <? n) && (Z.of_nat (length c) <? u32 (ph_off ph) + n) then None else
  Some (Z.max sz top, put_bytes (file_slice c (u32 (ph_off ph)) n) (vaddr ph) img).
Fixpoint segs_image (k : nat) (c : list Z) (off sz : Z) (img : mem) : option (Z * mem) :=
  match k with
  | O => Some (sz, img)
  | S k' => si ← seg_image c off sz img; segs_image k' c (off + sizeof_proghdr) si.1 si.2
  end.
Definition exec_image (c : list Z) : option (elfhdr * Z * mem) :=
  if Z.of_nat (length c) <? sizeof_elfhdr then None else
  let elf := get_elfhdr (file_slice c 0 sizeof_elfhdr) in
  if negb (e_magic elf =? ELF_MAGIC) then None else
  si ← segs_image (Z.to_nat (phnum elf)) c (i32 (phoff elf)) 0 (fun _ => 0);
  Some (elf, si.1, si.2).

Lemma file_slice_app c off i n : 0 <= off -> 0 <= i -> 0 <= n ->
  file_slice c off (i + n) = file_slice c off i ++ file_slice c (off + i) n.
Proof.
  intros Ho Hi Hn. unfold file_slice. rewrite !Z2Nat.inj_add by done. rewrite <- drop_drop. by rewrite take_take_drop.
Qed.
Lemma file_slice_length c off n : 0 <= off -> 0 <= n -> off + n <= Z.of_nat (length c) -> Z.of_nat (length (file_slice c off n)) = n.
Proof. intros Ho Hn Hl. unfold file_slice. rewrite length_take, length_drop. lia. Qed.
Lemma file_part_slice c off n : 0 <= off -> 0 <= n <= PGSIZE -> Z.of_nat (length c) < 2 ^ 30 ->
  file_part c off n = (if off <=? Z.of_nat (length c) then file_slice c off n else []).
Proof.
  intros Ho Hn Hc. unfold file_part. destruct (Z.leb_spec off (Z.of_nat (length c))); [|done].
  by assert ((off + n <? 2 ^ 32) = true) as -> by (unfold PGSIZE in *; lia).
Qed.
(** Whether all of it is there can be seen from the number of bytes. *)
Lemma file_part_length c off n : 0 <= off -> 0 < n <= PGSIZE -> Z.of_nat (length c) < 2 ^ 30 ->
  (Z.of_nat (length (file_part c off n)) =? n) = (off + n <=? Z.of_nat (length c)) ∧ Z.of_nat (length (file_part c off n)) <= n.
Proof.
  intros Ho Hn Hc. rewrite file_part_slice by lia. destruct (Z.leb_spec off (Z.of_nat (length c))).
  - unfold file_slice. rewrite length_take, length_drop. cases_cmp.
  - cbn [length]. cases_cmp.
Qed.

(** The size of the image never shrinks. *)
Lemma seg_image_mono c off sz img sz' img' : seg_image c off sz img = Some (sz', img') -> sz <= sz'.
Proof. unfold seg_image. intros H. repeat (case_match; simplify_eq; try lia). Qed.
Lemma segs_image_mono k c : forall off sz img sz' img', segs_image k c off sz img = Some (sz', img') -> sz <= sz'.
Proof.
  induction k as [|k IH]; intros off sz img sz' img' H; cbn in H; simplify_eq; [done|].
  destruct (seg_image c off sz img) as [[sz1 img1]|] eqn:E; [|done]. cbn in H.
  apply IH in H. apply seg_image_mono in E. lia.
Qed.

Lemma byte_at_slice c off n j : (forall b, b ∈ c -> 0 <= b < 256) -> 0 <= byte_at (file_slice c off n) j < 256.
Proof.
  intros Hc. unfold byte_at. destruct (0 <=? j); [|lia]. destruct (_ !! _) as [b|] eqn:E; simpl; [|lia]. apply Hc.
  unfold file_slice in E. rewrite lookup_take_Some, lookup_drop in E. destruct E as [E _]. by eapply list_elem_of_lookup_2.
Qed.
Lemma proghdr_range c off n : (forall b, b ∈ c -> 0 <= b < 256) -> let ph := get_proghdr (file_slice c off n) in
  0 <= vaddr ph < 2 ^ 64 ∧ 0 <= memsz ph < 2 ^ 64 ∧ 0 <= filesz ph < 2 ^ 64.
Proof. intros Hc ph. split_and!; apply (get_le_bounds 8); intros j; by apply byte_at_slice. Qed.

(** ** Bytes of memory *)
Lemma put_bytes_eq bs : forall a m x,
  put_bytes bs a m x = if (a <=? x) && (x <? a + Z.of_nat (length bs)) then u8 (default 0 (bs !! Z.to_nat (x - a))) else m x.
Proof.
  induction bs as [|b bs IH]; intros a m x; cbn [put_bytes length].
  - cases_cmp.
  - rewrite IH. destruct (decide (x = a)) as [->|Hne].
    + rewrite upd_eq, Z.sub_diag. cbn. cases_cmp.
    + rewrite upd_ne by done. destruct (decide (a < x)).
      * replace (Z.to_nat (x - a)) with (S (Z.to_nat (x - (a + 1)))) by lia. cbn. cases_cmp.
      * cases_cmp.
Qed.
#[local] Opaque put_bytes.

Lemma put_bytes_nil a m : put_bytes [] a m = m.
Proof. apply functional_extensionality. intros x. rewrite put_bytes_eq. cbn [length]. cases_cmp. Qed.
Lemma put_bytes_app bs1 bs2 a m :
  put_bytes (bs1 ++ bs2) a m = put_bytes bs2 (a + Z.of_nat (length bs1)) (put_bytes bs1 a m).
Proof.
  apply functional_extensionality. intros x. rewrite !put_bytes_eq, length_app, Nat2Z.inj_add.
  destruct (decide (a <= x < a + Z.of_nat (length bs1))) as [Hin|Hout].
  - rewrite lookup_app_l by lia. cases_cmp.
  - destruct (decide (a + Z.of_nat (length bs1) <= x)).
    + rewrite lookup_app_r by lia. replace (Z.to_nat (x - a) - length bs1)%nat with (Z.to_nat (x - (a + Z.of_nat (length bs1)))) by lia. cases_cmp.
    + cases_cmp.
Qed.
Lemma put_bytes_page u a bs m : u <= a -> a + Z.of_nat (length bs) <= u + PGSIZE -> same_except [u] m (put_bytes bs a m).
Proof.
  intros Ha Hb x Hx. specialize (Hx u (list_elem_of_here _ _)). unfold in_page in Hx. rewrite put_bytes_eq. cases_cmp.
Qed.

(** Byte [va] of the user memory made of the pages [ups]. *)
Definition ubyte (m : mem) (ups : list Z) (va : Z) : Z :=
  if va <? 0 then 0 else
  match ups !! Z.to_nat (va / PGSIZE) with Some u => m (u + va mod PGSIZE) | None => 0 end.
Lemma ubyte_in m (ups : list Z) j u o : ups !! j = Some u -> 0 <= o < PGSIZE -> ubyte m ups (Z.of_nat j * PGSIZE + o) = m (u + o).
Proof.
  intros Hj Ho. unfold ubyte. assert ((Z.of_nat j * PGSIZE + o <? 0) = false) as -> by (apply Z.ltb_ge; change PGSIZE with 4096 in *; lia).
  replace ((Z.of_nat j * PGSIZE + o) / PGSIZE) with (Z.of_nat j) by (unfold PGSIZE in *; Z.div_mod_to_equations; lia).
  rewrite Nat2Z.id, Hj. f_equal. unfold PGSIZE in *. Z.div_mod_to_equations. lia.
Qed.
Lemma ubyte_page (ups : list Z) va : 0 <= va < Z.of_nat (length ups) * PGSIZE ->
  exists j u o, ups !! j = Some u ∧ va = Z.of_nat j * PGSIZE + o ∧ 0 <= o < PGSIZE ∧ va / PGSIZE = Z.of_nat j.
Proof.
  intros Hva. exists (Z.to_nat (va / PGSIZE)). destruct (lookup_lt_is_Some_2 ups (Z.to_nat (va / PGSIZE))) as [u Hu].
  - unfold PGSIZE in *. Z.div_mod_to_equations. lia.
  - exists u, (va mod PGSIZE). split; [done|]. unfold PGSIZE in *. Z.div_mod_to_equations. lia.
Qed.
Lemma ubyte_ext m m' (ups : list Z) :
  (forall va, 0 <= va < Z.of_nat (length ups) * PGSIZE -> ubyte m' ups va = ubyte m ups va) -> ubyte m' ups = ubyte m ups.
Proof.
  intros He. apply functional_extensionality. intros va.
  destruct (decide (0 <= va < Z.of_nat (length ups) * PGSIZE)) as [Hin|Hout]; [by apply He|].
  unfold ubyte. destruct (Z.ltb_spec va 0); [done|]. rewrite lookup_ge_None_2; [done|].
  change PGSIZE with 4096 in *. Z.div_mod_to_equations. lia.
Qed.

(** The state with the memory [m] and the file system [f]. *)
Definition at_ {F} (s : kstate (kmem * F)) (m : kmem) (f : F) : kstate (kmem * F) :=
  s <| kcore ::= fun c => c <| env := (m, f) |> |>.
Lemma mcall_at {F A B} (g : M kmem A) v m m' (f : F) s (k : A -> M (kstate (kmem * F)) B) :
  g m = Ok v m' -> (mcall g ≫= k) (at_ s m f) = k v (at_ s m' f).
Proof. intros Hg. apply bind_Ok. unfold mcall, call, on_mem. simpl. by rewrite Hg. Qed.
Lemma fcall_at {F A B} (g : M F A) v m (f f' : F) s (k : A -> M (kstate (kmem * F)) B) :
  g f = Ok v f' -> (fcall g ≫= k) (at_ s m f) = k v (at_ s m f').
Proof. intros Hg. apply bind_Ok. unfold fcall, call, on_files. simpl. by rewrite Hg. Qed.

Definition RWX : Z := Z.lor (Z.lor PTE_W PTE_X) PTE_R.

Section load.
Context (kend : Z) (Hkend : 0 < kend) (fuel : nat) (tramp : Z).
(** What there is at the start: the memory [m0], its free pages [fs0]; the kernel
    stack is in the page [kst], the trapframe of the process is [tf]. *)
Context (m0 : mem) (fs0 : list Z) (kst tf root : Z).

(** The new page table of a program of size [sz]: its pages and those still free
    are the [fs0], its user pages are accessible but for the guard page [g], and they
    hold the image [img]. *)
Record partway (g : Z) (m : kmem) (fs : list Z) (tabs : tables) (leaf : Z -> Z) (ups : list Z) (sz : Z) (img : mem) : Prop := {
  b_space : uspace kend m fs root tabs leaf ups;
  b_pages : ups ++ fs ++ tab_pages tabs ≡ₚ fs0;
  b_same : same_except (kst :: fs0) m0 (ram m);
  b_sz : 0 <= sz <= TRAPFRAME;
  b_len : length ups = npages sz;
  b_leaf : forall j u, ups !! j = Some u -> leaf (Z.of_nat j) = mk_pte u (if Z.of_nat j =? g then RWX else RWXU);
  b_top : forall v, user_top <= v -> leaf v = proc_leaf tramp tf v;
  b_bytes : forall va, 0 <= va < Z.of_nat (length ups) * PGSIZE -> ubyte (ram m) ups va = img va;
  b_rest : forall va, va < 0 ∨ Z.of_nat (length ups) * PGSIZE <= va -> img va = 0
}.
(** While it is loaded, there is no guard page. *)
Abbreviation building := (partway (-1)).
(** Every user page has taken at most three free pages, the page table itself five. *)
Definition thrifty (fs ups : list Z) : Prop := (length fs0 <= 5 + 3 * length ups + length fs)%nat.

Lemma mk_pte_user u : frame_ok u ->
  has PTE_V (mk_pte u RWXU) = true ∧ has PTE_U (mk_pte u RWXU) = true ∧ PTE2PA (mk_pte u RWXU) = u.
Proof.
  intros Hu. rewrite mk_pte_lor. unfold has. rewrite !PTE_low by done. split_and!; [done|done|]. by apply PTE2PA_PTE.
Qed.

(** So the user memory is the image. *)
Lemma b_image g m fs tabs leaf ups sz img : partway g m fs tabs leaf ups sz img -> ubyte (ram m) ups = img.
Proof.
  intros Hb. apply functional_extensionality. intros va.
  destruct (decide (0 <= va < Z.of_nat (length ups) * PGSIZE)) as [Hin|Hout]; [by apply (b_bytes _ _ _ _ _ _ _ _ Hb)|].
  rewrite (b_rest _ _ _ _ _ _ _ _ Hb) by lia. unfold ubyte. destruct (Z.ltb_spec va 0); [done|].
  rewrite lookup_ge_None_2; [done|]. unfold PGSIZE in *. Z.div_mod_to_equations. lia.
Qed.

Section one.
Context (g : Z) (m : kmem) (fs : list Z) (tabs : tables) (leaf : Z -> Z) (ups : list Z) (sz : Z) (img : mem).
Context (Hb : partway g m fs tabs leaf ups sz img).

Lemma b_aligned : Forall (fun p => p mod PGSIZE = 0) ups.
Proof using Hb. eapply pages_aligned, (us_pages _ _ _ _ _ _ _ (b_space _ _ _ _ _ _ _ _ Hb)). Qed.
Lemma b_nodup : NoDup ups.
Proof using Hb. pose proof (us_nodup _ _ _ _ _ _ _ (b_space _ _ _ _ _ _ _ _ Hb)) as H. by apply NoDup_app in H as (H & _). Qed.
Lemma b_in : ups ⊆ fs0.
Proof using Hb. intros u Hu. rewrite <- (b_pages _ _ _ _ _ _ _ _ Hb). apply elem_of_app. by left. Qed.

Lemma b_walkaddr j u : ups !! j = Some u -> Z.of_nat j ≠ g -> walkaddr root (Z.of_nat j * PGSIZE) m = Ok u m ∧ (u =? 0) = false.
Proof using Hb Hkend.
  intros Hj Hg. pose proof (b_space _ _ _ _ _ _ _ _ Hb) as Hu. pose proof (us_pages _ _ _ _ _ _ _ Hu) as Hpg.
  rewrite Forall_forall in Hpg. pose proof (Hpg u ltac:(by eapply list_elem_of_lookup_2)) as Hpu.
  pose proof (lookup_lt_Some _ _ _ Hj) as Hlt. pose proof (us_size _ _ _ _ _ _ _ Hu) as Hsz. pose proof user_top_le as Htop.
  assert (Hva : 0 <= Z.of_nat j * PGSIZE < MAXVA) by (apply page_va; lia). split.
  - rewrite (walkaddr_ok kend Hkend m fs root tabs leaf) by (apply Hu || lia || (by rewrite Z.mod_mul)).
    unfold uaccess. rewrite Z.div_mul, Z.mod_mul, (b_leaf _ _ _ _ _ _ _ _ Hb j u Hj) by done.
    assert ((Z.of_nat j =? g) = false) as -> by lia.
    destruct (mk_pte_user u (page_frame kend u Hkend Hpu)) as (-> & -> & ->).
    assert ((0 <=? Z.of_nat j * PGSIZE) && (Z.of_nat j * PGSIZE <? MAXVA) = true) as -> by lia. simpl. by rewrite Z.add_0_r.
  - destruct (page_word kend Hkend u Hpu). lia.
Qed.

(** A store to one page of the user memory. *)
Lemma b_update j u m' img' :
  ups !! j = Some u -> same_except [u] (ram m) m' ->
  (forall o, 0 <= o < PGSIZE -> m' (u + o) = img' (Z.of_nat j * PGSIZE + o)) ->
  (forall va, va / PGSIZE ≠ Z.of_nat j -> img' va = img va) ->
  partway g (m <| ram := m' |>) fs tabs leaf ups sz img'.
Proof using Hb.
  intros Hj Hs Hin Hout. pose proof Hb as [B1 B2 B3 B4 B5 B6 B7 B8 B9].
  assert (Hu : u ∈ ups) by (by eapply list_elem_of_lookup_2). pose proof (lookup_lt_Some _ _ _ Hj) as Hlt.
  split; try done.
  - apply (us_write kend fs root tabs leaf ups m _ B1). by eapply same_one.
  - eapply same_trans; [exact B3|]. eapply same_one; [|exact Hs]. right. by apply b_in.
  - intros va Hva. destruct (ubyte_page ups va Hva) as (i & w & o & Hi & Eva & Hm & Ed).
    cbn. rewrite Eva, (ubyte_in _ _ i w) by done.
    destruct (decide (i = j)) as [->|Hne]; [simplify_eq; by apply Hin|].
    rewrite <- Eva, Hout, <- B8 by lia. rewrite Eva, (ubyte_in _ _ i w) by done.
    pose proof b_aligned as Hal. rewrite Forall_forall in Hal.
    apply (same_page [u] _ _ w); [done|apply Hal; by eapply list_elem_of_lookup_2| | |unfold in_page; lia].
    + constructor; [by apply Hal|done].
    + intros ->%list_elem_of_singleton. by apply Hne, (NoDup_lookup ups i j u b_nodup).
  - intros va Hva. rewrite Hout by (unfold PGSIZE in *; Z.div_mod_to_equations; lia). by apply B9.
Qed.

(** Storing bytes in one page. *)
Lemma b_put j u o bs :
  ups !! j = Some u -> 0 <= o -> o + Z.of_nat (length bs) <= PGSIZE ->
  partway g (m <| ram ::= put_bytes bs (u + o) |>) fs tabs leaf ups sz (put_bytes bs (Z.of_nat j * PGSIZE + o) img).
Proof using Hb.
  intros Hj Ho Hlen. pose proof (lookup_lt_Some _ _ _ Hj) as Hlt.
  apply (b_update j u (put_bytes bs (u + o) (ram m))); [done|apply put_bytes_page; lia| |].
  - intros x Hx. rewrite !put_bytes_eq. rewrite <- (b_bytes _ _ _ _ _ _ _ _ Hb), (ubyte_in _ _ j u) by (done || unfold PGSIZE in *; lia).
    replace (Z.of_nat j * PGSIZE + x - (Z.of_nat j * PGSIZE + o)) with (u + x - (u + o)) by lia. cases_cmp.
  - intros va Hva. rewrite put_bytes_eq. unfold PGSIZE in *. cases_cmp. exfalso. Z.div_mod_to_equations. lia.
Qed.
End one.

(** Growing: the new pages are zero. *)
Lemma b_grow m fs tabs leaf ups sz img new m' fs' tabs' leaf' newsz :
  building m fs tabs leaf ups sz img -> grown kend m fs root tabs leaf ups new m' fs' tabs' leaf' ->
  zeroed m' leaf' (length ups) new -> 0 <= newsz <= TRAPFRAME -> length (ups ++ new) = npages newsz ->
  building m' fs' tabs' leaf' (ups ++ new) newsz img.
Proof.
  intros [B1 B2 B3 B4 B5 B6 B7 B8 B9] Hg Hz Hsz Hlen. pose proof Hg as [G1 G2 G5 G3 G4].
  assert (Hin : fs ++ tab_pages tabs ⊆ fs0) by (intros x Hx; rewrite <- B2; apply elem_of_app; by right).
  assert (Hold : forall u a, u ∈ ups -> in_page u a -> ram m' a = ram m a).
  { intros u a Hu Ha. eapply same_page; [exact G3| |by eapply uspace_aligned| |exact Ha].
    - pose proof (us_pages _ _ _ _ _ _ _ B1) as Hp. rewrite Forall_forall in Hp. by apply Hp.
    - destruct (us_apart kend _ _ _ _ _ _ u B1 Hu). rewrite elem_of_app. tauto. }
  split; try done.
  - rewrite <- B2, <- app_assoc, G2. done.
  - eapply same_trans; [exact B3|]. eapply same_mono; [|exact G3]. set_solver.
  - intros j u [Hj|[Hge Hj]]%lookup_app_Some.
    + pose proof (lookup_lt_Some _ _ _ Hj). rewrite G4 by lia. by apply B6.
    + destruct (Hz _ _ Hj) as [_ E].
      assert ((Z.of_nat j =? -1) = false) as -> by lia. rewrite <- E. f_equal. lia.
  - intros v Hv. pose proof (us_size _ _ _ _ _ _ _ G1). rewrite G4 by lia. by apply B7.
  - intros va Hva. destruct (ubyte_page (ups ++ new) va Hva) as (j & u & o & Hj & Eva & Hm & _).
    rewrite Eva, (ubyte_in _ _ j u) by done.
    apply lookup_app_Some in Hj as [Hj|[Hge Hj]].
    + pose proof (lookup_lt_Some _ _ _ Hj). rewrite (Hold u) by (unfold in_page; lia || by eapply list_elem_of_lookup_2).
      rewrite <- B8 by (unfold PGSIZE in *; lia). symmetry. by apply ubyte_in.
    + destruct (Hz _ _ Hj) as [Hfill _]. rewrite Hfill by (unfold in_page; lia). symmetry. apply B9. unfold PGSIZE in *. lia.
  - intros va Hva. apply B9. rewrite length_app in Hva. unfold PGSIZE in *. lia.
Qed.

Lemma b_uvmalloc m fs tabs leaf ups sz img newsz :
  building m fs tabs leaf ups sz img -> thrifty fs ups -> 0 <= newsz -> (length fs0 < fuel)%nat -> Z.of_nat (length fs0) <= user_top ->
  exists r m', Vm.uvmalloc kend fuel root sz newsz m = Ok r m'
    ∧ (r = Z.max sz newsz ∧ (exists fs' tabs' leaf' ups', building m' fs' tabs' leaf' ups' (Z.max sz newsz) img ∧ thrifty fs' ups')
       ∨ r = 0 ∧ (exists fs' tabs' leaf', building m' fs' tabs' leaf' ups sz img)
         ∧ sz <= newsz ∧ Z.of_nat (length fs0) < 5 + 3 * pages_for newsz).
Proof using Hkend.
  unfold thrifty. intros Hb Hth Hnew Hfu Htop. pose proof Hb as [B1 B2 B3 B4 B5 B6 B7 B8 B9].
  pose proof (Permutation_length B2) as Hl. rewrite !length_app in Hl.
  destruct (Z.ltb_spec newsz sz) as [Hlt|Hge].
  { exists sz, m. rewrite Z.max_l by lia. split; [|left; split; [done|]; by exists fs, tabs, leaf, ups].
    unfold Vm.uvmalloc. by assert ((newsz <? sz) = true) as -> by lia. }
  rewrite Z.max_r by lia.
  destruct (uvmalloc_ok kend Hkend fuel m fs root tabs leaf ups sz newsz) as (r & m' & Hrun & fs' & tabs' & leaf' & Hpost);
    [done|lia|lia|done|right; lia|lia|].
  exists r, m'. split; [done|]. destruct Hpost as [(-> & new & Hg & Hz & Hlen & Hc)|(-> & Hg & Hlf & Hc)].
  - left. split; [done|]. exists fs', tabs', leaf', (ups ++ new).
    pose proof (us_size _ _ _ _ _ _ _ (gr_space _ _ _ _ _ _ _ _ _ _ _ _ Hg)) as Hsize.
    assert (Hle : newsz <= TRAPFRAME).
    { apply Z.nlt_ge. intros Hgt. change TRAPFRAME with (user_top * PGSIZE) in Hgt. apply pages_for_lt in Hgt. lia. }
    assert (TRAPFRAME <= MAXVA) by done. rewrite pages_for_npages in Hlen by lia. 
    split; [by eapply b_grow|rewrite length_app; lia].
  - right. split; [done|]. split; [|split; [done|lia]]. exists fs', tabs', leaf'. rewrite <- (app_nil_r ups).
    eapply b_grow; [done|done|by intros ? ? ?|done|by rewrite app_nil_r].
Qed.


Section seg.
Context {F : Type} `{!Files F, !FilesSpec F}.
Context (s : kstate (kmem * F)) (ns : list Z -> option (list Z)) (ip : Z) (c : list Z).

Lemma readi_to_at m f dst off n : f_locked f ns ip c -> 0 <= off < 2 ^ 32 -> 0 <= n <= PGSIZE ->
  exists f', f_locked f' ns ip c
  ∧ forall B (k : Z -> M (kstate (kmem * F)) B), (readi_to ip dst off n ≫= k) (at_ s m f)
      = k (Z.of_nat (length (file_part c off n))) (at_ s (m <| ram ::= put_bytes (file_part c off n) dst |>) f').
Proof.
  intros Hf Ho Hn. destruct (readi_ok f ns ip c off n Hf Ho Hn) as (f' & Hr & Hf'). exists f'. split; [done|].
  intros B k. apply bind_Ok. unfold readi_to. rewrite (fcall_at _ _ _ _ _ _ _ Hr). by erewrite mcall_at by reflexivity.
Qed.

Context (fs : list Z) (tabs : tables) (leaf : Z -> Z) (ups : list Z) (sz : Z) (img : mem).
Context (v off n : Z) (Hv : 0 <= v) (Hoff : 0 <= off < 2 ^ 32) (Hn : 0 <= n < 2 ^ 32).
Context (Hroom : v * PGSIZE + n <= Z.of_nat (length ups) * PGSIZE).
Abbreviation loaded i := (put_bytes (file_slice c off i) (v * PGSIZE) img).

Lemma loadseg_loop_ok : forall k j m f, (length ups < Z.to_nat v + j + k)%nat -> v + Z.of_nat j <= Z.of_nat (length ups) ->
  f_locked f ns ip c -> let i := Z.of_nat j * PGSIZE in
  j = 0%nat ∨ off + Z.min i n <= Z.of_nat (length c) -> building m fs tabs leaf ups sz (loaded (Z.min i n)) ->
  exists r m' f' img', loadseg_loop k root (v * PGSIZE) ip off n i (at_ s m f) = Ok r (at_ s m' f')
    ∧ f_locked f' ns ip c ∧ building m' fs tabs leaf ups sz img'
    ∧ (r = 0 ∧ (0 <? n) && (Z.of_nat (length c) <? off + n) = false ∧ img' = loaded n
       ∨ r = -1 ∧ (0 <? n) && (Z.of_nat (length c) <? off + n) = true).
Proof using Hkend Hv Hoff Hn Hroom.
  induction k as [|k IH]; intros j m f Hk Hj Hf i Hi Hb; [lia|]. cbn [loadseg_loop].
  pose proof (file_size f ns ip c Hf) as Hc. assert (Hi0 : 0 <= i) by (unfold i, PGSIZE; lia).
  destruct (Z.ltb_spec i n) as [Hlt|Hge]; cbn [negb].
  2:{ rewrite Z.min_r in Hi, Hb by lia. eexists 0, m, f, _. split; [done|]. split; [done|]. split; [exact Hb|]. left. split_and!; [done| |done].
      destruct Hi as [->|]; [unfold i in Hge|]; cases_cmp. }
  rewrite Z.min_l in Hi, Hb by lia.
  assert (Hva : v * PGSIZE + i = Z.of_nat (Z.to_nat v + j) * PGSIZE) by (unfold i; rewrite Nat2Z.inj_add, Z2Nat.id by done; ring).
  destruct (lookup_lt_is_Some_2 ups (Z.to_nat v + j)) as [u Hu]; [unfold PGSIZE in *; lia|].
  destruct (b_walkaddr _ _ _ _ _ _ _ _ Hb _ _ Hu ltac:(lia)) as [Hw Hu0].
  pose proof (us_size _ _ _ _ _ _ _ (b_space _ _ _ _ _ _ _ _ Hb)) as Hsize.
  assert (Hr64 : u64 (v * PGSIZE + i) = v * PGSIZE + i).
  { apply u64_id. assert (user_top * PGSIZE < 2 ^ 64) by done. unfold PGSIZE in *. lia. }
  rewrite Hr64, Hva. rewrite (mcall_at _ _ _ _ _ _ _ Hw), Hu0.
  set (cn := if n - i <? PGSIZE then n - i else PGSIZE). assert (Hcn : 0 < cn <= PGSIZE ∧ i + cn = Z.min (i + PGSIZE) n).
  { unfold cn. unfold PGSIZE in *. cases_cmp. }
  assert (Ho32 : u32 (off + i) = off + i) by (apply u32_id; destruct Hi as [->|]; unfold i in *; lia). rewrite Ho32.
  destruct (readi_to_at m f u (off + i) cn Hf) as (f1 & Hf1 & Hrun); [rewrite <- Ho32; apply u32_range|lia|]. rewrite Hrun.
  destruct (file_part_length c (off + i) cn ltac:(lia) ltac:(lia) Hc) as [-> Hple]. set (bs := file_part c (off + i) cn) in *.
  pose proof (b_put _ _ _ _ _ _ _ _ Hb _ _ 0 bs Hu ltac:(lia) ltac:(lia)) as Hb1. rewrite !Z.add_0_r, <- Hva in Hb1.
  destruct (Z.leb_spec (off + i + cn) (Z.of_nat (length c))) as [Hall|Hshort]; cbn [negb].
  2:{ eexists (-1), _, f1, _. split; [done|]. split; [done|]. split; [exact Hb1|]. right. split; [done|]. cases_cmp. }
  assert (Hnext : u32 (i + PGSIZE) = Z.of_nat (S j) * PGSIZE) by (rewrite u32_id; unfold i, PGSIZE in *; lia). rewrite Hnext.
  apply IH; try done; [lia|unfold PGSIZE in *; lia|right; unfold i, PGSIZE in *; lia|].
  replace (Z.min (Z.of_nat (S j) * PGSIZE) n) with (i + cn) by (unfold i, PGSIZE in *; lia).
  rewrite file_slice_app, put_bytes_app, file_slice_length by lia.
  assert (Ebs : file_slice c (off + i) cn = bs).
  { unfold bs. rewrite file_part_slice by lia. by assert ((off + i <=? Z.of_nat (length c)) = true) as -> by lia. }
  rewrite Ebs. exact Hb1.
Qed.

Lemma loadseg_ok m f : (length ups < fuel)%nat -> f_locked f ns ip c -> building m fs tabs leaf ups sz img ->
  exists r m' f' img', loadseg fuel root (v * PGSIZE) ip off n (at_ s m f) = Ok r (at_ s m' f')
    ∧ f_locked f' ns ip c ∧ building m' fs tabs leaf ups sz img'
    ∧ (r = 0 ∧ (0 <? n) && (Z.of_nat (length c) <? off + n) = false ∧ img' = loaded n
       ∨ r = -1 ∧ (0 <? n) && (Z.of_nat (length c) <? off + n) = true).
Proof using Hkend Hv Hoff Hn Hroom.
  intros Hfu Hf Hb. apply (loadseg_loop_ok fuel 0 m f); [lia|unfold PGSIZE in *; lia|done|by left|].
  rewrite Z.min_l by lia. unfold file_slice. by rewrite take_0, put_bytes_nil.
Qed.
End seg.

Section loop.
Context {F : Type} `{!Files F, !FilesSpec F}.
Context (s : kstate (kmem * F)) (ns : list Z -> option (list Z)) (ip : Z) (c : list Z).
Context (Hfuel : (length fs0 < fuel)%nat) (Hmem : Z.of_nat (length fs0) <= user_top).

(** Not enough memory for a program of size [sz]. *)
Definition short (sz : Z) : Prop := Z.of_nat (length fs0) < 5 + 3 * pages_for sz.
Lemma short_mono sz sz' : sz <= sz' -> short sz -> short sz'.
Proof. unfold short, pages_for, PGSIZE. intros. Z.div_mod_to_equations. lia. Qed.

(** What the loading of one or more segments ends with; [want] is the image they ask
    for. *)
Definition load_post (want : option (Z * mem)) (ok : bool) (sz' : Z) (m' : kmem) (f' : F) : Prop :=
  f_locked f' ns ip c ∧ exists fs' tabs' leaf' ups' img', building m' fs' tabs' leaf' ups' sz' img'
  ∧ match ok with
    | true => want = Some (sz', img') ∧ thrifty fs' ups'
    | false => forall sz'' img'', want = Some (sz'', img'') -> short sz''
    end.

(** From the allocation of a segment on. *)
Lemma load_seg_ok m f fs tabs leaf ups sz img va top po n :
  building m fs tabs leaf ups sz img -> thrifty fs ups -> f_locked f ns ip c ->
  0 <= va -> 0 <= n -> va + n <= top -> 0 <= po < 2 ^ 32 -> n < 2 ^ 32 ->
  exists ok sz' m' f',
    (sz1 ← mcall (Vm.uvmalloc kend fuel root sz top);
     if sz1 =? 0 then mret (false, sz) else
     if negb (va mod PGSIZE =? 0) then mret (false, sz1) else
     r ← loadseg fuel root va ip po n;
     mret (negb (r <? 0), sz1)) (at_ s m f) = Ok (ok, sz') (at_ s m' f')
    ∧ load_post (if (Z.max sz top =? 0) || negb (va mod PGSIZE =? 0) then None else
                 if (0 <? n) && (Z.of_nat (length c) <? po + n) then None else
                 Some (Z.max sz top, put_bytes (file_slice c po n) va img)) ok sz' m' f'.
Proof using Hkend Hfuel Hmem.
  intros Hb Hth Hf Hva Hn Htop Hpo Hn32. pose proof (b_sz _ _ _ _ _ _ _ _ Hb) as Hsz. unfold load_post.
  destruct (b_uvmalloc m fs tabs leaf ups sz img top Hb Hth ltac:(lia) Hfuel Hmem) as (r & m1 & Hrun & Hcase). rewrite (mcall_at _ _ _ _ _ _ _ Hrun).
  destruct Hcase as [(-> & fs1 & tabs1 & leaf1 & ups1 & Hb1 & Hth1)|(-> & (fs1 & tabs1 & leaf1 & Hb1) & Hle & Hsh)].
  2:{ change (0 =? 0) with true. cbv iota. exists false, sz, m1, f. split; [done|]. split; [done|]. eexists _, _, _, _, _. split; [exact Hb1|].
      intros sz'' img'' E. repeat case_match; simplify_eq. by rewrite Z.max_r. }
  destruct (Z.eqb_spec (Z.max sz top) 0) as [E0|Hne]; cbn [orb].
  { exists false, sz, m1, f. split; [done|]. split; [done|]. eexists _, _, _, _, _. split; [|done].
    assert (E : Z.max sz top = sz) by lia. rewrite E in Hb1. exact Hb1. }
  destruct (Z.eqb_spec (va mod PGSIZE) 0) as [Hal|Hal]; cbn [negb].
  2:{ eexists false, _, m1, f. split; [done|]. split; [done|]. by eexists _, _, _, _, _. }
  assert (Hvp : va = va / PGSIZE * PGSIZE) by (unfold PGSIZE in *; Z.div_mod_to_equations; lia).
  assert (HT : TRAPFRAME <= MAXVA) by done. pose proof (b_sz _ _ _ _ _ _ _ _ Hb1) as Hsz1.
  assert (Hroom : va / PGSIZE * PGSIZE + n <= Z.of_nat (length ups1) * PGSIZE).
  { rewrite <- Hvp, (b_len _ _ _ _ _ _ _ _ Hb1), <- PGROUNDUP_npages by lia. rewrite PGROUNDUP_eq by (assert (MAXVA < 2 ^ 63) by done; lia).
    unfold PGSIZE. Z.div_mod_to_equations. lia. }
  destruct (loadseg_ok s ns ip c fs1 tabs1 leaf1 ups1 (Z.max sz top) img (va / PGSIZE) po n ltac:(apply Z.div_pos; [lia|done]) Hpo ltac:(lia) Hroom m1 f)
    as (r & m2 & f2 & img2 & Hrun2 & Hf2 & Hb2 & Hcase2); [|done|done|].
  { pose proof (Permutation_length (b_pages _ _ _ _ _ _ _ _ Hb1)) as Hl. rewrite !length_app in Hl. lia. }
  rewrite <- Hvp in Hrun2, Hcase2. rewrite (bind_Ok _ _ _ _ _ Hrun2). eexists (negb (r <? 0)), _, m2, f2. split; [done|]. split; [done|].
  eexists _, _, _, _, img2. split; [exact Hb2|]. destruct Hcase2 as [(-> & -> & ->)|(-> & ->)]; by cbn.
Qed.

Lemma load_one_ok m f fs tabs leaf ups sz img off :
  building m fs tabs leaf ups sz img -> thrifty fs ups -> f_locked f ns ip c -> - 2 ^ 31 <= off < 2 ^ 31 ->
  exists ok sz' m' f', load_one kend fuel ip root off sz (at_ s m f) = Ok (ok, sz') (at_ s m' f')
    ∧ load_post (seg_image c off sz img) ok sz' m' f'.
Proof using Hkend Hfuel Hmem.
  intros Hb Hth Hf Hoff. pose proof (file_size f ns ip c Hf) as Hc. unfold load_one, seg_image.
  destruct (readi_ok f ns ip c (u32 off) sizeof_proghdr Hf (u32_range _) ltac:(done)) as (f1 & Hr & Hf1). rewrite (fcall_at _ _ _ _ _ _ _ Hr).
  destruct (file_part_length c (u32 off) sizeof_proghdr ltac:(apply u32_range) ltac:(done) Hc) as [-> _].
  assert (Hg : (u32 off + sizeof_proghdr <=? Z.of_nat (length c)) = negb ((off <? 0) || (Z.of_nat (length c) <? off + sizeof_proghdr))).
  { unfold u32, sizeof_proghdr. destruct (Z.ltb_spec off 0).
    - replace (off mod 2 ^ 32) with (off + 2 ^ 32) by (Z.div_mod_to_equations; lia). cases_cmp.
    - rewrite Z.mod_small by lia. cases_cmp. }
  rewrite Hg. set (g := (off <? 0) || _) in *. destruct g eqn:Eg; cbn [negb].
  { exists false, sz, m, f1. split; [done|]. split; [done|]. by eexists _, _, _, _, _. }
  unfold g in Eg. apply orb_false_elim in Eg as [Eo El].
  assert (E32 : u32 off = off) by (apply u32_id; lia). rewrite E32, file_part_slice by (done || lia).
  assert ((off <=? Z.of_nat (length c)) = true) as -> by (unfold sizeof_proghdr in *; lia).
  destruct (proghdr_range c off sizeof_proghdr (fun b => file_byte f1 ns ip c b Hf1)) as (Rv & Rm & Rf). set (ph := get_proghdr _) in *. cbv zeta.
  destruct (negb (ph_type ph =? ELF_PROG_LOAD)).
  { exists true, sz, m, f1. split; [done|]. split; [done|]. by eexists _, _, _, _, _. }
  destruct (Z.ltb_spec (memsz ph) (filesz ph)); cbn [orb].
  { exists false, sz, m, f1. split; [done|]. split; [done|]. by eexists _, _, _, _, _. }
  destruct (Z.leb_spec (2 ^ 64) (vaddr ph + memsz ph)) as [Hov|Hov]; cbn [orb].
  - assert ((u64 (vaddr ph + memsz ph) <? vaddr ph) = true) as -> by (unfold u64; Z.div_mod_to_equations; lia).
    exists false, sz, m, f1. split; [done|]. split; [done|]. by eexists _, _, _, _, _.
  - rewrite u64_id by lia. assert ((vaddr ph + memsz ph <? vaddr ph) = false) as -> by lia.
    assert (u32 (filesz ph) <= filesz ph) by (unfold u32; Z.div_mod_to_equations; lia).
    apply (load_seg_ok m f1 fs tabs leaf ups sz img); try done; try apply u32_range; lia.
Qed.

Lemma load_loop_ok : forall k m f fs tabs leaf ups sz img off,
  building m fs tabs leaf ups sz img -> thrifty fs ups -> f_locked f ns ip c -> - 2 ^ 31 <= off < 2 ^ 31 ->
  exists ok sz' m' f', load_loop kend fuel k ip root off sz (at_ s m f) = Ok (ok, sz') (at_ s m' f')
    ∧ load_post (segs_image k c off sz img) ok sz' m' f'.
Proof using Hkend Hfuel Hmem.
  induction k as [|k IH]; intros m f fs tabs leaf ups sz img off Hb Hth Hf Hoff; cbn [load_loop segs_image].
  { exists true, sz, m, f. split; [done|]. split; [done|]. by eexists _, _, _, _, _. }
  destruct (load_one_ok m f fs tabs leaf ups sz img off Hb Hth Hf Hoff) as (ok & sz1 & m1 & f1 & Hrun & Hf1 & fs1 & tabs1 & leaf1 & ups1 & img1 & Hb1 & Hok).
  rewrite (bind_Ok _ _ _ _ _ Hrun). destruct ok; cbn [fst snd negb].
  - destruct Hok as [Ew Hth1]. rewrite Ew. cbn. replace (i32 (off + sizeof_proghdr)) with (off + sizeof_proghdr).
    + apply (IH m1 f1 fs1 tabs1 leaf1 ups1); try done. pose proof (file_size f ns ip c Hf) as Hc. unfold seg_image in Ew.
      destruct (_ || _) eqn:Eg in Ew; [done|]. unfold sizeof_proghdr in *. lia.
    + symmetry. apply i32_id. pose proof (file_size f ns ip c Hf) as Hc. unfold seg_image in Ew.
      destruct (_ || _) eqn:Eg in Ew; [done|]. unfold sizeof_proghdr in *. lia.
  - exists false, sz1, m1, f1. split; [done|]. split; [done|]. eexists _, _, _, _, _. split; [exact Hb1|]. intros sz'' img'' E.
    destruct (seg_image c off sz img) as [[sz2 img2]|] eqn:Ew; [|done]. cbn in E. eapply short_mono; [by eapply segs_image_mono|by eapply Hok].
Qed.
End loop.
End load.
