(* ===== verification/ExecStack.v ===== *)
(** * ExecStack: the user stack of a new program

    [exec] allocates a guard page and a stack page above the program, pushes the
    argument strings and the array of pointers to them.  The proof shows that
    [main(argc, argv)] finds exactly its arguments there, and that [exec] gives up
    only if they do not fit in the page. *)

From stdpp Require Import gmap.
From S2P Require Import Prelude KState Spinlock ProcList ProcAbs Proc ProcInv ProcFork Bytes.
From S2P Require Import SleepLock MemC Kalloc Vm VmRep VmMap VmUser VmCopy VmFree VmProps ProcVm Exec ExecLoad.

#[local] Opaque memset memmove st64 ld64 put_bytes.

(** The C string [str] is at [a]. *)
Definition cstr (m : mem) (a : Z) (str : list Z) : Prop :=
  (forall i b, str !! i = Some b -> m (a + Z.of_nat i) = b ∧ b ≠ 0) ∧ m (a + Z.of_nat (length str)) = 0.

Lemma cstr_ext m m' a a' str :
  (forall i, 0 <= i <= Z.of_nat (length str) -> m' (a' + i) = m (a + i)) -> cstr m a str -> cstr m' a' str.
Proof.
  intros He [H1 H2]. split; [|rewrite He by lia; done]. intros i b Hi. pose proof (lookup_lt_Some _ _ _ Hi). rewrite He by lia. by apply H1.
Qed.
Lemma cstr_strlen m a str : cstr m a str -> Z.of_nat (length str) < PGSIZE -> strlen (Z.to_nat PGSIZE) a m = Some (Z.of_nat (length str)).
Proof.
  intros [H1 H2] Hlen. unfold strlen. rewrite (strlen_loop_spec _ 0 a m (Z.of_nat (length str))); rewrite ?Z.add_0_r; [done| |done|lia|lia].
  intros i Hi. destruct (lookup_lt_is_Some_2 str (Z.to_nat i)) as [b Hb]; [lia|]. destruct (H1 _ _ Hb) as [E Hne]. rewrite Z2Nat.id in E by lia. by rewrite E.
Qed.

(** Where the strings go: each below the one before, 16-byte aligned; the array of
    pointers below the last. *)
Definition align16 (x : Z) : Z := x - x mod 16.
Definition args_sp (top : Z) (args : list (list Z)) : Z :=
  foldl (fun sp arg => align16 (sp - (Z.of_nat (length arg) + 1))) top args.
Definition vec_sp (top : Z) (args : list (list Z)) : Z :=
  align16 (args_sp top args - (Z.of_nat (length args) + 1) * 8).
(** All of it fits in the page below [top]. *)
Definition args_fit (top : Z) (args : list (list Z)) : Prop := top - PGSIZE <= vec_sp top args.

Lemma align16_le x : x - 15 <= align16 x <= x.
Proof. unfold align16. pose proof (Z.mod_pos_bound x 16). lia. Qed.
Lemma args_sp_le args : forall top, args_sp top args <= top.
Proof.
  induction args as [|arg args IH]; intros top; cbn; [lia|]. etransitivity; [apply IH|]. pose proof (align16_le (top - (Z.of_nat (length arg) + 1))). lia.
Qed.
Lemma args_sp_app top args1 args2 : args_sp top (args1 ++ args2) = args_sp (args_sp top args1) args2.
Proof. apply foldl_app. Qed.
Lemma args_fit_prefix top args1 args2 : args_fit top (args1 ++ args2) -> top - PGSIZE <= args_sp top args1.
Proof.
  unfold args_fit, vec_sp. rewrite args_sp_app. pose proof (args_sp_le args2 (args_sp top args1)).
  set (x := args_sp (args_sp top args1) args2 - _). pose proof (align16_le x). unfold x in *. lia.
Qed.

(** [main] finds [argv] at [sp]: pointers to the strings, then 0. *)
Definition argv_at (m : mem) (sp : Z) (args : list (list Z)) : Prop :=
  (forall k arg, args !! k = Some arg -> cstr m (ld64 m (sp + 8 * Z.of_nat k)) arg) ∧ ld64 m (sp + 8 * Z.of_nat (length args)) = 0.

Lemma ld_shift n m m' a a' : (forall i, 0 <= i < Z.of_nat n -> m' (a' + i) = m (a + i)) -> ld n m' a' = ld n m a.
Proof.
  revert a a'. induction n as [|n IH]; intros a a' He; cbn [ld]; [done|].
  pose proof (He 0 ltac:(lia)) as H0. rewrite !Z.add_0_r in H0. rewrite H0, (IH (a + 1) (a' + 1)); [done|].
  intros i Hi. specialize (He (1 + i) ltac:(lia)). by rewrite !Z.add_assoc in He.
Qed.

Section stack.
Context (kend : Z) (Hkend : 0 < kend) (tramp : Z).
Context (m0 : mem) (fs0 : list Z) (kst tf root : Z).
Context (Hal0 : Forall (fun p => p mod PGSIZE = 0) fs0) (Hkst : kst mod PGSIZE = 0) (Hkst0 : kst ∉ fs0).
Abbreviation partway := (ExecLoad.partway kend tramp m0 fs0 kst tf root).
Abbreviation building := (partway (-1)).

(** A store in the page of the kernel stack. *)
Lemma b_kernel g m fs tabs leaf ups sz img m' :
  partway g m fs tabs leaf ups sz img -> same_except [kst] (ram m) m' -> partway g (m <| ram := m' |>) fs tabs leaf ups sz img.
Proof using Hal0 Hkst Hkst0.
  intros Hb Hs. pose proof Hb as [B1 B2 B3 B4 B5 B6 B7 B8 B9].
  assert (Hno : forall p, p ∈ ups ++ fs ++ tab_pages tabs -> p ∉ [kst]).
  { intros p Hp ->%list_elem_of_singleton. by rewrite B2 in Hp. }
  split; try done.
  - eapply (uspace_same kend m); [exact Hs|done|done|by constructor| |exact B1]. intros p Hp. apply Hno, elem_of_app. by right.
  - eapply same_trans; [exact B3|]. eapply same_one; [|exact Hs]. left.
  - intros va Hva. rewrite <- B8 by done. destruct (ubyte_page ups va Hva) as (j & u & o & Hj & -> & Ho & _).
    rewrite !(ubyte_in _ _ j u) by done. assert (Hu : u ∈ ups) by (by eapply list_elem_of_lookup_2).
    apply (same_page [kst] _ _ u); [done| |by constructor| |unfold in_page; lia].
    + pose proof (us_pages _ _ _ _ _ _ _ B1) as Hp. rewrite Forall_forall in Hp. by apply Hp.
    + apply Hno, elem_of_app. by left.
Qed.

(** [uvmclear] of a user page makes it the guard page. *)
Lemma RWX_clear u : frame_ok u -> Z.land (mk_pte u RWXU) (Z.lnot PTE_U) = mk_pte u RWX.
Proof.
  intros Hu. rewrite !mk_pte_lor, Z.land_lor_distr_l. f_equal. rewrite <- Z.ldiff_land.
  pose proof (Z.lor_ldiff_and (PA2PTE u) PTE_U) as E. pose proof (PTE_low u 0 PTE_U Hu ltac:(done) ltac:(done)) as E0.
  rewrite Z.lor_0_r in E0. rewrite E0, Z.lor_0_r in E. exact E.
Qed.

Lemma b_uvmclear m fs tabs leaf ups sz img j :
  building m fs tabs leaf ups sz img -> (j < length ups)%nat ->
  exists m' leaf', uvmclear root (Z.of_nat j * PGSIZE) m = Ok tt m' ∧ partway (Z.of_nat j) m' fs tabs leaf' ups sz img.
Proof using Hkend Hal0 Hkst Hkst0.
  intros Hb Hj. pose proof Hb as [B1 B2 B3 B4 B5 B6 B7 B8 B9]. destruct (lookup_lt_is_Some_2 ups j Hj) as [u Hu].
  pose proof (us_pages _ _ _ _ _ _ _ B1) as Hpg. rewrite Forall_forall in Hpg.
  assert (Hfr : frame_ok u) by (eapply page_frame, Hpg; [exact Hkend|by eapply list_elem_of_lookup_2]).
  pose proof (us_size _ _ _ _ _ _ _ B1) as Hsz. pose proof user_top_le as Htop. assert (Hv : 0 <= Z.of_nat j < MAXVA / PGSIZE) by lia.
  pose proof (us_maps _ _ _ _ _ _ _ B1 j u Hu) as Hm.
  destruct (unmap_walk kend Hkend m fs root tabs leaf (Z.of_nat j) u (us_vm _ _ _ _ _ _ _ B1) Hv Hfr Hm) as (Hw & Hn0 & Hld).
  destruct (maps_table kend m fs root tabs leaf (Z.of_nat j) u (us_vm _ _ _ _ _ _ _ B1) Hv Hfr Hm) as [t Ht].
  assert (Elf : leaf (Z.of_nat j) = mk_pte u RWXU).
  { rewrite (B6 j u Hu). by assert ((Z.of_nat j =? -1) = false) as -> by lia. }
  destruct (set_leaf kend Hkend m fs root tabs leaf (Z.of_nat j * PGSIZE) t (mk_pte u RWX) (us_vm _ _ _ _ _ _ _ B1)) as (m' & Hst & Hv' & Hs);
    [by apply page_va|done|by apply mk_pte_u64|]. rewrite Z.div_mul in Hv' by done.
  exists m', (upd leaf (Z.of_nat j) (mk_pte u RWX)). split.
  { unfold uvmclear. rewrite (bind_Ok _ _ _ _ _ Hw), Hn0, (bind_Ok (load _) _ _ (leaf (Z.of_nat j)) m).
    - by rewrite Elf, RWX_clear.
    - unfold load, gets. by rewrite Hld. }
  assert (Hin : tab_pages tabs ⊆ fs0) by (intros x Hx; rewrite <- B2, !elem_of_app; tauto).
  assert (Hsp : uspace kend m' fs root tabs (upd leaf (Z.of_nat j) (mk_pte u RWX)) ups).
  { destruct B1 as [_ U2 U3 U4 U5 U6]. split; try done.
    - intros i w Hi. destruct (decide (i = j)) as [->|Hne].
      + simplify_eq. exists (Z.lor RWX PTE_V). split; [by split_and!|]. by rewrite upd_eq, mk_pte_lor.
      + destruct (U2 i w Hi) as (f & Hf & E). exists f. rewrite upd_ne by lia. done.
    - intros v Hv0. rewrite upd_ne by lia. by apply U3. }
  split; try done.
  - eapply same_trans; [exact B3|]. eapply same_mono; [|exact Hs]. set_solver.
  - intros i w Hi. destruct (Z.eqb_spec (Z.of_nat i) (Z.of_nat j)) as [E|Hne].
    + assert (i = j) as -> by lia. simplify_eq. by rewrite upd_eq.
    + rewrite upd_ne, (B6 i w Hi) by done. by assert ((Z.of_nat i =? -1) = false) as -> by lia.
  - intros v Hv0. rewrite upd_ne by lia. by apply B7.
  - intros va Hva. rewrite <- B8 by done. destruct (ubyte_page ups va Hva) as (i & w & o & Hi & -> & Ho & _).
    rewrite !(ubyte_in _ _ i w) by done. assert (Hw' : w ∈ ups) by (by eapply list_elem_of_lookup_2).
    apply (same_page (tab_pages tabs) _ _ w); [done|by apply Hpg|eapply forest_aligned, (vo_forest _ _ _ _ _ _ (us_vm _ _ _ _ _ _ _ B1))| |unfold in_page; lia].
    by destruct (us_apart kend _ _ _ _ _ _ w B1 Hw').
Qed.

(** [copyout] to a part of one user page. *)
Definition copied_to (img m : mem) (va src n : Z) : mem :=
  fun x => if (va <=? x) && (x <? va + n) then m (src + (x - va)) else img x.

Lemma b_copyout fuel g m fs tabs leaf ups sz img j u o q src n :
  partway g m fs tabs leaf ups sz img -> ups !! j = Some u -> Z.of_nat j ≠ g -> (2 <= fuel)%nat ->
  0 <= o -> 0 < n -> o + n <= PGSIZE -> q mod PGSIZE = 0 -> q ≠ u -> q <= src -> src + n <= q + PGSIZE ->
  exists m', Vm.copyout fuel root (Z.of_nat j * PGSIZE + o) src n m = Ok 0 m' ∧ same_except [u] (ram m) (ram m')
    ∧ partway g m' fs tabs leaf ups sz (copied_to img (ram m) (Z.of_nat j * PGSIZE + o) src n).
Proof using Hkend.
  intros Hb Hj Hg Hf Ho Hn Hon Hq Hqu Hqs Hqe. exists (m <| ram := memmove (u + o) src n (ram m) |>).
  assert (Hout : forall a, ~ (u + o <= a < u + o + n) -> memmove (u + o) src n (ram m) a = ram m a).
  { intros a Ha. apply memmove_out; [lia|]. intros i Hi ->. lia. }
  assert (Hsame : same_except [u] (ram m) (memmove (u + o) src n (ram m))).
  { intros a Ha. apply Hout. specialize (Ha u (list_elem_of_here _ _)). unfold in_page in Ha. lia. }
  split_and!; [|done|].
  - destruct fuel as [|[|k]]; [lia|lia|]. unfold Vm.copyout. cbn [copyout_loop]. assert ((0 <? n) = true) as -> by lia. cbn [negb].
    rewrite PGROUNDDOWN_eq. replace ((Z.of_nat j * PGSIZE + o) / PGSIZE) with (Z.of_nat j) by (unfold PGSIZE in *; Z.div_mod_to_equations; lia).
    destruct (b_walkaddr kend Hkend tramp m0 fs0 kst tf root g m fs tabs leaf ups sz img Hb j u Hj Hg) as [Hw Hu0].
    rewrite (bind_Ok _ _ _ _ _ Hw), Hu0. replace (Z.of_nat j * PGSIZE + o - Z.of_nat j * PGSIZE) with o by lia.
    assert ((if n <? PGSIZE - o then n else PGSIZE - o) = n) as -> by cases_cmp.
    rewrite (bind_Ok (modify _) _ m tt (m <| ram := memmove (u + o) src n (ram m) |>)) by done. by rewrite Z.sub_diag.
  - pose proof (b_bytes _ _ _ _ _ _ _ _ _ _ _ _ _ _ _ Hb) as Hby. pose proof (lookup_lt_Some _ _ _ Hj) as Hlt.
    eapply (b_update kend tramp m0 fs0 kst tf root g m fs tabs leaf ups sz img Hb j u); [done|done| |].
    + intros x Hx. unfold copied_to. destruct (decide (o <= x < o + n)) as [Hin|Hno].
      * replace (u + x) with (u + o + (x - o)) by lia. rewrite memmove_in by lia.
        assert (((Z.of_nat j * PGSIZE + o <=? Z.of_nat j * PGSIZE + x) && (Z.of_nat j * PGSIZE + x <? Z.of_nat j * PGSIZE + o + n)) = true) as -> by lia.
        f_equal. lia.
      * rewrite Hout by lia.
        assert (((Z.of_nat j * PGSIZE + o <=? Z.of_nat j * PGSIZE + x) && (Z.of_nat j * PGSIZE + x <? Z.of_nat j * PGSIZE + o + n)) = false) as -> by lia.
        rewrite <- Hby, (ubyte_in _ _ j u) by (done || unfold PGSIZE in *; lia). done.
    + intros va Hva. unfold copied_to.
      assert (((Z.of_nat j * PGSIZE + o <=? va) && (va <? Z.of_nat j * PGSIZE + o + n)) = false) as ->; [|done].
      apply not_true_iff_false. intros Hc. apply Hva. unfold PGSIZE in *. Z.div_mod_to_equations. lia.
Qed.

Section push.
Context {F : Type} (s : kstate (kmem * F)) (f : F) (kustack : Z).
Context (Hku : kst <= kustack ∧ kustack + 8 * MAXARG <= kst + PGSIZE).
Lemma set_ustack_at m i v : 0 <= i < MAXARG ->
  forall B (k : unit -> M (kstate (kmem * F)) B), (set_ustack kustack i v ≫= k) (at_ s m f)
    = k tt (at_ s (m <| ram ::= fun r => st64 r (kustack + 8 * i) v |>) f).
Proof.
  intros Hi B k. unfold set_ustack. assert ((0 <=? i) && (i <? MAXARG) = true) as -> by lia. by erewrite mcall_at by reflexivity.
Qed.
Lemma ustack_page i v m : 0 <= i < MAXARG -> same_except [kst] m (st64 m (kustack + 8 * i) v).
Proof using Hku. intros Hi. unfold MAXARG in *. apply same_st64; unfold in_page; lia. Qed.

Context (fuel : nat) (Hfuel : (2 <= fuel)%nat).
(** The stack page is the last one, [u]; the guard page is not it. *)
Context (g : Z) (fs : list Z) (tabs : tables) (leaf : Z -> Z) (ups : list Z) (sz : Z) (img : mem) (j : nat) (u : Z).
Context (Hj : ups !! j = Some u) (Hjg : Z.of_nat j ≠ g) (Hlast : length ups = S j) (Hj1 : (1 <= j)%nat).
Abbreviation top := (Z.of_nat (S j) * PGSIZE).
(** [argv] points to the strings [args], each in a page of its own. *)
Definition arg_at (a : Z) (arg : list Z) : Prop :=
  a ≠ 0 ∧ a mod PGSIZE = 0 ∧ a ∉ kst :: fs0 ∧ cstr m0 a arg ∧ Z.of_nat (length arg) < PGSIZE.
Context (ptrs rest : list Z) (args : list (list Z)) (Hargs : Forall2 arg_at ptrs args) (Hmax : Z.of_nat (length args) < MAXARG).

Record pushed (n : nat) (m : kmem) (img' : mem) : Prop := {
  pu_hold : partway g m fs tabs leaf ups sz img';
  pu_sp : top - PGSIZE <= args_sp top (take n args);
  pu_low : forall va, va < top - PGSIZE -> img' va = img va;
  pu_args : forall k arg, (k < n)%nat -> args !! k = Some arg ->
    let a := ld64 (ram m) (kustack + 8 * Z.of_nat k) in
    args_sp top (take n args) <= a ∧ a + Z.of_nat (length arg) < top ∧ cstr img' a arg
}.

(** One argument: the string at [a] goes to [sp], which is stored in [ustack]. *)
Lemma push_one n m img' a arg sp :
  pushed n m img' -> ptrs !! n = Some a -> args !! n = Some arg -> sp = align16 (args_sp top (take n args) - (Z.of_nat (length arg) + 1)) ->
  top - PGSIZE <= sp ->
  exists m1, Vm.copyout fuel root sp a (Z.of_nat (length arg) + 1) m = Ok 0 m1
    ∧ pushed (S n) (m1 <| ram ::= fun r => st64 r (kustack + 8 * Z.of_nat n) sp |>)
        (copied_to img' (ram m) sp a (Z.of_nat (length arg) + 1)).
Proof using Hkend Hal0 Hkst Hkst0 Hku Hfuel Hj Hjg Hargs Hmax Hlast Hj1.
  intros [P1 P2 P3 P4] Ha Harg Esp Hsp.
  destruct (Forall2_lookup_lr _ _ _ _ _ _ Hargs Ha Harg) as (Ha0 & Hal & Hnin & Hstr & Hlen).
  pose proof (lookup_lt_Some _ _ _ Harg) as Hn. set (sp0 := args_sp top (take n args)) in *.
  assert (Hsp0 : sp0 <= top) by apply args_sp_le. pose proof (align16_le (sp0 - (Z.of_nat (length arg) + 1))) as H16.
  assert (Hu : u ∈ fs0) by (apply (b_in kend tramp m0 fs0 kst tf root g m fs tabs leaf ups sz img' P1); by eapply list_elem_of_lookup_2).
  assert (Hua : u mod PGSIZE = 0) by (rewrite Forall_forall in Hal0; by apply Hal0).
  assert (Hsv : sp = Z.of_nat j * PGSIZE + (sp - Z.of_nat j * PGSIZE)) by lia.
  assert (Etop : top = Z.of_nat j * PGSIZE + PGSIZE) by (unfold PGSIZE; lia).
  destruct (b_copyout fuel g m fs tabs leaf ups sz img' j u (sp - Z.of_nat j * PGSIZE) a a (Z.of_nat (length arg) + 1) P1 Hj Hjg Hfuel)
    as (m1 & Hrun & Hs1 & Hb1); [lia..|done| |lia|lia|]. { intros ->. apply Hnin. by right. }
  rewrite <- Hsv in Hrun, Hb1. exists m1. split; [exact Hrun|].
  assert (Hstr' : cstr (copied_to img' (ram m) sp a (Z.of_nat (length arg) + 1)) sp arg).
  { eapply cstr_ext; [|exact Hstr]. intros i Hi. unfold copied_to.
    assert ((sp <=? sp + i) && (sp + i <? sp + (Z.of_nat (length arg) + 1)) = true) as -> by lia. replace (a + (sp + i - sp)) with (a + i) by lia.
    apply (same_page (kst :: fs0) _ _ a); [apply P1|done|by constructor|exact Hnin|unfold in_page; lia]. }
  assert (Hd : args_sp top (take (S n) args) = sp) by (rewrite (take_S_r _ _ _ Harg), args_sp_app, Esp; done).
  assert (Hld : ld64 (st64 (ram m1) (kustack + 8 * Z.of_nat n) sp) (kustack + 8 * Z.of_nat n) = sp).
  { rewrite ld64_st64. apply u64_id.
    pose proof (us_size _ _ _ _ _ _ _ (b_space _ _ _ _ _ _ _ _ _ _ _ _ _ _ _ P1)). assert (user_top * PGSIZE < 2 ^ 64) by done. unfold PGSIZE in *. lia. }
  split.
  - eapply b_kernel; [exact Hb1|]. apply ustack_page. lia.
  - by rewrite Hd.
  - intros va Hva. unfold copied_to. assert ((sp <=? va) = false) as -> by lia. by apply P3.
  - intros k arg' Hk Harg'. rewrite Hd. cbn [ram]. destruct (decide (k = n)) as [->|Hne].
    + simplify_eq. cbn. rewrite Hld. split_and!; [lia|lia|exact Hstr'].
    + cbn. rewrite ld64_other by lia. assert (E : ld64 (ram m1) (kustack + 8 * Z.of_nat k) = ld64 (ram m) (kustack + 8 * Z.of_nat k)).
      { unfold MAXARG in *. apply (ld64_page [u] _ _ kst); [done|done|by constructor| | |]; [|unfold in_page; lia..].
        by intros ->%list_elem_of_singleton. }
      rewrite E. destruct (P4 k arg' ltac:(lia) Harg') as (Q1 & Q2 & Q3). split_and!; [lia|done|]. eapply cstr_ext; [|exact Q3].
      intros i Hi. unfold copied_to. by assert ((sp <=? ld64 (ram m) (kustack + 8 * Z.of_nat k) + i) && (ld64 (ram m) (kustack + 8 * Z.of_nat k) + i <? sp + (Z.of_nat (length arg) + 1)) = false) as -> by lia.
Qed.

Lemma push_args_ok : forall k n m img', (length args < n + k)%nat -> (n <= length args)%nat -> pushed n m img' ->
  exists r m', push_args fuel kustack k root (top - PGSIZE) (ptrs ++ 0 :: rest) (Z.of_nat n) (args_sp top (take n args)) (at_ s m f) = Ok r (at_ s m' f)
    ∧ match r with
      | Some (argc, sp) => argc = Z.of_nat (length args) ∧ sp = args_sp top args ∧ exists img'', pushed (length args) m' img''
      | None => ~ args_fit top args ∧ exists img'', partway g m' fs tabs leaf ups sz img''
      end.
Proof using Hkend Hal0 Hkst Hkst0 Hku Hfuel Hj Hjg Hargs Hmax Hlast Hj1.
  induction k as [|k IH]; intros n m img' Hk Hn Hp; [lia|]. cbn [push_args]. rewrite Nat2Z.id. pose proof (Forall2_length _ _ _ Hargs) as Hl.
  destruct (decide (n = length args)) as [->|Hne].
  { rewrite lookup_app_r, Hl, Nat.sub_diag by lia. cbn [lookup list_lookup]. change (0 =? 0) with true. cbv iota.
    eexists (Some _), m. split; [done|]. split; [done|]. rewrite firstn_all. split; [done|]. by exists img'. }
  destruct (lookup_lt_is_Some_2 args n) as [arg Harg]; [lia|]. destruct (lookup_lt_is_Some_2 ptrs n) as [a Ha]; [lia|].
  rewrite (lookup_app_l_Some _ _ _ _ Ha). destruct (Forall2_lookup_lr _ _ _ _ _ _ Hargs Ha Harg) as (Ha0 & Hal & Hnin & Hstr & Hlen).
  assert ((a =? 0) = false) as -> by lia. assert ((MAXARG <=? Z.of_nat n) = false) as -> by lia.
  pose proof (pu_hold _ _ _ Hp) as Hb. assert (Hstr' : cstr (ram m) a arg).
  { eapply cstr_ext; [|exact Hstr]. intros i Hi. apply (same_page (kst :: fs0) _ _ a); [apply Hb|done|by constructor|exact Hnin|unfold in_page; lia]. }
  assert (Hsl : forall B (k : Z -> M (kstate (kmem * F)) B), (k_strlen a ≫= k) (at_ s m f) = k (Z.of_nat (length arg)) (at_ s m f)).
  { intros B k'. apply bind_Ok. unfold k_strlen. erewrite mcall_at by reflexivity. by rewrite cstr_strlen with (str := arg). }
  rewrite Hsl. set (sp0 := args_sp top (take n args)) in *. pose proof (pu_sp _ _ _ Hp) as Hsp0. fold sp0 in Hsp0.
  assert (Hsple : sp0 <= top) by apply args_sp_le. assert (Hu64 : u64 (sp0 - (Z.of_nat (length arg) + 1)) = sp0 - (Z.of_nat (length arg) + 1)).
  { apply u64_id. pose proof (us_size _ _ _ _ _ _ _ (b_space _ _ _ _ _ _ _ _ _ _ _ _ _ _ _ Hb)). assert (user_top * PGSIZE < 2 ^ 64) by done.
    unfold PGSIZE in *. lia. }
  rewrite Hu64. fold (align16 (sp0 - (Z.of_nat (length arg) + 1))). set (sp := align16 _).
  assert (Hd : args_sp top (take (S n) args) = sp) by (rewrite (take_S_r _ _ _ Harg), args_sp_app; done).
  destruct (Z.ltb_spec sp (top - PGSIZE)) as [Hlt|Hge].
  { exists None, m. split; [done|]. split; [|by exists img']. intros Hfit. rewrite <- (take_drop (S n) args) in Hfit.
    apply args_fit_prefix in Hfit. lia. }
  destruct (push_one n m img' a arg sp Hp Ha Harg eq_refl Hge) as (m1 & Hrun & Hp1). rewrite (mcall_at _ _ _ _ _ _ _ Hrun).
  change (0 <? 0) with false. cbv iota. rewrite set_ustack_at by lia. replace (Z.of_nat n + 1) with (Z.of_nat (S n)) by lia. rewrite <- Hd.
  rewrite <- Hd in Hp1. by eapply IH; [lia|lia|].
Qed.

(** The array of pointers. *)
Lemma push_vec m img' : pushed (length args) m img' -> args_fit top args ->
  exists m1 img1, Vm.copyout fuel root (vec_sp top args) kustack ((Z.of_nat (length args) + 1) * 8)
                    (m <| ram ::= fun r => st64 r (kustack + 8 * Z.of_nat (length args)) 0 |>) = Ok 0 m1
    ∧ partway g m1 fs tabs leaf ups sz img1 ∧ (forall va, va < top - PGSIZE -> img1 va = img va) ∧ argv_at img1 (vec_sp top args) args.
Proof using Hkend Hal0 Hkst Hkst0 Hku Hfuel Hj Hjg Hmax Hlast Hj1.
  intros [P1 P2 P3 P4] Hfit. unfold args_fit in Hfit. rewrite firstn_all in *. set (m' := m <| ram ::= _ |>).
  assert (Hb' : partway g m' fs tabs leaf ups sz img') by (eapply b_kernel; [exact P1|apply ustack_page; lia]).
  pose proof (args_sp_le args top) as Hle. set (vsp := vec_sp top args) in *. set (len := (Z.of_nat (length args) + 1) * 8) in *.
  assert (Hv : vsp + len <= args_sp top args) by (pose proof (align16_le (args_sp top args - len)); unfold vsp, vec_sp; fold len; lia).
  assert (Etop : top = Z.of_nat j * PGSIZE + PGSIZE) by (unfold PGSIZE; lia).
  assert (Hu : u ≠ kst).
  { intros ->. apply Hkst0. apply (b_in kend tramp m0 fs0 kst tf root g m fs tabs leaf ups sz img' P1). by eapply list_elem_of_lookup_2. }
  unfold MAXARG in *. destruct (b_copyout fuel g m' fs tabs leaf ups sz img' j u (vsp - Z.of_nat j * PGSIZE) kst kustack len Hb' Hj Hjg Hfuel)
    as (m1 & Hrun & _ & Hb1); [lia|lia|lia|done|done|lia|unfold len; lia|]. replace (Z.of_nat j * PGSIZE + (vsp - Z.of_nat j * PGSIZE)) with vsp in * by lia.
  eexists m1, _. split; [exact Hrun|]. split; [exact Hb1|]. split.
  { intros va Hva. unfold copied_to. assert ((vsp <=? va) = false) as -> by lia. by apply P3. }
  assert (Hld : forall k, (k <= length args)%nat -> ld64 (copied_to img' (ram m') vsp kustack len) (vsp + 8 * Z.of_nat k) = ld64 (ram m') (kustack + 8 * Z.of_nat k)).
  { intros k Hk. Transparent ld64. apply ld_shift. Opaque ld64. intros i Hi. unfold copied_to.
    assert ((vsp <=? vsp + 8 * Z.of_nat k + i) && (vsp + 8 * Z.of_nat k + i <? vsp + len) = true) as -> by (unfold len; lia). f_equal. lia. }
  assert (Hz : ld64 (ram m') (kustack + 8 * Z.of_nat (length args)) = 0) by (unfold m'; cbn; by rewrite ld64_st64).
  split; [|by rewrite Hld]. intros k arg Hk. pose proof (lookup_lt_Some _ _ _ Hk). rewrite Hld by lia.
  destruct (P4 k arg ltac:(lia) Hk) as (Q1 & Q2 & Q3). assert (E : ld64 (ram m') (kustack + 8 * Z.of_nat k) = ld64 (ram m) (kustack + 8 * Z.of_nat k)).
  { unfold m'. cbn. apply ld64_other. lia. }
  rewrite E. eapply cstr_ext; [|exact Q3]. intros i Hi. unfold copied_to.
  by assert ((vsp <=? ld64 (ram m) (kustack + 8 * Z.of_nat k) + i) && (ld64 (ram m) (kustack + 8 * Z.of_nat k) + i <? vsp + len) = false) as -> by lia.
Qed.
End push.
End stack.
