(* ===== verification/ExecProps.v ===== *)
(** * ExecProps: what exec does

    [exec] either turns the process into the program in the file, with its arguments
    on the stack, or fails and leaves the process as it was; in both cases every page
    of memory is accounted for. *)

From stdpp Require Import gmap.
From S2P Require Import Prelude KState Spinlock ProcList ProcAbs Proc ProcInv ProcFork Bytes.
From S2P Require Import SleepLock MemC Kalloc Vm VmRep VmMap VmUser VmCopy VmFree VmProps ProcVm Exec ExecLoad ExecStack.

#[local] Opaque memset memmove st64 ld64 put_bytes.

(** There is less physical memory than user address space. *)
Lemma pages_bound kend ps : 0 < kend -> NoDup ps -> Forall (page_ok kend) ps -> Z.of_nat (length ps) <= user_top.
Proof.
  intros Hk Hnd Hpg. assert (Hsub : ((fun p => p / PGSIZE) <$> ps) ⊆+ seqZ 0 (PHYSTOP / PGSIZE)).
  { apply NoDup_submseteq.
    - apply NoDup_fmap_2_strong; [|done]. intros x y Hx Hy E. rewrite Forall_forall in Hpg.
      destruct (Hpg x Hx) as [? _], (Hpg y Hy) as [? _]. unfold PGSIZE in *. Z.div_mod_to_equations. lia.
    - intros v (p & -> & Hp)%list_elem_of_fmap. rewrite Forall_forall in Hpg. destruct (Hpg p Hp) as [Hal [H1 H2]].
      apply elem_of_seqZ. assert (PHYSTOP mod PGSIZE = 0) by done. unfold PGSIZE in *. Z.div_mod_to_equations. lia. }
  apply submseteq_length in Hsub. rewrite length_fmap, length_seqZ in Hsub.
  assert (PHYSTOP / PGSIZE <= user_top) by (by vm_compute). assert (0 <= PHYSTOP / PGSIZE) by done. lia.
Qed.

Section exec.
Context {F : Type} `{!Files F, !FilesSpec F} (kend : Z) (Hkend : 0 < kend) (fuel : nat) (blncflg : bool) (tramp forkret_at kobj : Z).
Context (fs_filedup fs_idup : Z -> callee F Z) (fs_namei : list Z -> callee F Z)
  (fs_fileclose fs_iput : Z -> waker F unit) (fs_begin_op fs_end_op : waker F unit) (kustack : Z).
#[local] Instance props_env : KEnv (kmem * F) :=
  vm_env kend fuel blncflg tramp forkret_at kobj fs_filedup fs_idup fs_namei fs_fileclose fs_iput fs_begin_op fs_end_op.
Abbreviation exec := (Exec.exec kend fuel blncflg tramp forkret_at kobj fs_filedup fs_idup fs_namei fs_fileclose fs_iput fs_begin_op fs_end_op kustack).
Abbreviation exec_bad := (Exec.exec_bad kend fuel blncflg tramp forkret_at kobj fs_filedup fs_idup fs_namei fs_fileclose fs_iput fs_begin_op fs_end_op).

(** The address space of the process [q]: user pages up to its size, and above them
    nothing but the trampoline and the trapframe. *)
Record owns (m : kmem) (fs : list Z) (q : proc) (tabs : tables) (leaf : Z -> Z) (ups : list Z) : Prop := {
  ow_space : uspace kend m fs (pagetable q) tabs leaf ups;
  ow_sz : 0 <= sz q <= TRAPFRAME;
  ow_len : length ups = npages (sz q);
  ow_top : forall v, user_top <= v -> leaf v = proc_leaf tramp (trapframe q) v
}.

Lemma proc_leaf_maps tf leaf : (forall v, user_top <= v -> leaf v = proc_leaf tramp tf v) ->
  maps leaf (TRAMPOLINE / PGSIZE) tramp ∧ maps leaf (TRAPFRAME / PGSIZE) tf
  ∧ forall v, user_top <= v < 512 * 512 * 512 -> v ≠ TRAMPOLINE / PGSIZE -> v ≠ TRAPFRAME / PGSIZE -> leaf v = 0.
Proof.
  intros Htop. unfold proc_leaf in Htop. split_and!.
  - exists (Z.lor (Z.lor PTE_R PTE_X) PTE_V). split; [by split_and!|]. rewrite Htop by done. by rewrite upd_ne, upd_eq, mk_pte_lor.
  - exists (Z.lor (Z.lor PTE_R PTE_W) PTE_V). split; [by split_and!|]. rewrite Htop by done. by rewrite upd_eq, mk_pte_lor.
  - intros v Hv H1 H2. rewrite Htop, !upd_ne by (done || lia). done.
Qed.

(** [proc_freepagetable] of a whole address space. *)
Lemma free_space (s : kstate (kmem * F)) f m fs root tabs leaf ups n tf :
  uspace kend m fs root tabs leaf ups -> 0 <= n <= TRAPFRAME -> length ups = npages n ->
  (forall v, user_top <= v -> leaf v = proc_leaf tramp tf v) -> frame_ok tramp -> frame_ok tf -> (length ups < fuel)%nat -> (3 <= fuel)%nat ->
  exists m' fs', proc_freepagetable root n (at_ s m f) = Ok tt (at_ s m' f) ∧ kmem_ok kend m' fs'
    ∧ fs' ≡ₚ ups ++ fs ++ tab_pages tabs ∧ same_except (ups ++ tab_pages tabs) (ram m) (ram m').
Proof using Hkend.
  intros Hu Hn Hlen Htop Htr Htf Hf H3. destruct (proc_leaf_maps tf leaf Htop) as (M1 & M2 & M3).
  destruct (proc_freepagetable_spec kend fuel blncflg tramp forkret_at kobj fs_filedup fs_idup fs_namei fs_fileclose fs_iput fs_begin_op fs_end_op
    Hkend root n (at_ s m f) fs tabs leaf ups tramp tf Hu Hn Hlen Htr M1 Htf M2 M3 Hf H3) as (m' & fs' & Hrun & Hk & Hp & Hs).
  exists m', fs'. split; [exact Hrun|done].
Qed.

(** ** The process table entry of the process *)
Definition setp (s : kstate (kmem * F)) (p : Z) (P : proc) : kstate (kmem * F) :=
  s <| kcore ::= fun c => c <| procs ::= fun ps => upd ps p P |> |>.
Lemma setp_id s p : setp s p (procs (kcore s) p) = s.
Proof. destruct s as [[] ?]. unfold setp, setter. cbn. by rewrite upd_same. Qed.
Lemma get_proc_at s p P m f {B} (k : proc -> M (kstate (kmem * F)) B) : proc_index_ok p = true ->
  (get_proc p ≫= k) (at_ (setp s p P) m f) = k P (at_ (setp s p P) m f).
Proof. intros Hp. apply bind_Ok. unfold get_proc. rewrite Hp. unfold gets, at_, setp, setter. cbn. by rewrite upd_eq. Qed.
Lemma set_proc_at s p P g m f {B} (k : unit -> M (kstate (kmem * F)) B) : proc_index_ok p = true ->
  (set_proc p g ≫= k) (at_ (setp s p P) m f) = k tt (at_ (setp s p (g P)) m f).
Proof.
  intros Hp. apply bind_Ok. unfold set_proc. rewrite Hp. unfold mod_core, modify, at_, setp, setter. cbn. by rewrite upd_eq, upd_upd.
Qed.

Section run.
Context (s : kstate (kmem * F)) (p : Z) (Hp : proc_index_ok p = true).
Abbreviation q := (procs (kcore s) p).
Abbreviation tf := (trapframe q).
(** At the start: the memory, its free pages, and the address space of the process. *)
Context (m : kmem) (fs0 : list Z) (tabs : tables) (leaf : Z -> Z) (ups : list Z) (Hown : owns m fs0 q tabs leaf ups).
(** The pages of the kernel: the trampoline, the trapframe, the kernel stack. *)
Context (kst : Z) (Htr : frame_ok tramp) (Htf : frame_ok tf) (Hkst : kst mod PGSIZE = 0).
Context (Htf0 : tf ∉ kst :: ups ++ fs0 ++ tab_pages tabs) (Hkst0 : kst ∉ ups ++ fs0 ++ tab_pages tabs).
Context (Hfuel : (length ups + length fs0 < fuel)%nat) (Hfuel3 : (3 <= fuel)%nat).
Context (ns : list Z -> option (list Z)).

Lemma fs0_aligned : Forall (fun x => x mod PGSIZE = 0) fs0.
Proof using Hown. eapply pages_aligned, (ko_pages _ _ _ (vo_kmem _ _ _ _ _ _ (us_vm _ _ _ _ _ _ _ (ow_space _ _ _ _ _ _ Hown)))). Qed.
Lemma fs0_apart x : x ∈ ups ++ tab_pages tabs -> x ∉ fs0.
Proof using Hown.
  pose proof (us_nodup _ _ _ _ _ _ _ (ow_space _ _ _ _ _ _ Hown)) as (_ & N2 & (_ & N3 & _)%NoDup_app)%NoDup_app.
  intros [Hx|Hx]%elem_of_app Hf; [apply (N2 x Hx), elem_of_app; by left|by apply (N3 x Hf)].
Qed.

(** As long as only free pages and those of the kernel change, the process keeps its
    address space. *)
Lemma old_space m' fs' : kmem_ok kend m' fs' -> fs' ⊆ fs0 -> same_except (kst :: tf :: fs0) (ram m) (ram m') ->
  uspace kend m' fs' (pagetable q) tabs leaf ups.
Proof using Hown Htf Htf0 Hkst Hkst0.
  intros Hk Hsub Hs. eapply (uspace_other kend m fs0); [apply Hown|exact Hk|exact Hs| | | |].
  - constructor; [done|]. constructor; [apply Htf|apply fs0_aligned].
  - intros x Hx. pose proof (fs0_apart x ltac:(apply elem_of_app; by right)). rewrite !elem_of_cons. intros [->|[->|?]]; [| |done].
    + apply Hkst0. rewrite !elem_of_app. auto.
    + apply Htf0. rewrite elem_of_cons, !elem_of_app. auto.
  - intros x Hx. rewrite !elem_of_cons. right; right. by apply Hsub.
  - intros x Hx Hin%Hsub. by apply (fs0_apart x).
Qed.

(** [exec] failed: the process has what it had, its memory is untouched, and all
    pages are free again. *)
Definition failed (m' : kmem) (f' : F) : Prop :=
  f_idle f' ns ∧ (exists fs', owns m' fs' q tabs leaf ups ∧ fs' ≡ₚ fs0) ∧ same_except (kst :: fs0) (ram m) (ram m').

Lemma failed_free m' f' fs' : f_idle f' ns -> kmem_ok kend m' fs' -> fs' ≡ₚ fs0 -> same_except (kst :: fs0) (ram m) (ram m') -> failed m' f'.
Proof using Hown Htf Htf0 Hkst Hkst0.
  intros Hf Hk Hpm Hs. split; [done|]. split; [|done]. exists fs'. split; [|done]. destruct Hown as [_ O2 O3 O4]. split; try done.
  apply old_space; [done|intros x; by rewrite Hpm|]. eapply same_mono; [|exact Hs]. intros x. rewrite !elem_of_cons. intros [?|?]; auto.
Qed.

Abbreviation partway root := (ExecLoad.partway kend tramp (ram m) fs0 kst tf root).

(** The file is locked, or the operation is over. *)
Definition file_state (ip : option Z) (f1 : F) : Prop :=
  match ip with Some ip => exists c, f_locked f1 ns ip c | None => f_idle f1 ns end.
Lemma close_file ip f1 m1 : file_state ip f1 -> exists f', f_idle f' ns
  ∧ (match ip with Some ip => fcall (f_iunlockput ip);; fcall f_end_op | None => mret tt end;; mret (-1)) (at_ s m1 f1) = Ok (-1) (at_ s m1 f').
Proof.
  destruct ip as [ip|]; cbn [file_state]; [|by exists f1]. intros [c Hc].
  destruct (iunlockput_ok _ _ _ _ Hc) as (f2 & H2 & Ho). destruct (end_op_ok _ _ Ho) as (f3 & H3 & Hi). exists f3. split; [done|].
  apply bind_Ok with (s' := at_ s m1 f3) (v := tt). rewrite (fcall_at _ _ _ _ _ _ _ H2).
  transitivity ((fcall f_end_op ≫= mret) (at_ s m1 f2)); [unfold mbind, M_bind; by destruct (fcall _ _)|]. by rewrite (fcall_at _ _ _ _ _ _ _ H3).
Qed.

(** [goto bad] before there is a page table, and after. *)
Lemma bad_early m1 f1 fs1 ip : file_state ip f1 -> kmem_ok kend m1 fs1 -> fs1 ≡ₚ fs0 -> same_except (kst :: fs0) (ram m) (ram m1) ->
  exists m' f', exec_bad 0 0 ip (at_ s m1 f1) = Ok (-1) (at_ s m' f') ∧ failed m' f'.
Proof using Hown Htf Htf0 Hkst Hkst0.
  intros Hf Hk Hpm Hs. destruct (close_file ip f1 m1 Hf) as (f' & Hi & Hrun). exists m1, f'. split; [|by eapply failed_free].
  unfold Exec.exec_bad. change (0 =? 0) with true. cbn [negb when]. exact Hrun.
Qed.
Lemma bad_late g root m1 f1 fs1 tabs1 leaf1 ups1 n img ip : file_state ip f1 -> partway root g m1 fs1 tabs1 leaf1 ups1 n img ->
  exists m' f', exec_bad root n ip (at_ s m1 f1) = Ok (-1) (at_ s m' f') ∧ failed m' f'.
Proof using Hkend Hown Htf Htf0 Hkst Hkst0 Htr Hfuel Hfuel3.
  intros Hf [B1 B2 B3 B4 B5 B6 B7 B8 B9]. unfold Exec.exec_bad.
  assert (Hr : (root =? 0) = false).
  { pose proof (us_vm _ _ _ _ _ _ _ B1) as Hv. pose proof (vm_page kend _ _ _ _ _ _ _ Hv (vo_root _ _ _ _ _ _ Hv)) as Hpg.
    destruct (page_word kend Hkend root Hpg). lia. }
  rewrite Hr. cbn [negb when]. pose proof (Permutation_length B2) as Hl. rewrite !length_app in Hl.
  destruct (free_space s f1 m1 fs1 root tabs1 leaf1 ups1 n tf) as (m2 & fs2 & Hrun & Hk2 & Hp2 & Hs2); [done..|lia|lia|].
  rewrite (bind_Ok _ _ _ _ _ Hrun). destruct (close_file ip f1 m2 Hf) as (f' & Hi & Hclose). exists m2, f'. split; [exact Hclose|].
  eapply failed_free; [done|exact Hk2|by rewrite Hp2|]. eapply same_trans; [exact B3|]. eapply same_mono; [|exact Hs2].
  intros x Hx. right. rewrite <- B2. rewrite !elem_of_app in *. destruct Hx; auto.
Qed.

(** ** The commit *)
Definition new_proc (path : list Z) (root n : Z) : proc :=
  q <| name ::= fun nm => safestrcpy nm (last_elem path path ++ [0]) 16 |> <| pagetable := root |> <| sz := n |>.
(** The registers of the process when it returns to user mode. *)
Definition regs_set (m' : kmem) (pc sp : Z) : Prop :=
  ld64 (ram m') (tf + tf_offset tf_epc) = pc ∧ ld64 (ram m') (tf + tf_offset tf_sp) = sp ∧ ld64 (ram m') (tf + tf_a 1) = sp.
Definition tf_stored (m1 : mem) (pc sp : Z) : mem :=
  st64 (st64 (st64 m1 (tf + tf_a 1) sp) (tf + tf_offset tf_epc) pc) (tf + tf_offset tf_sp) sp.

Lemma tf_same m1 pc sp : same_except [tf] m1 (tf_stored m1 pc sp).
Proof.
  unfold tf_stored, tf_a. cbn [tf_offset]. eapply same_trans; [eapply same_trans|]; apply same_st64; unfold in_page, PGSIZE; lia.
Qed.
Lemma tf_regs m1 pc sp : 0 <= pc < 2 ^ 64 -> 0 <= sp < 2 ^ 64 ->
  ld64 (tf_stored m1 pc sp) (tf + tf_offset tf_epc) = pc ∧ ld64 (tf_stored m1 pc sp) (tf + tf_offset tf_sp) = sp
  ∧ ld64 (tf_stored m1 pc sp) (tf + tf_a 1) = sp.
Proof.
  intros Hpc Hsp. unfold tf_stored, tf_a. cbn [tf_offset]. split_and!.
  - rewrite ld64_other, ld64_st64 by lia. by apply u64_id.
  - rewrite ld64_st64. by apply u64_id.
  - rewrite !ld64_other, ld64_st64 by lia. by apply u64_id.
Qed.

(** The new address space after the store to the trapframe, and after the old pages
    are free. *)
Lemma new_space g root m1 fsN tabsN leafN upsN n img m2 m3 fs3 :
  partway root g m1 fsN tabsN leafN upsN n img -> same_except [tf] (ram m1) (ram m2) ->
  same_except (ups ++ tab_pages tabs) (ram m2) (ram m3) -> kmem_ok kend m3 fs3 -> fs3 ≡ₚ ups ++ fsN ++ tab_pages tabs ->
  km_lock m2 = km_lock m1 -> freelist m2 = freelist m1 ->
  uspace kend m3 fs3 root tabsN leafN upsN ∧ ubyte (ram m3) upsN = img.
Proof using Hown Htf Htf0 Hkst0 Hfuel Hfuel3.
  intros Hb S1 S2 Hk3 Hp3 E1 E2. pose proof Hb as [B1 B2 B3 B4 B5 B6 B7 B8 B9].
  assert (Hnew : forall x, x ∈ upsN ++ fsN ++ tab_pages tabsN -> x ∈ fs0) by (intros x; by rewrite B2).
  assert (Htfn : tf ∉ fs0) by (intros Hin; apply Htf0; rewrite elem_of_cons, !elem_of_app; auto).
  assert (Hold : forall x, x ∈ fs0 -> x ∉ ups ++ tab_pages tabs) by (intros x Hx Ho; by apply (fs0_apart x)).
  assert (Htabs : Forall (fun x => x mod PGSIZE = 0) (ups ++ tab_pages tabs)).
  { pose proof (ow_space _ _ _ _ _ _ Hown) as Ho. apply Forall_app. split; [eapply pages_aligned, Ho|].
    eapply forest_aligned, (vo_forest _ _ _ _ _ _ (us_vm _ _ _ _ _ _ _ Ho)). }
  assert (Hu2 : uspace kend m2 fsN root tabsN leafN upsN).
  { eapply (uspace_same kend m1); [exact S1|done|done|constructor; [apply Htf|done]| |exact B1].
    intros x Hx ->%list_elem_of_singleton. apply Htfn, Hnew, elem_of_app. by right. }
  split.
  - pose proof (us_nodup _ _ _ _ _ _ _ B1) as (N1 & N2 & (N3 & N4 & _)%NoDup_app)%NoDup_app.
    eapply (uspace_other kend m2 fsN); [exact Hu2|exact Hk3| | | |intros x; by rewrite Hp3|].
    + eapply same_mono; [|exact S2]. intros x. rewrite !elem_of_app. intros [?|?]; auto.
    + rewrite !Forall_app in *. destruct Htabs as [T1 T2]. split_and!; [done| |done].
      eapply pages_aligned, (ko_pages _ _ _ (vo_kmem _ _ _ _ _ _ (us_vm _ _ _ _ _ _ _ B1))).
    + intros x Hx. pose proof (Hnew x ltac:(rewrite !elem_of_app; auto)) as Hx0. pose proof (Hold x Hx0) as Ho.
      rewrite !elem_of_app in *. intros [?|[Hf|?]]; [by apply Ho; left|by apply (N4 x Hf)|by apply Ho; right].
    + intros x Hx. rewrite Hp3. assert (Hx0 : x ∈ fs0) by (apply Hnew; rewrite !elem_of_app in *; destruct Hx; auto). pose proof (Hold x Hx0) as Ho.
      rewrite !elem_of_app in *. intros [?|[Hf|?]]; [by apply Ho; left| |by apply Ho; right].
      destruct Hx as [Hx|Hx]; [apply (N2 x Hx), elem_of_app; by left|by apply (N4 x Hf)].
  - rewrite <- (b_image _ _ _ _ _ _ _ _ _ _ _ _ _ _ _ Hb). apply ubyte_ext. intros va Hva. destruct (ubyte_page upsN va Hva) as (j & u & o & Hj & -> & Ho & _).
    rewrite !(ubyte_in _ _ j u) by done. assert (Hu : u ∈ upsN) by (by eapply list_elem_of_lookup_2).
    assert (Hu0 : u ∈ fs0) by (apply Hnew, elem_of_app; by left).
    assert (Hua : u mod PGSIZE = 0) by (pose proof fs0_aligned as Ha; rewrite Forall_forall in Ha; by apply Ha).
    transitivity (ram m2 (u + o)).
    + apply (same_page (ups ++ tab_pages tabs) _ _ u); [done|done|done|by apply Hold|unfold in_page; lia].
    + apply (same_page [tf] _ _ u); [done|done|constructor; [apply Htf|done]| |unfold in_page; lia].
      by intros ->%list_elem_of_singleton.
Qed.

Abbreviation exec_commit := (Exec.exec_commit kend fuel blncflg tramp forkret_at kobj fs_filedup fs_idup fs_namei fs_fileclose fs_iput fs_begin_op fs_end_op).
Lemma commit_ok g root m1 f1 fsN tabsN leafN upsN n img path argc sp elf :
  partway root g m1 fsN tabsN leafN upsN n img -> 0 <= entry elf < 2 ^ 64 -> 0 <= sp < 2 ^ 64 ->
  exists m' fs', exec_commit p path root n argc sp elf (sz q) (at_ s m1 f1) = Ok argc (at_ (setp s p (new_proc path root n)) m' f1)
    ∧ owns m' fs' (new_proc path root n) tabsN leafN upsN
    ∧ fs' ++ upsN ++ tab_pages tabsN ≡ₚ fs0 ++ ups ++ tab_pages tabs
    ∧ ubyte (ram m') upsN = img ∧ regs_set m' (entry elf) sp.
Proof using Hkend Hp Hown Htf Htf0 Hkst Hkst0 Htr Hfuel Hfuel3.
  intros Hb Hpc Hsp. pose proof Hb as [B1 B2 B3 B4 B5 B6 B7 B8 B9].
  set (m2 := m1 <| ram := tf_stored (ram m1) (entry elf) sp |>). pose proof (tf_same (ram m1) (entry elf) sp) as S1.
  assert (Hsub : fsN ⊆ fs0) by (intros x Hx; rewrite <- B2, !elem_of_app; auto).
  assert (Hk2 : kmem_ok kend m2 fsN).
  { eapply (kmem_same kend m1); [exact S1|done|done|constructor; [apply Htf|done]| |apply B1].
    intros x Hx%Hsub ->%list_elem_of_singleton. apply Htf0. rewrite elem_of_cons, !elem_of_app. auto. }
  assert (Ho2 : uspace kend m2 fsN (pagetable q) tabs leaf ups).
  { apply old_space; [done|done|]. eapply same_trans; [|eapply same_one; [|exact S1]; right; left]. eapply same_mono; [|exact B3].
    intros x. rewrite !elem_of_cons. intros [?|?]; auto. }
  destruct Hown as [O1 O2 O3 O4].
  destruct (free_space (setp s p (new_proc path root n)) f1 m2 fsN (pagetable q) tabs leaf ups (sz q) tf Ho2) as (m3 & fs3 & Hrun & Hk3 & Hp3 & S2);
    [done|done|done|done|done|lia|lia|].
  destruct (new_space g root m1 fsN tabsN leafN upsN n img m2 m3 fs3 Hb S1 S2 Hk3 Hp3 eq_refl eq_refl) as [Hu3 Hby].
  exists m3, fs3. split; [|split; [by split|split; [|split; [done|]]]].
  - unfold Exec.exec_commit. rewrite <- (setp_id s p) at 1. rewrite get_proc_at by done. erewrite mcall_at by reflexivity.
    rewrite set_proc_at by done. rewrite get_proc_at by done. rewrite set_proc_at by done. rewrite set_proc_at by done.
    erewrite mcall_at by reflexivity. erewrite mcall_at by reflexivity. exact (bind_Ok _ _ _ _ _ Hrun).
  - rewrite Hp3, <- B2. solve_Permutation.
  - destruct (tf_regs (ram m1) (entry elf) sp Hpc Hsp) as (R1 & R2 & R3).
    assert (Hpg : forall o, 0 <= o -> o + 7 < PGSIZE -> ld64 (ram m3) (tf + o) = ld64 (ram m2) (tf + o)).
    { intros o Ho Ho7. apply (ld64_page (ups ++ tab_pages tabs) _ _ tf); [done|apply Htf| | |unfold in_page; lia|unfold in_page; lia].
      - apply Forall_app. split; [eapply pages_aligned, O1|eapply forest_aligned, (vo_forest _ _ _ _ _ _ (us_vm _ _ _ _ _ _ _ O1))].
      - intros [?|?]%elem_of_app; apply Htf0; rewrite elem_of_cons, !elem_of_app; auto. }
    unfold regs_set. rewrite !Hpg by (done || unfold tf_a, PGSIZE; lia). done.
Qed.

(** ** The stack *)
(** The end of the program's memory: above its pages, the guard and the stack page. *)
Definition stack_top (n : Z) : Z := (pages_for n + 2) * PGSIZE.
Context (Hku : kst <= kustack ∧ kustack + 8 * MAXARG <= kst + PGSIZE).
Context (ptrs rest : list Z) (args : list (list Z)) (Hargs : Forall2 (arg_at (ram m) fs0 kst) ptrs args)
  (Hmax : Z.of_nat (length args) < MAXARG).

(** The process runs the program with the image [img] of size [n], from the
    start, with the arguments [args]; no page is lost. *)
Definition runs (m' : kmem) (P : proc) (path : list Z) (elf : elfhdr) (n : Z) (img : mem) : Prop :=
  exists root fs' tabs' leaf' ups', P = new_proc path root (stack_top n) ∧ owns m' fs' P tabs' leaf' ups'
  ∧ fs' ++ ups' ++ tab_pages tabs' ≡ₚ fs0 ++ ups ++ tab_pages tabs
  ∧ (forall va, va < stack_top n - PGSIZE -> ubyte (ram m') ups' va = img va)
  ∧ (forall va, 0 <= va < stack_top n -> uaccess leaf' va = None <-> va / PGSIZE = pages_for n)
  ∧ argv_at (ubyte (ram m') ups') (vec_sp (stack_top n) args) args
  ∧ regs_set m' (entry elf) (vec_sp (stack_top n) args).

Lemma b_round root m1 fs1 tabs1 leaf1 ups1 n img : partway root (-1) m1 fs1 tabs1 leaf1 ups1 n img ->
  PGROUNDUP n = pages_for n * PGSIZE ∧ Z.of_nat (length ups1) = pages_for n ∧ 0 <= pages_for n * PGSIZE <= TRAPFRAME
  ∧ partway root (-1) m1 fs1 tabs1 leaf1 ups1 (pages_for n * PGSIZE) img.
Proof.
  intros [B1 B2 B3 B4 B5 B6 B7 B8 B9]. assert (HT : TRAPFRAME <= MAXVA) by done. pose proof (us_size _ _ _ _ _ _ _ B1) as Hsz.
  assert (Hpf : 0 <= pages_for n) by (unfold pages_for; apply Z.div_pos; [unfold PGSIZE; lia|done]).
  assert (Hl : Z.of_nat (length ups1) = pages_for n) by (rewrite B5, <- pages_for_npages by lia; lia).
  assert (Hle : 0 <= pages_for n * PGSIZE <= TRAPFRAME) by (change TRAPFRAME with (user_top * PGSIZE); unfold PGSIZE; lia).
  split_and!; [|done|lia|lia|]; [by rewrite PGROUNDUP_npages, <- pages_for_npages, Z2Nat.id by lia|].
  split; try done. rewrite npages_page by lia. lia.
Qed.

(** The guard page is the only one the program cannot reach. *)
Lemma guard_access g root m1 fs1 tabs1 leaf1 ups1 n img va : partway root g m1 fs1 tabs1 leaf1 ups1 n img ->
  0 <= va < Z.of_nat (length ups1) * PGSIZE -> uaccess leaf1 va = None <-> va / PGSIZE = g.
Proof using All.
  intros Hb Hva. destruct (ubyte_page ups1 va Hva) as (j & u & o & Hj & _ & _ & Ed). unfold uaccess.
  pose proof (us_size _ _ _ _ _ _ _ (b_space _ _ _ _ _ _ _ _ _ _ _ _ _ _ _ Hb)) as Hsz.
  assert (Hr : (0 <=? va) && (va <? MAXVA) = true).
  { pose proof user_top_le. assert (MAXVA mod PGSIZE = 0) by done. unfold PGSIZE in *. Z.div_mod_to_equations. lia. }
  rewrite Hr, Ed, (b_leaf _ _ _ _ _ _ _ _ _ _ _ _ _ _ _ Hb j u Hj). cbn [andb].
  pose proof (us_pages _ _ _ _ _ _ _ (b_space _ _ _ _ _ _ _ _ _ _ _ _ _ _ _ Hb)) as Hpg. rewrite Forall_forall in Hpg.
  pose proof (page_frame kend u Hkend (Hpg u ltac:(by eapply list_elem_of_lookup_2))) as Hfr.
  destruct (Z.eqb_spec (Z.of_nat j) g) as [->|Hne].
  - split; [done|]. intros _. rewrite mk_pte_lor. unfold has. rewrite !PTE_low by done. done.
  - destruct (mk_pte_user u Hfr) as (-> & -> & _). split; [done|lia].
Qed.

Abbreviation exec_stack := (Exec.exec_stack kend fuel blncflg tramp forkret_at kobj fs_filedup fs_idup fs_namei fs_fileclose fs_iput fs_begin_op fs_end_op kustack).
(** What [exec] ends with, after a program image of size [n] is there. *)
Definition exec_post (path : list Z) (elf : elfhdr) (n : Z) (img : mem) (r : Z) (s' : kstate (kmem * F)) : Prop :=
  r = -1 ∧ (exists m' f', s' = at_ s m' f' ∧ failed m' f')
    ∧ (~ args_fit (stack_top n) args ∨ Z.of_nat (length fs0) < 5 + 3 * (pages_for n + 2))
  ∨ r = Z.of_nat (length args) ∧ args_fit (stack_top n) args
    ∧ exists m' f' P, s' = at_ (setp s p P) m' f' ∧ f_idle f' ns ∧ runs m' P path elf n img.

(** From the stack page on: [j] is its number, [g] that of the guard page. *)
Lemma stack_ok root m1 f1 fs1 tabs1 leaf1 ups1 n img path elf j :
  partway root (Z.of_nat j) m1 fs1 tabs1 leaf1 ups1 (stack_top n) img -> Z.of_nat j = pages_for n -> length ups1 = S (S j) ->
  f_idle f1 ns -> 0 <= entry elf < 2 ^ 64 ->
  exists r s', (r ← push_args fuel kustack (S (Z.to_nat MAXARG)) root (stack_top n - PGSIZE) (ptrs ++ 0 :: rest) 0 (stack_top n);
    match r with
    | None => exec_bad root (stack_top n) None
    | Some (argc, sp) =>
        set_ustack kustack argc 0;;
        let sp := u64 (sp - (argc + 1) * 8) in
        let sp := sp - sp mod 16 in
        if sp <? stack_top n - PGSIZE then exec_bad root (stack_top n) None else
        r ← mcall (Vm.copyout fuel root sp kustack ((argc + 1) * 8));
        if r <? 0 then exec_bad root (stack_top n) None else
        exec_commit p path root (stack_top n) argc sp elf (sz q)
    end) (at_ s m1 f1) = Ok r s' ∧ exec_post path elf n img r s'.
Proof using All.
  intros Hb Hj Hlen Hf Hpc. pose proof fs0_aligned as Hal0. assert (Hk0 : kst ∉ fs0) by (intros H; apply Hkst0; rewrite !elem_of_app; auto).
  destruct (lookup_lt_is_Some_2 ups1 (S j)) as [u Hu]; [lia|].
  assert (Et : stack_top n = Z.of_nat (S (S j)) * PGSIZE) by (unfold stack_top; rewrite <- Hj; unfold PGSIZE; lia).
  rewrite Et in *. set (top := Z.of_nat (S (S j)) * PGSIZE) in *.
  destruct (push_args_ok kend Hkend tramp (ram m) fs0 kst tf root Hal0 Hkst Hk0 s f1 kustack Hku fuel ltac:(lia) (Z.of_nat j) fs1 tabs1 leaf1 ups1 top img
    (S j) u Hu ltac:(lia) Hlen ltac:(lia) ptrs rest args Hargs Hmax (S (Z.to_nat MAXARG)) 0 m1 img) as (r & m2 & Hrun & Hcase);
    [unfold MAXARG in *; lia|lia| |].
  { split; [done|unfold args_sp; rewrite take_0; cbn [foldl]; unfold PGSIZE; lia|done|lia]. }
  rewrite take_0 in Hrun. cbn [args_sp foldl] in Hrun. change (Z.of_nat 0) with 0 in Hrun. rewrite (bind_Ok _ _ _ _ _ Hrun).
  assert (Hbad : forall g m3 img3, partway root g m3 fs1 tabs1 leaf1 ups1 top img3 -> ~ args_fit top args ->
    exists r s', exec_bad root top None (at_ s m3 f1) = Ok r s' ∧ exec_post path elf n img r s').
  { intros g m3 img3 Hb3 Hno. destruct (bad_late g root m3 f1 fs1 tabs1 leaf1 ups1 top img3 None Hf Hb3) as (m' & f' & Hb4 & Hfail).
    exists (-1), (at_ s m' f'). split; [done|]. left. split; [done|]. split; [by exists m', f'|]. left. by rewrite Et. }
  destruct r as [[argc sp]|]; [|destruct Hcase as [Hno [img2 Hb2]]; by eapply Hbad].
  destruct Hcase as (-> & -> & img2 & Hp2). rewrite set_ustack_at by lia. fold top.
  set (m3 := m2 <| ram ::= _ |>). pose proof (pu_hold _ _ _ _ _ _ _ _ _ _ _ _ _ _ _ _ _ _ _ _ Hp2) as Hb2.
  pose proof (pu_sp _ _ _ _ _ _ _ _ _ _ _ _ _ _ _ _ _ _ _ _ Hp2) as Hsp. rewrite firstn_all in Hsp. fold top in Hsp.
  pose proof (args_sp_le args top) as Hle. assert (Htop : top <= user_top * PGSIZE).
  { pose proof (us_size _ _ _ _ _ _ _ (b_space _ _ _ _ _ _ _ _ _ _ _ _ _ _ _ Hb)). unfold top, PGSIZE. lia. }
  assert (user_top * PGSIZE < 2 ^ 64) by done. cbv zeta.
  rewrite u64_id by (unfold top, MAXARG, PGSIZE in *; lia).
  fold (align16 (args_sp top args - (Z.of_nat (length args) + 1) * 8)). fold (vec_sp top args).
  destruct (Z.ltb_spec (vec_sp top args) (top - PGSIZE)) as [Hlt|Hfit].
  { eapply Hbad; [|unfold args_fit; lia]. eapply b_kernel; [done|done|done|exact Hb2|].
    apply (ustack_page kst kustack Hku). lia. }
  destruct (push_vec kend Hkend tramp (ram m) fs0 kst tf root Hal0 Hkst Hk0 kustack Hku fuel ltac:(lia) (Z.of_nat j) fs1 tabs1 leaf1 ups1 top img
    (S j) u Hu ltac:(lia) Hlen ltac:(lia) args Hmax m2 img2 Hp2 Hfit) as (m4 & img4 & Hcp & Hb4 & Hlow & Hargv). fold m3 in Hcp.
  rewrite (mcall_at _ _ _ _ _ _ _ Hcp). change (0 <? 0) with false. cbv iota.
  destruct (commit_ok (Z.of_nat j) root m4 f1 fs1 tabs1 leaf1 ups1 top img4 path (Z.of_nat (length args)) (vec_sp top args) elf Hb4 Hpc)
    as (m5 & fs5 & Hrun5 & Hown5 & Hpm & Hby & Hregs).
  { pose proof (align16_le (args_sp top args - (Z.of_nat (length args) + 1) * 8)) as H16. fold (vec_sp top args) in H16. unfold top, PGSIZE in *. lia. }
  eexists _, _. split; [exact Hrun5|]. right. rewrite Et. split; [done|]. split; [exact Hfit|]. eexists m5, f1, _. split; [done|]. split; [done|].
  exists root, fs5, tabs1, leaf1, ups1. rewrite Et. split_and!; try done.
  - intros va Hva. rewrite Hby. by apply Hlow.
  - intros va Hva. rewrite <- Hj. eapply guard_access; [exact Hb4|]. by rewrite Hlen.
  - by rewrite Hby.
Qed.

Lemma exec_stack_ok root m1 f1 fs1 tabs1 leaf1 ups1 n img path elf :
  partway root (-1) m1 fs1 tabs1 leaf1 ups1 n img -> thrifty fs0 fs1 ups1 -> f_idle f1 ns -> 0 <= entry elf < 2 ^ 64 ->
  exists r s', exec_stack p path (ptrs ++ 0 :: rest) root elf n (at_ s m1 f1) = Ok r s' ∧ exec_post path elf n img r s'.
Proof using All.
  intros Hb Hth Hf Hpc. pose proof fs0_aligned as Hal0. assert (Hk0 : kst ∉ fs0) by (intros H; apply Hkst0; rewrite !elem_of_app; auto).
  assert (Hbound : Z.of_nat (length fs0) <= user_top).
  { pose proof (vo_kmem _ _ _ _ _ _ (us_vm _ _ _ _ _ _ _ (ow_space _ _ _ _ _ _ Hown))) as Hk.
    eapply pages_bound; [exact Hkend|apply Hk|apply Hk]. }
  destruct (b_round root m1 fs1 tabs1 leaf1 ups1 n img Hb) as (Er & Hlen1 & Hpr & Hb1).
  assert (Hst : u64 (pages_for n * PGSIZE + 2 * PGSIZE) = stack_top n).
  { rewrite u64_id; [unfold stack_top; ring|]. assert (TRAPFRAME + 2 * PGSIZE < 2 ^ 64) by done. unfold PGSIZE in *. lia. }
  assert (Hget : get_proc p (at_ s m1 f1) = Ok q (at_ s m1 f1)) by (unfold get_proc; by rewrite Hp).
  unfold Exec.exec_stack. rewrite (bind_Ok _ _ _ _ _ Hget), Er, Hst.
  destruct (b_uvmalloc kend Hkend fuel tramp (ram m) fs0 kst tf root m1 fs1 tabs1 leaf1 ups1 _ img (stack_top n) Hb1 Hth) as (r & m2 & Hrun & Hcase);
    [unfold stack_top; change PGSIZE with 4096 in *; lia|lia|done|].
  rewrite (mcall_at _ _ _ _ _ _ _ Hrun). assert (Hmaxs : Z.max (pages_for n * PGSIZE) (stack_top n) = stack_top n).
  { apply Z.max_r. unfold stack_top. change PGSIZE with 4096 in *. lia. }
  destruct Hcase as [(-> & fs2 & tabs2 & leaf2 & ups2 & Hb2 & _)|(-> & (fs2 & tabs2 & leaf2 & Hb2) & _ & Hshort)].
  2:{ change (0 =? 0) with true. cbv iota.
      destruct (bad_late (-1) root m2 f1 fs2 tabs2 leaf2 ups1 _ img None Hf Hb2) as (m' & f' & Hb4 & Hfail).
      exists (-1), (at_ s m' f'). split; [done|]. left. split; [done|]. split; [by exists m', f'|]. right.
      assert (E : pages_for (stack_top n) = pages_for n + 2).
      { unfold stack_top. set (k := pages_for n + 2). unfold pages_for, PGSIZE. Z.div_mod_to_equations. lia. }
      lia. }
  rewrite Hmaxs in *. assert (Hne : (stack_top n =? 0) = false) by (unfold stack_top; change PGSIZE with 4096 in *; lia). rewrite Hne. cbv zeta.
  destruct (b_round root m2 fs2 tabs2 leaf2 ups2 (stack_top n) img Hb2) as (_ & Hlen2 & Hpr2 & _).
  assert (E2 : pages_for (stack_top n) = pages_for n + 2).
  { unfold stack_top. set (k := pages_for n + 2). unfold pages_for, PGSIZE. Z.div_mod_to_equations. lia. }
  set (j := length ups1). destruct (b_uvmclear kend Hkend tramp (ram m) fs0 kst tf root Hal0 Hkst Hk0 m2 fs2 tabs2 leaf2 ups2 (stack_top n) img j Hb2)
    as (m3 & leaf3 & Hclr & Hb3); [unfold j; lia|].
  assert (Eg : u64 (stack_top n - 2 * PGSIZE) = Z.of_nat j * PGSIZE).
  { unfold j. rewrite Hlen1. replace (stack_top n - 2 * PGSIZE) with (pages_for n * PGSIZE) by (unfold stack_top; ring).
    apply u64_id. assert (TRAPFRAME < 2 ^ 64) by done. lia. }
  rewrite Eg, (mcall_at _ _ _ _ _ _ _ Hclr).
  assert (Es : u64 (stack_top n - PGSIZE) = stack_top n - PGSIZE).
  { apply u64_id. unfold stack_top. assert (TRAPFRAME + 2 * PGSIZE < 2 ^ 64) by done. change PGSIZE with 4096 in *. lia. }
  rewrite Es. by eapply stack_ok; [exact Hb3|unfold j; lia|unfold j; lia|done|done].
Qed.

(** ** The whole of exec *)
Definition fails (r : Z) (s' : kstate (kmem * F)) : Prop := r = -1 ∧ exists m' f', s' = at_ s m' f' ∧ failed m' f'.

(** From the new page table on. *)
Lemma exec_load_ok path f1 ip c elf root m1 fs1 tabs1 leaf1 : f_locked f1 ns ip c -> 0 <= entry elf < 2 ^ 64 ->
  partway root (-1) m1 fs1 tabs1 leaf1 [] 0 (fun _ => 0) -> thrifty fs0 fs1 [] ->
  exists r s', (r ← load_loop kend fuel (Z.to_nat (phnum elf)) ip root (i32 (phoff elf)) 0;
    if negb r.1 then exec_bad root r.2 (Some ip) else
    fcall (f_iunlockput ip);;
    fcall f_end_op;;
    exec_stack p path (ptrs ++ 0 :: rest) root elf r.2) (at_ s m1 f1) = Ok r s'
  ∧ match segs_image (Z.to_nat (phnum elf)) c (i32 (phoff elf)) 0 (fun _ => 0) with
    | Some (n, img) => exec_post path elf n img r s'
    | None => fails r s'
    end.
Proof using All.
  intros Hf Hpc Hb Hth. assert (Hbound : Z.of_nat (length fs0) <= user_top).
  { pose proof (vo_kmem _ _ _ _ _ _ (us_vm _ _ _ _ _ _ _ (ow_space _ _ _ _ _ _ Hown))) as Hk.
    eapply pages_bound; [exact Hkend|apply Hk|apply Hk]. }
  destruct (load_loop_ok kend Hkend fuel tramp (ram m) fs0 kst tf root s ns ip c ltac:(lia) Hbound (Z.to_nat (phnum elf)) m1 f1 fs1 tabs1 leaf1 [] 0
    (fun _ => 0) (i32 (phoff elf)) Hb Hth Hf) as (ok & n & m2 & f2 & Hrun & Hf2 & fs2 & tabs2 & leaf2 & ups2 & img2 & Hb2 & Hok).
  { unfold i32. pose proof (Z.mod_pos_bound (phoff elf + 2 ^ 31) (2 ^ 32)). lia. }
  rewrite (bind_Ok _ _ _ _ _ Hrun). cbn [fst snd]. destruct ok; cbn [negb].
  - destruct Hok as [-> Hth2]. destruct (iunlockput_ok _ _ _ _ Hf2) as (f3 & H3 & Ho3). destruct (end_op_ok _ _ Ho3) as (f4 & H4 & Hi4).
    rewrite (fcall_at _ _ _ _ _ _ _ H3), (fcall_at _ _ _ _ _ _ _ H4). by eapply exec_stack_ok.
  - destruct (bad_late (-1) root m2 f2 fs2 tabs2 leaf2 ups2 n img2 (Some ip) ltac:(by exists c) Hb2) as (m' & f' & Hbad & Hfail).
    exists (-1), (at_ s m' f'). split; [exact Hbad|]. destruct (segs_image _ _ _ _ _) as [[n' img']|] eqn:Es; [|split; [done|]; by exists m', f'].
    left. split; [done|]. split; [by exists m', f'|]. right. pose proof (Hok _ _ eq_refl) as Hs. unfold short in Hs. lia.
Qed.

Lemma exec_ok path f : f_idle f ns ->
  exists r s', exec p path (ptrs ++ 0 :: rest) (at_ s m f) = Ok r s'
  ∧ match ns path ≫= exec_image with
    | Some (elf, n, img) => exec_post path elf n img r s'
    | None => fails r s'
    end.
Proof using All.
  intros Hf. unfold Exec.exec. destruct (begin_op_ok _ _ Hf) as (f1 & H1 & Ho1). rewrite (fcall_at _ _ _ _ _ _ _ H1).
  destruct (namei_ok _ _ path Ho1) as (ip & f2 & H2 & Hns). rewrite (fcall_at _ _ _ _ _ _ _ H2).
  pose proof (ow_space _ _ _ _ _ _ Hown) as Hsp. pose proof (vo_kmem _ _ _ _ _ _ (us_vm _ _ _ _ _ _ _ Hsp)) as Hk0.
  destruct (ns path) as [c|]; cbn [mbind option_bind].
  2:{ destruct Hns as [-> Ho2]. change (-1 =? -1) with true. cbv iota. destruct (end_op_ok _ _ Ho2) as (f3 & H3 & Hi3). rewrite (fcall_at _ _ _ _ _ _ _ H3).
      exists (-1), (at_ s m f3). split; [done|]. split; [done|]. exists m, f3. split; [done|]. by eapply failed_free; [|exact Hk0| |apply same_refl]. }
  destruct Hns as [Hip Hr2]. assert ((ip =? -1) = false) as -> by lia.
  destruct (ilock_ok _ _ _ _ Hr2) as (f3 & H3 & Hl3). rewrite (fcall_at _ _ _ _ _ _ _ H3).
  destruct (readi_ok f3 ns ip c 0 sizeof_elfhdr Hl3 ltac:(lia) ltac:(done)) as (f4 & H4 & Hl4). rewrite (fcall_at _ _ _ _ _ _ _ H4).
  pose proof (file_size _ _ _ _ Hl4) as Hc. destruct (file_part_length c 0 sizeof_elfhdr ltac:(lia) ltac:(done) Hc) as [-> _].
  unfold exec_image. rewrite file_part_slice by (done || lia). assert ((0 <=? Z.of_nat (length c)) = true) as -> by lia.
  assert (Hbad : forall m1 fs1, kmem_ok kend m1 fs1 -> fs1 ≡ₚ fs0 -> same_except (kst :: fs0) (ram m) (ram m1) ->
    exists m' f', exec_bad 0 0 (Some ip) (at_ s m1 f4) = Ok (-1) (at_ s m' f') ∧ failed m' f').
  { intros m1 fs1 Hk1 Hp1 Hs1. eapply bad_early; [by exists c|done|done|done]. }
  destruct (Hbad m fs0 Hk0 ltac:(done) ltac:(apply same_refl)) as (mb & fb & Hb1 & Hb2).
  change (0 + sizeof_elfhdr) with sizeof_elfhdr. destruct (Z.ltb_spec (Z.of_nat (length c)) sizeof_elfhdr) as [Hs|Hs].
  { assert ((sizeof_elfhdr <=? Z.of_nat (length c)) = false) as -> by lia. exists (-1), (at_ s mb fb). split; [exact Hb1|]. split; [done|]. by exists mb, fb. }
  assert ((sizeof_elfhdr <=? Z.of_nat (length c)) = true) as -> by lia. cbn [negb]. cbv zeta. set (elf := get_elfhdr _).
  destruct (negb (e_magic elf =? ELF_MAGIC)). { exists (-1), (at_ s mb fb). split; [exact Hb1|]. split; [done|]. by exists mb, fb. }
  assert (Hpc : 0 <= entry elf < 2 ^ 64).
  { apply (get_le_bounds 8). intros j. apply byte_at_slice. intros b. by eapply file_byte. }
  destruct (proc_pagetable_spec kend fuel blncflg tramp forkret_at kobj fs_filedup fs_idup fs_namei fs_fileclose fs_iput fs_begin_op fs_end_op
    Hkend p (at_ s m f4) fs0 Hp Hk0 Hfuel3 Htr Htf) as (r & m1 & Hrun & Hcase & Hs1).
  assert (Hpt : proc_pagetable p (at_ s m f4) = Ok r (at_ s m1 f4)) by exact Hrun.
  assert (Hs1' : same_except (kst :: fs0) (ram m) (ram m1)) by (eapply same_mono; [|exact Hs1]; intros x Hx; by right).
  rewrite (bind_Ok _ _ _ _ _ Hpt). destruct Hcase as [(Hr & fs1 & tabs1 & Hu1 & Hp1 & Hc1)|(-> & (fs1 & Hk1 & Hp1) & Hc1)].
  2:{ change (0 =? 0) with true. cbv iota. destruct (Hbad m1 fs1 Hk1 Hp1 Hs1') as (m' & f' & Hb3 & Hb4). exists (-1), (at_ s m' f'). split; [exact Hb3|].
      destruct (segs_image _ _ _ _ _) as [[n img]|] eqn:Es; cbn; [|split; [done|]; by exists m', f'].
      left. split; [done|]. split; [by exists m', f'|]. right. apply segs_image_mono in Es.
      assert (0 <= pages_for n) by (unfold pages_for; apply Z.div_pos; [unfold PGSIZE; lia|done]). lia. }
  assert ((r =? 0) = false) as -> by lia.
  destruct (exec_load_ok path f4 ip c elf r m1 fs1 tabs1 (proc_leaf tramp tf) Hl4 Hpc) as (r' & s' & Hrun' & Hpost).
  - split; [exact Hu1|by rewrite app_nil_l|exact Hs1'|done|done|done|done|intros va Hva; cbn [length] in Hva; lia|done].
  - unfold thrifty. cbn [length]. lia.
  - exists r', s'. split; [exact Hrun'|]. by destruct (segs_image _ _ _ _ _) as [[n img]|].
Qed.
End run.
End exec.

(** ** The specification *)

(** The process [p] is about to run [exec], called from a system call: it owns its
    address space, the trapframe page and the page of the kernel stack are in use
    (neither free nor user memory nor page tables), and [ustack] is in the latter. *)
Record exec_ready {F} (kend : Z) (fuel : nat) (tramp : Z) (s : kstate (kmem * F)) (p : Z) (m : kmem) (fs0 : list Z) (tabs : tables)
    (leaf : Z -> Z) (ups : list Z) (kst kustack : Z) : Prop := {
  er_kend : 0 < kend;
  er_proc : proc_index_ok p = true;
  er_owns : owns kend tramp m fs0 (procs (kcore s) p) tabs leaf ups;
  er_tramp : frame_ok tramp;
  er_tf : frame_ok (trapframe (procs (kcore s) p));
  er_kst : kst mod PGSIZE = 0;
  er_tf_used : trapframe (procs (kcore s) p) ∉ kst :: ups ++ fs0 ++ tab_pages tabs;
  er_kst_used : kst ∉ ups ++ fs0 ++ tab_pages tabs;
  er_ustack : kst <= kustack ∧ kustack + 8 * MAXARG <= kst + PGSIZE;
  er_fuel : (length ups + length fs0 < fuel)%nat ∧ PGSIZE < Z.of_nat fuel
}.

(** C28: [exec] either becomes the program or leaves no trace.  Let [ns] say what every
    path leads to.  If the file is an acceptable executable with image [img] of [n]
    bytes, the arguments fit in a page and there is memory, then [exec] returns the
    number of arguments, and the process has a new address space: below the stack its
    memory is the image (the bytes of the segments, zero elsewhere), the page under the
    stack is inaccessible, [argv] on the stack points to copies of the arguments, the
    program counter is the entry point and the stack pointer and [a1] point to [argv];
    the old pages are free and no page is lost.  Otherwise it returns -1, the process
    keeps its memory, every page that was free is free again, and the reason is one of
    these: no such file, not an acceptable executable, arguments too long, or not
    enough memory.  In both cases the operation on the file system is over. *)
Theorem exec_spec {F} `{!Files F, !FilesSpec F} kend fuel blncflg tramp forkret_at kobj (fs_filedup fs_idup : Z -> callee F Z) fs_namei
    (fs_fileclose fs_iput : Z -> waker F unit) fs_begin_op fs_end_op kustack (s : kstate (kmem * F)) p m fs0 tabs leaf ups kst ns ptrs rest args path f :
  exec_ready kend fuel tramp s p m fs0 tabs leaf ups kst kustack ->
  Forall2 (arg_at (ram m) fs0 kst) ptrs args -> Z.of_nat (length args) < MAXARG -> f_idle f ns ->
  exists r s', exec kend fuel blncflg tramp forkret_at kobj fs_filedup fs_idup fs_namei fs_fileclose fs_iput fs_begin_op fs_end_op kustack
                 p path (ptrs ++ 0 :: rest) (at_ s m f) = Ok r s'
  ∧ match ns path ≫= exec_image with
    | Some (elf, n, img) => exec_post kend tramp s p m fs0 tabs leaf ups kst ns args path elf n img r s'
    | None => fails kend tramp s p m fs0 tabs leaf ups kst ns r s'
    end.
Proof.
  intros [R1 R2 R3 R4 R5 R6 R7 R8 R9 [R10 R11]] Hargs Hmax Hf. unfold PGSIZE in R11. apply exec_ok; (done || lia).
Qed.
