(* ===== verification/ExecSys.v ===== *)
(** * ExecSys: the exec system call

    [sys_exec] copies the path and the argument vector out of the memory of the
    calling program, runs [exec], and frees its copies.  The theorem composes all of
    it: the new program finds on its stack the vector the old one passed. *)

From stdpp Require Import gmap.
From S2P Require Import Prelude KState Spinlock ProcList ProcAbs Proc ProcInv ProcFork Bytes.
From S2P Require Import SleepLock MemC Kalloc Vm VmRep VmMap VmUser VmCopy VmFree VmProps ProcVm Exec ExecLoad ExecStack ExecProps.

#[local] Opaque memset memmove st64 ld64 put_bytes.

Lemma kfree_owns kend tramp (Hkend : 0 < kend) m fs q tabs leaf ups a :
  owns kend tramp m fs q tabs leaf ups -> page_ok kend a -> a ∉ ups ++ fs ++ tab_pages tabs ->
  exists m', Kalloc.kfree kend a m = Ok tt m' ∧ owns kend tramp m' (a :: fs) q tabs leaf ups ∧ same_except [a] (ram m) (ram m').
Proof.
  intros [O1 O2 O3 O4] Ha Hn. rewrite !elem_of_app in Hn.
  destruct (vm_kfree kend Hkend m fs (pagetable q) tabs leaf a (us_vm _ _ _ _ _ _ _ O1) Ha) as (m' & Hrun & Hv & Hs); [intros ?; apply Hn; auto..|].
  exists m'. split; [done|]. split; [|done]. split; try done. destruct O1 as [_ U2 U3 U4 U5 U6]. split; try done.
  cbn [app]. rewrite <- Permutation_middle. constructor; [|done]. rewrite !elem_of_app. done.
Qed.

Lemma ld_range n m a : (forall i, 0 <= i < Z.of_nat n -> 0 <= m (a + i) < 256) -> 0 <= ld n m a < 256 ^ Z.of_nat n.
Proof.
  revert a. induction n as [|n IH]; intros a Hb; cbn [ld]; [done|].
  pose proof (Hb 0 ltac:(lia)) as H0. rewrite Z.add_0_r in H0. pose proof (IH (a + 1)) as H1.
  rewrite Nat2Z.inj_succ, Z.pow_succ_r by lia. assert (0 <= ld n m (a + 1) < 256 ^ Z.of_nat n); [|lia].
  apply H1. intros i Hi. specialize (Hb (1 + i) ltac:(lia)). by rewrite Z.add_assoc in Hb.
Qed.

Section sys.
Context {F : Type} `{!Files F, !FilesSpec F} (kend : Z) (Hkend : 0 < kend) (fuel : nat) (blncflg : bool) (tramp forkret_at kobj : Z).
Context (fs_filedup fs_idup : Z -> callee F Z) (fs_namei : list Z -> callee F Z)
  (fs_fileclose fs_iput : Z -> waker F unit) (fs_begin_op fs_end_op : waker F unit) (kustack kpath kuarg : Z).
Abbreviation owns := (ExecProps.owns kend tramp).

(** Freeing the copies of the arguments. *)
Lemma free_args_ok (s : kstate (kmem * F)) f q tabs leaf ups rest : forall ptrs m fs,
  owns m fs q tabs leaf ups -> Forall (page_ok kend) ptrs -> NoDup ptrs -> (forall a, a ∈ ptrs -> a ∉ ups ++ fs ++ tab_pages tabs) ->
  rest = [] ∨ (exists r, rest = 0 :: r) ->
  exists m', free_args kend (ptrs ++ rest) (at_ s m f) = Ok tt (at_ s m' f) ∧ owns m' (reverse ptrs ++ fs) q tabs leaf ups
    ∧ same_except ptrs (ram m) (ram m').
Proof using Hkend.
  induction ptrs as [|a ptrs IH]; intros m fs Ho Hpg Hnd Hn Hrest.
  { exists m. split; [|split; [done|apply same_refl]]. destruct Hrest as [->|[r ->]]; done. }
  apply Forall_cons in Hpg as [Ha Hpg]. apply NoDup_cons in Hnd as [Ha' Hnd].
  destruct (kfree_owns kend tramp Hkend m fs q tabs leaf ups a Ho Ha (Hn a (list_elem_of_here _ _))) as (m1 & H1 & Ho1 & Hs1).
  destruct (IH m1 (a :: fs) Ho1 Hpg Hnd) as (m2 & H2 & Ho2 & Hs2); [|done|].
  { intros x Hx. pose proof (Hn x (list_elem_of_further _ _ _ Hx)) as Hx'. rewrite !elem_of_app, elem_of_cons in *.
    intros [?|[[->|?]|?]]; [apply Hx'; auto|done|apply Hx'; auto..]. }
  exists m2. split_and!.
  - cbn [app free_args]. destruct (page_word kend Hkend a Ha). assert ((a =? 0) = false) as -> by lia.
    rewrite (mcall_at _ _ _ _ _ _ _ H1). exact H2.
  - by rewrite reverse_cons, <- app_assoc.
  - eapply same_trans; [eapply same_one; [|exact Hs1]; left|]. eapply same_mono; [|exact Hs2]. intros x Hx. by right.
Qed.

Section fetch.
Context (s : kstate (kmem * F)) (p : Z) (Hp : proc_index_ok p = true) (f : F).
Abbreviation q := (procs (kcore s) p).
Abbreviation tf := (trapframe q).
Context (m : kmem) (fs0 : list Z) (tabs : tables) (leaf : Z -> Z) (ups : list Z) (Hown : owns m fs0 q tabs leaf ups).
Context (kst : Z) (Htr : frame_ok tramp) (Htf : frame_ok tf) (Hkst : kst mod PGSIZE = 0) (Hkst0 : kst ∉ ups ++ fs0 ++ tab_pages tabs).
Context (Hbytes : forall a, 0 <= ram m a < 256) (Hfuel : PGSIZE < Z.of_nat fuel).

(** The memory of the calling program. *)
Abbreviation umem := (ubyte (ram m) ups).
Abbreviation space mi fsi := (uspace kend mi fsi (pagetable q) tabs leaf ups).

Lemma user_only_own : user_only leaf ups.
Proof using All.
  destruct Hown as [O1 O2 O3 O4]. intros v Hv. destruct (Z.lt_ge_cases v user_top).
  - rewrite (us_unmapped _ _ _ _ _ _ _ O1) by lia. done.
  - rewrite O4 by done. unfold proc_leaf. destruct (decide (v = TRAPFRAME / PGSIZE)) as [->|].
    + rewrite upd_eq, mk_pte_lor. unfold has. by rewrite PTE_low.
    + rewrite upd_ne by done. destruct (decide (v = TRAMPOLINE / PGSIZE)) as [->|].
      * rewrite upd_eq, mk_pte_lor. unfold has. by rewrite PTE_low.
      * by rewrite upd_ne.
Qed.

(** While the arguments are copied, only the kernel stack and free pages change. *)
Lemma umem_byte mi va a : same_except (kst :: fs0) (ram m) (ram mi) -> uaccess leaf va = Some a -> ram mi a = umem va ∧ 0 <= umem va < 256.
Proof using All.
  intros Hs Ha. pose proof (ow_space _ _ _ _ _ _ _ _ Hown) as Hu.
  destruct (uaccess_user kend Hkend m fs0 (pagetable q) tabs leaf ups va a Hu user_only_own Ha) as (j & u & Hj & Ed & -> & _).
  pose proof (Z.mod_pos_bound va PGSIZE ltac:(done)) as Hm. set (o := va mod PGSIZE) in *.
  assert (Eva : va = Z.of_nat j * PGSIZE + o) by (unfold o, PGSIZE in *; Z.div_mod_to_equations; lia).
  rewrite Eva, (ubyte_in _ _ j u) by done. split; [|apply Hbytes]. assert (Hin : u ∈ ups) by (by eapply list_elem_of_lookup_2).
  pose proof (us_pages _ _ _ _ _ _ _ Hu) as Hpg. rewrite Forall_forall in Hpg.
  apply (same_page (kst :: fs0) _ _ u); [done|by apply Hpg| | |unfold in_page; lia].
  - constructor; [done|]. eapply pages_aligned, (ko_pages _ _ _ (vo_kmem _ _ _ _ _ _ (us_vm _ _ _ _ _ _ _ Hu))).
  - intros [->|Hf]%elem_of_cons; [apply Hkst0; rewrite !elem_of_app; auto|].
    by destruct (us_apart kend m fs0 (pagetable q) tabs leaf ups u Hu Hin).
Qed.

(** A string, and a word, of the calling program. *)
Definition ustring_at (va : Z) (str : list Z) : Prop :=
  cstr umem va str ∧ forall i, 0 <= i <= Z.of_nat (length str) -> uaccess leaf (va + i) ≠ None.
Definition uword_at (va : Z) : Prop := va + 8 <= sz q ∧ forall i, 0 <= i < 8 -> uaccess leaf (va + i) ≠ None.

Lemma fetchstr_ok mi fsi addr buf pg max :
  space mi fsi -> same_except (kst :: fs0) (ram m) (ram mi) -> 0 <= addr -> 0 < max <= PGSIZE ->
  pg mod PGSIZE = 0 -> pg <= buf -> buf + max <= pg + PGSIZE -> pg ∉ ups ++ fsi ++ tab_pages tabs ->
  exists r mi', k_fetchstr fuel p addr buf max (at_ s mi f) = Ok r (at_ s mi' f) ∧ space mi' fsi
    ∧ (forall a, ~ (buf <= a < buf + max) -> ram mi' a = ram mi a)
    ∧ ((exists str, ustring_at addr str ∧ Z.of_nat (length str) < max ∧ r = Z.of_nat (length str) ∧ cstr (ram mi') buf str)
       ∨ r = -1 ∧ forall str, ustring_at addr str -> max <= Z.of_nat (length str)).
Proof using All.
  intros Hu Hs Ha Hmax Hpg Hb1 Hb2 Hno.
  assert (Hal : Forall (fun x => x mod PGSIZE = 0) (ups ++ fsi ++ tab_pages tabs)).
  { apply Forall_app. split; [eapply pages_aligned, Hu|by eapply uspace_aligned]. }
  assert (Hbuf : kbuf fsi tabs ups buf max).
  { intros i x Hi Hx. rewrite Forall_forall in Hal. destruct (pages_apart x pg) as [?|?]; [by apply Hal|done|by intros ->|unfold in_page; lia..]. }
  destruct (copyinstr_loop_ok kend Hkend fsi (pagetable q) tabs leaf ups user_only_own fuel mi buf addr max Hu Ha ltac:(lia) Hbuf)
    as (r & mi' & Hrun & Hu' & Hfr & n & Hn & Hstr & Hr).
  assert (Hfr' : forall a, ~ (buf <= a < buf + max) -> ram mi' a = ram mi a) by (intros a Hna; apply Hfr; intros i Hi ->; lia).
  assert (Hget : get_proc p (at_ s mi f) = Ok q (at_ s mi f)) by (unfold get_proc; by rewrite Hp).
  set (str := (fun i => umem (addr + i)) <$> seqZ 0 n).
  assert (Hlen : Z.of_nat (length str) = n) by (unfold str; rewrite length_fmap, length_seqZ; lia).
  assert (Hat : forall i b, str !! i = Some b -> Z.of_nat i < n ∧ b = umem (addr + Z.of_nat i)).
  { intros i b Hi. pose proof (lookup_lt_Some _ _ _ Hi). unfold str in Hi. rewrite list_lookup_fmap, lookup_seqZ_lt in Hi by lia.
    injection Hi as <-. split; [lia|]. f_equal. }
  assert (Hnz : forall i, 0 <= i < n -> umem (addr + i) ≠ 0 ∧ ram mi' (buf + i) = umem (addr + i) ∧ uaccess leaf (addr + i) ≠ None).
  { intros i Hi. destruct (Hstr i Hi) as (a & Ha1 & Ha2 & Ha3). destruct (umem_byte mi _ _ Hs Ha1) as [E _]. rewrite <- E, Ha1. done. }
  destruct Hr as [(-> & Hnm & (a & Ha1 & Ha2) & Hend)|(-> & Hbad)].
  - destruct (umem_byte mi _ _ Hs Ha1) as [E _]. rewrite Ha2 in E.
    assert (Hc : cstr (ram mi') buf str).
    { split; [|by rewrite Hlen]. intros i b Hi. destruct (Hat i b Hi) as [Hin ->]. destruct (Hnz (Z.of_nat i) ltac:(lia)) as (H1 & H2 & _). done. }
    exists n, mi'. split_and!; [|done|done|].
    + unfold k_fetchstr. rewrite (bind_Ok _ _ _ _ _ Hget), (mcall_at _ _ _ _ _ _ _ Hrun). change (0 <? 0) with false. cbv iota.
      unfold k_strlen. erewrite mcall_at by reflexivity. rewrite (cstr_strlen _ _ str Hc) by lia. by rewrite Hlen.
    + left. exists str. split_and!; [|lia|done|done]. split; [split|].
      * intros i b Hi. destruct (Hat i b Hi) as [Hin ->]. by destruct (Hnz (Z.of_nat i) ltac:(lia)).
      * by rewrite Hlen, <- E.
      * intros i Hi. destruct (decide (i = n)) as [->|]; [by rewrite Ha1|]. apply Hnz. lia.
  - exists (-1), mi'. split_and!; [|done|done|].
    + unfold k_fetchstr. rewrite (bind_Ok _ _ _ _ _ Hget), (mcall_at _ _ _ _ _ _ _ Hrun). done.
    + right. split; [done|]. intros str' [[_ Hz] Hacc]. destruct (Z.le_gt_cases max (Z.of_nat (length str'))) as [|Hlt]; [done|]. exfalso.
      destruct (Z.lt_ge_cases (Z.of_nat (length str')) n) as [Hl|Hl]; [by destruct (Hnz (Z.of_nat (length str')) ltac:(lia))|].
      destruct Hbad as [->|Hbad]; [lia|]. apply (Hacc n ltac:(lia)). done.
Qed.

Context (Hka : kst <= kuarg ∧ kuarg + 8 <= kst + PGSIZE) (Hkp : kst <= kpath ∧ kpath + MAXPATH <= kst + PGSIZE).
Context (Hkd : kpath + MAXPATH <= kuarg ∨ kuarg + 8 <= kpath).

Lemma kst_out fsi : fsi ⊆ fs0 -> kst ∉ ups ++ fsi ++ tab_pages tabs.
Proof using All. intros Hsub Hin. apply Hkst0. rewrite !elem_of_app in *. destruct Hin as [?|[?%Hsub|?]]; auto. Qed.

Lemma fetchaddr_ok mi fsi addr :
  space mi fsi -> fsi ⊆ fs0 -> same_except (kst :: fs0) (ram m) (ram mi) -> 0 <= addr < 2 ^ 64 ->
  exists r mi', k_fetchaddr fuel p addr kuarg (at_ s mi f) = Ok r (at_ s mi' f) ∧ space mi' fsi
    ∧ (forall a, ~ (kuarg <= a < kuarg + 8) -> ram mi' a = ram mi a)
    ∧ (r = 0 ∧ uword_at addr ∧ ld64 (ram mi') kuarg = ld64 umem addr ∧ 0 <= ld64 umem addr < 2 ^ 64 ∨ r = -1 ∧ ~ uword_at addr).
Proof using All.
  intros Hu Hsub Hs Ha. assert (Hget : get_proc p (at_ s mi f) = Ok q (at_ s mi f)) by (unfold get_proc; by rewrite Hp).
  pose proof (ow_sz _ _ _ _ _ _ _ _ Hown) as Hsz. assert (HT : TRAPFRAME < 2 ^ 64 - 8) by done.
  unfold k_fetchaddr, uword_at. destruct ((sz q <=? addr) || (sz q <? u64 (addr + 8))) eqn:Eg.
  { exists (-1), mi. split_and!; [|done|done|].
    - rewrite (bind_Ok _ _ _ _ _ Hget), Eg. done.
    - right. split; [done|]. intros [Hw _]. rewrite u64_id in Eg by lia. lia. }
  assert (Hbuf : kbuf fsi tabs ups kuarg 8).
  { assert (Hal : Forall (fun x => x mod PGSIZE = 0) (ups ++ fsi ++ tab_pages tabs)).
    { apply Forall_app. split; [eapply pages_aligned, Hu|by eapply uspace_aligned]. }
    intros i x Hi Hx. pose proof (kst_out fsi Hsub) as Hk. rewrite Forall_forall in Hal.
    destruct (pages_apart x kst) as [?|?]; [by apply Hal|done|by intros ->|unfold in_page; lia..]. }
  destruct (copyin_loop_ok kend Hkend fsi (pagetable q) tabs leaf ups user_only_own fuel mi kuarg addr 8 Hu ltac:(lia) ltac:(unfold PGSIZE in Hfuel; lia) Hbuf)
    as (r & mi' & Hrun & Hu' & Hc & Hfr).
  assert (Hfr' : forall a, ~ (kuarg <= a < kuarg + 8) -> ram mi' a = ram mi a) by (intros a Hna; apply Hfr; intros i Hi ->; lia).
  destruct Hc as [(-> & Hb)|(-> & i & Hi & Hno)].
  - exists 0, mi'. split_and!; [|done|done|].
    + rewrite (bind_Ok _ _ _ _ _ Hget), Eg, (mcall_at _ _ _ _ _ _ _ Hrun). done.
    + left. assert (Hw : forall i, 0 <= i < 8 -> ram mi' (kuarg + i) = umem (addr + i) ∧ 0 <= umem (addr + i) < 256 ∧ uaccess leaf (addr + i) ≠ None).
      { intros i Hi. destruct (Hb i Hi) as (a & Ha1 & Ha2). destruct (umem_byte mi _ _ Hs Ha1) as [E Hr]. rewrite Ha2, Ha1. done. }
      split; [done|]. split; [split; [rewrite u64_id in Eg; lia|intros i Hi; by apply Hw]|].
      Transparent ld64. split; [apply ld_shift|apply (ld_range 8)]; intros i Hi; by apply Hw. Opaque ld64.
  - exists (-1), mi'. split_and!; [|done|done|].
    + rewrite (bind_Ok _ _ _ _ _ Hget), Eg, (mcall_at _ _ _ _ _ _ _ Hrun). done.
    + right. split; [done|]. intros [_ Hw]. by apply (Hw i Hi).
Qed.

(** The argument vector [args] of the calling program, at [uargv]. *)
Abbreviation word uargv k := (ld64 umem (uargv + 8 * Z.of_nat k)).
Definition uargs_upto (uargv : Z) (args : list (list Z)) : Prop := forall k arg, args !! k = Some arg ->
  uword_at (uargv + 8 * Z.of_nat k) ∧ word uargv k ≠ 0 ∧ ustring_at (word uargv k) arg ∧ Z.of_nat (length arg) < PGSIZE.
Definition uargs_at (uargv : Z) (args : list (list Z)) : Prop :=
  Z.of_nat (length args) < MAXARG ∧ uargs_upto uargv args ∧ uword_at (uargv + 8 * Z.of_nat (length args)) ∧ word uargv (length args) = 0.

(** A vector is at least as long as what has been found of it. *)
Lemma uargs_longer uargv args args' : uargs_upto uargv args -> uargs_at uargv args' -> (length args <= length args')%nat.
Proof.
  intros Hp1 (_ & _ & _ & Hz). destruct (Nat.le_gt_cases (length args) (length args')) as [|Hlt]; [done|]. exfalso.
  destruct (lookup_lt_is_Some_2 args (length args') Hlt) as [arg Harg]. by destruct (Hp1 _ _ Harg) as (_ & Hne & _).
Qed.

(** The copies: [ptrs] are pages that were free, the path and the strings are in
    kernel memory. *)
Record copies (path : list Z) (args : list (list Z)) (ptrs : list Z) (mi : kmem) (fsi : list Z) : Prop := {
  co_space : space mi fsi;
  co_pages : ptrs ++ fsi ≡ₚ fs0;
  co_same : same_except (kst :: fs0) (ram m) (ram mi);
  co_path : cstr (ram mi) kpath path ∧ Z.of_nat (length path) < MAXPATH;
  co_args : forall k a arg, ptrs !! k = Some a -> args !! k = Some arg -> cstr (ram mi) a arg ∧ Z.of_nat (length arg) < PGSIZE
}.

Lemma fs0_page a : a ∈ fs0 -> page_ok kend a.
Proof using All.
  pose proof (ko_pages _ _ _ (vo_kmem _ _ _ _ _ _ (us_vm _ _ _ _ _ _ _ (ow_space _ _ _ _ _ _ _ _ Hown)))) as H. rewrite Forall_forall in H. apply H.
Qed.

(** A store in the page [pg], away from the path and from the strings so far. *)
Lemma copies_store path args ptrs mi fsi mi' fsi' ptrs' pg : copies path args ptrs mi fsi ->
  space mi' fsi' -> ptrs' ++ fsi' ≡ₚ fs0 -> same_except [pg] (ram mi) (ram mi') -> pg ∈ kst :: fs0 -> pg ∉ ptrs -> ptrs' = ptrs ∨ (exists a, ptrs' = ptrs ++ [a]) ->
  (forall i, 0 <= i < MAXPATH -> ram mi' (kpath + i) = ram mi (kpath + i)) -> (length args <= length ptrs)%nat -> copies path args ptrs' mi' fsi'.
Proof using All.
  intros [C1 C2 C3 C4 C5] Hsp Hpm Hs Hpg Hnin Hptrs Hpath Hlen. split; [done|done| | |].
  - eapply same_trans; [exact C3|]. by eapply same_one.
  - destruct C4 as [C4 C4']. split; [|done]. eapply cstr_ext; [|exact C4]. intros i Hi. apply Hpath. lia.
  - intros k a arg Ha Harg. assert (Ha' : ptrs !! k = Some a).
    { pose proof (lookup_lt_Some _ _ _ Harg). destruct Hptrs as [->|[x ->]]; [done|]. by rewrite lookup_app_l in Ha by lia. }
    destruct (C5 k a arg Ha' Harg) as [Hc Hl]. split; [|done]. eapply cstr_ext; [|exact Hc]. intros i Hi.
    assert (Hin : a ∈ ptrs) by (by eapply list_elem_of_lookup_2).
    assert (Hal : forall x, x ∈ kst :: fs0 -> x mod PGSIZE = 0) by (intros x [->|Hx]%elem_of_cons; [done|by apply fs0_page]).
    apply (same_page [pg] _ _ a); [done| |constructor; [by apply Hal|done]|by intros ->%list_elem_of_singleton|unfold in_page; lia].
    apply Hal. right. rewrite <- C2, elem_of_app. by left.
Qed.

Definition fetch_post (path : list Z) (uargv : Z) (ok : bool) (argv' : list Z) (mi' : kmem) : Prop :=
  exists ptrs rest fsi args, argv' = ptrs ++ rest ∧ (rest = [] ∨ exists r, rest = 0 :: r) ∧ copies path args ptrs mi' fsi
  ∧ match ok with
    | true => uargs_at uargv args ∧ length ptrs = length args ∧ exists r, rest = 0 :: r
    | false => forall args', uargs_at uargv args' -> (length fs0 < length args')%nat
    end.

Lemma zeros n : replicate n 0 = [] ∨ exists r, replicate n 0 = 0 :: r.
Proof. destruct n; [by left|right; by eexists]. Qed.
Lemma zeros_set (ptrs : list Z) n a : (n <> 0)%nat -> <[length ptrs := a]> (ptrs ++ replicate n 0) = ptrs ++ a :: replicate (n - 1) 0.
Proof. intros Hn. rewrite insert_app_r_alt, Nat.sub_diag by lia. destruct n; [done|]. cbn. by rewrite Nat.sub_0_r. Qed.


Section loop.
Context (path : list Z) (uargv : Z) (Huargv : 0 <= uargv < 2 ^ 64).

(** The next pointer of the vector. *)
Lemma fetch_word args ptrs mi fsi : copies path args ptrs mi fsi -> uargs_upto uargv args -> length ptrs = length args -> (length args <= 32)%nat ->
  exists r m1, k_fetchaddr fuel p (u64 (uargv + 8 * Z.of_nat (length args))) kuarg (at_ s mi f) = Ok r (at_ s m1 f) ∧ copies path args ptrs m1 fsi
    ∧ (r = 0 ∧ uword_at (uargv + 8 * Z.of_nat (length args)) ∧ ld64 (ram m1) kuarg = word uargv (length args) ∧ 0 <= word uargv (length args) < 2 ^ 64
       ∨ r = -1 ∧ forall args', ~ uargs_at uargv args').
Proof using All.
  intros Hc Hup Hlen H32. set (n := length args) in *. pose proof Hc as [C1 C2 C3 C4 C5].
  assert (Hsub : fsi ⊆ fs0) by (intros x Hx; rewrite <- C2, elem_of_app; by right).
  assert (Ha64 : uargv + 8 * Z.of_nat n < 2 ^ 64).
  { destruct (decide (n = 0%nat)) as [->|Hn0]; [lia|].
    destruct (lookup_lt_is_Some_2 args (n - 1)) as [arg Harg]; [lia|]. destruct (Hup _ _ Harg) as [[Hw _] _].
    pose proof (ow_sz _ _ _ _ _ _ _ _ Hown). assert (TRAPFRAME < 2 ^ 64) by done. lia. }
  rewrite u64_id by lia.
  destruct (fetchaddr_ok mi fsi (uargv + 8 * Z.of_nat n)) as (r & m1 & Hrun & Hsp1 & Hfr1 & Hcase); [done|done|done|lia|].
  exists r, m1. split; [done|]. split.
  - assert (Hs1 : same_except [kst] (ram mi) (ram m1)).
    { intros a Ha. apply Hfr1. specialize (Ha kst (list_elem_of_here _ _)). unfold in_page in Ha. lia. }
    eapply copies_store; [exact Hc|done|done|exact Hs1|left| |by left| |lia].
    + intros Hin. apply Hkst0. rewrite !elem_of_app. right; left. rewrite <- C2, elem_of_app. by left.
    + intros i Hi. apply Hfr1. lia.
  - destruct Hcase as [Hok|(-> & Hno)]; [by left|right]. split; [done|]. intros args' Ha'. apply Hno.
    pose proof (uargs_longer _ _ _ Hup Ha') as Hl. fold n in Hl. destruct Ha' as (_ & Ha' & Hlast & _).
    destruct (decide (n = length args')) as [->|]; [done|]. destruct (lookup_lt_is_Some_2 args' n) as [arg Harg]; [lia|]. by destruct (Ha' _ _ Harg).
Qed.

Lemma uargs_snoc args arg : uargs_upto uargv args -> uword_at (uargv + 8 * Z.of_nat (length args)) -> word uargv (length args) ≠ 0 ->
  ustring_at (word uargv (length args)) arg -> Z.of_nat (length arg) < PGSIZE -> uargs_upto uargv (args ++ [arg]).
Proof.
  intros Hup H1 H2 H3 H4 k x [Hx|[Hge Hx]]%lookup_app_Some; [by apply Hup|].
  apply list_lookup_singleton_Some in Hx as [Hk <-]. assert (k = length args) as -> by lia. done.
Qed.
(** A longer vector has a string where the next pointer leads. *)
Lemma uargs_next args args' : uargs_upto uargv args -> uargs_at uargv args' -> word uargv (length args) ≠ 0 ->
  (length args < length args')%nat ∧ exists arg, ustring_at (word uargv (length args)) arg ∧ Z.of_nat (length arg) < PGSIZE.
Proof.
  intros Hup Ha Hne. pose proof (uargs_longer _ _ _ Hup Ha). destruct Ha as (_ & Ha & _ & Hz).
  destruct (decide (length args = length args')) as [E|Hd]; [by rewrite E in Hne|]. split; [lia|].
  destruct (lookup_lt_is_Some_2 args' (length args)) as [arg Harg]; [lia|]. exists arg. by destruct (Ha _ _ Harg) as (_ & _ & ? & ?).
Qed.

(** The page for the next string, and the string. *)
Lemma fetch_string args ptrs mi a fsi : copies path args ptrs mi (a :: fsi) -> uargs_upto uargv args -> length ptrs = length args ->
  uword_at (uargv + 8 * Z.of_nat (length args)) -> word uargv (length args) ≠ 0 -> 0 <= word uargv (length args) ->
  exists m2 r m3, Kalloc.kalloc mi = Ok a m2 ∧ a ≠ 0 ∧ k_fetchstr fuel p (word uargv (length args)) a PGSIZE (at_ s m2 f) = Ok r (at_ s m3 f)
    ∧ ((r <? 0) = false ∧ (exists arg, copies path (args ++ [arg]) (ptrs ++ [a]) m3 fsi ∧ uargs_upto uargv (args ++ [arg]))
       ∨ r = -1 ∧ copies path args (ptrs ++ [a]) m3 fsi ∧ forall args', ~ uargs_at uargv args').
Proof using All.
  intros Hc Hup Hlen Hw Hne Hwr. pose proof Hc as [C1 C2 C3 C4 C5].
  destruct (uspace_kalloc kend Hkend mi a fsi _ _ _ _ C1) as (m2 & Hka2 & Hsp2 & Hpa & Hnin & Hs2).
  assert (Ha0 : a ∈ fs0) by (rewrite <- C2, elem_of_app; right; left).
  assert (Hs2' : same_except (kst :: fs0) (ram m) (ram m2)) by (eapply same_trans; [exact C3|]; eapply same_one; [|exact Hs2]; by right).
  destruct (fetchstr_ok m2 fsi (word uargv (length args)) a a PGSIZE Hsp2 Hs2' Hwr ltac:(done) ltac:(apply Hpa) ltac:(lia) ltac:(lia) Hnin)
    as (r & m3 & Hrun & Hsp3 & Hfr & Hcase).
  assert (Hs3 : same_except [a] (ram mi) (ram m3)).
  { eapply same_trans; [exact Hs2|]. intros x Hx. apply Hfr. specialize (Hx a (list_elem_of_here _ _)). unfold in_page in Hx. lia. }
  assert (Hnd : NoDup (ptrs ++ a :: fsi)).
  { rewrite C2. apply (ko_nodup _ _ _ (vo_kmem _ _ _ _ _ _ (us_vm _ _ _ _ _ _ _ (ow_space _ _ _ _ _ _ _ _ Hown)))). }
  assert (Hka0 : a ≠ kst) by (intros ->; apply Hkst0; rewrite !elem_of_app; auto).
  assert (Hpm : (ptrs ++ [a]) ++ fsi ≡ₚ fs0) by (by rewrite <- app_assoc).
  assert (Hc3 : copies path args (ptrs ++ [a]) m3 fsi).
  { eapply copies_store; [exact Hc|done|done|exact Hs3|by right| |right; by exists a| |lia].
    - apply NoDup_app in Hnd as (_ & Hnd & _). intros Hin. by apply (Hnd a Hin), list_elem_of_here.
    - intros i Hi. destruct (pages_apart a kst) as [?|?]; [apply Hpa|done|done|..];
        (apply Hs3; intros y ->%list_elem_of_singleton; unfold in_page; lia). }
  exists m2, r, m3. split; [done|]. split; [by destruct (page_word kend Hkend a Hpa)|]. split; [done|].
  destruct Hcase as [(arg & Hs & Hl & -> & Hca)|(-> & Hno)].
  - left. split; [lia|]. exists arg. split; [|by apply uargs_snoc]. destruct Hc3 as [D1 D2 D3 D4 D5]. split; try done.
    intros k x y Hx [Hy|[Hge Hy]]%lookup_app_Some; [by eapply D5|]. apply list_lookup_singleton_Some in Hy as [Hk <-].
    assert (k = length ptrs) as -> by lia. rewrite lookup_app_r, Nat.sub_diag in Hx by lia. injection Hx as <-. done.
  - right. split; [done|]. split; [done|]. intros args' Ha'. destruct (uargs_next args args' Hup Ha' Hne) as [_ (arg & Hs & Hl)].
    specialize (Hno arg Hs). lia.
Qed.

Lemma fetch_args_ok : forall k args ptrs mi fsi,
  MAXARG < Z.of_nat (length args + k) -> copies path args ptrs mi fsi -> uargs_upto uargv args -> length ptrs = length args -> (length args <= 32)%nat ->
  exists ok argv' mi', fetch_args fuel kuarg k p uargv (Z.of_nat (length args)) (ptrs ++ replicate (32 - length args) 0) (at_ s mi f)
      = Ok (ok, argv') (at_ s mi' f) ∧ fetch_post path uargv ok argv' mi'.
Proof using All.
  induction k as [|k IH]; intros args ptrs mi fsi Hk Hc Hup Hlen H32; [unfold MAXARG in Hk; lia|]. cbn [fetch_args].
  assert (Hfail : forall ptrs' mi' fsi' j, copies path args ptrs' mi' fsi' ->
    (forall args', uargs_at uargv args' -> (length fs0 < length args')%nat) -> fetch_post path uargv false (ptrs' ++ replicate j 0) mi').
  { intros ptrs' mi' fsi' j Hc' Hno. exists ptrs', (replicate j 0), fsi', args. split; [done|]. split; [apply zeros|]. by split. }
  destruct (Z.leb_spec MAXARG (Z.of_nat (length args))) as [Hge|Hlt].
  { eexists false, _, mi. split; [done|]. eapply Hfail; [exact Hc|]. intros args' Ha'. pose proof (uargs_longer _ _ _ Hup Ha') as Hl.
    destruct Ha' as (Ha' & _). lia. }
  unfold MAXARG in Hlt, Hk. destruct (fetch_word args ptrs mi fsi Hc Hup Hlen H32) as (r & m1 & Hrun & Hc1 & Hcase). rewrite (bind_Ok _ _ _ _ _ Hrun).
  destruct Hcase as [(-> & Hw & Eld & Hwr)|(-> & Hno)].
  2:{ change (-1 <? 0) with true. cbv iota. eexists false, _, m1. split; [done|]. eapply Hfail; [exact Hc1|]. intros args' Ha'. by destruct (Hno args'). }
  change (0 <? 0) with false. cbv iota. erewrite mcall_at by reflexivity. rewrite Eld, Nat2Z.id.
  assert (Hset : forall x, <[length args := x]> (ptrs ++ replicate (32 - length args) 0) = ptrs ++ x :: replicate (32 - length args - 1) 0).
  { intros x. transitivity (<[length ptrs := x]> (ptrs ++ replicate (32 - length args) 0)); [by rewrite Hlen|apply zeros_set; lia]. }
  destruct (Z.eqb_spec (word uargv (length args)) 0) as [Hz|Hne].
  { rewrite Hset. eexists true, _, m1. split; [done|]. eexists ptrs, (0 :: _), fsi, args. split; [done|]. split; [by right; eexists|]. split; [done|].
    split; [|split; [done|by eexists]]. split; [unfold MAXARG; lia|]. by split_and!. }
  destruct fsi as [|a fsi].
  { rewrite (mcall_at _ _ _ _ _ _ _ (kalloc_empty kend m1 (vo_kmem _ _ _ _ _ _ (us_vm _ _ _ _ _ _ _ (co_space _ _ _ _ _ Hc1))))).
    change (0 =? 0) with true. cbv iota. rewrite Hset. eexists false, _, m1. split; [done|].
    eapply (Hfail ptrs m1 [] (S (32 - length args - 1))); [exact Hc1|]. intros args' Ha'. destruct (uargs_next args args' Hup Ha' Hne) as [Hl _].
    pose proof (Permutation_length (co_pages _ _ _ _ _ Hc1)) as Hpl. rewrite app_nil_r in Hpl. lia. }
  destruct (fetch_string args ptrs m1 a fsi Hc1 Hup Hlen Hw Hne ltac:(lia)) as (m2 & r & m3 & Hka2 & Ha0 & Hrun3 & Hcase).
  rewrite (mcall_at _ _ _ _ _ _ _ Hka2). assert ((a =? 0) = false) as -> by lia. rewrite (bind_Ok _ _ _ _ _ Hrun3).
  rewrite Hset. destruct Hcase as [(-> & arg & Hc3 & Hup3)|(-> & Hc3 & Hno)].
  - specialize (IH (args ++ [arg]) (ptrs ++ [a]) m3 fsi). rewrite !length_app, <- app_assoc in IH. cbn [length] in IH.
    replace (Z.of_nat (length args) + 1) with (Z.of_nat (length args + 1)) by lia.
    replace (32 - length args - 1)%nat with (32 - (length args + 1))%nat by lia. apply IH; [unfold MAXARG; lia|done|done|lia|lia].
  - change (-1 <? 0) with true. cbv iota. eexists false, _, m3. split; [done|]. rewrite cons_middle, app_assoc. eapply Hfail; [exact Hc3|].
    intros args' Ha'. by destruct (Hno args').
Qed.
End loop.

(** ** The system call *)
Context (Htf0 : tf ∉ kst :: ups ++ fs0 ++ tab_pages tabs) (Hku : kst <= kustack ∧ kustack + 8 * MAXARG <= kst + PGSIZE).
Context (Hfuel2 : (length ups + length fs0 < fuel)%nat) (ns : list Z -> option (list Z)).
Abbreviation failed := (ExecProps.failed kend tramp s p m fs0 tabs leaf ups kst ns).
Abbreviation runs fs args := (ExecProps.runs kend tramp s p fs tabs ups args).

Lemma copies_pages path args ptrs mi fsi : copies path args ptrs mi fsi ->
  Forall (page_ok kend) ptrs ∧ NoDup ptrs ∧ fsi ⊆ fs0 ∧ (forall a, a ∈ ptrs -> a ∈ fs0 ∧ a ∉ ups ++ fsi ++ tab_pages tabs)
  ∧ owns mi fsi q tabs leaf ups.
Proof using All.
  intros [C1 C2 C3 C4 C5]. assert (Hin : forall a, a ∈ ptrs -> a ∈ fs0) by (intros a Ha; rewrite <- C2, elem_of_app; by left).
  pose proof (us_nodup _ _ _ _ _ _ _ (ow_space _ _ _ _ _ _ _ _ Hown)) as (_ & N2 & (N3 & N4 & _)%NoDup_app)%NoDup_app.
  assert (Hnd : NoDup (ptrs ++ fsi)) by (by rewrite C2). apply NoDup_app in Hnd as (P1 & P2 & _). split_and!.
  - rewrite Forall_forall. intros a Ha. by apply fs0_page, Hin.
  - done.
  - intros a Ha. rewrite <- C2, elem_of_app. by right.
  - intros a Ha. split; [by apply Hin|]. rewrite !elem_of_app. intros [Hu|[Hf|Ht]]; [|by apply (P2 a Ha)|by apply (N4 a (Hin a Ha))].
    apply (N2 a Hu), elem_of_app. left. by apply Hin.
  - destruct Hown as [O1 O2 O3 O4]. by split.
Qed.

(** After a failure, everything is back once the copies are free. *)
Lemma failed_copies path args ptrs mi fsi rest m' fs' f' : copies path args ptrs mi fsi ->
  rest = [] ∨ (exists r, rest = 0 :: r) -> f_idle f' ns ->
  owns m' fs' q tabs leaf ups -> fs' ≡ₚ fsi -> same_except (kst :: fs0) (ram mi) (ram m') ->
  exists m2, free_args kend (ptrs ++ rest) (at_ s m' f') = Ok tt (at_ s m2 f') ∧ failed m2 f'.
Proof using All.
  intros Hc Hrest Hf Ho Hpm Hs. destruct (copies_pages _ _ _ _ _ Hc) as (P1 & P2 & P3 & P4 & _). pose proof Hc as [C1 C2 C3 C4 C5].
  destruct (free_args_ok s f' q tabs leaf ups rest ptrs m' fs' Ho P1 P2) as (m2 & Hrun & Ho2 & Hs2); [|done|].
  { intros a Ha. destruct (P4 a Ha) as [_ Hn]. rewrite Hpm. done. }
  exists m2. split; [done|]. split; [done|]. split.
  - eexists. split; [exact Ho2|]. by rewrite reverse_Permutation, Hpm.
  - eapply same_trans; [exact C3|]. eapply same_trans; [exact Hs|]. eapply same_mono; [|exact Hs2]. intros a Ha. right. by apply P4.
Qed.

(** The new program is not touched when they are freed. *)
Lemma runs_copies path args ptrs mi fsi rest m' P f' path' elf n img : copies path args ptrs mi fsi ->
  rest = [] ∨ (exists r, rest = 0 :: r) -> runs fsi args m' P path' elf n img ->
  exists m2, free_args kend (ptrs ++ rest) (at_ (setp s p P) m' f') = Ok tt (at_ (setp s p P) m2 f') ∧ runs fs0 args m2 P path' elf n img.
Proof using All.
  intros Hc Hrest (root & fs' & tabs' & leaf' & ups' & EP & Ho & Hpm & Hlow & Hg & Hargv & Hregs).
  destruct (copies_pages _ _ _ _ _ Hc) as (P1 & P2 & P3 & P4 & _). pose proof Hc as [C1 C2 C3 C4 C5].
  assert (Hno : forall a, a ∈ ptrs -> a ∉ ups' ++ fs' ++ tab_pages tabs').
  { intros a Ha Hin. destruct (P4 a Ha) as [_ Hn]. apply Hn. assert (Hin' : a ∈ fs' ++ ups' ++ tab_pages tabs') by (rewrite !elem_of_app in *; destruct Hin as [?|[?|?]]; auto).
    rewrite Hpm in Hin'. rewrite !elem_of_app in *. destruct Hin' as [?|[?|?]]; auto. }
  destruct (free_args_ok (setp s p P) f' P tabs' leaf' ups' rest ptrs m' fs' Ho P1 P2 Hno Hrest) as (m2 & Hrun & Ho2 & Hs2).
  exists m2. split; [done|]. pose proof (pages_aligned _ _ P1) as Hal.
  assert (Hby : ubyte (ram m2) ups' = ubyte (ram m') ups').
  { apply ubyte_ext. intros va Hva. destruct (ubyte_page ups' va Hva) as (j & u & o & Hj & -> & Hoo & _). rewrite !(ubyte_in _ _ j u) by done.
    assert (Hu : u ∈ ups') by (by eapply list_elem_of_lookup_2). pose proof (us_pages _ _ _ _ _ _ _ (ow_space _ _ _ _ _ _ _ _ Ho)) as Hpg.
    rewrite Forall_forall in Hpg. apply (same_page ptrs _ _ u); [done|by apply Hpg|done| |unfold in_page; lia].
    intros Hin. apply (Hno u Hin), elem_of_app. by left. }
  assert (Htfp : tf ∉ ptrs) by (intros [Hin _]%P4; apply Htf0; rewrite elem_of_cons, !elem_of_app; auto).
  assert (Hreg : forall o, 0 <= o -> o + 7 < PGSIZE -> ld64 (ram m2) (tf + o) = ld64 (ram m') (tf + o)).
  { intros o H1 H2. apply (ld64_page ptrs _ _ tf); [done|apply Htf|done|done|unfold in_page; lia..]. }
  exists root, (reverse ptrs ++ fs'), tabs', leaf', ups'. split_and!; try done.
  - rewrite reverse_Permutation, <- app_assoc, Hpm, app_assoc, C2. done.
  - by rewrite Hby.
  - by rewrite Hby.
  - unfold regs_set in *. rewrite !Hreg by (done || unfold tf_a, PGSIZE; lia). done.
Qed.

Lemma cstring_cstr str : forall k mm a, cstr mm a str -> (length str < k)%nat -> cstring k mm a = str.
Proof.
  induction str as [|b str IH]; intros [|k] mm a [Hc Hz] Hk; cbn [length] in Hk; try lia; cbn [cstring].
  - cbn [length] in Hz. rewrite Z.add_0_r in Hz. rewrite Hz. done.
  - destruct (Hc 0%nat b eq_refl) as [Hb Hne]. change (Z.of_nat 0) with 0 in Hb. rewrite Z.add_0_r in Hb. rewrite Hb.
    assert ((b =? 0) = false) as -> by lia. f_equal. apply IH; [|lia]. split.
    + intros i x Hi. specialize (Hc (S i) x Hi). by replace (a + 1 + Z.of_nat i) with (a + Z.of_nat (S i)) by lia.
    + replace (a + 1 + Z.of_nat (length str)) with (a + Z.of_nat (length (b :: str))) by (cbn [length]; lia). done.
Qed.

Abbreviation sys_exec := (Exec.sys_exec kend fuel blncflg tramp forkret_at kobj fs_filedup fs_idup fs_namei fs_fileclose fs_iput fs_begin_op fs_end_op kustack kpath kuarg).
(** Why the call may fail: the path or the vector cannot be read (or there is no page
    for a copy), or [exec] fails. *)
Definition no_exec (a0 a1 : Z) : Prop :=
  (forall path, ustring_at a0 path -> MAXPATH <= Z.of_nat (length path))
  ∨ (forall args, uargs_at a1 args -> (length fs0 < length args)%nat)
  ∨ exists path args, ustring_at a0 path ∧ uargs_at a1 args
    ∧ match ns path ≫= exec_image with
      | Some (_, n, _) => ~ args_fit (stack_top n) args ∨ Z.of_nat (length fs0) < Z.of_nat (length args) + 5 + 3 * (pages_for n + 2)
      | None => True
      end.
Definition sys_exec_post (a0 a1 r : Z) (s' : kstate (kmem * F)) : Prop :=
  r = -1 ∧ (exists m' f', s' = at_ s m' f' ∧ failed m' f') ∧ no_exec a0 a1
  ∨ exists path args elf n img m' f' P, ustring_at a0 path ∧ uargs_at a1 args ∧ ns path ≫= exec_image = Some (elf, n, img)
    ∧ r = Z.of_nat (length args) ∧ s' = at_ (setp s p P) m' f' ∧ f_idle f' ns ∧ runs fs0 args m' P path elf n img.

Lemma argraw_at mi n : 0 <= n <= 5 -> k_argaddr p n (at_ s mi f) = Ok (ld64 (ram mi) (tf + tf_a n)) (at_ s mi f).
Proof using All.
  intros Hn. assert (Hget : get_proc p (at_ s mi f) = Ok q (at_ s mi f)) by (unfold get_proc; by rewrite Hp).
  unfold k_argaddr, k_argraw. rewrite (bind_Ok _ _ _ _ _ Hget). assert ((0 <=? n) && (n <=? 5) = true) as -> by lia.
  transitivity ((mcall (load (tf + tf_a n)) ≫= mret) (at_ s mi f)); [unfold mbind, M_bind; by destruct (mcall _ _)|]. by erewrite mcall_at by reflexivity.
Qed.

(** The part after the arguments are copied. *)
Lemma exec_copies path args ptrs rest mi fsi : f_idle f ns -> copies path args ptrs mi fsi -> uargs_upto (ld64 (ram m) (tf + tf_a 1)) args ->
  length ptrs = length args -> Z.of_nat (length args) < MAXARG ->
  exists r s1, exec kend fuel blncflg tramp forkret_at kobj fs_filedup fs_idup fs_namei fs_fileclose fs_iput fs_begin_op fs_end_op kustack p path
      (ptrs ++ 0 :: rest) (at_ s mi f) = Ok r s1
  ∧ match ns path ≫= exec_image with
    | Some (elf, n, img) => exec_post kend tramp s p mi fsi tabs leaf ups kst ns args path elf n img r s1
    | None => fails kend tramp s p mi fsi tabs leaf ups kst ns r s1
    end.
Proof using All.
  intros Hf Hc Hup Hlen Hmax. destruct (copies_pages _ _ _ _ _ Hc) as (P1 & P2 & P3 & P4 & P5). pose proof Hc as [C1 C2 C3 C4 C5].
  apply exec_ok; try done.
  - intros Hin. apply Htf0. rewrite elem_of_cons, !elem_of_app in *. destruct Hin as [?|[?|[?%P3|?]]]; auto.
  - by apply kst_out.
  - apply Permutation_length in C2. rewrite length_app in C2. lia.
  - unfold PGSIZE in Hfuel. lia.
  - apply Forall2_same_length_lookup_2; [done|]. intros k a arg Ha Harg. destruct (C5 k a arg Ha Harg) as [Hca Hl].
    assert (Hin : a ∈ ptrs) by (by eapply list_elem_of_lookup_2). rewrite Forall_forall in P1. destruct (page_word kend Hkend a (P1 a Hin)) as [_ Ha0].
    destruct (P4 a Hin) as [Hf0 Hn]. split_and!; [done|apply (P1 a Hin)| |done|done].
    rewrite elem_of_cons. intros [->|Hfi]; [apply Hkst0|apply Hn]; rewrite !elem_of_app; auto.
Qed.

Lemma exec_then_free path args ptrs rest mi fsi : let a1 := ld64 (ram m) (tf + tf_a 1) in let a0 := ld64 (ram m) (tf + tf_a 0) in
  f_idle f ns -> copies path args ptrs mi fsi -> ustring_at a0 path -> uargs_at a1 args -> length ptrs = length args ->
  exists r s', (ret ← exec kend fuel blncflg tramp forkret_at kobj fs_filedup fs_idup fs_namei fs_fileclose fs_iput fs_begin_op fs_end_op kustack p path
      (ptrs ++ 0 :: rest); free_args kend (ptrs ++ 0 :: rest);; mret ret) (at_ s mi f) = Ok r s' ∧ sys_exec_post a0 a1 r s'.
Proof using All.
  intros a1 a0 Hf Hc Hpath Hua Hlen. pose proof Hua as (Hmax & Hup & _). destruct (copies_pages _ _ _ _ _ Hc) as (_ & _ & P3 & _ & _).
  destruct (exec_copies path args ptrs rest mi fsi Hf Hc Hup Hlen Hmax) as (r & s1 & Hexec & Hpost). rewrite (bind_Ok _ _ _ _ _ Hexec).
  assert (Hrest : 0 :: rest = [] ∨ exists x, 0 :: rest = 0 :: x) by (right; by eexists).
  assert (Hfail : forall m' f', ExecProps.failed kend tramp s p mi fsi tabs leaf ups kst ns m' f' -> no_exec a0 a1 ->
    exists r s', (free_args kend (ptrs ++ 0 :: rest);; mret (-1)) (at_ s m' f') = Ok r s' ∧ sys_exec_post a0 a1 r s').
  { intros m' f' (Hi & (fs' & Ho & Hpm) & Hs) Hwhy.
    destruct (failed_copies path args ptrs mi fsi (0 :: rest) m' fs' f' Hc Hrest Hi Ho Hpm) as (m3 & Hfree & Hfail).
    { eapply same_mono; [|exact Hs]. intros x. rewrite !elem_of_cons. intros [?|?%P3]; auto. }
    rewrite (bind_Ok _ _ _ _ _ Hfree). exists (-1), (at_ s m3 f'). split; [done|]. left. split; [done|]. split; [by exists m3, f'|done]. }
  pose proof (Permutation_length (co_pages _ _ _ _ _ Hc)) as Hpl. rewrite length_app in Hpl.
  destruct (ns path ≫= exec_image) as [[[elf n] img]|] eqn:Ei.
  - destruct Hpost as [(-> & (m' & f' & -> & Hfl) & Hwhy)|(-> & Hfit & m' & f' & P & -> & Hi & Hruns)].
    + apply Hfail; [done|]. right; right. exists path, args. split; [done|]. split; [done|]. rewrite Ei. destruct Hwhy as [?|?]; [by left|right; lia].
    + destruct (runs_copies path args ptrs mi fsi (0 :: rest) m' P f' path elf n img Hc Hrest Hruns) as (m3 & Hfree & Hruns3).
      rewrite (bind_Ok _ _ _ _ _ Hfree). eexists _, _. split; [done|]. right. exists path, args, elf, n, img, m3, f', P. done.
  - destruct Hpost as (-> & m' & f' & -> & Hfl). apply Hfail; [done|]. right; right. exists path, args. split; [done|]. split; [done|]. by rewrite Ei.
Qed.

Lemma sys_exec_ok : f_idle f ns ->
  exists r s', sys_exec p (at_ s m f) = Ok r s' ∧ sys_exec_post (ld64 (ram m) (tf + tf_a 0)) (ld64 (ram m) (tf + tf_a 1)) r s'.
Proof using All.
  intros Hf. set (a0 := ld64 (ram m) (tf + tf_a 0)). set (a1 := ld64 (ram m) (tf + tf_a 1)). unfold Exec.sys_exec.
  assert (Hr64 : forall n, 0 <= ld64 (ram m) n < 2 ^ 64).
  { Transparent ld64. intros n. apply (ld_bytes 8), Hbytes. Opaque ld64. }
  pose proof (ow_space _ _ _ _ _ _ _ _ Hown) as Hsp.
  destruct (fetchstr_ok m fs0 a0 kpath kst MAXPATH Hsp (same_refl _ _) ltac:(apply Hr64) ltac:(done) Hkst ltac:(lia) ltac:(lia) Hkst0)
    as (r & m1 & Hrun & Hsp1 & Hfr & Hcase).
  assert (Hs1 : same_except [kst] (ram m) (ram m1)).
  { intros a Ha. apply Hfr. specialize (Ha kst (list_elem_of_here _ _)). unfold in_page in Ha. lia. }
  assert (Hs1' : same_except (kst :: fs0) (ram m) (ram m1)) by (eapply same_one; [left|exact Hs1]).
  assert (Hargstr : k_argstr fuel p 0 kpath MAXPATH (at_ s m f) = Ok r (at_ s m1 f)).
  { unfold k_argstr. rewrite (bind_Ok _ _ _ _ _ (argraw_at m 0 ltac:(lia))). exact Hrun. }
  rewrite (bind_Ok _ _ _ _ _ Hargstr). destruct Hcase as [(path & Hpath & Hpl & -> & Hcp)|(-> & Hno)].
  2:{ change (-1 <? 0) with true. cbv iota. exists (-1), (at_ s m1 f). split; [done|]. left. split; [done|]. split; [|by left].
      exists m1, f. split; [done|]. split; [done|]. split; [|done]. exists fs0. split; [|done]. destruct Hown as [O1 O2 O3 O4]. by split. }
  assert ((Z.of_nat (length path) <? 0) = false) as -> by lia. rewrite (bind_Ok _ _ _ _ _ (argraw_at m1 1 ltac:(lia))).
  assert (E1 : ld64 (ram m1) (tf + tf_a 1) = a1).
  { apply (ld64_page [kst] _ _ tf); [done|apply Htf|by constructor| |unfold in_page, tf_a, PGSIZE; lia..].
    intros E%list_elem_of_singleton. apply Htf0. rewrite E. left. }
  rewrite E1. destruct (fetch_args_ok path a1 (Hr64 _) (S (Z.to_nat MAXARG)) [] [] m1 fs0) as (ok & argv & m2 & Hrun2 & ptrs & rest & fsi & args & -> & Hrest & Hc & Hok);
    [done|by split|by intros ? ? ?|done|cbn; lia|].
  change (fetch_args fuel kuarg (S (Z.to_nat MAXARG)) p a1 0 (replicate (Z.to_nat MAXARG) 0) (at_ s m1 f) = Ok (ok, ptrs ++ rest) (at_ s m2 f)) in Hrun2.
  rewrite (bind_Ok _ _ _ _ _ Hrun2). cbn [fst snd]. destruct (copies_pages _ _ _ _ _ Hc) as (_ & _ & P3 & _ & P5). destruct ok; cbn [negb].
  2:{ destruct (failed_copies path args ptrs m2 fsi rest m2 fsi f Hc Hrest Hf P5 ltac:(done) (same_refl _ _)) as (m3 & Hfree & Hfail).
      rewrite (bind_Ok _ _ _ _ _ Hfree). exists (-1), (at_ s m3 f). split; [done|]. left. split; [done|]. split; [by exists m3, f|]. right; by left. }
  destruct Hok as (Hua & Hlen & rest' & ->). erewrite mcall_at by reflexivity. pose proof Hua as (Hmax & Hup & _).
  rewrite (cstring_cstr path) by (apply (co_path _ _ _ _ _ Hc) || (unfold MAXPATH in *; lia)).
  by apply (exec_then_free path args ptrs rest' m2 fsi).
Qed.
End fetch.
End sys.


(** C29: The [exec] system call.  The path is the string the calling program has at its
    first argument register, and the arguments are the vector of strings it has at the
    second.  If the call succeeds, the process runs that program and finds an equal
    vector on its new stack; if not, the memory of the process and the file system are
    as before.  Either way the pages for the copies of the arguments are free again.
    The call fails only if the path or the vector is unreadable or too long, a page is
    missing, or [exec] fails for one of its own reasons. *)
Theorem sys_exec_spec {F} `{!Files F, !FilesSpec F} kend fuel blncflg tramp forkret_at kobj (fs_filedup fs_idup : Z -> callee F Z) fs_namei
    (fs_fileclose fs_iput : Z -> waker F unit) fs_begin_op fs_end_op kustack kpath kuarg (s : kstate (kmem * F)) p f m fs0 tabs leaf ups kst ns :
  exec_ready kend fuel tramp s p m fs0 tabs leaf ups kst kustack -> (forall a, 0 <= ram m a < 256) ->
  kst <= kuarg ∧ kuarg + 8 <= kst + PGSIZE -> kst <= kpath ∧ kpath + MAXPATH <= kst + PGSIZE ->
  kpath + MAXPATH <= kuarg ∨ kuarg + 8 <= kpath -> f_idle f ns ->
  let tf := trapframe (procs (kcore s) p) in
  exists r s', sys_exec kend fuel blncflg tramp forkret_at kobj fs_filedup fs_idup fs_namei fs_fileclose fs_iput fs_begin_op fs_end_op
                 kustack kpath kuarg p (at_ s m f) = Ok r s'
  ∧ sys_exec_post kend tramp s p m fs0 tabs leaf ups kst ns (ld64 (ram m) (tf + tf_a 0)) (ld64 (ram m) (tf + tf_a 1)) r s'.
Proof.
  intros [R1 R2 R3 R4 R5 R6 R7 R8 R9 [R10 R11]] Hb Hka Hkp Hkd Hf tf. by apply sys_exec_ok.
Qed.
