(* ===== verification/ExecFs.v ===== *)
(** * ExecFs: exec on the file system

    The operations [exec] takes from the class [Files], as the model of fs.c and log.c
    has them, and the proof that they keep the promises of [FilesSpec]: paths lead to the
    files the directories on the disk name, a locked inode delivers the bytes of its
    file, and in the end the table of inodes is as it was. *)

From stdpp Require Import gmap.
From S2P Require Import Prelude Exec ExecLoad.
From S2P Require Import Bytes SleepLock Bio BioRep Log LogRep LogProps Txn TxnProps Fs FsPath FsBlock FsFile FsData FsWrite FsProps FsName.

(** The bytes [readi] delivers to a kernel address pass through the local buffer. *)
#[export] Instance fs_files X `{!Copy X} : Files (fs (ftop (ist X))) := {|
  f_begin_op := begin_op;
  f_end_op := end_op;
  f_namei := namei;
  f_ilock := ilock;
  f_iunlockput := iunlockput;
  f_readi ip off n :=
    umod (fun u => u <| local := [] |>);;
    _ ← readi ip Local off n;
    ugets local
|}.

Section law.
Context {X : Type} `{!Copy X} (p lst lsz : Z) (Hlsz : lsz <= LOGSIZE) (D : Z -> list Z) (W : list (Z * list Z)).
Context (ip : Z) (Hip : inode_ok ip = true).
Abbreviation U := (ist X).
Implicit Types (x : txn U).
Abbreviation tok := (Txn.tok (U := U) p lst lsz D W).
Abbreviation fsize x := (isize (dip (FsFile.node ip x))).

(** The content of the file. *)
Definition content x : list Z := fbytes ip x 0 (fsize x).
(** The transaction, with [bs] in the local buffer. *)
Definition with_local x (bs : list Z) : txn U := x <| tup ::= fun u => u <| local := bs |> |>.

Lemma content_part x off n : 0 <= off <= fsize x -> 0 <= n -> off + n < 2 ^ 32 -> 0 <= fsize x ->
  file_part (content x) off n = fbytes ip x off (if fsize x <? off + n then fsize x - off else n).
Proof.
  intros Ho Hn Hw Hs. unfold file_part, content. rewrite length_fbytes, Z2Nat.id by done.
  assert ((off <=? fsize x) = true) as -> by lia. assert ((off + n <? 2 ^ 32) = true) as -> by lia. cbn [andb].
  set (k := if fsize x <? off + n then fsize x - off else n). assert (Hk : 0 <= k <= n ∧ off + k <= fsize x) by (unfold k; destruct (Z.ltb_spec (fsize x) (off + n)); lia).
  apply list_eq. intros i. destruct (decide (i < Z.to_nat k)%nat) as [Hi|Hi].
  - rewrite lookup_take_lt, lookup_drop by lia. unfold fbytes. rewrite !list_lookup_fmap, !lookup_seqZ_lt by lia. cbn. do 2 f_equal. lia.
  - rewrite (lookup_ge_None_2 (fbytes ip x off k)) by (rewrite length_fbytes; lia). apply lookup_ge_None_2.
    rewrite length_take, length_drop, length_fbytes. unfold k in Hi. destruct (Z.ltb_spec (fsize x) (off + n)); lia.
Qed.

Lemma splice_nil bs : splice 0 bs [] = bs.
Proof. unfold splice. cbn. by rewrite drop_nil, app_nil_r. Qed.

(** The law of [f_readi]. *)
Lemma f_readi_file x off n :
  FsFile.file_ok ip x -> blocks_ok lst x -> (forall b, can_read x b) -> 0 <= off -> 0 <= n < 2 ^ 31 ->
  tok (f_readi ip off n) x (fun bs x' => bs = file_part (content x) off n ∧ exists l, x' = with_local x l).
Proof using Hip.
  intros Hf Hx Hcr Ho Hn. cbn [f_readi fs_files]. apply tok_bind, (tok_modify p lst lsz D W). fold (with_local x []).
  assert (Hf0 : FsFile.file_ok ip (with_local x [])).
  { pose proof (layout_pos lst _ (bo_layout _ _ Hx)). eapply file_same; [exact Hf|done|done|done|done|lia]. }
  assert (Hx0 : blocks_ok lst (with_local x [])) by (destruct Hx; by split).
  assert (Hcr0 : forall b, can_read (with_local x []) b) by (intros b; destruct (Hcr b); by split).
  pose proof (fi_size _ _ Hf) as Hs. apply tok_bind. destruct (Z.lt_ge_cases (fsize x) off) as [Hlt|Hge].
  - unfold readi. apply tok_inode; [done|]. change (fsize (with_local x [])) with (fsize x).
    assert ((fsize x <? off) = true) as -> by lia. cbn [orb]. apply tok_ret. apply (tok_gets p lst lsz D W). split; [|by exists []].
    unfold file_part, content. rewrite length_fbytes, Z2Nat.id by lia. by assert ((off <=? fsize x) = false) as -> by lia.
  - assert (Hw : off + n < 2 ^ 32) by (change (MAXFILE * BSIZE) with 274432 in Hs; lia). set (k := if fsize x <? off + n then fsize x - off else n).
    assert (Hk : 0 <= k ∧ off + k <= fsize x) by (unfold k; destruct (Z.ltb_spec (fsize x) (off + n)); lia).
    eapply (tok_readi p lst lsz D W ip Hip (with_local x []) Local k off (fun bs => (tup (with_local x [])) <| local ::= splice 0 bs |>) Hf0 Hx0 Hcr0);
      [|apply accepts_local|done|lia|change (fsize (with_local x [])) with (fsize x); lia|lia|done|done|].
    + by destruct x as [? ? ? ? []].
    + apply (tok_gets p lst lsz D W). split; [|eexists; unfold after, with_local; reflexivity]. rewrite content_part by lia. fold k.
      unfold after. cbn. by rewrite splice_nil.
Qed.
End law.

(** ** The promises *)
Section spec.
Context {X : Type} `{!Copy X} (p lst lsz : Z).
Abbreviation U := (ist X).
Abbreviation F := (fs (ftop U)).
Implicit Types (f : F) (w : world) (u : U) (ns : list Z -> option (list Z)).

(** The name space of a disk. *)
Record shows w ns : Prop := {
  sh_world : world_ok lst w;
  sh_bytes : forall b, datastart (tw_sb w) <= b < sb_size (tw_sb w) -> Forall (fun c => 0 <= c < 256) (tw_cont w b);
  sh_names : forall path, ns path = disk_bytes (tw_cont w) (tw_sb w) <$> named w path
}.
(** Inside an operation that has written nothing, with [u] above the log. *)
Definition in_op w u f : Prop := exists c t v D W, f = FS c p t ∧ brep c v ∧ trep p lst lsz D W t v (ro (tw_cont w) u)
  ∧ head_n (D lst) = 0 ∧ length (D lst) = Z.to_nat BSIZE.

Definition fs_idle f ns : Prop := exists w c t v, shows w ns ∧ f = FS c p t ∧ brep c v ∧ quiet lst lsz t v ∧ vcont v = tw_cont w
  ∧ fits p w (tw_refs w) None (up t).
Definition fs_opened f ns : Prop := exists w u, shows w ns ∧ in_op w u f ∧ fits p w (tw_refs w) None u.
Definition fs_refd f ns (ip : Z) (c : list Z) : Prop := exists w u, shows w ns ∧ in_op w u f ∧ fits p w (bump ip (tw_refs w)) None u
  ∧ inode_ok ip = true ∧ tw_live w (inum (inodes u ip)) ∧ c = disk_bytes (tw_cont w) (tw_sb w) (inum (inodes u ip)).
Definition fs_locked f ns (ip : Z) (c : list Z) : Prop := exists w u, shows w ns ∧ in_op w u f ∧ fits p w (bump ip (tw_refs w)) (Some ip) u
  ∧ c = disk_bytes (tw_cont w) (tw_sb w) (inum (inodes u ip)).

Lemma run_op {A} (m : M F A) w u f (P : A -> U -> Prop) : in_op w u f -> (forall D W, rok p lst lsz D W (tw_cont w) m u P) ->
  exists r f' u', m f = Ok r f' ∧ in_op w u' f' ∧ P r u'.
Proof.
  intros (c & t & v & D & W & -> & Hb & Ht & H1 & H2) Hm. destruct (Hm D W t v Ht c Hb) as (r & c' & t' & v' & H3 & H4 & x & H5 & u' & -> & H6).
  exists r, (FS c' p t'), u'. split; [done|]. split; [|done]. by exists c', t', v', D, W.
Qed.

Lemma fs_begin f ns : fs_idle f ns -> exists f', f_begin_op f = Ok tt f' ∧ fs_opened f' ns.
Proof.
  intros (w & c & t & v & Hs & -> & Hb & Hq & Hv & Hu). destruct (vok_begin_op p lst lsz t v Hq c Hb) as ([] & c' & t' & v' & H1 & H2 & -> & H3).
  exists (FS c' p t'). split; [done|]. exists w, (up t). split; [done|]. split; [|done]. unfold first_txn in H3. rewrite Hv in H3.
  exists c', t', v, (vdisk v), (vwrites v). split_and!; [done|done|done|apply (q_clear _ _ _ _ Hq)|apply (q_len _ _ _ _ Hq)].
Qed.
Lemma fs_end f ns : fs_opened f ns -> exists f', f_end_op f = Ok tt f' ∧ fs_idle f' ns.
Proof.
  intros (w & u & Hs & (c & t & v & D & W & -> & Hb & Ht & H1 & H2) & Hu).
  destruct (vok_end_ro p lst lsz D W t v (tw_cont w) u Ht H1 H2 c Hb) as ([] & c' & t' & v' & H3 & H4 & H5 & <- & H7 & _).
  exists (FS c' p t'). split; [done|]. by exists w, c', t', v'.
Qed.
Lemma fs_namei f ns path : fs_opened f ns -> exists ip f', f_namei path f = Ok ip f'
  ∧ match ns path with Some c => ip ≠ -1 ∧ fs_refd f' ns ip c | None => ip = -1 ∧ fs_opened f' ns end.
Proof.
  intros (w & u & Hs & Ho & Hu). pose proof (sh_world _ _ Hs) as Hw.
  destruct (run_op (namei path) w u f _ Ho (fun D W => namei_txn p lst lsz D W w u path Hw Hu)) as (ip & f' & u' & H1 & H2 & H3).
  exists ip, f'. split; [done|]. rewrite (sh_names _ _ Hs). unfold lookup_post in H3. destruct (named w path) as [n|] eqn:En; cbn.
  - destruct H3 as (Hok & Hfit & Hn). split; [apply inode_ok_range in Hok; lia|]. exists w, u'. rewrite Hn. split_and!; try done.
    eapply follow_live; [apply Hw| |exact En]. unfold path_start. destruct path as [|ch path]; [apply Hw|]. destruct (ch =? slash); apply Hw.
  - destruct H3 as (-> & Hfit). split; [done|]. by exists w, u'.
Qed.
Lemma fs_ilock f ns ip c : fs_refd f ns ip c -> exists f', f_ilock ip f = Ok tt f' ∧ fs_locked f' ns ip c.
Proof.
  intros (w & u & Hs & Ho & Hu & Hok & Hl & ->). destruct (sh_world _ _ Hs) as [W1 W2 W3 W4 W5 W6].
  assert (Hr : 0 < bump ip (tw_refs w) ip) by (pose proof (it_base _ _ _ _ _ _ _ _ _ _ Hu ip); unfold bump in *; rewrite upd_eq in *; lia).
  destruct (run_op (ilock ip) w u f (fun _ u' => fits p w (bump ip (tw_refs w)) (Some ip) u' ∧ same_nums u u') Ho) as ([] & f' & u' & H1 & H2 & H3 & H4).
  { intros D W. eapply (rok_ilock p lst lsz D W (tw_cont w) (tw_sb w) (tw_live w)); [exact W1|exact Hok|exact Hr|done|exact Hu|]. done. }
  exists f'. split; [done|]. exists w, u'. by rewrite H4.
Qed.
Lemma fs_iunlockput f ns ip c : fs_locked f ns ip c -> exists f', f_iunlockput ip f = Ok tt f' ∧ fs_opened f' ns.
Proof.
  intros (w & u & Hs & Ho & Hu & ->). destruct (sh_world _ _ Hs) as [W1 W2 W3 W4 W5 W6].
  destruct (run_op (iunlockput ip) w u f (fun _ u' => fits p w (tw_refs w) None u') Ho) as ([] & f' & u' & H1 & H2 & H3).
  { intros D W. eapply (rok_iunlockput p lst lsz D W (tw_cont w) (tw_sb w) (tw_live w)); [exact W1| |exact Hu|].
    - unfold bump. rewrite upd_eq. lia.
    - intros u' Hu' _. by rewrite drop_bump in Hu'. }
  exists f'. split; [done|]. by exists w, u'.
Qed.

(** What is known of a locked inode. *)
Lemma locked_file w ns u ip : shows w ns -> fits p w (bump ip (tw_refs w)) (Some ip) u ->
  inode_ok ip = true ∧ FsFile.file_ok ip (ro (tw_cont w) u) ∧ isize (dip (inodes u ip)) = isize (disk_inode (tw_cont w) (tw_sb w) (inum (inodes u ip)))
  ∧ content ip (ro (tw_cont w) u) = disk_bytes (tw_cont w) (tw_sb w) (inum (inodes u ip)).
Proof.
  intros Hs Hu. destruct (sh_world _ _ Hs) as [W1 W2 W3 W4 W5 W6].
  destruct (it_held _ _ _ _ _ _ _ _ _ _ Hu ip eq_refl) as (Hok & Hr & Hl & Hv & _). pose proof (it_valid _ _ _ _ _ _ _ _ _ _ Hu ip Hok Hr Hl Hv) as Hn.
  pose proof (it_sb _ _ _ _ _ _ _ _ _ _ Hu) as Hsb. pose proof Hn as (_ & _ & _ & _ & Hsz & _).
  pose proof (df_size _ _ _ (tr_file _ _ _ W1 _ Hl)) as [Hz _]. split; [done|]. split; [|split; [done|]].
  - eapply ro_file; [exact W1|done| |done|done]. by apply (it_dev _ _ _ _ _ _ _ _ _ _ Hu).
  - unfold content. change (isize (dip (FsFile.node ip (ro (tw_cont w) u)))) with (isize (dip (inodes u ip))). rewrite Hsz.
    rewrite (ro_fbytes (tw_cont w) (tw_sb w)) by (done || lia). unfold slice. rewrite Z2Nat.inj_0, drop_0. apply take_ge.
    unfold disk_bytes. rewrite length_fmap, length_seqZ. lia.
Qed.
Lemma fs_readi f ns ip c off n : fs_locked f ns ip c -> 0 <= off < 2 ^ 32 -> 0 <= n <= KState.PGSIZE ->
  exists f', f_readi ip off n f = Ok (file_part c off n) f' ∧ fs_locked f' ns ip c.
Proof.
  intros (w & u & Hs & Ho & Hu & ->) Hoff Hn. destruct (locked_file w ns u ip Hs Hu) as (Hok & Hf & Hsz & Hc).
  destruct (sh_world _ _ Hs) as [W1 W2 W3 W4 W5 W6]. pose proof (it_sb _ _ _ _ _ _ _ _ _ _ Hu) as Hsb.
  destruct (run_op (f_readi ip off n) w u f (fun bs u' => bs = file_part (content ip (ro (tw_cont w) u)) off n ∧ exists l, u' = u <| local := l |>) Ho)
    as (bs & f' & u' & H1 & H2 & -> & l & ->).
  { intros D W. eapply tok_mono; [eapply (f_readi_file p lst lsz D W ip Hok); [done|by apply (ro_blocks lst _ (tw_sb w))|apply ro_read|lia|unfold KState.PGSIZE in Hn; lia]|].
    intros r x [-> [l ->]]. exists (u <| local := l |>). split; [done|]. split; [done|]. by exists l. }
  rewrite Hc in H1. exists f'. split; [done|]. exists w, (u <| local := l |>). split_and!; try done. by apply itab_local.
Qed.
Lemma fs_size f ns ip c : fs_locked f ns ip c -> Z.of_nat (length c) < 2 ^ 30.
Proof.
  intros (w & u & Hs & Ho & Hu & ->). destruct (locked_file w ns u ip Hs Hu) as (Hok & Hf & Hsz & Hc).
  pose proof (fi_size _ _ Hf) as Hz. change (node ip (ro (tw_cont w) u)) with (inodes u ip) in Hz. rewrite Hsz in Hz.
  change (MAXFILE * BSIZE) with 274432 in Hz. unfold disk_bytes. rewrite length_fmap, length_seqZ. lia.
Qed.
Lemma fs_byte f ns ip c b : fs_locked f ns ip c -> b ∈ c -> 0 <= b < 256.
Proof.
  intros (w & u & Hs & _ & Hu & ->) Hb. destruct (it_held _ _ _ _ _ _ _ _ _ _ Hu ip eq_refl) as (_ & _ & Hl & _).
  pose proof (tr_file _ _ _ (wo_tree _ _ (sh_world _ _ Hs)) _ Hl) as Hf. pose proof (df_size _ _ _ Hf) as Hz.
  unfold disk_bytes in Hb. apply list_elem_of_fmap in Hb as (o & -> & Ho%elem_of_seqZ). pose proof (file_block o ltac:(lia)) as Hbn. unfold disk_byte.
  set (b := fblk _ _ _). destruct (Z.eqb_spec b 0) as [|Hne]; [lia|]. destruct (df_data _ _ _ Hf _ Hbn Hne) as [Hr _].
  unfold byte_at. destruct (0 <=? _); [|lia]. destruct (_ !! _) as [c|] eqn:E; cbn; [|lia].
  pose proof (sh_bytes _ _ Hs b Hr) as Hall. rewrite Forall_forall in Hall. apply Hall. by eapply list_elem_of_lookup_2.
Qed.

#[export] Instance fs_files_spec : FilesSpec F := {|
  f_idle := fs_idle; f_opened := fs_opened; f_refd := fs_refd; f_locked := fs_locked;
  begin_op_ok := fs_begin; end_op_ok := fs_end; namei_ok := fs_namei; ilock_ok := fs_ilock; iunlockput_ok := fs_iunlockput;
  readi_ok := fs_readi; file_size := fs_size; file_byte := fs_byte
|}.
End spec.
