(* ===== verification/ExecWitness.v ===== *)
(** * ExecWitness: exec on a small machine

    A machine with 40 pages and a disk whose root directory holds one program: the
    assumptions of the theorems about [exec] are satisfied there, and the program is
    run, from the file system of fs.c. *)

From stdpp Require Import gmap.
From S2P Require Import Prelude KState Spinlock ProcList ProcAbs Proc ProcInv ProcFork Bytes.
From S2P Require Import SleepLock MemC Kalloc Vm VmRep VmMap VmUser VmCopy VmFree VmProps ProcVm Exec ExecLoad ExecStack ExecProps ExecSys.
From S2P Require Import FsName ExecFs.

#[local] Opaque memset memmove st64 ld64.

(** ** The disk of [SmallTree], with a program at "/a" *)
Abbreviation F := (Bio.fs (Log.ftop (Fs.ist (list Z)))).
#[export] Existing Instance FsProps.SmallFs.list_copy.
Definition prog_path : list Z := [47; 97].

Lemma program_bytes b : 46 <= b < 1000 -> Forall (fun c => 0 <= c < 256) (SmallTree.disk b).
Proof.
  intros Hb. assert (H : forall bs, forallb (fun c => (0 <=? c) && (c <? 256)) bs = true -> Forall (fun c => 0 <= c < 256) bs).
  { intros bs Hbs. rewrite forallb_forall in Hbs. apply Forall_forall. intros c Hc%list_elem_of_In%Hbs. lia. }
  apply H. unfold SmallTree.disk. assert ((b =? 45) = false) as -> by lia. assert ((b =? 32) = false) as -> by lia.
  destruct (b =? 46); [by vm_compute|]. destruct (b =? 47); by vm_compute.
Qed.
Lemma prog_fs : exists (f : F) ns, fs_idle 1 2 30 f ns ∧ ns prog_path = Some SmallTree.program.
Proof.
  destruct SmallTree.tree_booted as (c & t & v & Hb & Hq & Hu & Hd).
  assert (H2 : length (BioRep.vcont v 2) = Z.to_nat Bio.BSIZE).
  { rewrite (BioRep.br_clean _ _ Hb) by (by rewrite (TxnProps.q_refs _ _ _ _ Hq), lookup_empty). apply (TxnProps.q_len _ _ _ _ Hq). }
  set (w := SmallTree.world1 (BioRep.vcont v)).
  exists (Bio.FS c 1 t), (fun path => disk_bytes (tw_cont w) (tw_sb w) <$> named w path). split.
  - exists w, c, t, v. split; [|split_and!; try done; rewrite Hu; by apply SmallTree.user_fits]. split; [by apply SmallTree.world1_ok| |done].
    intros b Hr. change (FsBlock.datastart (tw_sb w)) with 46 in Hr. cbn in Hr. cbn. rewrite Hd by lia. apply program_bytes. lia.
  - assert (En : named w prog_path = Some 2) by exact (SmallTree.named1 _ Hd). rewrite En. cbn [fmap option_fmap option_map]. f_equal.
    cbn [w SmallTree.world1 tw_cont tw_sb]. rewrite SmallTree.dnode_bytes; [done|done|by right].
Qed.

(** ** Memory holds bytes *)
Definition bytes_in (m : kmem) : Prop := forall a, 0 <= ram m a < 256.
Definition keeps {A} (f : M kmem A) : Prop := forall m v m', bytes_in m -> f m = Ok v m' -> bytes_in m'.

Lemma keeps_ret {A} (v : A) : keeps (mret v).
Proof. by intros m v' m' Hm [= _ <-]. Qed.
Lemma keeps_fail {A} (f : M kmem A) : (forall m v m', f m ≠ Ok v m') -> keeps f.
Proof. intros Hf m v m' _ H. by destruct (Hf m v m'). Qed.
Lemma keeps_bind {A B} (f : M kmem A) (g : A -> M kmem B) : keeps f -> (forall v, keeps (g v)) -> keeps (f ≫= g).
Proof.
  intros Hf Hg m v m' Hm. unfold mbind, M_bind. destruct (f m) as [a m1| | | | |] eqn:E; try done. intros H. eapply Hg; [|exact H]. by eapply Hf.
Qed.
Lemma keeps_gets {A} (f : kmem -> A) : keeps (gets f).
Proof. by intros m v m' Hm [= _ <-]. Qed.
Lemma keeps_if {A} (b : bool) (f g : M kmem A) : keeps f -> keeps g -> keeps (if b then f else g).
Proof. by destruct b. Qed.
Lemma keeps_when b f : keeps f -> keeps (when b f).
Proof. destruct b; [done|]. intros _. apply keeps_ret. Qed.
Lemma keeps_modify f : (forall m, bytes_in m -> bytes_in (f m)) -> keeps (modify f).
Proof. intros Hf m v m' Hm [= _ <-]. by apply Hf. Qed.
Create HintDb keeps.
#[local] Hint Resolve keeps_ret keeps_bind keeps_gets keeps_if keeps_when keeps_modify : keeps.

Lemma bytes_memset m p c n : bytes_in m -> bytes_in (m <| ram ::= memset p c n |>).
Proof. intros Hm a. cbn. rewrite memset_eq. destruct (_ && _); [|apply Hm]. apply Z.mod_pos_bound. done. Qed.
Lemma st_bytes n : forall r p v, (forall a, 0 <= r a < 256) -> forall a, 0 <= st n r p v a < 256.
Proof.
  induction n as [|n IH]; intros r p v Hr a; cbn; [apply Hr|]. apply IH. intros b. unfold upd. case_decide; [by apply Z.mod_pos_bound|apply Hr].
Qed.
Transparent st64.
Lemma bytes_st64 m p v : bytes_in m -> bytes_in (m <| ram ::= fun r => st64 r p v |>).
Proof. intros Hm a. by apply (st_bytes 8). Qed.
Opaque st64.
#[local] Hint Resolve bytes_memset bytes_st64 : keeps.

(** The routines that build the machine. *)
Ltac solve_keeps := repeat first
  [ apply keeps_bind; [|intros ?] | apply keeps_if | apply keeps_when | apply keeps_ret | apply keeps_gets
  | apply keeps_modify; by auto with keeps | by apply keeps_fail | by auto with keeps ].
Lemma keeps_acquire : keeps (acquire_spin kmem_lk).
Proof. intros m v m' Hm. unfold acquire_spin. destruct (lget _ _); [done|]. by intros [= _ <-]. Qed.
Lemma keeps_release : keeps (release_spin kmem_lk).
Proof. intros m v m' Hm. unfold release_spin. destruct (lget _ _); [|done]. by intros [= _ <-]. Qed.
#[local] Hint Resolve keeps_acquire keeps_release : keeps.
Lemma keeps_kalloc : keeps Kalloc.kalloc.
Proof. unfold Kalloc.kalloc. solve_keeps. Qed.
Lemma keeps_kfree kend p : keeps (Kalloc.kfree kend p).
Proof. unfold Kalloc.kfree. solve_keeps. Qed.
#[local] Hint Resolve keeps_kalloc keeps_kfree : keeps.
Lemma keeps_freerange kend fuel : forall p e, keeps (freerange_loop kend fuel p e).
Proof. induction fuel as [|fuel IH]; intros p e; cbn [freerange_loop]; solve_keeps. Qed.
Lemma keeps_kinit kend fuel : keeps (kinit kend fuel).
Proof.
  unfold kinit, freerange. apply keeps_bind; [apply keeps_modify; by intros m Hm|]. intros _. apply keeps_freerange.
Qed.
Lemma keeps_store a v : keeps (store a v).
Proof. apply keeps_modify. intros m Hm. by apply bytes_st64. Qed.
Lemma keeps_memset_ptr p c n : keeps (memset_ptr p c n).
Proof. unfold memset_ptr. solve_keeps. Qed.
#[local] Hint Resolve keeps_freerange keeps_store keeps_memset_ptr : keeps.
Lemma keeps_walk level : forall pt va alloc, keeps (walk_loop level pt va alloc).
Proof. induction level as [|level IH]; intros pt va alloc; cbn [walk_loop]; unfold load; solve_keeps. Qed.
#[local] Hint Resolve keeps_walk : keeps.
Lemma keeps_mappages fuel pt va size pa perm : keeps (Vm.mappages fuel pt va size pa perm).
Proof.
  unfold Vm.mappages. apply keeps_if; [by apply keeps_fail|]. generalize (PGROUNDDOWN va), pa. generalize (PGROUNDDOWN (u64 (va + size - 1))).
  clear. intros last. induction fuel as [|fuel IH]; intros a pa; cbn [mappages_loop]; unfold walk, load; solve_keeps.
Qed.
Lemma keeps_uvmcreate : keeps Vm.uvmcreate.
Proof. unfold Vm.uvmcreate. solve_keeps. Qed.

(** ** The machine *)
Definition kend40 : Z := PHYSTOP - 40 * PGSIZE.
Definition fuel40 : nat := Z.to_nat 5000.
Definition boot40 : kmem := Kmem true 0 (fun _ => 0).

(** A process with an empty user memory: a page table with the trampoline page and
    the trapframe page, both at address 0. *)
Lemma machine : exists m fs root tabs, uspace kend40 m fs root tabs (proc_leaf 0 0) [] ∧ bytes_in m ∧ (35 <= length fs <= 40)%nat.
Proof.
  destruct (kinit_ok kend40 ltac:(done) boot40 41) as (m1 & Hk & Hok); [done|done|vm_compute; lia|].
  assert (Hb1 : bytes_in m1).
  { eapply (keeps_kinit kend40 41 boot40 tt); [|exact Hk]. intros a. cbn. lia. }
  assert (Hlen : length (all_pages kend40) = 40%nat) by done. destruct (all_pages kend40) as [|q fs]; [done|]. injection Hlen as Hlen.
  destruct (uvmcreate_ok kend40 m1 q fs ltac:(done) Hok) as (m2 & Hc & Hu & _).
  pose proof (keeps_uvmcreate m1 q m2 Hb1 Hc) as Hb2. clear Hk Hc Hok Hb1.
  destruct (mappages_page kend40 ltac:(done) 10 m2 fs q _ _ (TRAMPOLINE / PGSIZE) 0 (Z.lor PTE_R PTE_X) ltac:(lia) (us_vm _ _ _ _ _ _ _ Hu))
    as (r1 & m3 & fs1 & tabs1 & H3 & [(_ & Hc1 & Hp1)|(_ & _ & Hc1 & _)]); [done..| |lia].
  pose proof (keeps_mappages _ _ _ _ _ _ m2 r1 m3 Hb2 H3) as Hb3. clear H3 Hb2.
  pose proof (uspace_top kend40 _ _ _ _ _ _ _ _ _ _ _ Hu Hp1 ltac:(done)) as Hu1.
  destruct (mappages_page kend40 ltac:(done) 10 m3 fs1 q tabs1 _ (TRAPFRAME / PGSIZE) 0 (Z.lor PTE_R PTE_W) ltac:(lia) (us_vm _ _ _ _ _ _ _ Hu1))
    as (r2 & m4 & fs2 & tabs2 & H4 & [(_ & Hc2 & Hp2)|(_ & _ & Hc2 & _)]); [done..| |lia].
  pose proof (keeps_mappages _ _ _ _ _ _ m3 r2 m4 Hb3 H4) as Hb4.
  pose proof (uspace_top kend40 _ _ _ _ _ _ _ _ _ _ _ Hu1 Hp2 ltac:(done)) as Hu2.
  exists m4, fs2, q, tabs2. split; [exact Hu2|]. split; [exact Hb4|]. split; [lia|].
  destruct Hp1 as (_ & _ & Ha1 & _), Hp2 as (_ & _ & Ha2 & _). unfold accounted in *.
  apply Permutation_length in Ha1, Ha2. rewrite !length_app in *. unfold tab_pages in Ha1 at 2. rewrite map_to_list_singleton in Ha1. cbn in Ha1. lia.
Qed.

Abbreviation none1 := (fun (_ : Z) (_ : F) => None).
Abbreviation no_namei := (fun (_ : list Z) (_ : F) => None).
Abbreviation no_op := (fun (_ : F) => None).
Definition proc40 (root : Z) : proc :=
  Proc RUNNING CNull 0 0 1 0 3 (-1) None 0 0 root 0 (Context 0 0 []) (fun _ => 0) 0 (replicate 16 0).
Definition base40 (f : F) : kstate (kmem * F) := KState (boot_core (boot40, f)) boot_sync.
Definition state40 (f : F) (root : Z) : kstate (kmem * F) := setp (base40 f) 3 (proc40 root).
Lemma procs_setp {F} (s : kstate (kmem * F)) p P : procs (kcore (setp s p P)) p = P.
Proof. unfold setp, setter. cbn. apply upd_eq. Qed.
Lemma proc_state40 f root : procs (kcore (state40 f root)) 3 = proc40 root.
Proof. exact (procs_setp (base40 f) 3 (proc40 root)). Qed.

(** The kernel stack is the page at 4096. *)
Lemma ready40 f m fs root tabs : uspace kend40 m fs root tabs (proc_leaf 0 0) [] -> (length fs <= 40)%nat ->
  exec_ready kend40 fuel40 0 (state40 f root) 3 m fs tabs (proc_leaf 0 0) [] 4096 4096.
Proof.
  intros Hu Hl. assert (Hlow : forall x, x ∈ [] ++ fs ++ tab_pages tabs -> kend40 <= x).
  { intros x. rewrite app_nil_l. intros [Hx|[p Hx]%in_tab_pages]%elem_of_app.
    - pose proof (ko_pages _ _ _ (vo_kmem _ _ _ _ _ _ (us_vm _ _ _ _ _ _ _ Hu))) as H. rewrite Forall_forall in H. by apply H.
    - by apply (fo_page _ _ _ _ _ (vo_forest _ _ _ _ _ _ (us_vm _ _ _ _ _ _ _ Hu)) p x Hx). }
  assert (Hk : 4096 < kend40) by done. split; rewrite ?proc_state40; [done|done| |done|done|done| | |done|].
  - by split.
  - cbn [proc40 trapframe]. intros [E|Hin]%elem_of_cons; [done|]. apply Hlow in Hin. lia.
  - intros Hin. apply Hlow in Hin. lia.
  - cbn [length]. unfold fuel40, PGSIZE. lia.
Qed.

Lemma prog_image : exists elf img, exec_image SmallTree.program = Some (elf, 8192, img).
Proof.
  destruct (exec_image SmallTree.program) as [[[elf n] img]|] eqn:E; [|by vm_compute in E]. exists elf, img.
  assert (H : (x ← exec_image SmallTree.program; Some x.1.2) = Some 8192) by (by vm_compute). rewrite E in H. injection H as ->. done.
Qed.

Lemma exec_spec_witness : exists f m root s',
  exec kend40 fuel40 false 0 0 0 none1 none1 no_namei none1 none1 no_op no_op 4096 3 prog_path ([] ++ 0 :: []) (at_ (state40 f root) m f) = Ok 0 s'.
Proof.
  destruct machine as (m & fs & root & tabs & Hu & _ & Hl). destruct prog_fs as (f & ns & Hf & Hns).
  destruct (exec_spec (FilesSpec0 := fs_files_spec 1 2 30) kend40 fuel40 false 0 0 0 none1 none1 no_namei none1 none1 no_op no_op 4096 (state40 f root) 3 m fs
    tabs (proc_leaf 0 0) [] 4096 ns [] [] [] prog_path f (ready40 f m fs root tabs Hu ltac:(lia)) ltac:(constructor) ltac:(done) Hf) as (r & s' & Hrun & Hpost).
  exists f, m, root, s'. destruct prog_image as (elf & img & Ei).
  assert (En : ns prog_path ≫= exec_image = Some (elf, 8192, img)) by (by rewrite Hns). rewrite En in Hpost.
  destruct Hpost as [(_ & _ & [Hno|Hs])|(-> & _)]; [| |exact Hrun]; exfalso.
  - apply Hno. by vm_compute.
  - change (pages_for 8192) with 2 in Hs. lia.
Defined.

Lemma sys_exec_spec_witness : exists f m root r s',
  sys_exec kend40 fuel40 false 0 0 0 none1 none1 no_namei none1 none1 no_op no_op 4096 4352 4480 3 (at_ (state40 f root) m f) = Ok r s'.
Proof.
  destruct machine as (m & fs & root & tabs & Hu & Hb & Hl). destruct prog_fs as (f & ns & Hf & _).
  destruct (sys_exec_spec (FilesSpec0 := fs_files_spec 1 2 30) kend40 fuel40 false 0 0 0 none1 none1 no_namei none1 none1 no_op no_op 4096 4352 4480
    (state40 f root) 3 f m fs tabs (proc_leaf 0 0) [] 4096 ns (ready40 f m fs root tabs Hu ltac:(lia)) Hb ltac:(done) ltac:(done) ltac:(left; done) Hf) as (r & s' & Hrun & _).
  exists f, m, root, r, s'. exact Hrun.
Defined.
